(* ===== verification/_CoqProject ===== *)
-Q . S2P
Prelude.v
ByteBuffer.v
Messages.v
MsgFactory.v
Float32.v
SessionSm.v
Sockets.v
Timer.v
Net.v
NetReactor.v
Storage.v
FileRanges.v
FileProgress.v
Sha1.v
Sha1Spec.v
Bdecode.v
BdecodeSpec.v
BdecodeNodes.v
BdecodeText.v
Entry.v
EntrySpec.v
Paths.v
FileStorage.v
Symlinks.v
SymlinksSpec.v
TorrentFiles.v
Magnet.v
MagnetSpec.v
Urls.v
TorrentNames.v
Encoding.v
TorrentExtras.v
TorrentInfo.v
TorrentLayout.v
Reorder.v
TorrentRead.v
TorrentTotal.v
TorrentMake.v
Merkle.v
CreateTorrent.v
CreateSpec.v
IpFilter.v
PacketBuffer.v
Bitfield.v
Files.v
PieceHandler.v
Agent.v
Samples.v
PieceRequests.v
PieceWrites.v
Download.v
EndToEnd.v
Framing.v
AgentLife.v
Session.v
Threads.v
SessionLife.v
Completion.v
Random.v
UdpTracker.v
TrackerClient.v
App.v
