(* ===== verification/Prelude.v ===== *)
(** * tent: a verification development for the BitTorrent client

    tent ([src/], [include/], [app/]) downloads one torrent: it reads the torrent file,
    asks the trackers for peers, connects to each of them, requests the blocks of the
    pieces, checks every complete piece against its SHA-1 hash and writes it into the
    files.  The vendored libtorrent ([extern/libtorrent]) gives it the decoder of
    bencoded data, SHA-1, the layout of the files and the paths they get.  The
    development models both, as pure functions over explicit states; every definition
    that models code names its file, lines and symbol in the comment before it.

    ** How the program runs, and where its parts are

    [app/main.cpp] (App.v) reads the torrent file ([file_reader.cpp]), lets libtorrent
    parse it, and starts a session.

    A session ([session.cpp]; Session.v) owns a reactor over epoll ([net_reactor.cpp];
    NetReactor.v), a timer ([timer.cpp]; Timer.v, with the binary32 arithmetic of
    Float32.v) and a piece handler ([piece_handler.cpp]; PieceHandler.v).  Its engine
    thread polls the reactor, which calls the agents ([torrent_agent.cpp]; Agent.v), one
    for each peer; the main thread prints the progress.  The two threads, their mutex and
    condition variable are the step relation of Threads.v.  An agent drives a state
    machine ([session_sm.cpp]; SessionSm.v), cuts the stream of its socket
    ([tcp_socket.cpp], [udp_socket.cpp]; Sockets.v, UdpTracker.v) into messages
    (Messages.v), answers with messages of the factory ([msg_factory.cpp]; MsgFactory.v)
    and hands blocks to the piece handler, which writes through the file handlers
    ([file_handler.cpp]; Files.v) at the places [map_block] computes (Storage.v).
    Agents share the [world] of Agent.v: the reactor, the timer, the piece handler, the
    files on disk, the flags of the session and the state of the operating system; the
    calls between components are calls of the definitions, state in and state out.

    Peers come from the trackers: [udp_tracker_client.cpp] (UdpTracker.v) and
    [tracker_client.cpp] with [http_client.cpp] (TrackerClient.v), whose responses are
    read with libtorrent's decoder; transaction numbers are drawn by [random.cpp] (Random.v).

    libtorrent: Bdecode.v is the decoder and its nodes, BdecodeText.v the check for soft
    errors and printing, Entry.v the entries and the encoder, Sha1.v the hasher, Paths.v
    the sanitizing of the paths a torrent names.  [torrent_info.cpp] is TorrentInfo.v (the
    info section, the hashes of the pieces, the trackers and [parse_torrent_file]), with
    the list of files in TorrentFiles.v, the renaming of files whose names collide in
    TorrentNames.v, the rest of the file (web seeds, texts, nodes, references to other
    torrents) in TorrentExtras.v over Urls.v and Encoding.v, and the magnet link a file
    may hold instead in Magnet.v; the files it adds are the [file_storage] of
    FileStorage.v, whose symbolic links Symlinks.v validates.  What the client asks of the
    result ([info_of]) is the [torrent_info] of Storage.v; FileRanges.v has the other
    questions about files and pieces.  The way back is CreateTorrent.v
    ([create_torrent.cpp]): a list of files is put in order (Reorder.v,
    [file_storage::optimize]), cut into pieces, told their hashes, the trackers and the rest,
    and written as an entry.  Merkle.v ([merkle.cpp] and its callers) is the hash tree that may
    stand for the hashes of the pieces: how it is made, taken from peers and given to them.
    Four further parts of libtorrent stand for themselves: FileProgress.v ([file_progress.cpp],
    how much of each file is there), IpFilter.v ([ip_filter.cpp], the flags of addresses and
    ports), PacketBuffer.v ([packet_buffer.cpp], packets by their wrapping sequence numbers) and
    Bitfield.v ([bitfield.cpp], bits in words of network order).

    Conventions: bytes are [Z] in [0, 256), integers are [Z] with the wrap-around of their
    width written out ([u8] ... [u64], [i32] below); a call that may throw, or whose
    behaviour C++ leaves open, returns a [result], whose [fault]s are listed below; reads
    outside of a container, behind its end or before its beginning, are the class [PastEnd].
    Assertions ([TORRENT_ASSERT]) are taken as compiled out, as in a release build; only
    [build_merkle_list], where one contradicts the rest of the code, has a parameter for them.  Objects that are not in the
    repository are classes: [ByteBuffer] (the absent submodule), [OS], [UdpOS],
    [FileSystem] and [Ifstream] (system calls), [Http] (curl), [SetOrder] (the order of an
    [unordered_set]), [Endian], [Shuffle] ([std::shuffle]) and [Crc32c] (the boost
    library's checksum); their [...Laws] state the documented behaviour a theorem needs,
    and ListBuffer and Samples.v instantiate them.

    ** What is proved

    - The program (App.v, EndToEnd.v, SessionLife.v): a torrent file made for some content
      loads as what it was made from, and when the session of the client that downloads it
      from genuine blocks has stopped, its files on disk hold the content.  A turn of the
      engine changes the piece handler by its operations only and stops the session only
      when the count of written pieces is full, whatever the peers and the system do, and it
      refines the steps of Threads.v.
    - Download (PieceRequests.v, PieceWrites.v, Download.v), for torrents with distinct file
      names, a piece length that is a multiple of 16384 and fewer than 2^48 bytes, whose files
      can be opened, and blocks of existing pieces: requests name only blocks a
      peer announced and that are missing, and every one of them; the session stops only
      when every piece on disk has its hash; with genuine blocks the disk ends up with
      the torrent's content.  The invariants are [queues_ok] and [download_inv].
      Completion.v proves that a peer that has the torrent and answers every request, after
      its handshake, makes the client finish.
    - Torrent files: TorrentLayout.v proves that what loads without an error is well formed
      ([torrent_ok], the hypothesis of the theorems about downloads), TorrentRead.v that
      the info hash is the digest of the bytes written under the key "info" of the root and what
      the trackers are, TorrentTotal.v that reading returns on every
      file but three kinds, TorrentMake.v the round trip from a torrent as it is meant,
      CreateSpec.v the round trip from what [create_torrent] generates, and that a torrent made
      from one that was read keeps its info section byte for byte, MagnetSpec.v the round trip of magnet links and that reading one returns, Urls.v
      that of URLs.  SymlinksSpec.v proves that the links of a torrent, once validated,
      lead to files, directories or links of it ([links_inside]); TorrentTotal.v that this holds of a
      file that was read, until a file whose name clashes is renamed.
    - Files and pieces: FileRanges.v proves that the file found at an offset holds it, that
      [map_file] and [map_block] are inverse, and which pieces the two ranges of a file name;
      Reorder.v that [optimize] lays the files of the torrent out one after the other, none
      lost, padding between them, and that no piece is shared by two files when all are padded.
    - Merkle trees (Merkle.v): the tree that is made has its nodes where they belong; what is
      taken from peers keeps every node of the tree checked against the root, the hashes given
      out with a piece suffice to check it, and a piece whose hash is taken is the torrent's
      unless someone found a second preimage among the messages hashed.
    - Streams (Framing.v): the messages handled do not depend on how the stream is cut
      into reads; each frame is handled once and in order; the loop ends, except on the
      length prefix that wraps.
    - Life of an agent (AgentLife.v), timer (Timer.v), threads (Threads.v): sending,
      disconnection, reconnection and the requests of an agent; when the one client of
      a timer is called; no deadlock, and the end of both threads after a stop.  In Threads.v the
      steps of the program ([program_step]) are apart from spurious wake-ups: these may happen,
      but nothing depends on them.
    - Wire formats (MsgFactory.v, Net.v, UdpTracker.v): layouts and round trips.
    - Bencoded data: BdecodeSpec.v gives the grammar ([item]) and proves that the decoder
      accepts exactly the buffers that begin with a value of it, within its limits, and
      returns on every buffer; BdecodeNodes.v proves that the accessors of a node compute
      what the value ([bvalue]) has at that place, whatever the caches hold; EntrySpec.v
      that encoding, decoding and converting gives an entry back.  TrackerClient.v proves
      the reading of peers against the values, not against the tokens.
    - SHA-1 (Sha1Spec.v): the hasher computes the digest of FIPS 180, however the message
      is cut.  [Sha1] in Storage.v, the digest of the concatenation, is that function.
    - FileProgress.v: the counts are those of the set of pieces, and completed files are
      reported once.  IpFilter.v: a filter is the function its rules describe, and rules of the
      same meaning make the same filter.  PacketBuffer.v: the buffer is a map for the numbers it
      reaches ([packet_buffer_is_map]).  Bitfield.v: a bitfield is a list of bits.
    - Paths (Paths.v): no torrent can name a path outside the directory it is taken from.
    - Faults of the code that the model shows are theorems too (a piece with a wrong hash
      is never requested again, a lost message, a dangling iterator, and others); the
      manifest lists them as findings.

    ** Bounds and fuel

    Loops whose end is not structural take fuel and return [OutOfFuel] when it is used up;
    each has a theorem that its fuel is enough, or that bounds its turns: one turn per
    byte in the decoder and in sanitizing a path, one per token in the walks of a node
    (the tokens after it bound its items), one per message in [on_read], one per block
    and slice in writing a piece, 64 in the padding of SHA-1, one per character of a magnet link
    or of a text that is checked, one per element of a link's target and of the targets of
    the links on the way ([follow_fuel], [follow_returns]), 31 doublings for the leaves
    of a Merkle tree (the number of pieces is an [int]) and 31 steps from a leaf to its root,
    two turns per file in [optimize] (one puts the file, one its padding), one element of a
    path per character, 9999 numbers tried for a name that
    collides (enough for fewer than 9000 files, [resolve_returns]), 32 doublings of the packet
    buffer's capacity, and one turn per slot when its ends are moved.

    ** Not modelled

    Logging ([log_ctrl.cpp], spdlog) has no effect on the state; the seeds of
    [random.cpp] (Random.v) are the class [UdpOS].  The transfer of an HTTP request is curl's
    ([Http]).  Of a magnet link the peers given by address are left out, which need the
    parser of addresses of the boost library.  Of [create_torrent.cpp] the walk of a directory
    ([add_files]) and the reading of the pieces on the disk thread ([set_piece_hashes]) are left
    out: what they produce, the list of files and the hashes, are arguments of the theorems.  Of libtorrent's
    session, disk, peer and DHT code nothing is modelled but the four parts named above, and nothing
    of it is called by the client;
    curlpp is only called for the transfer. *)

From stdpp Require Export base numbers list list_numbers strings gmap.
From Stdlib Require Export ZArith Lia.

#[global] Open Scope Z_scope.

Declare Scope tent_scope.
Delimit Scope tent_scope with tent.
#[global] Open Scope tent_scope.

(** ** Bytes and strings

    A byte is a [Z] in [0, 256); a C++ [std::string], a [std::vector<uint8_t>]
    and a region of memory are all lists of bytes. *)

Abbreviation bytes := (list Z).

Definition byte_ok (b : Z) : Prop := 0 <= b < 256.

Definition bytes_ok (l : bytes) : Prop := Forall byte_ok l.

#[global] Instance byte_ok_dec b : Decision (byte_ok b).
Proof. unfold byte_ok. apply _. Defined.

#[global] Instance bytes_ok_dec l : Decision (bytes_ok l).
Proof. unfold bytes_ok. apply _. Defined.

Fixpoint bytes_of_string (s : string) : bytes :=
  match s with
  | EmptyString => []
  | String c s' => Z.of_N (Ascii.N_of_ascii c) :: bytes_of_string s'
  end.

(** The number a string of decimal digits denotes. *)
Definition number (ds : bytes) : Z := foldl (fun n c => n * 10 + (c - 48)) 0 ds.

(** [std::string::find] *)
Fixpoint find_str (pat s : bytes) : option nat :=
  if bool_decide (pat `prefix_of` s) then Some 0%nat
  else match s with [] => None | _ :: s' => S <$> find_str pat s' end.

(** [std::isspace], [lt::is_space] *)
Definition is_space (c : Z) : bool := (c =? 32) || ((9 <=? c) && (c <=? 13)).

(** The longest front of decimal digits, and what follows white space. *)
Fixpoint take_digits (s : bytes) : bytes :=
  match s with
  | c :: s' => if (48 <=? c) && (c <=? 57) then c :: take_digits s' else []
  | [] => []
  end.

Fixpoint skip_spaces (s : bytes) : bytes :=
  match s with
  | c :: s' => if is_space c then skip_spaces s' else s
  | [] => []
  end.

(** White space, a sign and digits, as [std::stoi] and [std::atoi] read them: the digits and
    the number they denote; the rest of the string is ignored. *)
Definition signed_digits (s : bytes) : bytes * Z :=
  let s := skip_spaces s in
  let '(neg, s) :=
    match s with
    | 45 :: s' => (true, s')
    | 43 :: s' => (false, s')
    | _ => (false, s)
    end in
  (take_digits s, if neg : bool then - number (take_digits s) else number (take_digits s)).

(** ** Machine integers

    A w-bit unsigned integer is a [Z]; a computation of the source that may wrap
    is followed by the reduction to its width. *)

Definition u8 (z : Z) : Z := z mod 2 ^ 8.
Definition u16 (z : Z) : Z := z mod 2 ^ 16.
Definition u32 (z : Z) : Z := z mod 2 ^ 32.
Definition u64 (z : Z) : Z := z mod 2 ^ 64.
Definition i32 (z : Z) : Z := (z + 2 ^ 31) mod 2 ^ 32 - 2 ^ 31.
Definition i64 (z : Z) : Z := (z + 2 ^ 63) mod 2 ^ 64 - 2 ^ 63.

Lemma u32_range z : 0 <= u32 z < 2 ^ 32.
Proof. apply Z.mod_pos_bound. lia. Qed.
Lemma u32_small z : 0 <= z < 2 ^ 32 -> u32 z = z.
Proof. apply Z.mod_small. Qed.
Lemma u64_small z : 0 <= z < 2 ^ 64 -> u64 z = z.
Proof. apply Z.mod_small. Qed.
Lemma u16_small z : 0 <= z < 2 ^ 16 -> u16 z = z.
Proof. apply Z.mod_small. Qed.
Lemma u8_small z : 0 <= z < 2 ^ 8 -> u8 z = z.
Proof. apply Z.mod_small. Qed.
Lemma i32_small z : - 2 ^ 31 <= z < 2 ^ 31 -> i32 z = z.
Proof. intros H. unfold i32. rewrite Z.mod_small; lia. Qed.
Lemma i64_small z : - 2 ^ 63 <= z < 2 ^ 63 -> i64 z = z.
Proof. intros H. unfold i64. rewrite Z.mod_small; lia. Qed.
Lemma u32_u32 z : u32 (u32 z) = u32 z.
Proof. apply u32_small, u32_range. Qed.

(** ** Network byte order *)

(** The [n] bytes of [v], most significant first. *)
Fixpoint be (n : nat) (v : Z) : bytes :=
  match n with
  | O => []
  | S m => be m (v / 256) ++ [v mod 256]
  end.

(** The number a big-endian byte string denotes. *)
Definition unbe (l : bytes) : Z := foldl (fun a b => a * 256 + b) 0 l.

Lemma length_be n v : length (be n v) = n.
Proof. revert v; induction n as [|n IH]; intros v; simpl; [done|]. rewrite length_app, IH. simpl. lia. Qed.

Lemma be_bytes_ok n v : bytes_ok (be n v).
Proof.
  revert v; induction n as [|n IH]; intros v; simpl; [constructor|].
  apply Forall_app; split; [apply IH|].
  constructor; [|constructor]. apply Z.mod_pos_bound. lia.
Qed.

Lemma unbe_app l b : unbe (l ++ [b]) = unbe l * 256 + b.
Proof. unfold unbe. by rewrite foldl_app. Qed.

Lemma unbe_be n v : unbe (be n v) = v mod 256 ^ Z.of_nat n.
Proof.
  revert v; induction n as [|n IH]; intros v.
  - simpl. by rewrite Z.mod_1_r.
  - cbn [be]. rewrite unbe_app, IH.
    rewrite Nat2Z.inj_succ, Z.pow_succ_r by lia.
    rewrite (Z.rem_mul_r v 256) by lia. lia.
Qed.

Lemma unbe_bound l : bytes_ok l -> 0 <= unbe l < 256 ^ Z.of_nat (length l).
Proof.
  induction l as [|b l IH] using rev_ind; intros Hl; [cbn; lia|].
  apply Forall_app in Hl as [Hl Hb]. apply Forall_cons in Hb as [Hb _].
  specialize (IH Hl). unfold byte_ok in Hb.
  rewrite unbe_app, length_app. simpl (length [b]).
  rewrite Nat.add_1_r, Nat2Z.inj_succ, Z.pow_succ_r by lia. nia.
Qed.

Lemma be_unbe l : bytes_ok l -> be (length l) (unbe l) = l.
Proof.
  induction l as [|b l IH] using rev_ind; intros Hl; [done|].
  apply Forall_app in Hl as [Hl Hb]. apply Forall_cons in Hb as [Hb _].
  unfold byte_ok in Hb. rewrite length_app, unbe_app. simpl (length [b]).
  rewrite Nat.add_1_r. cbn [be].
  rewrite Z.div_add_l, Z.div_small, Z.add_0_r by lia.
  rewrite (Z.add_comm _ b), Z.mod_add, Z.mod_small by lia.
  by rewrite IH.
Qed.

Lemma unbe_be_small n v : 0 <= v < 256 ^ Z.of_nat n -> unbe (be n v) = v.
Proof. intros H. rewrite unbe_be. by apply Z.mod_small. Qed.

(** ** Loads past the end of a container

    The source loads bytes through raw pointers, in places past the last byte of
    the container they point into, or before its first; C++ leaves the value open.
    [past_end l i] is the byte such a load of index [i] over the contents [l] happens to
    give.  A result that is the same for every [PastEnd] does not depend on any such load. *)
Class PastEnd := past_end : bytes -> Z -> Z.

Definition byte_at `{PastEnd} (l : bytes) (i : nat) : Z :=
  match l !! i with
  | Some b => b
  | None => past_end l (Z.of_nat i)
  end.

(** The [n] bytes at [off] of the memory that starts with [l]. *)
Definition span `{PastEnd} (l : bytes) (off n : nat) : bytes :=
  map (byte_at l) (seq off n).

Lemma length_span `{PastEnd} l off n : length (span l off n) = n.
Proof. unfold span. by rewrite length_map, length_seq. Qed.

Lemma span_in_range `{PastEnd} l off n :
  (off + n <= length l)%nat -> span l off n = take n (drop off l).
Proof.
  intros Hle. apply list_eq. intros i.
  unfold span. destruct (decide (i < n)%nat) as [Hi|Hi].
  - rewrite lookup_take_lt by done. rewrite lookup_drop.
    rewrite list_lookup_fmap, lookup_seq_lt by done. simpl.
    unfold byte_at. by destruct (lookup_lt_is_Some_2 l (off + i)) as [x ->]; [lia|].
  - rewrite !(proj2 (lookup_ge_None _ _)); try done.
    + rewrite length_take, length_drop. lia.
    + rewrite length_map, length_seq. lia.
Qed.

(** The [n] bytes at index [off], which may be negative. *)
Definition bytes_at `{PastEnd} (l : bytes) (off : Z) (n : nat) : bytes :=
  map (fun k => let i := off + Z.of_nat k in if i <? 0 then past_end l i else byte_at l (Z.to_nat i)) (seq 0 n).

Lemma length_bytes_at `{PastEnd} l off n : length (bytes_at l off n) = n.
Proof. unfold bytes_at. by rewrite length_map, length_seq. Qed.

Lemma bytes_at_in_range `{PastEnd} l off n : 0 <= off -> off + Z.of_nat n <= Z.of_nat (length l) ->
  bytes_at l off n = take n (drop (Z.to_nat off) l).
Proof.
  intros H0 Hle. rewrite <- span_in_range by lia. unfold bytes_at, span. rewrite <- (Nat.add_0_r (Z.to_nat off)), <- fmap_add_seq.
  change (Nat.add (Z.to_nat off) <$> seq 0 n) with (map (Nat.add (Z.to_nat off)) (seq 0 n)). rewrite map_map. apply map_ext. intros k.
  cbv zeta. rewrite (proj2 (Z.ltb_ge _ _)) by lia. f_equal. lia.
Qed.

(** ** Faults: how a call of the source can fail to return normally *)
Inductive fault :=
  | OutOfRange          (** [std::out_of_range], thrown by [at] and [substr] *)
  | InvalidArgument     (** [std::invalid_argument], thrown by [std::stoi] *)
  | RuntimeError        (** [std::runtime_error], thrown by the socket and endpoint classes *)
  | DanglingIterator    (** an iterator is dereferenced after its element was erased *)
  | SystemError         (** [lt::system_error], thrown by the accessors of [lt::entry] *)
  | SignedOverflow      (** a signed integer overflows, which C++ leaves undefined *)
  | BadPrecondition     (** a library function is called outside its documented precondition *)
  | DivisionByZero      (** an integer division or remainder by zero *)
  | BadFunctionCall     (** [std::bad_function_call], thrown by calling an empty [std::function] *)
  | AssertionFailed     (** a [TORRENT_ASSERT], where the build checks them *)
  | OutOfFuel.          (** the loop did not end within the fuel it was given *)

Inductive result (A : Type) :=
  | Ok (a : A)
  | Fault (f : fault).
Arguments Ok {A} a.
Arguments Fault {A} f.

#[global] Instance result_ret : MRet result := fun A a => Ok a.
#[global] Instance result_bind : MBind result :=
  fun A B f m => match m with Ok a => f a | Fault e => Fault e end.
#[global] Instance result_fmap : FMap result :=
  fun A B f m => match m with Ok a => Ok (f a) | Fault e => Fault e end.
#[global] Instance fault_eq_dec : EqDecision fault.
Proof. solve_decision. Defined.

Lemma result_bind_ok {A B} (m : result A) (f : A -> result B) b :
  m ≫= f = Ok b <-> exists a, m = Ok a /\ f a = Ok b.
Proof. destruct m as [a|e]; simpl; naive_solver. Qed.

(** The value of a call that returns, or [d]. *)
Definition ok_or {A} (d : A) (r : result A) : A := match r with Ok a => a | Fault _ => d end.
Definition is_ok {A} (r : result A) : bool := match r with Ok _ => true | Fault _ => false end.

Lemma is_ok_or {A} (d : A) r : is_ok r = true -> r = Ok (ok_or d r).
Proof. by destruct r. Qed.

Lemma is_ok_pair {A B} (d : A * B) r b : is_ok r = true -> (ok_or d r).2 = b -> r = Ok ((ok_or d r).1, b).
Proof. destruct r as [[a b']|]; simpl; [by intros _ ->|done]. Qed.

(** [returns_or E m P]: the call returns, and what it returns satisfies [P], or it ends in
    a fault that [E] allows; [returns m P]: it returns.  The rules follow the structure of a
    call, so that a proof about one walks down its body. *)
Definition returns_or (E : fault -> Prop) {A} (m : result A) (P : A -> Prop) : Prop :=
  match m with Ok a => P a | Fault f => E f end.

Definition no_fault : fault -> Prop := fun _ => False.

Abbreviation returns := (returns_or no_fault).

Section Returns.
Context (E : fault -> Prop).

Lemma returns_bind {A B} (m : result A) (f : A -> result B) P Q :
  returns_or E m P -> (forall a, P a -> returns_or E (f a) Q) -> returns_or E (m ≫= f) Q.
Proof. destruct m as [a|e]; [|done]. intros Ha Hf. by apply Hf. Qed.

Lemma returns_mono {A} (m : result A) (P Q : A -> Prop) :
  returns_or E m P -> (forall a, P a -> Q a) -> returns_or E m Q.
Proof. destruct m as [a|e]; simpl; auto. Qed.

Lemma returns_weaken {A} (m : result A) (P Q : A -> Prop) : returns m P -> (forall a, P a -> Q a) -> returns_or E m Q.
Proof. destruct m as [a|e]; simpl; [auto|done]. Qed.
End Returns.

Lemma returns_mono_fault (E E' : fault -> Prop) {A} (m : result A) (P : A -> Prop) :
  returns_or E m P -> (forall f, E f -> E' f) -> returns_or E' m P.
Proof. destruct m as [a|e]; simpl; auto. Qed.

Lemma returns_exists {A} (m : result A) P : returns m P <-> exists a, m = Ok a /\ P a.
Proof. destruct m as [a|e]; simpl; split; [by exists a|by intros (a' & [= <-] & ?)|done|by intros (? & ? & _)]. Qed.

(** ** Automation *)

Create HintDb tent.
Create Rewrite HintDb tent_len.

#[export] Hint Resolve u32_range be_bytes_ok : tent.
#[export] Hint Rewrite length_be @length_span @length_app @length_take @length_drop : tent_len.

(** Case split on the innermost match or conditional of the goal. *)
Ltac split_match :=
  match goal with
  | |- context [match ?x with _ => _ end] =>
      lazymatch x with
      | context [match _ with _ => _ end] => fail
      | _ => let E := fresh "E" in destruct x eqn:E
      end
  end.

Ltac len := autorewrite with tent_len in *; simpl in *; try lia.

(** Prove a decidable proposition about concrete values by evaluating it. *)
Ltac decide_by_computation := apply (bool_decide_unpack _); vm_compute; exact I.
