(* ===== verification/ByteBuffer.v ===== *)
(** * [mul::byte_buffer]: the interface the client relies on

    The class [mul::byte_buffer] lives in the git submodule [extern/mul], which is
    not part of the repository.  Its operations are therefore the fields of the
    class [ByteBuffer]; what the client relies on is the class [ByteBufferLaws].
    The laws speak only of calls within bounds: reading more than is available is
    left open.  [list_buffer] is one implementation, used to evaluate examples. *)

From S2P Require Import Prelude.

(** The operations, named after the member functions the client calls.  A call
    that changes the buffer returns the new buffer.  [bb_readable] is the memory
    region of [get_read_available()] bytes that starts at [get_read()]; [bb_fill]
    stores bytes at [get_write()] and then calls [inc_write] with their number. *)
Class ByteBuffer := {
  buf : Type;
  bb_new : buf;
  bb_sized : Z -> buf;
  bb_reset : buf -> buf;
  bb_readable : buf -> bytes;
  bb_write_available : buf -> Z;
  bb_fill : buf -> bytes -> buf;
  bb_inc_read : buf -> Z -> buf;
  bb_write : buf -> bytes -> buf;
  bb_write_8 : buf -> Z -> buf;
  bb_write_16 : buf -> Z -> buf;
  bb_write_32 : buf -> Z -> buf;
  bb_write_64 : buf -> Z -> buf;
  bb_read_8 : buf -> Z * buf;
  bb_read_16 : buf -> Z * buf;
  bb_read_32 : buf -> Z * buf;
  bb_read_64 : buf -> Z * buf;
  bb_read : buf -> Z -> bytes * buf;
  bb_peek_8 : buf -> Z -> Z;
  bb_peek_32 : buf -> Z;
}.

(** [get_read_available()] *)
Definition bb_available `{ByteBuffer} (b : buf) : Z := Z.of_nat (length (bb_readable b)).

(** What the client relies on.  Integers are written and read in network byte
    order.  Whether [peek_8] returns a signed or an unsigned 8-bit integer cannot
    be told from the calls, so its law holds for both. *)
Class ByteBufferLaws (BB : ByteBuffer) : Prop := {
  new_readable : bb_readable bb_new = [];
  sized_readable n : bb_readable (bb_sized n) = [];
  sized_available n : 0 <= n -> bb_write_available (bb_reset (bb_sized n)) = n;
  reset_readable b : bb_readable (bb_reset b) = [];
  reset_available b l :
    bb_write_available (bb_reset (bb_fill b l)) = bb_write_available (bb_reset b);
  fill_readable b l : Z.of_nat (length l) <= bb_write_available b ->
    bb_readable (bb_fill b l) = bb_readable b ++ l;
  inc_read_readable b n : 0 <= n <= bb_available b ->
    bb_readable (bb_inc_read b n) = drop (Z.to_nat n) (bb_readable b);
  write_readable b l : bb_readable (bb_write b l) = bb_readable b ++ l;
  write_8_readable b v : bb_readable (bb_write_8 b v) = bb_readable b ++ be 1 v;
  write_16_readable b v : bb_readable (bb_write_16 b v) = bb_readable b ++ be 2 v;
  write_32_readable b v : bb_readable (bb_write_32 b v) = bb_readable b ++ be 4 v;
  write_64_readable b v : bb_readable (bb_write_64 b v) = bb_readable b ++ be 8 v;
  read_8_value b l m : bb_readable b = l ++ m -> length l = 1%nat ->
    (bb_read_8 b).1 = unbe l /\ bb_readable (bb_read_8 b).2 = m;
  read_16_value b l m : bb_readable b = l ++ m -> length l = 2%nat ->
    (bb_read_16 b).1 = unbe l /\ bb_readable (bb_read_16 b).2 = m;
  read_32_value b l m : bb_readable b = l ++ m -> length l = 4%nat ->
    (bb_read_32 b).1 = unbe l /\ bb_readable (bb_read_32 b).2 = m;
  read_64_value b l m : bb_readable b = l ++ m -> length l = 8%nat ->
    (bb_read_64 b).1 = unbe l /\ bb_readable (bb_read_64 b).2 = m;
  read_value b n : 0 <= n <= bb_available b ->
    (bb_read b n).1 = take (Z.to_nat n) (bb_readable b) /\
    bb_readable (bb_read b n).2 = drop (Z.to_nat n) (bb_readable b);
  peek_8_value b off x : 0 <= off -> bb_readable b !! Z.to_nat off = Some x ->
    byte_ok x -> u8 (bb_peek_8 b off) = x /\ (x < 128 -> bb_peek_8 b off = x);
  peek_32_value b l m : bb_readable b = l ++ m -> length l = 4%nat ->
    bb_peek_32 b = unbe l;
}.

Create Rewrite HintDb buffer.
#[export] Hint Rewrite @new_readable @sized_readable @reset_readable @write_readable
  @write_8_readable @write_16_readable @write_32_readable @write_64_readable
  using apply _ : buffer.

Section Derived.
Context {BB : ByteBuffer} {BL : ByteBufferLaws BB}.

(** Reading back what was written, when it is at the front. *)
Lemma read_32_be b v m : bb_readable b = be 4 v ++ m -> 0 <= v < 2 ^ 32 ->
  (bb_read_32 b).1 = v /\ bb_readable (bb_read_32 b).2 = m.
Proof.
  intros Hb Hv. destruct (read_32_value b _ _ Hb) as [-> ->]; [apply length_be|].
  split; [|done]. apply unbe_be_small. lia.
Qed.

Lemma peek_32_be b v m : bb_readable b = be 4 v ++ m -> 0 <= v < 2 ^ 32 ->
  bb_peek_32 b = v.
Proof.
  intros Hb Hv. rewrite (peek_32_value b _ _ Hb) by apply length_be.
  apply unbe_be_small. lia.
Qed.

Lemma available_nonneg b : 0 <= bb_available b.
Proof. unfold bb_available. lia. Qed.
End Derived.

(** ** An implementation: a list of unread bytes and a capacity *)
Module ListBuffer.

Record t := mk { data : bytes; capacity : Z }.

Definition pop (n : nat) (b : t) : Z * t :=
  (unbe (take n b.(data)), mk (drop n b.(data)) b.(capacity)).

Definition push (b : t) (l : bytes) : t := mk (b.(data) ++ l) b.(capacity).

#[export] Instance list_buffer : ByteBuffer := {|
  buf := t;
  bb_new := mk [] 0;
  bb_sized n := mk [] n;
  bb_reset b := mk [] b.(capacity);
  bb_readable := data;
  bb_write_available b := b.(capacity) - Z.of_nat (length b.(data));
  bb_fill := push;
  bb_inc_read b n := mk (drop (Z.to_nat n) b.(data)) b.(capacity);
  bb_write := push;
  bb_write_8 b v := push b (be 1 v);
  bb_write_16 b v := push b (be 2 v);
  bb_write_32 b v := push b (be 4 v);
  bb_write_64 b v := push b (be 8 v);
  bb_read_8 := pop 1;
  bb_read_16 := pop 2;
  bb_read_32 := pop 4;
  bb_read_64 := pop 8;
  bb_read b n := (take (Z.to_nat n) b.(data), mk (drop (Z.to_nat n) b.(data)) b.(capacity));
  bb_peek_8 b off := nth (Z.to_nat off) b.(data) 0;
  bb_peek_32 b := unbe (take 4 b.(data));
|}.

#[export] Instance list_buffer_laws : ByteBufferLaws list_buffer.
Proof.
  constructor; simpl; try done; try (intros; lia).
  1-4: by intros b l m -> <-; rewrite take_app_length, drop_app_length.
  - intros b off x _ Hx Hok. rewrite (nth_lookup_Some _ _ 0 x Hx).
    by rewrite u8_small.
  - intros b l m -> <-. by rewrite take_app_length.
Qed.
End ListBuffer.
