(* ===== verification/Messages.v ===== *)
(** * Messages of the peer wire protocol

    [include/messages.hpp], [include/message.hpp] and
    [include/bittorrent_protocol.hpp]: the request and piece records, the message
    ids, and the constructor that splits a framed message into id and payload. *)

From S2P Require Import Prelude ByteBuffer.

(** [include/bittorrent_protocol.hpp:12] protocol::V1 *)
Definition V1 : bytes := bytes_of_string "BitTorrent protocol".

(** [include/messages.hpp:14-26] msg::request *)
Record request := mk_request { index_ : Z; begin_ : Z; length_ : Z }.

#[global] Instance request_eq_dec : EqDecision request.
Proof. solve_decision. Defined.

(** The fields are [uint32_t]. *)
Definition request_ok (r : request) : Prop :=
  0 <= index_ r < 2 ^ 32 /\ 0 <= begin_ r < 2 ^ 32 /\ 0 <= length_ r < 2 ^ 32.

(** The default constructor leaves the fields uninitialised; the two places that
    use it overwrite the value or return it next to [false]. *)
(** [include/messages.hpp:16] msg::request::request *)
Definition default_request : request := mk_request 0 0 0.

(** [include/messages.hpp:28-39] msg::piece *)
Record piece `{ByteBuffer} := mk_piece { p_index : Z; p_begin : Z; p_block : buf }.

(** [include/message.hpp:13-26] message::id
    [Other] is a value the enumeration has no name for. *)
Inductive id :=
  | KEEP_ALIVE | CHOKE | UNCHOKE | INTERESTED | NOT_INTERESTED | HAVE | BITFIELD
  | REQUEST | PIECE | CANCEL | PORT | Other (z : Z).

#[global] Instance id_eq_dec : EqDecision id.
Proof. solve_decision. Defined.

(** [include/message.hpp:15-25] message::id *)
Definition id_to_Z (i : id) : Z :=
  match i with
  | KEEP_ALIVE => -1 | CHOKE => 0 | UNCHOKE => 1 | INTERESTED => 2 | NOT_INTERESTED => 3
  | HAVE => 4 | BITFIELD => 5 | REQUEST => 6 | PIECE => 7 | CANCEL => 8 | PORT => 9
  | Other z => z
  end.

(** [include/message.hpp:30] message::message
    The cast of an integer to the enumeration. *)
Definition id_of_Z (z : Z) : id :=
  match z with
  | -1 => KEEP_ALIVE | 0 => CHOKE | 1 => UNCHOKE | 2 => INTERESTED | 3 => NOT_INTERESTED
  | 4 => HAVE | 5 => BITFIELD | 6 => REQUEST | 7 => PIECE | 8 => CANCEL | 9 => PORT
  | _ => Other z
  end.

Section Message.
Context {BB : ByteBuffer} {PE : PastEnd}.

(** [include/message.hpp:39-40] message *)
Record message := mk_message { id_ : id; payload_ : buf }.

(** [include/message.hpp:28-37] message::message *)
Definition make_message (buffer : buf) : message :=
  let id_ := if bb_peek_32 buffer =? 0 then KEEP_ALIVE else id_of_Z (bb_peek_8 buffer 4) in
  let payload_ :=
    if decide (id_ = KEEP_ALIVE) then bb_new
    else bb_write bb_new (span (bb_readable buffer) 5 (Z.to_nat (bb_peek_32 buffer - 1))) in
  mk_message id_ payload_.

Context {BL : ByteBufferLaws BB}.

(** A framed message: four bytes of length, then an id and a payload. *)
Lemma make_message_frame b i payload rest :
  0 <= i < 128 ->
  Z.of_nat (length payload) + 1 < 2 ^ 32 ->
  bb_readable b = be 4 (Z.of_nat (length payload) + 1) ++ i :: payload ++ rest ->
  id_ (make_message b) = id_of_Z i /\ bb_readable (payload_ (make_message b)) = payload.
Proof.
  intros Hi Hlen Hb.
  pose proof (peek_32_be b _ _ Hb ltac:(lia)) as Hp.
  assert (bb_readable b !! Z.to_nat 4 = Some i) as H4.
  { rewrite Hb. rewrite lookup_app_r by (rewrite length_be; lia). by rewrite length_be. }
  destruct (peek_8_value b 4 i ltac:(lia) H4 ltac:(unfold byte_ok; lia)) as [_ H8].
  unfold make_message. rewrite Hp, H8 by lia.
  rewrite (proj2 (Z.eqb_neq _ 0)) by lia. simpl.
  split; [done|].
  assert (id_of_Z i <> KEEP_ALIVE) as Hk.
  { unfold id_of_Z. destruct i as [|p|p]; try lia; [done|]. repeat (destruct p; try done). }
  rewrite decide_False by done.
  autorewrite with buffer. simpl.
  rewrite span_in_range, Hb.
  - change (be 4 ?v ++ i :: ?m) with (be 4 v ++ [i] ++ m). rewrite app_assoc.
    rewrite drop_app_length' by (rewrite length_app, length_be; simpl; lia).
    apply take_app_length'. lia.
  - rewrite Hb. rewrite length_app, length_be. simpl. rewrite length_app. lia.
Qed.

Lemma make_message_keep_alive b rest :
  bb_readable b = be 4 0 ++ rest -> make_message b = mk_message KEEP_ALIVE bb_new.
Proof.
  intros Hb. unfold make_message. by rewrite (peek_32_be b _ _ Hb ltac:(lia)).
Qed.
End Message.
