(* ===== verification/MsgFactory.v ===== *)
(** * The message factory

    [src/msg_factory.cpp]: the bytes of every message the client sends, to peers
    and to UDP trackers.  Each function appends to a buffer; the overload that
    returns a fresh buffer has [new] in its name.  The lemmas [*_wire] give the
    bytes each function appends, and the properties compare them with the message
    parser of Messages.v and with the field layout of the tracker protocol. *)

From S2P Require Import Prelude ByteBuffer Messages.

(** ** Hexadecimal *)

(** [src/msg_factory.cpp:136-146] char_to_int *)
Definition char_to_int (input : Z) : Z :=
  if (48 <=? input) && (input <=? 57) then input - 48
  else if (65 <=? input) && (input <=? 70) then input - 65 + 10
  else if (97 <=? input) && (input <=? 102) then input - 97 + 10
  else 0.

(** [src/msg_factory.cpp:148-160] hex_str_to_byte_buff
    The loop fills the [size / 2] entries in order, two characters each. *)
Fixpoint hex_str_to_byte_buff (hex : bytes) : bytes :=
  match hex with
  | a :: b :: rest => u8 (16 * char_to_int a + char_to_int b) :: hex_str_to_byte_buff rest
  | _ => []
  end.

(** [extern/libtorrent/src/hex.cpp:73-74] hex_chars *)
Definition hex_chars : bytes := bytes_of_string "0123456789abcdef".

(** [extern/libtorrent/src/hex.cpp:75-94] to_hex
    What [operator<<] prints for a [sha1_hash]. *)
Fixpoint to_hex (l : bytes) : bytes :=
  match l with
  | [] => []
  | b :: l' => nth (Z.to_nat (Z.shiftr b 4)) hex_chars 0
               :: nth (Z.to_nat (Z.land b 15)) hex_chars 0 :: to_hex l'
  end.

Lemma char_to_int_hex_chars n : 0 <= n < 16 ->
  char_to_int (nth (Z.to_nat n) hex_chars 0) = n.
Proof.
  intros H. assert (exists k, n = Z.of_nat k /\ (k < 16)%nat) as (k & -> & Hk)
    by (exists (Z.to_nat n); lia).
  rewrite Nat2Z.id. do 16 (destruct k as [|k]; [done|]). lia.
Qed.

Lemma to_hex_chars l : bytes_ok l -> Forall (fun c => c ∈ hex_chars) (to_hex l).
Proof.
  assert (forall n, 0 <= n < 16 -> nth (Z.to_nat n) hex_chars 0 ∈ hex_chars) as H
    by (intros n Hn; apply list_elem_of_In, nth_In; change (length hex_chars) with 16%nat; lia).
  induction 1 as [|b l Hb _ IH]; cbn [to_hex]; [constructor|]. unfold byte_ok in Hb. constructor; [|constructor; [|done]]; apply H.
  - rewrite Z.shiftr_div_pow2 by lia. change (2 ^ 4) with 16. split; [apply Z.div_pos; lia|apply Z.div_lt_upper_bound; lia].
  - change 15 with (Z.ones 4). rewrite Z.land_ones by lia. apply Z.mod_pos_bound. lia.
Qed.

Lemma length_to_hex l : length (to_hex l) = (2 * length l)%nat.
Proof. induction l as [|b l IH]; simpl; [done|]. rewrite IH. lia. Qed.

Section MsgFactory.
Context {BB : ByteBuffer} {PE : PastEnd}.

(** ** Peer messages *)

(** [src/msg_factory.cpp:16-26] msg_factory::handshake *)
Definition msg_factory_handshake (buffer : buf) (peer_id info_hash : bytes) : buf :=
  let STR_LEN := u8 (Z.of_nat (length V1)) in
  let buffer := bb_write_8 buffer STR_LEN in
  let buffer := bb_write buffer (span V1 0 (Z.to_nat STR_LEN)) in
  let buffer := bb_write_64 buffer 0 in
  let buffer := bb_write buffer (span (hex_str_to_byte_buff info_hash) 0 20) in
  bb_write buffer (span peer_id 0 20).

(** [src/msg_factory.cpp:28-33] msg_factory::handshake *)
Definition msg_factory_new_handshake (peer_id info_hash : bytes) : buf :=
  msg_factory_handshake bb_new peer_id info_hash.

(** [src/msg_factory.cpp:35-38] msg_factory::keep_alive *)
Definition msg_factory_keep_alive (buffer : buf) : buf := bb_write_32 buffer 0.

(** The messages that consist of an id alone. *)
Definition write_id (buffer : buf) (i : id) : buf :=
  bb_write_8 (bb_write_32 buffer 1) (id_to_Z i).

(** [src/msg_factory.cpp:40-44] msg_factory::choke *)
Definition msg_factory_choke (buffer : buf) : buf := write_id buffer CHOKE.

(** [src/msg_factory.cpp:46-50] msg_factory::unchoke *)
Definition msg_factory_unchoke (buffer : buf) : buf := write_id buffer UNCHOKE.

(** [src/msg_factory.cpp:52-56] msg_factory::interested *)
Definition msg_factory_interested (buffer : buf) : buf := write_id buffer INTERESTED.

(** [src/msg_factory.cpp:58-63] msg_factory::interested *)
Definition msg_factory_new_interested : buf := msg_factory_interested bb_new.

(** [src/msg_factory.cpp:65-69] msg_factory::not_interested *)
Definition msg_factory_not_interested (buffer : buf) : buf := write_id buffer NOT_INTERESTED.

(** [src/msg_factory.cpp:71-78] msg_factory::request *)
Definition msg_factory_request (buffer : buf) (req : request) : buf :=
  let buffer := bb_write_32 buffer 13 in
  let buffer := bb_write_8 buffer (id_to_Z REQUEST) in
  let buffer := bb_write_32 buffer (index_ req) in
  let buffer := bb_write_32 buffer (begin_ req) in
  bb_write_32 buffer (length_ req).

(** [src/msg_factory.cpp:80-85] msg_factory::request *)
Definition msg_factory_new_request (req : request) : buf := msg_factory_request bb_new req.

(** [src/msg_factory.cpp:87-94] msg_factory::piece *)
Definition msg_factory_piece (buffer : buf) (p : piece) : buf :=
  let buffer := bb_write_32 buffer (9 + bb_available (p_block p)) in
  let buffer := bb_write_8 buffer (id_to_Z PIECE) in
  let buffer := bb_write_32 buffer (p_index p) in
  let buffer := bb_write_32 buffer (p_begin p) in
  bb_write buffer (bb_readable (p_block p)).

(** ** UDP tracker messages *)

(** [src/msg_factory.cpp:96-104] msg_factory::connect *)
Definition msg_factory_connect (buffer : buf) (transaction_id : Z) : buf :=
  let CONNECTION_ID := 0x41727101980 in
  let CONNECT_ACTION := 0 in
  let buffer := bb_write_64 buffer CONNECTION_ID in
  let buffer := bb_write_32 buffer CONNECT_ACTION in
  bb_write_32 buffer transaction_id.

(** [src/msg_factory.cpp:106-111] msg_factory::connect *)
Definition msg_factory_new_connect (transaction_id : Z) : buf :=
  msg_factory_connect bb_new transaction_id.

(** [src/msg_factory.cpp:113-132] msg_factory::announce
    [peer_id.c_str()] is the characters followed by a null character. *)
Definition msg_factory_announce (buffer : buf) (connection_id transaction_id : Z)
    (info_hash peer_id : bytes) (left key port : Z) : buf :=
  let ANNOUNCE_ACTION := 1 in
  let buffer := bb_write_64 buffer connection_id in
  let buffer := bb_write_32 buffer ANNOUNCE_ACTION in
  let buffer := bb_write_32 buffer transaction_id in
  let buffer := bb_write buffer (span (hex_str_to_byte_buff info_hash) 0 20) in
  let buffer := bb_write buffer (span (peer_id ++ [0]) 0 20) in
  let buffer := bb_write_64 buffer 0 in
  let buffer := bb_write_64 buffer left in
  let buffer := bb_write_64 buffer 0 in
  let buffer := bb_write_32 buffer 0 in
  let buffer := bb_write_32 buffer 0 in
  let buffer := bb_write_32 buffer key in
  let buffer := bb_write_32 buffer (u32 (-1)) in
  bb_write_16 buffer port.

(** ** What the functions append *)
Context {BL : ByteBufferLaws BB}.

Lemma span_all l n : length l = n -> span l 0 n = l.
Proof. intros <-. rewrite span_in_range by lia. by rewrite drop_0, firstn_all. Qed.

Lemma handshake_wire b peer_id info_hash :
  length peer_id = 20%nat -> length (hex_str_to_byte_buff info_hash) = 20%nat ->
  bb_readable (msg_factory_handshake b peer_id info_hash) =
  bb_readable b ++ 19 :: V1 ++ replicate 8 0 ++ hex_str_to_byte_buff info_hash ++ peer_id.
Proof.
  intros Hp Hi. unfold msg_factory_handshake. autorewrite with buffer.
  rewrite !span_all by done. by rewrite <- !app_assoc.
Qed.

Lemma write_id_wire b i :
  bb_readable (write_id b i) = bb_readable b ++ be 4 1 ++ be 1 (id_to_Z i).
Proof. unfold write_id. autorewrite with buffer. by rewrite <- !app_assoc. Qed.

Lemma request_wire b r :
  bb_readable (msg_factory_request b r) =
  bb_readable b ++ be 4 13 ++ 6 :: be 4 (index_ r) ++ be 4 (begin_ r) ++ be 4 (length_ r).
Proof. unfold msg_factory_request. autorewrite with buffer. by rewrite <- !app_assoc. Qed.

Lemma piece_wire b p :
  bb_readable (msg_factory_piece b p) =
  bb_readable b ++ be 4 (9 + bb_available (p_block p)) ++
  7 :: be 4 (p_index p) ++ be 4 (p_begin p) ++ bb_readable (p_block p).
Proof. unfold msg_factory_piece. autorewrite with buffer. by rewrite <- !app_assoc. Qed.

Lemma connect_wire b tid :
  bb_readable (msg_factory_connect b tid) =
  bb_readable b ++ be 8 0x41727101980 ++ be 4 0 ++ be 4 tid.
Proof. unfold msg_factory_connect. autorewrite with buffer. by rewrite <- !app_assoc. Qed.

Lemma announce_wire b cid tid info_hash peer_id left key port :
  length peer_id = 20%nat -> length (hex_str_to_byte_buff info_hash) = 20%nat ->
  bb_readable (msg_factory_announce b cid tid info_hash peer_id left key port) =
  bb_readable b ++ be 8 cid ++ be 4 1 ++ be 4 tid ++ hex_str_to_byte_buff info_hash ++
  peer_id ++ be 8 0 ++ be 8 left ++ be 8 0 ++ be 4 0 ++ be 4 0 ++ be 4 key ++
  be 4 (2 ^ 32 - 1) ++ be 2 port.
Proof.
  intros Hp Hi. unfold msg_factory_announce. autorewrite with buffer.
  rewrite (span_all _ 20 Hi). rewrite span_in_range by (rewrite length_app; simpl; lia).
  rewrite drop_0, take_app_length' by done. by rewrite <- !app_assoc.
Qed.

End MsgFactory.

(** ** Properties *)

(** What the ids mean on the wire: a message that is an id alone parses back. *)
Section Properties.
Context {BB : ByteBuffer} {PE : PastEnd} {BL : ByteBufferLaws BB}.

Lemma hex_str_to_byte_buff_to_hex l : bytes_ok l -> hex_str_to_byte_buff (to_hex l) = l.
Proof.
  induction 1 as [|b l Hb _ IH]; [done|]. unfold byte_ok in Hb.
  cbn [to_hex hex_str_to_byte_buff].
  assert (Z.shiftr b 4 = b / 16) as E1 by (by rewrite Z.shiftr_div_pow2 by lia).
  assert (Z.land b 15 = b mod 16) as E2 by (by apply (Z.land_ones b 4)).
  pose proof (Z.div_mod b 16 ltac:(lia)). pose proof (Z.mod_pos_bound b 16 ltac:(lia)).
  assert (0 <= b / 16 < 16) by lia.
  rewrite E1, E2, !char_to_int_hex_chars, IH by lia. f_equal. rewrite u8_small; lia.
Qed.

Lemma write_id_parses i : In i [CHOKE; UNCHOKE; INTERESTED; NOT_INTERESTED] ->
  let m := make_message (write_id bb_new i) in
  id_ m = i /\ bb_readable (payload_ m) = [].
Proof.
  intros Hi m. subst m.
  destruct (make_message_frame (write_id bb_new i) (id_to_Z i) [] []) as [H1 H2].
  - simpl in Hi. intuition subst; simpl; lia.
  - simpl. lia.
  - rewrite write_id_wire. autorewrite with buffer. simpl in Hi. by intuition subst.
  - rewrite H1, H2. simpl in Hi. by intuition subst.
Qed.

(** The messages without a payload parse to the ids they were made for. *)
Theorem state_messages_roundtrip :
  id_ (make_message (msg_factory_choke bb_new)) = CHOKE /\
  id_ (make_message (msg_factory_unchoke bb_new)) = UNCHOKE /\
  id_ (make_message (msg_factory_interested bb_new)) = INTERESTED /\
  id_ (make_message (msg_factory_not_interested bb_new)) = NOT_INTERESTED /\
  id_ (make_message (msg_factory_keep_alive bb_new)) = KEEP_ALIVE.
Proof.
  do 4 (split; [apply write_id_parses; simpl; tauto|]).
  rewrite (make_message_keep_alive _ []); [done|].
  unfold msg_factory_keep_alive. by autorewrite with buffer.
Qed.

(** A request parses to the id REQUEST and a payload of its three fields in the order
    index, begin, length. *)
Theorem request_roundtrip r : request_ok r ->
  let m := make_message (msg_factory_new_request r) in
  id_ m = REQUEST /\
  bb_readable (payload_ m) = be 4 (index_ r) ++ be 4 (begin_ r) ++ be 4 (length_ r).
Proof.
  intros Hr m. subst m.
  apply (make_message_frame _ 6 _ []).
  - lia.
  - rewrite !length_app, !length_be. simpl. lia.
  - unfold msg_factory_new_request. rewrite request_wire. autorewrite with buffer.
    rewrite app_nil_r. do 2 f_equal.
Qed.

(** A piece message parses to the id PIECE and a payload from which the receiver reads
    back the index, the begin and then exactly the block. *)
Theorem piece_roundtrip p : 0 <= p_index p < 2 ^ 32 -> 0 <= p_begin p < 2 ^ 32 ->
  bb_available (p_block p) + 9 < 2 ^ 32 ->
  let m := make_message (msg_factory_piece bb_new p) in
  id_ m = PIECE /\
  let '(i, b1) := bb_read_32 (payload_ m) in
  let '(b, b2) := bb_read_32 b1 in
  i = p_index p /\ b = p_begin p /\ bb_readable b2 = bb_readable (p_block p).
Proof.
  intros Hi Hb Hl m. unfold bb_available in Hl.
  destruct (make_message_frame (msg_factory_piece bb_new p) 7
    (be 4 (p_index p) ++ be 4 (p_begin p) ++ bb_readable (p_block p)) []) as [H1 H2].
  - lia.
  - rewrite !length_app, !length_be. lia.
  - rewrite piece_wire. autorewrite with buffer. cbn [app]. rewrite app_nil_r. unfold bb_available.
    rewrite !length_app, !length_be. do 2 f_equal. lia.
  - split; [exact H1|]. subst m. destruct (read_32_be _ _ _ H2 Hi) as [E1 Hb1].
    destruct (bb_read_32 (payload_ _)) as [i b1]. cbn [fst snd] in E1, Hb1.
    destruct (read_32_be _ _ _ Hb1 Hb) as [E2 Hb2]. destruct (bb_read_32 b1) as [b b2].
    cbn [fst snd] in E2, Hb2. by split_and!.
Qed.

(** The handshake is the 68 bytes of the protocol: 19, the protocol's name, eight zero
    bytes, the info hash and the peer id. *)
Theorem handshake_layout peer_id info_hash :
  length peer_id = 20%nat -> length info_hash = 20%nat -> bytes_ok info_hash ->
  bb_readable (msg_factory_new_handshake peer_id (to_hex info_hash)) =
    19 :: bytes_of_string "BitTorrent protocol" ++ replicate 8 0 ++ info_hash ++ peer_id /\
  bb_available (msg_factory_new_handshake peer_id (to_hex info_hash)) = 68.
Proof.
  intros Hp Hi Hok. pose proof (hex_str_to_byte_buff_to_hex info_hash Hok) as Hx.
  unfold msg_factory_new_handshake, bb_available.
  rewrite handshake_wire by (rewrite ?Hx; done). autorewrite with buffer. rewrite Hx. split; [done|].
  cbn [app length]. rewrite !length_app, length_replicate, Hp, Hi. done.
Qed.
End Properties.

(** ** Witnesses *)
Section MessageWitnesses.
Import ListBuffer.

#[local] Instance zeros_past_end : PastEnd := fun _ _ => 0.

Lemma state_messages_roundtrip_witness :
  id_ (make_message (msg_factory_choke (BB := list_buffer) bb_new)) = CHOKE.
Proof. apply (state_messages_roundtrip (BB := list_buffer)). Defined.

Lemma request_roundtrip_witness :
  id_ (make_message (msg_factory_new_request (BB := list_buffer) (mk_request 1 16384 16384))) = REQUEST.
Proof. apply (request_roundtrip (BB := list_buffer) (mk_request 1 16384 16384)). unfold request_ok. simpl. lia. Defined.

Lemma piece_roundtrip_witness :
  id_ (make_message (msg_factory_piece (BB := list_buffer) bb_new (mk_piece list_buffer 1 16384 (mk [1; 2; 3] 0)))) = PIECE.
Proof.
  apply (piece_roundtrip (BB := list_buffer) (mk_piece list_buffer 1 16384 (mk [1; 2; 3] 0))); simpl; [lia|lia|].
  unfold bb_available. simpl. lia.
Defined.

Lemma handshake_layout_witness :
  bb_available (msg_factory_new_handshake (BB := list_buffer) (replicate 20 65) (to_hex (replicate 20 255))) = 68.
Proof.
  apply (handshake_layout (BB := list_buffer) (replicate 20 65) (replicate 20 255)); [done|done|].
  apply Forall_replicate. unfold byte_ok. lia.
Defined.
End MessageWitnesses.
