(* ===== verification/Float32.v ===== *)
(** * Single-precision floats

    The timer and the progress report compute in [float].  The operations are
    those of IEEE 754 binary32 with rounding to nearest even, as the Standard
    Library specifies them ([SpecFloat]), so they evaluate to the bit.  The lemma
    [f32_add_exact] says when integer sums are exact. *)

From S2P Require Import Prelude.
From Stdlib Require Import SpecFloat.

Definition f32 : Type := spec_float.

(** 24 bits of precision, exponents below 2^128. *)
Definition f32_of_Z (z : Z) : f32 := binary_normalize 24 128 z 0 false.
Definition f32_add (a b : f32) : f32 := SFadd 24 128 a b.
Definition f32_mul (a b : f32) : f32 := SFmul 24 128 a b.
Definition f32_div (a b : f32) : f32 := SFdiv 24 128 a b.
Definition f32_le (a b : f32) : bool := SFleb a b.
Definition f32_lt (a b : f32) : bool := SFltb a b.

(** ** Integers below 2^24 are exact *)

Definition digits (z : Z) : Z := Z.log2 z + 1.

Lemma digits2_pos_digits p : Z.pos (digits2_pos p) = digits (Z.pos p).
Proof.
  unfold digits. rewrite Z.add_1_r.
  assert (digits2_pos p = Pos.size p) as -> by (induction p; simpl; congruence).
  destruct p; simpl; lia.
Qed.

Lemma digits_mul_pow2 m n : 0 < m -> 0 <= n -> digits (m * 2 ^ n) = digits m + n.
Proof. intros. unfold digits. rewrite Z.log2_mul_pow2; lia. Qed.

Lemma digits_small m : 0 < m < 2 ^ 24 -> 1 <= digits m <= 24.
Proof.
  intros H. unfold digits. pose proof (Z.log2_nonneg m).
  pose proof (Z.log2_lt_pow2 m 24). lia.
Qed.

Lemma iter_xO p n : Z.pos (Pos.iter xO p n) = Z.pos p * 2 ^ Z.pos n.
Proof.
  induction n as [|n IH] using Pos.peano_ind; simpl.
  - lia.
  - rewrite Pos.iter_succ, Pos2Z.inj_succ, Z.pow_succ_r by lia. lia.
Qed.

Lemma iter_pos_shr n m : 0 < m ->
  iter_pos shr_1 n (Build_shr_record (m * 2 ^ Z.pos n) false false) =
  Build_shr_record m false false.
Proof.
  assert (forall n (x : shr_record), iter_pos shr_1 n x = Pos.iter shr_1 x n) as Hit.
  { clear. intros n. induction n; intros x; simpl; rewrite ?IHn; try done.
    by rewrite <- !Pos.iter_swap. }
  rewrite Hit. clear Hit. revert m.
  induction n as [|n IH] using Pos.peano_ind; intros m Hm.
  - simpl Pos.iter. destruct m as [|p|p]; try lia. by rewrite Z.mul_comm.
  - rewrite Pos.iter_succ_r, Pos2Z.inj_succ, Z.pow_succ_r by lia.
    replace (m * (2 * 2 ^ Z.pos n)) with (2 * (m * 2 ^ Z.pos n)) by lia.
    assert (0 < m * 2 ^ Z.pos n) by (apply Z.mul_pos_pos; lia).
    rewrite <- (IH m Hm). f_equal.
    destruct (m * 2 ^ Z.pos n) as [|p|p] eqn:E; try lia. done.
Qed.

(** The mantissa of [m] with 24 digits, and the float [m * 2 ^ e]. *)
Definition mantissa (m : Z) : Z := m * 2 ^ (24 - digits m).

Definition f32_exact (m e : Z) : f32 :=
  S754_finite false (Z.to_pos (mantissa m)) (e + digits m - 24).

Lemma mantissa_pos m : 0 < m < 2 ^ 24 -> 0 < mantissa m /\ digits (mantissa m) = 24.
Proof.
  intros H. pose proof (digits_small m H). unfold mantissa.
  rewrite digits_mul_pow2 by lia. split; [|lia]. apply Z.mul_pos_pos; lia.
Qed.

Lemma Zdigits2_pos z : 0 < z -> Zdigits2 z = digits z.
Proof. destruct z; try lia. intros _. apply digits2_pos_digits. Qed.

Lemma shr_fexp_24 z e : 0 < z -> digits z = 24 -> -149 <= e ->
  shr_fexp 24 128 z e loc_Exact = (Build_shr_record z false false, e).
Proof.
  intros Hz Hd He. unfold shr_fexp. rewrite Zdigits2_pos, Hd by lia.
  unfold fexp, emin, shr_record_of_loc. replace (_ - e) with 0 by lia. done.
Qed.

(** Rounding a multiple of a power of two that fits in 24 digits changes nothing. *)
Lemma binary_round_aux_exact m k e :
  0 < m < 2 ^ 24 -> 0 <= k -> 24 <= digits m + k -> -149 <= e + (digits m + k - 24) <= 104 ->
  binary_round_aux 24 128 false (m * 2 ^ k) e loc_Exact = f32_exact m (e + k).
Proof.
  intros Hm Hk Hd He. destruct (mantissa_pos m Hm) as [Hp Hpd].
  pose proof (digits_small m Hm) as Hdm.
  assert (m * 2 ^ k = mantissa m * 2 ^ (digits m + k - 24)) as Hz.
  { unfold mantissa. rewrite <- Z.mul_assoc, <- Z.pow_add_r by lia. do 2 f_equal. lia. }
  assert (0 < m * 2 ^ k) as Hpos by (apply Z.mul_pos_pos; lia).
  assert (shr_fexp 24 128 (m * 2 ^ k) e loc_Exact =
          (Build_shr_record (mantissa m) false false, e + (digits m + k - 24))) as Hs.
  { unfold shr_fexp. rewrite Zdigits2_pos by done. rewrite digits_mul_pow2 by lia.
    unfold fexp, emin, shr_record_of_loc.
    replace (_ - e) with (digits m + k - 24) by lia. rewrite Hz.
    destruct (digits m + k - 24) as [|p|p] eqn:E; try lia; simpl.
    - by rewrite Z.mul_1_r, Z.add_0_r.
    - by rewrite iter_pos_shr. }
  unfold binary_round_aux. rewrite Hs. simpl.
  rewrite shr_fexp_24 by lia. simpl.
  unfold f32_exact. destruct (mantissa m) eqn:E; try lia. simpl.
  rewrite (proj2 (Z.leb_le _ _)) by lia. f_equal. lia.
Qed.

Lemma binary_normalize_exact m k e :
  0 < m < 2 ^ 24 -> 0 <= k -> -149 <= e + (digits m + k - 24) <= 104 ->
  binary_normalize 24 128 (m * 2 ^ k) e false = f32_exact m (e + k).
Proof.
  intros Hm Hk He.
  assert (0 < m * 2 ^ k) as Hpos by (apply Z.mul_pos_pos; lia).
  pose proof (digits_small m Hm).
  unfold binary_normalize. destruct (m * 2 ^ k) as [|N|N] eqn:EN; try lia.
  assert (digits (Z.pos N) = digits m + k) as HdN by (rewrite <- EN; apply digits_mul_pow2; lia).
  unfold binary_round. rewrite digits2_pos_digits, HdN.
  unfold shl_align, fexp, emin.
  rewrite Z.max_l by lia.
  destruct (digits m + k + e - 24 - e) as [|p|p] eqn:E.
  - rewrite <- EN. apply binary_round_aux_exact; lia.
  - rewrite <- EN. apply binary_round_aux_exact; lia.
  - rewrite iter_xO, <- EN, <- Z.mul_assoc, <- Z.pow_add_r by lia.
    rewrite binary_round_aux_exact by lia. f_equal. lia.
Qed.

Lemma f32_of_Z_exact m : 0 < m < 2 ^ 24 -> f32_of_Z m = f32_exact m 0.
Proof.
  intros H. pose proof (digits_small m H).
  unfold f32_of_Z. rewrite <- (Z.mul_1_r m) at 1. apply (binary_normalize_exact m 0 0); lia.
Qed.

Lemma f32_of_Z_0 : f32_of_Z 0 = S754_zero false.
Proof. done. Qed.

(** [m] is the mantissa of its float scaled back. *)
Lemma shl_align_exact m : 0 < m < 2 ^ 24 -> forall e, -24 <= e <= digits m - 24 ->
  Z.pos (fst (shl_align (Z.to_pos (mantissa m)) (digits m - 24) e)) = m * 2 ^ (- e).
Proof.
  intros H e He. pose proof (digits_small m H). destruct (mantissa_pos m H) as [Hp _].
  unfold shl_align. destruct (e - (digits m - 24)) as [|p|p] eqn:E; try lia; simpl.
  - rewrite Z2Pos.id by lia. unfold mantissa. do 2 f_equal. lia.
  - rewrite iter_xO, Z2Pos.id by lia. unfold mantissa.
    rewrite <- Z.mul_assoc, <- Z.pow_add_r by lia. do 2 f_equal. lia.
Qed.

(** The sum of two non-negative integers is exact as long as it stays below 2^24. *)
Lemma f32_add_exact a b : 0 <= a -> 0 <= b -> a + b < 2 ^ 24 ->
  f32_add (f32_of_Z a) (f32_of_Z b) = f32_of_Z (a + b).
Proof.
  intros Ha Hb Hab.
  destruct (decide (a = 0)) as [->|Ha0].
  { rewrite Z.add_0_l, f32_of_Z_0. destruct (decide (b = 0)) as [->|]; [done|].
    rewrite f32_of_Z_exact by lia. done. }
  destruct (decide (b = 0)) as [->|Hb0].
  { rewrite Z.add_0_r, f32_of_Z_0. rewrite f32_of_Z_exact by lia. done. }
  rewrite (f32_of_Z_exact a), (f32_of_Z_exact b), (f32_of_Z_exact (a + b)) by lia.
  pose proof (digits_small a ltac:(lia)). pose proof (digits_small b ltac:(lia)).
  pose proof (digits_small (a + b) ltac:(lia)).
  change (f32_add (f32_exact a 0) (f32_exact b 0)) with
    (let ez := Z.min (digits a - 24) (digits b - 24) in
     binary_normalize 24 128
       (Z.pos (fst (shl_align (Z.to_pos (mantissa a)) (digits a - 24) ez)) +
        Z.pos (fst (shl_align (Z.to_pos (mantissa b)) (digits b - 24) ez))) ez false).
  cbv zeta. set (ez := Z.min _ _).
  rewrite !shl_align_exact by (subst ez; lia).
  rewrite <- Z.mul_add_distr_r.
  rewrite binary_normalize_exact by (subst ez; lia).
  f_equal. lia.
Qed.

(** Comparison of such floats is comparison of the integers. *)
Lemma f32_le_exact a b : 0 <= a < 2 ^ 24 -> 0 <= b < 2 ^ 24 ->
  f32_le (f32_of_Z a) (f32_of_Z b) = (a <=? b).
Proof.
  intros Ha Hb.
  destruct (decide (a = 0)) as [->|Ha0]; [destruct (decide (b = 0)) as [->|Hb0]; [done|]|
    destruct (decide (b = 0)) as [->|Hb0]].
  - rewrite f32_of_Z_0, (f32_of_Z_exact b) by lia. unfold f32_le, SFleb. simpl. lia.
  - rewrite f32_of_Z_0, (f32_of_Z_exact a) by lia. unfold f32_le, SFleb. simpl. lia.
  - rewrite !f32_of_Z_exact by lia. unfold f32_le, SFleb, f32_exact.
    rewrite !Z.add_0_l. simpl.
    destruct (mantissa_pos a ltac:(lia)) as [Hpa _], (mantissa_pos b ltac:(lia)) as [Hpb _].
    pose proof (digits_small a ltac:(lia)). pose proof (digits_small b ltac:(lia)).
    assert (forall x y, 0 < x -> 0 < y -> digits x < digits y -> x < y) as Hmono.
    { intros x y Hx Hy Hd. apply Z.log2_lt_cancel. unfold digits in Hd. lia. }
    destruct (Z.compare_spec (digits a - 24) (digits b - 24)) as [E|E|E].
    + change (Pos.compare_cont Eq) with Pos.compare.
      assert ((mantissa a ?= mantissa b) = (a ?= b)) as HC.
      { unfold mantissa. replace (digits b) with (digits a) by lia.
        symmetry. apply Zmult_compare_compat_r. lia. }
      rewrite <- (Z2Pos.id (mantissa a)), <- (Z2Pos.id (mantissa b)) in HC by done.
      simpl in HC. rewrite HC. unfold Z.leb. by destruct (a ?= b).
    + symmetry. apply Z.leb_le. pose proof (Hmono a b). lia.
    + symmetry. apply Z.leb_gt. pose proof (Hmono b a). lia.
Qed.

(** Above 2^24 a millisecond is lost: the sum rounds back to even. *)
Lemma f32_add_saturates : f32_add (f32_of_Z (2 ^ 24)) (f32_of_Z 1) = f32_of_Z (2 ^ 24).
Proof. reflexivity. Qed.
