(* ===== verification/SessionSm.v ===== *)
(** * The per-peer session state machine

    [src/session_sm.cpp] and [include/session_sm.hpp].  [session_sm] stores a
    state and calls its client back on every event; the client interface is the
    class [ism_client], so that the machine is defined once for every client and
    the torrent agent supplies the instance. *)

From S2P Require Import Prelude.

(** [include/session_sm.hpp:7-15] session_event *)
Inductive session_event :=
  | EV_START | EV_CONNECTED | EV_HANDSHAKE | EV_CHOKE | EV_UNCHOKE | EV_DISCONNECTED.

(** [include/session_sm.hpp:38-47] session_sm::state *)
Inductive sm_state :=
  | IDLE | STARTED | CONNECTED | HANDSHAKE_RECEIVED | CHOKED | UNCHOKED | DISCONNECTED.

#[global] Instance sm_state_eq_dec : EqDecision sm_state.
Proof. solve_decision. Defined.

(** The value of the enumerator. *)
(** [include/session_sm.hpp:38-47] session_sm::state *)
Definition sm_state_to_Z (s : sm_state) : Z :=
  match s with
  | IDLE => 0 | STARTED => 1 | CONNECTED => 2 | HANDSHAKE_RECEIVED => 3
  | CHOKED => 4 | UNCHOKED => 5 | DISCONNECTED => 6
  end.

(** [src/session_sm.cpp:59-62] session_sm::handshake_received *)
Definition handshake_received (s : sm_state) : bool :=
  sm_state_to_Z HANDSHAKE_RECEIVED <=? sm_state_to_Z s.

(** The callbacks of a client, over the state [W] of everything they can reach.
    [sm_get] and [sm_set] are the client's own machine in that state. *)
(** [include/session_sm.hpp:17-28] ism_client *)
Class ism_client (W : Type) := {
  sm_get : W -> sm_state;
  sm_set : sm_state -> W -> W;
  ism_connect : W -> result W;
  ism_handshake : W -> result W;
  ism_interested : W -> result W;
  ism_choked : W -> result W;
  ism_unchoked : W -> result W;
  ism_disconnected : W -> result W;
}.

(** The state each event leads to. *)
(** [src/session_sm.cpp:16-56] session_sm::on_event *)
Definition target (ev : session_event) : sm_state :=
  match ev with
  | EV_START => STARTED
  | EV_CONNECTED => CONNECTED
  | EV_HANDSHAKE => HANDSHAKE_RECEIVED
  | EV_CHOKE => CHOKED
  | EV_UNCHOKE => UNCHOKED
  | EV_DISCONNECTED => DISCONNECTED
  end.

(** [src/session_sm.cpp:14-57] session_sm::on_event
    The state is stored before the callback runs. *)
Definition session_sm_on_event {W} (C : ism_client W) (ev : session_event) (w : W) : result W :=
  let w := sm_set (target ev) w in
  match ev with
  | EV_START => ism_connect w
  | EV_CONNECTED => ism_handshake w
  | EV_HANDSHAKE => ism_interested w
  | EV_CHOKE => ism_choked w
  | EV_UNCHOKE => ism_unchoked w
  | EV_DISCONNECTED => ism_disconnected w
  end.

(** Only START calls [connect]: replacing that callback changes no other event. *)
Lemma on_event_ext {W} (C1 C2 : ism_client W) ev w :
  @sm_set W C1 = @sm_set W C2 ->
  @ism_handshake W C1 = @ism_handshake W C2 ->
  @ism_interested W C1 = @ism_interested W C2 ->
  @ism_choked W C1 = @ism_choked W C2 ->
  @ism_unchoked W C1 = @ism_unchoked W C2 ->
  @ism_disconnected W C1 = @ism_disconnected W C2 ->
  ev <> EV_START ->
  session_sm_on_event C1 ev w = session_sm_on_event C2 ev w.
Proof. unfold session_sm_on_event. intros -> ? ? ? ? ? ?. destruct ev; congruence. Qed.

Lemma handshake_received_spec s :
  handshake_received s = true <->
  s = HANDSHAKE_RECEIVED \/ s = CHOKED \/ s = UNCHOKED \/ s = DISCONNECTED.
Proof. destruct s; unfold handshake_received; simpl; naive_solver lia. Qed.
