(* ===== verification/Sockets.v ===== *)
(** * System calls and the socket wrappers

    The class [OS] lists the system calls the client makes, over an abstract
    state of the operating system; [OSLaws] is the documented behaviour the
    properties use.  The rest of the file is [src/tcp_socket.cpp] and
    [include/tcp_socket.hpp] over them; a socket is its file descriptor. *)

From S2P Require Import Prelude ByteBuffer.

(** [EPOLLIN] and [EPOLLOUT] of [sys/epoll.h]. *)
Definition EPOLLIN : Z := 1.
Definition EPOLLOUT : Z := 4.

(** An IPv4 address and port in host byte order: what the client keeps in a
    [sockaddr_in]. *)
Record sockaddr := mk_sockaddr { sin_addr : Z; sin_port : Z }.

#[global] Instance sockaddr_eq_dec : EqDecision sockaddr.
Proof. solve_decision. Defined.

(** [read] returns -1 ([None]), or the bytes it stored, none of them at the end of
    the stream.  [epoll_wait] returns -1 ([None]) or the ready descriptors with
    their events. *)
Class OS := {
  os : Type;
  sys_socket : os -> Z * os;
  sys_close : Z -> os -> os;
  sys_set_nonblock : Z -> bool -> os -> bool * os;
  sys_bind : Z -> sockaddr -> os -> Z * os;
  sys_connect : Z -> sockaddr -> os -> Z * os;
  sys_so_error : Z -> os -> option Z * os;
  sys_read : Z -> Z -> os -> option bytes * os;
  sys_write : Z -> bytes -> os -> Z * os;
  sys_epoll_add : Z -> Z -> os -> Z * os;
  sys_epoll_mod : Z -> Z -> os -> Z * os;
  sys_epoll_del : Z -> os -> os;
  sys_epoll_wait : Z -> Z -> os -> option (list (Z * Z)) * os;
  sys_now : os -> Z * os;
}.

Class OSLaws (O : OS) : Prop := {
  read_at_most fd n s l : 0 <= n -> (sys_read fd n s).1 = Some l ->
    Z.of_nat (length l) <= n /\ bytes_ok l;
  write_at_most fd l s : -1 <= (sys_write fd l s).1 <= Z.of_nat (length l);
  write_progress fd l s : l <> [] -> (sys_write fd l s).1 <> 0;
}.

Section TcpSocket.
Context {BB : ByteBuffer} {O : OS}.

(** [include/tcp_socket.hpp:27-27] tcp_socket::valid *)
Definition tcp_socket_valid (fd : Z) : bool := negb (fd =? -1).

(** [src/tcp_socket.cpp:16-26] tcp_socket::tcp_socket *)
Definition tcp_socket_create (s : os) : result (Z * os) :=
  let '(fd, s) := sys_socket s in
  if negb (tcp_socket_valid fd) then Fault RuntimeError else Ok (fd, s).

(** [src/tcp_socket.cpp:34-40] tcp_socket::bind *)
Definition tcp_socket_bind (fd : Z) (ep : sockaddr) (s : os) : bool * os :=
  let '(res, s) := sys_bind fd ep s in (res =? 0, s).

(** [src/tcp_socket.cpp:42-48] tcp_socket::connect *)
Definition tcp_socket_connect (fd : Z) (ep : sockaddr) (s : os) : bool * os :=
  let '(res, s) := sys_connect fd ep s in (res =? 0, s).

(** [src/tcp_socket.cpp:50-60] tcp_socket::set_blocking *)
Definition tcp_socket_set_blocking (fd : Z) (block : bool) (s : os) : bool * os :=
  sys_set_nonblock fd (negb block) s.

(** [src/tcp_socket.cpp:62-65] tcp_socket::getsockopt
    The one option the client asks for is [SO_ERROR]. *)
Definition tcp_socket_getsockopt (fd : Z) (s : os) : option Z * os := sys_so_error fd s.

(** [src/tcp_socket.cpp:67-75] tcp_socket::write *)
Definition tcp_socket_write (fd : Z) (buffer : buf) (s : os) : Z * buf * os :=
  let '(res, s) := sys_write fd (bb_readable buffer) s in
  let buffer := if 0 <? res then bb_inc_read buffer res else buffer in
  (res, buffer, s).

(** [src/tcp_socket.cpp:77-85] tcp_socket::read *)
Definition tcp_socket_read (fd : Z) (buffer : buf) (s : os) : Z * buf * os :=
  let '(res, s) := sys_read fd (bb_write_available buffer) s in
  match res with
  | None => (-1, buffer, s)
  | Some l =>
      let n := Z.of_nat (length l) in
      (n, if 0 <? n then bb_fill buffer l else buffer, s)
  end.

(** [src/tcp_socket.cpp:87-94] tcp_socket::close *)
Definition tcp_socket_close (fd : Z) (s : os) : Z * os :=
  if tcp_socket_valid fd then (-1, sys_close fd s) else (fd, s).

(** [src/tcp_socket.cpp:96-107] tcp_socket::reset *)
Definition tcp_socket_reset (fd : Z) (s : os) : result (Z * os) :=
  let '(_, s) := tcp_socket_close fd s in
  tcp_socket_create s.

Context {BL : ByteBufferLaws BB} {OL : OSLaws O}.

(** A successful or failed write leaves exactly the bytes not sent. *)
Lemma tcp_socket_write_readable fd b s res b' s' :
  tcp_socket_write fd b s = (res, b', s') ->
  bb_readable b' = drop (Z.to_nat res) (bb_readable b) /\
  -1 <= res <= bb_available b /\ (bb_readable b <> [] -> res <> 0).
Proof.
  unfold tcp_socket_write, bb_available. intros H.
  pose proof (write_at_most fd (bb_readable b) s) as Hm.
  pose proof (write_progress fd (bb_readable b) s) as Hp.
  destruct (sys_write fd (bb_readable b) s) as [r s1]. simpl in *.
  injection H as <- <- <-. split; [|done].
  destruct (Z.ltb_spec 0 r).
  - by rewrite inc_read_readable by (unfold bb_available; lia).
  - replace (Z.to_nat r) with 0%nat by lia. by rewrite drop_0.
Qed.

(** A read stores what the system call returned after what was there. *)
Lemma tcp_socket_read_readable fd b s res b' s' :
  0 <= bb_write_available b ->
  tcp_socket_read fd b s = (res, b', s') ->
  exists l, bb_readable b' = bb_readable b ++ l /\ bytes_ok l /\
    ((res = -1 /\ l = []) \/ res = Z.of_nat (length l)).
Proof.
  unfold tcp_socket_read. intros Hw H.
  pose proof (read_at_most fd (bb_write_available b) s) as Hm.
  destruct (sys_read fd (bb_write_available b) s) as [[l|] s1]; simpl in *; injection H as <- <- <-.
  - destruct (Hm l Hw eq_refl) as [Hlen Hok]. exists l. split; [|by eauto].
    destruct (Z.ltb_spec 0 (Z.of_nat (length l))).
    + by apply fill_readable.
    + destruct l; [by rewrite app_nil_r | simpl in *; lia].
  - exists []. rewrite app_nil_r. split; [done|]. split; [constructor|]. by left.
Qed.
End TcpSocket.
