(* ===== verification/Timer.v ===== *)
(** * The timer

    [src/timer.cpp], [include/timer.hpp] and [include/itimer_client.hpp].  A client
    is a number; the [timeout_ms_] and [elapsed_] fields of its [itimer_client]
    base are kept with the timer, in [tc_].  The vector of registered clients is
    its allocated cells together with its size, because [tock] walks the cells
    with the end it computed first while a callback may erase from the vector. *)

From S2P Require Import Prelude Float32.

(** [include/itimer_client.hpp:13-14] itimer_client *)
Record itimer_client := mk_itimer_client { timeout_ms_ : f32; elapsed_ : f32 }.

(** The in-class initialisers. *)
(** [include/itimer_client.hpp:13-14] itimer_client *)
Definition itimer_client_init : itimer_client := mk_itimer_client (f32_of_Z 0) (f32_of_Z 0).

(** [include/timer.hpp:25-26] timer *)
Record timer := mk_timer {
  start_ : Z;
  cells_ : list nat;
  size_ : nat;
  tc_ : gmap nat itimer_client;
}.

(** [include/timer.hpp:16-27] timer *)
Definition timer_init : timer := mk_timer 0 [] 0 ∅.

(** The registered clients: the vector's contents. *)
Definition timer_clients (t : timer) : list nat := take (size_ t) (cells_ t).

(** The cells the size promises are allocated. *)
Definition timer_ok (t : timer) : Prop := (size_ t <= length (cells_ t))%nat.

Definition timer_client (t : timer) (c : nat) : itimer_client :=
  default itimer_client_init (tc_ t !! c).

Definition set_client (c : nat) (v : itimer_client) (t : timer) : timer :=
  mk_timer (start_ t) (cells_ t) (size_ t) (<[c := v]> (tc_ t)).

Definition set_elapsed (c : nat) (e : f32) (t : timer) : timer :=
  set_client c (mk_itimer_client (timeout_ms_ (timer_client t c)) e) t.

(** [src/timer.cpp:10-13] timer::tick *)
Definition timer_tick (now : Z) (t : timer) : timer :=
  mk_timer now (cells_ t) (size_ t) (tc_ t).

(** [src/timer.cpp:32-37] timer::reg *)
Definition timer_reg (c : nat) (timeout_ms : f32) (t : timer) : timer :=
  let t := set_client c (mk_itimer_client timeout_ms (f32_of_Z 0)) t in
  mk_timer (start_ t) (timer_clients t ++ [c] ++ drop (S (size_ t)) (cells_ t)) (S (size_ t)) (tc_ t).

(** [src/timer.cpp:39-43] timer::unreg
    [std::remove] moves the other clients to the front and leaves the cells
    behind them as they were; [erase] only shrinks the size. *)
Definition timer_unreg (c : nat) (t : timer) : timer :=
  let kept := filter (fun d => d <> c) (timer_clients t) in
  mk_timer (start_ t) (kept ++ drop (length kept) (cells_ t)) (length kept) (tc_ t).

(** A state with a timer in it. *)
Class TimerWorld (W : Type) := {
  tw_get : W -> timer;
  tw_set : timer -> W -> W;
}.

Section Tock.
Context {W : Type} {TW : TimerWorld W}.
(** [include/itimer_client.hpp:11] itimer_client::on_timeout *)
Variable on_timeout : nat -> W -> result W.

(** [src/timer.cpp:21-29] timer::tock
    [n] cells are left of those counted when the loop began, the next one is [i]. *)
Fixpoint tock_loop (elapsed_ms : Z) (n i : nat) (w : W) : result W :=
  match n with
  | O => Ok w
  | S n' =>
      match cells_ (tw_get w) !! i with
      | None => Fault DanglingIterator
      | Some c =>
          let t := tw_get w in
          let e := f32_add (elapsed_ (timer_client t c)) (f32_of_Z elapsed_ms) in
          let w := tw_set (set_elapsed c e t) w in
          w ← (if f32_le (timeout_ms_ (timer_client (tw_get w) c)) (elapsed_ (timer_client (tw_get w) c))
               then w ← on_timeout c w;
                    Ok (tw_set (set_elapsed c (f32_of_Z 0) (tw_get w)) w)
               else Ok w);
          tock_loop elapsed_ms n' (S i) w
      end
  end.

(** [src/timer.cpp:15-30] timer::tock
    Time is in nanoseconds; the cast to milliseconds truncates. *)
Definition timer_tock (now : Z) (w : W) : result W :=
  let t := tw_get w in
  let elapsed_ms := Z.quot (now - start_ t) 1000000 in
  tock_loop elapsed_ms (size_ t) 0 w.
End Tock.

(** ** Facts about the vector *)

Lemma timer_reg_clients c ms t : timer_clients (timer_reg c ms t) = timer_clients t ++ [c] \/
  ~ timer_ok t.
Proof.
  destruct (decide (timer_ok t)) as [Hok|]; [left|by right].
  unfold timer_reg, timer_clients, timer_ok in *. simpl.
  change (c :: ?l) with ([c] ++ l). rewrite app_assoc. apply take_app_length'.
  rewrite length_app, length_take. simpl. lia.
Qed.

Lemma timer_unreg_clients c t :
  timer_clients (timer_unreg c t) = filter (fun d => d <> c) (timer_clients t).
Proof. unfold timer_unreg, timer_clients. simpl. by apply take_app_length. Qed.

Lemma timer_reg_ok c ms t : timer_ok t -> timer_ok (timer_reg c ms t).
Proof.
  unfold timer_ok, timer_reg, timer_clients. simpl. intros H.
  rewrite length_app, length_take. simpl. lia.
Qed.

Lemma timer_unreg_ok c t : timer_ok (timer_unreg c t).
Proof. unfold timer_ok, timer_unreg. simpl. rewrite length_app. lia. Qed.

Lemma set_elapsed_client c e t : timer_client (set_elapsed c e t) c =
  mk_itimer_client (timeout_ms_ (timer_client t c)) e.
Proof. unfold timer_client at 1, set_elapsed, set_client. simpl. by rewrite lookup_insert_eq. Qed.

Lemma set_elapsed_other c d e t : c <> d -> timer_client (set_elapsed c e t) d = timer_client t d.
Proof. intros H. unfold timer_client, set_elapsed, set_client. simpl. by rewrite lookup_insert_ne. Qed.

Create Rewrite HintDb timer.
#[export] Hint Rewrite set_elapsed_client : timer.

(** ** The timer on its own: the callback only unregisters its client *)
#[export] Instance timer_world : TimerWorld timer := {| tw_get t := t; tw_set t _ := t |}.

Definition unreg_on_timeout (c : nat) (t : timer) : result timer := Ok (timer_unreg c t).

(** One step for a client: the elapsed time grows. *)
Definition advance (ms : Z) (c : nat) (t : timer) : timer :=
  set_elapsed c (f32_add (elapsed_ (timer_client t c)) (f32_of_Z ms)) t.

(** The client would be called back by a tock of [ms] milliseconds. *)
Definition expires (ms : Z) (t : timer) (c : nat) : bool :=
  f32_le (timeout_ms_ (timer_client t c)) (f32_add (elapsed_ (timer_client t c)) (f32_of_Z ms)).

Lemma advance_other ms c d t : c <> d -> timer_client (advance ms c t) d = timer_client t d.
Proof. apply set_elapsed_other. Qed.

(** *** Advancing a list of clients *)

Definition advance_all (ms : Z) (l : list nat) (t : timer) : timer :=
  foldl (fun t c => advance ms c t) t l.

Lemma advance_all_cons ms c l t : advance_all ms (c :: l) t = advance_all ms l (advance ms c t).
Proof. done. Qed.

Lemma advance_all_vector ms l t :
  cells_ (advance_all ms l t) = cells_ t /\ size_ (advance_all ms l t) = size_ t.
Proof. revert t; induction l as [|c l IH]; intros t; [done|]. rewrite advance_all_cons. by destruct (IH (advance ms c t)) as [-> ->]. Qed.

Lemma advance_all_other ms l t d : d ∉ l -> timer_client (advance_all ms l t) d = timer_client t d.
Proof.
  revert t; induction l as [|c l IH]; intros t H; [done|].
  apply not_elem_of_cons in H as [Hc Hl].
  rewrite advance_all_cons, IH by done. by apply advance_other.
Qed.

Lemma advance_client ms d t : timer_client (advance ms d t) d =
  mk_itimer_client (timeout_ms_ (timer_client t d)) (f32_add (elapsed_ (timer_client t d)) (f32_of_Z ms)).
Proof. apply set_elapsed_client. Qed.

Lemma advance_all_in ms l t d : NoDup l -> d ∈ l ->
  timer_client (advance_all ms l t) d = timer_client (advance ms d t) d.
Proof.
  revert t; induction l as [|c l IH]; intros t Hnd Hd; [by inversion Hd|].
  apply NoDup_cons in Hnd as [Hc Hnd]. rewrite advance_all_cons.
  apply elem_of_cons in Hd as [->|Hd].
  - by rewrite advance_all_other.
  - rewrite IH, !advance_client, advance_other by (done || (intros ->; done)). done.
Qed.

(** [expires] looks at the client alone. *)
Lemma expires_ext ms t1 t2 c : timer_client t1 c = timer_client t2 c ->
  expires ms t1 c = expires ms t2 c.
Proof. unfold expires. by intros ->. Qed.

(** *** Stretches of the walk *)

Lemma tock_loop_app {W} {TW : TimerWorld W} f ms n1 n2 : forall i (w : W),
  tock_loop f ms (n1 + n2) i w = (tock_loop f ms n1 i w ≫= tock_loop f ms n2 (i + n1)).
Proof.
  induction n1 as [|n1 IH]; intros i w; simpl.
  - by rewrite Nat.add_0_r.
  - destruct (cells_ _ !! i); [|done]. simpl.
    match goal with |- context [if ?b then ?x else ?y] => destruct (if b then x else y) as [w'|e] end; [|done].
    simpl. rewrite IH. by rewrite Nat.add_succ_r.
Qed.

(** One cell, whose client does not expire. *)
Lemma tock_loop_one f ms a c b (t : timer) :
  cells_ t = a ++ c :: b -> expires ms t c = false ->
  tock_loop f ms 1 (length a) t = Ok (advance ms c t).
Proof.
  intros Hc Hq. simpl. rewrite Hc, list_lookup_middle by done.
  fold (advance ms c t). rewrite advance_client. simpl.
  unfold expires in Hq. by rewrite Hq.
Qed.

(** One cell, whose client does. *)
Lemma tock_loop_expires f ms a c b (t : timer) :
  cells_ t = a ++ c :: b -> expires ms t c = true ->
  tock_loop f ms 1 (length a) t =
  (t' ← f c (advance ms c t); Ok (set_elapsed c (f32_of_Z 0) t')).
Proof.
  intros Hc Hq. simpl. rewrite Hc, list_lookup_middle by done.
  fold (advance ms c t). rewrite advance_client. simpl.
  unfold expires in Hq. rewrite Hq. by destruct (f c (advance ms c t)).
Qed.

Lemma tock_loop_stretch f ms l : forall a b (t : timer),
  cells_ t = a ++ l ++ b -> NoDup l -> Forall (fun c => expires ms t c = false) l ->
  tock_loop f ms (length l) (length a) t = Ok (advance_all ms l t).
Proof.
  induction l as [|c l IH]; intros a b t Hc Hnd Hq; [done|].
  apply NoDup_cons in Hnd as [Hni Hnd]. apply Forall_cons in Hq as [Hqc Hq].
  change (length (c :: l)) with (1 + length l)%nat. rewrite tock_loop_app.
  rewrite (tock_loop_one f ms a c (l ++ b)) by done. cbn [mbind result_bind].
  replace (length a + 1)%nat with (length (a ++ [c])) by (rewrite length_app; simpl; lia).
  rewrite (IH (a ++ [c]) b); [done| |done|].
  - simpl. by rewrite Hc, <- app_assoc.
  - apply Forall_forall. intros d Hd.
    rewrite (expires_ext ms _ t) by (apply advance_other; intros ->; done).
    by apply (proj1 (Forall_forall _ _) Hq).
Qed.

Lemma timer_cells t : timer_ok t -> exists b, cells_ t = timer_clients t ++ b /\ length (timer_clients t) = size_ t.
Proof.
  intros H. exists (drop (size_ t) (cells_ t)). unfold timer_clients, timer_ok in *.
  rewrite take_drop, length_take. split; [done|lia].
Qed.

(** When no registered client has reached its timeout, a tock calls nobody back and
    adds the elapsed milliseconds to every registered client exactly once. *)
Theorem timer_tock_quiet f now t :
  timer_ok t -> NoDup (timer_clients t) ->
  let ms := Z.quot (now - start_ t) 1000000 in
  Forall (fun c => expires ms t c = false) (timer_clients t) ->
  timer_tock f now t = Ok (advance_all ms (timer_clients t) t).
Proof.
  intros Hok Hnd ms Hq. destruct (timer_cells t Hok) as (b & Hb & Hlen).
  unfold timer_tock. simpl. rewrite <- Hlen. by apply (tock_loop_stretch f ms _ [] b).
Qed.

(** *** A callback that unregisters during the walk *)

Lemma filter_ne_id (l : list nat) c : c ∉ l -> filter (fun d => d <> c) l = l.
Proof.
  induction l as [|d l IH]; intros H; [done|]. apply not_elem_of_cons in H as [H1 H2].
  by rewrite filter_cons_True, IH.
Qed.

Lemma filter_ne_middle (a b : list nat) c :
  NoDup (a ++ c :: b) -> filter (fun d => d <> c) (a ++ c :: b) = a ++ b.
Proof.
  intros Hnd. apply NoDup_app in Hnd as (_ & Hac & Hcb). apply NoDup_cons in Hcb as [Hb _].
  rewrite filter_app, filter_cons_False by (intros H; by apply H).
  rewrite !filter_ne_id; [done|done|]. intros H. apply (Hac _ H). by left.
Qed.

(** What [unreg] leaves in the cells: the clients moved up, the last one stays
    behind in the cell past the new end. *)
Lemma timer_unreg_cells a c b x rest t :
  NoDup (a ++ c :: b ++ [x]) -> timer_clients t = a ++ c :: b ++ [x] ->
  cells_ t = (a ++ c :: b ++ [x]) ++ rest ->
  cells_ (timer_unreg c t) = a ++ (b ++ [x]) ++ x :: rest.
Proof.
  intros Hnd Hcl Hcells. unfold timer_unreg. simpl.
  rewrite Hcl, filter_ne_middle, Hcells by done.
  rewrite <- !app_assoc. do 3 f_equal. simpl. rewrite <- !app_assoc. simpl.
  replace (a ++ c :: b ++ x :: rest) with ((a ++ c :: b) ++ x :: rest) by (by rewrite <- app_assoc).
  apply drop_app_length'. rewrite !length_app. simpl. lia.
Qed.

(** The walk over the cells behind an erased client: [b], then the last client [x]
    and the copy of it past the new end. *)
Lemma tock_loop_tail f ms p b x rest (t : timer) :
  cells_ t = p ++ b ++ x :: x :: rest -> NoDup b -> x ∉ b ->
  Forall (fun e => expires ms t e = false) (b ++ [x]) ->
  expires ms (advance ms x t) x = false ->
  tock_loop f ms (length b + 2) (length p) t =
  Ok (advance ms x (advance ms x (advance_all ms b t))).
Proof.
  intros Hc Hnd Hxb Hq Hx. apply Forall_app in Hq as [Hqb Hqx].
  apply Forall_cons in Hqx as [Hqx _].
  rewrite tock_loop_app, (tock_loop_stretch _ ms b p (x :: x :: rest)) by done.
  cbn [mbind result_bind]. rewrite (tock_loop_app _ _ 1 1), <- length_app.
  destruct (advance_all_vector ms b t) as [Hv _].
  rewrite (tock_loop_one _ ms (p ++ b) x (x :: rest)).
  2:{ by rewrite Hv, Hc, <- app_assoc. }
  2:{ rewrite (expires_ext ms _ t); [done|]. by apply advance_all_other. }
  cbn [mbind result_bind].
  replace (length (p ++ b) + 1)%nat with (length ((p ++ b) ++ [x])) by (rewrite length_app; simpl; lia).
  apply (tock_loop_one _ ms _ x rest).
  - change (cells_ (advance_all ms b t) = ((p ++ b) ++ [x]) ++ x :: rest).
    by rewrite Hv, Hc, <- !app_assoc.
  - rewrite (expires_ext ms _ (advance ms x t)); [done|].
    by rewrite !advance_client, advance_all_other.
Qed.

(** The walk up to and including the cell of the one client that expires. *)
Lemma tock_loop_head ms a c l rest (t : timer) :
  cells_ t = a ++ (c :: l) ++ rest -> NoDup a -> c ∉ a ->
  Forall (fun e => expires ms t e = false) a -> expires ms t c = true ->
  tock_loop unreg_on_timeout ms (length a + 1) 0 t =
  Ok (set_elapsed c (f32_of_Z 0) (timer_unreg c (advance ms c (advance_all ms a t)))).
Proof.
  intros Hc Hnd Hca Hq Hx.
  rewrite tock_loop_app, (tock_loop_stretch _ ms a [] ((c :: l) ++ rest)) by done.
  cbn [mbind result_bind]. simpl (0 + length a)%nat.
  rewrite (tock_loop_expires _ ms a c (l ++ rest)); [done| |].
  - by rewrite (proj1 (advance_all_vector ms a t)), Hc.
  - rewrite (expires_ext ms _ t); [done|]. by apply advance_all_other.
Qed.

(** If exactly one registered client [c] expires, and it is followed by [d] and by
    at least one more client, then [d] misses the tock and the last client is
    advanced twice: the walk continues with the cells shifted under it. *)
Theorem timer_tock_skips now t a c d b x :
  timer_ok t -> timer_clients t = a ++ c :: d :: b ++ [x] ->
  NoDup (a ++ c :: d :: b ++ [x]) ->
  let ms := Z.quot (now - start_ t) 1000000 in
  expires ms t c = true ->
  Forall (fun e => expires ms t e = false) (a ++ b ++ [x]) ->
  expires ms (advance ms x t) x = false ->
  exists t', timer_tock unreg_on_timeout now t = Ok t' /\
    timer_clients t' = a ++ d :: b ++ [x] /\
    timer_client t' d = timer_client t d /\
    timer_client t' x = timer_client (advance ms x (advance ms x t)) x.
Proof.
  intros Hok Hcl Hnd ms Hc Hq Hx.
  destruct (timer_cells t Hok) as (rest & Hcells & Hlen). rewrite Hcl in Hcells, Hlen.
  pose proof Hnd as Hnd'. change (c :: d :: b ++ [x]) with ([c] ++ [d] ++ b ++ [x]) in Hnd'.
  rewrite !NoDup_app in Hnd'. apply Forall_app in Hq as [Hqa Hqb].
  set (t1 := advance ms c (advance_all ms a t)).
  set (t2 := set_elapsed c (f32_of_Z 0) (timer_unreg c t1)).
  assert (timer_clients t1 = a ++ c :: (d :: b) ++ [x] /\
          cells_ t1 = (a ++ c :: (d :: b) ++ [x]) ++ rest) as [Hcl1 Hcells1].
  { destruct (advance_all_vector ms a t) as [Hv1 Hv2]. split; [|exact (eq_trans Hv1 Hcells)].
    change (take (size_ (advance_all ms a t)) (cells_ (advance_all ms a t)) = a ++ c :: (d :: b) ++ [x]).
    by rewrite Hv1, Hv2. }
  assert (forall y, y ∉ a -> y <> c -> timer_client t2 y = timer_client t y) as Ht2.
  { intros y Hy Hyc. unfold t2. rewrite set_elapsed_other by done.
    change (timer_client t1 y = timer_client t y). unfold t1.
    by rewrite advance_other, advance_all_other. }
  assert (cells_ t2 = (a ++ [d]) ++ b ++ x :: x :: rest) as Hc2.
  { change (cells_ (timer_unreg c t1) = (a ++ [d]) ++ b ++ x :: x :: rest).
    rewrite (timer_unreg_cells a c (d :: b) x rest) by done. simpl. by rewrite <- !app_assoc. }
  exists (advance ms x (advance ms x (advance_all ms b t2))). split; [|split; [|split]].
  - unfold timer_tock. simpl. fold ms. rewrite <- Hlen.
    replace (length (a ++ c :: d :: b ++ [x])) with ((length a + 1) + (length b + 2))%nat
      by (rewrite length_app; simpl; rewrite length_app; simpl; lia).
    rewrite tock_loop_app, (tock_loop_head ms a c (d :: b ++ [x]) rest);
      [|by rewrite Hcells, <- app_assoc|tauto|set_solver|done|done].
    cbn [mbind result_bind]. fold t1 t2.
    replace (0 + (length a + 1))%nat with (length (a ++ [d])) by (rewrite length_app; simpl; lia).
    apply (tock_loop_tail _ ms (a ++ [d]) b x rest); [done|set_solver|set_solver| |].
    + apply Forall_forall. intros y Hy. rewrite (expires_ext ms t2 t).
      * by apply (proj1 (Forall_forall _ _) Hqb).
      * apply Ht2; [set_solver|]. set_solver.
    + rewrite (expires_ext ms _ (advance ms x t)); [done|].
      rewrite !advance_client, Ht2 by set_solver. done.
  - unfold timer_clients. destruct (advance_all_vector ms b t2) as [Hv Hs].
    change (take (size_ (advance_all ms b t2)) (cells_ (advance_all ms b t2)) = a ++ d :: b ++ [x]).
    rewrite Hv, Hs. change (timer_clients (timer_unreg c t1) = a ++ d :: b ++ [x]).
    rewrite timer_unreg_clients, Hcl1. by apply filter_ne_middle.
  - rewrite !advance_other, advance_all_other by set_solver. apply Ht2; set_solver.
  - rewrite !advance_client, advance_all_other, Ht2 by set_solver. done.
Qed.

(** *** How long a client waits

    One turn of the engine loop ticks at [start] and tocks at [stop]. *)

Definition lap (f : nat -> timer -> result timer) (l : Z * Z) (t : timer) : result timer :=
  timer_tock f l.2 (timer_tick l.1 t).

Definition lap_ms (l : Z * Z) : Z := Z.quot (l.2 - l.1) 1000000.

Fixpoint laps f (ls : list (Z * Z)) (t : timer) : result timer :=
  match ls with
  | [] => Ok t
  | l :: ls' => t ← lap f l t; laps f ls' t
  end.

Definition total_ms (ls : list (Z * Z)) : Z := foldr (fun l s => lap_ms l + s) 0 ls.

Definition lap_ok (l : Z * Z) : Prop := l.1 <= l.2.

Lemma lap_ms_nonneg l : lap_ok l -> 0 <= lap_ms l.
Proof. unfold lap_ok, lap_ms. intros H. apply Z.quot_pos; lia. Qed.

Lemma total_ms_nonneg ls : Forall lap_ok ls -> 0 <= total_ms ls.
Proof. induction 1 as [|l ls Hl _ IH]; simpl; [lia|]. pose proof (lap_ms_nonneg l Hl). lia. Qed.

(** The timer holds the client [c] alone, due at [T] ms, of which [s] have passed. *)
Definition waiting (c : nat) (T s : Z) (t : timer) : Prop :=
  timer_ok t /\ timer_clients t = [c] /\
  timer_client t c = mk_itimer_client (f32_of_Z T) (f32_of_Z s).

Lemma lap_waiting f c T s t l :
  waiting c T s t -> 0 <= s -> lap_ok l -> s + lap_ms l < 2 ^ 24 -> 0 <= T < 2 ^ 24 ->
  exists t1, waiting c T (s + lap_ms l) t1 /\
    lap f l t = if T <=? s + lap_ms l
                then t2 ← f c t1; Ok (set_elapsed c (f32_of_Z 0) t2)
                else Ok t1.
Proof.
  intros (Hok & Hcl & Hc) Hs Hl Hlt HT. pose proof (lap_ms_nonneg l Hl) as Hms.
  set (t0 := timer_tick l.1 t).
  assert (timer_client t0 c = mk_itimer_client (f32_of_Z T) (f32_of_Z s)) as Hc0 by done.
  destruct (timer_cells t Hok) as (b & Hb & Hlen). rewrite Hcl in Hb, Hlen.
  exists (advance (lap_ms l) c t0). split.
  - split; [done|split; [done|]]. rewrite advance_client, Hc0. simpl. by rewrite f32_add_exact.
  - assert (expires (lap_ms l) t0 c = (T <=? s + lap_ms l)) as He.
    { unfold expires. rewrite Hc0. simpl. rewrite f32_add_exact, f32_le_exact by lia. done. }
    unfold lap, timer_tock. simpl. rewrite <- Hlen. fold t0. fold (lap_ms l). simpl length.
    destruct (Z.leb_spec T (s + lap_ms l)).
    + by rewrite (tock_loop_expires f _ [] c b).
    + by rewrite (tock_loop_one f _ [] c b).
Qed.

(** C36: In a timer with one client, registered for [T] milliseconds, the client is not called
    back before the laps' whole milliseconds add up to [T], and the lap that reaches [T] calls
    it back, as long as the sum stays below 2^24.  (With several clients a callback that
    unregisters itself makes the loop skip another, [timer_tock_skips].) *)
Theorem timer_delay_exact f c T ls l :
  0 < T < 2 ^ 24 -> Forall lap_ok ls -> lap_ok l ->
  total_ms ls < T -> T <= total_ms ls + lap_ms l -> total_ms ls + lap_ms l < 2 ^ 24 ->
  exists t t1, laps f ls (timer_reg c (f32_of_Z T) timer_init) = Ok t /\
    waiting c T (total_ms ls) t /\ waiting c T (total_ms ls + lap_ms l) t1 /\
    lap f l t = (t2 ← f c t1; Ok (set_elapsed c (f32_of_Z 0) t2)).
Proof.
  intros HT Hls Hl Hlt Hge Hmax.
  assert (forall s t, waiting c T s t -> 0 <= s -> s + total_ms ls < T ->
    exists t', laps f ls t = Ok t' /\ waiting c T (s + total_ms ls) t') as Hrun.
  { clear Hlt Hge Hmax Hl. induction Hls as [|k ls Hk Hls IH]; intros s t Ht Hs Hlt; simpl in *.
    - exists t. by rewrite Z.add_0_r.
    - pose proof (lap_ms_nonneg k Hk). pose proof (total_ms_nonneg ls Hls).
      destruct (lap_waiting f c T s t k Ht) as (t1 & Ht1 & ->); [lia|done|lia|lia|].
      rewrite (proj2 (Z.leb_gt _ _)) by lia. simpl.
      destruct (IH _ _ Ht1) as (t' & -> & Ht'); [lia|lia|].
      exists t'. split; [done|]. by rewrite Z.add_assoc. }
  destruct (Hrun 0 (timer_reg c (f32_of_Z T) timer_init)) as (t & Ht & Hw); [|lia|lia|].
  { split; [unfold timer_ok; simpl; lia|]. split; [done|].
    unfold timer_client. simpl. by rewrite lookup_insert_eq. }
  rewrite Z.add_0_l in Hw.
  destruct (lap_waiting f c T _ t l Hw) as (t1 & Ht1 & Hlap);
    [by apply total_ms_nonneg|done|lia|lia|].
  rewrite (proj2 (Z.leb_le _ _)) in Hlap by lia. by exists t, t1.
Qed.

(** Laps shorter than a millisecond never add up: the client is not called back
    however many of them pass. *)
Theorem timer_submillisecond_starves f c T ls :
  0 < T < 2 ^ 24 -> Forall (fun l => 0 <= l.2 - l.1 < 1000000) ls ->
  exists t, laps f ls (timer_reg c (f32_of_Z T) timer_init) = Ok t /\ waiting c T 0 t.
Proof.
  intros HT Hls.
  assert (waiting c T 0 (timer_reg c (f32_of_Z T) timer_init)) as H0.
  { split; [unfold timer_ok; simpl; lia|]. split; [done|].
    unfold timer_client. simpl. by rewrite lookup_insert_eq. }
  revert H0. generalize (timer_reg c (f32_of_Z T) timer_init).
  induction Hls as [|l ls Hl _ IH]; intros t Ht; [by exists t|].
  assert (lap_ms l = 0) as Hms by (unfold lap_ms; by apply Z.quot_small).
  destruct (lap_waiting f c T 0 t l Ht) as (t1 & Ht1 & Hlap);
    rewrite ?Hms; [lia|unfold lap_ok; lia|lia|lia|].
  rewrite Hms in *. rewrite (proj2 (Z.leb_gt _ _)) in Hlap by lia.
  simpl. rewrite Hlap. by apply IH.
Qed.

(** ** Witnesses *)

(** Clients 1, 2 and 3, due after 5, 50 and 50 milliseconds. *)
Definition three_clients : timer :=
  timer_reg 3 (f32_of_Z 50) (timer_reg 2 (f32_of_Z 50) (timer_reg 1 (f32_of_Z 5) timer_init)).

Lemma three_clients_ok : timer_ok three_clients.
Proof. unfold timer_ok. vm_compute. lia. Qed.

Lemma three_clients_distinct : NoDup (timer_clients three_clients).
Proof. apply (bool_decide_unpack _). by vm_compute. Qed.

Lemma timer_tock_quiet_witness :
  timer_tock unreg_on_timeout 2000000 three_clients = Ok (advance_all 2 [1; 2; 3]%nat three_clients).
Proof.
  apply (timer_tock_quiet unreg_on_timeout 2000000 three_clients).
  - exact three_clients_ok.
  - exact three_clients_distinct.
  - by repeat constructor.
Defined.

Lemma timer_tock_skips_witness :
  exists t', timer_tock unreg_on_timeout 10000000 three_clients = Ok t' /\
    timer_clients t' = [2; 3]%nat /\
    timer_client t' 2 = timer_client three_clients 2 /\
    timer_client t' 3 = timer_client (advance 10 3 (advance 10 3 three_clients)) 3.
Proof.
  apply (timer_tock_skips 10000000 three_clients [] 1 2 [] 3).
  - exact three_clients_ok.
  - done.
  - exact three_clients_distinct.
  - done.
  - by repeat constructor.
  - done.
Defined.

Lemma timer_delay_exact_witness :
  exists t t1, laps unreg_on_timeout [(0, 3000000)] (timer_reg 1 (f32_of_Z 5) timer_init) = Ok t /\
    waiting 1 5 3 t /\ waiting 1 5 6 t1 /\
    lap unreg_on_timeout (3000000, 6000000) t =
      (t2 ← unreg_on_timeout 1 t1; Ok (set_elapsed 1 (f32_of_Z 0) t2)).
Proof.
  apply (timer_delay_exact unreg_on_timeout 1 5 [(0, 3000000)] (3000000, 6000000)).
  - lia.
  - repeat constructor. unfold lap_ok. simpl. lia.
  - unfold lap_ok. simpl. lia.
  - by vm_compute.
  - by vm_compute.
  - by vm_compute.
Defined.

Lemma timer_submillisecond_starves_witness :
  exists t, laps unreg_on_timeout (replicate 100 (0, 999999)) (timer_reg 1 (f32_of_Z 5) timer_init) = Ok t /\
    waiting 1 5 0 t.
Proof.
  apply (timer_submillisecond_starves unreg_on_timeout 1 5 (replicate 100 (0, 999999))); [lia|].
  apply Forall_replicate. simpl. lia.
Defined.
