(* ===== verification/Net.v ===== *)
(** * Addresses and peers

    [src/net.cpp], [src/endpoint.cpp], [include/peer_info.hpp] and the two C library
    functions they use, [inet_ntop] and [inet_pton] for IPv4.  An endpoint is a
    [sockaddr]; the byte swaps between host and network order cancel out. *)

From S2P Require Import Prelude Sockets.

(** ** Dotted decimal notation *)

(** A number below 256 in decimal. *)
Definition decimal (n : Z) : bytes :=
  if n <? 10 then [48 + n]
  else if n <? 100 then [48 + n / 10; 48 + n mod 10]
  else [48 + n / 100; 48 + n / 10 mod 10; 48 + n mod 10].

Definition octet (i a : Z) : Z := a / 256 ^ i mod 256.

(** [inet_ntop(AF_INET, ...)] *)
Definition inet_ntop (a : Z) : bytes :=
  decimal (octet 3 a) ++ 46 :: decimal (octet 2 a) ++ 46 ::
  decimal (octet 1 a) ++ 46 :: decimal (octet 0 a).

(** [inet_pton(AF_INET, ...)]: four decimal numbers below 256 without superfluous
    zeros.  [done] are the numbers read so far, the last of them still growing if
    [saw_digit]; the string ends at its null character. *)
Fixpoint inet_pton_loop (s : bytes) (saw_digit : bool) (numbers : list Z) : option (list Z) :=
  match s with
  | [] | 0 :: _ => if (length numbers <? 4)%nat then None else Some numbers
  | c :: s' =>
      if (48 <=? c) && (c <=? 57) then
        match saw_digit, numbers with
        | true, n :: ns =>
            if (n =? 0) || (255 <? n * 10 + (c - 48)) then None
            else inet_pton_loop s' true (n * 10 + (c - 48) :: ns)
        | _, _ =>
            if (length numbers <? 4)%nat then inet_pton_loop s' true (c - 48 :: numbers) else None
        end
      else if (c =? 46) && saw_digit then
        if (length numbers =? 4)%nat then None else inet_pton_loop s' false numbers
      else None
  end.

Definition inet_pton (s : bytes) : option Z :=
  match inet_pton_loop s false [] with
  | Some numbers => Some (unbe (rev numbers))
  | None => None
  end.

(** [src/net.cpp:10-19] net::saddr_to_str *)
Definition saddr_to_str (saddr : Z) : bytes := inet_ntop saddr.

(** [src/endpoint.cpp:11-23] endpoint::endpoint *)
Definition endpoint_create (ip : bytes) (port : Z) : result sockaddr :=
  match inet_pton ip with
  | Some a => Ok (mk_sockaddr a port)
  | None => Fault RuntimeError
  end.

(** [src/endpoint.cpp:25-28] endpoint::endpoint *)
Definition endpoint_copy (addr : sockaddr) : sockaddr := addr.

(** [include/peer_info.hpp:12-24] peer_info *)
Record peer_info := mk_peer_info { peer_id_ : bytes; endpoint_ : sockaddr }.

(** [include/peer_info.hpp:15-18] peer_info::peer_info *)
Definition peer_info_create (id ip : bytes) (port : Z) : result peer_info :=
  ep ← endpoint_create ip port; Ok (mk_peer_info id ep).

(** Decimal digits of a port number, most significant first. *)
Fixpoint decimal_digits (fuel : nat) (n : Z) : bytes :=
  match fuel with
  | O => []
  | S fuel' => (if n <? 10 then [] else decimal_digits fuel' (n / 10)) ++ [48 + n mod 10]
  end.

(** The decimal notation of an integer of 64 bits. *)
Definition decimal_Z (z : Z) : bytes :=
  if z <? 0 then 45 :: decimal_digits 20 (- z) else decimal_digits 20 z.

Lemma decimal_digits_chars fuel : forall n, 0 <= n -> Forall (fun c => 48 <= c <= 57) (decimal_digits fuel n).
Proof.
  induction fuel as [|fuel IH]; intros n Hn; cbn [decimal_digits]; [constructor|]. apply Forall_app. split.
  - destruct (n <? 10); [constructor|]. apply IH, Z.div_pos; lia.
  - apply Forall_singleton. pose proof (Z.mod_pos_bound n 10). lia.
Qed.

Lemma decimal_chars z : Forall (fun c => 45 <= c <= 57 /\ c <> 47) (decimal_Z z) /\ decimal_Z z <> [] /\ head (decimal_Z z) <> Some 46.
Proof.
  unfold decimal_Z. destruct (Z.ltb_spec z 0).
  - split_and!; [|done|done]. constructor; [lia|]. eapply Forall_impl; [apply decimal_digits_chars; lia|]. cbn. lia.
  - pose proof (decimal_digits_chars 20 z ltac:(lia)) as H'. cbn [decimal_digits] in *. split_and!.
    + eapply Forall_impl; [exact H'|]. cbn. lia.
    + intros [_ ?]%app_nil. done.
    + destruct (_ ++ _) as [|c l]; [done|]. apply Forall_inv in H'. cbn. intros [= ->]. lia.
Qed.

(** [src/endpoint.cpp:30-37] operator<< *)
Definition endpoint_to_string (ep : sockaddr) : bytes :=
  [91] ++ inet_ntop (sin_addr ep) ++ [58] ++ decimal_digits 5 (sin_port ep) ++ [93].

(** [src/peer_info.cpp:15-18] operator<< *)
Definition peer_info_to_string (p : peer_info) : bytes :=
  bytes_of_string "peer: " ++ peer_id_ p ++ bytes_of_string ", endpoint: " ++ endpoint_to_string (endpoint_ p).

(** ** Round trip *)

Lemma digit_cases c : 48 <= c < 58 ->
  c = 48 \/ c = 49 \/ c = 50 \/ c = 51 \/ c = 52 \/ c = 53 \/ c = 54 \/ c = 55 \/ c = 56 \/ c = 57.
Proof. lia. Qed.

Lemma inet_pton_first c s ns : 48 <= c < 58 -> (length ns < 4)%nat ->
  inet_pton_loop (c :: s) false ns = inet_pton_loop s true (c - 48 :: ns).
Proof.
  intros Hd%digit_cases Hl. apply Nat.ltb_lt in Hl.
  destruct_or! Hd; subst c; cbn -[Nat.ltb length]; by rewrite Hl.
Qed.

Lemma inet_pton_next c n s ns : 48 <= c < 58 -> 0 < n -> n * 10 + (c - 48) < 256 ->
  inet_pton_loop (c :: s) true (n :: ns) = inet_pton_loop s true (n * 10 + (c - 48) :: ns).
Proof.
  intros Hd Hn Hlt.
  assert ((n =? 0) || (255 <? n * 10 + (c - 48)) = false) as Hc
    by (apply orb_false_intro; [apply Z.eqb_neq|apply Z.ltb_ge]; lia).
  apply digit_cases in Hd.
  destruct_or! Hd; subst c; cbn -[Z.mul Z.add Z.ltb Z.eqb Z.sub orb]; by rewrite Hc.
Qed.

(** Reading the decimal digits of a number below 256. *)
Lemma inet_pton_decimal n s ns : 0 <= n < 256 -> (length ns < 4)%nat ->
  inet_pton_loop (decimal n ++ s) false ns = inet_pton_loop s true (n :: ns).
Proof.
  intros Hn Hl. unfold decimal.
  pose proof (Z.div_mod n 10 ltac:(lia)). pose proof (Z.mod_pos_bound n 10 ltac:(lia)).
  pose proof (Z.div_mod (n / 10) 10 ltac:(lia)). pose proof (Z.mod_pos_bound (n / 10) 10 ltac:(lia)).
  assert (n / 10 / 10 = n / 100) as E by (by rewrite Z.div_div by lia).
  destruct (Z.ltb_spec n 10); [|destruct (Z.ltb_spec n 100)]; cbn [app].
  - rewrite inet_pton_first by lia. do 2 f_equal. lia.
  - rewrite inet_pton_first, inet_pton_next by lia. do 2 f_equal. lia.
  - rewrite inet_pton_first, !inet_pton_next by lia. do 2 f_equal. lia.
Qed.

Lemma inet_pton_dot s n ns : (length (n :: ns) < 4)%nat ->
  inet_pton_loop (46 :: s) true (n :: ns) = inet_pton_loop s false (n :: ns).
Proof. intros H. cbn -[length Nat.eqb]. by rewrite (proj2 (Nat.eqb_neq _ 4)) by lia. Qed.

Lemma octet_bound i a : 0 <= octet i a < 256.
Proof. apply Z.mod_pos_bound. lia. Qed.

Lemma octets_unbe a : 0 <= a < 2 ^ 32 -> unbe [octet 3 a; octet 2 a; octet 1 a; octet 0 a] = a.
Proof.
  intros Ha. replace [octet 3 a; octet 2 a; octet 1 a; octet 0 a] with (be 4 a).
  - apply unbe_be_small. lia.
  - unfold octet. cbn [be app]. rewrite !Z.div_div by lia. by rewrite Z.pow_0_r, Z.div_1_r.
Qed.

Lemma inet_pton_ntop a : 0 <= a < 2 ^ 32 -> inet_pton (inet_ntop a) = Some a.
Proof.
  intros Ha. unfold inet_pton, inet_ntop.
  pose proof (octet_bound 3 a). pose proof (octet_bound 2 a).
  pose proof (octet_bound 1 a). pose proof (octet_bound 0 a).
  rewrite (inet_pton_decimal (octet 3 a)) by (simpl; lia).
  rewrite inet_pton_dot by (simpl; lia). rewrite (inet_pton_decimal (octet 2 a)) by (simpl; lia).
  rewrite inet_pton_dot by (simpl; lia). rewrite (inet_pton_decimal (octet 1 a)) by (simpl; lia).
  rewrite inet_pton_dot by (simpl; lia). rewrite <- (app_nil_r (decimal (octet 0 a))).
  rewrite (inet_pton_decimal (octet 0 a)) by (simpl; lia). simpl inet_pton_loop.
  cbn [rev app]. by rewrite octets_unbe.
Qed.

(** The text form of an address and the constructor of an endpoint are inverse to each
    other; in particular different addresses have different texts. *)
Theorem endpoint_roundtrip a port : 0 <= a < 2 ^ 32 ->
  endpoint_create (saddr_to_str a) port = Ok (mk_sockaddr a port).
Proof. intros Ha. unfold endpoint_create, saddr_to_str. by rewrite inet_pton_ntop. Qed.

Lemma endpoint_roundtrip_witness :
  endpoint_create (bytes_of_string "10.0.0.255") 6881 = Ok (mk_sockaddr 167772415 6881).
Proof. apply (endpoint_roundtrip 167772415 6881). lia. Defined.
