(* ===== verification/NetReactor.v ===== *)
(** * The reactor

    [src/net_reactor.cpp], [include/net_reactor.hpp] and
    [include/inet_reactor_client.hpp].  The reactor maps file descriptors to
    clients and forwards what [epoll_wait] reports to their [read] and [write].  It
    is defined over any state [W] that holds a reactor, the operating system and
    the clients' descriptors and event masks (class [ReactorWorld]), because both
    the torrent agents and the UDP tracker client use it; the callbacks are the
    class [inet_reactor_client]. *)

From S2P Require Import Prelude ByteBuffer Sockets.

(** [include/net_reactor.hpp:24-27] net_reactor *)
Record net_reactor := mk_net_reactor { efd_ : Z; wait_ms_ : Z; clients_ : gmap Z nat }.

(** [src/net_reactor.cpp:14-19] net_reactor::net_reactor
    [efd] is what [epoll_create1] returned. *)
Definition net_reactor_create (efd wait_ms : Z) : net_reactor := mk_net_reactor efd wait_ms ∅.

Class ReactorWorld (W : Type) {O : OS} := {
  rw_reactor : W -> net_reactor;
  rw_set_reactor : net_reactor -> W -> W;
  rw_os : W -> os;
  rw_set_os : os -> W -> W;
  (** [client.fd()], [get_events()] and [set_events()] *)
  rw_fd : nat -> W -> Z;
  rw_get_events : nat -> W -> Z;
  rw_set_events : nat -> Z -> W -> W;
}.

(** [include/inet_reactor_client.hpp:9-21] inet_reactor_client *)
Class inet_reactor_client (W : Type) := {
  irc_read : nat -> W -> result W;
  irc_write : nat -> W -> result W;
}.

(** The parts of the state are independent, and a part that is set is what is read. *)
Class ReactorWorldLaws (W : Type) {O : OS} (RW : ReactorWorld W) : Prop := {
  reactor_set_reactor r w : rw_reactor (rw_set_reactor r w) = r;
  reactor_set_os s w : rw_reactor (rw_set_os s w) = rw_reactor w;
  reactor_set_events c e w : rw_reactor (rw_set_events c e w) = rw_reactor w;
  os_set_reactor r w : rw_os (rw_set_reactor r w) = rw_os w;
  os_set_os s w : rw_os (rw_set_os s w) = s;
  os_set_events c e w : rw_os (rw_set_events c e w) = rw_os w;
  fd_set_reactor c r w : rw_fd c (rw_set_reactor r w) = rw_fd c w;
  fd_set_os c s w : rw_fd c (rw_set_os s w) = rw_fd c w;
  fd_set_events c d e w : rw_fd c (rw_set_events d e w) = rw_fd c w;
  events_set_reactor c r w : rw_get_events c (rw_set_reactor r w) = rw_get_events c w;
  events_set_os c s w : rw_get_events c (rw_set_os s w) = rw_get_events c w;
}.

Create Rewrite HintDb reactor.
#[export] Hint Rewrite @reactor_set_reactor @reactor_set_os @reactor_set_events
  @os_set_reactor @os_set_os @os_set_events @fd_set_reactor @fd_set_os @fd_set_events
  @events_set_reactor @events_set_os using apply _ : reactor.

Section Reactor.
Context {O : OS} {W : Type} {RW : ReactorWorld W}.

Definition set_clients (m : gmap Z nat) (w : W) : W :=
  rw_set_reactor (mk_net_reactor (efd_ (rw_reactor w)) (wait_ms_ (rw_reactor w)) m) w.

(** [src/net_reactor.cpp:99-112] ctl_add *)
Definition ctl_add (fd events : Z) (w : W) : bool * W :=
  let '(res, s) := sys_epoll_add fd events (rw_os w) in (negb (res =? -1), rw_set_os s w).

(** [src/net_reactor.cpp:114-127] ctl_mod *)
Definition ctl_mod (fd events : Z) (w : W) : bool * W :=
  let '(res, s) := sys_epoll_mod fd events (rw_os w) in (negb (res =? -1), rw_set_os s w).

(** [src/net_reactor.cpp:54-77] net_reactor::reg *)
Definition net_reactor_reg (c : nat) (events : Z) (w : W) : bool * W :=
  let fd := rw_fd c w in
  match clients_ (rw_reactor w) !! fd with
  | None =>
      let '(added, w) := ctl_add fd events w in
      if negb added then (false, w)
      else
        let w := rw_set_events c events w in
        (true, set_clients (<[fd := c]> (clients_ (rw_reactor w))) w)
  | Some _ =>
      let flags := rw_get_events c w in
      let w := rw_set_events c (Z.lor flags events) w in
      ctl_mod fd (rw_get_events c w) w
  end.

(** [src/net_reactor.cpp:79-97] net_reactor::unreg *)
Definition net_reactor_unreg (c : nat) (events : Z) (w : W) : bool * W :=
  let fd := rw_fd c w in
  if events =? 0 then
    let w := rw_set_os (sys_epoll_del fd (rw_os w)) w in
    let m := clients_ (rw_reactor w) in
    (bool_decide (is_Some (m !! fd)), set_clients (delete fd m) w)
  else
    match clients_ (rw_reactor w) !! fd with
    | None => (false, w)
    | Some _ =>
        let flags := rw_get_events c w in
        let w := rw_set_events c (Z.ldiff flags events) w in
        ctl_mod fd (rw_get_events c w) w
    end.

Context {RC : inet_reactor_client W}.

Definition has_event (events e : Z) : bool := negb (Z.land events e =? 0).

(** [src/net_reactor.cpp:37-48] net_reactor::poll
    The iterator [it] stays the one [find] returned.  It dangles if [read] erased
    its element; no callback of the program erases an element and inserts it again. *)
Definition dispatch (fd events : Z) (w : W) : result W :=
  match clients_ (rw_reactor w) !! fd with
  | None => Ok w
  | Some it =>
      w ← (if has_event events EPOLLIN then irc_read it w else Ok w);
      if has_event events EPOLLOUT then
        match clients_ (rw_reactor w) !! fd with
        | None => Fault DanglingIterator
        | Some _ => irc_write it w
        end
      else Ok w
  end.

Definition MAX_EVENTS : Z := 50.

(** [src/net_reactor.cpp:35-49] net_reactor::poll *)
Fixpoint dispatch_all (events : list (Z * Z)) (w : W) : result W :=
  match events with
  | [] => Ok w
  | (fd, ev) :: events' => w ← dispatch fd ev w; dispatch_all events' w
  end.

(** [src/net_reactor.cpp:23-52] net_reactor::poll *)
Definition net_reactor_poll (w : W) : result (Z * W) :=
  let '(events, s) := sys_epoll_wait MAX_EVENTS (wait_ms_ (rw_reactor w)) (rw_os w) in
  let w := rw_set_os s w in
  match events with
  | None => Ok (-1, w)
  | Some evs => w ← dispatch_all evs w; Ok (Z.of_nat (length evs), w)
  end.

(** ** Registration *)
Context {RL : ReactorWorldLaws W RW}.

Lemma set_clients_clients m w : clients_ (rw_reactor (set_clients m w)) = m.
Proof. unfold set_clients. by autorewrite with reactor. Qed.

(** Registering adds the client under its descriptor, unless the kernel refuses; an
    already registered descriptor keeps its client. *)
Lemma net_reactor_reg_clients c events w ok w' :
  net_reactor_reg c events w = (ok, w') ->
  clients_ (rw_reactor w') =
    match clients_ (rw_reactor w) !! rw_fd c w with
    | None => if ok then <[rw_fd c w := c]> (clients_ (rw_reactor w)) else clients_ (rw_reactor w)
    | Some _ => clients_ (rw_reactor w)
    end.
Proof.
  unfold net_reactor_reg, ctl_add, ctl_mod.
  destruct (clients_ (rw_reactor w) !! rw_fd c w) eqn:E.
  - destruct (sys_epoll_mod _ _ _) as [r s]. intros H. injection H as <- <-.
    by autorewrite with reactor.
  - destruct (sys_epoll_add _ _ _) as [r s].
    destruct (negb (r =? -1)); simpl; intros H; injection H as <- <-;
      rewrite ?set_clients_clients; by autorewrite with reactor.
Qed.

(** [unreg] without events removes the descriptor; with events it keeps every client. *)
Lemma net_reactor_unreg_clients c events w ok w' :
  net_reactor_unreg c events w = (ok, w') ->
  clients_ (rw_reactor w') =
    if events =? 0 then delete (rw_fd c w) (clients_ (rw_reactor w)) else clients_ (rw_reactor w).
Proof.
  unfold net_reactor_unreg, ctl_mod.
  destruct (events =? 0).
  - intros H. injection H as <- <-. rewrite set_clients_clients. by autorewrite with reactor.
  - destruct (clients_ (rw_reactor w) !! rw_fd c w).
    + destruct (sys_epoll_mod _ _ _) as [r s]. intros H. injection H as <- <-.
      by autorewrite with reactor.
    + by intros [= <- <-].
Qed.

(** An event on a descriptor nobody is registered for is dropped. *)
Lemma dispatch_unregistered fd ev w :
  clients_ (rw_reactor w) !! fd = None -> dispatch fd ev w = Ok w.
Proof. unfold dispatch. by intros ->. Qed.

(** If [read] unregisters its client while the descriptor is also reported
    writable, the reactor goes on to use the erased element. *)
Lemma dispatch_dangling fd ev c w w1 :
  clients_ (rw_reactor w) !! fd = Some c ->
  has_event ev EPOLLIN = true -> has_event ev EPOLLOUT = true ->
  irc_read c w = Ok w1 -> clients_ (rw_reactor w1) !! fd = None ->
  dispatch fd ev w = Fault DanglingIterator.
Proof. unfold dispatch. intros -> -> -> ->. simpl. by intros ->. Qed.
End Reactor.
