(* ===== verification/Storage.v ===== *)
(** * Torrent metadata and the layout of its files

    What the client asks of [lt::torrent_info]: sizes, hashes, and [map_block],
    which cuts a range of the torrent's data at file boundaries.  [piece_size] and
    [map_block] are translated from the vendored [libtorrent] sources, because the
    place where the client writes a block depends on them. *)

From S2P Require Import Prelude.

(** [lt::hasher]: feeding it in parts and feeding it the concatenation give the same
    digest (Sha1Spec.v), so a hasher is the bytes fed so far and [final] applies [sha1]. *)
Class Sha1 := sha1 : bytes -> bytes.

(** [extern/libtorrent/include/libtorrent/file_storage.hpp:119-165] internal_file_entry
    [fe_path] is what [file_path] returns for the file. *)
Record file_entry := mk_file_entry {
  fe_path : bytes;
  fe_name : bytes;
  fe_offset : Z;
  fe_size : Z;
}.

(** [extern/libtorrent/include/libtorrent/file_storage.hpp:575-623] file_storage *)
Record torrent_info := mk_torrent_info {
  ti_piece_length : Z;
  ti_num_pieces : Z;
  ti_total_size : Z;
  ti_files : list file_entry;
  ti_hash_for_piece : Z -> bytes;
  ti_info_hash : bytes;
  ti_trackers : list bytes;
}.

(** [extern/libtorrent/src/file_storage.cpp:93-107] file_storage::piece_size *)
Definition piece_size (ti : torrent_info) (index : Z) : Z :=
  if index =? ti_num_pieces ti - 1 then
    let size_except_last := (ti_num_pieces ti - 1) * ti_piece_length ti in
    let size := ti_total_size ti - size_except_last in
    i32 size
  else ti_piece_length ti.

(** [lt::file_slice] *)
Record file_slice := mk_file_slice { fs_file_index : nat; fs_offset : Z; fs_size : Z }.

(** [std::upper_bound] on the file offsets: the number of files, from the first,
    whose offset is not above the target. *)
Fixpoint upper_bound (target : Z) (files : list file_entry) : nat :=
  match files with
  | [] => 0
  | f :: files' => if fe_offset f <=? target then S (upper_bound target files') else 0
  end.

(** [extern/libtorrent/src/file_storage.cpp:472-489] file_storage::map_block
    [files] are the files from number [i] on. *)
Fixpoint map_block_loop (files : list file_entry) (i : nat) (file_offset size : Z) : result (list file_slice) :=
  if 0 <? size then
    match files with
    | [] => Fault DanglingIterator
    | f :: files' =>
        if file_offset <? fe_size f then
          let s := mk_file_slice i file_offset (Z.min (fe_size f - file_offset) size) in
          rest ← map_block_loop files' (S i) (file_offset + fs_size s - fe_size f) (size - fs_size s);
          Ok (s :: rest)
        else map_block_loop files' (S i) (file_offset - fe_size f) size
    end
  else Ok [].

(** [extern/libtorrent/src/file_storage.cpp:446-491] file_storage::map_block
    The offset looked for is kept in the 48 bits of a file entry. *)
Definition map_block (ti : torrent_info) (piece offset size : Z) : result (list file_slice) :=
  match ti_files ti with
  | [] => Ok []
  | _ =>
      let target := (piece * ti_piece_length ti + offset) mod 2 ^ 48 in
      let size := if ti_total_size ti <? target + size then i32 (ti_total_size ti - target) else size in
      match upper_bound target (ti_files ti) with
      | O => Fault DanglingIterator
      | S i =>
          match ti_files ti !! i with
          | None => Fault DanglingIterator
          | Some f => map_block_loop (drop i (ti_files ti)) i (target - fe_offset f) size
          end
      end
  end.

(** ** Well-formed metadata *)

(** The files lie one after the other from offset [o] and end at [total]. *)
Fixpoint files_ok (o : Z) (files : list file_entry) (total : Z) : Prop :=
  match files with
  | [] => o = total
  | f :: files' => fe_offset f = o /\ 0 <= fe_size f /\ files_ok (o + fe_size f) files' total
  end.

(** What [torrent_info] guarantees once it has loaded a torrent. *)
Record torrent_ok (ti : torrent_info) : Prop := {
  tok_piece_length : 0 < ti_piece_length ti < 2 ^ 31;
  tok_total : 0 < ti_total_size ti;
  tok_num_pieces : ti_num_pieces ti = (ti_total_size ti + ti_piece_length ti - 1) / ti_piece_length ti;
  tok_num_range : ti_num_pieces ti < 2 ^ 31;
  tok_files : files_ok 0 (ti_files ti) (ti_total_size ti);
}.

Definition piece_index_ok (ti : torrent_info) (index : Z) : Prop := 0 <= index < ti_num_pieces ti.

(** Every piece has between 1 and [piece_length] bytes, and the pieces fill the torrent. *)
Lemma piece_size_bounds ti index : torrent_ok ti -> piece_index_ok ti index ->
  0 < piece_size ti index <= ti_piece_length ti /\
  index * ti_piece_length ti + piece_size ti index =
    Z.min ((index + 1) * ti_piece_length ti) (ti_total_size ti).
Proof.
  intros [Hpl Ht Hn Hr _] Hi. unfold piece_index_ok in Hi. unfold piece_size.
  set (pl := ti_piece_length ti) in *. set (tot := ti_total_size ti) in *.
  set (n := ti_num_pieces ti) in *.
  pose proof (Z.div_mod (tot + pl - 1) pl ltac:(lia)) as Hdm.
  pose proof (Z.mod_pos_bound (tot + pl - 1) pl ltac:(lia)) as Hmb. rewrite <- Hn in Hdm.
  destruct (Z.eqb_spec index (n - 1)) as [->|Hne].
  - rewrite i32_small by nia. nia.
  - assert ((index + 1) * pl <= (n - 1) * pl) by nia. nia.
Qed.

(** ** [map_block] tiles the range it is given *)

(** The slices cover the bytes [a, b) of the torrent in order: each lies inside its
    file and begins where the one before ended. *)
Fixpoint tiles (files : list file_entry) (a : Z) (slices : list file_slice) (b : Z) : Prop :=
  match slices with
  | [] => a = b
  | s :: slices' =>
      (exists f, files !! fs_file_index s = Some f /\ 0 <= fs_offset s /\ 0 < fs_size s /\
         fs_offset s + fs_size s <= fe_size f /\ fe_offset f + fs_offset s = a) /\
      tiles files (a + fs_size s) slices' b
  end.

Lemma files_ok_app o files1 files2 total :
  files_ok o (files1 ++ files2) total <-> exists m, files_ok o files1 m /\ files_ok m files2 total.
Proof.
  revert o; induction files1 as [|f files1 IH]; intros o; simpl.
  - split; [by eauto|]. by intros (m & -> & ?).
  - rewrite IH. naive_solver.
Qed.

Lemma files_ok_le o files total : files_ok o files total -> o <= total.
Proof.
  revert o; induction files as [|f files IH]; intros o; simpl; [lia|].
  intros (_ & ? & H). apply IH in H. lia.
Qed.

Lemma map_block_loop_tiles all files : forall i o total file_offset size,
  drop i all = files -> files_ok o files total ->
  0 <= file_offset -> 0 <= size -> o + file_offset + size <= total ->
  exists slices, map_block_loop files i file_offset size = Ok slices /\
    tiles all (o + file_offset) slices (o + file_offset + size).
Proof.
  induction files as [|f files IH]; intros i o total fo size Hd Hok Hfo Hs Hle; simpl in *.
  - subst total. rewrite (proj2 (Z.ltb_ge 0 size)) by lia. exists []. split; [done|]. simpl. lia.
  - destruct Hok as (Ho & Hfs & Hok).
    assert (all !! i = Some f) as Hi.
    { rewrite <- (Nat.add_0_r i), <- lookup_drop, Hd. done. }
    assert (drop (S i) all = files) as Hd'.
    { rewrite <- (Nat.add_1_r i), <- drop_drop, Hd. done. }
    destruct (Z.ltb_spec 0 size) as [Hpos|Hz]; [|exists []; split; [done|simpl; lia]].
    destruct (Z.ltb_spec fo (fe_size f)) as [Hin|Hout].
    + set (n := Z.min (fe_size f - fo) size).
      destruct (decide (fe_size f - fo <= size)) as [Hmore|Hlast].
      * assert (n = fe_size f - fo) as Hn by lia.
        destruct (IH (S i) (o + fe_size f) total (fo + n - fe_size f) (size - n)) as (sl & Hsl & Ht);
          [done|done|lia|lia|lia|].
        fold n. rewrite Hsl. simpl. eexists. split; [done|]. simpl. split.
        { exists f. split_and!; [done|lia|lia|lia|lia]. }
        replace (o + fo + n) with (o + fe_size f + (fo + n - fe_size f)) by lia.
        replace (o + fo + size) with (o + fe_size f + (fo + n - fe_size f) + (size - n)) by lia. done.
      * assert (n = size) as Hn by lia. fold n. rewrite Hn, Z.sub_diag.
        assert (forall fs j y, map_block_loop fs j y 0 = Ok []) as Hz by (by intros [|? ?]).
        rewrite Hz. simpl. eexists. split; [done|]. simpl. split; [|lia].
        exists f. split_and!; [done|lia|lia|lia|lia].
    + destruct (IH (S i) (o + fe_size f) total (fo - fe_size f) size) as (sl & Hsl & Ht);
        [done|done|lia|lia|lia|].
      exists sl. split; [done|].
      replace (o + fo) with (o + fe_size f + (fo - fe_size f)) by lia. done.
Qed.

(** The file that [map_block] starts from begins at or before the target. *)
Lemma upper_bound_spec files : forall o total target,
  files_ok o files total -> o <= target -> files <> [] ->
  exists i f, upper_bound target files = S i /\ files !! i = Some f /\ fe_offset f <= target.
Proof.
  induction files as [|f files IH]; intros o total target Hok Ho Hne; [done|].
  cbn [upper_bound files_ok] in *. destruct Hok as (Hf & Hfs & Hok).
  rewrite (proj2 (Z.leb_le (fe_offset f) target)) by lia.
  destruct (upper_bound target files) as [|k] eqn:E; [exists 0%nat, f; split_and!; [done|done|lia]|].
  destruct files as [|g files]; [done|].
  assert (fe_offset g <= target) as Hg.
  { simpl in E. destruct (Z.leb_spec (fe_offset g) target); [done|discriminate]. }
  destruct (IH _ _ target Hok) as (i & h & Hi & Hh & Hle); [|done|].
  { destruct Hok as [Hgo _]. lia. }
  exists (S i), h. rewrite E in Hi. injection Hi as ->. done.
Qed.

Lemma files_ok_drop files : forall o total i f, files_ok o files total ->
  files !! i = Some f -> files_ok (fe_offset f) (drop i files) total.
Proof.
  induction files as [|g files IH]; intros o total i f Hok Hi; [done|].
  destruct i as [|i]; simpl in *.
  - injection Hi as ->. destruct Hok as (Ho & Hrest). by rewrite Ho.
  - destruct Hok as (_ & _ & Hok). by eapply IH.
Qed.

(** The cut range, for the components that write blocks. *)
Lemma map_block_slices ti piece offset size :
  torrent_ok ti -> ti_total_size ti < 2 ^ 48 -> 0 <= piece * ti_piece_length ti + offset <= ti_total_size ti ->
  0 <= size < 2 ^ 31 ->
  let a := piece * ti_piece_length ti + offset in
  exists slices, map_block ti piece offset size = Ok slices /\
    tiles (ti_files ti) a slices (Z.min (a + size) (ti_total_size ti)).
Proof.
  intros Hti Hfit Ha Hsize a. fold a in Ha. pose proof (tok_files ti Hti) as Hf.
  pose proof (tok_total ti Hti) as Htot.
  unfold map_block. fold a. rewrite (Z.mod_small a) by lia. destruct (ti_files ti) as [|f0 fs] eqn:E.
  { simpl in Hf. lia. }
  rewrite <- E in Hf |- *. clear E.
  assert (ti_files ti <> []) as Hne by (intros H; rewrite H in Hf; simpl in Hf; lia).
  destruct (upper_bound_spec _ 0 _ a Hf ltac:(lia) Hne) as (i & f & -> & Hi & Hle).
  rewrite Hi. pose proof (files_ok_drop _ _ _ _ _ Hf Hi) as Hdrop.
  set (n := if ti_total_size ti <? a + size then _ else size).
  assert (0 <= n /\ a + n <= ti_total_size ti /\ a + n = Z.min (a + size) (ti_total_size ti)) as (Hn & Hn' & <-).
  { subst n. destruct (Z.ltb_spec (ti_total_size ti) (a + size)); [|lia].
    rewrite i32_small by lia. lia. }
  destruct (map_block_loop_tiles (ti_files ti) _ i (fe_offset f) (ti_total_size ti) (a - fe_offset f) n eq_refl Hdrop) as (sl & Hsl & Ht);
    [lia|lia|lia|].
  exists sl. split; [done|].
  by replace (fe_offset f + (a - fe_offset f)) with a in Ht by lia.
Qed.


(** Two files of three and five bytes in pieces of four. *)
Definition two_files : torrent_info :=
  mk_torrent_info 4 2 8 [mk_file_entry [97] [97] 0 3; mk_file_entry [98] [98] 3 5] (fun _ => []) [] [].

Lemma two_files_ok : torrent_ok two_files.
Proof. split; simpl; lia || done. Qed.


(** In a larger torrent a block can be looked for at a place that has wrapped around: the block at
    2^48 of this one, in the middle of its second file, is given the first bytes of the first. *)
Lemma target_wraps :
  let ti := mk_torrent_info (2 ^ 24) (2 ^ 24 + 2 ^ 23 - 1) (2 ^ 48 + 2 ^ 47 - 2 ^ 24)
    [mk_file_entry [97] [97] 0 (2 ^ 47); mk_file_entry [98] [98] (2 ^ 47) (2 ^ 48 - 2 ^ 24)] (fun _ => []) [] [] in
  torrent_ok ti /\ map_block ti (2 ^ 24) 0 16384 = Ok [mk_file_slice 0 0 16384].
Proof. split; [split; simpl; lia || done|done]. Qed.

(** The pieces of a torrent are not empty, none is longer than the piece length, and
    laid end to end they end where the torrent ends. *)
Theorem pieces_fill_torrent ti index : torrent_ok ti -> piece_index_ok ti index ->
  0 < piece_size ti index <= ti_piece_length ti /\
  index * ti_piece_length ti + piece_size ti index =
    (if index =? ti_num_pieces ti - 1 then ti_total_size ti else (index + 1) * ti_piece_length ti).
Proof.
  intros Hti Hi. destruct (piece_size_bounds ti index Hti Hi) as [Hs He]. split; [done|].
  unfold piece_size in *. destruct (Z.eqb_spec index (ti_num_pieces ti - 1)) as [->|]; [|lia].
  destruct Hti as [Hpl Ht Hn Hr _]. set (pl := ti_piece_length ti) in *.
  pose proof (Z.div_mod (ti_total_size ti + pl - 1) pl ltac:(lia)) as Hdm.
  pose proof (Z.mod_pos_bound (ti_total_size ti + pl - 1) pl ltac:(lia)) as Hmb. rewrite <- Hn in Hdm. nia.
Qed.

Lemma pieces_fill_torrent_witness :
  0 < piece_size two_files 1 <= 4 /\ 1 * 4 + piece_size two_files 1 = 8.
Proof. apply (pieces_fill_torrent two_files 1); [exact two_files_ok|unfold piece_index_ok; simpl; lia]. Defined.
