(* ===== verification/FileRanges.v ===== *)
(** * Ranges of files and pieces

    [extern/libtorrent/src/file_storage.cpp]: which file holds a byte of the torrent, where a range of a file lies in the
    pieces, and which pieces a file touches or fills.  The inverse, from pieces to files, is
    [map_block] of Storage.v. *)

From S2P Require Import Prelude Storage.

(** [lt::peer_request] *)
Record peer_request := mk_peer_request { pr_piece : Z; pr_start : Z; pr_length : Z }.

Section Ranges.
Variable ti : torrent_info.

(** [extern/libtorrent/src/file_storage.cpp:417-432] file_storage::file_index_at_offset
    The offset looked for is kept in the 48 bits of a file entry; the element before the bound
    is that of the iterator the code decrements. *)
Definition file_index_at_offset (offset : Z) : result nat :=
  match upper_bound (offset mod 2 ^ 48) (ti_files ti) with O => Fault DanglingIterator | S i => Ok i end.

(** [extern/libtorrent/src/file_storage.cpp:542-574] file_storage::map_file
    C++ divides towards zero. *)
Definition map_file (file_index : nat) (file_offset size : Z) : peer_request :=
  match ti_files ti !! file_index with
  | None => mk_peer_request (ti_num_pieces ti) 0 0
  | Some f =>
      let offset := file_offset + fe_offset f in
      if ti_total_size ti <=? offset then mk_peer_request (ti_num_pieces ti) 0 0
      else
        mk_peer_request (i32 (Z.quot offset (ti_piece_length ti))) (i32 (Z.rem offset (ti_piece_length ti)))
          (if ti_total_size ti <? offset + size then i32 (ti_total_size ti - offset) else size)
  end.

Definition file_size (file : nat) : Z := match ti_files ti !! file with Some f => fe_size f | None => 0 end.

(** [extern/libtorrent/src/file_storage.cpp:1322-1337] aux::file_piece_range_exclusive *)
Definition file_piece_range_exclusive (file : nat) : Z * Z :=
  let range := map_file file 0 1 in
  let begin_piece := if pr_start range =? 0 then pr_piece range else pr_piece range + 1 in
  let end_piece :=
    if bool_decide (S file = length (ti_files ti)) then ti_num_pieces ti
    else i32 (Z.quot (pr_piece range * ti_piece_length ti + pr_start range + file_size file + 1) (ti_piece_length ti)) in
  (begin_piece, end_piece).

(** [extern/libtorrent/src/file_storage.cpp:1339-1348] aux::file_piece_range_inclusive *)
Definition file_piece_range_inclusive (file : nat) : Z * Z :=
  let range := map_file file 0 1 in
  let end_piece :=
    i32 (Z.quot (pr_piece range * ti_piece_length ti + pr_start range + file_size file - 1) (ti_piece_length ti) + 1) in
  (pr_piece range, end_piece).

(** ** The file of a byte *)

Lemma files_ok_lookup files : forall o total i f, files_ok o files total -> files !! i = Some f ->
  o <= fe_offset f /\ 0 <= fe_size f /\ fe_offset f + fe_size f <= total.
Proof.
  induction files as [|g files IH]; intros o total i f Hok Hi; [done|]. destruct Hok as (Ho & Hs & Hok). revert Hi.
  pose proof (files_ok_le _ _ _ Hok) as Hle. destruct i as [|i]; cbn; [intros [= <-]; lia|].
  intros Hi. destruct (IH _ _ _ _ Hok Hi). lia.
Qed.

(** The last file that begins at or before the byte holds it. *)
Lemma upper_bound_holds files : forall o total x, files_ok o files total -> o <= x < total ->
  exists i f, upper_bound x files = S i /\ files !! i = Some f /\ fe_offset f <= x < fe_offset f + fe_size f.
Proof.
  induction files as [|f files IH]; intros o total x Hok Hx; [simpl in Hok; lia|].
  destruct Hok as (Ho & Hs & Hok). cbn [upper_bound]. rewrite (proj2 (Z.leb_le _ _)) by lia.
  destruct (decide (o + fe_size f <= x)) as [Hge|Hlt].
  - destruct (IH _ _ x Hok ltac:(lia)) as (i & g & -> & Hg & Hin). by exists (S i), g.
  - exists 0%nat, f. split; [|split; [done|lia]].
    destruct files as [|g files]; [done|]. destruct Hok as [Hg _]. cbn [upper_bound]. by rewrite (proj2 (Z.leb_gt _ _)) by lia.
Qed.

(** No two files hold the same byte. *)
Lemma files_ok_disjoint files : forall o total i j f g x, files_ok o files total ->
  files !! i = Some f -> files !! j = Some g -> fe_offset f <= x < fe_offset f + fe_size f ->
  fe_offset g <= x < fe_offset g + fe_size g -> i = j.
Proof.
  induction files as [|h files IH]; intros o total i j f g x Hok Hi Hj Hf Hg; [done|]. destruct Hok as (Ho & Hs & Hok).
  destruct i as [|i], j as [|j]; cbn in Hi, Hj; [done| | |f_equal; by eapply IH].
  - injection Hi as ->. destruct (files_ok_lookup _ _ _ _ _ Hok Hj). lia.
  - injection Hj as ->. destruct (files_ok_lookup _ _ _ _ _ Hok Hi). lia.
Qed.

Hypothesis torrent_is_ok : torrent_ok ti.

(** For every byte of the torrent [file_index_at_offset] finds the one file that holds it. *)
Theorem file_index_at_offset_spec x : ti_total_size ti < 2 ^ 48 -> 0 <= x < ti_total_size ti ->
  exists i f, file_index_at_offset x = Ok i /\ ti_files ti !! i = Some f /\
    fe_offset f <= x < fe_offset f + fe_size f /\
    forall j g, ti_files ti !! j = Some g -> fe_offset g <= x < fe_offset g + fe_size g -> j = i.
Proof.
  intros Hfit Hx. destruct (upper_bound_holds _ 0 _ x (tok_files ti torrent_is_ok) Hx) as (i & f & Hu & Hi & Hin).
  exists i, f. unfold file_index_at_offset. rewrite Z.mod_small, Hu by lia. split; [done|]. split; [done|]. split; [done|].
  intros j g Hj Hg. by eapply (files_ok_disjoint _ _ _ _ _ _ _ _ (tok_files ti torrent_is_ok)).
Qed.

(** ** From files to pieces and back *)

Section File.
Variables (i : nat) (f : file_entry).
Hypothesis file_i : ti_files ti !! i = Some f.

Lemma file_inside : 0 <= fe_offset f /\ 0 <= fe_size f /\ fe_offset f + fe_size f <= ti_total_size ti.
Proof. apply (files_ok_lookup _ _ _ _ _ (tok_files ti torrent_is_ok) file_i). Qed.

(** The place of a byte of the file: the quotient and the rest by the length of the pieces. *)
Lemma map_file_place o size : 0 <= o -> fe_offset f + o < ti_total_size ti -> 
  let r := map_file i o size in
  pr_piece r = (fe_offset f + o) / ti_piece_length ti /\ pr_start r = (fe_offset f + o) mod ti_piece_length ti /\
  0 <= pr_piece r < ti_num_pieces ti /\ pr_piece r * ti_piece_length ti + pr_start r = fe_offset f + o.
Proof.
  intros Ho Hlt. destruct file_inside as (Hof & Hsz & Hend). cbv zeta. unfold map_file. rewrite file_i.
  rewrite (proj2 (Z.leb_gt _ _)) by lia. cbn [pr_piece pr_start].
  destruct torrent_is_ok as [Hpl Ht Hn Hr _]. set (pl := ti_piece_length ti) in *.
  rewrite (Z.add_comm o). set (a := fe_offset f + o) in *. rewrite Z.quot_div_nonneg, Z.rem_mod_nonneg by lia.
  pose proof (Z.div_mod a pl ltac:(lia)). pose proof (Z.mod_pos_bound a pl ltac:(lia)).
  pose proof (Z.div_mod (ti_total_size ti + pl - 1) pl ltac:(lia)).
  pose proof (Z.mod_pos_bound (ti_total_size ti + pl - 1) pl ltac:(lia)). rewrite <- Hn in *.
  assert (0 <= a / pl < ti_num_pieces ti) by nia.
  rewrite !i32_small by lia. split_and!; try done; nia.
Qed.

Lemma map_block_loop_stop files k fo : map_block_loop files k fo 0 = Ok [].
Proof. by destruct files. Qed.

(** A range inside the file goes to the pieces and comes back as the one slice it is. *)
Theorem map_file_inverse o size : ti_total_size ti < 2 ^ 48 -> 0 <= o -> 0 < size < 2 ^ 31 -> o + size <= fe_size f ->
  let r := map_file i o size in
  map_block ti (pr_piece r) (pr_start r) (pr_length r) = Ok [mk_file_slice i o size].
Proof.
  intros Hfit Ho Hs Hle r. destruct file_inside as (Hof & Hsz & Hend).
  destruct (map_file_place o size Ho ltac:(lia)) as (_ & _ & _ & Hplace). fold r in Hplace.
  assert (pr_length r = size) as ->.
  { unfold r, map_file. rewrite file_i, (proj2 (Z.leb_gt _ _)) by lia. cbn [pr_length]. by rewrite (proj2 (Z.ltb_ge _ _)) by lia. }
  pose proof (tok_files ti torrent_is_ok) as Hok.
  destruct (upper_bound_holds _ 0 _ (fe_offset f + o) Hok ltac:(lia)) as (j & g & Hu & Hj & Hg).
  assert (j = i) as -> by (apply (files_ok_disjoint _ _ _ _ _ _ _ (fe_offset f + o) Hok Hj file_i); lia).
  rewrite file_i in Hj. injection Hj as <-. unfold map_block. rewrite Hplace, Z.mod_small, Hu by lia.
  rewrite (proj2 (Z.ltb_ge _ _)) by lia. rewrite file_i.
  destruct (ti_files ti) as [|f0 l0] eqn:E; [done|]. rewrite <- E. rewrite <- E in file_i. clear E.
  rewrite (drop_S _ _ _ file_i). cbn [map_block_loop]. rewrite (proj2 (Z.ltb_lt 0 size)) by lia.
  replace (fe_offset f + o - fe_offset f) with o by lia. rewrite (proj2 (Z.ltb_lt o _)) by lia.
  rewrite Z.min_r by lia. cbn [fs_size]. rewrite Z.sub_diag, map_block_loop_stop. done.
Qed.

(** ** The pieces of a file *)

(** The bytes of piece [p] *)
Definition in_piece (p x : Z) : Prop := p * ti_piece_length ti <= x < p * ti_piece_length ti + piece_size ti p.

Definition in_file (x : Z) : Prop := fe_offset f <= x < fe_offset f + fe_size f.

Lemma piece_end p : piece_index_ok ti p ->
  p * ti_piece_length ti + piece_size ti p = Z.min ((p + 1) * ti_piece_length ti) (ti_total_size ti) /\ 0 < piece_size ti p.
Proof. intros Hp. destruct (piece_size_bounds ti p torrent_is_ok Hp) as [? ->]. split; [done|lia]. Qed.

Lemma last_piece_end : ti_total_size ti <= ti_num_pieces ti * ti_piece_length ti < ti_total_size ti + ti_piece_length ti.
Proof.
  destruct torrent_is_ok as [Hpl Ht Hn Hr _]. set (pl := ti_piece_length ti) in *.
  pose proof (Z.div_mod (ti_total_size ti + pl - 1) pl ltac:(lia)).
  pose proof (Z.mod_pos_bound (ti_total_size ti + pl - 1) pl ltac:(lia)). rewrite <- Hn in *. nia.
Qed.

(** The inclusive range has just the pieces that share a byte with the file. *)
Theorem inclusive_range_spec p : 0 < fe_size f ->
  let '(b, e) := file_piece_range_inclusive i in
  b <= p < e <-> piece_index_ok ti p /\ exists x, in_piece p x /\ in_file x.
Proof.
  intros Hsz. destruct file_inside as (Hof & _ & Hend). unfold file_piece_range_inclusive.
  destruct (map_file_place 0 1 ltac:(lia) ltac:(lia)) as (Hp & Hst & Hrange & Hplace). cbv zeta.
  rewrite Hplace. unfold file_size. rewrite file_i, Z.add_0_r, Z.quot_div_nonneg by (destruct torrent_is_ok; lia).
  rewrite Hp. rewrite Hp, Hst, Z.add_0_r in *. pose proof last_piece_end as Hlast. destruct torrent_is_ok as [Hpl Ht Hn Hr _].
  set (pl := ti_piece_length ti) in *. set (a := fe_offset f) in *. set (z := a + fe_size f - 1) in *.
  pose proof (Z.div_mod a pl ltac:(lia)). pose proof (Z.mod_pos_bound a pl ltac:(lia)).
  pose proof (Z.div_mod z pl ltac:(lia)). pose proof (Z.mod_pos_bound z pl ltac:(lia)).
  assert (0 <= z / pl < ti_num_pieces ti) by nia. rewrite i32_small by lia. split.
  - intros Hpb. assert (piece_index_ok ti p) as Hok by (unfold piece_index_ok; lia). split; [done|].
    exists (Z.max a (p * pl)). unfold in_piece, in_file. fold pl a. destruct (piece_end p Hok) as [E _].
    fold pl in E. rewrite E. nia.
  - intros (Hok & x & Hx & Hxf). unfold in_piece, in_file in *. fold pl a in Hx, Hxf. destruct (piece_end p Hok) as [E _].
    fold pl in E. rewrite E in Hx. nia.
Qed.

(** The exclusive range has just the pieces that lie inside the file, unless the file
    ends one byte before a piece does. *)
Theorem exclusive_range_spec p : 0 < fe_size f ->
  S i = length (ti_files ti) \/ (fe_offset f + fe_size f < ti_total_size ti /\
    (fe_offset f + fe_size f + 1) mod ti_piece_length ti <> 0) ->
  let '(b, e) := file_piece_range_exclusive i in
  b <= p < e <-> piece_index_ok ti p /\ forall x, in_piece p x -> in_file x.
Proof.
  intros Hsz Hcase. destruct file_inside as (Hof & _ & Hend). unfold file_piece_range_exclusive.
  destruct (map_file_place 0 1 ltac:(lia) ltac:(lia)) as (Hp & Hst & Hrange & Hplace). cbv zeta.
  rewrite Hplace. unfold file_size. rewrite file_i, Z.add_0_r, Z.quot_div_nonneg by (destruct torrent_is_ok; lia).
  rewrite Hp, Hst, Z.add_0_r in *. pose proof last_piece_end as Hlast. destruct torrent_is_ok as [Hpl Ht Hn Hr Hfiles].
  set (pl := ti_piece_length ti) in *. set (a := fe_offset f) in *. set (z := a + fe_size f) in *.
  pose proof (Z.div_mod a pl ltac:(lia)) as Ha. pose proof (Z.mod_pos_bound a pl ltac:(lia)) as Hab.
  set (b := if a mod pl =? 0 then a / pl else a / pl + 1).
  assert (b <= p <-> a <= p * pl) as -> by (unfold b; destruct (Z.eqb_spec (a mod pl) 0); nia).
  assert (piece_index_ok ti p -> (forall x, in_piece p x -> in_file x) <-> a <= p * pl /\ Z.min ((p + 1) * pl) (ti_total_size ti) <= z) as Hin.
  { intros Hok. destruct (piece_end p Hok) as [E Hpos]. unfold in_piece, in_file. fold pl a in E |- *. fold z. rewrite E. split.
    - intros H. pose proof (H (p * pl) ltac:(lia)). specialize (H (Z.min ((p + 1) * pl) (ti_total_size ti) - 1) ltac:(lia)). lia.
    - intros H x Hx. lia. }
  pose proof (Z.div_mod (z + 1) pl ltac:(lia)) as Hz. pose proof (Z.mod_pos_bound (z + 1) pl ltac:(lia)) as Hzb.
  assert (forall e, (piece_index_ok ti p -> a <= p * pl -> p < e <-> Z.min ((p + 1) * pl) (ti_total_size ti) <= z) -> e <= ti_num_pieces ti ->
    a <= p * pl /\ p < e <-> piece_index_ok ti p /\ forall x, in_piece p x -> in_file x) as Hgo.
  { intros e He Hle. split.
    - intros [H1 H2]. assert (piece_index_ok ti p) as Hok by (unfold piece_index_ok; nia). split; [done|]. apply Hin; [done|].
      split; [done|]. by apply He.
    - intros [Hok H]. apply Hin in H as [H1 H2]; [|done]. split; [done|]. by apply He. }
  destruct (decide (S i = length (ti_files ti))) as [Hl|Hl].
  - rewrite bool_decide_true by done. apply Hgo; [|done]. intros Hok _.
    assert (z = ti_total_size ti) as ->; [|unfold piece_index_ok in Hok; split; [lia|lia]].
    destruct (lookup_lt_is_Some_2 (ti_files ti) i) as [f' Hf']; [lia|].
    pose proof (files_ok_drop _ _ _ _ _ Hfiles file_i) as Hdrop. rewrite (drop_S _ _ _ file_i), drop_ge in Hdrop by lia.
    destruct Hdrop as (_ & _ & Hdrop). done.
  - destruct Hcase as [|[Hlt Hmod]]; [done|]. rewrite bool_decide_false by done.
    assert (0 <= (z + 1) / pl <= ti_num_pieces ti) by nia. rewrite i32_small by lia. apply Hgo; [|lia]. intros _ _. nia.
Qed.
End File.
End Ranges.

(** ** Samples *)

(** A file of three bytes before one of five, in pieces of four: piece 0 has a byte of each,
    and still counts as inside the first. *)
Lemma exclusive_range_too_long :
  file_piece_range_exclusive two_files 0 = (0, 1) /\ in_piece two_files 0 3 /\ ~ in_file (mk_file_entry [97] [97] 0 3) 3.
Proof. split; [by vm_compute|]. unfold in_piece, in_file. simpl. split; [by vm_compute|lia]. Qed.

Lemma file_index_at_offset_spec_witness : exists i f,
  file_index_at_offset two_files 3 = Ok i /\ ti_files two_files !! i = Some f /\ fe_offset f <= 3 < fe_offset f + fe_size f /\
  forall j g, ti_files two_files !! j = Some g -> fe_offset g <= 3 < fe_offset g + fe_size g -> j = i.
Proof. apply (file_index_at_offset_spec two_files two_files_ok 3 eq_refl). simpl. lia. Defined.

Lemma map_file_inverse_witness :
  map_block two_files 1 0 2 = Ok [mk_file_slice 1 1 2].
Proof. apply (map_file_inverse two_files two_files_ok 1 (mk_file_entry [98] [98] 3 5) eq_refl 1 2); simpl; lia. Defined.

Lemma inclusive_range_spec_witness :
  0 <= 0 < 2 <-> piece_index_ok two_files 0 /\ exists x, in_piece two_files 0 x /\ in_file (mk_file_entry [98] [98] 3 5) x.
Proof. apply (inclusive_range_spec two_files two_files_ok 1 (mk_file_entry [98] [98] 3 5) eq_refl 0). simpl. lia. Defined.

Lemma exclusive_range_spec_witness :
  1 <= 1 < 2 <-> piece_index_ok two_files 1 /\ forall x, in_piece two_files 1 x -> in_file (mk_file_entry [98] [98] 3 5) x.
Proof. apply (exclusive_range_spec two_files two_files_ok 1 (mk_file_entry [98] [98] 3 5) eq_refl 1); [simpl; lia|by left]. Defined.
