(* ===== verification/FileProgress.v ===== *)
(** * How much of each file has arrived

    [aux::file_progress] ([extern/libtorrent/src/file_progress.cpp]) counts, for each file, the
    bytes of the pieces that have arrived: once from the set of pieces, and then piece by
    piece, when it also reports the files that have become complete.  Which pieces have
    arrived is the piece picker's business, a function here; so is which files are padding. *)

From S2P Require Import Prelude Storage FileRanges.

Section Progress.
Variable ti : torrent_info.
Variable pad_file_at : nat -> bool.

(** [extern/libtorrent/src/file_progress.cpp:156] file_progress::update
    [m_file_progress[i] += add] *)
Definition add_progress (i : nat) (add : Z) (m_file_progress : list Z) : result (list Z) :=
  match m_file_progress !! i with
  | Some v => Ok (<[i := i64 (v + add)]> m_file_progress)
  | None => Fault BadPrecondition
  end.

(** [extern/libtorrent/src/file_progress.cpp:70-78] file_progress::init
    [files] are the files from number [i] on. *)
Fixpoint seek_file (files : list file_entry) (i : nat) (off : Z) : result nat :=
  match files with
  | [] => Fault BadPrecondition
  | f :: files' => if fe_size f <=? off - fe_offset f then seek_file files' (S i) off else Ok i
  end.

(** [extern/libtorrent/src/file_progress.cpp:91-108] file_progress::init *)
Fixpoint fill_files (files : list file_entry) (i : nat) (file_offset size : Z) (m_file_progress : list Z) : result (nat * list Z) :=
  if size =? 0 then Ok (i, m_file_progress)
  else match files with
       | [] => Fault BadPrecondition
       | f :: files' =>
           let add := Z.min size (fe_size f - file_offset) in
           m_file_progress ← add_progress i add m_file_progress;
           let size := size - add in
           if 0 <? size then fill_files files' (S i) 0 size m_file_progress
           else Ok (i, m_file_progress)
       end.

(** [extern/libtorrent/src/file_progress.cpp:67-109] file_progress::init
    The last [n] pieces, from [piece] on. *)
Fixpoint init_loop (n : nat) (piece off : Z) (i : nat) (have_piece : Z -> bool) (m_file_progress : list Z) : result (list Z) :=
  match n with
  | O => Ok m_file_progress
  | S n' =>
      i ← seek_file (drop i (ti_files ti)) i off;
      '(i, m_file_progress) ←
        (if have_piece piece then
           let size := Z.min (ti_piece_length ti) (ti_total_size ti - off) in
           let file_offset := off - from_option fe_offset 0 (ti_files ti !! i) in
           fill_files (drop i (ti_files ti)) i file_offset size m_file_progress
         else Ok (i, m_file_progress));
      init_loop n' (piece + 1) (off + ti_piece_length ti) i have_piece m_file_progress
  end.

(** [extern/libtorrent/src/file_progress.cpp:40-110] file_progress::init *)
Definition progress_init (have_piece : Z -> bool) (m_file_progress : list Z) : result (list Z) :=
  match m_file_progress with
  | _ :: _ => Ok m_file_progress
  | [] => init_loop (Z.to_nat (ti_num_pieces ti)) 0 0 0 have_piece (replicate (length (ti_files ti)) 0)
  end.

(** [extern/libtorrent/src/file_progress.cpp:112-117] file_progress::export_progress *)
Definition export_progress (m_file_progress : list Z) : list Z := m_file_progress.

(** [extern/libtorrent/src/file_progress.cpp:119-127] file_progress::clear *)
Definition progress_clear (m_file_progress : list Z) : list Z := [].

(** [extern/libtorrent/src/file_progress.cpp:149-169] file_progress::update
    The files for which [completed_cb] is called, in order; it may be empty. *)
Fixpoint update_loop (completed_cb : bool) (files : list file_entry) (i : nat) (off size : Z) (m_file_progress : list Z) : result (list Z * list nat) :=
  if 0 <? size then
    match files with
    | [] => Fault BadPrecondition
    | f :: files' =>
        let file_offset := off - fe_offset f in
        let add := Z.min (fe_size f - file_offset) size in
        m_file_progress ← add_progress i add m_file_progress;
        let calls := (fe_size f <=? from_option id 0 (m_file_progress !! i)) && completed_cb && negb (pad_file_at i) in
        '(m_file_progress, completed) ← update_loop completed_cb files' (S i) (off + add) (size - add) m_file_progress;
        Ok (m_file_progress, if calls then i :: completed else completed)
    end
  else Ok (m_file_progress, []).

(** [extern/libtorrent/src/file_progress.cpp:131-170] file_progress::update *)
Definition progress_update (index : Z) (completed_cb : bool) (m_file_progress : list Z) : result (list Z * list nat) :=
  match m_file_progress with
  | [] => Ok ([], [])
  | _ =>
      let off := index * ti_piece_length ti in
      file_index ← file_index_at_offset ti off;
      update_loop completed_cb (drop file_index (ti_files ti)) file_index off (piece_size ti index) m_file_progress
  end.

(** ** The bytes of a file among the pieces *)

(** How many bytes of the file lie in [a, b). *)
Definition overlap (f : file_entry) (a b : Z) : Z :=
  Z.max 0 (Z.min b (fe_offset f + fe_size f) - Z.max a (fe_offset f)).

(** Where a piece ends. *)
Definition piece_bound (p : Z) : Z := Z.min (p * ti_piece_length ti) (ti_total_size ti).

(** The bytes of the file in those of the first [n] pieces that have arrived. *)
Fixpoint file_bytes (have_piece : Z -> bool) (f : file_entry) (n : nat) : Z :=
  match n with
  | O => 0
  | S n' => file_bytes have_piece f n' +
      (if have_piece (Z.of_nat n') then overlap f (piece_bound (Z.of_nat n')) (piece_bound (Z.of_nat n' + 1)) else 0)
  end.

Definition progress_of (have_piece : Z -> bool) : list Z :=
  map (fun f => file_bytes have_piece f (Z.to_nat (ti_num_pieces ti))) (ti_files ti).

Lemma overlap_nonneg f a b : 0 <= overlap f a b.
Proof. unfold overlap. lia. Qed.

Lemma overlap_split f a b c : a <= b <= c -> 0 <= fe_size f -> overlap f a b + overlap f b c = overlap f a c.
Proof. unfold overlap. lia. Qed.

Lemma overlap_bound f a b : a <= b -> overlap f a b <= b - a.
Proof. unfold overlap. lia. Qed.

(** The bytes [a, b) are added to the counts. *)
Definition credit (a b : Z) (files : list file_entry) (counts : list Z) : list Z :=
  zip_with (fun f v => v + overlap f a b) files counts.

Lemma credit_none a b files counts : length files = length counts -> Forall (fun f => overlap f a b = 0) files -> credit a b files counts = counts.
Proof.
  intros Hl Hf. revert counts Hl. induction Hf as [|f files E _ IH]; intros [|v counts] Hl; try done.
  unfold credit. cbn. rewrite E, Z.add_0_r. f_equal. apply IH. by injection Hl.
Qed.

Lemma add_progress_middle pre v post add : 0 <= v + add < 2 ^ 63 ->
  add_progress (length pre) add (pre ++ v :: post) = Ok (pre ++ v + add :: post).
Proof.
  intros Hv. unfold add_progress. rewrite list_lookup_middle by done. rewrite insert_app_r_alt, Nat.sub_diag by done. cbn. by rewrite i64_small by lia.
Qed.

Definition counts_ok (counts : list Z) : Prop := Forall (fun v => 0 <= v < 2 ^ 62) counts.

Lemma files_ok_after files : forall o total a b, files_ok o files total -> b <= o -> Forall (fun f => overlap f a b = 0) files.
Proof.
  induction files as [|g files IH]; intros o total a b Hok Hb; [constructor|]. destruct Hok as (Ho & Hs & Hok).
  constructor; [unfold overlap; lia|]. apply (IH _ _ _ _ Hok). lia.
Qed.

Lemma credit_from files : forall o total a a' b counts, files_ok o files total -> a <= o -> a' <= o -> credit a b files counts = credit a' b files counts.
Proof.
  induction files as [|g files IH]; intros o total a a' b counts Hok Ha Ha'; [done|]. destruct Hok as (Ho & Hs & Hok).
  destruct counts as [|v counts]; [done|]. unfold credit. cbn. f_equal; [unfold overlap; f_equal; lia|]. apply (IH _ _ _ _ _ _ Hok); lia.
Qed.

Lemma credit_empty a files : forall counts, length files = length counts -> credit a a files counts = counts.
Proof. intros counts Hl. apply credit_none; [done|]. apply Forall_forall. intros f _. unfold overlap. lia. Qed.

Lemma length_credit a b files counts : length files = length counts -> length (credit a b files counts) = length counts.
Proof. intros Hl. unfold credit. rewrite length_zip_with. lia. Qed.

(** Filling from an offset in the first of the files on. *)
Lemma fill_files_spec files : forall o total pre counts fo size, files_ok o files total -> length files = length counts -> counts_ok counts ->
  0 <= fo -> 0 <= size < 2 ^ 31 -> o + fo + size <= total -> (0 < size -> exists f, head files = Some f /\ fo <= fe_size f) ->
  exists k, fill_files files (length pre) fo size (pre ++ counts) = Ok ((length pre + k)%nat, pre ++ credit (o + fo) (o + fo + size) files counts) /\
    (files <> [] -> exists f, files !! k = Some f /\ fe_offset f <= o + fo + size).
Proof.
  induction files as [|f files IH]; intros o total pre counts fo size Hok Hl Hc Hfo Hsize Hle Hhead; cbn [fill_files].
  - simpl in Hok. assert (size = 0) as -> by (destruct (decide (size = 0)); [done|]; destruct Hhead as (? & ? & _); [lia|done]). exists 0%nat.
    rewrite Z.add_0_r, credit_empty, Nat.add_0_r by done. done.
  - pose proof Hok as (Ho & Hs & Hok'). destruct counts as [|v counts]; [done|]. apply Forall_cons in Hc as [Hv Hc]. injection Hl as Hl.
    destruct (Z.eqb_spec size 0) as [->|Hne].
    { exists 0%nat. rewrite Z.add_0_r, credit_empty, Nat.add_0_r by (cbn; lia). split; [done|]. intros _. exists f. split; [done|lia]. }
    destruct Hhead as (f' & [= <-] & Hin); [lia|]. set (add := Z.min size (fe_size f - fo)).
    rewrite add_progress_middle by lia. cbn [mbind result_bind].
    assert (overlap f (o + fo) (o + fo + size) = add) as Hadd by (unfold overlap, add; lia).
    unfold credit. cbn [zip_with]. fold (credit (o + fo) (o + fo + size) files counts). rewrite Hadd.
    destruct (Z.ltb_spec 0 (size - add)).
    + destruct files as [|g files]; [simpl in Hok'; lia|].
      destruct (IH (o + fe_size f) total (pre ++ [v + add]) counts 0 (size - add)) as (k & Hfill & Hk); try done; try lia.
      { intros _. exists g. split; [done|]. by destruct Hok' as (_ & ? & _). }
      rewrite <- app_assoc, length_app, Nat.add_1_r in Hfill. cbn [app] in Hfill. rewrite Hfill. exists (S k).
      replace (o + fe_size f + 0 + (size - add)) with (o + fo + size) in * by lia. rewrite Z.add_0_r, <- app_assoc.
      rewrite (credit_from (g :: files) (o + fe_size f) total (o + fe_size f) (o + fo)) by (done || lia). split; [f_equal; f_equal; lia|].
      intros _. by apply Hk.
    + exists 0%nat. rewrite Nat.add_0_r. rewrite credit_none; [|done|apply (files_ok_after files (o + fe_size f) total); [done|lia]].
      split; [done|]. intros _. exists f. split; [done|lia].
Qed.

(** The file in which an offset lies, at or behind a file that starts before it. *)
Lemma seek_file_spec files : forall o total i off, files_ok o files total -> o <= off < total ->
  exists k f, seek_file files i off = Ok (i + k)%nat /\ files !! k = Some f /\ fe_offset f <= off < fe_offset f + fe_size f.
Proof.
  induction files as [|f files IH]; intros o total i off Hok Hoff; [simpl in Hok; lia|]. destruct Hok as (Ho & Hs & Hok). cbn [seek_file].
  destruct (Z.leb_spec (fe_size f) (off - fe_offset f)).
  - destruct (IH (o + fe_size f) total (S i) off Hok ltac:(lia)) as (k & g & -> & Hk & Hin). exists (S k), g. split; [f_equal; lia|done].
  - exists 0%nat, f. split; [f_equal; lia|]. split; [done|lia].
Qed.

Lemma head_drop {A} (l : list A) i x : l !! i = Some x -> head (drop i l) = Some x.
Proof. revert i; induction l as [|y l IH]; intros [|i] E; [done..|]. by apply IH. Qed.

(** The part of a list of files from one of them on. *)
Lemma files_ok_at files : forall o total i f, files_ok o files total -> files !! i = Some f -> files_ok (fe_offset f) (drop i files) total /\ o <= fe_offset f.
Proof.
  induction files as [|g files IH]; intros o total i f Hok Hi; [done|]. pose proof Hok as (Ho & Hs & Hok'). destruct i as [|i].
  - injection Hi as ->. rewrite Ho. split; [done|lia].
  - destruct (IH _ _ _ _ Hok' Hi) as [? ?]. split; [done|lia].
Qed.

Lemma files_before files : forall o total i f a b, files_ok o files total -> files !! i = Some f -> fe_offset f <= a ->
  Forall (fun g => overlap g a b = 0) (take i files).
Proof.
  induction files as [|g files IH]; intros o total i f a b Hok Hi Ha; [done|]. pose proof Hok as (Ho & Hs & Hok'). destruct i as [|i]; [constructor|].
  cbn [take]. destruct (files_ok_at _ _ _ _ _ Hok' Hi) as [_ Hle]. constructor; [unfold overlap; lia|by eapply IH].
Qed.

Lemma credit_app a b l1 l2 c1 c2 : length l1 = length c1 -> credit a b (l1 ++ l2) (c1 ++ c2) = credit a b l1 c1 ++ credit a b l2 c2.
Proof. intros Hl. by apply zip_with_app. Qed.

Hypothesis torrent_is_ok : torrent_ok ti.
Hypothesis offsets_fit : ti_total_size ti < 2 ^ 48.

Abbreviation pl := (ti_piece_length ti).
Abbreviation total := (ti_total_size ti).
Abbreviation pieces := (ti_num_pieces ti).

Lemma total_bounds : 0 < pl < 2 ^ 31 /\ 0 < total < 2 ^ 62 /\ (pieces - 1) * pl < total <= pieces * pl /\ 0 < pieces < 2 ^ 31.
Proof.
  destruct torrent_is_ok as [Hpl Ht Hn Hr _]. pose proof (Z.div_mod (total + pl - 1) pl ltac:(lia)) as Hdm.
  pose proof (Z.mod_pos_bound (total + pl - 1) pl ltac:(lia)). rewrite <- Hn in Hdm. split_and!; try lia; nia.
Qed.

Lemma piece_bounds p : 0 <= p < pieces -> piece_bound p = p * pl /\ p * pl < total /\
  piece_bound (p + 1) = p * pl + Z.min pl (total - p * pl) /\ piece_bound p <= piece_bound (p + 1).
Proof. intros Hp. destruct total_bounds as (? & ? & ? & ?). unfold piece_bound. assert (p * pl <= (pieces - 1) * pl) by nia. lia. Qed.

Lemma file_bytes_bound have_piece f n : 0 <= fe_offset f -> 0 <= fe_size f ->
  0 <= file_bytes have_piece f n <= overlap f 0 (piece_bound (Z.of_nat n)).
Proof.
  intros Ho Hs. destruct total_bounds as (Hpl & Ht & _ & _). induction n as [|n IH]; cbn [file_bytes]; [unfold overlap, piece_bound; lia|].
  assert (0 <= piece_bound (Z.of_nat n) <= piece_bound (Z.of_nat n + 1)) by (unfold piece_bound; nia).
  replace (Z.of_nat (S n)) with (Z.of_nat n + 1) by lia.
  rewrite <- (overlap_split f 0 (piece_bound (Z.of_nat n))) by lia. pose proof (overlap_nonneg f (piece_bound (Z.of_nat n)) (piece_bound (Z.of_nat n + 1))).
  destruct (have_piece (Z.of_nat n)); lia.
Qed.

Lemma files_of_torrent i f : ti_files ti !! i = Some f -> 0 <= fe_offset f /\ 0 <= fe_size f /\ fe_offset f + fe_size f <= total.
Proof. apply (files_ok_lookup _ 0). apply torrent_is_ok. Qed.

Lemma overlap_file f a b : overlap f a b <= Z.max 0 (fe_size f).
Proof. unfold overlap. lia. Qed.

Lemma bytes_at_most have_piece f n : 0 <= fe_offset f -> 0 <= fe_size f -> file_bytes have_piece f n <= fe_size f.
Proof. intros Ho Hs. pose proof (file_bytes_bound have_piece f n Ho Hs). pose proof (overlap_file f 0 (piece_bound (Z.of_nat n))). lia. Qed.

Lemma counts_of have_piece n : counts_ok (map (fun f => file_bytes have_piece f n) (ti_files ti)).
Proof.
  apply Forall_forall. intros v (f & -> & Hf)%list_elem_of_fmap. apply list_elem_of_lookup in Hf as [i Hi].
  destruct (files_of_torrent i f Hi) as (? & ? & ?). destruct total_bounds as (_ & ? & _).
  pose proof (file_bytes_bound have_piece f n ltac:(done) ltac:(done)). pose proof (bytes_at_most have_piece f n ltac:(done) ltac:(done)). lia.
Qed.

Lemma credit_map a b (g : file_entry -> Z) files : credit a b files (map g files) = map (fun f => g f + overlap f a b) files.
Proof. unfold credit. induction files as [|f files IH]; [done|]. cbn. by rewrite IH. Qed.

(** Adding a range that lies in the files from number [i] on is adding it to all files. *)
Lemma credit_split i f a b counts : ti_files ti !! i = Some f -> fe_offset f <= a -> length (ti_files ti) = length counts ->
  take i counts ++ credit a b (drop i (ti_files ti)) (drop i counts) = credit a b (ti_files ti) counts.
Proof.
  intros Hi Ha Hl. rewrite <- (take_drop i (ti_files ti)) at 2. rewrite <- (take_drop i counts) at 3.
  rewrite credit_app by (rewrite !length_take; lia). f_equal. symmetry. apply credit_none; [rewrite !length_take; lia|].
  by apply (files_before _ 0 total i f), Ha; [apply torrent_is_ok|].
Qed.

Lemma init_loop_spec have_piece n : forall p i f, Z.of_nat p + Z.of_nat n = pieces -> ti_files ti !! i = Some f ->
  fe_offset f <= Z.of_nat p * pl ->
  init_loop n (Z.of_nat p) (Z.of_nat p * pl) i have_piece (map (fun f => file_bytes have_piece f p) (ti_files ti)) =
  Ok (map (fun f => file_bytes have_piece f (p + n)) (ti_files ti)).
Proof.
  induction n as [|n IH]; intros p i f Hn Hi Hf; cbn [init_loop]; [by rewrite Nat.add_0_r|].
  destruct total_bounds as (Hpl & Ht & _ & Hpr). destruct (piece_bounds (Z.of_nat p) ltac:(lia)) as (Hb1 & Hlt & Hb2 & _).
  pose proof (tok_files ti torrent_is_ok) as Hok. destruct (files_ok_at _ _ _ _ _ Hok Hi) as [Hoki _].
  destruct (seek_file_spec _ _ _ i (Z.of_nat p * pl) Hoki ltac:(lia)) as (k & g & -> & Hk & Hg). cbn [mbind result_bind].
  rewrite lookup_drop in Hk. destruct (files_ok_at _ _ _ _ _ Hok Hk) as [Hokk _].
  assert (map (fun f => file_bytes have_piece f (S p)) (ti_files ti) =
    if have_piece (Z.of_nat p) then credit (piece_bound (Z.of_nat p)) (piece_bound (Z.of_nat p + 1)) (ti_files ti) (map (fun f => file_bytes have_piece f p) (ti_files ti))
    else map (fun f => file_bytes have_piece f p) (ti_files ti)) as Hstep.
  { rewrite credit_map. cbn [file_bytes]. destruct (have_piece (Z.of_nat p)); apply map_ext; intros h; [done|lia]. }
  assert (forall i' g', ti_files ti !! i' = Some g' -> fe_offset g' <= Z.of_nat (S p) * pl ->
    init_loop n (Z.of_nat p + 1) (Z.of_nat p * pl + pl) i' have_piece (map (fun f => file_bytes have_piece f (S p)) (ti_files ti)) =
    Ok (map (fun f => file_bytes have_piece f (p + S n)) (ti_files ti))) as Hnext.
  { intros i' g' Hi' Hg'. replace (Z.of_nat p + 1) with (Z.of_nat (S p)) by lia. replace (Z.of_nat p * pl + pl) with (Z.of_nat (S p) * pl) by lia.
    rewrite (IH (S p) i' g') by (done || lia). by rewrite Nat.add_succ_r. }
  destruct (have_piece (Z.of_nat p)); cbn [mbind result_bind].
  2: { rewrite Hstep in Hnext. apply (Hnext _ g Hk). lia. }
  rewrite Hk. cbn [from_option]. set (counts := map (fun f => file_bytes have_piece f p) (ti_files ti)) in *.
  assert (length (ti_files ti) = length counts) as Hlc by (unfold counts; by rewrite length_map).
  assert (i + k <= length counts)%nat as Hik by (pose proof (lookup_lt_Some _ _ _ Hk); lia).
  destruct (fill_files_spec (drop (i + k) (ti_files ti)) (fe_offset g) total (take (i + k) counts) (drop (i + k) counts) (Z.of_nat p * pl - fe_offset g)
    (Z.min pl (total - Z.of_nat p * pl))) as (k' & Hfill & Hk'); try done; try lia.
  { by rewrite !length_drop, Hlc. }
  { apply Forall_drop, counts_of. }
  { intros _. exists g. split; [by apply head_drop|lia]. }
  rewrite length_take, Nat.min_l, take_drop in Hfill by done. rewrite Hfill. cbn [mbind result_bind].
  replace (fe_offset g + (Z.of_nat p * pl - fe_offset g)) with (Z.of_nat p * pl) in * by lia.
  rewrite (credit_split _ g) by (done || lia). rewrite <- Hb2, <- Hb1, <- Hstep.
  destruct Hk' as (g' & Hg' & Hle); [intros E; apply head_drop in Hk; by rewrite E in Hk|].
  rewrite lookup_drop in Hg'. rewrite Hb1. apply (Hnext _ g' Hg'). lia.
Qed.

(** From the set of pieces: [init] counts the bytes of each file in the pieces that have
    arrived. *)
Lemma progress_init_spec have_piece : progress_init have_piece [] = Ok (progress_of have_piece).
Proof.
  unfold progress_init, progress_of. destruct total_bounds as (_ & Ht & _ & Hp). pose proof (tok_files ti torrent_is_ok) as Hok.
  destruct (ti_files ti) as [|f files] eqn:Ef; [simpl in Hok; lia|]. rewrite <- Ef.
  replace (replicate (length (ti_files ti)) 0) with (map (fun f => file_bytes have_piece f 0) (ti_files ti))
    by (clear; induction (ti_files ti) as [|h l IH]; [done|]; cbn; by f_equal).
  apply (init_loop_spec have_piece (Z.to_nat pieces) 0 0 f); [lia|by rewrite Ef|]. destruct Hok as (Ho & _). lia.
Qed.

(** ** Piece by piece *)

(** The files of a list that [update] reports, after a range up to [b] has been added. *)
Definition reported (completed_cb : bool) (files : list file_entry) (i : nat) (counts : list Z) (a b : Z) (k : nat) : Prop :=
  completed_cb = true /\ pad_file_at k = false /\
  exists j f v, k = (i + j)%nat /\ files !! j = Some f /\ counts !! j = Some v /\ fe_offset f < b /\ fe_size f <= v + overlap f a b.

Lemma reported_cons cb f files i v counts a b k :
  reported cb (f :: files) i (v :: counts) a b k <->
  (k = i /\ cb = true /\ pad_file_at i = false /\ fe_offset f < b /\ fe_size f <= v + overlap f a b) \/ reported cb files (S i) counts a b k.
Proof.
  unfold reported. split.
  - intros (Hcb & Hpad & [|j] & g & w & -> & Hj & Hw & Hb & Hs).
    + injection Hj as ->. injection Hw as ->. left. rewrite Nat.add_0_r in *. by split_and!.
    + right. split_and!; try done. exists j, g, w. split_and!; try done; lia.
  - intros [(-> & Hcb & Hpad & Hb & Hs)|(Hcb & Hpad & j & g & w & -> & Hj & Hw & Hb & Hs)]; (split; [done|]; split; [done|]).
    + exists 0%nat, f, v. split_and!; try done; lia.
    + exists (S j), g, w. split_and!; try done; lia.
Qed.

Lemma reported_from cb files : forall o total i counts a a' b k, files_ok o files total -> a <= o -> a' <= o ->
  reported cb files i counts a b k <-> reported cb files i counts a' b k.
Proof.
  intros o tot i counts a a' b k Hok Ha Ha'. unfold reported.
  assert (forall j f, files !! j = Some f -> overlap f a b = overlap f a' b) as Hov.
  { intros j f Hj. destruct (files_ok_lookup _ _ _ _ _ Hok Hj). unfold overlap. f_equal. lia. }
  split; intros (Hcb & Hpad & j & f & v & Hk & Hj & Hv & Hb & Hs); (split; [done|]; split; [done|]); exists j, f, v; specialize (Hov j f Hj);
    split_and!; try done; lia.
Qed.

Lemma update_loop_spec cb files : forall o total pre counts a size, files_ok o files total -> length files = length counts -> counts_ok counts ->
  o <= a -> 0 <= size < 2 ^ 31 -> a + size <= total -> (0 < size -> exists f, head files = Some f /\ a <= fe_offset f + fe_size f) ->
  exists completed, update_loop cb files (length pre) a size (pre ++ counts) = Ok (pre ++ credit a (a + size) files counts, completed) /\
    NoDup completed /\ Forall (fun k => length pre <= k)%nat completed /\
    forall k, 0 < size -> k ∈ completed <-> reported cb files (length pre) counts a (a + size) k.
Proof.
  induction files as [|f files IH]; intros o tot pre counts a size Hok Hl Hc Ha Hsize Hle Hhead; cbn [update_loop].
  - simpl in Hok. assert (size = 0) as -> by (destruct (decide (size = 0)); [done|]; destruct Hhead as (? & ? & _); [lia|done]). exists [].
    rewrite Z.add_0_r, credit_empty by done. split_and!; [done|constructor|constructor|lia].
  - pose proof Hok as (Ho & Hs & Hok'). destruct counts as [|v counts]; [done|]. apply Forall_cons in Hc as [Hv Hc]. injection Hl as Hl.
    destruct (Z.ltb_spec 0 size) as [Hpos|Hz].
    2: { assert (size = 0) as -> by lia. exists []. rewrite Z.add_0_r, credit_empty by (cbn; lia). split_and!; [done|constructor|constructor|lia]. }
    destruct Hhead as (f' & [= <-] & Hin); [done|]. set (add := Z.min (fe_size f - (a - fe_offset f)) size).
    assert (overlap f a (a + size) = add) as Hadd by (unfold overlap, add; lia).
    rewrite add_progress_middle by (unfold add; lia). cbn [mbind result_bind]. rewrite list_lookup_middle by done. cbn [from_option id].
    unfold credit. cbn [zip_with]. fold (credit a (a + size) files counts). rewrite Hadd.
    set (calls := _ && negb (pad_file_at (length pre))).
    assert (exists rest, update_loop cb files (S (length pre)) (a + add) (size - add) (pre ++ v + add :: counts) =
        Ok (pre ++ v + add :: credit a (a + size) files counts, rest) /\ NoDup rest /\ Forall (fun k => S (length pre) <= k)%nat rest /\
        forall k, k ∈ rest <-> reported cb files (S (length pre)) counts a (a + size) k) as (rest & -> & Hnd & Hge & Hrest).
    { destruct (Z.lt_ge_cases add size) as [Hmore|Hlast].
      - destruct files as [|g files]; [simpl in Hok'; lia|].
        destruct (IH (o + fe_size f) tot (pre ++ [v + add]) counts (a + add) (size - add)) as (rest & Hrec & Hnd & Hge & Hr); try done; try lia.
        { intros _. exists g. split; [done|]. destruct Hok' as (? & ? & _). lia. }
        rewrite length_app, Nat.add_1_r, <- !app_assoc in *. cbn [app] in Hrec. exists rest.
        replace (a + add + (size - add)) with (a + size) in * by lia. rewrite Hrec.
        rewrite (credit_from (g :: files) (o + fe_size f) tot (a + add) a) by (done || lia). split_and!; try done.
        intros k. rewrite Hr by lia. apply (reported_from _ _ (o + fe_size f) tot); [done|lia..].
      - exists []. replace (size - add) with 0 by lia. assert (forall fs i c, update_loop cb fs i (a + add) 0 c = Ok (c, [])) as -> by (by intros [|? ?]).
        rewrite credit_none; [|done|apply (files_ok_after files (o + fe_size f) tot); [done|lia]]. split_and!; [done|constructor|constructor|].
        intros k. split; [by intros ?%not_elem_of_nil|]. intros (_ & _ & j & g & w & _ & Hj & _ & Hb & _). destruct (files_ok_lookup _ _ _ _ _ Hok' Hj). lia. }
    cbn [mbind result_bind]. exists (if calls then length pre :: rest else rest). split; [done|]. split_and!.
    + destruct calls; [|done]. constructor; [|done]. intros Hin'. rewrite Forall_forall in Hge. specialize (Hge _ Hin'). lia.
    + assert (Forall (fun k => length pre <= k)%nat rest) by (eapply Forall_impl; [exact Hge|simpl; lia]). destruct calls; [by constructor|done].
    + intros k _. rewrite reported_cons, <- Hrest, Hadd.
      assert (calls = true <-> cb = true /\ pad_file_at (length pre) = false /\ fe_offset f < a + size /\ fe_size f <= v + add) as Hcalls.
      { unfold calls. rewrite !andb_true_iff, negb_true_iff, Z.leb_le. split; [intros [[? ?] ?]|intros (? & ? & ? & ?)]; split_and!; try done; lia. }
      destruct calls.
      * rewrite elem_of_cons. destruct Hcalls as [Hcalls _]. specialize (Hcalls eq_refl). tauto.
      * split; [by right|]. intros [(-> & Hx)|?]; [|done]. by apply Hcalls in Hx.
Qed.

(** The pieces that have arrived, and some more. *)
Definition and_also (ps : list Z) (have_piece : Z -> bool) (p : Z) : bool := bool_decide (p ∈ ps) || have_piece p.

Lemma file_bytes_ext h1 h2 f n : (forall p, 0 <= p < Z.of_nat n -> h1 p = h2 p) -> file_bytes h1 f n = file_bytes h2 f n.
Proof.
  induction n as [|n IH]; intros Hh; [done|]. cbn [file_bytes]. rewrite (Hh (Z.of_nat n)), IH by (intros; try apply Hh; lia). done.
Qed.

Lemma file_bytes_add have_piece p f n : 0 <= p -> have_piece p = false ->
  file_bytes (and_also [p] have_piece) f n =
  file_bytes have_piece f n + (if p <? Z.of_nat n then overlap f (piece_bound p) (piece_bound (p + 1)) else 0).
Proof.
  intros Hp Hn. induction n as [|n IH]; cbn [file_bytes]; [by rewrite (proj2 (Z.ltb_ge _ _)) by lia|]. rewrite IH. unfold and_also at 1.
  replace (Z.of_nat (S n)) with (Z.of_nat n + 1) by lia. destruct (Z.eq_dec (Z.of_nat n) p) as [<-|Hne].
  - rewrite bool_decide_true by apply list_elem_of_here. rewrite Hn, (proj2 (Z.ltb_ge _ _)), (proj2 (Z.ltb_lt _ _)) by lia. cbn. lia.
  - rewrite bool_decide_false by (by intros ?%list_elem_of_singleton). cbn [orb]. destruct (Z.ltb_spec p (Z.of_nat n)), (Z.ltb_spec p (Z.of_nat n + 1)); lia.
Qed.

Abbreviation bytes_of h f := (file_bytes h f (Z.to_nat pieces)).

(** One piece more: [update] leaves what [init] would count, and calls back for the files, not
    padding, that have become complete. *)
Lemma progress_update_spec have_piece p cb : 0 <= p < pieces -> have_piece p = false ->
  exists completed, progress_update p cb (progress_of have_piece) = Ok (progress_of (and_also [p] have_piece), completed) /\ NoDup completed /\
    forall k f, ti_files ti !! k = Some f -> 0 < fe_size f ->
      k ∈ completed <-> cb = true /\ pad_file_at k = false /\
        bytes_of have_piece f < fe_size f /\ bytes_of (and_also [p] have_piece) f = fe_size f.
Proof.
  intros Hp Hnew. destruct total_bounds as (Hpl & Ht & _ & _). destruct (piece_bounds p Hp) as (Hb1 & Hlt & Hb2 & _).
  pose proof (tok_files ti torrent_is_ok) as Hok. destruct (piece_size_bounds ti p torrent_is_ok Hp) as [Hps Hpe].
  assert (p * pl + piece_size ti p = piece_bound (p + 1)) as Hend by (unfold piece_bound; lia).
  destruct (file_index_at_offset_spec ti torrent_is_ok (p * pl) offsets_fit ltac:(nia)) as (i & f & Hix & Hi & Hin & _).
  assert (progress_of (and_also [p] have_piece) = credit (p * pl) (piece_bound (p + 1)) (ti_files ti) (progress_of have_piece)) as Hcredit.
  { unfold progress_of. rewrite credit_map. apply map_ext. intros g. rewrite file_bytes_add by (done || lia). by rewrite Hb1, (proj2 (Z.ltb_lt _ _)) by lia. }
  set (counts := progress_of have_piece) in *. assert (length (ti_files ti) = length counts) as Hlc by (unfold counts, progress_of; by rewrite length_map).
  pose proof (lookup_lt_Some _ _ _ Hi) as Hil. destruct (files_ok_at _ _ _ _ _ Hok Hi) as [Hoki _].
  destruct (update_loop_spec cb (drop i (ti_files ti)) (fe_offset f) total (take i counts) (drop i counts) (p * pl) (piece_size ti p))
    as (completed & Hrun & Hnd & Hge & Hrep); try done; try lia.
  { by rewrite !length_drop, Hlc. }
  { apply Forall_drop, counts_of. }
  { intros _. exists f. split; [by apply head_drop|lia]. }
  rewrite length_take, Nat.min_l, take_drop in * by lia. exists completed.
  split; [|split; [done|]].
  - unfold progress_update. destruct counts as [|c0 counts0] eqn:Ec; [simpl in Hlc; lia|]. rewrite <- Ec in *. rewrite Hix. cbn [mbind result_bind].
    rewrite Hrun, (credit_split i f), Hend, Hcredit by (done || lia). done.
  - intros k g Hk Hg. rewrite Hrep, Hend by lia. destruct (files_of_torrent k g Hk) as (Hgo & Hgs & _).
    assert (counts !! k = Some (bytes_of have_piece g)) as Hck by (unfold counts, progress_of; by rewrite list_lookup_fmap, Hk).
    assert (bytes_of (and_also [p] have_piece) g = bytes_of have_piece g + overlap g (p * pl) (piece_bound (p + 1))) as Hadd.
    { rewrite file_bytes_add by (done || lia). by rewrite Hb1, (proj2 (Z.ltb_lt _ _)) by lia. }
    pose proof (bytes_at_most (and_also [p] have_piece) g (Z.to_nat pieces) Hgo Hgs) as Hmost. split.
    + intros (Hcb & Hpad & j & g' & v & -> & Hj & Hv & Hb & Hs). rewrite lookup_drop in Hj. rewrite lookup_drop in Hv. rewrite Hk in Hj. injection Hj as <-.
      rewrite Hck in Hv. injection Hv as <-. split_and!; try done; [|lia].
      assert (p * pl < fe_offset g + fe_size g).
      { destruct j as [|j]; [rewrite Nat.add_0_r in Hk; rewrite Hi in Hk; by injection Hk as <-; lia|].
        rewrite (drop_S _ f i Hi) in Hoki. destruct Hoki as (_ & _ & Hoki).
        replace (i + S j)%nat with (S i + j)%nat in Hk by lia. rewrite <- lookup_drop in Hk. destruct (files_ok_lookup _ _ _ _ _ Hoki Hk). lia. }
      unfold overlap in Hadd. lia.
    + intros (Hcb & Hpad & Hless & Hfull). split; [done|]. split; [done|].
      assert (0 < overlap g (p * pl) (piece_bound (p + 1))) as Hpos by lia.
      assert (i <= k)%nat.
      { destruct (Nat.le_gt_cases i k); [done|]. exfalso. pose proof (files_before _ 0 total i f (p * pl) (piece_bound (p + 1)) Hok Hi ltac:(lia)) as Hbefore.
        rewrite Forall_forall in Hbefore. rewrite (Hbefore g) in Hpos; [lia|]. apply list_elem_of_lookup. exists k. by rewrite lookup_take_lt by lia. }
      exists (k - i)%nat, g, (bytes_of have_piece g). rewrite !lookup_drop. replace (i + (k - i))%nat with k by lia.
      split_and!; try done; [|lia]. unfold overlap in Hpos. lia.
Qed.

Lemma filter_once (l : list nat) k : NoDup l -> length (filter (fun j => j = k) l) = if bool_decide (k ∈ l) then 1%nat else 0%nat.
Proof.
  induction 1 as [|j l Hj Hnd IH]; [by rewrite bool_decide_false by apply not_elem_of_nil|]. rewrite filter_cons. destruct (decide (j = k)) as [->|Hne].
  - cbn. rewrite IH, bool_decide_false, bool_decide_true by (done || apply list_elem_of_here). done.
  - rewrite IH. rewrite (bool_decide_ext (k ∈ j :: l) (k ∈ l)); [done|]. rewrite elem_of_cons. naive_solver.
Qed.

(** Many pieces, one after the other. *)
Fixpoint progress_run (ps : list Z) (cb : bool) (m_file_progress : list Z) : result (list Z * list nat) :=
  match ps with
  | [] => Ok (m_file_progress, [])
  | p :: ps =>
      '(m_file_progress, completed) ← progress_update p cb m_file_progress;
      '(m_file_progress, rest) ← progress_run ps cb m_file_progress;
      Ok (m_file_progress, completed ++ rest)
  end.

Lemma and_also_cons p ps h q : and_also ps (and_also [p] h) q = and_also (p :: ps) h q.
Proof.
  unfold and_also. rewrite orb_assoc. f_equal. apply eq_iff_eq_true. rewrite orb_true_iff, !bool_decide_eq_true, !elem_of_cons, elem_of_nil. tauto.
Qed.

Lemma progress_of_ext h1 h2 : (forall p, 0 <= p < pieces -> h1 p = h2 p) -> progress_of h1 = progress_of h2.
Proof. intros Hh. unfold progress_of. apply map_ext. intros f. apply file_bytes_ext. intros p Hp. apply Hh. lia. Qed.

Lemma bytes_mono ps h f : bytes_of h f <= bytes_of (and_also ps h) f.
Proof.
  induction (Z.to_nat pieces) as [|n IH]; cbn [file_bytes]; [lia|]. unfold and_also at 2.
  pose proof (overlap_nonneg f (piece_bound (Z.of_nat n)) (piece_bound (Z.of_nat n + 1))). destruct (h (Z.of_nat n)), (bool_decide _); cbn; lia.
Qed.

(** The files of which all bytes are in the pieces. *)
Lemma bytes_all h f : 0 <= fe_offset f -> 0 <= fe_size f -> fe_offset f + fe_size f <= total -> (forall p, 0 <= p < pieces -> h p = true) -> bytes_of h f = fe_size f.
Proof.
  intros Ho Hs Hend Hall. destruct total_bounds as (Hpl & Ht & Hn & Hp).
  assert (forall n, Z.of_nat n <= pieces -> file_bytes h f n = overlap f 0 (piece_bound (Z.of_nat n))) as Hsum.
  { induction n as [|n IH]; intros Hle; cbn [file_bytes]; [unfold overlap, piece_bound; lia|]. rewrite IH, Hall by lia.
    replace (Z.of_nat (S n)) with (Z.of_nat n + 1) by lia. apply overlap_split; [|done]. unfold piece_bound. nia. }
  rewrite Hsum by lia. rewrite Z2Nat.id by lia. unfold overlap, piece_bound. lia.
Qed.

(** C38: In a well-formed torrent of fewer than 2^48 bytes, however the pieces arrive, one by one and in whatever order: the counts are always those
    that [init] makes from the set of the pieces, every file that is not padding and becomes
    complete is reported once, no other file with any bytes is, and when all pieces have
    arrived the counts are the sizes of the files. *)
Theorem progress_tracks ps cb have_piece : NoDup ps -> Forall (fun p => 0 <= p < pieces /\ have_piece p = false) ps ->
  exists completed, progress_run ps cb (progress_of have_piece) = Ok (progress_of (and_also ps have_piece), completed) /\
    progress_init (and_also ps have_piece) [] = Ok (progress_of (and_also ps have_piece)) /\
    (forall k f, ti_files ti !! k = Some f -> 0 < fe_size f ->
      length (filter (fun j => j = k) completed) =
      (if bool_decide (cb = true /\ pad_file_at k = false /\ bytes_of have_piece f < fe_size f /\ bytes_of (and_also ps have_piece) f = fe_size f)
       then 1%nat else 0%nat)) /\
    ((forall p, 0 <= p < pieces -> and_also ps have_piece p = true) -> progress_of (and_also ps have_piece) = map fe_size (ti_files ti)).
Proof.
  intros Hnd Hps. enough (exists completed, progress_run ps cb (progress_of have_piece) = Ok (progress_of (and_also ps have_piece), completed) /\
    forall k f, ti_files ti !! k = Some f -> 0 < fe_size f -> length (filter (fun j => j = k) completed) =
      (if bool_decide (cb = true /\ pad_file_at k = false /\ bytes_of have_piece f < fe_size f /\ bytes_of (and_also ps have_piece) f = fe_size f)
       then 1%nat else 0%nat)) as (completed & Hrun & Hcompl).
  { exists completed. split_and!; [done|apply progress_init_spec|done|]. intros Hall. unfold progress_of.
    apply list_eq. intros k. rewrite !list_lookup_fmap. destruct (ti_files ti !! k) as [f|] eqn:Hk; [|done]. cbn. f_equal.
    destruct (files_of_torrent k f Hk) as (? & ? & ?). by apply bytes_all. }
  revert have_piece Hps. induction Hnd as [|p ps Hp Hnd IH]; intros h Hps.
  - exists []. split; [done|]. intros k f Hk Hf. rewrite bool_decide_false; [done|]. intros (_ & _ & Hlt & Heq).
    rewrite (file_bytes_ext _ h) in Heq by done. lia.
  - apply Forall_cons in Hps as [[Hpr Hpn] Hps]. destruct (progress_update_spec h p cb Hpr Hpn) as (c1 & E1 & Hnd1 & Hc1).
    destruct (IH (and_also [p] h)) as (c2 & E2 & Hc2).
    { rewrite Forall_forall in *. intros q Hin. destruct (Hps q Hin) as [? Hn]. split; [done|]. unfold and_also.
      rewrite bool_decide_false; [done|]. by intros ->%list_elem_of_singleton. }
    cbn [progress_run]. rewrite E1. cbn [mbind result_bind]. rewrite E2. cbn [mbind result_bind]. exists (c1 ++ c2).
    split; [f_equal; f_equal; apply progress_of_ext; intros; apply and_also_cons|]. intros k f Hk Hf.
    rewrite filter_app, length_app, (Hc2 k f Hk Hf). specialize (Hc1 k f Hk Hf).
    assert (bytes_of (and_also ps (and_also [p] h)) f = bytes_of (and_also (p :: ps) h) f) as -> by (apply file_bytes_ext; intros; apply and_also_cons).
    pose proof (bytes_mono [p] h f) as Hm1. pose proof (bytes_mono ps (and_also [p] h) f) as Hm2.
    assert (bytes_of (and_also ps (and_also [p] h)) f = bytes_of (and_also (p :: ps) h) f) as Hsame by (apply file_bytes_ext; intros; apply and_also_cons).
    rewrite Hsame in Hm2. destruct (files_of_torrent k f Hk) as (Hfo & Hfs & _).
    pose proof (bytes_at_most (and_also [p] h) f (Z.to_nat pieces) Hfo Hfs) as Hmost.
    assert (length (filter (fun j => j = k) c1) = if bool_decide (k ∈ c1) then 1%nat else 0%nat) as ->.
    { by apply filter_once. }
    rewrite (bool_decide_ext _ _ Hc1). pose proof (bytes_at_most (and_also (p :: ps) h) f (Z.to_nat pieces) Hfo Hfs) as Hmost2.
    revert Hm1 Hm2 Hmost Hmost2. generalize (bytes_of h f), (bytes_of (and_also [p] h) f), (bytes_of (and_also (p :: ps) h) f).
    clear. intros b0 b1 b2 Hm1 Hm2 Hmost Hmost2. destruct cb, (pad_file_at k); repeat case_bool_decide; intuition (try done; lia).
Qed.
End Progress.

(** ** Samples *)

(** An empty file between two pieces is reported by neither, so whoever waits for the call
    about it waits in vain; one inside of a piece is reported with the piece. *)
Definition empty_files : torrent_info :=
  mk_torrent_info 4 2 8 [mk_file_entry [97] [97] 0 2; mk_file_entry [98] [98] 2 0; mk_file_entry [99] [99] 2 2;
    mk_file_entry [100] [100] 4 0; mk_file_entry [101] [101] 4 4] (fun _ => []) [] [].

Lemma empty_file_unreported : torrent_ok empty_files /\
  progress_run empty_files (fun _ => false) [0; 1] true (progress_of empty_files (fun _ => false)) = Ok ([2; 0; 2; 0; 4], [0; 1; 2; 4]%nat).
Proof. split; [split; simpl; lia || done|]. vm_compute. reflexivity. Qed.

Lemma progress_tracks_witness : exists completed,
  progress_run two_files (fun _ => false) [1; 0] true (progress_of two_files (fun _ => false)) =
    Ok (progress_of two_files (and_also [1; 0] (fun _ => false)), completed) /\
  length (filter (fun j => j = 1%nat) completed) = 1%nat /\ progress_of two_files (and_also [1; 0] (fun _ => false)) = [3; 5].
Proof.
  destruct (progress_tracks two_files (fun _ => false) two_files_ok eq_refl [1; 0] true (fun _ => false)) as (completed & E & _ & Hc & Hall).
  - repeat constructor; rewrite ?elem_of_cons, ?elem_of_nil; intuition lia.
  - repeat constructor; simpl; lia.
  - exists completed. split; [exact E|]. split.
    + exact (Hc 1%nat (mk_file_entry [98] [98] 3 5) eq_refl eq_refl).
    + apply Hall. intros p Hp. simpl in Hp. assert (p = 0 \/ p = 1) as [->| ->] by lia; reflexivity.
Defined.
