(* ===== verification/Sha1.v ===== *)
(** * The hash of a piece

    [extern/libtorrent/src/sha1.cpp], the SHA-1 implementation that libtorrent falls
    back to, and the class [hasher] of [extern/libtorrent/src/hasher.cpp] around it.
    The client feeds a piece to a [hasher] block by block.  Sha1Spec.v compares the
    definitions with the standard. *)

From S2P Require Import Prelude.

(** The byte order of the machine: how [memcpy] into the union of four bytes and a word
    sets the word. *)
Class Endian := big_endian : bool.

(** [extern/libtorrent/src/sha1.cpp:40-40] rol *)
Definition rol (value bits : Z) : Z := Z.lor (u32 (Z.shiftl value bits)) (Z.shiftr value (32 - bits)).

(** The word the machine loads from four bytes. *)
Definition load_word `{Endian} (l : bytes) : Z := if big_endian then unbe l else unbe (reverse l).

(** [extern/libtorrent/src/sha1.cpp:34-38] CHAR64LONG16
    The sixteen words of a block of 64 bytes. *)
Definition load_block `{Endian} (buffer : bytes) : list Z :=
  map (fun k => load_word (take 4 (drop (4 * k) buffer))) (seq 0 16).

(** The block, and the working variables [a] to [e] by their number. *)
Definition transform_state : Type := list Z * list Z.

(** [extern/libtorrent/src/sha1.cpp:49-56] little_endian_blk0::apply *)
Definition little_endian_blk0 (block : list Z) (i : nat) : Z * list Z :=
  let w := Z.lor (Z.land (rol (block !!! i) 24) 0xFF00FF00) (Z.land (rol (block !!! i) 8) 0x00FF00FF) in
  (w, <[i := w]> block).

(** [extern/libtorrent/src/sha1.cpp:58-64] big_endian_blk0::apply *)
Definition big_endian_blk0 (block : list Z) (i : nat) : Z * list Z := (block !!! i, block).

(** [extern/libtorrent/src/sha1.cpp:81-85] BlkFun *)
Definition blk0 `{Endian} (block : list Z) (i : nat) : Z * list Z :=
  if big_endian then big_endian_blk0 block i else little_endian_blk0 block i.

(** [extern/libtorrent/src/sha1.cpp:70-71] blk *)
Definition blk (block : list Z) (i : nat) : Z * list Z :=
  let w := rol (Z.lxor (Z.lxor (Z.lxor (block !!! Nat.land (i + 13) 15) (block !!! Nat.land (i + 8) 15))
    (block !!! Nat.land (i + 2) 15)) (block !!! Nat.land i 15)) 1 in
  (w, <[Nat.land i 15 := w]> block).

(** What the five macros share: [z += f(w,x,y) + word + k + rol(v,5); w = rol(w,30)]. *)
(** [extern/libtorrent/src/sha1.cpp:73-78] R0, R1, R2, R3, R4 *)
Definition R (f : Z -> Z -> Z -> Z) (word : list Z -> nat -> Z * list Z) (k : Z)
    (v w x y z i : nat) (s : transform_state) : transform_state :=
  let '(vars, block) := s in
  let '(wd, block) := word block i in
  let vars := <[z := u32 (vars !!! z + (f (vars !!! w) (vars !!! x) (vars !!! y) + wd + k + rol (vars !!! v) 5))]> vars in
  (<[w := rol (vars !!! w) 30]> vars, block).

(** [extern/libtorrent/src/sha1.cpp:74-74] R0 *)
Definition R0 `{Endian} : nat -> nat -> nat -> nat -> nat -> nat -> transform_state -> transform_state :=
  R (fun w x y => Z.lxor (Z.land w (Z.lxor x y)) y) blk0 0x5A827999.
(** [extern/libtorrent/src/sha1.cpp:75-75] R1 *)
Definition R1 : nat -> nat -> nat -> nat -> nat -> nat -> transform_state -> transform_state :=
  R (fun w x y => Z.lxor (Z.land w (Z.lxor x y)) y) blk 0x5A827999.
(** [extern/libtorrent/src/sha1.cpp:76-76] R2 *)
Definition R2 : nat -> nat -> nat -> nat -> nat -> nat -> transform_state -> transform_state :=
  R (fun w x y => Z.lxor (Z.lxor w x) y) blk 0x6ED9EBA1.
(** [extern/libtorrent/src/sha1.cpp:77-77] R3 *)
Definition R3 : nat -> nat -> nat -> nat -> nat -> nat -> transform_state -> transform_state :=
  R (fun w x y => Z.lor (Z.land (Z.lor w x) y) (Z.land w x)) blk 0x8F1BBCDC.
(** [extern/libtorrent/src/sha1.cpp:78-78] R4 *)
Definition R4 : nat -> nat -> nat -> nat -> nat -> nat -> transform_state -> transform_state :=
  R (fun w x y => Z.lxor (Z.lxor w x) y) blk 0xCA62C1D6.

(** [extern/libtorrent/src/sha1.cpp:97-117] SHA1transform
    The unrolled loop. *)
Definition transform_rounds `{Endian} : list (transform_state -> transform_state) :=
  let a := 0%nat in let b := 1%nat in let c := 2%nat in let d := 3%nat in let e := 4%nat in
  [ R0 a b c d e 0; R0 e a b c d 1; R0 d e a b c 2; R0 c d e a b 3;
    R0 b c d e a 4; R0 a b c d e 5; R0 e a b c d 6; R0 d e a b c 7;
    R0 c d e a b 8; R0 b c d e a 9; R0 a b c d e 10; R0 e a b c d 11;
    R0 d e a b c 12; R0 c d e a b 13; R0 b c d e a 14; R0 a b c d e 15;
    R1 e a b c d 16; R1 d e a b c 17; R1 c d e a b 18; R1 b c d e a 19;
    R2 a b c d e 20; R2 e a b c d 21; R2 d e a b c 22; R2 c d e a b 23;
    R2 b c d e a 24; R2 a b c d e 25; R2 e a b c d 26; R2 d e a b c 27;
    R2 c d e a b 28; R2 b c d e a 29; R2 a b c d e 30; R2 e a b c d 31;
    R2 d e a b c 32; R2 c d e a b 33; R2 b c d e a 34; R2 a b c d e 35;
    R2 e a b c d 36; R2 d e a b c 37; R2 c d e a b 38; R2 b c d e a 39;
    R3 a b c d e 40; R3 e a b c d 41; R3 d e a b c 42; R3 c d e a b 43;
    R3 b c d e a 44; R3 a b c d e 45; R3 e a b c d 46; R3 d e a b c 47;
    R3 c d e a b 48; R3 b c d e a 49; R3 a b c d e 50; R3 e a b c d 51;
    R3 d e a b c 52; R3 c d e a b 53; R3 b c d e a 54; R3 a b c d e 55;
    R3 e a b c d 56; R3 d e a b c 57; R3 c d e a b 58; R3 b c d e a 59;
    R4 a b c d e 60; R4 e a b c d 61; R4 d e a b c 62; R4 c d e a b 63;
    R4 b c d e a 64; R4 a b c d e 65; R4 e a b c d 66; R4 d e a b c 67;
    R4 c d e a b 68; R4 b c d e a 69; R4 a b c d e 70; R4 e a b c d 71;
    R4 d e a b c 72; R4 c d e a b 73; R4 b c d e a 74; R4 a b c d e 75;
    R4 e a b c d 76; R4 d e a b c 77; R4 c d e a b 78; R4 b c d e a 79 ].

(** [extern/libtorrent/src/sha1.cpp:80-124] SHA1transform *)
Definition SHA1transform `{Endian} (state : list Z) (buffer : bytes) : list Z :=
  let '(vars, _) := foldl (fun s r => r s) (state, load_block buffer) transform_rounds in
  zip_with (fun s v => u32 (s + v)) state vars.

(** [extern/libtorrent/include/libtorrent/sha1.hpp:27-32] sha1_ctx *)
Record sha1_ctx := mk_sha1_ctx { ctx_state : list Z; count0 : Z; count1 : Z; ctx_buffer : bytes }.

(** [memcpy(&buffer[j], data, length data)] *)
Definition copy_at (j : nat) (data buffer : bytes) : bytes :=
  take j buffer ++ data ++ drop (j + length data) buffer.

(** [extern/libtorrent/src/sha1.cpp:157-160] internal_update
    The whole blocks of [data] from [i] on; [fuel] turns. *)
Fixpoint update_blocks `{Endian} (fuel i : nat) (data : bytes) (state : list Z) : nat * list Z :=
  match fuel with
  | O => (i, state)
  | S fuel' =>
      if (i + 63 <? length data)%nat
      then update_blocks fuel' (i + 64) data (SHA1transform state (take 64 (drop i data)))
      else (i, state)
  end.

(** [extern/libtorrent/src/sha1.cpp:141-171] internal_update
    [len] has 64 bits; the comparison is between a word of 32 and one of 64 bits. *)
Definition internal_update `{Endian} (context : sha1_ctx) (data : bytes) : sha1_ctx :=
  let len := length data in
  let len8 := u64 (Z.shiftl (Z.of_nat len) 3) in
  let j := Z.to_nat (Z.land (Z.shiftr (count0 context) 3) 63) in
  let count_0 := u32 (count0 context + len8) in
  let count_1 := if count_0 <? len8 then u32 (count1 context + 1) else count1 context in
  let count_1 := u32 (count_1 + Z.shiftr (Z.of_nat len) 29) in
  if (63 <? j + len)%nat then
    let i := (64 - j)%nat in
    let buffer := copy_at j (take i data) (ctx_buffer context) in
    let '(i, state) := update_blocks (length data) i data (SHA1transform (ctx_state context) buffer) in
    mk_sha1_ctx state count_0 count_1 (copy_at 0 (drop i data) buffer)
  else mk_sha1_ctx (ctx_state context) count_0 count_1 (copy_at j data (ctx_buffer context)).

(** [extern/libtorrent/src/sha1.cpp:184-193] SHA1_init
    The buffer is not initialised: [garbage] is what it holds. *)
Definition SHA1_init (garbage : bytes) : sha1_ctx :=
  mk_sha1_ctx [0x67452301; 0xEFCDAB89; 0x98BADCFE; 0x10325476; 0xC3D2E1F0] 0 0 garbage.

(** [extern/libtorrent/src/sha1.cpp:198-214] SHA1_update *)
Definition SHA1_update `{Endian} (context : sha1_ctx) (data : bytes) : sha1_ctx := internal_update context data.

(** [extern/libtorrent/src/sha1.cpp:221-229] SHA1_final *)
Definition finalcount (context : sha1_ctx) : bytes :=
  map (fun i => u8 (Z.land (Z.shiftr (if (4 <=? i)%nat then count0 context else count1 context)
    ((3 - Z.land (Z.of_nat i) 3) * 8)) 255)) (seq 0 8).

(** [extern/libtorrent/src/sha1.cpp:232-233] SHA1_final *)
Fixpoint pad_loop `{Endian} (fuel : nat) (context : sha1_ctx) : result sha1_ctx :=
  if Z.land (count0 context) 504 =? 448 then Ok context
  else match fuel with
       | O => Fault OutOfFuel
       | S fuel' => pad_loop fuel' (SHA1_update context [0])
       end.

(** [extern/libtorrent/src/sha1.cpp:236-240] SHA1_final *)
Definition digest (state : list Z) : bytes :=
  map (fun i => u8 (Z.land (Z.shiftr (state !!! (i / 4)%nat) ((3 - Z.land (Z.of_nat i) 3) * 8)) 255)) (seq 0 20).

(** [extern/libtorrent/src/sha1.cpp:219-241] SHA1_final
    Sixty-four turns of the loop go once around the block. *)
Definition SHA1_final `{Endian} (context : sha1_ctx) : result bytes :=
  let count := finalcount context in
  context ← pad_loop 64 (SHA1_update context [128]);
  Ok (digest (ctx_state (SHA1_update context count))).

(** [extern/libtorrent/src/hasher.cpp:45-57] hasher::hasher *)
Definition hasher_create (garbage : bytes) : sha1_ctx := SHA1_init garbage.

(** [extern/libtorrent/src/hasher.cpp:95-112] hasher::update *)
Definition hasher_update `{Endian} (h : sha1_ctx) (data : bytes) : sha1_ctx := SHA1_update h data.

(** [extern/libtorrent/src/hasher.cpp:114-130] hasher::final *)
Definition hasher_final `{Endian} (h : sha1_ctx) : result bytes := SHA1_final h.

(** The digest of data that is fed to a hasher in these parts. *)
Definition hash_parts `{Endian} (garbage : bytes) (parts : list bytes) : result bytes :=
  hasher_final (foldl hasher_update (hasher_create garbage) parts).
