(* ===== verification/Sha1Spec.v ===== *)
(** * SHA-1: the standard

    The hash function as FIPS 180 defines it, and the equivalence of the code of
    Sha1.v with it: the circular buffer with the message schedule, the unrolled rounds
    with rotated variables with the recurrence, and the incremental updates with the
    padded message. *)

From S2P Require Import Prelude Sha1.

(** ** The definition of the standard *)

Definition Ch (x y z : Z) : Z := Z.lxor (Z.land x y) (Z.land (Z.lnot x) z).
Definition Parity (x y z : Z) : Z := Z.lxor (Z.lxor x y) z.
Definition Maj (x y z : Z) : Z := Z.lxor (Z.lxor (Z.land x y) (Z.land x z)) (Z.land y z).

Definition fips_f (t : nat) : Z -> Z -> Z -> Z :=
  if (t <? 20)%nat then Ch else if (t <? 40)%nat then Parity else if (t <? 60)%nat then Maj else Parity.

Definition fips_K (t : nat) : Z :=
  if (t <? 20)%nat then 0x5A827999 else if (t <? 40)%nat then 0x6ED9EBA1
  else if (t <? 60)%nat then 0x8F1BBCDC else 0xCA62C1D6.

(** The sixteen words of a block, most significant byte first. *)
Definition block_words (m : bytes) : list Z := map (fun k => unbe (take 4 (drop (4 * k) m))) (seq 0 16).

(** The first [n] words of the message schedule. *)
Fixpoint schedule (m : bytes) (n : nat) : list Z :=
  match n with
  | O => []
  | S t =>
      let l := schedule m t in
      l ++ [if (t <? 16)%nat then block_words m !!! t
            else rol (Z.lxor (Z.lxor (Z.lxor (l !!! (t - 3)%nat) (l !!! (t - 8)%nat)) (l !!! (t - 14)%nat))
                   (l !!! (t - 16)%nat)) 1]
  end.

Definition W (m : bytes) (t : nat) : Z := schedule m (S t) !!! t.

(** The working variables. *)
Record working := mk_working { wa : Z; wb : Z; wc : Z; wd : Z; we : Z }.

Definition fips_round (m : bytes) (t : nat) (s : working) : working :=
  let T := u32 (rol (wa s) 5 + fips_f t (wb s) (wc s) (wd s) + we s + fips_K t + W m t) in
  mk_working T (wa s) (rol (wb s) 30) (wc s) (wd s).

Definition vars_of (s : working) : list Z := [wa s; wb s; wc s; wd s; we s].

Definition of_vars (l : list Z) : working := mk_working (l !!! 0%nat) (l !!! 1%nat) (l !!! 2%nat) (l !!! 3%nat) (l !!! 4%nat).

Definition fips_rounds (m : bytes) (n : nat) (s : working) : working :=
  foldl (fun s t => fips_round m t s) s (seq 0 n).

(** The compression of one block. *)
Definition compress (state : list Z) (m : bytes) : list Z :=
  zip_with (fun s v => u32 (s + v)) state (vars_of (fips_rounds m 80 (of_vars state))).

Definition fips_init : list Z := [0x67452301; 0xEFCDAB89; 0x98BADCFE; 0x10325476; 0xC3D2E1F0].

(** The message, a one bit, zeros up to eight bytes before the end of a block, and the
    length in bits. *)
Definition pad (m : bytes) : bytes :=
  m ++ [128] ++ replicate (Z.to_nat ((55 - Z.of_nat (length m)) mod 64)) 0 ++ be 8 (8 * Z.of_nat (length m)).

(** The blocks of 64 bytes. *)
Fixpoint compress_blocks (n : nat) (state : list Z) (m : bytes) : list Z :=
  match n with
  | O => state
  | S n' => compress_blocks n' (compress state (take 64 m)) (drop 64 m)
  end.

Definition fips_sha1 (m : bytes) : bytes :=
  concat (map (be 4) (compress_blocks (length (pad m) / 64) fips_init (pad m))).

(** ** Words and their bits *)

Lemma ch_code w x y : Z.lxor (Z.land w (Z.lxor x y)) y = Ch w x y.
Proof.
  apply Z.bits_inj'. intros n Hn. unfold Ch.
  rewrite !Z.lxor_spec, !Z.land_spec, Z.lnot_spec, Z.lxor_spec by done.
  by destruct (Z.testbit w n), (Z.testbit x n), (Z.testbit y n).
Qed.

Lemma maj_code w x y : Z.lor (Z.land (Z.lor w x) y) (Z.land w x) = Maj w x y.
Proof.
  apply Z.bits_inj'. intros n Hn. unfold Maj.
  rewrite Z.lor_spec, !Z.lxor_spec, !Z.land_spec, Z.lor_spec.
  by destruct (Z.testbit w n), (Z.testbit x n), (Z.testbit y n).
Qed.

Lemma u32_land z : u32 z = Z.land z (Z.ones 32).
Proof. unfold u32. by rewrite Z.land_ones. Qed.

Lemma rol_lor x y n : rol (Z.lor x y) n = Z.lor (rol x n) (rol y n).
Proof.
  unfold rol. rewrite Z.shiftl_lor, Z.shiftr_lor, !u32_land, Z.land_lor_distr_l.
  apply Z.bits_inj'. intros k _. rewrite !Z.lor_spec.
  by repeat destruct (Z.testbit _ k).
Qed.

(** The swap of [little_endian_blk0]. *)
Definition swap (x : Z) : Z := Z.lor (Z.land (rol x 24) 0xFF00FF00) (Z.land (rol x 8) 0x00FF00FF).

Lemma swap_lor x y : swap (Z.lor x y) = Z.lor (swap x) (swap y).
Proof.
  unfold swap. rewrite !rol_lor, !Z.land_lor_distr_l.
  apply Z.bits_inj'. intros k _. rewrite !Z.lor_spec.
  by repeat destruct (Z.testbit _ k).
Qed.

Definition swaps_byte (b : Z) : bool :=
  forallb (fun k => swap (Z.shiftl b (8 * k)) =? Z.shiftl b (24 - 8 * k)) [0; 1; 2; 3].

Lemma swaps_bytes : forallb swaps_byte (map Z.of_nat (seq 0 256)) = true.
Proof. by vm_compute. Qed.

Lemma swap_byte b k : byte_ok b -> k ∈ [0; 1; 2; 3] -> swap (Z.shiftl b (8 * k)) = Z.shiftl b (24 - 8 * k).
Proof.
  intros Hb Hk. pose proof swaps_bytes as H. rewrite forallb_forall in H.
  specialize (H b). unfold swaps_byte in H. rewrite forallb_forall in H. apply Z.eqb_eq, H.
  - apply in_map_iff. exists (Z.to_nat b). unfold byte_ok in Hb. split; [lia|]. apply in_seq. lia.
  - by apply list_elem_of_In.
Qed.

Lemma add_byte a b : byte_ok b -> a * 256 + b = Z.lor (Z.shiftl a 8) b.
Proof.
  intros Hb. rewrite <- Z.shiftl_mul_pow2 with (n := 8) by lia.
  rewrite Z.add_nocarry_lxor, Z.lxor_lor; [done|..];
    apply Z.bits_inj'; intros n Hn; rewrite Z.land_spec, Z.bits_0; 
    (destruct (decide (n < 8)); [rewrite Z.shiftl_spec_low by lia; done|]);
    rewrite (Z.bits_above_log2 b n), andb_false_r; try done; unfold byte_ok in Hb; try lia;
    (destruct (decide (b = 0)) as [->|]; [simpl; lia|apply Z.log2_lt_pow2; [lia|]]);
    (eapply Z.lt_le_trans; [apply Hb|]; change 256 with (2 ^ 8); apply Z.pow_le_mono_r; lia).
Qed.

Lemma unbe_lor b0 b1 b2 b3 : bytes_ok [b0; b1; b2; b3] ->
  unbe [b0; b1; b2; b3] =
    Z.lor (Z.lor (Z.lor (Z.shiftl b0 (8 * 3)) (Z.shiftl b1 (8 * 2))) (Z.shiftl b2 (8 * 1))) (Z.shiftl b3 (8 * 0)).
Proof.
  intros H. unfold bytes_ok in H. rewrite !Forall_cons in H. destruct H as (H0 & H1 & H2 & H3 & _).
  unfold unbe. cbn [foldl]. rewrite Z.mul_0_l, Z.add_0_l.
  rewrite !add_byte, !Z.shiftl_lor, !Z.shiftl_shiftl by done. by rewrite Z.shiftl_0_r.
Qed.

(** Swapping the word a little-endian machine loads gives the word of the standard. *)
Lemma swap_load l : bytes_ok l -> length l = 4%nat -> swap (unbe (reverse l)) = unbe l.
Proof.
  intros H Hl. destruct l as [|b0 [|b1 [|b2 [|b3 [|]]]]]; try done.
  rewrite unbe_lor by done. change (reverse [b0; b1; b2; b3]) with [b3; b2; b1; b0].
  rewrite unbe_lor by (by apply (Forall_reverse _ [b0; b1; b2; b3])).
  unfold bytes_ok in H. rewrite !Forall_cons in H. destruct H as (H0 & H1 & H2 & H3 & _).
  rewrite !swap_lor, !swap_byte by (done || set_solver).
  change (24 - 8 * 3) with (8 * 0). change (24 - 8 * 2) with (8 * 1).
  change (24 - 8 * 1) with (8 * 2). change (24 - 8 * 0) with (8 * 3).
  apply Z.bits_inj'. intros k _. rewrite !Z.lor_spec. by repeat destruct (Z.testbit _ k).
Qed.

(** ** The message schedule *)

Section Schedule.
Variable m : bytes.

Lemma length_schedule n : length (schedule m n) = n.
Proof. induction n as [|n IH]; [done|]. cbn [schedule]. rewrite length_app, IH. simpl. lia. Qed.

Lemma schedule_lookup n t : (t < n)%nat -> schedule m n !!! t = W m t.
Proof.
  induction n as [|n IH]; intros Ht; [lia|]. destruct (decide (t = n)) as [->|]; [done|].
  cbn [schedule]. rewrite lookup_total_app_l by (rewrite length_schedule; lia). apply IH. lia.
Qed.

Lemma W_first t : (t < 16)%nat -> W m t = block_words m !!! t.
Proof.
  intros Ht. unfold W. cbn [schedule]. rewrite lookup_total_app_r by (by rewrite length_schedule).
  rewrite length_schedule, Nat.sub_diag. simpl. by rewrite (proj2 (Nat.ltb_lt _ _)).
Qed.

Lemma W_next t : (16 <= t)%nat ->
  W m t = rol (Z.lxor (Z.lxor (Z.lxor (W m (t - 3)) (W m (t - 8))) (W m (t - 14))) (W m (t - 16))) 1.
Proof.
  intros Ht. unfold W at 1. cbn [schedule]. rewrite lookup_total_app_r by (by rewrite length_schedule).
  rewrite length_schedule, Nat.sub_diag. simpl. rewrite (proj2 (Nat.ltb_ge _ _)) by done.
  by rewrite !schedule_lookup by lia.
Qed.
End Schedule.

(** ** The circular buffer *)

Section Transform.
Context {EN : Endian}.
Variable m : bytes.
Hypothesis m_ok : bytes_ok m.
Hypothesis m_length : length m = 64%nat.

(** Before round [i] the block holds the last sixteen words of the schedule, and the
    words of the block that have not been used yet. *)
Record window (i : nat) (block : list Z) : Prop := {
  window_length : length block = 16%nat;
  window_used t : (t < i <= t + 16)%nat -> block !!! Nat.land t 15 = W m t;
  window_fresh t : (i <= t < 16)%nat -> block !!! t = load_word (take 4 (drop (4 * t) m));
}.

Lemma land_15 t : Nat.land t 15 = (t mod 16)%nat.
Proof. change 15%nat with (Nat.ones 4). by rewrite Nat.land_ones. Qed.

Lemma lookup_words (f : nat -> Z) t : (t < 16)%nat -> map f (seq 0 16) !!! t = f t.
Proof.
  intros Ht. apply list_lookup_total_correct. rewrite list_lookup_fmap, lookup_seq_lt by done. done.
Qed.

Lemma window_init : window 0 (load_block m).
Proof.
  split; [done|lia|]. intros t Ht. unfold load_block. by rewrite lookup_words by lia.
Qed.

Lemma window_insert i block : window i block -> window (S i) (<[Nat.land i 15 := W m i]> block).
Proof.
  intros [Hl Hu Hf]. rewrite land_15 in *.
  assert (i mod 16 < 16)%nat by (apply Nat.mod_upper_bound; lia).
  split.
  - by rewrite length_insert.
  - intros t Ht. rewrite land_15. destruct (decide (t = i)) as [->|].
    + rewrite list_lookup_total_insert_eq; [done|lia].
    + rewrite list_lookup_total_insert_ne; [rewrite <- land_15; apply Hu; lia|].
      intros E. assert (t mod 16 <> i mod 16)%nat; [|done]. clear E.
      replace i with (t + (i - t))%nat by lia. intros E.
      pose proof (Nat.div_mod t 16 ltac:(lia)). pose proof (Nat.div_mod (t + (i - t)) 16 ltac:(lia)).
      assert (16 * ((t + (i - t)) / 16 - t / 16) = i - t)%nat by lia. lia.
  - intros t Ht. rewrite (Nat.mod_small i) by lia. rewrite list_lookup_total_insert_ne by lia. apply Hf. lia.
Qed.

Lemma blk0_window i block : (i < 16)%nat -> window i block ->
  let '(w, block') := blk0 block i in w = W m i /\ window (S i) block'.
Proof.
  intros Hi Hw. pose proof (window_insert i block Hw) as Hn.
  rewrite land_15, Nat.mod_small in Hn by done.
  pose proof (window_fresh i block Hw i ltac:(lia)) as Hb.
  assert (length (take 4 (drop (4 * i) m)) = 4%nat) as Hl by (rewrite length_take, length_drop; lia).
  assert (bytes_ok (take 4 (drop (4 * i) m))) as Hok by (by apply Forall_take, Forall_drop).
  assert (W m i = unbe (take 4 (drop (4 * i) m))) as HW.
  { rewrite W_first by done. unfold block_words. by rewrite lookup_words. }
  unfold blk0, load_word in *. destruct big_endian.
  - unfold big_endian_blk0. rewrite Hb, HW. split; [done|].
    rewrite HW, <- Hb in Hn. by rewrite list_insert_id in Hn
      by (apply list_lookup_lookup_total_lt; rewrite (window_length i block Hw); lia).
  - unfold little_endian_blk0. rewrite Hb. fold (swap (unbe (reverse (take 4 (drop (4 * i) m))))).
    rewrite swap_load by done. rewrite <- HW. done.
Qed.

Lemma blk_window i block : (16 <= i)%nat -> window i block ->
  let '(w, block') := blk block i in w = W m i /\ window (S i) block'.
Proof.
  intros Hi Hw. unfold blk.
  assert (forall k, (k < 16)%nat -> block !!! Nat.land (i + k) 15 = W m (i - (16 - k))) as H.
  { intros k Hk. rewrite <- (window_used i block Hw) by lia. rewrite !land_15. f_equal.
    replace (i + k)%nat with (i - (16 - k) + 1 * 16)%nat by lia. by rewrite Nat.Div0.mod_add. }
  rewrite !H by lia. pose proof (H 0%nat ltac:(lia)) as H0. rewrite Nat.add_0_r in H0. rewrite H0.
  change (16 - 13)%nat with 3%nat. change (16 - 8)%nat with 8%nat.
  change (16 - 2)%nat with 14%nat. change (16 - 0)%nat with 16%nat.
  rewrite <- W_next by done. split; [done|]. by apply window_insert.
Qed.

(** ** The rounds *)

(** The variables [v] to [z] of a round, by number, hold the working variables. *)
Definition rotated (v w x y z : nat) : Prop := [v; w; x; y; z] ≡ₚ [0; 1; 2; 3; 4]%nat.

Record holds (v w x y z : nat) (vars : list Z) (s : working) : Prop := {
  holds_length : length vars = 5%nat;
  holds_a : vars !!! v = wa s;
  holds_b : vars !!! w = wb s;
  holds_c : vars !!! x = wc s;
  holds_d : vars !!! y = wd s;
  holds_e : vars !!! z = we s;
}.

Lemma rotated_next v w x y z : rotated v w x y z -> rotated z v w x y.
Proof.
  unfold rotated. intros <-. change [v; w; x; y; z] with ([v; w; x; y] ++ [z]).
  apply (Permutation_cons_append [v; w; x; y] z).
Qed.

Lemma rotated_small v w x y z k : rotated v w x y z -> k ∈ [v; w; x; y; z] -> (k < 5)%nat.
Proof.
  unfold rotated. intros ->. rewrite !elem_of_cons. intros Hk. decompose [or] Hk; subst; try lia. set_solver.
Qed.

Lemma R_round f word k v w x y z i vars block s :
  rotated v w x y z -> holds v w x y z vars s -> window i block ->
  (forall b c d, f b c d = fips_f i b c d) -> k = fips_K i ->
  (let '(wd, block') := word block i in wd = W m i /\ window (S i) block') ->
  let '(vars', block') := R f word k v w x y z i (vars, block) in
  holds z v w x y vars' (fips_round m i s) /\ window (S i) block'.
Proof.
  intros Hp [Hl Ha Hb Hc Hd He] Hw Hf -> Hword. unfold R.
  destruct (word block i) as [wd' block'] eqn:E. destruct Hword as [-> Hn]. split; [|done].
  assert (NoDup [v; w; x; y; z]) as Hnd
    by (unfold rotated in Hp; rewrite Hp; apply (bool_decide_unpack _); by vm_compute).
  rewrite !NoDup_cons, !not_elem_of_cons in Hnd.
  assert (z < 5)%nat as Hz by (eapply rotated_small; [done|set_solver]).
  assert (w < 5)%nat as Hw5 by (eapply rotated_small; [done|set_solver]).
  set (vars1 := <[z := _]> vars). assert (length vars1 = 5%nat) as Hl1 by (unfold vars1; by rewrite length_insert).
  assert (vars1 !!! z = u32 (rol (wa s) 5 + fips_f i (wb s) (wc s) (wd s) + we s + fips_K i + W m i)) as Hz1.
  { unfold vars1. rewrite list_lookup_total_insert_eq by lia. rewrite Hf, Ha, Hb, Hc, Hd, He. f_equal. lia. }
  assert (forall j, j <> z -> vars1 !!! j = vars !!! j) as Hne.
  { intros j Hj. unfold vars1. by rewrite list_lookup_total_insert_ne. }
  clearbody vars1. split; simpl.
  - by rewrite length_insert.
  - by rewrite list_lookup_total_insert_ne by naive_solver.
  - rewrite list_lookup_total_insert_ne by naive_solver. rewrite Hne by naive_solver. done.
  - rewrite list_lookup_total_insert_eq by lia. rewrite Hne by naive_solver. by rewrite Hb.
  - rewrite list_lookup_total_insert_ne by naive_solver. rewrite Hne by naive_solver. done.
  - rewrite list_lookup_total_insert_ne by naive_solver. rewrite Hne by naive_solver. done.
Qed.

(** The macro of round [i]. *)
Definition R_of (i : nat) : nat -> nat -> nat -> nat -> nat -> nat -> transform_state -> transform_state :=
  if (i <? 16)%nat then R0 else if (i <? 20)%nat then R1 else if (i <? 40)%nat then R2
  else if (i <? 60)%nat then R3 else R4.

Fixpoint calls (n i v w x y z : nat) : list (transform_state -> transform_state) :=
  match n with
  | O => []
  | S n' => R_of i v w x y z i :: calls n' (S i) z v w x y
  end.

Lemma transform_rounds_calls : transform_rounds = calls 80 0 0 1 2 3 4.
Proof. reflexivity. Qed.

Lemma R_of_round i v w x y z vars block s :
  rotated v w x y z -> holds v w x y z vars s -> window i block ->
  let '(vars', block') := R_of i v w x y z i (vars, block) in
  holds z v w x y vars' (fips_round m i s) /\ window (S i) block'.
Proof.
  intros Hp Hh Hw. unfold R_of.
  destruct (Nat.ltb_spec i 16) as [Hi|Hi]; [|destruct (Nat.ltb_spec i 20) as [Hi1|Hi1];
    [|destruct (Nat.ltb_spec i 40) as [Hi2|Hi2]; [|destruct (Nat.ltb_spec i 60) as [Hi3|Hi3]]]];
  (apply R_round; [done|done|done| | |]);
  try (by apply blk0_window); try (by apply blk_window);
  unfold fips_f, fips_K; intros;
  repeat match goal with |- context [(?a <? ?b)%nat] => destruct (Nat.ltb_spec a b); try lia end;
  first [done|apply ch_code|apply maj_code].
Qed.

Lemma calls_rounds n : forall i v w x y z vars block s,
  rotated v w x y z -> holds v w x y z vars s -> window i block ->
  exists v' w' x' y' z', let '(vars', block') := foldl (fun s r => r s) (vars, block) (calls n i v w x y z) in
  rotated v' w' x' y' z' /\ Nat.iter n (fun '(v, w, x, y, z) => (z, v, w, x, y)) (v, w, x, y, z) = (v', w', x', y', z') /\
  holds v' w' x' y' z' vars' (foldl (fun s t => fips_round m t s) s (seq i n)) /\ window (i + n) block'.
Proof.
  induction n as [|n IH]; intros i v w x y z vars block s Hp Hh Hw.
  - exists v, w, x, y, z. rewrite Nat.add_0_r. done.
  - pose proof (R_of_round i v w x y z vars block s Hp Hh Hw) as Hr. cbn [calls foldl seq].
    destruct (R_of i v w x y z i (vars, block)) as [vars1 block1]. destruct Hr as [Hh1 Hw1].
    destruct (IH (S i) z v w x y vars1 block1 _ (rotated_next _ _ _ _ _ Hp) Hh1 Hw1) as (v' & w' & x' & y' & z' & H).
    exists v', w', x', y', z'. rewrite Nat.iter_succ_r, Nat.add_succ_r. exact H.
Qed.

(** One block: the unrolled code computes the compression function. *)
Lemma SHA1transform_compress state : length state = 5%nat -> SHA1transform state m = compress state m.
Proof.
  intros Hl. unfold SHA1transform, compress, fips_rounds. rewrite transform_rounds_calls.
  destruct (calls_rounds 80 0 0 1 2 3 4 state (load_block m) (of_vars state)) as (v & w & x & y & z & H).
  - by unfold rotated.
  - by split.
  - apply window_init.
  - destruct (foldl _ (state, load_block m) _) as [vars block]. destruct H as (_ & Hi & [Hlv Ha Hb Hc Hd He] & _).
    injection Hi as <- <- <- <- <-. revert Ha Hb Hc Hd He.
    generalize (foldl (fun s t => fips_round m t s) (of_vars state) (seq 0 80)).
    intros s Ha Hb Hc Hd He. f_equal. clear -Hlv Ha Hb Hc Hd He. destruct vars as [|a [|b [|c [|d [|e [|]]]]]]; try done. cbn in *. by subst.
Qed.
End Transform.

(** ** Messages in parts *)

Lemma be_app n k v : be (n + k) v = be n (v / 256 ^ Z.of_nat k) ++ be k v.
Proof.
  revert v. induction k as [|k IH]; intros v.
  - rewrite Nat.add_0_r, app_nil_r. simpl. by rewrite Z.div_1_r.
  - rewrite Nat.add_succ_r. cbn [be]. rewrite IH, app_assoc. do 3 f_equal.
    rewrite Nat2Z.inj_succ, Z.pow_succ_r by lia. rewrite Z.div_div by lia. done.
Qed.

Lemma be_mod n v : be n (v mod 256 ^ Z.of_nat n) = be n v.
Proof.
  revert v. induction n as [|n IH]; intros v; [done|]. cbn [be].
  rewrite Nat2Z.inj_succ, Z.pow_succ_r by lia. rewrite Z.rem_mul_r by lia.
  rewrite (Z.add_comm (v mod 256)), (Z.mul_comm 256), Z.div_add_l, (Z.div_small (v mod 256)), Z.add_0_r
    by (try apply Z.mod_pos_bound; lia).
  rewrite IH. f_equal. f_equal. rewrite Z.add_comm, Z.mod_add by lia. apply Z.mod_mod. lia.
Qed.

Lemma byte_of v k : 0 <= k -> Z.land (Z.shiftr v (k * 8)) 255 = (v / 256 ^ k) mod 256.
Proof.
  intros Hk. change 255 with (Z.ones 8). rewrite Z.land_ones, Z.shiftr_div_pow2 by lia.
  by rewrite Z.mul_comm, Z.pow_mul_r by lia.
Qed.

(** The four bytes of a word, as the code takes them. *)
Lemma word_bytes v : map (fun i => u8 (Z.land (Z.shiftr v ((3 - Z.land (Z.of_nat i) 3) * 8)) 255)) (seq 0 4) = be 4 v.
Proof.
  assert (forall z, u8 (z mod 256) = z mod 256) as H8 by (intros z; apply u8_small, Z.mod_pos_bound; lia).
  cbn [seq map be]. change (Z.land (Z.of_nat 0) 3) with 0. change (Z.land (Z.of_nat 1) 3) with 1.
  change (Z.land (Z.of_nat 2) 3) with 2. change (Z.land (Z.of_nat 3) 3) with 3.
  rewrite !byte_of, !H8 by lia. change (256 ^ (3 - 0)) with (256 * 256 * 256).
  change (256 ^ (3 - 1)) with (256 * 256). change (256 ^ (3 - 2)) with 256. change (256 ^ (3 - 3)) with 1.
  by rewrite Z.div_1_r, !Z.div_div by lia.
Qed.

Lemma digest_words s : length s = 5%nat -> digest s = concat (map (be 4) s).
Proof.
  intros Hl. destruct s as [|a [|b [|c [|d [|e [|]]]]]]; try done.
  cbn [map concat]. rewrite <- !word_bytes, app_nil_r. reflexivity.
Qed.

Lemma length_compress s m : length s = 5%nat -> length (compress s m) = 5%nat.
Proof. intros Hl. unfold compress. by rewrite length_zip_with, Hl. Qed.

Lemma length_compress_blocks n : forall s m, length s = 5%nat -> length (compress_blocks n s m) = 5%nat.
Proof. induction n as [|n IH]; intros s m Hl; [done|]. cbn [compress_blocks]. by apply IH, length_compress. Qed.

Lemma compress_blocks_add a b s m :
  compress_blocks (a + b) s m = compress_blocks b (compress_blocks a s m) (drop (64 * a) m).
Proof.
  revert s m. induction a as [|a IH]; intros s m; [by rewrite Nat.mul_0_r, drop_0|].
  cbn [Nat.add compress_blocks]. rewrite IH, drop_drop. do 2 f_equal. lia.
Qed.

Lemma compress_blocks_app n : forall s m d, (64 * n <= length m)%nat ->
  compress_blocks n s (m ++ d) = compress_blocks n s m.
Proof.
  induction n as [|n IH]; intros s m d Hl; [done|]. cbn [compress_blocks].
  rewrite take_app_le, drop_app_le by lia. apply IH. rewrite length_drop. lia.
Qed.

Lemma compress_block s m : (64 <= length m)%nat -> compress_blocks 1 s m = compress s (take 64 m).
Proof. done. Qed.

Lemma length_copy_at j data buffer : (j + length data <= length buffer)%nat ->
  length (copy_at j data buffer) = length buffer.
Proof. intros H. unfold copy_at. rewrite !length_app, length_take, length_drop. lia. Qed.

Lemma take_copy_at j data buffer : (j <= length buffer)%nat ->
  take (j + length data) (copy_at j data buffer) = take j buffer ++ data.
Proof.
  intros H. unfold copy_at. rewrite app_assoc. rewrite take_app_le by (rewrite length_app, length_take; lia).
  apply take_ge. rewrite length_app, length_take. lia.
Qed.

Section Updates.
Context {EN : Endian}.

Definition len8 (m : bytes) : Z := 8 * Z.of_nat (length m).

(** A context that has been given the message [m]. *)
Record given (c : sha1_ctx) (m : bytes) : Prop := {
  given_state : ctx_state c = compress_blocks (length m / 64) fips_init m;
  given_count0 : count0 c = u32 (len8 m);
  given_count1 : count1 c = u32 (len8 m / 2 ^ 32);
  given_buffer : length (ctx_buffer c) = 64%nat;
  given_rest : take (length m mod 64) (ctx_buffer c) = drop (64 * (length m / 64)) m;
  given_bytes : bytes_ok m;
}.

Lemma given_init garbage : length garbage = 64%nat -> given (SHA1_init garbage) [].
Proof. intros Hg. split; try done. constructor. Qed.

Lemma update_blocks_spec data : bytes_ok data -> forall fuel i s,
  length s = 5%nat -> (i <= length data)%nat -> (length data - i <= 64 * fuel)%nat ->
  let k := ((length data - i) / 64)%nat in
  update_blocks fuel i data s = ((i + 64 * k)%nat, compress_blocks k s (drop i data)).
Proof.
  intros Hd. induction fuel as [|fuel IH]; intros i s Hs Hi Hf; cbn [update_blocks].
  - replace (length data - i)%nat with 0%nat by lia. simpl. by rewrite Nat.add_0_r.
  - destruct (Nat.ltb_spec (i + 63) (length data)) as [H|H].
    + assert (length (take 64 (drop i data)) = 64%nat) as Hb by (rewrite length_take, length_drop; lia).
      rewrite SHA1transform_compress by (done || by apply Forall_take, Forall_drop).
      rewrite IH by (by apply length_compress || lia).
      replace ((length data - i) / 64)%nat with (1 + (length data - (i + 64)) / 64)%nat.
      * rewrite compress_blocks_add, drop_drop. f_equal; lia.
      * replace (length data - i)%nat with (1 * 64 + (length data - (i + 64)))%nat by lia.
        by rewrite Nat.div_add_l by lia.
    + rewrite Nat.div_small by lia. simpl. by rewrite Nat.add_0_r.
Qed.

Lemma given_index c m : given c m -> Z.to_nat (Z.land (Z.shiftr (count0 c) 3) 63) = (length m mod 64)%nat.
Proof.
  intros [_ H _ _ _ _]. rewrite H. unfold len8, u32. change 63 with (Z.ones 6).
  rewrite Z.land_ones, Z.shiftr_div_pow2 by lia.
  replace (2 ^ 32) with (8 * 2 ^ 29) by lia. rewrite Z.mul_mod_distr_l by lia.
  change (2 ^ 3) with 8. rewrite (Z.mul_comm 8), Z.div_mul by lia.
  change (2 ^ 29) with (2 ^ 6 * 2 ^ 23). rewrite Z.rem_mul_r by lia.
  rewrite (Z.mul_comm (2 ^ 6)), Z.mod_add, Z.mod_mod by lia.
  change (2 ^ 6) with (Z.of_nat 64). rewrite <- Nat2Z.inj_mod. lia.
Qed.

Lemma given_counts c m data : given c m -> Z.of_nat (length data) < 2 ^ 29 ->
  let n8 := u64 (Z.shiftl (Z.of_nat (length data)) 3) in
  let c0 := u32 (count0 c + n8) in
  c0 = u32 (len8 (m ++ data)) /\
  u32 ((if c0 <? n8 then u32 (count1 c + 1) else count1 c) + Z.shiftr (Z.of_nat (length data)) 29) =
    u32 (len8 (m ++ data) / 2 ^ 32).
Proof.
  intros [_ H0 H1 _ _ _] Hn. unfold len8 in *. rewrite length_app, Nat2Z.inj_add.
  rewrite Z.shiftl_mul_pow2, Z.shiftr_div_pow2 by lia. rewrite (Z.div_small _ (2 ^ 29)), Z.add_0_r by lia.
  change (2 ^ 3) with 8. rewrite u64_small by lia.
  set (M := Z.of_nat (length m)) in *. set (N := Z.of_nat (length data)) in *.
  assert (0 <= M /\ 0 <= N) as [HM HN] by lia. clearbody M N. cbv zeta.
  assert (u32 (count0 c + N * 8) = u32 (8 * (M + N))) as ->.
  { rewrite H0. unfold u32. rewrite Z.add_mod_idemp_l by lia. f_equal. lia. }
  split; [done|]. rewrite H1. clear H0 H1. unfold u32.
  pose proof (Z.div_mod (8 * M) (2 ^ 32) ltac:(lia)) as HdM.
  pose proof (Z.div_mod (8 * (M + N)) (2 ^ 32) ltac:(lia)) as HdS.
  pose proof (Z.mod_pos_bound (8 * M) (2 ^ 32) ltac:(lia)) as HbM.
  pose proof (Z.mod_pos_bound (8 * (M + N)) (2 ^ 32) ltac:(lia)) as HbS.
  destruct (Z.ltb_spec (8 * (M + N) mod 2 ^ 32) (N * 8)) as [Hc|Hc].
  - assert (8 * (M + N) / 2 ^ 32 = 8 * M / 2 ^ 32 + 1) as -> by lia.
    rewrite Z.mod_mod by lia. by rewrite Z.add_mod_idemp_l by lia.
  - assert (8 * (M + N) / 2 ^ 32 = 8 * M / 2 ^ 32) as -> by lia. by rewrite Z.mod_mod by lia.
Qed.

Lemma rest_buffer c m d : given c m -> (length m mod 64 + length d <= 64)%nat ->
  take (length m mod 64 + length d) (copy_at (length m mod 64) d (ctx_buffer c)) =
    drop (64 * (length m / 64)) (m ++ d).
Proof.
  intros [_ _ _ Hb Hr _] Hd. rewrite take_copy_at by lia. rewrite Hr.
  by rewrite drop_app_le by (pose proof (Nat.div_mod (length m) 64 ltac:(lia)); lia).
Qed.

(** The block that a long update completes. *)
Lemma first_block c m data : given c m -> bytes_ok data -> (63 < length m mod 64 + length data)%nat ->
  let j := (length m mod 64)%nat in
  let buffer := copy_at j (take (64 - j) data) (ctx_buffer c) in
  length buffer = 64%nat /\
  SHA1transform (ctx_state c) buffer = compress_blocks (length m / 64 + 1) fips_init (m ++ data).
Proof.
  intros Hg Hd Hl j buffer.
  pose proof (Nat.div_mod (length m) 64 ltac:(lia)) as Hdm. pose proof (Nat.mod_upper_bound (length m) 64 ltac:(lia)).
  fold j in Hdm, Hl.
  assert (length (take (64 - j) data) = (64 - j)%nat) as Ht by (rewrite length_take; lia).
  assert (length buffer = 64%nat) as Hbl.
  { unfold buffer. rewrite length_copy_at; rewrite (given_buffer _ _ Hg); lia. }
  split; [done|].
  assert (buffer = take 64 (drop (64 * (length m / 64)) (m ++ data))) as Hb.
  { pose proof (rest_buffer c m (take (64 - j) data) Hg ltac:(lia)) as H1. fold j in H1. fold buffer in H1.
    rewrite Ht, take_ge in H1 by lia. rewrite H1.
    rewrite !drop_app_le by lia. rewrite take_app, (take_ge (drop _ m)) by (rewrite length_drop; lia).
    do 2 f_equal. rewrite length_drop. lia. }
  assert (bytes_ok (m ++ data)) as Hok by (apply Forall_app; split; [apply Hg|done]).
  rewrite SHA1transform_compress.
  - rewrite (given_state _ _ Hg), compress_blocks_add, compress_blocks_app by lia. by rewrite Hb.
  - rewrite Hb. by apply Forall_take, Forall_drop.
  - done.
  - rewrite (given_state _ _ Hg). by apply length_compress_blocks.
Qed.

(** Feeding data extends the message. *)
Lemma given_update c m data : given c m -> bytes_ok data -> Z.of_nat (length data) < 2 ^ 29 ->
  given (SHA1_update c data) (m ++ data).
Proof.
  intros Hg Hd Hn. destruct (given_counts c m data Hg Hn) as [Hc0 Hc1].
  unfold SHA1_update, internal_update. rewrite (given_index c m Hg), Hc0 in *. rewrite Hc1. clear Hc0 Hc1.
  assert (bytes_ok (m ++ data)) as Hok by (apply Forall_app; split; [apply Hg|done]).
  pose proof (Nat.div_mod (length m) 64 ltac:(lia)) as Hdm. pose proof (Nat.mod_upper_bound (length m) 64 ltac:(lia)) as Hm.
  destruct (Nat.ltb_spec 63 (length m mod 64 + length data)) as [Hl|Hl].
  - destruct (first_block c m data Hg Hd Hl) as [Hbl Hs].
    set (i := (64 - length m mod 64)%nat) in *. rewrite Hs. rewrite update_blocks_spec by
      (done || lia || by apply length_compress_blocks).
    set (k := ((length data - i) / 64)%nat).
    pose proof (Nat.div_mod (length data - i) 64 ltac:(lia)) as Hk. fold k in Hk.
    pose proof (Nat.mod_upper_bound (length data - i) 64 ltac:(lia)) as Hr.
    assert (length (m ++ data) = 64 * (length m / 64 + 1 + k) + (length data - i) mod 64)%nat as Hlen
      by (rewrite length_app; lia).
    assert (length (m ++ data) / 64 = length m / 64 + 1 + k)%nat as Hq
      by (symmetry; apply (Nat.div_unique _ 64 _ ((length data - i) mod 64)); lia).
    assert (length (m ++ data) mod 64 = (length data - i) mod 64)%nat as Hmod
      by (symmetry; apply (Nat.mod_unique _ 64 (length m / 64 + 1 + k)); lia).
    assert (drop (64 * (length m / 64 + 1)) (m ++ data) = drop i data) as Hdrop
      by (rewrite drop_app_ge by lia; f_equal; lia).
    split; [|done|done| | |done]; cbn [ctx_state ctx_buffer].
    + rewrite Hq, (compress_blocks_add (length m / 64 + 1) k). by rewrite Hdrop.
    + rewrite length_copy_at; [done|]. rewrite length_drop. lia.
    + rewrite Hmod, Hq.
      replace ((length data - i) mod 64)%nat with (0 + length (drop (i + 64 * k) data))%nat by (rewrite length_drop; lia).
      rewrite take_copy_at by lia. rewrite take_0, app_nil_l.
      replace (64 * (length m / 64 + 1 + k))%nat with (64 * (length m / 64 + 1) + 64 * k)%nat by lia.
      by rewrite <- (drop_drop (m ++ data) (64 * k)), Hdrop, drop_drop.
  - assert (length (m ++ data) / 64 = length m / 64)%nat as Hq
      by (symmetry; apply (Nat.div_unique _ 64 _ (length m mod 64 + length data)); rewrite ?length_app; lia).
    assert (length (m ++ data) mod 64 = length m mod 64 + length data)%nat as Hmod
      by (symmetry; apply (Nat.mod_unique _ 64 (length m / 64)); rewrite ?length_app; lia).
    split; [|done|done| | |done]; cbn [ctx_state ctx_buffer].
    + rewrite Hq, compress_blocks_app by lia. apply Hg.
    + rewrite length_copy_at; rewrite (given_buffer _ _ Hg); lia.
    + rewrite Hmod, Hq. apply rest_buffer; [done|lia].
Qed.

Lemma given_parts parts : forall c m, given c m -> bytes_ok (concat parts) ->
  Forall (fun p => Z.of_nat (length p) < 2 ^ 29) parts ->
  given (foldl hasher_update c parts) (m ++ concat parts).
Proof.
  induction parts as [|p parts IH]; intros c m Hg Hok Hf; cbn [foldl concat].
  - by rewrite app_nil_r.
  - apply Forall_cons in Hf as [Hp Hf]. cbn [concat] in Hok. apply Forall_app in Hok as [Hok1 Hok2].
    rewrite app_assoc. apply IH; [by apply given_update|done|done].
Qed.

(** ** Padding *)

Lemma pad_loop_spec fuel : forall c m, given c m ->
  let z := Z.to_nat ((56 - Z.of_nat (length m)) mod 64) in (z <= fuel)%nat ->
  exists c', pad_loop fuel c = Ok c' /\ given c' (m ++ replicate z 0).
Proof.
  assert (forall c m, given c m ->
    (Z.land (count0 c) 504 =? 448) = bool_decide ((56 - Z.of_nat (length m)) mod 64 = 0)) as Htest.
  { intros c m Hg. change 504 with (Z.shiftl (Z.ones 6) 3). rewrite (given_count0 _ _ Hg). unfold u32, len8.
    replace (8 * Z.of_nat (length m)) with (Z.shiftl (Z.of_nat (length m)) 3) by (rewrite Z.shiftl_mul_pow2 by lia; lia).
    rewrite <- Z.land_ones by lia. rewrite (Z.land_comm _ (Z.ones 32)), <- Z.land_assoc, (Z.land_comm (Z.ones 32)).
    rewrite <- Z.shiftl_land, Z.land_ones by lia.
    rewrite Z.land_ones, Z.shiftl_mul_pow2 by lia.
    change (2 ^ 6) with 64. change (2 ^ 3) with 8. change (2 ^ 32) with 4294967296.
    pose proof (Z.mod_pos_bound (Z.of_nat (length m)) 64 ltac:(lia)).
    rewrite Z.mod_small by lia.
    apply eq_bool_prop_intro. rewrite bool_decide_spec, <- Zminus_mod_idemp_r.
    set (r := Z.of_nat (length m) mod 64) in *. split.
    - intros E%Is_true_true%Z.eqb_eq. replace (56 - r) with 0 by lia. done.
    - intros E. apply Is_true_true, Z.eqb_eq. apply Z.mod_divide in E as [q Hq]; lia. }
  induction fuel as [|fuel IH]; intros c m Hg z Hz; cbn [pad_loop]; rewrite (Htest c m Hg);
    (destruct (decide ((56 - Z.of_nat (length m)) mod 64 = 0)) as [E|E];
      [rewrite bool_decide_true by done; exists c; subst z; rewrite E; simpl; by rewrite app_nil_r|]);
    rewrite bool_decide_false by done;
    pose proof (Z.mod_pos_bound (56 - Z.of_nat (length m)) 64 ltac:(lia)).
  - exfalso. apply E. subst z. lia.
  - assert ((56 - Z.of_nat (length (m ++ [0]))) mod 64 = (56 - Z.of_nat (length m)) mod 64 - 1) as Hs.
    { rewrite length_app. simpl (length [0]). replace (56 - Z.of_nat (length m + 1)) with (56 - Z.of_nat (length m) - 1) by lia.
      rewrite <- Zminus_mod_idemp_l. rewrite Z.mod_small; lia. }
    destruct (IH (SHA1_update c [0]) (m ++ [0])) as (c' & -> & Hg').
    + apply given_update; [done|by repeat constructor|simpl; lia].
    + rewrite Hs. subst z. lia.
    + exists c'. split; [done|]. rewrite Hs, <- app_assoc in Hg'. subst z.
      replace (Z.to_nat ((56 - Z.of_nat (length m)) mod 64)) with (S (Z.to_nat ((56 - Z.of_nat (length m)) mod 64 - 1))) by lia.
      exact Hg'.
Qed.

Lemma finalcount_spec c m : given c m -> finalcount c = be 8 (len8 m).
Proof.
  intros Hg. change 8%nat with (4 + 4)%nat. rewrite be_app. change (256 ^ Z.of_nat 4) with (2 ^ 32).
  rewrite <- (be_mod 4 (len8 m)), <- (be_mod 4 (len8 m / 2 ^ 32)). change (256 ^ Z.of_nat 4) with (2 ^ 32).
  fold (u32 (len8 m)) (u32 (len8 m / 2 ^ 32)). rewrite <- (given_count0 _ _ Hg), <- (given_count1 _ _ Hg).
  rewrite <- !word_bytes. reflexivity.
Qed.

Lemma length_pad m : exists q, length (pad m) = (64 * q)%nat.
Proof.
  unfold pad. rewrite !length_app, length_replicate, length_be. simpl (length [128]).
  pose proof (Z.div_mod (55 - Z.of_nat (length m)) 64 ltac:(lia)).
  pose proof (Z.mod_pos_bound (55 - Z.of_nat (length m)) 64 ltac:(lia)).
  exists (Z.to_nat (1 - (55 - Z.of_nat (length m)) / 64)). lia.
Qed.

Lemma hasher_final_spec c m : given c m -> hasher_final c = Ok (fips_sha1 m).
Proof.
  intros Hg. unfold hasher_final, SHA1_final. rewrite (finalcount_spec c m Hg).
  assert (given (SHA1_update c [128]) (m ++ [128])) as H1
    by (apply given_update; [done|by repeat constructor|simpl; lia]).
  destruct (pad_loop_spec 64 _ _ H1) as (c' & -> & H2).
  { pose proof (Z.mod_pos_bound (56 - Z.of_nat (length (m ++ [128]))) 64 ltac:(lia)). lia. }
  cbn [mbind result_bind].
  assert (given (SHA1_update c' (be 8 (len8 m))) (pad m)) as H3.
  { replace (pad m) with (((m ++ [128]) ++ replicate (Z.to_nat ((56 - Z.of_nat (length (m ++ [128]))) mod 64)) 0) ++ be 8 (len8 m)).
    - apply given_update; [done|apply be_bytes_ok|rewrite length_be; lia].
    - unfold pad. rewrite <- !app_assoc. do 4 f_equal. rewrite length_app. simpl (length [128]). do 2 f_equal. lia. }
  rewrite (given_state _ _ H3). unfold fips_sha1. f_equal. apply digest_words. by apply length_compress_blocks.
Qed.
End Updates.

Lemma compress_length state m : length state = 5%nat -> length (compress state m) = 5%nat.
Proof. intros H. unfold compress. rewrite length_zip_with, H. done. Qed.

Lemma compress_blocks_length n : forall state m, length state = 5%nat -> length (compress_blocks n state m) = 5%nat.
Proof. induction n as [|n IH]; intros state m H; simpl; [done|]. by apply IH, compress_length. Qed.

Lemma fips_sha1_length m : length (fips_sha1 m) = 20%nat.
Proof.
  unfold fips_sha1. pose proof (compress_blocks_length (length (pad m) / 64) fips_init (pad m) eq_refl) as H.
  destruct (compress_blocks _ _ _) as [|a [|b [|c [|d [|e [|]]]]]]; done.
Qed.

Lemma fips_sha1_bytes m : bytes_ok (fips_sha1 m).
Proof.
  unfold fips_sha1. induction (compress_blocks _ _ _) as [|w l IH]; cbn [map concat]; [constructor|].
  apply Forall_app. split; [apply be_bytes_ok|done].
Qed.

Lemma hash_parts_digest {EN : Endian} garbage parts :
  length garbage = 64%nat -> bytes_ok (concat parts) ->
  Forall (fun p => Z.of_nat (length p) < 2 ^ 29) parts ->
  hash_parts garbage parts = Ok (fips_sha1 (concat parts)).
Proof.
  intros Hg Hok Hf. apply hasher_final_spec.
  apply (given_parts parts _ []); [by apply given_init|done|done].
Qed.

(** C8: The digest is that of the standard, however the data is cut into parts of less than
    2^29 bytes, on machines of either byte order, whatever the uninitialised buffer of
    the context held. *)
Theorem hasher_is_sha1 {EN : Endian} garbage parts :
  length garbage = 64%nat -> bytes_ok (concat parts) ->
  Forall (fun p => Z.of_nat (length p) < 2 ^ 29) parts ->
  hash_parts garbage parts = Ok (fips_sha1 (concat parts)).
Proof. apply hash_parts_digest. Qed.

(** The length is wrong after an update of 2^29 bytes or more: the carry is computed
    with the 64 bits of [len << 3], and 2^32 too many bits are counted. *)
Lemma long_update_miscounts {EN : Endian} garbage data :
  2 ^ 29 <= Z.of_nat (length data) < 2 ^ 61 ->
  count1 (SHA1_update (SHA1_init garbage) data) = u32 (len8 data / 2 ^ 32 + 1).
Proof.
  intros Hn. unfold SHA1_update, internal_update. cbn [count0 count1 SHA1_init].
  rewrite Z.shiftl_mul_pow2, (Z.shiftr_div_pow2 (Z.of_nat (length data))) by lia. change (2 ^ 3) with 8. rewrite u64_small by lia.
  pose proof (u32_range (0 + Z.of_nat (length data) * 8)).
  rewrite (proj2 (Z.ltb_lt _ _)) by lia. change (u32 (0 + 1)) with 1.
  assert (len8 data / 2 ^ 32 = Z.of_nat (length data) / 2 ^ 29) as ->.
  { unfold len8. change (2 ^ 32) with (8 * 2 ^ 29). by rewrite Z.div_mul_cancel_l by lia. }
  rewrite (Z.add_comm _ 1).
  destruct (63 <? _)%nat; [|done]. by destruct (update_blocks _ _ _ _).
Qed.

(** ** The test vector of the standard *)

Definition abc : bytes := [97; 98; 99].

Lemma sha1_abc : fips_sha1 abc =
  [0xA9; 0x99; 0x3E; 0x36; 0x47; 0x06; 0x81; 0x6A; 0xBA; 0x3E; 0x25; 0x71; 0x78; 0x50; 0xC2; 0x6C; 0x9C; 0xD0; 0xD8; 0x9D].
Proof. by vm_compute. Qed.

(** A little-endian machine; the message comes in two parts. *)
Lemma hasher_is_sha1_witness :
  hash_parts (H := false) (replicate 64 204) [[97; 98]; [99]] = Ok (fips_sha1 abc).
Proof.
  apply (hasher_is_sha1 (EN := false) (replicate 64 204) [[97; 98]; [99]]).
  - done.
  - decide_by_computation.
  - repeat constructor; simpl; lia.
Defined.
