(* ===== verification/Bdecode.v ===== *)
(** * The decoder of bencoded data

    [extern/libtorrent/src/bdecode.cpp] and [extern/libtorrent/include/libtorrent/bdecode.hpp]: the decoder that reads
    the torrent file and the tracker's responses.  It turns a buffer into a flat list of
    tokens; a node is an index into that list, and the accessors walk from token to
    token.  The assertions of the source are compiled out, so that an accessor does
    whatever its code does on a node of another type.  BdecodeSpec.v relates the tokens
    to the grammar. *)

From S2P Require Import Prelude.

(** ** Tokens *)

(** [extern/libtorrent/include/libtorrent/bdecode.hpp:117-138] bdecode_errors::error_code_enum *)
Inductive bdecode_error :=
  | no_error | expected_digit | expected_colon | unexpected_eof | expected_value
  | depth_exceeded | limit_exceeded | overflow.

#[global] Instance bdecode_error_eq_dec : EqDecision bdecode_error.
Proof. solve_decision. Defined.

(** [extern/libtorrent/include/libtorrent/bdecode.hpp:170-171] bdecode_token::type_t *)
Inductive token_type := T_none | T_dict | T_list | T_string | T_integer | T_end.

#[global] Instance token_type_eq_dec : EqDecision token_type.
Proof. solve_decision. Defined.

(** [extern/libtorrent/include/libtorrent/bdecode.hpp:175-175] bdecode_token::max_offset *)
Definition max_offset : Z := 2 ^ 29 - 1.
(** [extern/libtorrent/include/libtorrent/bdecode.hpp:176-176] bdecode_token::max_next_item *)
Definition max_next_item : Z := 2 ^ 29 - 1.
(** [extern/libtorrent/include/libtorrent/bdecode.hpp:177-177] bdecode_token::max_header *)
Definition max_header : Z := 2 ^ 3 - 1.

(** [extern/libtorrent/include/libtorrent/bdecode.hpp:213-232] bdecode_token
    The bit fields; a value is truncated when it is stored. *)
Record bdecode_token := mk_token { offset : Z; type_ : token_type; next_item : Z; header : Z }.

(** [extern/libtorrent/include/libtorrent/bdecode.hpp:193-209] bdecode_token::bdecode_token *)
Definition new_token (off next : Z) (t : token_type) (header_size : Z) : bdecode_token :=
  mk_token (off mod 2 ^ 29) t (next mod 2 ^ 29)
    (if bool_decide (t = T_string) then (header_size - 2) mod 2 ^ 3 else 0).

(** [extern/libtorrent/include/libtorrent/bdecode.hpp:180-191] bdecode_token::bdecode_token *)
Definition new_token_0 (off : Z) (t : token_type) : bdecode_token := mk_token (off mod 2 ^ 29) t 0 0.

(** [extern/libtorrent/include/libtorrent/bdecode.hpp:211-211] bdecode_token::start_offset *)
Definition start_offset (t : bdecode_token) : Z := header t + 2.

(** The assignment [token.next_item = n]. *)
Definition set_next_item (n : Z) (t : bdecode_token) : bdecode_token :=
  mk_token (offset t) (type_ t) (n mod 2 ^ 29) (header t).

(** ** Numbers

    A range [start, end) of the buffer is the list of its bytes; what a function returns
    for the new [start] is the number of bytes it has moved. *)

(** [extern/libtorrent/src/bdecode.cpp:52-52] numeric *)
Definition numeric (c : Z) : bool := (48 <=? c) && (c <=? 57).

(** [extern/libtorrent/src/bdecode.cpp:78-94] check_integer
    The digits; the result has the bytes moved, the number of digits and the error. *)
Fixpoint check_digits (s : bytes) (moved digits : nat) : nat * nat * bdecode_error :=
  match s with
  | [] => (moved, digits, unexpected_eof)
  | c :: s' =>
      if negb (numeric c) then (moved, digits, expected_digit)
      else match s' with
           | [] => (S moved, S digits, unexpected_eof)
           | c' :: _ =>
               if c' =? 101 then (S moved, S digits, no_error) else check_digits s' (S moved) (S digits)
           end
  end.

(** [extern/libtorrent/src/bdecode.cpp:58-102] check_integer *)
Definition check_integer (s : bytes) : nat * bdecode_error :=
  match s with
  | [] => (0%nat, unexpected_eof)
  | c :: s' =>
      let '(s, moved) := if c =? 45 then (s', 1%nat) else (s, 0%nat) in
      match s with
      | [] => (moved, unexpected_eof)
      | _ =>
          let '(moved, digits, e) := check_digits s moved 0 in
          (moved, if (20 <? digits)%nat then overflow else e)
      end
  end.

(** [std::numeric_limits<std::int64_t>::max()] *)
Definition int64_max : Z := 2 ^ 63 - 1.

(** [extern/libtorrent/src/bdecode.cpp:151-177] parse_int *)
Fixpoint parse_int (s : bytes) (delimiter val : Z) (moved : nat) : nat * Z * bdecode_error :=
  match s with
  | [] => (moved, val, no_error)
  | c :: s' =>
      if c =? delimiter then (moved, val, no_error)
      else if negb (numeric c) then (moved, val, expected_digit)
      else if Z.quot int64_max 10 <? val then (moved, val, overflow)
      else
        let val := val * 10 in
        let digit := c - 48 in
        if int64_max - digit <? val then (moved, val, overflow)
        else parse_int s' delimiter (val + digit) (S moved)
  end.

(** ** The parser *)

(** [extern/libtorrent/src/bdecode.cpp:104-113] stack_frame *)
Record stack_frame := mk_frame { frame_token : nat; frame_state : bool }.

(** The local variables of the loop: [start] as the bytes before and from it on; the
    stack from its bottom, [sp] is its length. *)
Record pstate := mk_pstate {
  p_start : Z;
  p_rest : bytes;
  p_tokens : list bdecode_token;
  p_stack : list stack_frame;
  p_limit : Z;
}.

(** How a turn of the loop ends: with another turn, with the end of the top level node,
    or with an error and its position. *)
Inductive turn_result :=
  | More (s : pstate)
  | Done (s : pstate)
  | Failed (s : pstate) (e : bdecode_error) (pos : Z).

(** [start += n] *)
Definition advance (n : nat) (s : pstate) : pstate :=
  mk_pstate (p_start s + Z.of_nat n) (drop n (p_rest s)) (p_tokens s) (p_stack s) (p_limit s).

(** [ret.m_tokens.push_back(t)] *)
Definition push_token (t : bdecode_token) (s : pstate) : pstate :=
  mk_pstate (p_start s) (p_rest s) (p_tokens s ++ [t]) (p_stack s) (p_limit s).

Definition set_stack (k : list stack_frame) (s : pstate) : pstate :=
  mk_pstate (p_start s) (p_rest s) (p_tokens s) k (p_limit s).

(** [TORRENT_FAIL_BDECODE(code)] *)
(** [extern/libtorrent/src/bdecode.cpp:746-750] TORRENT_FAIL_BDECODE *)
Definition fail (e : bdecode_error) (s : pstate) : turn_result := Failed s e (p_start s).

(** Whether the innermost of the first [n] frames is a dictionary's, and its state. *)
(** [extern/libtorrent/src/bdecode.cpp:811-814] bdecode *)
Definition dict_frame (n : nat) (s : pstate) : option bool :=
  match p_stack s !! pred n with
  | Some f =>
      if (0 <? n)%nat && bool_decide (type_ <$> p_tokens s !! frame_token f = Some T_dict)
      then Some (frame_state f) else None
  | None => None
  end.

(** [extern/libtorrent/src/bdecode.cpp:825-840] bdecode
    The cases ['d'] and ['l']. *)
Definition open_container (t : token_type) (s : pstate) : pstate + turn_result :=
  let s := set_stack (p_stack s ++ [mk_frame (length (p_tokens s)) false]) s in
  inl (advance 1 (push_token (new_token_0 (p_start s) t) s)).

(** [extern/libtorrent/src/bdecode.cpp:841-863] bdecode
    The case ['i']. *)
Definition parse_integer (s : pstate) : pstate + turn_result :=
  let '(moved, e) := check_integer (drop 1 (p_rest s)) in
  if bool_decide (e = no_error)
  then inl (advance (moved + 2) (push_token (new_token (p_start s) 1 T_integer 1) s))
  else inr (Failed s e (p_start s + 1 + Z.of_nat moved)).

(** [extern/libtorrent/src/bdecode.cpp:864-897] bdecode
    The case ['e']. *)
Definition close_container (s : pstate) : pstate + turn_result :=
  match last (p_stack s) with
  | None => inr (fail unexpected_eof s)
  | Some f =>
      if bool_decide (dict_frame (length (p_stack s)) s = Some true) then inr (fail expected_value s)
      else
        let s := push_token (new_token (p_start s) 1 T_end 0) s in
        let top := frame_token f in
        let next := Z.of_nat (length (p_tokens s)) - Z.of_nat top in
        if max_next_item <? next then inr (fail limit_exceeded s)
        else
          inl (advance 1 (mk_pstate (p_start s) (p_rest s)
            (alter (set_next_item next) top (p_tokens s)) (removelast (p_stack s)) (p_limit s)))
  end.

(** [extern/libtorrent/src/bdecode.cpp:898-938] bdecode
    The default case. *)
Definition parse_string (t : Z) (s : pstate) : pstate + turn_result :=
  if negb (numeric t) then inr (fail expected_value s)
  else
    let str_start := p_start s in
    let s := advance 1 s in
    match p_rest s with
    | [] => inr (fail unexpected_eof s)
    | _ =>
        let '(moved, len, e) := parse_int (p_rest s) 58 (t - 48) 0 in
        let s := advance moved s in
        if negb (bool_decide (e = no_error)) then inr (fail e s)
        else
          match p_rest s with
          | [] => inr (fail expected_colon s)
          | _ =>
              let buff_size := Z.of_nat (length (p_rest s)) - 1 in
              if buff_size <? len then inr (fail unexpected_eof s)
              else if len <? 0 then inr (fail overflow s)
              else
                let s := advance 1 s in
                if max_header <? p_start s - str_start - 2 then inr (fail limit_exceeded s)
                else
                  inl (advance (Z.to_nat len)
                    (push_token (new_token str_start 1 T_string (u8 (p_start s - str_start))) s))
          end
    end.

(** [extern/libtorrent/src/bdecode.cpp:823-939] bdecode
    The switch: the new state, or how the loop ends. *)
Definition parse_token (t : Z) (s : pstate) : pstate + turn_result :=
  if t =? 100 then open_container T_dict s
  else if t =? 108 then open_container T_list s
  else if t =? 105 then parse_integer s
  else if t =? 101 then close_container s
  else parse_string t s.

(** [extern/libtorrent/src/bdecode.cpp:941-947] bdecode
    Flip the state of the frame that was the innermost before the token; a frame that
    has been popped is dead. *)
Definition flip_state (current_frame : nat) (s : pstate) : pstate :=
  match dict_frame current_frame s with
  | Some _ => set_stack (alter (fun f => mk_frame (frame_token f) (negb (frame_state f))) (pred current_frame) (p_stack s)) s
  | None => s
  end.

(** [extern/libtorrent/src/bdecode.cpp:793-951] bdecode
    One turn of the loop. *)
Definition parse_turn (depth_limit : nat) (s : pstate) : turn_result :=
  match p_rest s with
  | [] => fail unexpected_eof s
  | t :: _ =>
      if (depth_limit <=? length (p_stack s))%nat then fail depth_exceeded s
      else
        let s := mk_pstate (p_start s) (p_rest s) (p_tokens s) (p_stack s) (p_limit s - 1) in
        if p_limit s <? 0 then fail limit_exceeded s
        else
          let current_frame := length (p_stack s) in
          if bool_decide (dict_frame current_frame s = Some false) && negb (numeric t) && negb (t =? 101)
          then fail expected_digit s
          else
            match parse_token t s with
            | inr r => r
            | inl s =>
                let s := flip_state current_frame s in
                match p_stack s with [] => Done s | _ => More s end
            end
  end.

(** [extern/libtorrent/src/bdecode.cpp:793-951] bdecode
    The loop: every turn takes at least one byte. *)
Fixpoint parse_loop (fuel depth_limit : nat) (s : pstate) : result (pstate * bdecode_error * Z) :=
  match parse_turn depth_limit s with
  | Failed s e pos => Ok (s, e, pos)
  | Done s => Ok (s, no_error, 0)
  | More s =>
      match fuel with
      | O => Fault OutOfFuel
      | S fuel' => parse_loop fuel' depth_limit s
      end
  end.

(** [extern/libtorrent/src/bdecode.cpp:955-976] bdecode
    Close the containers that are still open, from the innermost; a key without a value
    gets an empty dictionary. *)
Fixpoint unwind (start : Z) (frames : list stack_frame) (tokens : list bdecode_token) : list bdecode_token :=
  match frames with
  | [] => tokens
  | f :: frames' =>
      let tokens :=
        if bool_decide (type_ <$> tokens !! frame_token f = Some T_dict) && frame_state f
        then tokens ++ [new_token start 2 T_dict 0; new_token_0 start T_end] else tokens in
      let next := Z.of_nat (length tokens) - Z.of_nat (frame_token f) in
      unwind start frames' (alter (set_next_item next) (frame_token f) tokens ++ [new_token start 1 T_end 0])
  end.

(** ** Nodes *)

(** [extern/libtorrent/include/libtorrent/bdecode.hpp:381-406] bdecode_node
    The pointer to the root's tokens is the list it points to; [owning] says whether
    [m_tokens] holds it.  The caches are [mutable]: the accessors that use them return
    the changed node too. *)
Record bdecode_node := mk_node {
  owning : bool;
  m_root_tokens : list bdecode_token;
  m_buffer : bytes;
  m_buffer_size : Z;
  m_token_idx : Z;
  m_last_index : Z;
  m_last_token : Z;
  m_size : Z;
}.

(** [extern/libtorrent/include/libtorrent/bdecode.hpp:269-269] bdecode_node::bdecode_node *)
Definition node_none : bdecode_node := mk_node false [] [] 0 (-1) (-1) (-1) (-1).

(** [extern/libtorrent/src/bdecode.cpp:261-273] bdecode_node::bdecode_node *)
Definition node_at (tokens : list bdecode_token) (buf : bytes) (len idx : Z) : bdecode_node :=
  mk_node false tokens buf len idx (-1) (-1) (-1).

(** [extern/libtorrent/src/bdecode.cpp:767-986] bdecode
    The node, the error and its position. *)
Definition bdecode (depth_limit : nat) (token_limit : Z) (buffer : bytes) : result (bdecode_node * bdecode_error * Z) :=
  if max_offset <? Z.of_nat (length buffer) then Ok (node_none, limit_exceeded, 0)
  else
    '(s, ec, pos) ← parse_loop (length buffer) depth_limit (mk_pstate 0 buffer [] [] token_limit);
    let tokens := unwind (p_start s) (reverse (p_stack s)) (p_tokens s) in
    let tokens := tokens ++ [new_token (p_start s) 0 T_end 0] in
    Ok (mk_node true tokens buffer (p_start s) 0 (-1) (-1) (-1), ec, pos).

(** [extern/libtorrent/include/libtorrent/bdecode.hpp:442-444] bdecode
    With the default limits. *)
Definition bdecode_default (buffer : bytes) : result (bdecode_node * bdecode_error * Z) :=
  bdecode 100 2000000 buffer.

(** [extern/libtorrent/include/libtorrent/bdecode.hpp:279-292] bdecode_node::type_t
    The type of a token is cast to it; that of the end token has no name. *)
Inductive node_type := none_t | dict_t | list_t | string_t | int_t | unnamed_t.

#[global] Instance node_type_eq_dec : EqDecision node_type.
Proof. solve_decision. Defined.

Definition cast_type (t : token_type) : node_type :=
  match t with
  | T_none => none_t | T_dict => dict_t | T_list => list_t | T_string => string_t
  | T_integer => int_t | T_end => unnamed_t
  end.

(** The token at an index; outside the vector the read is undefined. *)
Definition token_at (n : bdecode_node) (i : Z) : result bdecode_token :=
  if i <? 0 then Fault DanglingIterator
  else match m_root_tokens n !! Z.to_nat i with Some t => Ok t | None => Fault DanglingIterator end.

(** [extern/libtorrent/src/bdecode.cpp:275-283] bdecode_node::non_owning *)
Definition non_owning (n : bdecode_node) : bdecode_node :=
  if negb (owning n) then n else node_at (m_root_tokens n) (m_buffer n) (m_buffer_size n) (m_token_idx n).

(** [extern/libtorrent/src/bdecode.cpp:285-293] bdecode_node::clear *)
Definition node_clear (n : bdecode_node) : bdecode_node :=
  mk_node false [] (m_buffer n) (m_buffer_size n) (-1) (-1) (-1) (-1).

(** [extern/libtorrent/src/bdecode.cpp:295-301] bdecode_node::switch_underlying_buffer *)
Definition switch_underlying_buffer (buf : bytes) (n : bdecode_node) : bdecode_node :=
  if negb (owning n) then n
  else mk_node true (m_root_tokens n) buf (m_buffer_size n) (m_token_idx n) (m_last_index n) (m_last_token n) (m_size n).

(** [extern/libtorrent/src/bdecode.cpp:392-396] bdecode_node::type *)
Definition node_type_of (n : bdecode_node) : result node_type :=
  if m_token_idx n =? -1 then Ok none_t else t ← token_at n (m_token_idx n); Ok (cast_type (type_ t)).

(** [extern/libtorrent/src/bdecode.cpp:398-399] bdecode_node::operator bool *)
Definition node_bool (n : bdecode_node) : bool := negb (m_token_idx n =? -1).

(** [extern/libtorrent/src/bdecode.cpp:117-120] token_source_span
    The offset of the next token in the vector less that of token [i]. *)
Definition token_source_span (n : bdecode_node) (i : Z) : result Z :=
  t ← token_at n i; t' ← token_at n (i + 1); Ok (offset t' - offset t).

(** [len] bytes of the buffer from [off] on. *)
Definition buffer_span (n : bdecode_node) (off len : Z) : bytes := take (Z.to_nat len) (drop (Z.to_nat off) (m_buffer n)).

(** [extern/libtorrent/src/bdecode.cpp:401-409] bdecode_node::data_section *)
Definition data_section (n : bdecode_node) : result bytes :=
  if m_token_idx n =? -1 then Ok []
  else
    t ← token_at n (m_token_idx n);
    next ← token_at n (m_token_idx n + next_item t);
    Ok (buffer_span n (offset t) (offset next - offset t)).

(** The walk of [list_at]: from [item] to [i]. *)
(** [extern/libtorrent/src/bdecode.cpp:430-437] bdecode_node::list_at *)
Fixpoint list_walk (n : bdecode_node) (count : nat) (token : Z) : result Z :=
  match count with
  | O => Ok token
  | S count' => t ← token_at n token; list_walk n count' (token + next_item t)
  end.

(** Where a walk to index [i] starts: the cached position, or the first item. *)
(** [extern/libtorrent/src/bdecode.cpp:419-428] bdecode_node::list_at *)
Definition walk_start (n : bdecode_node) (i : Z) : Z * Z :=
  if (m_last_index n <=? i) && negb (m_last_index n =? -1) then (m_last_token n, m_last_index n)
  else (m_token_idx n + 1, 0).

Definition set_cache (token index : Z) (n : bdecode_node) : bdecode_node :=
  mk_node (owning n) (m_root_tokens n) (m_buffer n) (m_buffer_size n) (m_token_idx n) index token (m_size n).

Definition set_size (size : Z) (n : bdecode_node) : bdecode_node :=
  mk_node (owning n) (m_root_tokens n) (m_buffer n) (m_buffer_size n) (m_token_idx n) (m_last_index n) (m_last_token n) size.

(** [extern/libtorrent/src/bdecode.cpp:411-443] bdecode_node::list_at *)
Definition list_at (i : Z) (n : bdecode_node) : result (bdecode_node * bdecode_node) :=
  let '(token, item) := walk_start n i in
  token ← list_walk n (Z.to_nat (i - item)) token;
  Ok (node_at (m_root_tokens n) (m_buffer n) (m_buffer_size n) token, set_cache token i n).

(** [while (tokens[token].type != end)]: the number of items from [token] to the end. *)
(** [extern/libtorrent/src/bdecode.cpp:481-485] bdecode_node::list_size *)
Fixpoint count_items (fuel : nat) (n : bdecode_node) (token ret : Z) : result Z :=
  t ← token_at n token;
  if bool_decide (type_ t = T_end) then Ok ret
  else match fuel with
       | O => Fault OutOfFuel
       | S fuel' => count_items fuel' n (token + next_item t) (ret + 1)
       end.

(** [extern/libtorrent/src/bdecode.cpp:461-490] bdecode_node::list_size *)
Definition list_size (n : bdecode_node) : result (Z * bdecode_node) :=
  if negb (m_size n =? -1) then Ok (m_size n, n)
  else
    let '(token, ret) :=
      if negb (m_last_index n =? -1) then (m_last_token n, m_last_index n) else (m_token_idx n + 1, 0) in
    ret ← count_items (length (m_root_tokens n)) n token ret;
    Ok (ret, set_size ret n).

(** [extern/libtorrent/src/bdecode.cpp:685-693] bdecode_node::string_value *)
Definition string_value (n : bdecode_node) : result bytes :=
  t ← token_at n (m_token_idx n);
  span ← token_source_span n (m_token_idx n);
  Ok (buffer_span n (offset t + start_offset t) (span - start_offset t)).

(** [extern/libtorrent/src/bdecode.cpp:703-709] bdecode_node::string_length *)
Definition string_length (n : bdecode_node) : result Z :=
  t ← token_at n (m_token_idx n);
  span ← token_source_span n (m_token_idx n);
  Ok (span - start_offset t).

(** [extern/libtorrent/src/bdecode.cpp:664-683] bdecode_node::int_value *)
Definition int_value (n : bdecode_node) : result Z :=
  t ← token_at n (m_token_idx n);
  size ← token_source_span n (m_token_idx n);
  let ptr := buffer_span n (offset t + 1) size in
  let negative := bool_decide (head ptr = Some 45) in
  let '(_, val, ec) := parse_int (if negative then drop 1 ptr else ptr) 101 0 0 in
  if negb (bool_decide (ec = no_error)) then Ok 0 else Ok (if negative then - val else val).

(** [extern/libtorrent/src/bdecode.cpp:445-451] bdecode_node::list_string_value_at *)
Definition list_string_value_at (i : Z) (default_val : bytes) (n : bdecode_node) : result (bytes * bdecode_node) :=
  '(v, n) ← list_at i n;
  t ← node_type_of v;
  if bool_decide (t = string_t) then s ← string_value v; Ok (s, n) else Ok (default_val, n).

(** [extern/libtorrent/src/bdecode.cpp:453-459] bdecode_node::list_int_value_at *)
Definition list_int_value_at (i : Z) (default_val : Z) (n : bdecode_node) : result (Z * bdecode_node) :=
  '(v, n) ← list_at i n;
  t ← node_type_of v;
  if bool_decide (t = int_t) then z ← int_value v; Ok (z, n) else Ok (default_val, n).

(** [extern/libtorrent/src/bdecode.cpp:510-525] bdecode_node::dict_at
    One item is a key and a value. *)
Fixpoint dict_walk (n : bdecode_node) (count : nat) (token : Z) : result Z :=
  match count with
  | O => Ok token
  | S count' =>
      k ← token_at n token;
      v ← token_at n (token + next_item k);
      dict_walk n count' (token + next_item k + next_item v)
  end.

(** [extern/libtorrent/src/bdecode.cpp:492-540] bdecode_node::dict_at *)
Definition dict_at (i : Z) (n : bdecode_node) : result (bytes * bdecode_node * bdecode_node) :=
  let '(token, item) := walk_start n i in
  token ← dict_walk n (Z.to_nat (i - item)) token;
  let n := if 0 <? i then set_cache token i n else n in
  k ← token_at n token;
  key ← string_value (node_at (m_root_tokens n) (m_buffer n) (m_buffer_size n) token);
  Ok (key, node_at (m_root_tokens n) (m_buffer n) (m_buffer_size n) (token + next_item k), n).

(** [extern/libtorrent/src/bdecode.cpp:542-578] bdecode_node::dict_size *)
Definition dict_size (n : bdecode_node) : result (Z * bdecode_node) :=
  if negb (m_size n =? -1) then Ok (m_size n, n)
  else
    let '(token, ret) :=
      if negb (m_last_index n =? -1) then (m_last_token n, m_last_index n * 2) else (m_token_idx n + 1, 0) in
    ret ← count_items (length (m_root_tokens n)) n token ret;
    Ok (Z.quot ret 2, set_size (Z.quot ret 2) n).

(** [extern/libtorrent/src/bdecode.cpp:589-611] bdecode_node::dict_find
    [fuel] turns; the result is the index of the value. *)
Fixpoint dict_search (fuel : nat) (n : bdecode_node) (key : bytes) (token : Z) : result (option Z) :=
  t ← token_at n token;
  if bool_decide (type_ t = T_end) then Ok None
  else
    span ← token_source_span n token;
    let size := span - start_offset t in
    if (Z.of_nat (length key) =? size) && bool_decide (key = buffer_span n (offset t + start_offset t) size)
    then Ok (Some (token + next_item t))
    else
      v ← token_at n (token + next_item t);
      match fuel with
      | O => Fault OutOfFuel
      | S fuel' => dict_search fuel' n key (token + next_item t + next_item v)
      end.

(** [extern/libtorrent/src/bdecode.cpp:580-614] bdecode_node::dict_find *)
Definition dict_find (key : bytes) (n : bdecode_node) : result bdecode_node :=
  found ← dict_search (length (m_root_tokens n)) n key (m_token_idx n + 1);
  Ok (match found with
      | Some token => node_at (m_root_tokens n) (m_buffer n) (m_buffer_size n) token
      | None => node_none
      end).

(** The value of a key if it has a type. *)
Definition dict_find_type (t : node_type) (key : bytes) (n : bdecode_node) : result bdecode_node :=
  ret ← dict_find key n;
  t' ← node_type_of ret;
  Ok (if bool_decide (t' = t) then ret else node_none).

(** [extern/libtorrent/src/bdecode.cpp:616-622] bdecode_node::dict_find_list *)
Definition dict_find_list : bytes -> bdecode_node -> result bdecode_node := dict_find_type list_t.
(** [extern/libtorrent/src/bdecode.cpp:624-630] bdecode_node::dict_find_dict *)
Definition dict_find_dict : bytes -> bdecode_node -> result bdecode_node := dict_find_type dict_t.
(** [extern/libtorrent/src/bdecode.cpp:632-638] bdecode_node::dict_find_string *)
Definition dict_find_string : bytes -> bdecode_node -> result bdecode_node := dict_find_type string_t.
(** [extern/libtorrent/src/bdecode.cpp:640-646] bdecode_node::dict_find_int *)
Definition dict_find_int : bytes -> bdecode_node -> result bdecode_node := dict_find_type int_t.

(** [extern/libtorrent/src/bdecode.cpp:648-654] bdecode_node::dict_find_string_value *)
Definition dict_find_string_value (key default_value : bytes) (n : bdecode_node) : result bytes :=
  v ← dict_find key n;
  t ← node_type_of v;
  if bool_decide (t = string_t) then string_value v else Ok default_value.

(** [extern/libtorrent/src/bdecode.cpp:656-662] bdecode_node::dict_find_int_value *)
Definition dict_find_int_value (key : bytes) (default_val : Z) (n : bdecode_node) : result Z :=
  v ← dict_find key n;
  t ← node_type_of v;
  if bool_decide (t = int_t) then int_value v else Ok default_val.
