(* ===== verification/BdecodeSpec.v ===== *)
(** * Bencoded data: the grammar

    The grammar of bencoded data, as a relation between the bytes of a value, the
    tokens the decoder makes of them and the value; and the decoder of Bdecode.v
    accepts exactly the buffers that start with such bytes. *)

From S2P Require Import Prelude Bdecode.

(** ** Values *)

#[warnings="-register-all"]
Inductive bvalue :=
  | BInt (z : Z)
  | BStr (s : bytes)
  | BList (l : list bvalue)
  | BDict (l : list (bytes * bvalue)).

(** How deep containers are nested in a value. *)
Fixpoint depth (v : bvalue) : nat :=
  match v with
  | BInt _ | BStr _ => 0
  | BList l => S (foldr (fun v n => Nat.max (depth v) n) 0%nat l)
  | BDict l => S (foldr (fun kv n => Nat.max (depth kv.2) n) 0%nat l)
  end.

(** ** The grammar *)

Definition digits (ds : bytes) : Prop := Forall (fun c => numeric c = true) ds.

(** The text of an integer: at most twenty digits after an optional sign. *)
Definition int_text (negative : bool) (ds : bytes) : bytes := (if negative then [45] else []) ++ ds.
Definition int_digits (ds : bytes) : Prop := digits ds /\ (1 <= length ds <= 20)%nat.

(** Its value; what does not fit 64 bits counts as zero. *)
Definition int_of (negative : bool) (ds : bytes) : Z :=
  if int64_max <? number ds then 0 else if negative then - number ds else number ds.

(** The length prefix of a string: at most eight digits. *)
Definition len_digits (ds s : bytes) : Prop :=
  digits ds /\ (1 <= length ds <= 8)%nat /\ number ds = Z.of_nat (length s).

Definition container (t : token_type) (o : Z) (ts : list bdecode_token) (e : Z) : list bdecode_token :=
  set_next_item (Z.of_nat (length ts) + 2) (new_token_0 o t) :: ts ++ [new_token e 1 T_end 0].

(** [item o s ts v]: the bytes [s] at offset [o] of the buffer have the tokens [ts] and
    the value [v]. *)
Inductive item : Z -> bytes -> list bdecode_token -> bvalue -> Prop :=
  | item_int o negative ds : int_digits ds ->
      item o (105 :: int_text negative ds ++ [101]) [new_token o 1 T_integer 1] (BInt (int_of negative ds))
  | item_str o ds s : len_digits ds s ->
      item o (ds ++ 58 :: s) [new_token o 1 T_string (Z.of_nat (length ds) + 1)] (BStr s)
  | item_list o s ts l : items (o + 1) s ts l -> Z.of_nat (length ts) + 2 <= max_next_item ->
      item o (108 :: s ++ [101]) (container T_list o ts (o + 1 + Z.of_nat (length s))) (BList l)
  | item_dict o s ts l : pairs (o + 1) s ts l -> Z.of_nat (length ts) + 2 <= max_next_item ->
      item o (100 :: s ++ [101]) (container T_dict o ts (o + 1 + Z.of_nat (length s))) (BDict l)
with items : Z -> bytes -> list bdecode_token -> list bvalue -> Prop :=
  | items_nil o : items o [] [] []
  | items_cons o s ts v s' ts' l : item o s ts v -> items (o + Z.of_nat (length s)) s' ts' l ->
      items o (s ++ s') (ts ++ ts') (v :: l)
with pairs : Z -> bytes -> list bdecode_token -> list (bytes * bvalue) -> Prop :=
  | pairs_nil o : pairs o [] [] []
  | pairs_cons o ks kts k s ts v s' ts' l :
      item o ks kts (BStr k) -> item (o + Z.of_nat (length ks)) s ts v ->
      pairs (o + Z.of_nat (length ks) + Z.of_nat (length s)) s' ts' l ->
      pairs o (ks ++ s ++ s') (kts ++ ts ++ ts') ((k, v) :: l).

Scheme item_mut := Minimality for item Sort Prop
  with items_mut := Minimality for items Sort Prop
  with pairs_mut := Minimality for pairs Sort Prop.
Combined Scheme grammar_ind from item_mut, items_mut, pairs_mut.

Lemma items_snoc o s ts l s' ts' v : items o s ts l -> item (o + Z.of_nat (length s)) s' ts' v ->
  items o (s ++ s') (ts ++ ts') (l ++ [v]).
Proof.
  intros H. induction H as [o|o s ts v0 s0 ts0 l Hi Hl IH]; intros Hv.
  - rewrite Z.add_0_r in Hv. rewrite <- (app_nil_r s'), <- (app_nil_r ts').
    rewrite !app_nil_l. eapply items_cons; [done|constructor].
  - rewrite <- !app_assoc. eapply items_cons; [done|]. apply IH.
    by rewrite length_app, Nat2Z.inj_add, Z.add_assoc in Hv.
Qed.

Lemma pairs_snoc o s ts l ks kts k s' ts' v : pairs o s ts l ->
  item (o + Z.of_nat (length s)) ks kts (BStr k) ->
  item (o + Z.of_nat (length s) + Z.of_nat (length ks)) s' ts' v ->
  pairs o (s ++ ks ++ s') (ts ++ kts ++ ts') (l ++ [(k, v)]).
Proof.
  intros H. induction H as [o|o ks0 kts0 k0 s0 ts0 v0 s1 ts1 l Hk0 Hv0 Hl IH]; intros Hk Hv.
  - rewrite !Z.add_0_r in *. simpl. rewrite <- (app_nil_r s'), <- (app_nil_r ts').
    eapply pairs_cons; [done|done|constructor].
  - rewrite !length_app, !Nat2Z.inj_add, !Z.add_assoc in *. rewrite <- !app_assoc.
    eapply pairs_cons; [done|done|]. by apply IH.
Qed.

(** ** Facts about the tokens of an item *)

Definition token_of (v : bvalue) : token_type :=
  match v with BInt _ => T_integer | BStr _ => T_string | BList _ => T_list | BDict _ => T_dict end.

Lemma grammar_lengths :
  (forall o s ts v, item o s ts v -> (1 <= length ts <= length s)%nat) /\
  (forall o s ts l, items o s ts l -> (length ts <= length s)%nat) /\
  (forall o s ts l, pairs o s ts l -> (length ts <= length s)%nat).
Proof.
  apply grammar_ind; intros; unfold container in *; simpl; rewrite ?length_app in *; simpl in *; rewrite ?length_app; simpl; lia.
Qed.

Lemma item_lengths o s ts v : item o s ts v -> (1 <= length ts <= length s)%nat.
Proof. apply grammar_lengths. Qed.

(** The first token of an item. *)
Lemma item_head o s ts v : item o s ts v -> exists t ts',
  ts = t :: ts' /\ type_ t = token_of v /\ offset t = o mod 2 ^ 29 /\ next_item t = Z.of_nat (length ts).
Proof.
  intros H. assert (forall n, 0 <= n -> n + 2 <= max_next_item -> (n + 2) mod 2 ^ 29 = n + 2) as Hmod.
  { unfold max_next_item. intros n Hn1 Hn2. apply Z.mod_small. lia. }
  destruct H as [o neg ds Hd|o ds s Hd|o s ts l Hl Hm|o s ts l Hl Hm]; unfold container; do 2 eexists;
    (split; [reflexivity|]); (split; [done|]); (split; [done|]); [done|done|..];
    cbn [next_item set_next_item length]; rewrite Hmod by lia; rewrite length_app; simpl; lia.
Qed.

(** ** Reading numbers *)

Lemma numeric_bounds c : numeric c = true <-> 48 <= c <= 57.
Proof. unfold numeric. rewrite andb_true_iff, !Z.leb_le. done. Qed.

Definition number_from (n : Z) (ds : bytes) : Z := foldl (fun n c => n * 10 + (c - 48)) n ds.

Lemma number_from_ge ds : forall n, digits ds -> 0 <= n -> n <= number_from n ds.
Proof.
  induction ds as [|d ds IH]; intros n Hd Hn; [done|]. apply Forall_cons in Hd as [Hd%numeric_bounds Hds].
  cbn [number_from foldl]. fold (number_from (n * 10 + (d - 48)) ds).
  pose proof (IH (n * 10 + (d - 48)) Hds ltac:(lia)). lia.
Qed.

(** [parse_int] over digits up to the delimiter: their value, or an overflow. *)
Lemma parse_int_digits ds r delimiter : numeric delimiter = false -> (r = [] \/ head r = Some delimiter) ->
  forall val moved, digits ds -> 0 <= val <= int64_max ->
  (number_from val ds <= int64_max ->
    parse_int (ds ++ r) delimiter val moved = ((moved + length ds)%nat, number_from val ds, no_error)) /\
  (int64_max < number_from val ds -> exists moved' val', parse_int (ds ++ r) delimiter val moved = (moved', val', overflow)).
Proof.
  intros Hdel Hr. induction ds as [|d ds IH]; intros val moved Hd Hv.
  - simpl. rewrite Nat.add_0_r. split; [|lia]. intros _.
    destruct Hr as [->|Hr]; [done|]. destruct r as [|c r]; [done|]. simpl in *. injection Hr as ->.
    by rewrite Z.eqb_refl.
  - apply Forall_cons in Hd as [Hd Hds]. pose proof (proj1 (numeric_bounds d) Hd).
    cbn [app parse_int number_from foldl length]. fold (number_from (val * 10 + (d - 48)) ds).
    assert ((d =? delimiter) = false) as -> by (apply Z.eqb_neq; intros ->; congruence).
    rewrite Hd. cbn [negb]. change (Z.quot int64_max 10) with 922337203685477580.
    assert (Hge : forall n, 0 <= n -> n <= number_from n ds) by (intros; by apply number_from_ge).
    unfold int64_max in *.
    destruct (Z.ltb_spec 922337203685477580 val) as [H1|H1].
    { split; [|by eauto]. pose proof (Hge (val * 10 + (d - 48)) ltac:(lia)). intros; exfalso; lia. }
    destruct (Z.ltb_spec (2 ^ 63 - 1 - (d - 48)) (val * 10)) as [H2|H2].
    { split; [|by eauto]. pose proof (Hge (val * 10 + (d - 48)) ltac:(lia)). intros; exfalso; lia. }
    destruct (IH (val * 10 + (d - 48)) (S moved) Hds ltac:(lia)) as [IH1 IH2].
    split; [|done]. intros Hle. rewrite IH1 by done. do 2 f_equal. lia.
Qed.

(** What [parse_int] has read when it succeeds. *)
Lemma parse_int_ok s delimiter : forall val moved moved' val', 0 <= val <= int64_max ->
  parse_int s delimiter val moved = (moved', val', no_error) ->
  exists ds r, s = ds ++ r /\ digits ds /\ moved' = (moved + length ds)%nat /\ val' = number_from val ds /\
    (r = [] \/ head r = Some delimiter) /\ 0 <= val' <= int64_max.
Proof.
  induction s as [|c s IH]; intros val moved moved' val' Hv H; cbn [parse_int] in H.
  - injection H as <- <-. exists [], []. rewrite Nat.add_0_r. split_and!; try done; try lia. constructor. by left.
  - destruct (Z.eqb_spec c delimiter) as [->|Hc].
    { injection H as <- <-. exists [], (delimiter :: s). rewrite Nat.add_0_r.
      split_and!; try done; try lia. constructor. by right. }
    destruct (numeric c) eqn:Hn; [|done]. cbn [negb] in H.
    destruct (_ <? val); [done|]. destruct (_ <? val * 10) eqn:H2; [done|].
    apply Z.ltb_ge in H2. pose proof (proj1 (numeric_bounds c) Hn).
    destruct (IH (val * 10 + (c - 48)) (S moved) moved' val' ltac:(lia) H) as (ds & r & -> & Hds & -> & -> & Hr & Hv').
    exists (c :: ds), r. split_and!; try done; try lia; [by constructor|simpl; lia].
Qed.

Lemma check_digits_ok ds r : forall moved n, digits ds -> (1 <= length ds)%nat ->
  check_digits (ds ++ 101 :: r) moved n = ((moved + length ds)%nat, (n + length ds)%nat, no_error).
Proof.
  induction ds as [|d ds IH]; intros moved n Hd Hl; simpl in Hl; [lia|].
  apply Forall_cons in Hd as [Hd Hds]. cbn [app check_digits length]. rewrite Hd. cbn [negb].
  destruct ds as [|d' ds].
  - simpl. do 2 f_equal; [f_equal|]; lia.
  - apply Forall_cons in Hds as Hd'. destruct Hd' as [Hd' _]. pose proof (proj1 (numeric_bounds d') Hd').
    cbn [app] in IH |- *. rewrite (proj2 (Z.eqb_neq d' 101)) by lia.
    rewrite (IH (S moved) (S n)) by (done || simpl; lia). simpl. do 2 f_equal; [f_equal|]; lia.
Qed.

Lemma check_digits_inv s : forall moved n moved' n', check_digits s moved n = (moved', n', no_error) ->
  exists ds r, s = ds ++ 101 :: r /\ digits ds /\ (1 <= length ds)%nat /\
    moved' = (moved + length ds)%nat /\ n' = (n + length ds)%nat.
Proof.
  induction s as [|c s IH]; intros moved n moved' n' H; cbn [check_digits] in H; [done|].
  destruct (numeric c) eqn:Hn; [|done]. cbn [negb] in H. destruct s as [|c' s]; [done|].
  destruct (Z.eqb_spec c' 101) as [->|Hc].
  - injection H as <- <-. exists [c], s. split_and!; simpl; try done; try lia. by constructor.
  - destruct (IH _ _ _ _ H) as (ds & r & -> & Hds & Hl & -> & ->).
    exists (c :: ds), r. split_and!; simpl; try done; try lia. by constructor.
Qed.

(** [check_integer] accepts exactly the texts of integers. *)
Lemma check_integer_ok negative ds r : int_digits ds ->
  check_integer (int_text negative ds ++ 101 :: r) = (length (int_text negative ds), no_error).
Proof.
  intros [Hd Hl]. destruct ds as [|d ds]; [simpl in Hl; lia|].
  apply Forall_cons in Hd as Hd'. destruct Hd' as [Hd' _]. pose proof (proj1 (numeric_bounds d) Hd').
  unfold check_integer, int_text. destruct negative; cbn [app].
  - rewrite Z.eqb_refl. change (d :: ds ++ 101 :: r) with ((d :: ds) ++ 101 :: r).
    rewrite check_digits_ok by (done || lia). rewrite (proj2 (Nat.ltb_ge _ _)) by lia. done.
  - rewrite (proj2 (Z.eqb_neq d 45)) by lia. change (d :: ds ++ 101 :: r) with ((d :: ds) ++ 101 :: r).
    rewrite check_digits_ok by (done || lia). rewrite (proj2 (Nat.ltb_ge _ _)) by lia. done.
Qed.

Lemma check_integer_inv s moved : check_integer s = (moved, no_error) ->
  exists negative ds r, s = int_text negative ds ++ 101 :: r /\ int_digits ds /\ moved = length (int_text negative ds).
Proof.
  unfold check_integer. intros H. destruct s as [|c s]; [done|].
  destruct (Z.eqb_spec c 45) as [->|Hc].
  - destruct s as [|c' s]; [done|]. destruct (check_digits _ _ _) as [[moved' n'] e] eqn:E.
    destruct (Nat.ltb_spec 20 n'); [done|]. injection H as <- ->.
    apply check_digits_inv in E as (ds & r & -> & Hds & Hl & -> & ->).
    exists true, ds, r. split; [done|]. split; [split; [done|lia]|done].
  - destruct (check_digits _ _ _) as [[moved' n'] e] eqn:E.
    destruct (Nat.ltb_spec 20 n'); [done|]. injection H as <- ->.
    apply check_digits_inv in E as (ds & r & -> & Hds & Hl & -> & ->).
    exists false, ds, r. split; [done|]. split; [split; [done|lia]|done].
Qed.

(** ** Single tokens *)

(** The state after [n] bytes that gave the tokens [ts]. *)
Definition ate (n : nat) (ts : list bdecode_token) (s : pstate) : pstate :=
  mk_pstate (p_start s + Z.of_nat n) (drop n (p_rest s)) (p_tokens s ++ ts) (p_stack s) (p_limit s).

Lemma parse_integer_ok s negative ds r : p_rest s = 105 :: int_text negative ds ++ 101 :: r -> int_digits ds ->
  parse_integer s = inl (ate (length (int_text negative ds) + 2) [new_token (p_start s) 1 T_integer 1] s).
Proof.
  intros Hr Hd. unfold parse_integer. rewrite Hr. cbn [skipn]; rewrite ?drop_0. rewrite check_integer_ok by done.
  rewrite bool_decide_true by done. done.
Qed.

Lemma parse_integer_inv s s' r0 : p_rest s = 105 :: r0 -> parse_integer s = inl s' ->
  exists negative ds r, r0 = int_text negative ds ++ 101 :: r /\ int_digits ds /\
    s' = ate (length (int_text negative ds) + 2) [new_token (p_start s) 1 T_integer 1] s.
Proof.
  intros Hr H. unfold parse_integer in H. rewrite Hr in H. cbn [skipn] in H; rewrite ?drop_0 in H.
  destruct (check_integer r0) as [moved e] eqn:E. case_bool_decide; [|done]. subst e.
  apply check_integer_inv in E as (negative & ds & r & -> & Hd & ->).
  exists negative, ds, r. split; [done|]. split; [done|]. by injection H as <-.
Qed.

Lemma u8_prefix n : (1 <= n <= 8)%nat -> u8 (Z.of_nat n + 1) = Z.of_nat n + 1.
Proof. intros Hn. apply u8_small. lia. Qed.

Lemma number_from_lt ds : forall n, digits ds -> 0 <= n -> number_from n ds < (n + 1) * 10 ^ Z.of_nat (length ds).
Proof.
  induction ds as [|d ds IH]; intros n Hd Hn; [simpl; lia|]. apply Forall_cons in Hd as [Hd%numeric_bounds Hds].
  cbn [number_from foldl]. fold (number_from (n * 10 + (d - 48)) ds).
  pose proof (IH (n * 10 + (d - 48)) Hds ltac:(lia)). cbn [length].
  rewrite Nat2Z.inj_succ, Z.pow_succ_r by lia. nia.
Qed.

Lemma len_digits_bound ds str : len_digits ds str -> Z.of_nat (length str) < 10 ^ 8.
Proof.
  intros (Hd & Hl & Hn). rewrite <- Hn. pose proof (number_from_lt ds 0 Hd ltac:(lia)) as H.
  unfold number. fold (number_from 0 ds). eapply Z.lt_le_trans; [exact H|]. rewrite Z.mul_1_l.
  apply Z.pow_le_mono_r; lia.
Qed.

Lemma advance_rest n s l r : p_rest s = l ++ r -> length l = n -> p_rest (advance n s) = r.
Proof. intros H <-. simpl. by rewrite H, drop_app_length. Qed.

Lemma parse_string_ok s d ds str r : p_rest s = (d :: ds) ++ 58 :: str ++ r -> len_digits (d :: ds) str ->
  parse_string d s = inl (ate (length (d :: ds) + 1 + length str)
    [new_token (p_start s) 1 T_string (Z.of_nat (length (d :: ds)) + 1)] s).
Proof.
  intros Hr Hlen. pose proof (len_digits_bound _ _ Hlen) as Hb. destruct Hlen as (Hd & Hl & Hn).
  apply Forall_cons in Hd as [Hd Hds]. pose proof (proj1 (numeric_bounds d) Hd).
  assert (number_from (d - 48) ds = Z.of_nat (length str)) as Hnum by exact Hn.
  destruct (parse_int_digits ds (58 :: str ++ r) 58 eq_refl (or_intror eq_refl) (d - 48) 0%nat Hds) as [Hp _];
    [unfold int64_max; lia|]. rewrite Hnum in Hp. specialize (Hp ltac:(unfold int64_max; lia)).
  unfold parse_string. rewrite Hd. cbn [negb].
  pose proof (advance_rest 1 s [d] (ds ++ 58 :: str ++ r) Hr eq_refl) as H1. rewrite H1.
  destruct (ds ++ 58 :: str ++ r) as [|c rest] eqn:E; [by destruct ds|]. rewrite <- E in *. clear c rest E.
  rewrite Hp, Nat.add_0_l, bool_decide_true by done. cbn [negb].
  pose proof (advance_rest (length ds) (advance 1 s) ds (58 :: str ++ r) H1 eq_refl) as H2. rewrite H2.
  rewrite length_cons, length_app. rewrite (proj2 (Z.ltb_ge _ _)) by lia. rewrite (proj2 (Z.ltb_ge _ _)) by lia.
  assert (p_start (advance 1 (advance (length ds) (advance 1 s))) - p_start s = Z.of_nat (length (d :: ds)) + 1) as ->
    by (simpl; lia).
  simpl in Hl. rewrite (proj2 (Z.ltb_ge _ _)) by (unfold max_header; simpl; lia).
  rewrite u8_prefix by (simpl; lia). f_equal. unfold ate, advance. cbn -[length Z.of_nat]. f_equal.
  - simpl. lia.
  - rewrite !drop_drop. f_equal. simpl. lia.
Qed.

Lemma parse_string_inv s d r0 s' : p_rest s = d :: r0 -> parse_string d s = inl s' ->
  exists ds str r, d :: r0 = ds ++ 58 :: str ++ r /\ len_digits ds str /\
    s' = ate (length ds + 1 + length str) [new_token (p_start s) 1 T_string (Z.of_nat (length ds) + 1)] s.
Proof.
  intros Hr H. pose proof H as Hrun. unfold parse_string in H.
  destruct (numeric d) eqn:Hd; [|done]. pose proof (proj1 (numeric_bounds d) Hd). cbn [negb] in H.
  pose proof (advance_rest 1 s [d] r0 Hr eq_refl) as H1. rewrite H1 in H.
  destruct r0 as [|c0 r0]; [done|].
  destruct (parse_int (c0 :: r0) 58 (d - 48) 0) as [[moved len] e] eqn:E.
  case_bool_decide as He; [|done]. subst e. cbn [negb] in H.
  apply parse_int_ok in E as (ds & r & Hs & Hds & -> & Hlen & Hdel & Hb); [|unfold int64_max; lia].
  rewrite Hs in *. rewrite Nat.add_0_l, (advance_rest (length ds) (advance 1 s) ds r H1 eq_refl) in H.
  destruct r as [|c r]; [done|]. destruct Hdel as [Hdel|Hdel]; [done|]. simpl in Hdel. injection Hdel as ->.
  rewrite length_cons in H. destruct (Z.ltb_spec (Z.of_nat (S (length r)) - 1) len) as [|Hfit]; [done|].
  destruct (Z.ltb_spec len 0); [done|]. destruct (max_header <? _) eqn:Hh; [done|].
  apply Z.ltb_ge in Hh. unfold max_header in Hh. simpl in Hh. clear H.
  assert (len_digits (d :: ds) (take (Z.to_nat len) r)) as Hld.
  { split; [by constructor|]. split; [simpl; lia|]. change (number (d :: ds)) with (number_from (d - 48) ds).
    rewrite length_take. lia. }
  exists (d :: ds), (take (Z.to_nat len) r), (drop (Z.to_nat len) r). rewrite take_drop.
  split; [done|]. split; [done|].
  rewrite (parse_string_ok s d ds (take (Z.to_nat len) r) (drop (Z.to_nat len) r)) in Hrun;
    [by injection Hrun as <-| |done]. by rewrite Hr, take_drop.
Qed.

(** ** The stack *)

Definition type_at (ts : list bdecode_token) (i : nat) : option token_type := type_ <$> ts !! i.

(** The innermost of the frames [k] is a dictionary's: its state. *)
Definition top_state (ts : list bdecode_token) (k : list stack_frame) : option bool :=
  match last k with
  | Some f => if bool_decide (type_at ts (frame_token f) = Some T_dict) then Some (frame_state f) else None
  | None => None
  end.

Definition flip_frame (f : stack_frame) : stack_frame := mk_frame (frame_token f) (negb (frame_state f)).

(** The frames after an item in the innermost container. *)
Definition flip_top (ts : list bdecode_token) (k : list stack_frame) : list stack_frame :=
  match top_state ts k with Some _ => alter flip_frame (pred (length k)) k | None => k end.

Definition valid (ts : list bdecode_token) (k : list stack_frame) : Prop :=
  Forall (fun f => is_Some (ts !! frame_token f)) k.

Lemma dict_frame_top s k extra : p_stack s = k ++ extra -> dict_frame (length k) s = top_state (p_tokens s) k.
Proof.
  intros Hs. unfold dict_frame, top_state. rewrite Hs.
  destruct k as [|f k _] using rev_ind.
  - simpl. by destruct extra as [|f ?]; [|simpl].
  - rewrite length_app. simpl (length [f]). rewrite Nat.add_1_r. cbn [pred].
    rewrite <- app_assoc, lookup_app_r, Nat.sub_diag by done. simpl. by rewrite last_snoc.
Qed.

Lemma dict_frame_popped s n : (length (p_stack s) < n)%nat -> dict_frame n s = None.
Proof. intros Hn. unfold dict_frame. by rewrite (proj2 (lookup_ge_None _ _)) by lia. Qed.

Lemma flip_state_top s k extra : p_stack s = k ++ extra ->
  flip_state (length k) s = set_stack (flip_top (p_tokens s) k ++ extra) s.
Proof.
  intros Hs. unfold flip_state, flip_top. rewrite (dict_frame_top s k extra Hs).
  destruct (top_state _ k) eqn:E; [|by destruct s; simpl in *; subst].
  f_equal. rewrite Hs. destruct k as [|f k _] using rev_ind; [done|].
  rewrite length_app. simpl (length [f]). rewrite Nat.add_1_r. cbn [pred].
  rewrite alter_app_l by (rewrite length_app; simpl; lia). done.
Qed.

Lemma type_at_app ts ts' f : is_Some (ts !! frame_token f) -> type_at (ts ++ ts') (frame_token f) = type_at ts (frame_token f).
Proof. intros [t Ht]. unfold type_at. by rewrite (lookup_app_l_Some _ _ _ _ Ht), Ht. Qed.

Lemma top_state_app ts ts' k : valid ts k -> top_state (ts ++ ts') k = top_state ts k.
Proof.
  intros Hv. unfold top_state. destruct (last k) as [f|] eqn:E; [|done].
  rewrite type_at_app; [done|]. apply last_Some_elem_of in E. by eapply Forall_forall in E; [|exact Hv].
Qed.

Lemma flip_top_app ts ts' k : valid ts k -> flip_top (ts ++ ts') k = flip_top ts k.
Proof. intros Hv. unfold flip_top. by rewrite top_state_app. Qed.

Lemma length_flip_top ts k : length (flip_top ts k) = length k.
Proof. unfold flip_top. destruct (top_state ts k); [apply length_alter|done]. Qed.

Lemma flip_top_snoc ts k f :
  flip_top ts (k ++ [f]) = k ++ [if bool_decide (type_at ts (frame_token f) = Some T_dict) then flip_frame f else f].
Proof.
  unfold flip_top, top_state. rewrite last_snoc. case_bool_decide; [|done].
  rewrite length_app. simpl (length [f]). rewrite Nat.add_1_r. cbn [pred].
  rewrite alter_app_r_alt by done. by rewrite Nat.sub_diag.
Qed.

Lemma valid_app ts ts' k : valid ts k -> valid (ts ++ ts') k.
Proof. intros H. eapply Forall_impl; [exact H|]. intros f [t Ht]. exists t. by apply lookup_app_l_Some. Qed.

Lemma valid_flip_top ts k : valid ts k -> valid ts (flip_top ts k).
Proof.
  intros Hv. destruct k as [|f k _] using rev_ind; [done|]. rewrite flip_top_snoc.
  apply Forall_app in Hv as [Hk Hf]. apply Forall_app. split; [done|]. case_bool_decide; [|done].
  constructor; [|constructor]. by apply Forall_inv in Hf.
Qed.

(** ** Turns of the loop *)

Section Turns.
Variable depth_limit : nat.

Definition turns : pstate -> pstate -> Prop := rtc (fun s s' => parse_turn depth_limit s = More s').

(** The turn that ends an item goes on, unless the item is the top level node. *)
Definition after (s : pstate) : turn_result := match p_stack s with [] => Done s | _ => More s end.

(** The state after the bytes [b] with the tokens [ts], in which one item of the
    innermost container ends. *)
Definition item_end (b : bytes) (ts : list bdecode_token) (s : pstate) : pstate :=
  mk_pstate (p_start s + Z.of_nat (length b)) (drop (length b) (p_rest s)) (p_tokens s ++ ts)
    (flip_top (p_tokens s) (p_stack s)) (p_limit s - Z.of_nat (length ts)).

(** One token of the limit is spent. *)
Definition spent (s : pstate) : pstate :=
  mk_pstate (p_start s) (p_rest s) (p_tokens s) (p_stack s) (p_limit s - 1).

(** What a turn needs to get to its token [c]. *)
Record ready (s : pstate) (c : Z) : Prop := {
  ready_depth : (length (p_stack s) < depth_limit)%nat;
  ready_limit : 1 <= p_limit s;
  ready_key : top_state (p_tokens s) (p_stack s) = Some false -> numeric c = true \/ c = 101;
  ready_valid : valid (p_tokens s) (p_stack s);
}.

Lemma ready_turn s c r : p_rest s = c :: r -> ready s c ->
  parse_turn depth_limit s =
    match parse_token c (spent s) with
    | inr e => e
    | inl s2 => after (flip_state (length (p_stack s)) s2)
    end.
Proof.
  intros Hr [Hd Hl Hk Hv]. unfold parse_turn. rewrite Hr.
  rewrite (proj2 (Nat.leb_gt _ _)) by done. cbn [p_limit p_stack]. rewrite (proj2 (Z.ltb_ge _ _)) by lia. fold (spent s).
  rewrite (dict_frame_top _ (p_stack s) []) by (by rewrite app_nil_r). cbn [p_tokens spent].
  assert (bool_decide (top_state (p_tokens s) (p_stack s) = Some false) && negb (numeric c) && negb (c =? 101) = false) as ->.
  { case_bool_decide as E; [|done]. destruct (Hk E) as [-> | ->]; [done|]. by rewrite andb_false_r. }
  by rewrite <- Hr.
Qed.

(** A number or a string. *)
Lemma leaf_turn s c r b t : p_rest s = c :: r -> ready s c -> b <> [] ->
  parse_token c (spent s) =
    inl (ate (length b) [t] (spent s)) ->
  parse_turn depth_limit s = after (item_end b [t] s).
Proof.
  intros Hr Hok Hb Hp. rewrite (ready_turn s c r Hr Hok), Hp. f_equal.
  rewrite (flip_state_top _ (p_stack s) []) by (by rewrite app_nil_r).
  cbn [ate p_tokens p_stack spent]. rewrite app_nil_r, flip_top_app by apply Hok. done.
Qed.

Lemma parse_token_string c s : numeric c = true -> parse_token c s = parse_string c s.
Proof.
  intros Hn%numeric_bounds. unfold parse_token. by rewrite !(proj2 (Z.eqb_neq c _)) by lia.
Qed.

(** An opening ['d'] or ['l']. *)
Definition opened (t : token_type) (s : pstate) : pstate :=
  mk_pstate (p_start s + 1) (drop 1 (p_rest s)) (p_tokens s ++ [new_token_0 (p_start s) t])
    (flip_top (p_tokens s) (p_stack s) ++ [mk_frame (length (p_tokens s)) false]) (p_limit s - 1).

Lemma open_turn s t r : t = T_dict \/ t = T_list -> p_rest s = (if bool_decide (t = T_dict) then 100 else 108) :: r ->
  ready s (if bool_decide (t = T_dict) then 100 else 108) -> parse_turn depth_limit s = More (opened t s).
Proof.
  intros Ht Hr Hok. rewrite (ready_turn s _ r Hr Hok).
  assert (parse_token (if bool_decide (t = T_dict) then 100 else 108)
    (spent s) =
    open_container t (spent s)) as ->
    by (destruct Ht as [-> | ->]; done).
  unfold open_container. rewrite (flip_state_top _ (p_stack s) [mk_frame (length (p_tokens s)) false]) by done.
  cbn -[drop flip_top]. rewrite flip_top_app by apply Hok. unfold after, opened. cbn -[drop flip_top].
  by destruct (flip_top _ _ ++ _) eqn:E; [by destruct (flip_top _ _)|].
Qed.

(** The ['e'] that closes the innermost container, whose items have the tokens [ts]. *)
Lemma close_turn s o t tokens ts k r : t = T_dict \/ t = T_list ->
  p_rest s = 101 :: r -> p_tokens s = tokens ++ new_token_0 o t :: ts ->
  p_stack s = k ++ [mk_frame (length tokens) false] -> (length (p_stack s) < depth_limit)%nat -> 1 <= p_limit s ->
  Z.of_nat (length ts) + 2 <= max_next_item -> valid tokens k ->
  parse_turn depth_limit s = after (mk_pstate (p_start s + 1) r (tokens ++ container t o ts (p_start s)) k (p_limit s - 1)).
Proof.
  intros Ht Hr Htok Hk Hd Hl Hmax Hv.
  assert (type_at (p_tokens s) (length tokens) = Some t) as Htop.
  { unfold type_at. rewrite Htok, lookup_app_r, Nat.sub_diag by done. done. }
  rewrite (ready_turn s 101 r Hr).
  2:{ split; [done|done|by right|]. rewrite Hk. apply Forall_app. split.
      - rewrite Htok. by apply valid_app.
      - apply Forall_singleton. simpl. unfold type_at in Htop. by destruct (p_tokens s !! length tokens); [eexists|]. }
  unfold parse_token. cbn [Z.eqb Pos.eqb]. unfold close_container. cbn [p_stack spent]. rewrite Hk, last_snoc.
  rewrite (dict_frame_top _ (k ++ [mk_frame (length tokens) false]) []) by (by rewrite app_nil_r).
  assert (top_state (p_tokens s) (k ++ [mk_frame (length tokens) false]) <> Some true) as Hst.
  { unfold top_state. rewrite last_snoc. cbn [frame_token frame_state]. by destruct (bool_decide _). }
  cbn [p_tokens spent]. rewrite bool_decide_false by done.
  cbn [push_token spent frame_token p_tokens p_start p_rest p_limit p_stack]. rewrite Hk.
  assert (Z.of_nat (length (p_tokens s ++ [new_token (p_start s) 1 T_end 0])) - Z.of_nat (length tokens) = Z.of_nat (length ts) + 2) as ->
    by (rewrite Htok, !length_app; simpl; lia).
  rewrite (proj2 (Z.ltb_ge _ _)) by done. rewrite removelast_last.
  unfold flip_state. rewrite dict_frame_popped by (simpl; rewrite length_app; simpl; lia).
  f_equal. unfold advance. cbn [p_start p_rest p_tokens p_stack p_limit]. rewrite Hr. simpl (drop 1 _). f_equal.
  rewrite Htok, <- app_assoc, alter_app_r_alt, Nat.sub_diag by done. done.
Qed.

(** ** The parser accepts what the grammar describes *)

Definition max_depth (l : list bvalue) : nat := foldr (fun v n => Nat.max (depth v) n) 0%nat l.

(** What is needed to get through an item, or the rest of a container. *)
Record room (s : pstate) (d : nat) (ts : list bdecode_token) : Prop := {
  room_depth : (length (p_stack s) + d < depth_limit)%nat;
  room_limit : Z.of_nat (length ts) <= p_limit s;
  room_valid : valid (p_tokens s) (p_stack s);
}.

Definition accepts_item (o : Z) (b : bytes) (ts : list bdecode_token) (v : bvalue) : Prop := forall s r,
  p_start s = o -> p_rest s = b ++ r -> room s (depth v) ts ->
  (top_state (p_tokens s) (p_stack s) = Some false -> exists k, v = BStr k) ->
  exists s1, turns s s1 /\ parse_turn depth_limit s1 = after (item_end b ts s).

(** The innermost frame of [s] is that of a container of type [t], in state [false]. *)
Definition inside (t : token_type) (s : pstate) : Prop :=
  exists k f, p_stack s = k ++ [f] /\ type_at (p_tokens s) (frame_token f) = Some t /\ frame_state f = false.

(** The state after the bytes [b] with the tokens [ts], with the same stack. *)
Definition skip (b : bytes) (ts : list bdecode_token) (s : pstate) : pstate :=
  mk_pstate (p_start s + Z.of_nat (length b)) (drop (length b) (p_rest s)) (p_tokens s ++ ts) (p_stack s)
    (p_limit s - Z.of_nat (length ts)).

Definition accepts_list (t : token_type) (o : Z) (b : bytes) (ts : list bdecode_token) (d : nat) : Prop := forall s r,
  p_start s = o -> p_rest s = b ++ r -> room s d ts -> inside t s -> turns s (skip b ts s).

Lemma room_app s d ts (b : bytes) ts0 (k : list stack_frame) : room s d (ts0 ++ ts) -> length k = length (p_stack s) -> valid (p_tokens s) k ->
  room (mk_pstate (p_start s + Z.of_nat (length b)) (drop (length b) (p_rest s)) (p_tokens s ++ ts0) k
    (p_limit s - Z.of_nat (length ts0))) d ts.
Proof.
  intros [Hd Hl Hv] Hk Hvk. rewrite length_app in Hl. split; simpl; [lia|lia|by apply valid_app].
Qed.

Lemma inside_type t s : inside t s -> p_stack s <> [].
Proof. intros (k & f & -> & _). by destruct k. Qed.

Lemma after_more s : p_stack s <> [] -> after s = More s.
Proof. unfold after. by destruct (p_stack s). Qed.

Lemma item_more o b ts v s r : accepts_item o b ts v -> p_start s = o -> p_rest s = b ++ r -> room s (depth v) ts ->
  p_stack s <> [] -> (top_state (p_tokens s) (p_stack s) = Some false -> exists k, v = BStr k) ->
  turns s (item_end b ts s).
Proof.
  intros Ha Ho Hr Hroom Hs Hk. destruct (Ha s r Ho Hr Hroom Hk) as (s1 & H1 & H2).
  eapply rtc_r; [exact H1|]. simpl. rewrite H2. apply after_more. simpl.
  intros E. apply Hs. apply nil_length_inv. by rewrite <- (length_flip_top (p_tokens s)), E.
Qed.

Lemma inside_list_top s : inside T_list s -> flip_top (p_tokens s) (p_stack s) = p_stack s /\
  top_state (p_tokens s) (p_stack s) = None.
Proof.
  intros (k & f & -> & Ht & _). rewrite flip_top_snoc, Ht. split; [done|].
  unfold top_state. by rewrite last_snoc, Ht.
Qed.

(** A container, from the bytes and tokens inside it. *)
Lemma accepts_container t o b ts v d : t = T_dict \/ t = T_list -> (forall k, v <> BStr k) -> depth v = S d ->
  Z.of_nat (length ts) + 2 <= max_next_item -> accepts_list t (o + 1) b ts d ->
  accepts_item o ((if bool_decide (t = T_dict) then 100 else 108) :: b ++ [101])
    (container t o ts (o + 1 + Z.of_nat (length b))) v.
Proof.
  intros Ht Hv Hdep Hmax Ha s r Ho Hr [Hd Hl Hvalid] Hk. set (c := if bool_decide (t = T_dict) then 100 else 108) in *.
  assert (length (container t o ts (o + 1 + Z.of_nat (length b))) = length ts + 2)%nat as Hlen
    by (unfold container; simpl; rewrite length_app; simpl; lia).
  rewrite Hlen in Hl. rewrite Hdep in Hd.
  assert (parse_turn depth_limit s = More (opened t s)) as Hopen.
  { eapply open_turn; [done|rewrite Hr; done|]. split; [lia|lia| |done].
    intros E. destruct (Hk E) as [k Hk']. by apply Hv in Hk'. }
  assert (p_rest (opened t s) = b ++ 101 :: r) as Hr1.
  { simpl. rewrite Hr. simpl. rewrite drop_0, <- app_assoc. done. }
  assert (turns (opened t s) (skip b ts (opened t s))) as Hin.
  { apply (Ha (opened t s) (101 :: r)); [simpl; lia|done| |].
    - split; cbn [p_stack p_limit p_tokens opened].
      + rewrite length_app, length_flip_top. simpl. lia.
      + lia.
      + apply Forall_app. split; [by apply valid_app, valid_flip_top|]. apply Forall_singleton. simpl.
        by rewrite lookup_app_r, Nat.sub_diag by done.
    - eexists _, _. split; [done|]. split; [|done]. simpl. unfold type_at. by rewrite lookup_app_r, Nat.sub_diag by done. }
  exists (skip b ts (opened t s)). split; [by eapply rtc_l|].
  rewrite (close_turn _ o t (p_tokens s) ts (flip_top (p_tokens s) (p_stack s)) r); try done.
  - f_equal. unfold item_end. cbn [skip opened p_start p_limit p_rest]. rewrite Hlen, Hr, Ho. f_equal.
    + simpl. rewrite length_app. simpl. lia.
    + change (c :: (b ++ [101])) with ([c] ++ b ++ [101]). 
      replace (length ([c] ++ b ++ [101])) with (length (c :: b ++ [101])) by done.
      by rewrite drop_app_length.
    + lia.
  - change (drop (length b) (p_rest (opened t s)) = 101 :: r). by rewrite Hr1, drop_app_length.
  - simpl. by rewrite <- app_assoc, Ho.
  - simpl. rewrite length_app, length_flip_top. simpl. lia.
  - simpl. lia.
  - by apply valid_flip_top.
Qed.

Lemma skip_skip b1 b2 ts1 ts2 s : skip b2 ts2 (skip b1 ts1 s) = skip (b1 ++ b2) (ts1 ++ ts2) s.
Proof.
  unfold skip. cbn [p_start p_rest p_tokens p_stack p_limit].
  rewrite drop_drop, !length_app, app_assoc. f_equal; lia.
Qed.

Lemma inside_dict_top s : inside T_dict s -> top_state (p_tokens s) (p_stack s) = Some false.
Proof. intros (k & f & -> & Ht & Hf). unfold top_state. by rewrite last_snoc, Ht, Hf. Qed.

Lemma inside_app t s (b : bytes) ts k : inside t s -> valid (p_tokens s) (p_stack s) -> k = p_stack s ->
  inside t (mk_pstate (p_start s + Z.of_nat (length b)) (drop (length b) (p_rest s)) (p_tokens s ++ ts) k
    (p_limit s - Z.of_nat (length ts))).
Proof.
  intros (k' & f & Hk & Ht & Hf) Hv ->. exists k', f. split; [done|]. split; [|done]. simpl.
  rewrite type_at_app; [done|]. rewrite Hk in Hv. apply Forall_app in Hv as [_ Hv]. by apply Forall_inv in Hv.
Qed.

(** A key and a value bring the state of the dictionary back. *)
Lemma inside_dict_flips ts1 s : inside T_dict s -> valid (p_tokens s) (p_stack s) ->
  flip_top (p_tokens s ++ ts1) (flip_top (p_tokens s) (p_stack s)) = p_stack s /\
  top_state (p_tokens s ++ ts1) (flip_top (p_tokens s) (p_stack s)) <> Some false.
Proof.
  intros (k & f & Hk & Ht & Hf) Hv. rewrite Hk in *.
  assert (type_at (p_tokens s ++ ts1) (frame_token f) = Some T_dict) as Ht1.
  { rewrite type_at_app; [done|]. apply Forall_app in Hv as [_ Hv]. by apply Forall_inv in Hv. }
  rewrite flip_top_snoc, Ht, bool_decide_true, flip_top_snoc by done. cbn [flip_frame frame_token].
  rewrite Ht1, bool_decide_true by done. split.
  - destruct f as [n st]. cbn in *. by subst.
  - unfold top_state. rewrite last_snoc. cbn [frame_token frame_state flip_frame]. rewrite Ht1, bool_decide_true by done.
    by rewrite Hf.
Qed.

Lemma int_accepted o negative ds : int_digits ds ->
  accepts_item o (105 :: int_text negative ds ++ [101]) [new_token o 1 T_integer 1] (BInt (int_of negative ds)).
Proof.
  intros Hd s r Ho Hr [Hdep Hl Hv] Hk. exists s. split; [apply rtc_refl|]. rewrite <- Ho.
  apply (leaf_turn s 105 (int_text negative ds ++ 101 :: r)); [by rewrite Hr; simpl; rewrite <- app_assoc| |done|].
  { split; [simpl in Hdep; lia|done| |done]. intros E. by destruct (Hk E). }
  change (parse_token 105 (spent s)) with (parse_integer (spent s)).
  rewrite (parse_integer_ok (spent s) negative ds r) by (done || simpl; rewrite Hr; simpl; by rewrite <- app_assoc).
  do 2 f_equal. simpl. rewrite length_app. simpl. lia.
Qed.

Lemma str_accepted o ds str : len_digits ds str ->
  accepts_item o (ds ++ 58 :: str) [new_token o 1 T_string (Z.of_nat (length ds) + 1)] (BStr str).
Proof.
  intros Hd s r Ho Hr [Hdep Hl Hv] Hk. exists s. split; [apply rtc_refl|]. rewrite <- Ho.
  destruct ds as [|d ds]; [destruct Hd as (_ & Hd & _); simpl in Hd; lia|].
  assert (numeric d = true) as Hn by (destruct Hd as (Hd & _); by apply Forall_inv in Hd).
  apply (leaf_turn s d (ds ++ 58 :: str ++ r)); [by rewrite Hr; simpl; rewrite <- app_assoc| |done|].
  { split; [simpl in Hdep; lia|done|by left|done]. }
  rewrite parse_token_string by done.
  rewrite (parse_string_ok (spent s) d ds str r) by (done || simpl; rewrite Hr; simpl; by rewrite <- app_assoc).
  do 2 f_equal. simpl. rewrite length_app. simpl. lia.
Qed.

Lemma nil_accepted t o : accepts_list t o [] [] 0.
Proof.
  intros s r Ho Hr Hroom Hin. unfold skip. simpl. rewrite app_nil_r, !Z.add_0_r, Z.sub_0_r, drop_0.
  destruct s. apply rtc_refl.
Qed.

Lemma items_cons_accepted o b ts v b' ts' l : accepts_item o b ts v ->
  accepts_list T_list (o + Z.of_nat (length b)) b' ts' (max_depth l) ->
  accepts_list T_list o (b ++ b') (ts ++ ts') (max_depth (v :: l)).
Proof.
  intros Ha Hl s r Ho Hr Hroom Hin. destruct Hroom as [Hd Hlim Hv].
  rewrite <- app_assoc in Hr. rewrite length_app in Hlim. cbn [max_depth foldr] in Hd. fold (max_depth l) in Hd.
  destruct (inside_list_top s Hin) as [Hft Hts].
  assert (item_end b ts s = skip b ts s) as He by (unfold item_end, skip; by rewrite Hft).
  assert (turns s (skip b ts s)) as H1.
  { rewrite <- He. eapply item_more; [exact Ha|done|done|split; [lia|lia|done]|by eapply inside_type|by rewrite Hts]. }
  rewrite <- skip_skip. unfold turns in *; etrans; [exact H1|].
  apply (Hl (skip b ts s) r); [simpl; lia|simpl; by rewrite Hr, drop_app_length| |by apply inside_app].
  split; simpl; [lia|lia|by apply valid_app].
Qed.

Lemma pairs_cons_accepted o bk tk k b ts v b' ts' l :
  accepts_item o bk tk (BStr k) -> accepts_item (o + Z.of_nat (length bk)) b ts v ->
  accepts_list T_dict (o + Z.of_nat (length bk) + Z.of_nat (length b)) b' ts' (max_depth l.*2) ->
  accepts_list T_dict o (bk ++ b ++ b') (tk ++ ts ++ ts') (max_depth ((k, v) :: l).*2).
Proof.
  intros Hk Hv Hl s r Ho Hr [Hd Hlim Hva] Hin.
  rewrite <- !app_assoc in Hr. rewrite !length_app in Hlim. cbn [max_depth foldr fmap list_fmap] in Hd.
  fold (max_depth (snd <$> l)) in Hd. simpl in Hd.
  destruct (inside_dict_flips tk s Hin Hva) as [Hft Hts].
  assert (turns s (item_end bk tk s)) as H1.
  { eapply item_more; [exact Hk|done|done|split; simpl; [lia|lia|done]|by eapply inside_type|by eauto]. }
  assert (item_end b ts (item_end bk tk s) = skip b ts (skip bk tk s)) as He.
  { unfold item_end, skip. cbn [p_start p_rest p_tokens p_stack p_limit]. by rewrite Hft. }
  assert (turns (item_end bk tk s) (skip b ts (skip bk tk s))) as H2.
  { rewrite <- He. eapply (item_more _ b ts v (item_end bk tk s) (b' ++ r)); [exact Hv|simpl; lia| | | |].
    - simpl. by rewrite Hr, drop_app_length.
    - split; simpl; [rewrite length_flip_top; lia|lia|by apply valid_app, valid_flip_top].
    - simpl. intros E. apply (inside_type _ _ Hin). apply nil_length_inv.
      by rewrite <- (length_flip_top (p_tokens s)), E.
    - simpl. by intros E. }
  rewrite <- !skip_skip. unfold turns in *; etrans; [exact H1|]. etrans; [exact H2|].
  rewrite skip_skip in *. apply (Hl (skip (bk ++ b) (tk ++ ts) s) r).
  + simpl. rewrite length_app. lia.
  + simpl. rewrite Hr, app_assoc. by rewrite drop_app_length.
  + split; simpl; rewrite ?length_app; [lia|lia|by apply valid_app].
  + by apply inside_app.
Qed.

Lemma grammar_accepted :
  (forall o b ts v, item o b ts v -> accepts_item o b ts v) /\
  (forall o b ts l, items o b ts l -> accepts_list T_list o b ts (max_depth l)) /\
  (forall o b ts l, pairs o b ts l -> accepts_list T_dict o b ts (max_depth l.*2)).
Proof.
  apply grammar_ind; intros.
  - by apply int_accepted.
  - by apply str_accepted.
  - apply (accepts_container T_list o s ts (BList l) (max_depth l)); [by right|done..].
  - apply (accepts_container T_dict o s ts (BDict l) (max_depth l.*2)); [by left|done| |done|done].
    simpl. f_equal. clear. induction l as [|[k v] l IH]; [done|]. simpl. by rewrite IH.
  - apply nil_accepted.
  - by apply items_cons_accepted.
  - apply nil_accepted.
  - by apply pairs_cons_accepted.
Qed.

(** ** The loop ends *)

Lemma parse_token_progress c r s s' : p_rest s = c :: r -> parse_token c s = inl s' ->
  (length (p_rest s') < length (p_rest s))%nat.
Proof.
  intros Hr H. assert (0 < length (p_rest s))%nat as Hpos by (rewrite Hr; simpl; lia).
  unfold parse_token in H. repeat case_match; simplify_eq.
  1, 2: unfold open_container in H; simplify_eq; simpl; rewrite length_drop; lia.
  - unfold parse_integer in H. destruct (check_integer _) as [moved e]. case_bool_decide; [|done].
    simplify_eq. simpl. rewrite length_drop. lia.
  - unfold close_container in H. repeat case_match; simplify_eq. simpl. rewrite length_drop. lia.
  - apply (parse_string_inv s c r s' Hr) in H as (ds & str & r' & E & (_ & Hl & _) & ->). simpl.
    rewrite length_drop. lia.
Qed.

Lemma flip_state_rest n s : p_rest (flip_state n s) = p_rest s.
Proof. unfold flip_state. by destruct (dict_frame n s). Qed.

Lemma parse_token_fails c s r : parse_token c s = inr r -> exists s' e pos, r = Failed s' e pos /\ e <> no_error.
Proof.
  unfold parse_token, open_container, parse_integer, close_container, parse_string, fail. intros H.
  repeat (case_match || case_bool_decide); simplify_eq; eexists _, _, _; (split; [reflexivity|]); done.
Qed.

Lemma parse_turn_progress s s' : parse_turn depth_limit s = More s' -> (length (p_rest s') < length (p_rest s))%nat.
Proof.
  unfold parse_turn. destruct (p_rest s) as [|c r] eqn:Hr; [done|]. intros H.
  repeat case_match; simplify_eq.
  - rewrite flip_state_rest.
    match goal with E : parse_token _ _ = inl _ |- _ => apply (parse_token_progress c r) in E; [|done] end. done.
  - by match goal with E : parse_token _ _ = inr _ |- _ => apply parse_token_fails in E as (? & ? & ? & ? & _) end.
Qed.

Lemma turn_fails s s' e pos : parse_turn depth_limit s = Failed s' e pos -> e <> no_error.
Proof.
  unfold parse_turn, fail. intros H. repeat case_match; simplify_eq; try done.
  match goal with E : parse_token _ _ = inr _ |- _ => apply parse_token_fails in E as (? & ? & ? & ? & ?) end.
  by simplify_eq.
Qed.

Lemma parse_loop_total fuel : forall s, (length (p_rest s) <= fuel)%nat -> exists r, parse_loop fuel depth_limit s = Ok r.
Proof.
  induction fuel as [|fuel IH]; intros s Hf; cbn [parse_loop];
    destruct (parse_turn depth_limit s) as [s'|s'|s' e pos] eqn:E; try by eexists.
  - apply parse_turn_progress in E. lia.
  - apply parse_turn_progress in E. apply IH. lia.
Qed.

Lemma parse_loop_turns s s1 s2 : turns s s1 -> parse_turn depth_limit s1 = Done s2 ->
  forall fuel, (length (p_rest s) <= fuel)%nat -> parse_loop fuel depth_limit s = Ok (s2, no_error, 0).
Proof.
  intros Ht Hd. induction Ht as [s|s s' s1 Hs _ IH]; intros fuel Hf.
  - destruct fuel; cbn [parse_loop]; by rewrite Hd.
  - pose proof (parse_turn_progress _ _ Hs). destruct fuel as [|fuel]; [lia|]. cbn [parse_loop]. rewrite Hs.
    apply IH; [done|]. lia.
Qed.

Lemma parse_loop_done fuel : forall s s2 pos, parse_loop fuel depth_limit s = Ok (s2, no_error, pos) ->
  exists s1, turns s s1 /\ parse_turn depth_limit s1 = Done s2.
Proof.
  induction fuel as [|fuel IH]; intros s s2 pos H; cbn [parse_loop] in H;
    destruct (parse_turn depth_limit s) as [s'|s'|s' e pos'] eqn:E; simplify_eq;
    try (exists s; split; [apply rtc_refl|done]); try (by apply turn_fails in E).
  destruct (IH _ _ _ H) as (s1 & Ht & Hs). exists s1. split; [by eapply rtc_l|done].
Qed.

(** ** What the parser accepts is in the grammar *)

(** Part of the inside of a container: whole items; or whole pairs; or pairs and a key. *)
Inductive part : token_type -> bool -> Z -> bytes -> list bdecode_token -> Prop :=
  | part_list o b ts l : items o b ts l -> part T_list false o b ts
  | part_dict o b ts l : pairs o b ts l -> part T_dict false o b ts
  | part_key o b ts l bk tk k : pairs o b ts l -> item (o + Z.of_nat (length b)) bk tk (BStr k) ->
      part T_dict true o (b ++ bk) (ts ++ tk).

(** The bytes [b] so far and their tokens, inside the containers of the frames [k]; a
    container in a dictionary is a value, and its frame has been flipped already. *)
Inductive suspended : bytes -> list bdecode_token -> list stack_frame -> Prop :=
  | suspended_top : suspended [] [] []
  | suspended_in b ts k t st b' ts' : suspended b ts k ->
      part t st (Z.of_nat (length b) + 1) b' ts' -> (t = T_dict -> st = true) ->
      suspended (b ++ (if bool_decide (t = T_dict) then 100 else 108) :: b')
        (ts ++ new_token_0 (Z.of_nat (length b)) t :: ts') (k ++ [mk_frame (length ts) false]).

(** The same with the innermost container between two tokens. *)
Inductive reached : bytes -> list bdecode_token -> list stack_frame -> Prop :=
  | reached_top : reached [] [] []
  | reached_in b ts k t st b' ts' : suspended b ts k ->
      part t st (Z.of_nat (length b) + 1) b' ts' ->
      reached (b ++ (if bool_decide (t = T_dict) then 100 else 108) :: b')
        (ts ++ new_token_0 (Z.of_nat (length b)) t :: ts') (k ++ [mk_frame (length ts) st]).

Lemma part_type t st o b ts : part t st o b ts -> (t = T_dict \/ t = T_list) /\ (t = T_list -> st = false).
Proof. destruct 1; split; auto; done. Qed.

(** An item more. *)
Lemma part_item t st o b ts b' ts' v : part t st o b ts -> item (o + Z.of_nat (length b)) b' ts' v ->
  (t = T_dict -> st = false -> exists k, v = BStr k) ->
  part t (if bool_decide (t = T_dict) then negb st else st) o (b ++ b') (ts ++ ts').
Proof.
  intros Hp Hi Hk. destruct Hp as [o b ts l Hl|o b ts l Hl|o b ts l bk tk k Hl Hkey].
  - eapply part_list. by eapply items_snoc.
  - destruct (Hk eq_refl eq_refl) as [k ->]. by eapply part_key.
  - rewrite length_app, Nat2Z.inj_add, Z.add_assoc in Hi. rewrite <- !app_assoc. eapply part_dict. by eapply pairs_snoc.
Qed.

Lemma type_at_middle ts t ts' o : type_at (ts ++ new_token_0 o t :: ts') (length ts) = Some t.
Proof. unfold type_at. by rewrite lookup_app_r, Nat.sub_diag by done. Qed.

Lemma suspended_valid b ts k : suspended b ts k -> valid ts k.
Proof.
  induction 1 as [|b ts k t st b' ts' _ IH Hp _]; [constructor|]. apply Forall_app. split; [by apply valid_app|].
  apply Forall_singleton. simpl. by rewrite lookup_app_r, Nat.sub_diag by done.
Qed.

Lemma reached_valid b ts k : reached b ts k -> valid ts k.
Proof.
  destruct 1 as [|b ts k t st b' ts' Hs Hp]; [constructor|]. apply Forall_app. split; [by eapply valid_app, suspended_valid|].
  apply Forall_singleton. simpl. by rewrite lookup_app_r, Nat.sub_diag by done.
Qed.

(** An item, seen from the containers around it. *)
Lemma reached_item b ts k b' ts' v : reached b ts k -> item (Z.of_nat (length b)) b' ts' v -> k <> [] ->
  (top_state ts k = Some false -> exists s, v = BStr s) ->
  reached (b ++ b') (ts ++ ts') (flip_top ts k).
Proof.
  intros H Hi Hne Hk. destruct H as [|b ts k t st b0 ts0 Hs Hp]; [done|].
  rewrite flip_top_snoc. cbn [frame_token]. rewrite type_at_middle. rewrite <- !app_assoc. cbn [app].
  assert (top_state (ts ++ new_token_0 (Z.of_nat (length b)) t :: ts0) (k ++ [mk_frame (length ts) st]) =
    if bool_decide (t = T_dict) then Some st else None) as Htop.
  { unfold top_state. rewrite last_snoc. cbn [frame_token frame_state]. rewrite type_at_middle.
    by repeat case_bool_decide; simplify_eq. }
  rewrite Htop in Hk.
  assert (part t (if bool_decide (t = T_dict) then negb st else st) (Z.of_nat (length b) + 1) (b0 ++ b') (ts0 ++ ts')) as Hp'.
  { eapply part_item; [done| |].
    - rewrite length_app in Hi. simpl in Hi.
      replace (Z.of_nat (length b) + 1 + Z.of_nat (length b0)) with (Z.of_nat (length b + S (length b0))) by lia. done.
    - intros -> ->. by apply Hk. }
  replace (if bool_decide (Some t = Some T_dict) then flip_frame (mk_frame (length ts) st) else mk_frame (length ts) st)
    with (mk_frame (length ts) (if bool_decide (t = T_dict) then negb st else st))
    by (by repeat case_bool_decide; simplify_eq).
  by apply reached_in.
Qed.

Lemma suspended_item b ts k b' ts' v : suspended b ts k -> item (Z.of_nat (length b)) b' ts' v -> k <> [] ->
  reached (b ++ b') (ts ++ ts') k.
Proof.
  intros H Hi Hne. destruct H as [|b ts k t st b0 ts0 Hs Hp Hst]; [done|].
  rewrite <- !app_assoc. cbn [app].
  assert (part t (if bool_decide (t = T_dict) then negb st else st) (Z.of_nat (length b) + 1) (b0 ++ b') (ts0 ++ ts')) as Hp'.
  { eapply part_item; [done| |].
    - rewrite length_app in Hi. simpl in Hi.
      replace (Z.of_nat (length b) + 1 + Z.of_nat (length b0)) with (Z.of_nat (length b + S (length b0))) by lia. done.
    - intros Ht Hst'. rewrite (Hst Ht) in Hst'. done. }
  replace (if bool_decide (t = T_dict) then negb st else st) with false in Hp'; [by apply reached_in|].
  case_bool_decide as Ht; [by rewrite (Hst Ht)|]. destruct (part_type _ _ _ _ _ Hp) as [[? | Htl] Hl]; [done|].
  by rewrite Hl.
Qed.

Lemma reached_suspended b ts k : reached b ts k -> top_state ts k <> Some false -> suspended b ts (flip_top ts k).
Proof.
  intros H Hk. destruct H as [|b ts k t st b0 ts0 Hs Hp]; [constructor|].
  rewrite flip_top_snoc. cbn [frame_token]. rewrite type_at_middle.
  unfold top_state in Hk. rewrite last_snoc in Hk. cbn [frame_token frame_state] in Hk. rewrite type_at_middle in Hk.
  destruct (part_type _ _ _ _ _ Hp) as [[-> | ->] Hl].
  - destruct st; [|done]. by apply (suspended_in b ts k T_dict true b0 ts0).
  - rewrite Hl in * by done. by apply (suspended_in b ts k T_list false b0 ts0).
Qed.

Lemma suspended_nil b ts : suspended b ts [] -> b = [] /\ ts = [].
Proof. remember [] as k eqn:Hk. destruct 1 as [|? ? k]; [done|]. by destruct k. Qed.

Section Sound.
Variable buffer : bytes.

(** A state between two tokens, and one in which the top level node is complete. *)
Definition midway (s : pstate) : Prop := exists b, buffer = b ++ p_rest s /\
  p_start s = Z.of_nat (length b) /\ reached b (p_tokens s) (p_stack s).

Definition complete (s : pstate) : Prop := exists b v, buffer = b ++ p_rest s /\
  p_start s = Z.of_nat (length b) /\ p_stack s = [] /\ item 0 b (p_tokens s) v.

Definition sound (r : turn_result) : Prop :=
  match r with More s => midway s | Done s => complete s | Failed _ _ _ => True end.

Lemma turn_cases s r : valid (p_tokens s) (p_stack s) -> parse_turn depth_limit s = r ->
  (exists s' e pos, r = Failed s' e pos) \/
  exists c rest s2, p_rest s = c :: rest /\ ready s c /\ parse_token c (spent s) = inl s2 /\
    r = after (flip_state (length (p_stack s)) s2).
Proof.
  intros Hv <-. destruct (p_rest s) as [|c rest] eqn:Hr; [left; unfold parse_turn; rewrite Hr; by repeat eexists|].
  destruct (decide (length (p_stack s) < depth_limit)%nat) as [Hd|Hd].
  2:{ left. unfold parse_turn. rewrite Hr, (proj2 (Nat.leb_le _ _)) by lia. by repeat eexists. }
  destruct (decide (1 <= p_limit s)) as [Hl|Hl].
  2:{ left. unfold parse_turn. rewrite Hr, (proj2 (Nat.leb_gt _ _)) by lia. cbn [p_limit].
      rewrite (proj2 (Z.ltb_lt _ _)) by lia. by repeat eexists. }
  destruct (decide (top_state (p_tokens s) (p_stack s) = Some false -> numeric c = true \/ c = 101)) as [Hk|Hk].
  - assert (ready s c) as Hok by done. rewrite (ready_turn s c rest Hr Hok).
    destruct (parse_token c (spent s)) as [s2|r] eqn:E.
    + right. by exists c, rest, s2.
    + left. apply parse_token_fails in E as (s' & e & pos & -> & _). by repeat eexists.
  - left. unfold parse_turn. rewrite Hr, (proj2 (Nat.leb_gt _ _)) by lia. cbn [p_limit p_stack].
    rewrite (proj2 (Z.ltb_ge _ _)) by lia. rewrite (dict_frame_top _ (p_stack s) []) by (by rewrite app_nil_r).
    cbn [p_tokens]. destruct (decide (top_state (p_tokens s) (p_stack s) = Some false)) as [E|E]; [|by exfalso; apply Hk].
    rewrite bool_decide_true by done. destruct (numeric c) eqn:Hn; [by exfalso; apply Hk; left|].
    destruct (Z.eqb_spec c 101); [by exfalso; apply Hk; right|]. by repeat eexists.
Qed.

Lemma sound_after s b bi ts v k r : suspended b ts k -> item (Z.of_nat (length b)) bi (drop (length ts) (p_tokens s)) v ->
  buffer = b ++ bi ++ r -> p_rest s = r -> p_start s = Z.of_nat (length (b ++ bi)) ->
  p_tokens s = ts ++ drop (length ts) (p_tokens s) -> p_stack s = k -> sound (after s).
Proof.
  intros Hs Hi Hb Hr Ho Ht Hk. unfold after. rewrite Hk. destruct k as [|f k].
  - apply suspended_nil in Hs as [-> ->]. simpl in *. exists bi, v. rewrite drop_0 in Hi. by rewrite Hr.
  - exists (b ++ bi). split; [by rewrite Hr, <- app_assoc|]. split; [done|]. rewrite Ht, Hk.
    by eapply suspended_item.
Qed.

Lemma sound_leaf s b b' r t v : buffer = b ++ b' ++ r -> p_rest s = b' ++ r -> p_start s = Z.of_nat (length b) ->
  reached b (p_tokens s) (p_stack s) -> item (Z.of_nat (length b)) b' [t] v ->
  (top_state (p_tokens s) (p_stack s) = Some false -> exists k, v = BStr k) -> sound (after (item_end b' [t] s)).
Proof.
  intros Hb Hr Ho Hre Hi Hk. unfold after. destruct (p_stack (item_end b' [t] s)) as [|f k] eqn:E.
  - simpl in E. assert (p_stack s = []) as Hs by (apply nil_length_inv; by rewrite <- (length_flip_top (p_tokens s)), E).
    rewrite Hs in Hre. assert (b = [] /\ p_tokens s = []) as [-> Ht]
      by (clear -Hre; remember [] as k eqn:Hk; destruct Hre as [|? ? k]; [done|by destruct k]).
    exists b', v. simpl. rewrite Hr, drop_app_length, Ht, Ho. split; [done|]. split; [simpl; lia|]. by rewrite Hs.
  - exists (b ++ b'). simpl. rewrite Hr, drop_app_length, Ho. split; [by rewrite <- app_assoc|].
    split; [rewrite length_app; lia|]. eapply reached_item; [done|done| |done].
    intros Hs. simpl in E. by rewrite Hs in E.
Qed.

Lemma sound_close s b r : buffer = b ++ p_rest s -> p_rest s = 101 :: r -> p_start s = Z.of_nat (length b) ->
  reached b (p_tokens s) (p_stack s) -> ready s 101 ->
  (exists s2, parse_token 101 (spent s) = inl s2) -> sound (parse_turn depth_limit s).
Proof.
  intros Hb Hr Ho Hre Hok [s2 Hp]. unfold parse_token in Hp. cbn [Z.eqb Pos.eqb] in Hp.
  unfold close_container in Hp. cbn [p_stack spent] in Hp.
  remember (p_tokens s) as ts0 eqn:Hts. remember (p_stack s) as k0 eqn:Hk.
  destruct Hre as [|b ts k t st b' ts' Hsus Hpart]; [done|].
  rewrite last_snoc in Hp.
  assert (valid (ts ++ new_token_0 (Z.of_nat (length b)) t :: ts') (k ++ [mk_frame (length ts) st])) as Hv
    by (by eapply reached_valid, reached_in).
  rewrite (dict_frame_top _ (k ++ [mk_frame (length ts) st]) []) in Hp by (simpl; by rewrite app_nil_r).
  cbn [spent p_tokens] in Hp. rewrite <- Hts in Hp.
  unfold top_state in Hp. rewrite last_snoc in Hp. cbn [frame_token frame_state] in Hp. rewrite type_at_middle in Hp.
  assert (st = false) as ->.
  { destruct st; [|done]. destruct (part_type _ _ _ _ _ Hpart) as [[-> | ->] Hl]; [|by specialize (Hl eq_refl)].
    by rewrite bool_decide_true in Hp by done. }
  destruct (bool_decide (_ = Some true)); [done|].
  destruct (Z.ltb_spec max_next_item (Z.of_nat (length (p_tokens (push_token (new_token (p_start (spent s)) 1 T_end 0) (spent s)))) -
    Z.of_nat (length ts))) as [|Hmax]; [done|].
  simpl in Hmax. rewrite <- Hts, !length_app in Hmax. simpl in Hmax.
  destruct Hok as [Hd Hl _ _]. rewrite <- Hk in Hd.
  assert (t = T_dict \/ t = T_list) as Ht by apply (part_type _ _ _ _ _ Hpart).
  rewrite (close_turn s (Z.of_nat (length b)) t ts ts' k r Ht Hr) by
    (done || by rewrite <- Hk || lia || by eapply suspended_valid).
  set (c := if bool_decide (t = T_dict) then 100 else 108) in *.
  assert (exists v, item (Z.of_nat (length b)) (c :: b' ++ [101]) (container t (Z.of_nat (length b)) ts' (p_start s)) v) as [v Hi].
  { rewrite Ho, length_app. cbn [length]. replace (Z.of_nat (length b + S (length b'))) with
      (Z.of_nat (length b) + 1 + Z.of_nat (length b')) by lia.
    clear -Hpart Hmax. inversion Hpart; subst; eexists; [eapply item_list|eapply item_dict]; try done; lia. }
  apply (sound_after _ b (c :: b' ++ [101]) ts v k r); cbn [p_tokens p_rest p_start p_stack]; try done.
  - by rewrite drop_app_length.
  - rewrite Hb, Hr, <- !app_assoc. cbn [app]. by rewrite <- app_assoc.
  - rewrite Ho, !length_app. simpl. rewrite length_app. simpl. lia.
  - by rewrite drop_app_length.
Qed.

Lemma sound_turn s : midway s -> sound (parse_turn depth_limit s).
Proof.
  intros (b & Hb & Ho & Hre). pose proof (reached_valid _ _ _ Hre) as Hv.
  destruct (turn_cases s _ Hv eq_refl) as [(s' & e & pos & ->)|(c & rest & s2 & Hr & Hok & Hp & Ht)]; [done|].
  destruct (decide (c = 101)) as [->|H101]; [by eapply sound_close; eauto|].
  assert (top_state (p_tokens s) (p_stack s) = Some false -> numeric c = true) as Hkey
    by (intros E; by destruct (ready_key _ _ Hok E)).
  assert (forall t, t = T_dict \/ t = T_list -> c = (if bool_decide (t = T_dict) then 100 else 108) ->
    sound (parse_turn depth_limit s)) as Hopen.
  { intros t Htl Hc. rewrite (open_turn s t rest Htl) by (by rewrite <- Hc). simpl.
    exists (b ++ [c]). simpl. rewrite Hr. cbn [skipn]. rewrite drop_0, <- app_assoc. split; [by rewrite Hb, Hr|].
    split; [rewrite length_app; simpl; lia|]. rewrite Hc, Ho.
    apply (reached_in b (p_tokens s) (flip_top (p_tokens s) (p_stack s)) t false [] []).
    - apply reached_suspended; [done|]. intros E. specialize (Hkey E). subst c. by destruct Htl as [-> | ->].
    - destruct Htl as [-> | ->]; [eapply part_dict, pairs_nil|eapply part_list, items_nil]. }
  unfold parse_token in Hp.
  destruct (Z.eqb_spec c 100) as [->|H100]; [by apply (Hopen T_dict); [left|]|].
  destruct (Z.eqb_spec c 108) as [->|H108]; [by apply (Hopen T_list); [right|]|].
  destruct (Z.eqb_spec c 105) as [->|H105].
  - pose proof Hp as Hrun. apply (parse_integer_inv (spent s) s2 rest Hr) in Hp as (negative & ds & r & -> & Hd & ->).
    set (b' := 105 :: int_text negative ds ++ [101]).
    assert (length b' = length (int_text negative ds) + 2)%nat as Hl by (simpl; rewrite length_app; simpl; lia).
    rewrite (leaf_turn s 105 _ b' (new_token (p_start s) 1 T_integer 1) Hr Hok) by (done || by rewrite Hl).
    apply (sound_leaf s b b' r _ (BInt (int_of negative ds))); try done.
    + rewrite Hb, Hr. simpl. by rewrite <- app_assoc.
    + rewrite Hr. simpl. by rewrite <- app_assoc.
    + rewrite Ho. by apply item_int.
    + intros E. by specialize (Hkey E).
  - rewrite (proj2 (Z.eqb_neq c 101)) in Hp by done. pose proof Hp as Hrun.
    apply (parse_string_inv (spent s) c rest s2 Hr) in Hp as (ds & str & r & E & Hd & ->).
    set (b' := ds ++ 58 :: str).
    assert (length b' = length ds + 1 + length str)%nat as Hl by (unfold b'; rewrite length_app; simpl; lia).
    assert (p_rest s = b' ++ r) as Hr' by (unfold b'; rewrite Hr, E, <- app_assoc; done).
    rewrite (leaf_turn s c _ b' (new_token (p_start s) 1 T_string (Z.of_nat (length ds) + 1)) Hr Hok).
    + apply (sound_leaf s b b' r _ (BStr str)); try done; [by rewrite Hb, Hr'| |by eexists].
      rewrite Ho. by apply item_str.
    + by destruct ds.
    + unfold parse_token. rewrite !(proj2 (Z.eqb_neq c _)) by done. by rewrite Hl.
Qed.

Lemma sound_turns s s' : turns s s' -> midway s -> midway s'.
Proof.
  induction 1 as [|s s1 s' Hs _ IH]; [done|]. intros Hm. apply IH.
  pose proof (sound_turn s Hm) as H. by rewrite Hs in H.
Qed.
End Sound.
End Turns.

(** ** The decoder *)

(** The root node of a decoded buffer. *)
Definition root_node (buffer b : bytes) (ts : list bdecode_token) : bdecode_node :=
  mk_node true (ts ++ [new_token (Z.of_nat (length b)) 0 T_end 0]) buffer (Z.of_nat (length b)) 0 (-1) (-1) (-1).

(** The decoder on the bytes of a value and anything after them. *)
Lemma decode_item depth_limit token_limit b r ts v :
  item 0 b ts v -> Z.of_nat (length (b ++ r)) <= max_offset ->
  (depth v < depth_limit)%nat -> Z.of_nat (length ts) <= token_limit ->
  bdecode depth_limit token_limit (b ++ r) = Ok (root_node (b ++ r) b ts, no_error, 0).
Proof.
  intros Hi Hsize Hd Hl. unfold bdecode. rewrite (proj2 (Z.ltb_ge _ _)) by done.
  destruct (proj1 (grammar_accepted depth_limit) _ _ _ _ Hi (mk_pstate 0 (b ++ r) [] [] token_limit) r)
    as (s1 & Hs1 & Hdone); [done|done|split; [simpl; lia|done|constructor]|done|].
  rewrite (parse_loop_turns depth_limit _ s1 _ Hs1 Hdone) by done. done.
Qed.

(** C11: The decoder accepts every buffer that starts with a value of the grammar, within the
    limits on size, nesting and tokens, and its tokens are those of the grammar. *)
Theorem bdecode_complete depth_limit token_limit b r ts v :
  item 0 b ts v -> Z.of_nat (length (b ++ r)) <= max_offset ->
  (depth v < depth_limit)%nat -> Z.of_nat (length ts) <= token_limit ->
  bdecode depth_limit token_limit (b ++ r) = Ok (root_node (b ++ r) b ts, no_error, 0).
Proof. apply decode_item. Qed.

(** The node of a buffer the decoder accepts. *)
Lemma decoded_root depth_limit token_limit buffer n pos :
  bdecode depth_limit token_limit buffer = Ok (n, no_error, pos) ->
  exists b r ts v, buffer = b ++ r /\ item 0 b ts v /\ n = root_node buffer b ts.
Proof.
  unfold bdecode. destruct (Z.ltb_spec max_offset (Z.of_nat (length buffer))); [done|].
  destruct (parse_loop _ _ _) as [[[s ec] pos']|] eqn:E; [|done]. cbn [mbind result_bind]. intros [= <- -> <-].
  apply parse_loop_done in E as (s1 & Hs1 & Hdone).
  assert (midway buffer (mk_pstate 0 buffer [] [] token_limit)) as H0 by (exists []; split_and!; [done|done|constructor]).
  pose proof (sound_turn depth_limit buffer s1 (sound_turns depth_limit buffer _ _ Hs1 H0)) as Hs.
  rewrite Hdone in Hs. destruct Hs as (b & v & Hb & Ho & Hk & Hi).
  exists b, (p_rest s), (p_tokens s), v. split; [done|]. split; [done|]. rewrite Hk, Ho. done.
Qed.

(** A buffer the decoder accepts starts with a value of the grammar, and the node it
    yields is the root of the value's tokens. *)
Theorem bdecode_sound depth_limit token_limit buffer n pos :
  bdecode depth_limit token_limit buffer = Ok (n, no_error, pos) ->
  exists b r ts v, buffer = b ++ r /\ item 0 b ts v /\ n = root_node buffer b ts.
Proof. apply decoded_root. Qed.

Lemma bdecode_returns depth_limit token_limit buffer :
  exists n ec pos, bdecode depth_limit token_limit buffer = Ok (n, ec, pos).
Proof.
  unfold bdecode. destruct (_ <? _); [by repeat eexists|].
  destruct (parse_loop_total depth_limit (length buffer) (mk_pstate 0 buffer [] [] token_limit)) as [[[s e] pos] ->]; [done|].
  by repeat eexists.
Qed.

(** The decoder returns on every buffer. *)
Theorem bdecode_terminates depth_limit token_limit buffer :
  exists n ec pos, bdecode depth_limit token_limit buffer = Ok (n, ec, pos).
Proof. apply bdecode_returns. Qed.

(** ** A sample *)

(** [d5:peersl2:abi7eee], followed by a byte that does not belong to it. *)
Definition sample_text : bytes := bytes_of_string "d5:peersl2:abi7eee".

Definition sample_value : bvalue := BDict [(bytes_of_string "peers", BList [BStr (bytes_of_string "ab"); BInt 7])].

Definition sample_tokens : list bdecode_token :=
  [mk_token 0 T_dict 7 0; mk_token 1 T_string 1 0; mk_token 8 T_list 4 0; mk_token 9 T_string 1 0;
   mk_token 13 T_integer 1 0; mk_token 16 T_end 1 0; mk_token 17 T_end 1 0].

Lemma sample_item : item 0 sample_text sample_tokens sample_value.
Proof.
  apply (item_dict 0 (bytes_of_string "5:peersl2:abi7ee") (take 5 (drop 1 sample_tokens)) [(bytes_of_string "peers", BList [BStr (bytes_of_string "ab"); BInt 7])]); [|done].
  apply (pairs_cons 1 (bytes_of_string "5:peers") [mk_token 1 T_string 1 0] (bytes_of_string "peers")
    (bytes_of_string "l2:abi7ee") (take 4 (drop 2 sample_tokens)) (BList [BStr (bytes_of_string "ab"); BInt 7]) [] [] []).
  - apply (item_str 1 [53] (bytes_of_string "peers")). split; [by repeat constructor|]. split; [simpl; lia|done].
  - apply (item_list 8 (bytes_of_string "2:abi7e") (take 2 (drop 3 sample_tokens)) [BStr (bytes_of_string "ab"); BInt 7]); [|done].
    apply (items_cons 9 (bytes_of_string "2:ab") [mk_token 9 T_string 1 0] _ (bytes_of_string "i7e") [mk_token 13 T_integer 1 0]).
    + apply (item_str 9 [50] (bytes_of_string "ab")). split; [by repeat constructor|]. split; [simpl; lia|done].
    + apply (items_cons 13 (bytes_of_string "i7e") [mk_token 13 T_integer 1 0] _ [] []); [|constructor].
      apply (item_int 13 false [55]). split; [by repeat constructor|simpl; lia].
  - constructor.
Qed.

Lemma bdecode_complete_witness :
  bdecode 100 2000000 (sample_text ++ [33]) = Ok (root_node (sample_text ++ [33]) sample_text sample_tokens, no_error, 0).
Proof.
  apply (bdecode_complete 100 2000000 sample_text [33] sample_tokens sample_value).
  - exact sample_item.
  - by vm_compute.
  - simpl. lia.
  - by vm_compute.
Defined.

Lemma bdecode_sound_witness : exists b r ts v, bytes_of_string "i-12ex" = b ++ r /\ item 0 b ts v /\
  mk_node true [mk_token 0 T_integer 1 0; mk_token 5 T_end 0 0] (bytes_of_string "i-12ex") 5 0 (-1) (-1) (-1) =
    root_node (bytes_of_string "i-12ex") b ts.
Proof. apply (bdecode_sound 100 2000000 (bytes_of_string "i-12ex") _ 0). by vm_compute. Defined.
