(* ===== verification/BdecodeNodes.v ===== *)
(** * Bencoded data: the nodes

    A node of the decoder stands for a value of the grammar, and every accessor of
    [bdecode_node] computes what the value has at that place; the caches the accessors
    leave in a node do not change what it stands for. *)

From S2P Require Import Prelude Bdecode BdecodeSpec.

(** ** A value at a place in the tokens *)

(** The token [idx] of the node's tokens is the first of the value [v], which is written
    as [b] in the buffer. *)
Definition placed_as (n : bdecode_node) (idx : Z) (b : bytes) (v : bvalue) : Prop :=
  exists pre ts t post bpre bpost,
    m_root_tokens n = pre ++ ts ++ t :: post /\ idx = Z.of_nat (length pre) /\
    m_buffer n = bpre ++ b ++ bpost /\ Z.of_nat (length (m_buffer n)) <= max_offset /\
    item (Z.of_nat (length bpre)) b ts v /\ offset t = Z.of_nat (length bpre + length b).

Definition placed (n : bdecode_node) (idx : Z) (v : bvalue) : Prop := exists b, placed_as n idx b v.

(** The index after the item at [idx]. *)
Definition next_index (n : bdecode_node) (idx idx' : Z) : Prop :=
  exists t, token_at n idx = Ok t /\ idx' = idx + next_item t.

(** The items of a list, and the pairs of a dictionary, from [idx] to the end token. *)
Fixpoint placed_items (n : bdecode_node) (idx : Z) (l : list bvalue) : Prop :=
  match l with
  | [] => exists t, token_at n idx = Ok t /\ type_ t = T_end
  | v :: l' => placed n idx v /\ exists idx', next_index n idx idx' /\ placed_items n idx' l'
  end.

Fixpoint placed_pairs (n : bdecode_node) (idx : Z) (l : list (bytes * bvalue)) : Prop :=
  match l with
  | [] => exists t, token_at n idx = Ok t /\ type_ t = T_end
  | (k, v) :: l' =>
      placed n idx (BStr k) /\ exists idv, next_index n idx idv /\ placed n idv v /\
      exists idx', next_index n idv idx' /\ placed_pairs n idx' l'
  end.

Lemma token_at_middle n pre t post : m_root_tokens n = pre ++ t :: post -> token_at n (Z.of_nat (length pre)) = Ok t.
Proof.
  intros H. unfold token_at. rewrite (proj2 (Z.ltb_ge _ _)) by lia.
  by rewrite Nat2Z.id, H, lookup_app_r, Nat.sub_diag by done.
Qed.

Lemma offset_small (k n : nat) : Z.of_nat n <= max_offset -> (k <= n)%nat -> Z.of_nat k mod 2 ^ 29 = Z.of_nat k.
Proof. unfold max_offset. intros H Hk. apply Z.mod_small. lia. Qed.

(** The first token of a placed value and the token after its last. *)
Lemma placed_tokens n idx b v : placed_as n idx b v -> exists t t' bpre bpost,
  token_at n idx = Ok t /\ type_ t = token_of v /\ 1 <= next_item t /\ token_at n (idx + next_item t) = Ok t' /\
  offset t = Z.of_nat (length bpre) /\ offset t' = Z.of_nat (length bpre + length b) /\
  m_buffer n = bpre ++ b ++ bpost.
Proof.
  intros (pre & ts & t' & post & bpre & bpost & Ht & -> & Hb & Hmax & Hi & Hoff).
  destruct (item_head _ _ _ _ Hi) as (t & ts' & -> & Hty & Ho & Hn).
  exists t, t', bpre, bpost. split; [by apply (token_at_middle n pre t (ts' ++ t' :: post))|].
  split; [done|]. split; [rewrite Hn; simpl; lia|]. split.
  - rewrite Hn, <- Nat2Z.inj_add, <- length_app. apply (token_at_middle n _ t' post). by rewrite <- app_assoc.
  - rewrite Ho. split; [|done]. eapply offset_small; [exact Hmax|]. rewrite Hb, !length_app. lia.
Qed.

(** The tokens of an item have a next token with the offset of the next item. *)
Lemma items_head o b ts l t : items o b ts l -> offset t = o + Z.of_nat (length b) ->
  0 <= o -> o + Z.of_nat (length b) <= max_offset ->
  exists t0 post, ts ++ [t] = t0 :: post /\ offset t0 = o.
Proof.
  intros H Ht Ho Hmax. destruct H as [o|o b ts v b' ts' l Hi _].
  - exists t, []. split; [done|]. simpl in Ht. lia.
  - destruct (item_head _ _ _ _ Hi) as (t0 & ts0 & -> & _ & Hoff & _). eexists t0, _. split; [done|].
    rewrite Hoff. apply Z.mod_small. unfold max_offset in Hmax. lia.
Qed.

(** The first of the items that are written from [bpre] on is placed where its tokens begin. *)
Lemma head_placed n b ts v b' ts' l pre t post bpre bpost : Z.of_nat (length (m_buffer n)) <= max_offset ->
  item (Z.of_nat (length bpre)) b ts v -> items (Z.of_nat (length bpre) + Z.of_nat (length b)) b' ts' l ->
  m_root_tokens n = pre ++ (ts ++ ts') ++ t :: post -> m_buffer n = bpre ++ (b ++ b') ++ bpost ->
  offset t = Z.of_nat (length bpre) + Z.of_nat (length (b ++ b')) ->
  placed_as n (Z.of_nat (length pre)) b v /\ next_index n (Z.of_nat (length pre)) (Z.of_nat (length (pre ++ ts))).
Proof.
  intros Hmax Hi Hl Ht Hb Hoff. rewrite length_app, Nat2Z.inj_add, Z.add_assoc in Hoff.
  assert (Z.of_nat (length bpre) + Z.of_nat (length b) + Z.of_nat (length b') <= max_offset) as Hm
    by (rewrite Hb, !length_app in Hmax; lia).
  destruct (items_head _ _ _ _ t Hl Hoff ltac:(lia) Hm) as (t0 & post0 & E & Ht0).
  assert (m_root_tokens n = pre ++ ts ++ t0 :: post0 ++ post) as Ht'.
  { rewrite Ht. f_equal. rewrite <- app_assoc. f_equal. change (t :: post) with ([t] ++ post). by rewrite app_assoc, E. }
  split.
  - exists pre, ts, t0, (post0 ++ post), bpre, (b' ++ bpost). split; [done|]. split; [done|].
    split; [by rewrite Hb, <- app_assoc|]. split; [done|]. split; [done|]. lia.
  - destruct (item_head _ _ _ _ Hi) as (t1 & ts1 & E1 & _ & _ & Hn). exists t1.
    split; [apply (token_at_middle n pre t1 (ts1 ++ t0 :: post0 ++ post)); by rewrite Ht', E1|]. rewrite length_app. lia.
Qed.

Lemma items_placed n : Z.of_nat (length (m_buffer n)) <= max_offset -> forall o b ts l, items o b ts l ->
  forall pre t post bpre bpost, m_root_tokens n = pre ++ ts ++ t :: post -> m_buffer n = bpre ++ b ++ bpost ->
  o = Z.of_nat (length bpre) -> type_ t = T_end -> offset t = o + Z.of_nat (length b) ->
  placed_items n (Z.of_nat (length pre)) l.
Proof.
  intros Hmax o b ts l H. induction H as [o|o b ts v b' ts' l Hi Hl IH];
    intros pre t post bpre bpost Ht Hb Ho Hty Hoff; cbn [placed_items].
  - exists t. split; [|done]. by apply (token_at_middle n pre t post).
  - subst o. destruct (head_placed n b ts v b' ts' l pre t post bpre bpost) as [Hp Hn]; try done.
    split; [by exists b|]. eexists. split; [exact Hn|]. apply (IH (pre ++ ts) t post (bpre ++ b) bpost); try done.
    + by rewrite Ht, <- !app_assoc.
    + by rewrite Hb, <- !app_assoc.
    + rewrite length_app. lia.
    + rewrite Hoff, length_app. lia.
Qed.

Lemma placed_container n ty pre b0 ts0 l t post bpre bpost :
  Z.of_nat (length (m_buffer n)) <= max_offset -> items (Z.of_nat (length bpre) + 1) b0 ts0 l ->
  m_root_tokens n = pre ++ container ty (Z.of_nat (length bpre)) ts0 (Z.of_nat (length bpre) + 1 + Z.of_nat (length b0)) ++ t :: post ->
  (exists c, m_buffer n = bpre ++ (c :: b0 ++ [101]) ++ bpost) -> placed_items n (Z.of_nat (length pre) + 1) l.
Proof.
  intros Hmax Hl Ht [c Hb]. unfold container in Ht.
  set (t0 := set_next_item _ _) in Ht.
  replace (Z.of_nat (length pre) + 1) with (Z.of_nat (length (pre ++ [t0]))) by (rewrite length_app; simpl; lia).
  eapply (items_placed n Hmax _ _ _ _ Hl _ _ (t :: post) (bpre ++ [c]) ([101] ++ bpost)).
  - rewrite Ht. cbn [app]. rewrite <- !app_assoc. reflexivity.
  - rewrite Hb. cbn [app]. by rewrite <- !app_assoc.
  - rewrite length_app. simpl. lia.
  - done.
  - simpl. apply Z.mod_small. unfold max_offset in Hmax. rewrite Hb, !length_app in Hmax. simpl in Hmax.
    rewrite length_app in Hmax. lia.
Qed.

Lemma placed_list n idx l : placed n idx (BList l) -> placed_items n (idx + 1) l.
Proof.
  intros (b & pre & ts & t & post & bpre & bpost & Ht & -> & Hb & Hmax & Hi & Hoff).
  inversion Hi as [| |o b0 ts0 l0 Hl Hm|]; subst. by eapply placed_container; eauto.
Qed.

(** The keys and values of a dictionary, one after the other. *)
Definition flatten (l : list (bytes * bvalue)) : list bvalue := concat (map (fun kv => [BStr kv.1; kv.2]) l).

Lemma pairs_items o b ts l : pairs o b ts l -> items o b ts (flatten l).
Proof.
  induction 1 as [o|o bk tk k b ts v b' ts' l Hk Hv _ IH]; [constructor|].
  cbn [flatten map concat]. eapply items_cons; [exact Hk|]. by eapply items_cons.
Qed.

Lemma placed_items_pairs n l : forall idx, placed_items n idx (flatten l) -> placed_pairs n idx l.
Proof. induction l as [|[k v] l IH]; intros idx; cbn; [done|]. naive_solver. Qed.

Lemma placed_dict n idx l : placed n idx (BDict l) -> placed_pairs n (idx + 1) l /\ placed_items n (idx + 1) (flatten l).
Proof.
  intros (b & pre & ts & t & post & bpre & bpost & Ht & -> & Hb & Hmax & Hi & Hoff).
  inversion Hi as [| | |o b0 ts0 l0 Hl Hm]; subst.
  assert (placed_items n (Z.of_nat (length pre) + 1) (flatten l)) as H by (eapply placed_container; eauto using pairs_items).
  split; [by apply placed_items_pairs|done].
Qed.

Lemma placed_next n idx v : placed n idx v -> exists idx', next_index n idx idx' /\ idx < idx'.
Proof.
  intros [b Hp]. destruct (placed_tokens n idx b v Hp) as (t & t' & _ & _ & Ht & _ & Hn & _).
  exists (idx + next_item t). split; [by exists t|lia].
Qed.

Lemma next_index_fun n idx a b : next_index n idx a -> next_index n idx b -> a = b.
Proof. intros (t & Ht & ->) (t' & Ht' & ->). rewrite Ht in Ht'. by injection Ht' as ->. Qed.

Lemma token_at_bound n idx t : token_at n idx = Ok t -> 0 <= idx < Z.of_nat (length (m_root_tokens n)).
Proof.
  unfold token_at. destruct (Z.ltb_spec idx 0); [done|]. destruct (_ !! Z.to_nat idx) eqn:E; [|done].
  apply lookup_lt_Some in E. lia.
Qed.

(** There are no more items than tokens. *)
Lemma placed_items_length n l : forall idx, placed_items n idx l ->
  0 <= idx /\ idx + Z.of_nat (length l) < Z.of_nat (length (m_root_tokens n)).
Proof.
  induction l as [|v l IH]; intros idx H; cbn [placed_items] in H.
  - destruct H as (t & Ht & _). pose proof (token_at_bound n idx t Ht). simpl. lia.
  - destruct H as [Hp (idx' & Hn & Hl)]. destruct (placed_next n idx v Hp) as (idx2 & Hn2 & Hlt).
    rewrite (next_index_fun _ _ _ _ Hn Hn2) in *. destruct Hn2 as (t & Ht & _).
    pose proof (token_at_bound n idx t Ht). destruct (IH _ Hl). simpl. lia.
Qed.

(** ** Strings, numbers and the section of the buffer *)

Lemma buffer_span_at n bpre b bpost : m_buffer n = bpre ++ b ++ bpost ->
  buffer_span n (Z.of_nat (length bpre)) (Z.of_nat (length b)) = b.
Proof. intros H. unfold buffer_span. by rewrite !Nat2Z.id, H, drop_app_length, take_app_length. Qed.

(** The first token of a placed number or string, the span of its source and its text. *)
Lemma placed_leaf n idx v : placed n idx v -> (exists z, v = BInt z) \/ (exists s, v = BStr s) ->
  exists b t bpre bpost ts, item (Z.of_nat (length bpre)) b ts v /\ ts = [t] /\ token_at n idx = Ok t /\
    offset t = Z.of_nat (length bpre) /\ token_source_span n idx = Ok (Z.of_nat (length b)) /\
    m_buffer n = bpre ++ b ++ bpost.
Proof.
  intros [b Hp] Hv. destruct (placed_tokens n idx b v Hp) as (t & t' & bpre & bpost & Ht & _ & _ & Hn & Ho & Ho' & Hb).
  destruct Hp as (pre & ts & t1 & post & bpre1 & bpost1 & Htok & Hidx & Hb1 & Hmax & Hi & Hoff).
  assert (exists t0, ts = [t0]) as [t0 ->].
  { destruct Hv as [[z ->] | [s ->]]; inversion Hi; subst; by eexists. }
  assert (token_at n idx = Ok t0) as Ht0 by (rewrite Hidx; by apply (token_at_middle n pre t0 (t1 :: post))).
  assert (t = t0) as <- by congruence.
  assert (token_at n (idx + 1) = Ok t1) as Ht1.
  { rewrite Hidx. replace (Z.of_nat (length pre) + 1) with (Z.of_nat (length (pre ++ [t]))) by (rewrite length_app; simpl; lia).
    apply (token_at_middle n _ t1 post). by rewrite <- app_assoc. }
  exists b, t, bpre1, bpost1, [t]. split; [done|]. split; [done|]. split; [done|].
  destruct (item_head _ _ _ _ Hi) as (t2 & ts2 & [= <- <-] & _ & Ho2 & _).
  assert (offset t = Z.of_nat (length bpre1)) as Ho3
    by (rewrite Ho2; apply (offset_small _ _ Hmax); rewrite Hb1, length_app; lia).
  split; [done|]. split; [|done]. unfold token_source_span. rewrite Ht, Ht1. cbn [mbind result_bind]. f_equal. lia.
Qed.

Lemma string_value_placed n idx s : m_token_idx n = idx -> placed n idx (BStr s) ->
  string_value n = Ok s /\ string_length n = Ok (Z.of_nat (length s)).
Proof.
  intros Hidx Hp. destruct (placed_leaf n idx _ Hp) as (b & t & bpre & bpost & ts & Hi & -> & Ht & Ho & Hs & Hb); [by right; eexists|].
  inversion Hi as [|o ds s0 Hd| |]; subst. unfold string_value, string_length. rewrite Ht, Hs. cbn [mbind result_bind].
  set (t := new_token _ _ _ _) in *.
  assert (start_offset t = Z.of_nat (length ds) + 1) as ->.
  { unfold start_offset, t. cbn [header new_token]. rewrite bool_decide_true by done.
    destruct Hd as (_ & Hl & _). rewrite Z.mod_small; lia. }
  rewrite Ho, length_app. cbn [length].
  replace (Z.of_nat (length ds + S (length s)) - (Z.of_nat (length ds) + 1)) with (Z.of_nat (length s)) by lia.
  split; [|done]. f_equal.
  replace (Z.of_nat (length bpre) + (Z.of_nat (length ds) + 1)) with (Z.of_nat (length (bpre ++ ds ++ [58])))
    by (rewrite !length_app; simpl; lia).
  apply buffer_span_at with bpost. rewrite Hb, <- !app_assoc. done.
Qed.

Lemma int_value_placed n idx z : m_token_idx n = idx -> placed n idx (BInt z) -> int_value n = Ok z.
Proof.
  intros Hidx Hp. destruct (placed_leaf n idx _ Hp) as (b & t & bpre & bpost & ts & Hi & -> & Ht & Ho & Hs & Hb); [by left; eexists|].
  inversion Hi as [o negative ds Hd| | |]; subst. unfold int_value. rewrite Ht, Hs. cbn [mbind result_bind]. rewrite Ho.
  destruct Hd as [Hd Hl].
  assert (exists r, buffer_span n (Z.of_nat (length bpre) + 1) (Z.of_nat (length (105 :: int_text negative ds ++ [101]))) =
    int_text negative ds ++ 101 :: r) as [r ->].
  { unfold buffer_span. rewrite Hb. replace (Z.to_nat (Z.of_nat (length bpre) + 1)) with (length (bpre ++ [105]))
      by (rewrite length_app; simpl; lia).
    rewrite Nat2Z.id. change (bpre ++ (105 :: int_text negative ds ++ [101]) ++ bpost) with
      (bpre ++ [105] ++ (int_text negative ds ++ [101]) ++ bpost).
    rewrite (app_assoc bpre), drop_app_length. cbn [length].
    exists (take 1 bpost). rewrite take_app, take_ge by lia. rewrite <- app_assoc. do 3 f_equal. lia. }
  assert (head (int_text negative ds ++ 101 :: r) = if negative then Some 45 else head ds) as ->.
  { destruct negative; [done|]. destruct ds; [simpl in Hl; lia|done]. }
  assert (bool_decide ((if negative then Some 45 else head ds) = Some 45) = negative) as ->.
  { destruct negative; [by rewrite bool_decide_true|]. destruct ds as [|d ds]; [done|].
    apply Forall_inv in Hd. apply numeric_bounds in Hd. apply bool_decide_false. simpl. intros [= ->]. lia. }
  assert ((if negative then drop 1 (int_text negative ds ++ 101 :: r) else int_text negative ds ++ 101 :: r) = ds ++ 101 :: r) as ->
    by (by destruct negative; [cbn [int_text app skipn]; rewrite drop_0|]).
  destruct (parse_int_digits ds (101 :: r) 101 eq_refl (or_intror eq_refl) 0 0%nat Hd ltac:(unfold int64_max; lia)) as [H1 H2].
  unfold int_of. change (number ds) with (number_from 0 ds).
  destruct (Z.ltb_spec int64_max (number_from 0 ds)) as [Hlt|Hle].
  - destruct (H2 Hlt) as (m & v & ->). done.
  - rewrite (H1 Hle). done.
Qed.

Lemma data_section_placed n idx b v : m_token_idx n = idx -> placed_as n idx b v -> data_section n = Ok b.
Proof.
  intros Hidx Hp. destruct (placed_tokens n idx b v Hp) as (t & t' & bpre & bpost & Ht & _ & _ & Hn & Ho & Ho' & Hb).
  unfold data_section. pose proof (token_at_bound n idx t Ht). rewrite (proj2 (Z.eqb_neq _ _)) by lia.
  rewrite Hidx, Ht. cbn [mbind result_bind]. rewrite Hn. cbn [mbind result_bind]. rewrite Ho, Ho'. f_equal.
  replace (Z.of_nat (length bpre + length b) - Z.of_nat (length bpre)) with (Z.of_nat (length b)) by lia.
  by apply buffer_span_at with bpost.
Qed.

(** ** Walks over the items *)

(** The caches do not change what is placed where. *)
Lemma placed_same n n' idx v : m_root_tokens n = m_root_tokens n' -> m_buffer n = m_buffer n' ->
  placed n idx v -> placed n' idx v.
Proof. unfold placed, placed_as. by intros -> ->. Qed.

Lemma placed_items_same n n' l : m_root_tokens n = m_root_tokens n' -> m_buffer n = m_buffer n' ->
  forall idx, placed_items n idx l -> placed_items n' idx l.
Proof.
  intros Ht Hb. unfold next_index, token_at. induction l as [|v l IH]; intros idx; cbn [placed_items];
    unfold next_index, token_at; rewrite Ht; [done|].
  intros [Hp (idx' & Hn & Hl)]. split; [by eapply placed_same|]. exists idx'. split; [done|]. by apply IH.
Qed.

Lemma placed_pairs_items n l : forall idx, placed_pairs n idx l -> placed_items n idx (flatten l).
Proof. induction l as [|[k v] l IH]; intros idx; cbn; [done|]. naive_solver. Qed.

Lemma placed_pairs_same n n' l idx : m_root_tokens n = m_root_tokens n' -> m_buffer n = m_buffer n' ->
  placed_pairs n idx l -> placed_pairs n' idx l.
Proof. intros Ht Hb H. by eapply placed_items_pairs, placed_items_same, placed_pairs_items. Qed.

Lemma list_walk_items n : forall k l idx, (k <= length l)%nat -> placed_items n idx l ->
  exists idx', list_walk n k idx = Ok idx' /\ placed_items n idx' (drop k l).
Proof.
  induction k as [|k IH]; intros l idx Hk H; [by exists idx; rewrite drop_0|].
  destruct l as [|v l]; simpl in Hk; [lia|]. destruct H as [_ (idx' & (t & Ht & ->) & Hl)].
  cbn [list_walk]. rewrite Ht. cbn [mbind result_bind skipn]. by apply IH; [lia|].
Qed.

Lemma dict_walk_pairs n : forall k l idx, (k <= length l)%nat -> placed_pairs n idx l ->
  exists idx', dict_walk n k idx = Ok idx' /\ placed_pairs n idx' (drop k l).
Proof.
  induction k as [|k IH]; intros l idx Hk H; [by exists idx; rewrite drop_0|].
  destruct l as [|[key v] l]; simpl in Hk; [lia|].
  destruct H as [_ (idv & (t & Ht & ->) & _ & (idx' & (t' & Ht' & ->) & Hl))].
  cbn [dict_walk]. rewrite Ht. cbn [mbind result_bind]. rewrite Ht'. cbn [mbind result_bind skipn]. by apply IH; [lia|].
Qed.

Lemma placed_type n idx v : placed n idx v -> exists t, token_at n idx = Ok t /\ type_ t = token_of v.
Proof. intros [b Hp]. destruct (placed_tokens n idx b v Hp) as (t & _ & _ & _ & Ht & Hty & _). by exists t. Qed.

Lemma count_items_placed n l : forall fuel idx ret, (length l <= fuel)%nat -> placed_items n idx l ->
  count_items fuel n idx ret = Ok (ret + Z.of_nat (length l)).
Proof.
  induction l as [|v l IH]; intros fuel idx ret Hf H; cbn [placed_items] in H.
  - destruct H as (t & Ht & Hty). destruct fuel; cbn [count_items]; rewrite Ht; cbn [mbind result_bind];
      rewrite bool_decide_true by done; f_equal; simpl; lia.
  - destruct H as [Hp (idx' & (t & Ht & ->) & Hl)]. destruct (placed_type _ _ _ Hp) as (t' & Ht' & Hty).
    assert (t' = t) as -> by congruence. destruct fuel as [|fuel]; simpl in Hf; [lia|].
    cbn [count_items]. rewrite Ht. cbn [mbind result_bind]. rewrite bool_decide_false by (rewrite Hty; by destruct v).
    rewrite (IH fuel _ _ ltac:(lia) Hl). f_equal. simpl length. lia.
Qed.

(** The first value with a key. *)
Fixpoint value_of (key : bytes) (l : list (bytes * bvalue)) : option bvalue :=
  match l with
  | [] => None
  | (k, v) :: l' => if bool_decide (key = k) then Some v else value_of key l'
  end.

(** The comparison of a key with the string of a token. *)
Lemma key_matches n idx t k key : placed n idx (BStr k) -> token_at n idx = Ok t ->
  exists span, token_source_span n idx = Ok span /\
    (Z.of_nat (length key) =? span - start_offset t) &&
      bool_decide (key = buffer_span n (offset t + start_offset t) (span - start_offset t)) = bool_decide (key = k).
Proof.
  intros Hp Ht. set (c := node_at (m_root_tokens n) (m_buffer n) (m_buffer_size n) idx).
  destruct (string_value_placed c idx k eq_refl) as [Hv Hl]; [by apply (placed_same n)|].
  unfold string_value, string_length in Hv, Hl. change (m_token_idx c) with idx in *.
  change (token_at c idx) with (token_at n idx) in *.
  change (token_source_span c idx) with (token_source_span n idx) in *.
  rewrite Ht in Hv, Hl. cbn [mbind result_bind] in Hv, Hl.
  destruct (token_source_span n idx) as [span|]; [|done]. cbn [mbind result_bind] in Hv, Hl.
  assert (buffer_span c (offset t + start_offset t) (span - start_offset t) = k) as Hv' by congruence.
  assert (span - start_offset t = Z.of_nat (length k)) as Hl' by congruence. exists span. split; [done|].
  change (buffer_span n) with (buffer_span c). rewrite Hv', Hl'.
  destruct (Z.eqb_spec (Z.of_nat (length key)) (Z.of_nat (length k))) as [E|E]; [done|].
  cbn [andb]. symmetry. apply bool_decide_false. by intros ->.
Qed.

Lemma dict_search_pairs n key l : forall fuel idx, (length l <= fuel)%nat -> placed_pairs n idx l ->
  exists r, dict_search fuel n key idx = Ok r /\
    match value_of key l with Some v => exists i, r = Some i /\ placed n i v | None => r = None end.
Proof.
  induction l as [|[k v] l IH]; intros fuel idx Hf H; cbn [placed_pairs] in H.
  - destruct H as (t & Ht & Hty). exists None. split; [|done].
    destruct fuel; cbn [dict_search]; rewrite Ht; cbn [mbind result_bind]; by rewrite bool_decide_true by done.
  - destruct H as [Hk (idv & (t & Ht & ->) & Hv & (idx' & (t' & Ht' & ->) & Hl))].
    destruct (placed_type _ _ _ Hk) as (t0 & Ht0 & Hty). assert (t0 = t) as -> by congruence.
    destruct (key_matches n idx t k key Hk Ht) as (span & Hs & Hm).
    destruct fuel as [|fuel]; simpl in Hf; [lia|]. cbn [dict_search value_of]. rewrite Ht. cbn [mbind result_bind].
    rewrite bool_decide_false by (by rewrite Hty). rewrite Hs. cbn [mbind result_bind]. cbv zeta. rewrite Hm.
    destruct (decide (key = k)) as [E|E]; [rewrite !(bool_decide_true _ E)|rewrite !(bool_decide_false _ E)].
    { exists (Some (idx + next_item t)). split; [done|]. exists (idx + next_item t). by split. }
    rewrite Ht'. cbn [mbind result_bind].
    apply IH; [lia|done].
Qed.

(** The value of the first key [key] among the pairs written as [b] from [o] on is written as [section]. *)
Definition written_under (o : Z) (b key section : bytes) (v : bvalue) : Prop := exists s1 t1 l1 ks tk tv s2 t2 l2,
  b = s1 ++ ks ++ section ++ s2 /\ pairs o s1 t1 l1 /\ value_of key l1 = None /\
  item (o + Z.of_nat (length s1)) ks tk (BStr key) /\
  item (o + Z.of_nat (length s1) + Z.of_nat (length ks)) section tv v /\
  pairs (o + Z.of_nat (length s1) + Z.of_nat (length ks) + Z.of_nat (length section)) s2 t2 l2.

Lemma written_later o bk tk k b ts v' rest key section v : key <> k -> item o bk tk (BStr k) ->
  item (o + Z.of_nat (length bk)) b ts v' ->
  written_under (o + Z.of_nat (length bk) + Z.of_nat (length b)) rest key section v ->
  written_under o (bk ++ b ++ rest) key section v.
Proof.
  intros Hne Hk Hv (s1 & t1 & l1 & ks & tk' & tv & s2 & t2 & l2 & -> & H1 & Hnone & Hks & Hs & H2).
  exists (bk ++ b ++ s1), (tk ++ ts ++ t1), ((k, v') :: l1), ks, tk', tv, s2, t2, l2.
  rewrite !length_app, !Nat2Z.inj_add, !Z.add_assoc. split; [by rewrite <- !app_assoc|].
  split; [by eapply pairs_cons|]. cbn [value_of]. by rewrite bool_decide_false.
Qed.

(** The search for a key finds the value written under it. *)
Lemma dict_search_written n key v : Z.of_nat (length (m_buffer n)) <= max_offset -> forall o b ts l, pairs o b ts l ->
  value_of key l = Some v -> forall fuel pre t post bpre bpost, (length l <= fuel)%nat ->
  m_root_tokens n = pre ++ ts ++ t :: post -> m_buffer n = bpre ++ b ++ bpost ->
  o = Z.of_nat (length bpre) -> type_ t = T_end -> offset t = o + Z.of_nat (length b) ->
  exists i section, dict_search fuel n key (Z.of_nat (length pre)) = Ok (Some i) /\ placed_as n i section v /\
    written_under o b key section v.
Proof.
  intros Hmax o b ts l H. induction H as [o|o bk tk k b ts v' b' ts' l Hk Hv Hl IH];
    intros Hval fuel pre t post bpre bpost Hf Ht Hb -> Hty Hoff; [done|].
  destruct fuel as [|fuel]; [simpl in Hf; lia|]. apply pairs_items in Hl as Hl'.
  destruct (head_placed n bk tk (BStr k) (b ++ b') (ts ++ ts') (v' :: flatten l) pre t post bpre bpost) as [Hpk Hnk]; try done;
    [by eapply items_cons|].
  destruct (head_placed n b ts v' b' ts' (flatten l) (pre ++ tk) t post (bpre ++ bk) bpost) as [Hpv Hnv]; try done.
  { by rewrite length_app, Nat2Z.inj_add. }
  { by rewrite length_app, Nat2Z.inj_add. }
  { by rewrite Ht, <- !app_assoc. }
  { by rewrite Hb, <- !app_assoc. }
  { rewrite Hoff, !length_app. lia. }
  destruct Hnk as (t0 & Ht0 & E0), Hnv as (t1 & Ht1 & E1).
  assert (placed n (Z.of_nat (length pre)) (BStr k)) as Hpk' by by exists bk.
  destruct (placed_type _ _ _ Hpk') as (t0' & Ht0' & Hty'). assert (t0' = t0) as -> by congruence.
  destruct (key_matches n _ t0 k key Hpk' Ht0) as (span & Hs & Hm). cbn [dict_search value_of] in *. rewrite Ht0. cbn [mbind result_bind].
  rewrite bool_decide_false by (by rewrite Hty'). rewrite Hs. cbn [mbind result_bind]. cbv zeta. rewrite Hm.
  destruct (decide (key = k)) as [->|E]; [rewrite !bool_decide_true in * by done|rewrite !(bool_decide_false _ E) in *].
  - injection Hval as ->. exists (Z.of_nat (length (pre ++ tk))), b. split; [by rewrite E0|]. split; [done|].
    exists [], [], [], bk, tk, ts, b', ts', l. rewrite Z.add_0_r. split_and!; try done. constructor.
  - rewrite <- E0, Ht1. cbn [mbind result_bind]. rewrite <- E1.
    destruct (IH Hval fuel ((pre ++ tk) ++ ts) t post (bpre ++ bk ++ b) bpost) as (i & section & Hd & Hp & Hw); try done.
    { simpl in Hf. lia. }
    { by rewrite Ht, <- !app_assoc. }
    { by rewrite Hb, <- !app_assoc. }
    { rewrite !length_app. lia. }
    { rewrite Hoff, !length_app. lia. }
    exists i, section. split; [done|]. split; [done|]. by eapply written_later.
Qed.

(** ** What a node denotes *)

(** The caches of a node: the number of its items, and the place of one of them. *)
Definition cache_ok (n : bdecode_node) (v : bvalue) : Prop :=
  match v with
  | BList l =>
      (m_size n = -1 \/ m_size n = Z.of_nat (length l)) /\
      (m_last_index n = -1 \/ 0 <= m_last_index n < Z.of_nat (length l) /\
        placed_items n (m_last_token n) (drop (Z.to_nat (m_last_index n)) l))
  | BDict l =>
      (m_size n = -1 \/ m_size n = Z.of_nat (length l)) /\
      (m_last_index n = -1 \/ 0 <= m_last_index n < Z.of_nat (length l) /\
        placed_pairs n (m_last_token n) (drop (Z.to_nat (m_last_index n)) l))
  | _ => True
  end.

Definition denotes (n : bdecode_node) (v : bvalue) : Prop := placed n (m_token_idx n) v /\ cache_ok n v.

(** The types of values, as the nodes name them. *)
Definition value_type (v : bvalue) : node_type :=
  match v with BInt _ => int_t | BStr _ => string_t | BList _ => list_t | BDict _ => dict_t end.

Lemma placed_index n idx v : placed n idx v -> 0 <= idx.
Proof. intros Hp. destruct (placed_type n idx v Hp) as (t & Ht & _). apply token_at_bound in Ht; lia. Qed.

Lemma denotes_child n idx v : placed n idx v ->
  denotes (node_at (m_root_tokens n) (m_buffer n) (m_buffer_size n) idx) v.
Proof. intros Hp. split; [by apply (placed_same n)|]. destruct v; cbn; auto. Qed.

Lemma node_type_of_denotes n v : denotes n v -> node_type_of n = Ok (value_type v).
Proof.
  intros [Hp _]. unfold node_type_of. pose proof (placed_index _ _ _ Hp). rewrite (proj2 (Z.eqb_neq (m_token_idx n) (-1))) by lia.
  destruct (placed_type _ _ _ Hp) as (t & -> & Hty). cbn [mbind result_bind]. rewrite Hty. by destruct v.
Qed.

(** Where the walk to an item starts is the place of an item before it. *)
Lemma walk_start_list n l i : denotes n (BList l) -> (i < length l)%nat -> exists idx k,
  walk_start n (Z.of_nat i) = (idx, Z.of_nat k) /\ (k <= i)%nat /\ placed_items n idx (drop k l).
Proof.
  intros [Hp [_ Hc]] Hi. unfold walk_start. apply placed_list in Hp.
  destruct (Z.leb_spec (m_last_index n) (Z.of_nat i)); [|by exists (m_token_idx n + 1), 0%nat; rewrite drop_0; split_and!; [|lia|]].
  destruct (Z.eqb_spec (m_last_index n) (-1)); [by exists (m_token_idx n + 1), 0%nat; rewrite drop_0; split_and!; [|lia|]|].
  destruct Hc as [|[Hb Hc]]; [lia|]. exists (m_last_token n), (Z.to_nat (m_last_index n)).
  rewrite Z2Nat.id by lia. split_and!; [done|lia|done].
Qed.

Lemma walk_start_dict n l i : denotes n (BDict l) -> (i < length l)%nat -> exists idx k,
  walk_start n (Z.of_nat i) = (idx, Z.of_nat k) /\ (k <= i)%nat /\ placed_pairs n idx (drop k l).
Proof.
  intros [Hp [_ Hc]] Hi. unfold walk_start. apply placed_dict in Hp as [Hp _].
  destruct (Z.leb_spec (m_last_index n) (Z.of_nat i)); [|by exists (m_token_idx n + 1), 0%nat; rewrite drop_0; split_and!; [|lia|]].
  destruct (Z.eqb_spec (m_last_index n) (-1)); [by exists (m_token_idx n + 1), 0%nat; rewrite drop_0; split_and!; [|lia|]|].
  destruct Hc as [|[Hb Hc]]; [lia|]. exists (m_last_token n), (Z.to_nat (m_last_index n)).
  rewrite Z2Nat.id by lia. split_and!; [done|lia|done].
Qed.

(** Moving the cache of a node to the item just found, or filling in the size. *)
Lemma denotes_cache_list n l idx i : denotes n (BList l) -> (i < length l)%nat -> placed_items n idx (drop i l) ->
  denotes (set_cache idx (Z.of_nat i) n) (BList l).
Proof.
  intros [Hp [Hs Hc]] Hi Hl. split; [by apply (placed_same n)|]. split; [done|]. right. cbn. rewrite Nat2Z.id.
  split; [lia|]. by apply (placed_items_same n).
Qed.

Lemma denotes_cache_dict n l idx i : denotes n (BDict l) -> (i < length l)%nat -> placed_pairs n idx (drop i l) ->
  denotes (set_cache idx (Z.of_nat i) n) (BDict l).
Proof.
  intros [Hp [Hs Hc]] Hi Hl. split; [by apply (placed_same n)|]. split; [done|]. right. cbn. rewrite Nat2Z.id.
  split; [lia|]. by apply (placed_pairs_same n).
Qed.

Lemma denotes_size n v size : denotes n v ->
  (forall l, v = BList l -> size = Z.of_nat (length l)) -> (forall l, v = BDict l -> size = Z.of_nat (length l)) ->
  denotes (set_size size n) v.
Proof.
  intros [Hp Hc] Hl Hd. split; [by apply (placed_same n)|]. destruct v as [z|s|l|l]; [done|done|..];
    destruct Hc as [_ Hc]; (split; [right; cbn; auto|]); destruct Hc as [Hc|[Hb Hc]]; [by left| |by left|];
    right; (split; [done|]).
  - by apply (placed_items_same n).
  - by apply (placed_pairs_same n).
Qed.

Lemma list_at_denotes n l i x : denotes n (BList l) -> l !! i = Some x ->
  exists c n', list_at (Z.of_nat i) n = Ok (c, n') /\ denotes c x /\ denotes n' (BList l).
Proof.
  intros Hn Hx. pose proof (lookup_lt_Some _ _ _ Hx) as Hi.
  destruct (walk_start_list n l i Hn Hi) as (idx & k & Hw & Hk & Hp).
  destruct (list_walk_items n (i - k) (drop k l) idx) as (idx' & Hwalk & Hp'); [rewrite length_drop; lia|done|].
  rewrite drop_drop in Hp'. replace (k + (i - k))%nat with i in Hp' by lia.
  unfold list_at. rewrite Hw. replace (Z.to_nat (Z.of_nat i - Z.of_nat k)) with (i - k)%nat by lia.
  rewrite Hwalk. cbn [mbind result_bind]. do 2 eexists. split; [done|].
  split; [|by apply denotes_cache_list]. apply denotes_child. rewrite (drop_S _ _ _ Hx) in Hp'. apply Hp'.
Qed.

Lemma dict_at_denotes n l i k x : denotes n (BDict l) -> l !! i = Some (k, x) ->
  exists c n', dict_at (Z.of_nat i) n = Ok (k, c, n') /\ denotes c x /\ denotes n' (BDict l).
Proof.
  intros Hn Hx. pose proof (lookup_lt_Some _ _ _ Hx) as Hi.
  destruct (walk_start_dict n l i Hn Hi) as (idx & j & Hw & Hj & Hp).
  destruct (dict_walk_pairs n (i - j) (drop j l) idx) as (idx' & Hwalk & Hp'); [rewrite length_drop; lia|done|].
  rewrite drop_drop in Hp'. replace (j + (i - j))%nat with i in Hp' by lia.
  unfold dict_at. rewrite Hw. replace (Z.to_nat (Z.of_nat i - Z.of_nat j)) with (i - j)%nat by lia.
  rewrite Hwalk. cbn [mbind result_bind].
  set (n' := if 0 <? Z.of_nat i then set_cache idx' (Z.of_nat i) n else n).
  assert (m_root_tokens n' = m_root_tokens n /\ m_buffer n' = m_buffer n /\ m_buffer_size n' = m_buffer_size n) as (Ht & Hb & Hsz)
    by (unfold n'; by destruct (0 <? Z.of_nat i)).
  assert (denotes n' (BDict l)) as Hn' by (unfold n'; destruct (0 <? Z.of_nat i); [by apply denotes_cache_dict|done]).
  rewrite (drop_S _ _ _ Hx) in Hp'. destruct Hp' as [Hkey (idv & (t & Htok & ->) & Hv & _)].
  unfold token_at at 1. rewrite Ht. fold (token_at n idx'). rewrite Htok. cbn [mbind result_bind].
  rewrite Hb, Hsz. destruct (string_value_placed (node_at (m_root_tokens n) (m_buffer n) (m_buffer_size n) idx') idx' k eq_refl) as [-> _];
    [by apply (placed_same n)|].
  cbn [mbind result_bind]. do 2 eexists. split; [done|]. split; [|done]. by apply denotes_child.
Qed.

Lemma flatten_length l : length (flatten l) = (2 * length l)%nat.
Proof. induction l as [|kv l IH]; [done|]. cbn [flatten map concat app length] in *. unfold flatten in IH. lia. Qed.

Lemma list_size_denotes n l : denotes n (BList l) ->
  exists n', list_size n = Ok (Z.of_nat (length l), n') /\ denotes n' (BList l).
Proof.
  intros Hn. pose proof Hn as [Hp [Hs Hc]]. apply placed_list in Hp. unfold list_size.
  destruct (Z.eqb_spec (m_size n) (-1)) as [E|E]; cbn [negb]; [|exists n; by destruct Hs as [|<-]].
  assert (forall m, m = Z.of_nat (length l) -> denotes (set_size m n) (BList l)) as Hset
    by (intros m ->; apply denotes_size; naive_solver).
  destruct (Z.eqb_spec (m_last_index n) (-1)) as [E'|E']; cbn [negb].
  - destruct (placed_items_length _ _ _ Hp) as [Hlow Hlen].
    rewrite (count_items_placed n l) by (done || lia). cbn [mbind result_bind]. eexists. split; [done|]. by apply Hset.
  - destruct Hc as [|[Hb Hc]]; [done|]. destruct (placed_items_length _ _ _ Hc) as [Hlow Hlen].
    rewrite (count_items_placed n (drop (Z.to_nat (m_last_index n)) l)) by (done || lia). rewrite length_drop. cbn [mbind result_bind].
    replace (m_last_index n + Z.of_nat (length l - Z.to_nat (m_last_index n))) with (Z.of_nat (length l)) by lia.
    eexists. split; [done|]. by apply Hset.
Qed.

Lemma dict_size_denotes n l : denotes n (BDict l) ->
  exists n', dict_size n = Ok (Z.of_nat (length l), n') /\ denotes n' (BDict l).
Proof.
  intros Hn. pose proof Hn as [Hp [Hs Hc]]. apply placed_dict in Hp as [_ Hp]. unfold dict_size.
  destruct (Z.eqb_spec (m_size n) (-1)) as [E|E]; cbn [negb]; [|exists n; by destruct Hs as [|<-]].
  assert (forall m, m = 2 * Z.of_nat (length l) -> denotes (set_size (Z.quot m 2) n) (BDict l) /\ Z.quot m 2 = Z.of_nat (length l)) as Hset.
  { intros m ->. rewrite Z.mul_comm, Z.quot_mul by done. split; [|done]. apply denotes_size; naive_solver. }
  destruct (Z.eqb_spec (m_last_index n) (-1)) as [E'|E']; cbn [negb].
  - destruct (placed_items_length _ _ _ Hp) as [Hlow Hlen].
    rewrite (count_items_placed n (flatten l)) by (done || lia). cbn [mbind result_bind]. rewrite flatten_length.
    destruct (Hset (0 + Z.of_nat (2 * length l))) as [Hd Hq]; [lia|]. rewrite Hq in *. by eexists.
  - destruct Hc as [|[Hb Hc]]; [done|]. apply placed_pairs_items in Hc. destruct (placed_items_length _ _ _ Hc) as [Hlow Hlen].
    rewrite (count_items_placed n (flatten (drop (Z.to_nat (m_last_index n)) l))) by (done || lia). rewrite flatten_length, length_drop. cbn [mbind result_bind].
    destruct (Hset (m_last_index n * 2 + Z.of_nat (2 * (length l - Z.to_nat (m_last_index n))))) as [Hd Hq]; [lia|]. rewrite Hq in *. by eexists.
Qed.

Lemma dict_find_denotes n l key : denotes n (BDict l) -> exists c, dict_find key n = Ok c /\
  match value_of key l with Some v => denotes c v | None => c = node_none end.
Proof.
  intros [Hp _]. apply placed_dict in Hp as [Hp Hp']. unfold dict_find.
  destruct (placed_items_length _ _ _ Hp') as [Hlow Hlen]. rewrite flatten_length in Hlen.
  destruct (dict_search_pairs n key l (length (m_root_tokens n)) (m_token_idx n + 1)) as (r & -> & Hr); [lia|done|].
  cbn [mbind result_bind]. eexists. split; [done|]. destruct (value_of key l) as [v|]; [|by subst r].
  destruct Hr as (i & -> & Hi). by apply denotes_child.
Qed.

(** The value of a key when it has the type asked for. *)
Definition typed_value_of (t : node_type) (key : bytes) (l : list (bytes * bvalue)) : option bvalue :=
  v ← value_of key l; if bool_decide (value_type v = t) then Some v else None.

Lemma dict_find_type_denotes n l t key : t <> none_t -> denotes n (BDict l) -> exists c, dict_find_type t key n = Ok c /\
  match typed_value_of t key l with Some v => denotes c v | None => c = node_none end.
Proof.
  intros Ht Hn. unfold dict_find_type, typed_value_of. destruct (dict_find_denotes n l key Hn) as (c & -> & Hc).
  cbn [mbind result_bind]. destruct (value_of key l) as [v|]; cbn [mbind option_bind].
  - rewrite (node_type_of_denotes c v Hc). cbn [mbind result_bind]. eexists. split; [done|]. by case_bool_decide.
  - subst c. cbn. eexists. split; [done|]. by case_bool_decide.
Qed.

Lemma denotes_bool n v : denotes n v -> node_bool n = true.
Proof. intros [Hp _]. apply placed_index in Hp. unfold node_bool. by rewrite (proj2 (Z.eqb_neq (m_token_idx n) (-1))) by lia. Qed.

(** What a search for a key of some type finds: a node of a value of that type, or none. *)
Lemma dict_find_type_node n l t key : t <> none_t -> denotes n (BDict l) -> exists c, dict_find_type t key n = Ok c /\
  match typed_value_of t key l with
  | Some v => denotes c v /\ node_bool c = true /\ value_type v = t
  | None => c = node_none /\ node_bool c = false
  end.
Proof.
  intros Ht Hn. destruct (dict_find_type_denotes n l t key Ht Hn) as (c & Hc & Hv). exists c. split; [done|].
  destruct (typed_value_of t key l) as [v|] eqn:E; [|by subst]. split_and!; [done|by eapply denotes_bool|].
  unfold typed_value_of in E. destruct (value_of key l) as [v'|]; cbn in E; [|done]. case_bool_decide; [|done]. congruence.
Qed.

Lemma string_node n s : denotes n (BStr s) -> string_value n = Ok s /\ string_length n = Ok (Z.of_nat (length s)).
Proof. intros [Hp _]. by apply (string_value_placed n (m_token_idx n)). Qed.

Lemma int_node n z : denotes n (BInt z) -> int_value n = Ok z.
Proof. intros [Hp _]. by apply (int_value_placed n (m_token_idx n)). Qed.

(** The string of a key, with the node that holds it. *)
Definition string_of (key : bytes) (l : list (bytes * bvalue)) : option bytes :=
  match value_of key l with Some (BStr s) => Some s | _ => None end.

Lemma dict_find_string_node n l key : denotes n (BDict l) -> exists c, dict_find_string key n = Ok c /\
  match string_of key l with
  | Some s => denotes c (BStr s) /\ node_bool c = true /\ string_value c = Ok s /\ string_length c = Ok (Z.of_nat (length s))
  | None => node_bool c = false
  end.
Proof.
  intros Hn. destruct (dict_find_type_node n l string_t key ltac:(done) Hn) as (c & Hc & Hv). exists c. split; [done|].
  unfold typed_value_of, string_of in *. destruct (value_of key l) as [[z|s|l'|l']|]; cbn in Hv |- *; try by destruct Hv.
  destruct Hv as (Hd & Hb & _). split_and!; [done|done|..]; by apply string_node.
Qed.

(** The number of a key, or the default. *)
Definition int_of_key (key : bytes) (default_val : Z) (l : list (bytes * bvalue)) : Z :=
  match value_of key l with Some (BInt z) => z | _ => default_val end.

Lemma dict_find_int_value_node n l key default_val : denotes n (BDict l) ->
  dict_find_int_value key default_val n = Ok (int_of_key key default_val l).
Proof.
  intros Hn. unfold dict_find_int_value, int_of_key. destruct (dict_find_denotes n l key Hn) as (c & -> & Hc). cbn [mbind result_bind].
  destruct (value_of key l) as [v|]; [|by subst c]. rewrite (node_type_of_denotes c v Hc). cbn [mbind result_bind].
  destruct v as [z|s|l'|l']; cbn [value_type]; try done. rewrite bool_decide_true by done. by apply int_node.
Qed.

Lemma dict_find_string_value_node n l key default_val : denotes n (BDict l) ->
  dict_find_string_value key default_val n = Ok (default default_val (string_of key l)).
Proof.
  intros Hn. unfold dict_find_string_value, string_of. destruct (dict_find_denotes n l key Hn) as (c & -> & Hc). cbn [mbind result_bind].
  destruct (value_of key l) as [v|]; [|by subst c]. rewrite (node_type_of_denotes c v Hc). cbn [mbind result_bind].
  destruct v as [z|s|l'|l']; cbn [value_type]; try done. rewrite bool_decide_true by done. by apply string_node.
Qed.

(** ** The decoder and the grammar's values *)

(** C9: A node of a decoded buffer implements the value it stands for: its type, the section
    of the buffer it was read from, and what each accessor returns are those of the
    value; an accessor that moves a cache leaves a node of the same value. *)
Theorem node_implements_value n v : denotes n v ->
  node_type_of n = Ok (value_type v) /\ (exists o b ts, item o b ts v /\ data_section n = Ok b) /\
  match v with
  | BInt z => int_value n = Ok z
  | BStr s => string_value n = Ok s /\ string_length n = Ok (Z.of_nat (length s))
  | BList l =>
      (exists n', list_size n = Ok (Z.of_nat (length l), n') /\ denotes n' v) /\
      forall i x, l !! i = Some x ->
        exists c n', list_at (Z.of_nat i) n = Ok (c, n') /\ denotes c x /\ denotes n' v
  | BDict l =>
      (exists n', dict_size n = Ok (Z.of_nat (length l), n') /\ denotes n' v) /\
      (forall i k x, l !! i = Some (k, x) ->
        exists c n', dict_at (Z.of_nat i) n = Ok (k, c, n') /\ denotes c x /\ denotes n' v) /\
      forall key, exists c, dict_find key n = Ok c /\
        match value_of key l with Some x => denotes c x | None => c = node_none end
  end.
Proof.
  intros Hn. pose proof Hn as [[b Hp] _]. split; [by apply node_type_of_denotes|]. split.
  - destruct Hp as (pre & ts & t & post & bpre & bpost & Ht & Hidx & Hb & Hmax & Hi & Hoff).
    exists (Z.of_nat (length bpre)), b, ts. split; [done|].
    apply (data_section_placed n (m_token_idx n) b v eq_refl). by exists pre, ts, t, post, bpre, bpost.
  - destruct v as [z|s|l|l].
    + apply (int_value_placed n (m_token_idx n)); [done|by exists b].
    + apply (string_value_placed n (m_token_idx n)); [done|by exists b].
    + split; [by apply list_size_denotes|]. intros. by apply list_at_denotes.
    + split; [by apply dict_size_denotes|]. split; [|intros; by apply dict_find_denotes].
      intros. by apply dict_at_denotes.
Qed.

Lemma root_denotes b r ts v : item 0 b ts v -> Z.of_nat (length (b ++ r)) <= max_offset ->
  denotes (root_node (b ++ r) b ts) v.
Proof.
  intros Hi Hmax. split; [|destruct v; cbn; auto]. exists b, [], ts, (new_token (Z.of_nat (length b)) 0 T_end 0), [], [], r.
  split; [done|]. split; [done|]. split; [done|]. split; [done|]. split; [done|]. cbn [offset new_token].
  apply (offset_small _ _ Hmax). rewrite length_app. lia.
Qed.

Lemma decoded_value depth_limit token_limit buffer n pos :
  bdecode depth_limit token_limit buffer = Ok (n, no_error, pos) ->
  exists b r ts v, buffer = b ++ r /\ item 0 b ts v /\ denotes n v.
Proof.
  intros H. assert (Z.of_nat (length buffer) <= max_offset) as Hmax.
  { unfold bdecode in H. by destruct (Z.ltb_spec max_offset (Z.of_nat (length buffer))). }
  apply decoded_root in H as (b & r & ts & v & -> & Hi & ->).
  exists b, r, ts, v. split; [done|]. split; [done|]. by apply root_denotes.
Qed.

(** C10: Decoding a buffer yields a node of the value the buffer starts with: when the
    decoder reports no error there is such a value in the grammar. *)
Theorem decoded_denotes depth_limit token_limit buffer n pos :
  bdecode depth_limit token_limit buffer = Ok (n, no_error, pos) ->
  exists b r ts v, buffer = b ++ r /\ item 0 b ts v /\ denotes n v.
Proof. apply decoded_value. Qed.

Definition sample_node : bdecode_node := root_node (sample_text ++ [33]) sample_text sample_tokens.

Lemma node_implements_value_witness :
  node_type_of sample_node = Ok dict_t /\
  (exists o b ts, item o b ts sample_value /\ data_section sample_node = Ok b) /\
  (exists n', dict_size sample_node = Ok (1, n') /\ denotes n' sample_value) /\
  (forall i k x, [(bytes_of_string "peers", BList [BStr (bytes_of_string "ab"); BInt 7])] !! i = Some (k, x) ->
    exists c n', dict_at (Z.of_nat i) sample_node = Ok (k, c, n') /\ denotes c x /\ denotes n' sample_value) /\
  forall key, exists c, dict_find key sample_node = Ok c /\
    match value_of key [(bytes_of_string "peers", BList [BStr (bytes_of_string "ab"); BInt 7])] with
    | Some x => denotes c x | None => c = node_none end.
Proof.
  apply (node_implements_value sample_node sample_value).
  apply root_denotes; [exact sample_item|]. by vm_compute.
Defined.

Lemma decoded_denotes_witness : exists b r ts v, sample_text ++ [33] = b ++ r /\ item 0 b ts v /\ denotes sample_node v.
Proof. apply (decoded_denotes 100 2000000 (sample_text ++ [33]) sample_node 0). by vm_compute. Defined.

(** The walk through the sample: the list of peers, and an item of it. *)
Example sample_walk :
  ('(c) ← dict_find_list (bytes_of_string "peers") sample_node; '(v, c) ← list_string_value_at 0 [] c;
   '(z, c) ← list_int_value_at 1 0 c; '(size, c) ← list_size c; Ok (v, z, size, m_last_index c)) =
  Ok (bytes_of_string "ab", 7, 2, 1).
Proof. by vm_compute. Qed.
