(* ===== verification/BdecodeText.v ===== *)
(** * Bencoded data: soft errors and printing

    The rest of [extern/libtorrent/src/bdecode.cpp]: the check of a node for what the decoder lets pass although
    the format forbids it, the messages of the errors, and printing. *)

From S2P Require Import Prelude MsgFactory Net Bdecode BdecodeSpec BdecodeNodes.

(** [extern/libtorrent/src/bdecode.cpp:194-210] bdecode_error_category::message *)
Definition bdecode_message (ev : Z) : bytes :=
  let msgs := map bytes_of_string [
    "no error"%string; "expected digit in bencoded string"%string; "expected colon in bencoded string"%string;
    "unexpected end of file in bencoded string"%string;
    "expected value (list, dict, int or string) in bencoded string"%string;
    "bencoded nesting depth exceeded"%string; "bencoded item count limit exceeded"%string;
    "integer overflow"%string] in
  if (ev <? 0) || (Z.of_nat (length msgs) <=? ev) then bytes_of_string "Unknown error"
  else nth (Z.to_nat ev) msgs [].

(** [extern/libtorrent/src/bdecode.cpp:714-744] bdecode_node::swap *)
Definition node_swap (this n : bdecode_node) : bdecode_node * bdecode_node := (n, this).

(** [extern/libtorrent/src/bdecode.cpp:695-701] bdecode_node::string_ptr
    The position in the buffer. *)
Definition string_ptr (n : bdecode_node) : result Z :=
  t ← token_at n (m_token_idx n); Ok (offset t + start_offset t).

(** ** Soft errors *)

Definition buffer_at (n : bdecode_node) (i : Z) : result Z :=
  match m_buffer n !! Z.to_nat i with Some c => Ok c | None => Fault DanglingIterator end.

(** [std::memcmp] on blocks of the same length: the sign of the result. *)
Fixpoint memcmp (a b : bytes) : comparison :=
  match a, b with
  | x :: a', y :: b' => match x ?= y with Eq => memcmp a' b' | c => c end
  | _, _ => Eq
  end.

(** [extern/libtorrent/src/bdecode.cpp:347-382] bdecode_node::has_soft_error
    The keys of the dictionary that ends at [token], from [k1] on. *)
Fixpoint check_keys (fuel : nat) (n : bdecode_node) (k1 token : Z) : result (option bytes) :=
  t1 ← token_at n k1;
  let v1 := k1 + next_item t1 in
  tv1 ← token_at n v1;
  let k2 := v1 + next_item tv1 in
  if k2 =? token then Ok None
  else
    t2 ← token_at n k2;
    let v2 := k2 + next_item t2 in
    tv2 ← token_at n v2;
    let k1_start := offset t1 + start_offset t1 in
    let k1_len := offset tv1 - k1_start in
    let k2_start := offset t2 + start_offset t2 in
    let k2_len := offset tv2 - k2_start in
    let min_len := Z.min k1_len k2_len in
    let cmp := memcmp (buffer_span n k1_start min_len) (buffer_span n k2_start min_len) in
    match cmp with
    | Gt => Ok (Some (bytes_of_string "unsorted dictionary key"))
    | Eq =>
        if k2_len <? k1_len then Ok (Some (bytes_of_string "unsorted dictionary key"))
        else if k1_len =? k2_len then Ok (Some (bytes_of_string "duplicate dictionary key"))
        else match fuel with O => Fault OutOfFuel | S fuel' => check_keys fuel' n k2 token end
    | Lt => match fuel with O => Fault OutOfFuel | S fuel' => check_keys fuel' n k2 token end
    end.

(** [extern/libtorrent/src/bdecode.cpp:318-387] bdecode_node::has_soft_error
    One turn: the new stack, its top first, or the message. *)
Definition soft_turn (n : bdecode_node) (token : Z) (stack : list Z) : result (list Z + bytes) :=
  t ← token_at n token;
  match type_ t with
  | T_integer =>
      c ← buffer_at n (offset t + 1);
      if negb (c =? 48) then Ok (inl stack)
      else
        c ← buffer_at n (offset t + 2);
        Ok (if negb (c =? 101) then inr (bytes_of_string "leading zero in integer") else inl stack)
  | T_string =>
      c ← buffer_at n (offset t);
      if negb (c =? 48) then Ok (inl stack)
      else
        c ← buffer_at n (offset t + 1);
        Ok (if negb (c =? 58) then inr (bytes_of_string "leading zero in string length") else inl stack)
  | T_dict | T_list => Ok (inl (token :: stack))
  | T_end =>
      match stack with
      | [] => Fault BadPrecondition
      | parent :: stack' =>
          p ← token_at n parent;
          if bool_decide (type_ p = T_dict) && negb (token =? parent + 1) then
            e ← check_keys (length (m_root_tokens n)) n (parent + 1) token;
            Ok (match e with Some msg => inr msg | None => inl stack' end)
          else Ok (inl stack')
      end
  | T_none => Ok (inl stack)
  end.

(** [extern/libtorrent/src/bdecode.cpp:316-389] bdecode_node::has_soft_error *)
Fixpoint soft_loop (fuel : nat) (n : bdecode_node) (token : Z) (stack : list Z) : result (option bytes) :=
  r ← soft_turn n token stack;
  match r with
  | inr msg => Ok (Some msg)
  | inl [] => Ok None
  | inl stack => match fuel with O => Fault OutOfFuel | S fuel' => soft_loop fuel' n (token + 1) stack end
  end.

(** [extern/libtorrent/src/bdecode.cpp:303-390] bdecode_node::has_soft_error
    The message, if there is an error; the caller's buffer may cut it. *)
Definition has_soft_error (n : bdecode_node) : result (option bytes) :=
  t ← node_type_of n;
  if bool_decide (t = none_t) then Ok None else soft_loop (length (m_root_tokens n)) n (m_token_idx n) [].

(** ** Printing *)

(** [extern/libtorrent/src/bdecode.cpp:125-140] detail::escape_string *)
Definition escape_string (ret str : bytes) : bytes :=
  foldl (fun ret c => ret ++ (if (32 <=? c) && (c <? 127) then [c] else [92; 120] ++ to_hex [c])) ret str.

(** [extern/libtorrent/src/bdecode.cpp:1040-1076] print_string *)
Definition print_string (ret str : bytes) (single_line : bool) : bytes :=
  let len := length str in
  let printable := forallb (fun c => (32 <=? c) && (c <? 127)) str in
  let ret := ret ++ [39] in
  if printable then
    (if single_line && (30 <? len)%nat
     then ret ++ take 14 str ++ bytes_of_string "..." ++ drop (len - 14) str
     else ret ++ str) ++ [39]
  else
    (if single_line && (20 <? len)%nat
     then escape_string (escape_string ret (take 9 str) ++ bytes_of_string "...") (drop (len - 9) str)
     else escape_string ret str) ++ [39].

(** [while (val > 0) { ++line_len; val /= 10; }] *)
(** [extern/libtorrent/src/bdecode.cpp:1023-1027] line_longer_than *)
Fixpoint digits_len (fuel : nat) (val line_len : Z) : Z :=
  match fuel with
  | O => line_len
  | S fuel' => if 0 <? val then digits_len fuel' (Z.quot val 10) (line_len + 1) else line_len
  end.

(** The loops of [line_longer_than]; [None] is the early return of -1. *)
Section Lines.
Variable longer : bdecode_node -> Z -> result Z.

(** [extern/libtorrent/src/bdecode.cpp:998-1003] line_longer_than *)
Fixpoint list_longer (fuel : nat) (i : Z) (e : bdecode_node) (limit line_len : Z) : result (option Z) :=
  '(size, e) ← list_size e;
  if i <? size then
    '(x, e) ← list_at i e;
    ret ← longer x (limit - line_len);
    if ret =? -1 then Ok None
    else match fuel with
         | O => Fault OutOfFuel
         | S fuel' => list_longer fuel' (i + 1) e limit (line_len + (ret + 2))
         end
  else Ok (Some line_len).

(** [extern/libtorrent/src/bdecode.cpp:1008-1015] line_longer_than *)
Fixpoint dict_longer (fuel : nat) (i : Z) (e : bdecode_node) (limit line_len : Z) : result (option Z) :=
  '(size, e) ← dict_size e;
  if i <? size then
    '(key, _, e) ← dict_at i e;
    let line_len := line_len + (4 + Z.of_nat (length key)) in
    if limit <? line_len then Ok None
    else
      '(_, x, e) ← dict_at i e;
      ret ← longer x (limit - line_len);
      if ret =? -1 then Ok None
      else match fuel with
           | O => Fault OutOfFuel
           | S fuel' => dict_longer fuel' (i + 1) e limit (line_len + (ret + 1))
           end
  else Ok (Some line_len).
End Lines.

(** [extern/libtorrent/src/bdecode.cpp:990-1038] line_longer_than *)
Fixpoint line_longer_than (fuel : nat) (e : bdecode_node) (limit : Z) : result Z :=
  match fuel with
  | O => Fault OutOfFuel
  | S fuel' =>
      let turns := length (m_root_tokens e) in
      t ← node_type_of e;
      line_len ← (match t with
        | list_t => if limit <? 4 then Ok None else list_longer (line_longer_than fuel') turns 0 e limit 4
        | dict_t => if limit <? 4 then Ok None else dict_longer (line_longer_than fuel') turns 0 e limit 4
        | string_t => len ← string_length e; Ok (Some (3 + len))
        | int_t => val ← int_value e; Ok (Some (digits_len 19 val 0 + 2))
        | none_t => Ok (Some 4)
        | unnamed_t => Ok (Some 0)
        end);
      match line_len with
      | None => Ok (-1)
      | Some line_len => Ok (if limit <? line_len then -1 else line_len)
      end
  end.

(** [extern/libtorrent/src/bdecode.cpp:1083-1089] print_entry
    The array up to its terminator. *)
Definition indent_str (indent : Z) : bytes :=
  [44; 10] ++ replicate (if (indent <? 197) && (0 <=? indent) then Z.to_nat indent else 197%nat) 32.

(** The loops of [print_entry]; [print] is the recursive call. *)
Section Print.
Variables (print : bdecode_node -> result bytes) (one_liner : bool) (indent : Z).

(** What follows an element: [last] says whether it is the last one. *)
Definition separator (last : bool) : bytes :=
  if last then (if one_liner then [32] else drop 1 (indent_str indent))
  else (if one_liner then [44; 32] else indent_str indent).

(** [extern/libtorrent/src/bdecode.cpp:1111-1117] print_entry *)
Fixpoint print_list_loop (fuel : nat) (i : Z) (e : bdecode_node) (ret : bytes) : result bytes :=
  '(size, e) ← list_size e;
  if i <? size then
    let ret := if (i =? 0) && one_liner then ret ++ [32] else ret in
    '(x, e) ← list_at i e;
    s ← print x;
    let ret := ret ++ s ++ separator (negb (i <? size - 1)) in
    match fuel with O => Fault OutOfFuel | S fuel' => print_list_loop fuel' (i + 1) e ret end
  else Ok ret.

(** [extern/libtorrent/src/bdecode.cpp:1127-1136] print_entry *)
Fixpoint print_dict_loop (fuel : nat) (i : Z) (e : bdecode_node) (ret : bytes) : result bytes :=
  '(size, e) ← dict_size e;
  if i <? size then
    let ret := if (i =? 0) && one_liner then ret ++ [32] else ret in
    '(key, x, e) ← dict_at i e;
    let ret := print_string ret key true ++ [58; 32] in
    s ← print x;
    let ret := ret ++ s ++ separator (negb (i <? size - 1)) in
    match fuel with O => Fault OutOfFuel | S fuel' => print_dict_loop fuel' (i + 1) e ret end
  else Ok ret.
End Print.

(** [extern/libtorrent/src/bdecode.cpp:1080-1142] print_entry
    [fuel] bounds the depth. *)
Fixpoint print_entry (fuel : nat) (e : bdecode_node) (single_line : bool) (indent : Z) : result bytes :=
  match fuel with
  | O => Fault OutOfFuel
  | S fuel' =>
      let turns := length (m_root_tokens e) in
      t ← node_type_of e;
      match t with
      | none_t => Ok (bytes_of_string "none")
      | int_t => val ← int_value e; Ok (decimal_Z val)
      | string_t => s ← string_value e; Ok (print_string [] s single_line)
      | list_t =>
          len ← line_longer_than fuel e 200;
          let one_liner := negb (len =? -1) || single_line in
          let ret := if negb one_liner then 91 :: drop 1 (indent_str indent) else [91] in
          ret ← print_list_loop (fun x => print_entry fuel' x single_line (indent + 2)) one_liner indent turns 0 e ret;
          Ok (ret ++ [93])
      | dict_t =>
          len ← line_longer_than fuel e 200;
          let one_liner := negb (len =? -1) || single_line in
          let ret := if negb one_liner then 123 :: drop 1 (indent_str indent) else [123] in
          ret ← print_dict_loop (fun x => print_entry fuel' x single_line (indent + 2)) one_liner indent turns 0 e ret;
          Ok (ret ++ [125])
      | unnamed_t => Ok []
      end
  end.

(** ** Samples *)

Definition soft_error_of (s : string) : result (option bytes) :=
  '(n, _, _) ← bdecode_default (bytes_of_string s); has_soft_error n.

Example soft_errors :
  soft_error_of "d1:ai0e1:bl2:xyee" = Ok None /\
  soft_error_of "li05ee" = Ok (Some (bytes_of_string "leading zero in integer")) /\
  soft_error_of "02:xy" = Ok (Some (bytes_of_string "leading zero in string length")) /\
  soft_error_of "d1:bi0e1:ai0ee" = Ok (Some (bytes_of_string "unsorted dictionary key")) /\
  soft_error_of "d1:ai0e1:ai0ee" = Ok (Some (bytes_of_string "duplicate dictionary key")).
Proof. by vm_compute. Qed.

Example print_entry_sample :
  print_entry 100 sample_node true 0 = Ok (bytes_of_string "{ 'peers': [ 'ab', 7 ] }").
Proof. by vm_compute. Qed.
