(* ===== verification/Entry.v ===== *)
(** * Entries: bencoded data as a tree

    [extern/libtorrent/src/entry.cpp], [extern/libtorrent/include/libtorrent/entry.hpp] and the encoder of
    [extern/libtorrent/include/libtorrent/bencode.hpp].  An [entry] is a tagged union; a
    [std::map] is the list of its elements in the order of their keys. *)

From S2P Require Import Prelude MsgFactory Net Bdecode.

(** ** Data *)

(** [extern/libtorrent/include/libtorrent/entry.hpp:139-147] entry::data_type *)
Inductive data_type := int_e | string_e | list_e | dictionary_e | undefined_e | preformatted_e.

#[global] Instance data_type_eq_dec : EqDecision data_type.
Proof. solve_decision. Defined.

(** [extern/libtorrent/include/libtorrent/entry.hpp:132-136] entry *)
#[warnings="-register-all"]
Inductive entry :=
  | EUndefined
  | EInt (z : Z)
  | EStr (s : bytes)
  | EList (l : list entry)
  | EDict (d : list (bytes * entry))
  | EPreformatted (b : bytes).

(** [extern/libtorrent/src/entry.cpp:116-122] entry::type *)
Definition entry_type (e : entry) : data_type :=
  match e with
  | EUndefined => undefined_e | EInt _ => int_e | EStr _ => string_e
  | EList _ => list_e | EDict _ => dictionary_e | EPreformatted _ => preformatted_e
  end.

(** [extern/libtorrent/src/entry.cpp:514-540] entry::construct
    The default value of a type. *)
Definition construct (t : data_type) : entry :=
  match t with
  | int_e => EInt 0 | string_e => EStr [] | list_e => EList [] | dictionary_e => EDict []
  | undefined_e => EUndefined | preformatted_e => EPreformatted []
  end.

(** [extern/libtorrent/src/entry.cpp:571-598] entry::destruct *)
Definition destruct_entry (e : entry) : entry := EUndefined.

(** [extern/libtorrent/src/entry.cpp:542-569] entry::copy
    The element-wise copies of the containers. *)
Fixpoint entry_copy (e : entry) : entry :=
  match e with
  | EInt z => EInt z
  | EStr s => EStr s
  | EList l => EList (map entry_copy l)
  | EDict d => EDict (map (fun kv => (kv.1, entry_copy kv.2)) d)
  | EUndefined => EUndefined
  | EPreformatted b => EPreformatted b
  end.

(** [extern/libtorrent/src/entry.cpp:126-132] entry::operator=
    [this], assigned another entry [e]. *)
Definition entry_assign (e this : entry) : entry := let this := destruct_entry this in entry_copy e.

(** [extern/libtorrent/src/entry.cpp:600-659] entry::swap
    Entries of different types stay as they are (in a debug build an assertion fails). *)
Definition entry_swap (this e : entry) : entry * entry :=
  if bool_decide (entry_type this = undefined_e) && bool_decide (entry_type e = undefined_e) then (this, e)
  else
    let '(this, clear_that) :=
      if bool_decide (entry_type this = undefined_e) then (construct (entry_type e), true) else (this, false) in
    let '(e, clear_this) :=
      if bool_decide (entry_type e = undefined_e) then (construct (entry_type this), true) else (e, false) in
    if bool_decide (entry_type this = entry_type e) then
      let '(this, e) := (e, this) in
      (if clear_this : bool then destruct_entry this else this, if clear_that : bool then destruct_entry e else e)
    else (this, e).

(** ** Access

    The accessors of a [const] entry throw if the type is another; those of a mutable
    one give an undefined entry the type first: they return the value the reference
    refers to and the entry. *)

(** [extern/libtorrent/src/entry.cpp:177-185] entry::integer *)
Definition entry_integer (e : entry) : result Z := match e with EInt z => Ok z | _ => Fault SystemError end.
(** [extern/libtorrent/src/entry.cpp:198-206] entry::string *)
Definition entry_string (e : entry) : result bytes := match e with EStr s => Ok s | _ => Fault SystemError end.
(** [extern/libtorrent/src/entry.cpp:219-227] entry::list *)
Definition entry_list (e : entry) : result (list entry) := match e with EList l => Ok l | _ => Fault SystemError end.
(** [extern/libtorrent/src/entry.cpp:240-248] entry::dict *)
Definition entry_dict (e : entry) : result (list (bytes * entry)) := match e with EDict d => Ok d | _ => Fault SystemError end.
(** [extern/libtorrent/src/entry.cpp:261-269] entry::preformatted *)
Definition entry_preformatted (e : entry) : result bytes :=
  match e with EPreformatted b => Ok b | _ => Fault SystemError end.

(** [if (m_type == undefined_t) construct(t);] *)
Definition defined_as (t : data_type) (e : entry) : entry :=
  if bool_decide (entry_type e = undefined_e) then construct t else e.

(** [extern/libtorrent/src/entry.cpp:166-175] entry::integer *)
Definition entry_integer_ref (e : entry) : result (Z * entry) :=
  let e := defined_as int_e e in z ← entry_integer e; Ok (z, e).
(** [extern/libtorrent/src/entry.cpp:187-196] entry::string *)
Definition entry_string_ref (e : entry) : result (bytes * entry) :=
  let e := defined_as string_e e in s ← entry_string e; Ok (s, e).
(** [extern/libtorrent/src/entry.cpp:208-217] entry::list *)
Definition entry_list_ref (e : entry) : result (list entry * entry) :=
  let e := defined_as list_e e in l ← entry_list e; Ok (l, e).
(** [extern/libtorrent/src/entry.cpp:229-238] entry::dict *)
Definition entry_dict_ref (e : entry) : result (list (bytes * entry) * entry) :=
  let e := defined_as dictionary_e e in d ← entry_dict e; Ok (d, e).
(** [extern/libtorrent/src/entry.cpp:250-259] entry::preformatted *)
Definition entry_preformatted_ref (e : entry) : result (bytes * entry) :=
  let e := defined_as preformatted_e e in b ← entry_preformatted e; Ok (b, e).

(** The order of the keys of a [std::map]: that of [std::string_view], byte by byte. *)
(** [extern/libtorrent/include/libtorrent/entry.hpp:94-100] aux::strview_less *)
Fixpoint strview_less (a b : bytes) : bool :=
  match a, b with
  | _, [] => false
  | [], _ :: _ => true
  | x :: a', y :: b' => if x <? y then true else if y <? x then false else strview_less a' b'
  end.

(** [std::map::find] *)
Fixpoint map_find {V} (key : bytes) (d : list (bytes * V)) : option V :=
  match d with
  | [] => None
  | (k, v) :: d' => if bool_decide (k = key) then Some v else map_find key d'
  end.

(** [d[key] = v] on a [std::map] *)
Fixpoint map_set {V} (key : bytes) (v : V) (d : list (bytes * V)) : list (bytes * V) :=
  match d with
  | [] => [(key, v)]
  | (k, w) :: d' =>
      if bool_decide (k = key) then (k, v) :: d'
      else if strview_less key k then (key, v) :: (k, w) :: d'
      else (k, w) :: map_set key v d'
  end.

(** [extern/libtorrent/src/entry.cpp:84-93] entry::operator[]
    The element and the entry, which has it afterwards. *)
Definition entry_index_ref (key : bytes) (e : entry) : result (entry * entry) :=
  '(d, e) ← entry_dict_ref e;
  match map_find key d with
  | Some i => Ok (i, e)
  | None => Ok (EUndefined, EDict (map_set key EUndefined d))
  end.

(** [extern/libtorrent/src/entry.cpp:95-100] entry::operator[] *)
Definition entry_index (key : bytes) (e : entry) : result entry :=
  d ← entry_dict e;
  match map_find key d with Some i => Ok i | None => Fault SystemError end.

(** [extern/libtorrent/src/entry.cpp:102-107] entry::find_key *)
Definition entry_find_key_ref (key : bytes) (e : entry) : result (option entry * entry) :=
  '(d, e) ← entry_dict_ref e; Ok (map_find key d, e).

(** [extern/libtorrent/src/entry.cpp:109-114] entry::find_key *)
Definition entry_find_key (key : bytes) (e : entry) : result (option entry) :=
  d ← entry_dict e; Ok (map_find key d).

(** ** Comparison *)

(** [operator==] of vectors and maps. *)
Section ListEq.
Context {A : Type} (eq : A -> A -> bool).

Fixpoint list_eqb (l l' : list A) : bool :=
  match l, l' with
  | [], [] => true
  | x :: l, y :: l' => eq x y && list_eqb l l'
  | _, _ => false
  end.
End ListEq.

(** [extern/libtorrent/src/entry.cpp:492-512] operator== *)
Fixpoint entry_eqb (lhs rhs : entry) : bool :=
  match lhs, rhs with
  | EInt z, EInt z' => z =? z'
  | EStr s, EStr s' => bool_decide (s = s')
  | EList l, EList l' => list_eqb entry_eqb l l'
  | EDict d, EDict d' => list_eqb (fun kv kv' => bool_decide (kv.1 = kv'.1) && entry_eqb kv.2 kv'.2) d d'
  | EPreformatted b, EPreformatted b' => bool_decide (b = b')
  | EUndefined, EUndefined => true
  | _, _ => false
  end.

(** ** From a decoded node *)

Section FromNode.
Variable from_node : bdecode_node -> result entry.

(** [extern/libtorrent/src/entry.cpp:371-380] entry::operator=
    The loop over a dictionary; of equal keys the last one stays. *)
Fixpoint dict_of_node (fuel : nat) (i : Z) (e : bdecode_node) (d : list (bytes * entry)) : result (list (bytes * entry)) :=
  '(size, e) ← dict_size e;
  if i <? size then
    '(key, elem, e) ← dict_at i e;
    v ← from_node elem;
    match fuel with
    | O => Fault OutOfFuel
    | S fuel' => dict_of_node fuel' (i + 1) e (map_set key v d)
    end
  else Ok d.

(** [extern/libtorrent/src/entry.cpp:381-390] entry::operator=
    The loop over a list. *)
Fixpoint list_of_node (fuel : nat) (i : Z) (e : bdecode_node) (l : list entry) : result (list entry) :=
  '(size, e) ← list_size e;
  if i <? size then
    '(elem, e) ← list_at i e;
    v ← from_node elem;
    match fuel with
    | O => Fault OutOfFuel
    | S fuel' => list_of_node fuel' (i + 1) e (l ++ [v])
    end
  else Ok l.
End FromNode.

(** [extern/libtorrent/src/entry.cpp:359-395] entry::operator=
    [fuel] bounds the depth of the recursion. *)
Fixpoint entry_of_node (fuel : nat) (e : bdecode_node) : result entry :=
  match fuel with
  | O => Fault OutOfFuel
  | S fuel' =>
      let this := EUndefined in
      t ← node_type_of e;
      match t with
      | string_t => '(_, _) ← entry_string_ref this; s ← string_value e; Ok (EStr s)
      | int_t => '(_, _) ← entry_integer_ref this; z ← int_value e; Ok (EInt z)
      | dict_t =>
          '(d, _) ← entry_dict_ref this;
          d ← dict_of_node (entry_of_node fuel') (length (m_root_tokens e)) 0 e d; Ok (EDict d)
      | list_t =>
          '(l, _) ← entry_list_ref this;
          l ← list_of_node (entry_of_node fuel') (length (m_root_tokens e)) 0 e l; Ok (EList l)
      | none_t | unnamed_t => Ok this
      end
  end.

(** ** Encoding *)

(** [extern/libtorrent/src/entry.cpp:60-64] detail::integer_to_str
    The digits before [acc]; there is room for [room] of them. *)
Fixpoint int_digits_loop (room : nat) (val : Z) (acc : bytes) : bytes :=
  match room with
  | O => acc
  | S room' => if val =? 0 then acc else int_digits_loop room' (Z.quot val 10) (48 + Z.rem val 10 :: acc)
  end.

(** [extern/libtorrent/src/entry.cpp:48-68] detail::integer_to_str
    The buffer of the callers has 21 bytes: the last takes the terminator, the first is
    never written, and the second only a sign. *)
Definition integer_to_str (val : Z) : result bytes :=
  let sign := val <? 0 in
  if val =? - 2 ^ 63 then Fault SignedOverflow
  else
    let val := if sign then - val else val in
    let str := if val =? 0 then [48] else [] in
    let str := int_digits_loop (if sign then 18 else 19) val str in
    Ok (if sign then 45 :: str else str).

(** [extern/libtorrent/include/libtorrent/bencode.hpp:72-91] detail::write_integer
    What is written, and how many bytes it is. *)
Definition write_integer (data : Z) : result (bytes * Z) :=
  str ← integer_to_str data; Ok (str, Z.of_nat (length str)).

(** [extern/libtorrent/include/libtorrent/io.hpp:180-185] detail::write_string *)
Definition write_string (val : bytes) : bytes * Z := (val, Z.of_nat (length val)).

(** The integer, the colon and the bytes of a string. *)
(** [extern/libtorrent/include/libtorrent/bencode.hpp:150-155] detail::bencode_recursive *)
Definition bencode_string (s : bytes) : result (bytes * Z) :=
  '(len, ret) ← write_integer (Z.of_nat (length s));
  let '(str, ret') := write_string s in Ok (len ++ [58] ++ str, ret + ret' + 1).

(** The elements of a container, one after the other. *)
Section WriteAll.
Context {A : Type} (write : A -> result (bytes * Z)).

Fixpoint write_all (l : list A) : result (bytes * Z) :=
  match l with
  | [] => Ok ([], 0)
  | i :: l' => '(out, ret) ← write i; '(out', ret') ← write_all l'; Ok (out ++ out', ret + ret')
  end.
End WriteAll.

(** [extern/libtorrent/include/libtorrent/bencode.hpp:138-192] detail::bencode_recursive *)
Fixpoint bencode_recursive (e : entry) : result (bytes * Z) :=
  match e with
  | EInt z => '(str, ret) ← write_integer z; Ok ([105] ++ str ++ [101], ret + 2)
  | EStr s => bencode_string s
  | EList l => '(out, ret) ← write_all bencode_recursive l; Ok ([108] ++ out ++ [101], ret + 2)
  | EDict d =>
      '(out, ret) ← write_all (fun i =>
        '(key, ret) ← bencode_string i.1;
        '(val, ret') ← bencode_recursive i.2;
        Ok (key ++ val, ret + ret')) d;
      Ok ([100] ++ out ++ [101], ret + 2)
  | EPreformatted b => Ok (b, Z.of_nat (length b))
  | EUndefined => Ok ([48; 58], 2)
  end.

(** [extern/libtorrent/include/libtorrent/bencode.hpp:372-375] bencode *)
Definition bencode (e : entry) : result (bytes * Z) := bencode_recursive e.

(** ** Printing *)

(** [extern/libtorrent/src/string_util.cpp:74-77] is_print *)
Definition is_print (c : Z) : bool := (32 <=? c) && (c <? 127).

(** [extern/libtorrent/src/entry.cpp:663-667] is_binary *)
Definition is_binary (str : bytes) : bool := existsb (fun c => negb (is_print c)) str.

(** [extern/libtorrent/src/entry.cpp:669-673] print_string *)
Definition entry_print_string (str : bytes) : bytes := if is_binary str then to_hex str else str.

(** [extern/libtorrent/src/entry.cpp:675-678] add_indent *)
Definition add_indent (out : bytes) (indent : nat) : bytes := out ++ replicate indent 32.

Section PrintAll.
Context {A : Type} (print : bytes -> A -> bytes) (single_line : bool) (indent : nat).

(** The loops of [print_list] and [print_dict]. *)
Fixpoint print_all (out : bytes) (first : bool) (l : list A) : bytes :=
  match l with
  | [] => out
  | item :: l' =>
      let out := if first then out else out ++ (if single_line then bytes_of_string ", " else [44; 10]) in
      let out := if single_line then out else add_indent out indent in
      print_all (print out item) false l'
  end.
End PrintAll.

Section Print.
Variable to_string_impl : nat -> bytes -> entry -> bytes.

(** [extern/libtorrent/src/entry.cpp:712-725] print_list *)
Definition print_list (out : bytes) (e : list entry) (indent : nat) (single_line : bool) : bytes :=
  let out := out ++ (if single_line then bytes_of_string "[ " else [91; 10]) in
  print_all (to_string_impl indent) single_line indent out true e ++ bytes_of_string " ]".

(** [extern/libtorrent/src/entry.cpp:727-744] print_dict *)
Definition print_dict (out : bytes) (e : list (bytes * entry)) (indent : nat) (single_line : bool) : bytes :=
  let out := out ++ (if single_line then bytes_of_string "{ " else [123; 10]) in
  print_all (fun out item =>
    let out := out ++ [39] ++ entry_print_string item.1 ++ bytes_of_string "': " in
    to_string_impl (S indent) out item.2) single_line indent out true e ++ bytes_of_string " }".
End Print.

(** [extern/libtorrent/src/entry.cpp:683-710] to_string_impl *)
Fixpoint to_string_impl (single_line : bool) (indent : nat) (out : bytes) (e : entry) : bytes :=
  match e with
  | EInt z => out ++ decimal_Z z
  | EStr s => out ++ [39] ++ entry_print_string s ++ [39]
  | EList l => print_list (to_string_impl single_line) out l (S indent) single_line
  | EDict d => print_dict (to_string_impl single_line) out d (S indent) single_line
  | EPreformatted _ => out ++ bytes_of_string "<preformatted>"
  | EUndefined => out ++ bytes_of_string "<uninitialized>"
  end.

(** [extern/libtorrent/src/entry.cpp:747-752] entry::to_string *)
Definition entry_to_string (single_line : bool) (e : entry) : bytes := to_string_impl single_line 0 [] e.

Example print_sample :
  entry_to_string true (EDict [(bytes_of_string "a", EList [EInt (-5); EStr [1; 255]; EUndefined])]) =
  bytes_of_string "{ 'a': [ -5, '01ff', <uninitialized> ] }".
Proof. by vm_compute. Qed.
