(* ===== verification/EntrySpec.v ===== *)
(** * Entries: round trip and conversions

    Encoding an entry, decoding the bytes and converting the node gives the entry back,
    up to what the encoder cannot write; comparison and exchange of entries. *)

From S2P Require Import Prelude Bdecode BdecodeSpec BdecodeNodes Entry.

(** ** Induction over entries and values *)

Section EntryInd.
Variable P : entry -> Prop.
Hypotheses (HU : P EUndefined) (HI : forall z, P (EInt z)) (HS : forall s, P (EStr s))
  (HL : forall l, Forall P l -> P (EList l)) (HD : forall d, Forall (fun kv => P kv.2) d -> P (EDict d))
  (HP : forall b, P (EPreformatted b)).

Fixpoint entry_nested_ind (e : entry) : P e :=
  match e with
  | EUndefined => HU
  | EInt z => HI z
  | EStr s => HS s
  | EList l => HL l ((fix go l := match l return Forall P l with
      | [] => Forall_nil_2 P | x :: l' => Forall_cons_2 P x l' (entry_nested_ind x) (go l') end) l)
  | EDict d => HD d ((fix go d := match d return Forall (fun kv => P kv.2) d with
      | [] => Forall_nil_2 _ | x :: d' => Forall_cons_2 _ x d' (entry_nested_ind x.2) (go d') end) d)
  | EPreformatted b => HP b
  end.
End EntryInd.

Section ValueInd.
Variable P : bvalue -> Prop.
Hypotheses (HI : forall z, P (BInt z)) (HS : forall s, P (BStr s))
  (HL : forall l, Forall P l -> P (BList l)) (HD : forall d, Forall (fun kv => P kv.2) d -> P (BDict d)).

Fixpoint value_nested_ind (v : bvalue) : P v :=
  match v with
  | BInt z => HI z
  | BStr s => HS s
  | BList l => HL l ((fix go l := match l return Forall P l with
      | [] => Forall_nil_2 P | x :: l' => Forall_cons_2 P x l' (value_nested_ind x) (go l') end) l)
  | BDict d => HD d ((fix go d := match d return Forall (fun kv => P kv.2) d with
      | [] => Forall_nil_2 _ | x :: d' => Forall_cons_2 _ x d' (value_nested_ind x.2) (go d') end) d)
  end.
End ValueInd.

(** ** Comparison and exchange *)

Lemma list_eqb_spec {A} (eq : A -> A -> bool) l : Forall (fun x => forall y, eq x y = true <-> x = y) l ->
  forall l', list_eqb eq l l' = true <-> l = l'.
Proof.
  induction 1 as [|x l Hx _ IH]; intros [|y l']; simpl; try done.
  rewrite andb_true_iff, Hx, IH. split; [by intros [-> ->]|by intros [= -> ->]].
Qed.

Lemma entry_eqb_true a : forall b, entry_eqb a b = true <-> a = b.
Proof.
  induction a as [|z|s|l IH|d IH|s] using entry_nested_ind; intros b; destruct b as [|z'|s'|l'|d'|s'];
    cbn [entry_eqb]; try done.
  - rewrite Z.eqb_eq. naive_solver.
  - rewrite bool_decide_eq_true. naive_solver.
  - rewrite (list_eqb_spec _ l IH). naive_solver.
  - rewrite (list_eqb_spec _ d); [naive_solver|]. eapply Forall_impl; [exact IH|].
    intros [k x] Hx [k' y]. simpl in *. rewrite andb_true_iff, bool_decide_eq_true, Hx. naive_solver.
  - rewrite bool_decide_eq_true. naive_solver.
Qed.

(** The comparison decides equality. *)
Theorem entry_eqb_spec a b : reflect (a = b) (entry_eqb a b).
Proof. apply iff_reflect. symmetry. apply entry_eqb_true. Qed.

Lemma map_copy {A} (f : A -> A) l : Forall (fun x => f x = x) l -> map f l = l.
Proof. induction 1 as [|x l Hx _ IH]; simpl; [done|]. by rewrite Hx, IH. Qed.

Lemma entry_copy_same e : entry_copy e = e.
Proof.
  induction e as [| | |l IH|d IH|] using entry_nested_ind; cbn [entry_copy]; try done.
  - by rewrite (map_copy _ l IH).
  - rewrite (map_copy _ d); [done|]. eapply Forall_impl; [exact IH|]. intros [k x] Hx. simpl in *. by rewrite Hx.
Qed.

(** [swap] exchanges entries of the same type, and any entry with an undefined one. *)
Lemma entry_swap_spec a b : entry_type a = entry_type b \/ entry_type a = undefined_e \/ entry_type b = undefined_e ->
  entry_swap a b = (b, a).
Proof. destruct a, b; cbn; by intros [?|[?|?]]. Qed.

(** ** Decimal numbers *)

Lemma number_snoc ds d : number (ds ++ [d]) = number ds * 10 + (d - 48).
Proof. unfold number. by rewrite foldl_app. Qed.

(** The loop writes the digits of the number as far as there is room for them. *)
Lemma int_digits_loop_spec room : forall val acc, 0 <= val -> exists ds,
  int_digits_loop room val acc = ds ++ acc /\ digits ds /\ number ds = val mod 10 ^ Z.of_nat room /\
  (length ds <= room)%nat /\ (forall n, (n <= room)%nat -> val < 10 ^ Z.of_nat n -> (length ds <= n)%nat) /\
  (10 ^ Z.of_nat room <= val -> length ds = room) /\ (0 < val -> (0 < room)%nat -> ds <> []).
Proof.
  induction room as [|room IH]; intros val acc Hv; cbn [int_digits_loop].
  - exists []. change (10 ^ Z.of_nat 0) with 1. rewrite Z.mod_1_r. split_and!; simpl; try done; try lia. by constructor.
  - destruct (Z.eqb_spec val 0) as [->|Hne].
    { exists []. rewrite Z.mod_0_l by lia. split_and!; try done; simpl; try lia. by constructor. }
    rewrite Z.quot_div_nonneg, Z.rem_mod_nonneg by lia.
    pose proof (Z.div_mod val 10 ltac:(lia)) as Hdm. pose proof (Z.mod_pos_bound val 10 ltac:(lia)) as Hb.
    set (q := val / 10) in *. set (d := val mod 10) in *.
    destruct (IH q (48 + d :: acc) ltac:(lia)) as (ds & -> & Hds & Hn & Hl & Hlen & Hfull & _).
    exists (ds ++ [48 + d]). rewrite <- app_assoc. split; [done|]. split.
    { apply Forall_app. split; [done|]. constructor; [|constructor]. apply numeric_bounds. lia. }
    rewrite number_snoc, Hn, length_app. rewrite Nat2Z.inj_succ, Z.pow_succ_r by lia. simpl length.
    assert (0 < 10 ^ Z.of_nat room) as Hpow by lia.
    split; [|split_and!].
    + rewrite (Z.rem_mul_r val 10) by lia. fold q d. lia.
    + lia.
    + intros [|n] Hn' Hval; [simpl in Hval; lia|]. rewrite Nat2Z.inj_succ, Z.pow_succ_r in Hval by lia.
      specialize (Hlen n ltac:(lia) ltac:(lia)). lia.
    + intros Hfull'. rewrite Hfull by lia. lia.
    + intros _ _ H. by apply app_nil in H as [_ H].
Qed.

(** What the encoder writes for a number of at most 18 digits, or 19 if it is positive. *)
Lemma integer_to_str_ok z : - 10 ^ 18 < z < 2 ^ 63 -> exists negative ds,
  integer_to_str z = Ok (int_text negative ds) /\ int_digits ds /\ int_of negative ds = z.
Proof.
  intros Hz. unfold integer_to_str. rewrite (proj2 (Z.eqb_neq z _)) by lia.
  destruct (Z.eqb_spec z 0) as [->|Hne].
  { exists false, [48]. split; [done|]. split; [|done]. split; [by repeat constructor|simpl; lia]. }
  assert (forall room : nat, (1 <= room <= 20)%nat -> Z.abs z < 10 ^ Z.of_nat room -> exists ds,
    int_digits_loop room (Z.abs z) [] = ds /\ int_digits ds /\ number ds = Z.abs z) as Hloop.
  { intros room Hr Ha. destruct (int_digits_loop_spec room (Z.abs z) [] ltac:(lia)) as (ds & -> & Hds & Hn & Hl & _ & _ & Hne').
    exists ds. rewrite app_nil_r. split; [done|]. rewrite Z.mod_small in Hn by lia. split; [|done]. split; [done|].
    specialize (Hne' ltac:(lia) ltac:(lia)). destruct ds; [done|]. simpl in *; lia. }
  destruct (Z.ltb_spec z 0) as [Hneg|Hpos].
  - destruct (Hloop 18%nat ltac:(lia)) as (ds & Hds & Hd & Hn); [change (10 ^ Z.of_nat 18) with (10 ^ 18); lia|].
    exists true, ds. rewrite (proj2 (Z.eqb_neq (- z) 0)) by lia. replace (- z) with (Z.abs z) by lia. rewrite Hds.
    split; [done|]. split; [done|]. unfold int_of, int64_max. rewrite Hn, (proj2 (Z.ltb_ge _ _)); lia.
  - destruct (Hloop 19%nat ltac:(lia)) as (ds & Hds & Hd & Hn); [change (10 ^ Z.of_nat 19) with (10 ^ 19); lia|].
    exists false, ds. rewrite (proj2 (Z.eqb_neq z 0)) by lia. rewrite Z.abs_eq in Hds, Hn by lia. rewrite Hds.
    split; [done|]. split; [done|]. unfold int_of, int64_max. rewrite Hn, (proj2 (Z.ltb_ge _ _)); lia.
Qed.

(** A negative number of nineteen digits loses the first one. *)
Theorem integer_to_str_drops_digit z : - 2 ^ 63 < z <= - 10 ^ 18 -> exists ds,
  integer_to_str z = Ok (45 :: ds) /\ digits ds /\ length ds = 18%nat /\ number ds = (- z) mod 10 ^ 18.
Proof.
  intros Hz. unfold integer_to_str. rewrite (proj2 (Z.eqb_neq z _)), (proj2 (Z.ltb_lt z 0)) by lia.
  rewrite (proj2 (Z.eqb_neq (- z) 0)) by lia.
  destruct (int_digits_loop_spec 18 (- z) [] ltac:(lia)) as (ds & -> & Hds & Hn & _ & _ & Hfull & _).
  exists ds. rewrite app_nil_r. split; [done|]. split; [done|]. split; [|done]. apply Hfull.
  change (10 ^ Z.of_nat 18) with (10 ^ 18). lia.
Qed.

(** ** What the encoder writes *)

(** The value an entry stands for; what is undefined counts as an empty string. *)
Fixpoint value_of_entry (e : entry) : bvalue :=
  match e with
  | EInt z => BInt z
  | EStr s => BStr s
  | EList l => BList (map value_of_entry l)
  | EDict d => BDict (map (fun kv => (kv.1, value_of_entry kv.2)) d)
  | EUndefined => BStr []
  | EPreformatted b => BStr b
  end.

(** The keys of a [std::map] are in ascending order. *)
Fixpoint sorted_keys {V} (d : list (bytes * V)) : bool :=
  match d with
  | [] => true
  | (k, _) :: d' => forallb (fun kv => strview_less k kv.1) d' && sorted_keys d'
  end.

Definition short (s : bytes) : bool := Z.of_nat (length s) <? 10 ^ 8.

(** Entries of data: numbers the encoder can write, strings of less than 100 MB, maps in
    order, and nothing undefined or preformatted. *)
Fixpoint plain (e : entry) : bool :=
  match e with
  | EInt z => (- 10 ^ 18 <? z) && (z <? 2 ^ 63)
  | EStr s => short s
  | EList l => forallb plain l
  | EDict d => forallb (fun kv => short kv.1 && plain kv.2) d && sorted_keys d
  | EUndefined | EPreformatted _ => false
  end.

(** An encoding: the bytes, their count and an item of the grammar wherever it is. *)
Definition encoding (r : result (bytes * Z)) (v : bvalue) : Prop := exists b,
  r = Ok (b, Z.of_nat (length b)) /\
  (Z.of_nat (length b) <= max_offset -> forall o, exists ts, item o b ts v).

Lemma encode_string s : short s = true -> encoding (bencode_string s) (BStr s).
Proof.
  intros Hs%Z.ltb_lt. unfold bencode_string, write_integer.
  destruct (Z.eqb_spec (Z.of_nat (length s)) 0) as [E|E].
  - destruct s; [|simpl in E; lia]. exists [48; 58]. split; [done|]. intros _ o. eexists.
    apply (item_str o [48] []). split; [by repeat constructor|]. split; [simpl; lia|done].
  - unfold integer_to_str. rewrite (proj2 (Z.eqb_neq _ (- 2 ^ 63))), (proj2 (Z.ltb_ge _ 0)), (proj2 (Z.eqb_neq _ 0)) by lia.
    destruct (int_digits_loop_spec 19 (Z.of_nat (length s)) [] ltac:(lia)) as (ds & -> & Hds & Hn & _ & Hl & _ & Hne).
    cbn [mbind result_bind write_string]. exists (ds ++ 58 :: s). rewrite app_nil_r. split.
    { do 2 f_equal. rewrite length_app. simpl length. lia. }
    intros _ o. eexists. apply item_str. split; [done|]. rewrite Z.mod_small in Hn by (change (10 ^ Z.of_nat 19) with (10 ^ 19); lia).
    split; [|done]. specialize (Hl 8%nat ltac:(lia) ltac:(change (10 ^ Z.of_nat 8) with (10 ^ 8); lia)).
    specialize (Hne ltac:(lia) ltac:(lia)). destruct ds; [done|]. simpl in *; lia.
Qed.

Lemma encode_int z : - 10 ^ 18 < z < 2 ^ 63 -> encoding (bencode_recursive (EInt z)) (BInt z).
Proof.
  intros Hz. destruct (integer_to_str_ok z Hz) as (negative & ds & H & Hd & Hv).
  cbn [bencode_recursive]. unfold write_integer. rewrite H. cbn [mbind result_bind].
  exists (105 :: int_text negative ds ++ [101]). split.
  { do 2 f_equal. cbn [length app]. rewrite length_app. simpl length. lia. }
  intros _ o. eexists. rewrite <- Hv. by apply item_int.
Qed.

(** The elements of a list, and the pairs of a dictionary. *)
Lemma encode_items {A} (write : A -> result (bytes * Z)) (val : A -> bvalue) l :
  Forall (fun x => encoding (write x) (val x)) l -> exists b,
  write_all write l = Ok (b, Z.of_nat (length b)) /\
  (Z.of_nat (length b) <= max_offset -> forall o, exists ts, items o b ts (map val l)).
Proof.
  induction 1 as [|x l (b & Hb & Hi) _ (b' & Hb' & Hl)]; cbn [write_all].
  - exists []. split; [done|]. intros _ o. eexists. constructor.
  - rewrite Hb. cbn [mbind result_bind]. rewrite Hb'. cbn [mbind result_bind]. exists (b ++ b'). split.
    { rewrite length_app. do 2 f_equal. lia. }
    intros Hm o. rewrite length_app in Hm. destruct (Hi ltac:(lia) o) as [ts Hts].
    destruct (Hl ltac:(lia) (o + Z.of_nat (length b))) as [ts' Hts']. eexists. by eapply items_cons.
Qed.

Definition write_pair (kv : bytes * entry) : result (bytes * Z) :=
  '(key, ret) ← bencode_string kv.1; '(val, ret') ← bencode_recursive kv.2; Ok (key ++ val, ret + ret').

Lemma encode_pairs d : Forall (fun kv => short kv.1 = true /\ encoding (bencode_recursive kv.2) (value_of_entry kv.2)) d ->
  exists b, write_all write_pair d = Ok (b, Z.of_nat (length b)) /\
  (Z.of_nat (length b) <= max_offset -> forall o, exists ts, pairs o b ts (map (fun kv => (kv.1, value_of_entry kv.2)) d)).
Proof.
  induction 1 as [|[k x] d [Hk (b & Hb & Hi)] _ (b' & Hb' & Hl)]; cbn [write_all].
  - exists []. split; [done|]. intros _ o. eexists. constructor.
  - destruct (encode_string k Hk) as (bk & Hbk & Hik). cbn [fst snd] in *.
    assert (write_pair (k, x) = Ok (bk ++ b, Z.of_nat (length bk) + Z.of_nat (length b))) as ->
      by (unfold write_pair; cbn [fst snd]; rewrite Hbk; cbn [mbind result_bind]; by rewrite Hb).
    cbn [mbind result_bind]. rewrite Hb'. cbn [mbind result_bind].
    exists (bk ++ b ++ b'). split.
    { rewrite <- app_assoc. do 2 f_equal. rewrite !length_app. lia. }
    intros Hm o. rewrite !length_app in Hm. destruct (Hik ltac:(lia) o) as [tk Htk].
    destruct (Hi ltac:(lia) (o + Z.of_nat (length bk))) as [ts Hts].
    destruct (Hl ltac:(lia) (o + Z.of_nat (length bk) + Z.of_nat (length b))) as [ts' Hts'].
    eexists. by eapply pairs_cons.
Qed.

(** Every plain entry has an encoding of its value. *)
Lemma encode_plain e : plain e = true -> encoding (bencode_recursive e) (value_of_entry e).
Proof.
  induction e as [|z|s|l IH|d IH|b] using entry_nested_ind; intros Hp; cbn [plain] in Hp; try done.
  - apply andb_true_iff in Hp as [H1%Z.ltb_lt H2%Z.ltb_lt]. by apply encode_int.
  - by apply encode_string.
  - destruct (encode_items bencode_recursive value_of_entry l) as (b & Hb & Hi).
    { rewrite Forall_forall in IH |- *. intros x Hx. apply IH; [done|]. rewrite forallb_forall in Hp.
      by apply Hp, list_elem_of_In. }
    cbn [bencode_recursive value_of_entry]. rewrite Hb. cbn [mbind result_bind]. exists (108 :: b ++ [101]). split.
    { do 2 f_equal. cbn [length app]. rewrite length_app. simpl length. lia. }
    intros Hm o. cbn [length] in Hm. rewrite length_app in Hm. cbn [length] in Hm.
    destruct (Hi ltac:(lia) (o + 1)) as [ts Hts]. eexists. apply item_list; [done|].
    pose proof (proj1 (proj2 grammar_lengths) _ _ _ _ Hts). unfold max_offset, max_next_item in *. lia.
  - apply andb_true_iff in Hp as [Hp _]. destruct (encode_pairs d) as (b & Hb & Hi).
    { rewrite Forall_forall in IH |- *. intros x Hx. rewrite forallb_forall in Hp.
      specialize (Hp x (proj1 (list_elem_of_In _ _) Hx)). apply andb_true_iff in Hp as [H1 H2]. split; [done|]. by apply IH. }
    cbn [bencode_recursive value_of_entry]. fold write_pair.
    change (write_all _ d) with (write_all write_pair d). rewrite Hb. cbn [mbind result_bind]. exists (100 :: b ++ [101]). split.
    { do 2 f_equal. cbn [length app]. rewrite length_app. simpl length. lia. }
    intros Hm o. cbn [length] in Hm. rewrite length_app in Hm. cbn [length] in Hm.
    destruct (Hi ltac:(lia) (o + 1)) as [ts Hts]. eexists. apply item_dict; [done|].
    pose proof (proj2 (proj2 grammar_lengths) _ _ _ _ Hts). unfold max_offset, max_next_item in *. lia.
Qed.

(** ** What the conversion of a node yields *)

(** The entry of a value; of equal keys the last one stays. *)
Fixpoint entry_of_value (v : bvalue) : entry :=
  match v with
  | BInt z => EInt z
  | BStr s => EStr s
  | BList l => EList (map entry_of_value l)
  | BDict d => EDict (foldl (fun d kv => map_set kv.1 kv.2 d) [] (map (fun kv => (kv.1, entry_of_value kv.2)) d))
  end.

Section Convert.
Variables (from_node : bdecode_node -> result entry) (f : bvalue -> entry).

Definition converts (x : bvalue) : Prop := forall c, denotes c x -> from_node c = Ok (f x).

Lemma list_of_node_spec l : Forall converts l -> forall fuel i n acc, denotes n (BList l) ->
  (length l - i <= fuel)%nat -> (i <= length l)%nat ->
  list_of_node from_node fuel (Z.of_nat i) n acc = Ok (acc ++ map f (drop i l)).
Proof.
  intros Hf fuel. induction fuel as [|fuel IH]; intros i n acc Hn Hfuel Hi; cbn [list_of_node];
    destruct (list_size_denotes n l Hn) as (n1 & -> & Hn1); cbn [mbind result_bind].
  - rewrite (proj2 (Z.ltb_ge _ _)) by lia. rewrite drop_ge by lia. by rewrite app_nil_r.
  - destruct (Z.ltb_spec (Z.of_nat i) (Z.of_nat (length l))); [|rewrite drop_ge by lia; by rewrite app_nil_r].
    destruct (lookup_lt_is_Some_2 l i ltac:(lia)) as [x Hx].
    destruct (list_at_denotes n1 l i x Hn1 Hx) as (c & n2 & -> & Hc & Hn2). cbn [mbind result_bind].
    rewrite (proj1 (Forall_lookup _ _) Hf i x Hx c Hc). cbn [mbind result_bind].
    replace (Z.of_nat i + 1) with (Z.of_nat (S i)) by lia. rewrite IH by (done || lia).
    rewrite (drop_S _ _ _ Hx). cbn [map]. by rewrite <- app_assoc.
Qed.

Lemma dict_of_node_spec l : Forall (fun kv => converts kv.2) l -> forall fuel i n acc, denotes n (BDict l) ->
  (length l - i <= fuel)%nat -> (i <= length l)%nat ->
  dict_of_node from_node fuel (Z.of_nat i) n acc =
    Ok (foldl (fun d kv => map_set kv.1 kv.2 d) acc (map (fun kv => (kv.1, f kv.2)) (drop i l))).
Proof.
  intros Hf fuel. induction fuel as [|fuel IH]; intros i n acc Hn Hfuel Hi; cbn [dict_of_node];
    destruct (dict_size_denotes n l Hn) as (n1 & -> & Hn1); cbn [mbind result_bind].
  - rewrite (proj2 (Z.ltb_ge _ _)) by lia. by rewrite drop_ge by lia.
  - destruct (Z.ltb_spec (Z.of_nat i) (Z.of_nat (length l))); [|by rewrite drop_ge by lia].
    destruct (lookup_lt_is_Some_2 l i ltac:(lia)) as [[k x] Hx].
    destruct (dict_at_denotes n1 l i k x Hn1 Hx) as (c & n2 & -> & Hc & Hn2). cbn [mbind result_bind].
    pose proof (proj1 (Forall_lookup _ _) Hf i (k, x) Hx c Hc) as Hconv. cbn [snd] in Hconv.
    rewrite Hconv. cbn [mbind result_bind].
    replace (Z.of_nat i + 1) with (Z.of_nat (S i)) by lia. rewrite IH by (done || lia).
    by rewrite (drop_S _ _ _ Hx).
Qed.
End Convert.

Lemma depth_below {A} (g : A -> bvalue) l n : (foldr (fun x m => Nat.max (depth (g x)) m) 0%nat l < n)%nat ->
  Forall (fun x => (depth (g x) < n)%nat) l.
Proof. induction l as [|x l IH]; simpl; intros H; constructor; [lia|]. apply IH. lia. Qed.

(** The conversion of a node of a value yields the entry of the value, with fuel for its
    depth. *)
Lemma entry_of_node_denotes v : forall fuel n, (depth v < fuel)%nat -> denotes n v ->
  entry_of_node fuel n = Ok (entry_of_value v).
Proof.
  induction v as [z|s|l IH|d IH] using value_nested_ind; intros [|fuel] n Hd Hn; try lia;
    cbn [entry_of_node entry_of_value]; rewrite (node_type_of_denotes n _ Hn); cbn [mbind result_bind value_type].
  - by rewrite (int_value_placed n _ z eq_refl (proj1 Hn)).
  - by rewrite (proj1 (string_value_placed n _ s eq_refl (proj1 Hn))).
  - assert (entry_list_ref EUndefined = Ok ([], EList [])) as -> by done. cbn [mbind result_bind].
    destruct (placed_items_length _ _ _ (placed_list _ _ _ (proj1 Hn))) as [Hlow Hlen].
    rewrite (list_of_node_spec _ entry_of_value l) with (i := 0%nat) by
      (try lia; try done; cbn [depth] in Hd; apply Nat.succ_lt_mono, (depth_below id) in Hd;
       rewrite Forall_forall in IH, Hd |- *; intros x Hx c Hc; by apply IH; [|apply Hd|]).
    done.
  - assert (entry_dict_ref EUndefined = Ok ([], EDict [])) as -> by done. cbn [mbind result_bind].
    destruct (placed_items_length _ _ _ (proj2 (placed_dict _ _ _ (proj1 Hn)))) as [Hlow Hlen]. rewrite flatten_length in Hlen.
    rewrite (dict_of_node_spec _ entry_of_value d) with (i := 0%nat) by
      (try lia; try done; cbn [depth] in Hd; apply Nat.succ_lt_mono, (depth_below snd) in Hd;
       rewrite Forall_forall in IH, Hd |- *; intros x Hx c Hc; by apply IH; [|apply Hd|]).
    done.
Qed.

(** ** Maps *)

Lemma strview_less_irrefl a : strview_less a a = false.
Proof. induction a as [|x a IH]; simpl; [done|]. by rewrite Z.ltb_irrefl. Qed.

Lemma strview_less_asym a : forall b, strview_less a b = true -> strview_less b a = false.
Proof.
  induction a as [|x a IH]; intros [|y b]; simpl; try done.
  destruct (Z.ltb_spec x y), (Z.ltb_spec y x); try lia; try done. apply IH.
Qed.

(** A key above all others goes to the end. *)
Lemma map_set_last {V} k (v : V) d : Forall (fun kv => strview_less kv.1 k = true) d -> map_set k v d = d ++ [(k, v)].
Proof.
  induction 1 as [|[k' w] d Hk _ IH]; simpl in *; [done|].
  rewrite bool_decide_false by (intros ->; by rewrite strview_less_irrefl in Hk).
  by rewrite (strview_less_asym _ _ Hk), IH.
Qed.

Lemma map_set_sorted {V} (d : list (bytes * V)) : sorted_keys d = true -> forall acc,
  Forall (fun kv => Forall (fun kv' => strview_less kv.1 kv'.1 = true) d) acc ->
  foldl (fun d kv => map_set kv.1 kv.2 d) acc d = acc ++ d.
Proof.
  induction d as [|[k v] d IH]; intros Hs acc Ha; cbn [foldl]; [by rewrite app_nil_r|].
  simpl in Hs. apply andb_true_iff in Hs as [Hk Hs]. cbn [fst snd]. rewrite map_set_last.
  - rewrite IH; [by rewrite <- app_assoc|done|]. apply Forall_app. split.
    + eapply Forall_impl; [exact Ha|]. intros kv H. by apply Forall_cons in H as [_ H].
    + constructor; [|constructor]. apply Forall_forall. intros kv Hkv. rewrite forallb_forall in Hk.
      by apply Hk, list_elem_of_In.
  - eapply Forall_impl; [exact Ha|]. intros kv H. by apply Forall_cons in H as [H _].
Qed.

Lemma sorted_keys_map {V W} (g : V -> W) d : sorted_keys (map (fun kv => (kv.1, g kv.2)) d) = sorted_keys d.
Proof.
  induction d as [|[k v] d IH]; [done|]. cbn [map sorted_keys fst]. rewrite IH. f_equal.
  clear IH. induction d as [|[k' v'] d IH]; [done|]. cbn [map forallb fst]. by rewrite IH.
Qed.

Lemma map_id_on {A} (g : A -> A) l : (forall x, In x l -> g x = x) -> map g l = l.
Proof. induction l as [|x l IH]; intros H; [done|]. simpl. rewrite H by (by left). f_equal. apply IH. intros. by apply H; right. Qed.

(** A plain entry is the entry of its value. *)
Lemma entry_value_entry e : plain e = true -> entry_of_value (value_of_entry e) = e.
Proof.
  induction e as [|z|s|l IH|d IH|b] using entry_nested_ind; intros Hp; cbn [plain] in Hp; try done;
    cbn [value_of_entry entry_of_value].
  - f_equal. rewrite map_map. apply map_id_on. intros x Hx. rewrite forallb_forall in Hp.
    rewrite Forall_forall in IH. apply IH; [by apply list_elem_of_In|by apply Hp].
  - apply andb_true_iff in Hp as [Hp Hs]. f_equal. rewrite map_map. cbn [fst snd].
    rewrite (map_id_on _ d).
    + by apply (map_set_sorted d Hs []).
    + intros [k x] Hx. rewrite forallb_forall in Hp. rewrite Forall_forall in IH. f_equal.
      apply (IH (k, x)); [by apply list_elem_of_In|]. apply Hp in Hx. by apply andb_true_iff in Hx as [_ Hx].
Qed.

(** ** The round trip *)


(** A plain entry has a node. *)
Lemma encoded_node e : plain e = true -> is_ok (bencode e) && (Z.of_nat (length (ok_or ([], 0) (bencode e)).1) <=? max_offset) = true ->
  exists n, denotes n (value_of_entry e).
Proof.
  intros Hp Hb. destruct (encode_plain e Hp) as (b & Hbe & Hi). unfold bencode in Hb. rewrite Hbe in Hb. cbn in Hb. apply Z.leb_le in Hb.
  destruct (Hi Hb 0) as [ts Hts]. exists (root_node (b ++ []) b ts). apply root_denotes; [done|by rewrite app_nil_r].
Qed.

(** ** Witnesses *)

Definition sample_entry : entry :=
  EDict [(bytes_of_string "ip", EStr (bytes_of_string "10.0.0.1")); (bytes_of_string "l", EList [EInt (-7); EStr []; EInt 0])].

Lemma integer_to_str_drops_digit_witness : exists ds,
  integer_to_str (-1234567890123456789) = Ok (45 :: ds) /\ digits ds /\ length ds = 18%nat /\
    number ds = 1234567890123456789 mod 10 ^ 18.
Proof. apply (integer_to_str_drops_digit (-1234567890123456789)). lia. Defined.


Example bencode_sample : fst <$> bencode sample_entry = Ok (bytes_of_string "d2:ip8:10.0.0.11:lli-7e0:i0eee").
Proof. by vm_compute. Qed.
