(* ===== verification/Paths.v ===== *)
(** * Paths

    What the torrent's metadata may name as a file: [extern/libtorrent/src/utf8.cpp] and [extern/libtorrent/src/ConvertUTF.cpp]
    (one code point), [extern/libtorrent/src/path.cpp] (splitting and joining) and the sanitizing of path elements
    in [extern/libtorrent/src/torrent_info.cpp], all as compiled for a POSIX system.  Whatever the elements are,
    the path stays inside the directory it is taken relative to. *)

From S2P Require Import Prelude.

(** ** Code points *)

(** [extern/libtorrent/src/ConvertUTF.cpp:178-187] trailingBytesForUTF8 *)
Definition trailingBytesForUTF8 (c : Z) : nat :=
  if c <? 192 then 0 else if c <? 224 then 1 else if c <? 240 then 2
  else if c <? 248 then 3 else if c <? 252 then 4 else 5.

(** [extern/libtorrent/src/ConvertUTF.cpp:194-195] offsetsFromUTF8 *)
Definition offsetsFromUTF8 : list Z := [0; 0x3080; 0xE2080; 0x3C82080; 0xFA082080; 0x82082080].

Definition continuation (a : Z) : bool := (128 <=? a) && (a <=? 191).

(** [extern/libtorrent/src/ConvertUTF.cpp:300-328] isLegalUTF8
    The first [length] bytes; the last tests of the switch come first here. *)
Definition isLegalUTF8 (source : bytes) (length : nat) : bool :=
  match take length source with
  | [c] => negb ((128 <=? c) && (c <? 194)) && (c <=? 244)
  | c :: a :: rest =>
      (Nat.leb length 4) && forallb continuation (a :: rest) &&
      negb (((c =? 224) && (a <? 160)) || ((c =? 237) && (159 <? a)) ||
            ((c =? 240) && (a <? 144)) || ((c =? 244) && (143 <? a))) &&
      negb ((128 <=? c) && (c <? 194)) && (c <=? 244)
  | [] => false
  end.

(** [extern/libtorrent/src/utf8.cpp:268-297] parse_utf8_codepoint
    Of a string that is not empty: the code point, or -1, and the bytes it takes. *)
Definition parse_utf8_codepoint (str : bytes) : Z * nat :=
  let sequence_len := S (trailingBytesForUTF8 (nth 0 str 0)) in
  if (length str <? sequence_len)%nat then (-1, length str)
  else if (4 <? sequence_len)%nat then (-1, sequence_len)
  else if negb (isLegalUTF8 str sequence_len) then (-1, sequence_len)
  else
    let ch := foldl (fun ch c => u32 (u32 (Z.shiftl ch 6) + c)) 0 (take sequence_len str) in
    let ch := u32 (ch - nth (sequence_len - 1) offsetsFromUTF8 0) in
    if 0x7fffffff <? ch then (-1, sequence_len) else (ch, sequence_len).

(** [extern/libtorrent/src/torrent_info.cpp:89-99] valid_path_character *)
Definition valid_path_character (c : Z) : bool := negb (c <? 32).

(** [extern/libtorrent/src/torrent_info.cpp:101-112] filter_path_character
    [strchr] also finds the terminator of its string. *)
Definition filter_path_character (c : Z) : bool :=
  let bad_cp := [0x202a; 0x202b; 0x202c; 0x202d; 0x202e; 0x200e; 0x200f] in
  if bool_decide (In c bad_cp) then true
  else if 127 <? c then false
  else (c =? 47) || (c =? 92) || (c =? 0).

(** ** Sanitizing *)

Definition i8 (z : Z) : Z := (z + 2 ^ 7) mod 2 ^ 8 - 2 ^ 7.

(** The local variables of [sanitize_append_path_element]. *)
Record sanitizing := mk_sanitizing { sn_path : bytes; sn_added : nat; sn_num_dots : Z; sn_found_extension : bool }.

(** [extern/libtorrent/src/torrent_info.cpp:291-298] sanitize_append_path_element
    The last dot among the [count] positions after [lo]. *)
Fixpoint find_dot (count : nat) (element : bytes) (lo : nat) : option nat :=
  match count with
  | O => None
  | S count' => if nth (lo + count) element 0 =? 46 then Some (lo + count)%nat else find_dot count' element lo
  end.

(** [extern/libtorrent/src/torrent_info.cpp:250-304] sanitize_append_path_element
    One turn of the loop: the next [i], or the end of the loop. *)
Definition sanitize_turn (element : bytes) (i : nat) (s : sanitizing) : option nat * sanitizing :=
  let '(code_point, seq_len) := parse_utf8_codepoint (drop i element) in
  if (0 <=? code_point) && filter_path_character code_point then (Some (i + seq_len)%nat, s)
  else if (code_point <? 0) || negb (valid_path_character code_point) then
    (Some (i + seq_len)%nat, mk_sanitizing (sn_path s ++ [95]) (sn_added s + 1) (sn_num_dots s) (sn_found_extension s))
  else
    let path := sn_path s ++ take seq_len (drop i element) in
    let num_dots := if code_point =? 46 then i8 (sn_num_dots s + 1) else sn_num_dots s in
    let added := (sn_added s + seq_len)%nat in
    if (240 <=? added)%nat && negb (sn_found_extension s) then
      let lo := Nat.max (length element - 10) i in
      match find_dot (length element - 1 - lo) element lo with
      | None => (None, mk_sanitizing path added num_dots (sn_found_extension s))
      | Some dot => (Some (dot - 1 + seq_len)%nat, mk_sanitizing path added num_dots true)
      end
    else (Some (i + seq_len)%nat, mk_sanitizing path added num_dots (sn_found_extension s)).

(** [extern/libtorrent/src/torrent_info.cpp:248-305] sanitize_append_path_element *)
Fixpoint sanitize_loop (fuel : nat) (element : bytes) (i : nat) (s : sanitizing) : result sanitizing :=
  if (i <? length element)%nat then
    match fuel with
    | O => Fault OutOfFuel
    | S fuel' =>
        match sanitize_turn element i s with
        | (None, s) => Ok s
        | (Some i, s) => sanitize_loop fuel' element i s
        end
    end
  else Ok s.

(** [extern/libtorrent/src/torrent_info.cpp:184-333] sanitize_append_path_element
    The new path; every turn of the loop takes a byte of the element. *)
Definition sanitize_append_path_element (path element : bytes) : result bytes :=
  if bool_decide (element = [46]) then Ok path
  else
    let '(path, added_separator) := match path with [] => (path, 0%nat) | _ => (path ++ [47], 1%nat) end in
    match element with
    | [] => Ok (path ++ [95])
    | _ =>
        s ← sanitize_loop (length element) element 0 (mk_sanitizing path 0 0 false);
        let path := sn_path s in
        if (Z.of_nat (sn_added s) =? sn_num_dots s) && (sn_added s <=? 2)%nat then
          Ok (take (length path - sn_added s - added_separator) path)
        else Ok (match path with [] => [95] | _ => path end)
    end.

(** ** Splitting and joining *)

Fixpoint find_first_of (c : Z) (s : bytes) : option nat :=
  match s with
  | [] => None
  | x :: s' => if x =? c then Some 0%nat else S <$> find_first_of c s'
  end.

Fixpoint find_last_of (c : Z) (s : bytes) : option nat :=
  match s with
  | [] => None
  | x :: s' =>
      match find_last_of c s' with
      | Some i => Some (S i)
      | None => if x =? c then Some 0%nat else None
      end
  end.

(** [extern/libtorrent/src/path.cpp:880-894] rsplit_path *)
Definition rsplit_path (p : bytes) : bytes * bytes :=
  match p with
  | [] => ([], [])
  | _ =>
      let p := if bool_decide (last p = Some 47) then removelast p else p in
      match find_last_of 47 p with
      | None => ([], p)
      | Some sep => (take sep p, drop (S sep) p)
      end
  end.

(** [extern/libtorrent/src/path.cpp:896-911] lsplit_path *)
Definition lsplit_path (p : bytes) : bytes * bytes :=
  match p with
  | [] => ([], [])
  | c :: p' =>
      let p := if c =? 47 then p' else p in
      match find_first_of 47 p with
      | None => (p, [])
      | Some sep => (take sep p, drop (S sep) p)
      end
  end.

(** [extern/libtorrent/src/path.cpp:505-538] is_root_path *)
Definition is_root_path (f : bytes) : bool := bool_decide (f = [47]).

Definition is_separator (c : Z) : bool := (c =? 47) || (c =? 92).

(** [extern/libtorrent/src/path.cpp:558-574] has_parent_path *)
Definition has_parent_path (f : bytes) : bool :=
  match last f with
  | None => false
  | Some c =>
      if is_root_path f then false
      else existsb is_separator (if is_separator c then removelast f else f)
  end.

(** [extern/libtorrent/src/path.cpp:632-653] append_path *)
Definition append_path (branch leaf : bytes) : bytes :=
  if bool_decide (branch = []) || bool_decide (branch = [46]) then leaf
  else if bool_decide (leaf = []) then branch
  else (if bool_decide (last branch = Some 47) then branch else branch ++ [47]) ++ leaf.

(** [extern/libtorrent/src/path.cpp:655-677] combine_path *)
Definition combine_path (lhs rhs : bytes) : bytes :=
  if bool_decide (lhs = []) || bool_decide (lhs = [46]) then rhs
  else if bool_decide (rhs = []) || bool_decide (rhs = [46]) then lhs
  else lhs ++ (if bool_decide (last lhs = Some 47) then [] else [47]) ++ rhs.

(** [extern/libtorrent/src/path.cpp:939-957] is_complete *)
Definition is_complete (f : bytes) : bool := bool_decide (head f = Some 47).

Example sanitize_samples :
  sanitize_append_path_element (bytes_of_string "root") (bytes_of_string "..") = Ok (bytes_of_string "root") /\
  sanitize_append_path_element (bytes_of_string "root") (bytes_of_string "../etc") = Ok (bytes_of_string "root/..etc") /\
  sanitize_append_path_element (bytes_of_string "root") (bytes_of_string "./.") = Ok (bytes_of_string "root") /\
  sanitize_append_path_element [] [195; 169; 7; 255; 47] = Ok [195; 169; 95; 95].
Proof. by vm_compute. Qed.

(** ** Code points and their bytes *)

Lemma parse_utf8_codepoint_spec str cp n : bytes_ok str -> str <> [] -> parse_utf8_codepoint str = (cp, n) ->
  (1 <= n)%nat /\
  (0 <= cp -> (n <= length str)%nat /\
    (n = 1%nat /\ take 1 str = [cp] /\ cp < 128 \/ (2 <= n)%nat /\ Forall (fun c => 128 <= c) (take n str))).
Proof.
  intros Hok Hne H. destruct str as [|c s]; [done|]. apply Forall_cons in Hok as [Hc Hok]. unfold byte_ok in Hc.
  unfold parse_utf8_codepoint in H. cbn [nth] in H. set (t := trailingBytesForUTF8 c) in *.
  destruct (Nat.ltb_spec (length (c :: s)) (S t)) as [Hl|Hl]; [injection H as <- <-; simpl; split; [lia|lia]|].
  destruct (Nat.ltb_spec 4 (S t)); [injection H as <- <-; split; lia|].
  destruct (isLegalUTF8 (c :: s) (S t)) eqn:Hlegal; cbn [negb] in H; [|injection H as <- <-; split; lia].
  destruct t as [|t'] eqn:Ht.
  - unfold isLegalUTF8 in Hlegal. cbn [firstn] in Hlegal. rewrite take_0 in Hlegal.
    apply andb_true_iff in Hlegal as [Hlegal _]. apply negb_true_iff, andb_false_iff in Hlegal.
    rewrite Z.leb_gt, Z.ltb_ge in Hlegal.
    assert (c < 192) as Hc192 by (revert Ht; unfold t, trailingBytesForUTF8; repeat case_match; try done; lia).
    cbn [firstn foldl nth Nat.sub offsetsFromUTF8] in H. rewrite take_0 in H. cbn [foldl] in H.
    change (u32 (Z.shiftl 0 6)) with 0 in H. rewrite Z.add_0_l, Z.sub_0_r in H.
    rewrite !(u32_small c) in H by lia. destruct (Z.ltb_spec 2147483647 c); [lia|]. injection H as <- <-.
    split; [lia|]. intros _. split; [lia|]. left. cbn [firstn]. rewrite take_0. split; [done|]. split; [done|lia].
  - assert (n = S (S t')) as -> by (by destruct (_ <? _) in H; injection H as _ <-).
    split; [lia|]. intros _. split; [lia|]. right. split; [lia|].
    assert (192 <= c) as Hc192 by (revert Ht; unfold t, trailingBytesForUTF8; repeat case_match; try done; lia).
    unfold isLegalUTF8 in Hlegal. destruct s as [|a s]; [simpl in Hl; lia|]. cbn [firstn] in Hlegal |- *.
    apply andb_true_iff in Hlegal as [Hlegal _]. apply andb_true_iff in Hlegal as [Hlegal _].
    apply andb_true_iff in Hlegal as [Hlegal _]. apply andb_true_iff in Hlegal as [_ Hlegal].
    constructor; [lia|]. apply Forall_forall. intros x Hx. rewrite forallb_forall in Hlegal.
    apply list_elem_of_In in Hx. apply Hlegal in Hx. unfold continuation in Hx. apply andb_true_iff in Hx as [Hx _]. lia.
Qed.

(** ** What an element becomes *)

(** A byte that may stand in a file name: no control character and no separator. *)
Definition clean (c : Z) : Prop := 32 <= c /\ c <> 47 /\ c <> 92.

(** The name of a file or directory, and not of the directory itself or its parent. *)
Definition component_ok (e : bytes) : Prop := e <> [] /\ Forall clean e /\ e <> [46] /\ e <> [46; 46].

Definition dots (t : bytes) : Prop := Forall (fun c => c = 46) t.

(** What the loop has appended to [p]: clean bytes, and it has counted them and the dots. *)
Record appended (p : bytes) (t : bytes) (s : sanitizing) : Prop := {
  ap_path : sn_path s = p ++ t;
  ap_added : sn_added s = length t;
  ap_clean : Forall clean t;
  ap_dots : dots t -> (length t <= 2)%nat -> sn_num_dots s = Z.of_nat (length t);
}.

(** The effect of a turn that takes the bytes [b]. *)
Lemma appended_more p t s b num_dots found : appended p t s -> Forall clean b ->
  (dots b -> num_dots = i8 (sn_num_dots s + Z.of_nat (length b))) ->
  appended p (t ++ b) (mk_sanitizing (sn_path s ++ b) (sn_added s + length b) num_dots found).
Proof.
  intros [Hp Ha Hc Hd] Hb Hn. split; cbn [sn_path sn_added sn_num_dots].
  - by rewrite Hp, <- app_assoc.
  - by rewrite length_app, Ha.
  - by apply Forall_app.
  - intros Hdots Hl. apply Forall_app in Hdots as [Ht Hb']. rewrite length_app in *.
    rewrite Hn by done. rewrite Hd by (done || lia). unfold i8. rewrite Z.mod_small; lia.
Qed.

Lemma find_dot_after element lo dot : forall count, find_dot count element lo = Some dot -> (lo < dot)%nat.
Proof.
  induction count as [|count IH]; cbn [find_dot]; [done|].
  destruct (nth (lo + S count) element 0 =? 46); [|apply IH]. intros [= <-]. lia.
Qed.

Lemma sanitize_turn_spec element i s p t : bytes_ok element -> (i < length element)%nat -> appended p t s ->
  exists t' s' next, sanitize_turn element i s = (next, s') /\ appended p t' s' /\
    match next with Some i' => (i < i')%nat | None => True end.
Proof.
  intros Hok Hi Hs. unfold sanitize_turn.
  assert (bytes_ok (drop i element)) as Hok' by (by apply Forall_drop).
  assert (drop i element <> []) as Hne by (intros E; apply (f_equal length) in E; rewrite length_drop in E; simpl in E; lia).
  destruct (parse_utf8_codepoint (drop i element)) as [cp n] eqn:E.
  destruct (parse_utf8_codepoint_spec _ _ _ Hok' Hne E) as [Hn Hcp].
  destruct (Z.leb_spec 0 cp) as [H0|H0]; cbn [andb].
  2:{ rewrite (proj2 (Z.ltb_lt cp 0)) by lia. cbn [orb]. do 3 eexists. split; [done|]. split; [|lia].
      apply (appended_more p t s [95]); [done|by repeat constructor|]. intros Hd. by apply Forall_inv in Hd. }
  destruct (filter_path_character cp) eqn:Hf; [by exists t, s, (Some (i + n)%nat); split_and!; [..|lia]|].
  rewrite (proj2 (Z.ltb_ge cp 0)) by lia. cbn [orb].
  destruct (valid_path_character cp) eqn:Hv; cbn [negb].
  2:{ do 3 eexists. split; [done|]. split; [|lia].
      apply (appended_more p t s [95]); [done|by repeat constructor|]. intros Hd. by apply Forall_inv in Hd. }
  destruct (Hcp H0) as [Hl Hbytes].
  assert (length (take n (drop i element)) = n) as Hlen by (rewrite length_take; lia).
  assert (forall found, appended p (t ++ take n (drop i element))
    (mk_sanitizing (sn_path s ++ take n (drop i element)) (sn_added s + n)
       (if cp =? 46 then i8 (sn_num_dots s + 1) else sn_num_dots s) found)) as Happ.
  { intros found. rewrite <- Hlen at 3. apply appended_more; [done|..].
    - destruct Hbytes as [(-> & -> & Hlt)|[_ Hb]].
      + constructor; [|constructor]. unfold valid_path_character in Hv. apply negb_true_iff, Z.ltb_ge in Hv.
        unfold filter_path_character in Hf. destruct (bool_decide _); [done|].
        destruct (Z.ltb_spec 127 cp); [lia|]. apply orb_false_iff in Hf as [Hf _]. apply orb_false_iff in Hf as [H1 H2].
        apply Z.eqb_neq in H1, H2. done.
      + eapply Forall_impl; [exact Hb|]. unfold clean. simpl. lia.
    - intros Hd. destruct Hbytes as [(-> & Ht & _)|[Hn2 Hb]].
      + rewrite Ht in *. apply Forall_inv in Hd. subst cp. done.
      + destruct (take n (drop i element)) as [|c r] eqn:Et; [simpl in Hlen; lia|].
        apply Forall_inv in Hd. apply Forall_inv in Hb. lia. }
  set (lo := Nat.max (length element - 10) i).
  destruct (_ && _); [|exists (t ++ take n (drop i element)); do 2 eexists; split; [done|split; [apply Happ|lia]]].
  destruct (find_dot _ element lo) as [dot|] eqn:Ed.
  - exists (t ++ take n (drop i element)). do 2 eexists. split; [done|]. split; [apply Happ|]. apply find_dot_after in Ed. lia.
  - exists (t ++ take n (drop i element)). do 2 eexists. split; [done|]. split; [apply Happ|done].
Qed.

Lemma sanitize_loop_spec element p : bytes_ok element -> forall fuel i s t, (length element - i <= fuel)%nat ->
  appended p t s -> exists t' s', sanitize_loop fuel element i s = Ok s' /\ appended p t' s'.
Proof.
  intros Hok. induction fuel as [|fuel IH]; intros i s t Hf Hs; cbn [sanitize_loop];
    destruct (Nat.ltb_spec i (length element)) as [Hi|Hi]; try lia; try by exists t, s.
  destruct (sanitize_turn_spec element i s p t Hok Hi Hs) as (t' & s' & next & -> & Hs' & Hn).
  destruct next as [i'|]; [|by exists t', s']. apply IH with t'; [lia|done].
Qed.

(** Sanitizing an element returns; it leaves the path alone, or appends one component
    that names neither the directory nor its parent. *)
Lemma sanitize_element path element : bytes_ok element -> exists r,
  sanitize_append_path_element path element = Ok r /\
  (r = path \/ exists e, component_ok e /\ r = path ++ (if bool_decide (path = []) then [] else [47]) ++ e).
Proof.
  intros Hok. unfold sanitize_append_path_element. case_bool_decide; [by exists path; split; [|left]|].
  assert (component_ok [95]) as Hu by (split_and!; [done|by repeat constructor|done|done]).
  set (sep := if bool_decide (path = []) then [] else [47]).
  assert ((match path with [] => (path, 0%nat) | _ => (path ++ [47], 1%nat) end) = (path ++ sep, length sep)) as ->
    by (unfold sep; destruct path; [by rewrite bool_decide_true|by rewrite bool_decide_false]).
  destruct element as [|c r].
  { exists ((path ++ sep) ++ [95]). split; [done|]. right. exists [95]. by rewrite <- app_assoc. }
  assert (appended (path ++ sep) [] (mk_sanitizing (path ++ sep) 0 0 false)) as H0
    by (split; cbn; [by rewrite app_nil_r|done|constructor|done]).
  destruct (sanitize_loop_spec (c :: r) (path ++ sep) Hok (length (c :: r)) 0 _ [] ltac:(lia) H0) as (t & s & -> & [Hp Ha Hc Hd]).
  cbn [mbind result_bind]. rewrite Hp, Ha.
  destruct (Z.eqb_spec (Z.of_nat (length t)) (sn_num_dots s)) as [E|E]; cbn [andb];
    [destruct (Nat.leb_spec (length t) 2) as [Hl|Hl]|].
  - exists path. split; [|by left]. f_equal. rewrite !length_app.
    replace (length path + length sep + length t - length t - length sep)%nat with (length path) by lia.
    by rewrite <- app_assoc, take_app_length.
  - exists ((path ++ sep) ++ t). assert (t <> []) by (intros ->; simpl in Hl; lia).
    split; [by destruct ((path ++ sep) ++ t) eqn:Ep; [apply app_nil in Ep as [_ ->]|]|].
    right. exists t. rewrite <- app_assoc. split; [|done]. split_and!; try done; intros ->; simpl in Hl; lia.
  - exists ((path ++ sep) ++ t).
    assert (forall d, t = d -> dots d -> (length d <= 2)%nat -> False) as Hno
      by (intros d -> Hdd Hl; apply E; symmetry; by apply Hd).
    assert (t <> []) by (intros ->; eapply Hno; [done|constructor|simpl; lia]).
    split; [by destruct ((path ++ sep) ++ t) eqn:Ep; [apply app_nil in Ep as [_ ->]|]|].
    right. exists t. rewrite <- app_assoc. split; [|done].
    split_and!; try done; intros ->; (eapply Hno; [done|by repeat constructor|simpl; lia]).
Qed.

(** ** Where a path leads *)

(** The components of a path, and the directory or file it names, seen from the
    directory [cwd] (the names from the root on). *)
Fixpoint components (p : bytes) : list bytes :=
  match p with
  | [] => [[]]
  | c :: p' =>
      if c =? 47 then [] :: components p'
      else match components p' with e :: es => (c :: e) :: es | [] => [[c]] end
  end.

Definition step_into (dir : list bytes) (e : bytes) : list bytes :=
  if bool_decide (e = [] \/ e = [46]) then dir
  else if bool_decide (e = [46; 46]) then removelast dir
  else dir ++ [e].

Definition resolve (cwd : list bytes) (p : bytes) : list bytes :=
  foldl step_into (if is_complete p then [] else cwd) (components p).

(** A path of proper components. *)
Fixpoint join_path (es : list bytes) : bytes :=
  match es with
  | [] => []
  | [e] => e
  | e :: es' => e ++ 47 :: join_path es'
  end.

Definition safe_path (p : bytes) : Prop := exists es, es <> [] /\ Forall component_ok es /\ p = join_path es.

Lemma components_app e p : Forall clean e -> components (e ++ 47 :: p) = e :: components p.
Proof.
  induction 1 as [|c e [_ [Hc _]] _ IH]; simpl; [done|]. rewrite (proj2 (Z.eqb_neq c 47)) by done. by rewrite IH.
Qed.

Lemma components_single e : Forall clean e -> components e = [e].
Proof. induction 1 as [|c e [_ [Hc _]] _ IH]; simpl; [done|]. rewrite (proj2 (Z.eqb_neq c 47)) by done. by rewrite IH. Qed.

Lemma components_join es : es <> [] -> Forall component_ok es -> components (join_path es) = es.
Proof.
  intros Hne H. induction H as [|e es He Hes IH]; [done|]. destruct He as (_ & Hc & _).
  destruct es as [|e' es]; [by apply components_single|]. cbn [join_path]. rewrite components_app by done.
  f_equal. by apply IH.
Qed.

Lemma join_path_snoc es e : es <> [] -> join_path (es ++ [e]) = join_path es ++ [47] ++ e.
Proof.
  induction es as [|e' es IH]; intros Hne; [done|]. destruct es as [|e'' es]; [done|].
  cbn [join_path app] in *. rewrite IH by done. by rewrite <- app_assoc.
Qed.

Lemma safe_path_clean p : safe_path p -> exists c r, p = c :: r /\ clean c.
Proof.
  intros (es & Hne & H & ->). destruct H as [|e es (He & Hc & _) _]; [done|].
  destruct Hc as [|c e Hc]; [done|]. destruct es; cbn [join_path app]; by eexists _, _.
Qed.

(** A safe path leads from any directory to a place below it. *)
Lemma resolve_safe cwd p : safe_path p -> exists es, es <> [] /\ resolve cwd p = cwd ++ es.
Proof.
  intros Hp. unfold resolve. destruct (safe_path_clean p Hp) as (c & r & Hp' & _ & Hc & _).
  assert (is_complete p = false) as -> by (rewrite Hp'; unfold is_complete; apply bool_decide_false; cbn; by intros [= ?]).
  destruct Hp as (es & Hne & H & ->). rewrite components_join by done. exists es. split; [done|].
  clear -H. revert cwd. induction H as [|e es (H1 & _ & H2 & H3) _ IH]; intros cwd; cbn [foldl]; [by rewrite app_nil_r|].
  unfold step_into at 2. rewrite !bool_decide_false by naive_solver. by rewrite IH, <- app_assoc.
Qed.

(** The elements of a list, one after the other. *)
Fixpoint sanitize_all (path : bytes) (elements : list bytes) : result bytes :=
  match elements with
  | [] => Ok path
  | e :: es => path ← sanitize_append_path_element path e; sanitize_all path es
  end.

Lemma sanitize_safe path element : bytes_ok element -> path = [] \/ safe_path path -> exists r,
  sanitize_append_path_element path element = Ok r /\ (r = path \/ safe_path r).
Proof.
  intros Hok Hp. destruct (sanitize_element path element Hok) as (r & Hr & Hcase). exists r. split; [done|].
  destruct Hcase as [->|(e & He & ->)]; [by left|]. right. case_bool_decide as E.
  - subst path. exists [e]. split; [done|]. split; [by apply Forall_singleton|done].
  - destruct Hp as [->|(es & Hne & Hes & ->)]; [done|]. exists (es ++ [e]).
    split; [by destruct es|]. split; [apply Forall_app; by rewrite Forall_singleton|]. by rewrite join_path_snoc.
Qed.

Lemma sanitize_all_safe elements : Forall bytes_ok elements -> forall path, path = [] \/ safe_path path ->
  exists r, sanitize_all path elements = Ok r /\ (r = path \/ safe_path r).
Proof.
  induction 1 as [|e es He _ IH]; intros path Hp; cbn [sanitize_all]; [by exists path; split; [|left]|].
  destruct (sanitize_safe path e He Hp) as (r & -> & Hr). cbn [mbind result_bind].
  destruct (IH r) as (r' & H & Hr'); [naive_solver|]. exists r'. split; [done|]. naive_solver.
Qed.

(** C13: Whatever elements a torrent names, the path made of them leads nowhere but below the
    directory it is taken from. *)
Theorem sanitized_stays_inside elements cwd : Forall bytes_ok elements -> exists path,
  sanitize_all [] elements = Ok path /\ (path = [] \/ exists es, es <> [] /\ resolve cwd path = cwd ++ es).
Proof.
  intros Hok. destruct (sanitize_all_safe elements Hok [] (or_introl eq_refl)) as (path & Hp & Hs).
  exists path. split; [done|]. destruct Hs as [->|Hs]; [by left|]. right. by apply resolve_safe.
Qed.

Lemma sanitized_stays_inside_witness : exists path,
  sanitize_all [] [bytes_of_string "torrent"; bytes_of_string ".."; bytes_of_string "/etc/passwd"] = Ok path /\
  (path = [] \/ exists es, es <> [] /\ resolve [bytes_of_string "home"] path = [bytes_of_string "home"] ++ es).
Proof. apply (sanitized_stays_inside _ [bytes_of_string "home"]). decide_by_computation. Defined.

(** ** Names that are kept *)

(** A component of ASCII characters that is not long is kept as it is. *)
Definition plain_name (e : bytes) : Prop := component_ok e /\ Forall (fun c => c < 128) e /\ (length e < 240)%nat.

Lemma parse_ascii c s : 0 <= c < 128 -> parse_utf8_codepoint (c :: s) = (c, 1%nat).
Proof.
  intros Hc. unfold parse_utf8_codepoint. cbn [nth].
  assert (trailingBytesForUTF8 c = 0%nat) as -> by (unfold trailingBytesForUTF8; repeat case_match; try done; lia).
  rewrite (proj2 (Nat.ltb_ge (length (c :: s)) 1)) by (simpl; lia). cbn [Nat.ltb Nat.leb].
  assert (isLegalUTF8 (c :: s) 1 = true) as ->.
  { unfold isLegalUTF8. cbn. rewrite take_0. cbn. rewrite (proj2 (Z.leb_gt 128 c)) by lia. cbn. apply Z.leb_le. lia. }
  cbn [negb firstn]. rewrite take_0. cbn [foldl nth Nat.sub offsetsFromUTF8].
  change (u32 (Z.shiftl 0 6)) with 0. rewrite Z.add_0_l, Z.sub_0_r, !(u32_small c) by lia.
  by rewrite (proj2 (Z.ltb_ge _ _)) by lia.
Qed.

Definition count_dots (e : bytes) : Z := foldl (fun n c => if c =? 46 then i8 (n + 1) else n) 0 e.

Lemma sanitize_loop_plain element p : Forall clean element -> Forall (fun c => c < 128) element -> (length element < 240)%nat ->
  forall l1 l2, element = l1 ++ l2 ->
  sanitize_loop (length l2) element (length l1) (mk_sanitizing (p ++ l1) (length l1) (count_dots l1) false) =
    Ok (mk_sanitizing (p ++ element) (length element) (count_dots element) false).
Proof.
  intros Hc Ha Hl l1 l2. revert l1. induction l2 as [|c l2 IH]; intros l1 He; cbn [sanitize_loop length].
  - rewrite app_nil_r in He. subst l1. by rewrite Nat.ltb_irrefl.
  - rewrite (proj2 (Nat.ltb_lt _ _)) by (rewrite He, length_app; simpl; lia). unfold sanitize_turn.
    rewrite He at 1. rewrite drop_app_length. rewrite He in Hc, Ha. apply Forall_app in Hc as [_ Hc%Forall_inv].
    apply Forall_app in Ha as [_ Ha%Forall_inv]. destruct Hc as (Hlow & H47 & H92). rewrite parse_ascii by lia.
    assert (filter_path_character c = false) as ->.
    { unfold filter_path_character. rewrite bool_decide_false by (simpl; lia).
      rewrite (proj2 (Z.ltb_ge 127 c)), !(proj2 (Z.eqb_neq c _)) by lia. done. }
    unfold valid_path_character. rewrite (proj2 (Z.leb_le 0 c)), !(proj2 (Z.ltb_ge c _)) by lia. cbn [andb orb negb sn_path sn_added sn_num_dots].
    rewrite (proj2 (Nat.leb_gt 240 _)) by (rewrite He, length_app in Hl; simpl in Hl; lia). cbn [andb].
    rewrite He at 2. rewrite drop_app_length. cbn [firstn]. rewrite take_0, <- app_assoc.
    specialize (IH (l1 ++ [c])). rewrite <- app_assoc in IH. specialize (IH He).
    rewrite length_app in IH. simpl (length [c]) in IH. unfold count_dots at 1 in IH. rewrite foldl_snoc in IH. exact IH.
Qed.

Lemma sanitize_plain path e : plain_name e ->
  sanitize_append_path_element path e = Ok (path ++ (if bool_decide (path = []) then [] else [47]) ++ e).
Proof.
  intros ((Hne & Hc & Hd & Hdd) & Ha & Hl). unfold sanitize_append_path_element. rewrite bool_decide_false by done.
  set (sep := if bool_decide (path = []) then [] else [47]).
  assert ((match path with [] => (path, 0%nat) | _ => (path ++ [47], 1%nat) end) = (path ++ sep, length sep)) as ->
    by (unfold sep; destruct path; [by rewrite bool_decide_true|by rewrite bool_decide_false]).
  pose proof (sanitize_loop_plain e (path ++ sep) Hc Ha Hl [] e eq_refl) as Hloop. rewrite app_nil_r in Hloop.
  change (count_dots []) with 0 in Hloop. simpl (length []) in Hloop. rewrite Hloop. clear Hloop.
  destruct e as [|c e]; [done|]. cbn [mbind result_bind sn_path sn_added sn_num_dots].
  assert ((Z.of_nat (length (c :: e)) =? count_dots (c :: e)) && (length (c :: e) <=? 2)%nat = false) as ->.
  { destruct e as [|c2 [|c3 e]]; [| |by rewrite andb_false_r].
    - unfold count_dots. cbn. destruct (Z.eqb_spec c 46); [by subst|done].
    - unfold count_dots. cbn. destruct (Z.eqb_spec c 46), (Z.eqb_spec c2 46); subst; done. }
  rewrite <- app_assoc. destruct (path ++ sep ++ c :: e) eqn:E; [by destruct path, sep|done].
Qed.
