(* ===== verification/FileStorage.v ===== *)
(** * The list of files of a torrent

    [extern/libtorrent/src/file_storage.cpp]: how the files a torrent names are laid out one after the other, how
    their paths are stored (the directories once each, without the torrent's name) and put
    together again.  The targets of symbolic links are kept; Symlinks.v validates them. *)

From S2P Require Import Prelude Paths Storage.

(** ** Data *)

(** [extern/libtorrent/include/libtorrent/file_storage.hpp:494-505] file_storage::flag_pad_file *)
Definition flag_pad_file : Z := 1.
Definition flag_hidden : Z := 2.
Definition flag_executable : Z := 4.
Definition flag_symlink : Z := 8.

Definition has_flag (flags flag : Z) : bool := negb (Z.land flags flag =? 0).

(** [internal_file_entry::name_is_owned] and [not_a_symlink] *)
Definition name_is_owned : Z := 2 ^ 12 - 1.
Definition not_a_symlink : Z := 2 ^ 15 - 1.

(** [extern/libtorrent/include/libtorrent/file_storage.hpp:119-184] internal_file_entry
    Bit fields; [offset] and [size] have 48 bits. *)
Record internal_file_entry := mk_ife {
  if_offset : Z;
  if_symlink_index : Z;
  if_no_root_dir : bool;
  if_size : Z;
  if_name_len : Z;
  if_pad_file : bool;
  if_hidden_attribute : bool;
  if_executable_attribute : bool;
  if_symlink_attribute : bool;
  if_name : bytes;
  if_path_index : Z;
}.

(** [extern/libtorrent/src/file_storage.cpp:198-212] internal_file_entry::internal_file_entry *)
Definition ife_default : internal_file_entry :=
  mk_ife 0 not_a_symlink false 0 name_is_owned false false false false [] (-1).

(** [extern/libtorrent/include/libtorrent/file_storage.hpp:575-623] file_storage *)
Record file_storage := mk_fs {
  m_piece_length : Z;
  m_num_pieces : Z;
  m_files : list internal_file_entry;
  m_file_hashes : list (option bytes);
  m_symlinks : list bytes;
  m_mtime : list Z;
  m_paths : list bytes;
  m_name : bytes;
  m_total_size : Z;
}.

(** [extern/libtorrent/src/file_storage.cpp:72-76] file_storage::file_storage *)
Definition fs_empty : file_storage := mk_fs 0 0 [] [] [] [] [] [] 0.

(** [extern/libtorrent/include/libtorrent/file_storage.hpp:419-419] file_storage::set_piece_length *)
Definition set_piece_length (l : Z) (fs : file_storage) : file_storage :=
  mk_fs l (m_num_pieces fs) (m_files fs) (m_file_hashes fs) (m_symlinks fs) (m_mtime fs) (m_paths fs) (m_name fs) (m_total_size fs).

(** [extern/libtorrent/include/libtorrent/file_storage.hpp:399-399] file_storage::set_num_pieces *)
Definition set_num_pieces (n : Z) (fs : file_storage) : file_storage :=
  mk_fs (m_piece_length fs) n (m_files fs) (m_file_hashes fs) (m_symlinks fs) (m_mtime fs) (m_paths fs) (m_name fs) (m_total_size fs).

Definition set_name_and_paths (name : bytes) (paths : list bytes) (fs : file_storage) : file_storage :=
  mk_fs (m_piece_length fs) (m_num_pieces fs) (m_files fs) (m_file_hashes fs) (m_symlinks fs) (m_mtime fs) paths name (m_total_size fs).

(** ** Names *)

(** [extern/libtorrent/src/file_storage.cpp:296-319] internal_file_entry::set_name
    A borrowed name that is too long loses its front, not its end. *)
Definition set_name (n : bytes) (borrow_string : bool) (e : internal_file_entry) : internal_file_entry :=
  let '(name, len) :=
    match n with
    | [] => ([], if_name_len e)
    | _ =>
        if borrow_string then
          let n := if name_is_owned <=? Z.of_nat (length n) then drop (Z.to_nat (name_is_owned - 1)) n else n in
          (n, Z.of_nat (length n) mod 2 ^ 12)
        else (n, name_is_owned)
    end in
  mk_ife (if_offset e) (if_symlink_index e) (if_no_root_dir e) (if_size e) len (if_pad_file e)
    (if_hidden_attribute e) (if_executable_attribute e) (if_symlink_attribute e) name (if_path_index e).

(** The characters of a terminated string. *)
Fixpoint c_str (s : bytes) : bytes :=
  match s with [] => [] | c :: s' => if c =? 0 then [] else c :: c_str s' end.

(** [extern/libtorrent/src/file_storage.cpp:321-325] internal_file_entry::filename *)
Definition filename (e : internal_file_entry) : bytes :=
  if negb (if_name_len e =? name_is_owned) then take (Z.to_nat (if_name_len e)) (if_name e) else c_str (if_name e).

Definition set_path_index (i : Z) (no_root : bool) (e : internal_file_entry) : internal_file_entry :=
  mk_ife (if_offset e) (if_symlink_index e) no_root (if_size e) (if_name_len e) (if_pad_file e)
    (if_hidden_attribute e) (if_executable_attribute e) (if_symlink_attribute e) (if_name e) i.

(** [extern/libtorrent/src/file_storage.cpp:173-173] file_storage::get_or_add_path
    The search runs from the back. *)
Fixpoint rfind_path (path : bytes) (paths : list bytes) : option nat :=
  match paths with
  | [] => None
  | p :: paths' =>
      match rfind_path path paths' with
      | Some i => Some (S i)
      | None => if bool_decide (p = path) then Some 0%nat else None
      end
  end.

(** [extern/libtorrent/src/file_storage.cpp:170-188] file_storage::get_or_add_path
    The index and the paths. *)
Definition get_or_add_path (path : bytes) (paths : list bytes) : Z * list bytes :=
  match rfind_path path paths with
  | None => (Z.of_nat (length paths), paths ++ [path])
  | Some i => (Z.of_nat i, paths)
  end.

(** [while (!branch_path.empty() && branch_path.front() == '/') remove_prefix(1)] *)
Fixpoint strip_separators (p : bytes) : bytes :=
  match p with [] => [] | c :: p' => if c =? 47 then strip_separators p' else p end.

(** [extern/libtorrent/src/file_storage.cpp:121-168] file_storage::update_path_index
    The entry and the paths; [name] is [m_name]. *)
Definition update_path_index (e : internal_file_entry) (path : bytes) (set_name_ : bool) (name : bytes) (paths : list bytes) :
    internal_file_entry * list bytes :=
  if is_complete path then
    let e := set_name path false e in (set_path_index (-2) (if_no_root_dir e) e, paths)
  else
    let '(branch_path, leaf) := rsplit_path path in
    match branch_path with
    | [] => let e := if set_name_ then set_name leaf false e else e in (set_path_index (-1) (if_no_root_dir e) e, paths)
    | _ =>
        let '(branch_path, no_root) :=
          if bool_decide ((lsplit_path branch_path).1 = name)
          then (strip_separators (lsplit_path branch_path).2, false) else (branch_path, true) in
        let '(i, paths) := get_or_add_path branch_path paths in
        let e := set_path_index i no_root e in
        (if set_name_ then set_name leaf false e else e, paths)
    end.

(** ** Adding a file *)

(** [if (l.size() < n) l.resize(n); l[n - 1] = v;] *)
Definition set_last {A} (d : A) (n : nat) (v : A) (l : list A) : list A :=
  let l := l ++ replicate (n - length l) d in <[(n - 1)%nat := v]> l.

(** [extern/libtorrent/src/file_storage.cpp:583-649] file_storage::add_file_borrow
    [m_total_size += e.size] adds as unsigned integers: it wraps. *)
Definition add_file_borrow (filename path : bytes) (file_size file_flags : Z) (filehash : option bytes) (mtime : Z)
    (symlink_path : bytes) (fs : file_storage) : file_storage :=
  let name :=
    if negb (has_parent_path path) then path
    else match m_files fs with [] => (lsplit_path path).1 | _ => m_name fs end in
  let n := S (length (m_files fs)) in
  let '(e, paths) := update_path_index ife_default path (bool_decide (filename = [])) name (m_paths fs) in
  let e := if bool_decide (filename = []) then e else set_name filename true e in
  let size := file_size mod 2 ^ 48 in
  let file_hashes := match filehash with Some h => set_last None n (Some h) (m_file_hashes fs) | None => m_file_hashes fs end in
  let is_link := negb (bool_decide (symlink_path = [])) && (Z.of_nat (length (m_symlinks fs)) <? not_a_symlink - 1) in
  let mtimes := if mtime =? 0 then m_mtime fs else set_last 0 n mtime (m_mtime fs) in
  let e := mk_ife (m_total_size fs mod 2 ^ 48)
    (if is_link then Z.of_nat (length (m_symlinks fs)) else if_symlink_index e) (if_no_root_dir e) size (if_name_len e)
    (has_flag file_flags flag_pad_file) (has_flag file_flags flag_hidden) (has_flag file_flags flag_executable)
    (if is_link then has_flag file_flags flag_symlink else false) (if_name e) (if_path_index e) in
  mk_fs (m_piece_length fs) (m_num_pieces fs) (m_files fs ++ [e]) file_hashes
    (if is_link then m_symlinks fs ++ [symlink_path] else m_symlinks fs) mtimes paths name (i64 (m_total_size fs + size)).

(** [extern/libtorrent/src/file_storage.cpp:576-581] file_storage::add_file *)
Definition add_file (path : bytes) (file_size file_flags mtime : Z) (symlink_path : bytes) (fs : file_storage) : file_storage :=
  add_file_borrow [] path file_size file_flags None mtime symlink_path fs.

(** ** Reading it *)

(** [extern/libtorrent/src/file_storage.cpp:791-832] file_storage::file_path
    With an empty [save_path]. *)
Definition file_path (fs : file_storage) (fe : internal_file_entry) : bytes :=
  if if_path_index fe =? -2 then filename fe
  else if if_path_index fe =? -1 then append_path [] (filename fe)
  else
    let p := nth (Z.to_nat (if_path_index fe)) (m_paths fs) [] in
    if if_no_root_dir fe then append_path (append_path [] p) (filename fe)
    else append_path (append_path (append_path [] (m_name fs)) p) (filename fe).

(** [extern/libtorrent/src/file_storage.cpp:834-852] file_storage::internal_file_path *)
Definition internal_file_path (fs : file_storage) (fe : internal_file_entry) : bytes :=
  if 0 <=? if_path_index fe then
    append_path (append_path [] (nth (Z.to_nat (if_path_index fe)) (m_paths fs) [])) (filename fe)
  else filename fe.

(** What the client reads of a file. *)
Definition file_entry_of (fs : file_storage) (fe : internal_file_entry) : file_entry :=
  mk_file_entry (file_path fs fe) (filename fe) (if_offset fe) (if_size fe).

(** ** Splitting and joining proper components *)

Lemma clean_not_sep c : clean c -> c <> 47.
Proof. by intros (_ & ? & _). Qed.

Lemma component_last e : component_ok e -> exists r c, e = r ++ [c] /\ clean c.
Proof.
  intros (Hne & Hc & _). destruct (exists_last Hne) as (r & c & ->). exists r, c. split; [done|].
  by apply Forall_app in Hc as [_ Hc%Forall_inv].
Qed.

Lemma join_last es e : component_ok e -> exists r c, join_path (es ++ [e]) = r ++ [c] /\ clean c.
Proof.
  intros He. destruct (component_last e He) as (r & c & -> & Hc). destruct es as [|e' es]; [by exists r, c|].
  rewrite join_path_snoc by done. exists (join_path (e' :: es) ++ [47] ++ r), c. by rewrite <- !app_assoc.
Qed.

Lemma join_nonempty es : es <> [] -> Forall component_ok es -> join_path es <> [].
Proof. intros Hne H E. destruct (safe_path_clean (join_path es)) as (c & r & Hc & _); [by exists es|]. by rewrite E in Hc. Qed.

Lemma find_last_of_clean e : Forall clean e -> find_last_of 47 e = None.
Proof. induction 1 as [|c e Hc _ IH]; simpl; [done|]. rewrite IH. by rewrite (proj2 (Z.eqb_neq c 47)) by by apply clean_not_sep. Qed.

Lemma find_last_of_sep x e : Forall clean e -> find_last_of 47 (x ++ 47 :: e) = Some (length x).
Proof. intros He. induction x as [|c x IH]; simpl; [by rewrite find_last_of_clean|]. by rewrite IH. Qed.

Lemma find_first_of_sep e p : Forall clean e -> find_first_of 47 (e ++ 47 :: p) = Some (length e).
Proof. induction 1 as [|c e Hc _ IH]; simpl; [done|]. rewrite (proj2 (Z.eqb_neq c 47)) by by apply clean_not_sep. by rewrite IH. Qed.

Lemma find_first_of_clean e : Forall clean e -> find_first_of 47 e = None.
Proof. induction 1 as [|c e Hc _ IH]; simpl; [done|]. rewrite (proj2 (Z.eqb_neq c 47)) by by apply clean_not_sep. by rewrite IH. Qed.

Lemma last_clean r c : clean c -> last (r ++ [c]) <> Some 47.
Proof. intros Hc. rewrite last_snoc. intros [= ->]. by apply clean_not_sep in Hc. Qed.

Lemma rsplit_join es e : es <> [] -> component_ok e -> rsplit_path (join_path (es ++ [e])) = (join_path es, e).
Proof.
  intros Hne He. pose proof He as (He0 & Hc & _). destruct (join_last es e He) as (r & c & Hj & Hcl).
  unfold rsplit_path. rewrite Hj. destruct (r ++ [c]) as [|z l] eqn:E; [by destruct r|]. cbv iota. rewrite <- E.
  rewrite bool_decide_false by (by apply last_clean). rewrite E, <- Hj, join_path_snoc by done. cbn [app].
  rewrite find_last_of_sep by done. rewrite take_app_length. f_equal.
  change (join_path es ++ 47 :: e) with (join_path es ++ [47] ++ e). rewrite app_assoc.
  rewrite <- (drop_app_length (join_path es ++ [47]) e) at 2. f_equal. rewrite length_app. simpl. lia.
Qed.

Lemma rsplit_single e : component_ok e -> rsplit_path e = ([], e).
Proof.
  intros He. pose proof He as (He0 & Hc & _). destruct (component_last e He) as (r & c & -> & Hcl).
  unfold rsplit_path. destruct (r ++ [c]) as [|z l] eqn:E; [done|]. cbv iota. rewrite <- E.
  rewrite bool_decide_false by (by apply last_clean). rewrite E. by rewrite find_last_of_clean.
Qed.

Lemma lsplit_join e es : component_ok e -> lsplit_path (join_path (e :: es)) = (e, join_path es).
Proof.
  intros (He0 & Hc & _). assert (join_path (e :: es) = e ++ match es with [] => [] | _ => 47 :: join_path es end) as ->
    by (destruct es; [by rewrite app_nil_r|done]).
  destruct e as [|c e]; [done|]. unfold lsplit_path. cbn [app].
  rewrite (proj2 (Z.eqb_neq c 47)) by (apply clean_not_sep; by apply Forall_inv in Hc).
  change (c :: e ++ ?x) with ((c :: e) ++ x). destruct es as [|e' es].
  - rewrite app_nil_r, find_first_of_clean by done. done.
  - rewrite find_first_of_sep by done. rewrite take_app_length. f_equal.
    change ((c :: e) ++ 47 :: join_path (e' :: es)) with ((c :: e) ++ [47] ++ join_path (e' :: es)). rewrite app_assoc.
    rewrite <- (drop_app_length ((c :: e) ++ [47]) (join_path (e' :: es))) at 2. f_equal. rewrite length_app. simpl. lia.
Qed.

Lemma has_parent_join es e : component_ok e -> has_parent_path (join_path (es ++ [e])) = negb (bool_decide (es = [])).
Proof.
  intros He. destruct (join_last es e He) as (r & c & Hj & Hcl). pose proof He as (_ & Hc & _).
  assert (is_separator c = false) as Hs.
  { destruct Hcl as (_ & H1 & H2). unfold is_separator. by rewrite !(proj2 (Z.eqb_neq c _)) by done. }
  unfold has_parent_path. rewrite Hj, last_snoc, Hs.
  assert (is_root_path (r ++ [c]) = false) as ->.
  { unfold is_root_path. apply bool_decide_false. intros E. apply (last_clean r c Hcl). by rewrite E. }
  rewrite <- Hj. destruct es as [|e' es].
  - rewrite bool_decide_true by done. cbn [app join_path negb]. clear Hj.
    apply not_true_is_false. rewrite existsb_exists. intros (x & Hx & Hsep).
    rewrite Forall_forall in Hc. apply list_elem_of_In, Hc in Hx as (_ & H1 & H2).
    unfold is_separator in Hsep. rewrite !(proj2 (Z.eqb_neq x _)) in Hsep by done. done.
  - rewrite bool_decide_false by done. rewrite join_path_snoc by done. rewrite existsb_app. cbn [app existsb]. by rewrite orb_true_r.
Qed.

Lemma join_not_dot es : Forall component_ok es -> join_path es <> [46].
Proof.
  intros H E. destruct H as [|e es (He & Hc & Hd & _) _]; [done|]. destruct es as [|e' es]; [done|].
  cbn [join_path] in E. destruct e as [|c e]; [done|]. injection E as -> E. by destruct e.
Qed.

Lemma append_join es es' : Forall component_ok es -> Forall component_ok es' ->
  append_path (join_path es) (join_path es') = join_path (es ++ es').
Proof.
  intros H H'. unfold append_path. destruct es as [|e0 es0] eqn:Ees; [done|]. rewrite <- Ees in *.
  assert (es <> []) as Hne by (by rewrite Ees). clear Ees.
  rewrite (bool_decide_false (join_path es = [])), (bool_decide_false (join_path es = [46])) by
    (first [by apply join_not_dot | by apply join_nonempty]). cbn [orb].
  destruct es' as [|e' es']; [by rewrite (app_nil_r es), (bool_decide_true (join_path [] = []) eq_refl)|].
  rewrite bool_decide_false by (by apply join_nonempty).
  destruct (exists_last Hne) as (es1 & e1 & ->). apply Forall_app in H as [H1 He1%Forall_inv].
  destruct (join_last es1 e1 He1) as (r & c & Hj & Hcl). rewrite bool_decide_false by (rewrite Hj; by apply last_clean).
  clear Hj. assert (es1 ++ [e1] <> []) as Hne1 by (by destruct es1). revert Hne1. generalize (es1 ++ [e1]) as l.
  clear. intros l Hne. induction l as [|e l IH]; [done|]. destruct l as [|e2 l]; [by rewrite <- app_assoc|].
  cbn [join_path app] in *. rewrite <- (IH ltac:(done)). by rewrite <- !app_assoc.
Qed.

(** ** Adding a file and reading its path *)

Lemma c_str_clean e : Forall clean e -> c_str e = e.
Proof. induction 1 as [|c e [Hc _] _ IH]; simpl; [done|]. rewrite (proj2 (Z.eqb_neq c 0)) by lia. by rewrite IH. Qed.

(** A name that is copied, or borrowed and short, is read back. *)
Lemma filename_set_name n borrow e : component_ok n -> Z.of_nat (length n) < name_is_owned ->
  filename (set_name n borrow e) = n.
Proof.
  intros (Hne & Hc & _) Hl. unfold name_is_owned in *. destruct n as [|c n]; [done|]. unfold set_name, filename.
  destruct borrow; cbn [if_name if_name_len].
  - unfold name_is_owned. rewrite (proj2 (Z.leb_gt _ _)) by lia. rewrite Z.mod_small by lia.
    rewrite (proj2 (Z.eqb_neq _ _)) by lia. cbn [negb]. rewrite Nat2Z.id. by rewrite take_ge.
  - rewrite Z.eqb_refl. cbn [negb]. by apply c_str_clean.
Qed.

Lemma filename_set_owned n e : Forall clean n -> n <> [] -> filename (set_name n false e) = n.
Proof.
  intros Hc Hne. destruct n as [|c n]; [done|]. unfold set_name, filename. cbn [if_name if_name_len].
  rewrite Z.eqb_refl. cbn [negb]. by apply c_str_clean.
Qed.

Lemma rfind_path_some path paths i : rfind_path path paths = Some i -> (i < length paths)%nat /\ nth i paths [] = path.
Proof.
  revert i. induction paths as [|p paths IH]; intros i; cbn [rfind_path]; [done|].
  destruct (rfind_path path paths) as [j|]; [intros [= <-]; destruct (IH j eq_refl); simpl; split; [lia|done]|].
  case_bool_decide; [|done]. intros [= <-]. simpl. split; [lia|done].
Qed.

Lemma get_or_add_path_spec path paths : exists i paths', get_or_add_path path paths = (Z.of_nat i, paths') /\
  paths `prefix_of` paths' /\ (i < length paths')%nat /\ nth i paths' [] = path.
Proof.
  unfold get_or_add_path. destruct (rfind_path path paths) as [i|] eqn:E.
  - apply rfind_path_some in E as [Hi Hn]. by exists i, paths.
  - exists (length paths), (paths ++ [path]). split; [done|]. split; [by eexists|].
    rewrite length_app. simpl. split; [lia|]. rewrite app_nth2 by lia. by rewrite Nat.sub_diag.
Qed.

(** The entry of a safe path, in a storage whose name is [name]. *)
Lemma update_path_index_spec es leaf set_name_ name paths : Forall component_ok es -> component_ok leaf -> exists e paths',
  update_path_index ife_default (join_path (es ++ [leaf])) set_name_ name paths = (e, paths') /\
  paths `prefix_of` paths' /\
  e = (let e0 := set_path_index (if_path_index e) (if_no_root_dir e) ife_default in
       if set_name_ then set_name leaf false e0 else e0) /\
  match es with
  | [] => if_path_index e = -1
  | e1 :: es1 =>
      exists i, if_path_index e = Z.of_nat i /\ (i < length paths')%nat /\
        nth i paths' [] = join_path (if if_no_root_dir e then es else es1) /\ (if_no_root_dir e = false -> e1 = name)
  end.
Proof.
  intros Hes Hl. pose proof Hl as (Hl0 & Hlc & _). unfold update_path_index.
  assert (is_complete (join_path (es ++ [leaf])) = false) as ->.
  { destruct (safe_path_clean (join_path (es ++ [leaf]))) as (c & r & -> & Hc).
    - exists (es ++ [leaf]). split; [by destruct es|]. split; [|done]. apply Forall_app. by rewrite Forall_singleton.
    - unfold is_complete. apply bool_decide_false. cbn. intros [= ->]. by apply clean_not_sep in Hc. }
  destruct es as [|e1 es1].
  - cbn [app join_path]. rewrite rsplit_single by done. do 2 eexists. split; [done|]. split; [done|].
    destruct set_name_; [|done]. by destruct leaf.
  - rewrite rsplit_join by done.
    destruct (join_path (e1 :: es1)) as [|c0 b0] eqn:Ej; [by apply join_nonempty in Ej|]. rewrite <- Ej. clear Ej c0 b0.
    apply Forall_cons in Hes as Hes'. destruct Hes' as [He1 Hes1]. rewrite lsplit_join by done. cbn [fst snd].
    assert (strip_separators (join_path es1) = join_path es1) as Hstrip.
    { destruct es1 as [|e2 es2]; [done|].
      destruct (safe_path_clean (join_path (e2 :: es2))) as (c & r & -> & Hc); [by exists (e2 :: es2)|].
      cbn. by rewrite (proj2 (Z.eqb_neq c 47)) by by apply clean_not_sep. }
    rewrite Hstrip. case_bool_decide as Hname.
    + destruct (get_or_add_path_spec (join_path es1) paths) as (i & paths' & -> & Hpre & Hi & Hn).
      do 2 eexists. split; [done|]. split; [done|]. destruct set_name_, leaf; try done; (split; [done|]); by exists i.
    + destruct (get_or_add_path_spec (join_path (e1 :: es1)) paths) as (i & paths' & -> & Hpre & Hi & Hn).
      do 2 eexists. split; [done|]. split; [done|]. destruct set_name_, leaf; try done; (split; [done|]); by exists i.
Qed.

Lemma set_name_index n borrow e :
  if_path_index (set_name n borrow e) = if_path_index e /\ if_no_root_dir (set_name n borrow e) = if_no_root_dir e.
Proof. unfold set_name. destruct n as [|c n]; [done|]. by destruct borrow. Qed.

(** What is added: the components of the path, of which [filename] repeats the last or is
    empty, and the size. *)
Record addition := mk_addition {
  ad_dirs : list bytes; ad_leaf : bytes; ad_filename : bytes; ad_size : Z; ad_flags : Z;
  ad_hash : option bytes; ad_mtime : Z; ad_symlink : bytes;
}.

Definition ad_path (a : addition) : bytes := join_path (ad_dirs a ++ [ad_leaf a]).

Definition addition_ok (a : addition) : Prop :=
  Forall component_ok (ad_dirs a) /\ component_ok (ad_leaf a) /\ 0 <= ad_size a < 2 ^ 48 /\
  (ad_filename a = [] \/ ad_filename a = ad_leaf a /\ Z.of_nat (length (ad_leaf a)) < name_is_owned).

Definition add (a : addition) (fs : file_storage) : file_storage :=
  add_file_borrow (ad_filename a) (ad_path a) (ad_size a) (ad_flags a) (ad_hash a) (ad_mtime a) (ad_symlink a) fs.

(** The entries refer to directories that are there. *)
Definition indices_ok (fs : file_storage) : Prop :=
  Forall (fun e => -1 <= if_path_index e < Z.of_nat (length (m_paths fs))) (m_files fs).

(** An entry of the storage reads the same when directories are added. *)
Lemma file_entry_of_more fs fs' e : m_name fs' = m_name fs -> m_paths fs `prefix_of` m_paths fs' ->
  -1 <= if_path_index e < Z.of_nat (length (m_paths fs)) -> file_entry_of fs' e = file_entry_of fs e.
Proof.
  intros Hn [k Hk] Hi. unfold file_entry_of, file_path. rewrite Hn, Hk.
  destruct (Z.eqb_spec (if_path_index e) (-2)); [done|]. destruct (Z.eqb_spec (if_path_index e) (-1)); [done|].
  by rewrite (app_nth1 _ _ []) by lia.
Qed.

Lemma file_entry_of_fields fs a b e : if_path_index a = if_path_index e -> if_no_root_dir a = if_no_root_dir e ->
  if_name a = if_name e -> if_name_len a = if_name_len e -> if_offset a = if_offset b -> if_size a = if_size b ->
  file_entry_of fs a = mk_file_entry (file_path fs e) (filename e) (if_offset b) (if_size b).
Proof. unfold file_entry_of, file_path, filename. by intros -> -> -> -> -> ->. Qed.

(** The path of an entry that has been given its index and its name. *)
Lemma file_path_of fs e dirs leaf : Forall component_ok dirs -> component_ok leaf -> filename e = leaf ->
  match dirs with
  | [] => if_path_index e = -1
  | d :: ds =>
      exists i, if_path_index e = Z.of_nat i /\ (i < length (m_paths fs))%nat /\
        nth i (m_paths fs) [] = join_path (if if_no_root_dir e then dirs else ds) /\ (if_no_root_dir e = false -> d = m_name fs)
  end -> file_path fs e = join_path (dirs ++ [leaf]).
Proof.
  intros Hd Hl Hf Hi. unfold file_path. rewrite Hf. destruct dirs as [|d ds]; [by rewrite Hi|].
  destruct Hi as (i & -> & Hi & Hn & Hname). rewrite !(proj2 (Z.eqb_neq _ _)) by lia. rewrite Nat2Z.id, Hn.
  assert (Forall component_ok [leaf]) as Hl' by (by apply Forall_singleton).
  pose proof Hd as Hd'. apply Forall_cons in Hd' as [Hd1 Hds].
  destruct (if_no_root_dir e).
  - change leaf with (join_path [leaf]) at 1. change (@nil Z) with (join_path []).
    by rewrite !append_join by (done || by constructor).
  - rewrite <- Hname by done. assert (Forall component_ok [d]) as Hd1' by (by apply Forall_singleton).
    change leaf with (join_path [leaf]) at 1. change d with (join_path [d]) at 1. change (@nil Z) with (join_path []).
    rewrite (append_join [] [d]) by (done || by constructor). cbn [app]. rewrite (append_join [d] ds) by done.
    by rewrite append_join by (done || by constructor).
Qed.

Lemma add_spec a fs : addition_ok a -> indices_ok fs -> m_files fs = [] \/ ad_dirs a <> [] -> exists e,
  m_files (add a fs) = m_files fs ++ [e] /\
  file_entry_of (add a fs) e = mk_file_entry (ad_path a) (ad_leaf a) (m_total_size fs mod 2 ^ 48) (ad_size a) /\
  m_total_size (add a fs) = i64 (m_total_size fs + ad_size a) /\ indices_ok (add a fs) /\
  map (file_entry_of (add a fs)) (m_files fs) = map (file_entry_of fs) (m_files fs).
Proof.
  intros (Hdirs & Hleaf & Hsize & Hfn) Hix Hsingle. unfold add, add_file_borrow, ad_path.
  rewrite has_parent_join by done. rewrite negb_involutive.
  set (name := if bool_decide (ad_dirs a = []) then _ else _).
  destruct (update_path_index_spec (ad_dirs a) (ad_leaf a) (bool_decide (ad_filename a = [])) name (m_paths fs) Hdirs Hleaf)
    as (e0 & paths' & -> & Hpre & He0 & Hidx). cbn [m_files]. eexists. split; [reflexivity|].
  set (e1 := if bool_decide (ad_filename a = []) then e0 else set_name (ad_filename a) true e0).
  assert (if_path_index e1 = if_path_index e0 /\ if_no_root_dir e1 = if_no_root_dir e0) as [Hi1 Hr1].
  { unfold e1. destruct (bool_decide (ad_filename a = [])); [done|]. apply set_name_index. }
  assert (filename e1 = ad_leaf a) as Hname1.
  { unfold e1. destruct Hfn as [E|[E Hlen]].
    - rewrite bool_decide_true by done. rewrite bool_decide_true in He0 by done. rewrite He0. cbv zeta.
      destruct Hleaf as (? & ? & _). by apply filename_set_owned.
    - rewrite bool_decide_false by (rewrite E; by destruct Hleaf). rewrite E. by apply filename_set_name. }
  set (fs' := mk_fs _ _ _ _ _ _ paths' name _).
  assert (Hlt : -1 <= if_path_index e0 < Z.of_nat (length paths')).
  { destruct (ad_dirs a); [rewrite Hidx; lia|]. destruct Hidx as (i & -> & Hi & _). lia. }
  split; [|split; [by cbn [m_total_size fs']; rewrite (Z.mod_small (ad_size a)) by lia|split]].
  - etrans; [apply (file_entry_of_fields _ _ (mk_ife (m_total_size fs mod 2 ^ 48) 0 false (ad_size a) 0 false false false false [] 0) e1); try done|].
    + cbn [if_size]. by rewrite Z.mod_small.
    + rewrite Hname1. f_equal. apply file_path_of; [done|done|done|].
      rewrite Hi1, Hr1. by destruct (ad_dirs a).
  - unfold indices_ok. cbn [m_files m_paths fs']. apply Forall_app. split.
    + eapply Forall_impl; [exact Hix|]. cbn. intros e. destruct Hpre as [k ->]. rewrite length_app. lia.
    + apply Forall_singleton. cbn [if_path_index]. fold e1. by rewrite Hi1.
  - destruct (m_files fs) as [|e2 l2] eqn:Efs; [done|]. destruct Hsingle as [|Hne]; [done|].
    apply map_ext_in. intros e He. apply file_entry_of_more.
    + cbn [fs' m_name]. unfold name. by rewrite bool_decide_false.
    + exact Hpre.
    + unfold indices_ok in Hix. rewrite Efs, Forall_forall in Hix. apply Hix. by apply list_elem_of_In.
Qed.

(** ** The layout of all files *)

(** What any file leaves behind, whatever its names: the fields the layout depends on. *)
Lemma added_entry filename path file_size file_flags filehash mtime symlink_path fs :
  let fs' := add_file_borrow filename path file_size file_flags filehash mtime symlink_path fs in
  exists e, m_files fs' = m_files fs ++ [e] /\ if_offset e = m_total_size fs mod 2 ^ 48 /\
    if_size e = file_size mod 2 ^ 48 /\ m_total_size fs' = i64 (m_total_size fs + file_size mod 2 ^ 48) /\
    m_piece_length fs' = m_piece_length fs /\ m_num_pieces fs' = m_num_pieces fs.
Proof.
  cbv zeta. unfold add_file_borrow. destruct (update_path_index _ _ _ _ _) as [e paths]. eexists. by split_and!.
Qed.

Definition add_all_files (l : list addition) (fs : file_storage) : file_storage := foldl (fun fs a => add a fs) fs l.

Definition sum_sizes (l : list addition) : Z := foldr (fun a n => ad_size a + n) 0 l.

Definition entries (fs : file_storage) : list file_entry := map (file_entry_of fs) (m_files fs).

Lemma sum_sizes_app l1 l2 : sum_sizes (l1 ++ l2) = sum_sizes l1 + sum_sizes l2.
Proof. unfold sum_sizes. induction l1 as [|a l1 IH]; simpl in *; [done|]. rewrite IH. lia. Qed.

Lemma sum_sizes_nonneg l : Forall addition_ok l -> 0 <= sum_sizes l.
Proof. unfold sum_sizes. induction 1 as [|a l (_ & _ & H & _) _ IH]; simpl in *; [done|]. lia. Qed.

Lemma add_keeps_piece_length a fs : m_piece_length (add a fs) = m_piece_length fs.
Proof. unfold add, add_file_borrow. by destruct (update_path_index _ _ _ _ _). Qed.

Lemma add_all_layout pl l : Forall addition_ok l -> Forall (fun a => ad_dirs a <> []) l \/ length l = 1%nat ->
  sum_sizes l < 2 ^ 48 -> let fs := add_all_files l (set_piece_length pl fs_empty) in
  indices_ok fs /\ m_total_size fs = sum_sizes l /\ m_piece_length fs = pl /\
  map (fun f => (fe_path f, fe_name f, fe_size f)) (entries fs) = map (fun a => (ad_path a, ad_leaf a, ad_size a)) l /\
  files_ok 0 (entries fs) (sum_sizes l).
Proof.
  induction l as [|a l IH] using rev_ind; intros Hok Hd Hs; [by split_and!; [constructor|..]|].
  cbv zeta. unfold add_all_files. rewrite foldl_snoc. fold (add_all_files l (set_piece_length pl fs_empty)).
  apply Forall_app in Hok as [Hok Ha%Forall_inv]. pose proof (sum_sizes_nonneg l Hok) as Hn.
  rewrite sum_sizes_app in Hs |- *. cbn [sum_sizes foldr] in Hs |- *. rewrite Z.add_0_r in Hs |- *.
  assert (0 <= ad_size a) by (destruct Ha as (_ & _ & ? & _); lia).
  destruct IH as (Hix & Ht & Hpl & Hm & Hf); [done| |lia|].
  { destruct Hd as [Hd|Hd]; [left; by apply Forall_app in Hd as [Hd _]|].
    rewrite length_app in Hd. simpl in Hd. destruct l; [by left|simpl in Hd; lia]. }
  set (fs := add_all_files l (set_piece_length pl fs_empty)) in *.
  destruct (add_spec a fs Ha Hix) as (e & He & Hent & Ht' & Hix' & Hold).
  { destruct Hd as [Hd|Hd]; [right; by apply Forall_app in Hd as [_ Hd%Forall_inv]|left].
    rewrite length_app in Hd. simpl in Hd. destruct l; [done|simpl in Hd; lia]. }
  assert (entries (add a fs) = entries fs ++ [mk_file_entry (ad_path a) (ad_leaf a) (sum_sizes l) (ad_size a)]) as Hentries.
  { unfold entries. rewrite He, map_app, Hold. cbn [map]. rewrite Hent, Ht, Z.mod_small by lia. done. }
  split; [done|]. split; [by rewrite Ht', Ht, i64_small by lia|]. split; [by rewrite add_keeps_piece_length|]. rewrite Hentries. split.
  - rewrite !map_app, Hm. done.
  - apply files_ok_app. exists (sum_sizes l). split; [done|]. cbn. split_and!; [done|lia|done].
Qed.

(** Files added one after the other, in directories of the torrent or as its only file,
    are read back with the paths they were added with and lie without gaps one after the
    other, as long as all of them have less than 2^48 bytes. *)
Theorem added_files_layout pl l : Forall addition_ok l -> Forall (fun a => ad_dirs a <> []) l \/ length l = 1%nat ->
  sum_sizes l < 2 ^ 48 -> let fs := add_all_files l (set_piece_length pl fs_empty) in
  map (fun f => (fe_path f, fe_name f, fe_size f)) (entries fs) = map (fun a => (ad_path a, ad_leaf a, ad_size a)) l /\
  files_ok 0 (entries fs) (m_total_size fs) /\ m_total_size fs = sum_sizes l.
Proof. intros Hok Hd Hs. destruct (add_all_layout pl l Hok Hd Hs) as (_ & Ht & _ & Hm & Hf). cbv zeta. by rewrite Ht. Qed.

(** Beyond that the offset of a file, which has 48 bits, wraps around. *)
Lemma offset_wraps : exists l, Forall addition_ok l /\ sum_sizes l = 2 ^ 49 /\
  map fe_offset (entries (add_all_files l (set_piece_length 1 fs_empty))) = [0; 2 ^ 47; 0; 2 ^ 47].
Proof.
  assert (component_ok [116]) by (split_and!; [done|by repeat constructor|done|done]).
  exists (map (fun c => mk_addition [[116]] [c] [] (2 ^ 47) 0 None 0 []) [97; 98; 99; 100]). split_and!; [|done|by vm_compute].
  repeat (constructor; [split_and!; [by apply Forall_singleton|split_and!; [done|by repeat constructor|done|done]|done|done|by left]|]).
  constructor.
Qed.

Definition two_additions : list addition :=
  [mk_addition [bytes_of_string "t"] (bytes_of_string "a") (bytes_of_string "a") 5 0 None 0 [];
   mk_addition [bytes_of_string "t"; bytes_of_string "d"] (bytes_of_string "b") [] 7 0 None 0 []].

Lemma added_files_layout_witness : let fs := add_all_files two_additions (set_piece_length 4 fs_empty) in
  map (fun f => (fe_path f, fe_name f, fe_size f)) (entries fs) =
    [(bytes_of_string "t/a", bytes_of_string "a", 5); (bytes_of_string "t/d/b", bytes_of_string "b", 7)] /\
  files_ok 0 (entries fs) (m_total_size fs) /\ m_total_size fs = 12.
Proof.
  apply (added_files_layout 4 two_additions).
  - assert (forall c, clean c -> [c] <> [46] -> component_ok [c]) as H
      by (intros c Hc Hd; split_and!; [done|by apply Forall_singleton|done|done]).
    constructor; [|constructor; [|constructor]]; split_and!; try (left; done); try (right; done);
      repeat (apply Forall_cons; split); try apply Forall_nil; try (apply H; done); done.
  - left. by repeat constructor.
  - by vm_compute.
Defined.
