(* ===== verification/Symlinks.v ===== *)
(** * Symbolic links of a torrent

    [file_storage::sanitize_symlinks] of [extern/libtorrent/src/file_storage.cpp], which reading a torrent ends with:
    a link that names neither a file nor a directory of the torrent, and that the other
    links of the torrent do not lead to one, is made to point at itself.  The maps of files and
    directories, which the code builds when it meets the first link, depend on nothing that
    the passes change; here they are functions of the storage. *)

From S2P Require Import Prelude Paths FileStorage.

(** ** Splitting at a position *)

(** [extern/libtorrent/include/libtorrent/string_view.hpp:49-58] find_first_of
    From [pos] on; the position counts from the start. *)
Fixpoint find_first_from (c : Z) (pos : nat) (s : bytes) : option nat :=
  match s with
  | [] => None
  | x :: s' =>
      match pos with
      | O => if x =? c then Some 0%nat else S <$> find_first_from c 0 s'
      | S pos' => S <$> find_first_from c pos' s'
      end
  end.

(** [extern/libtorrent/src/path.cpp:913-930] lsplit_path *)
Definition lsplit_path_at (p : bytes) (pos : nat) : bytes * bytes :=
  match p with
  | [] => ([], [])
  | c :: p' =>
      let '(p, pos) := if c =? 47 then (p', Nat.pred pos) else (p, pos) in
      match find_first_from 47 pos p with
      | None => (p, [])
      | Some sep => (take sep p, drop (S sep) p)
      end
  end.

(** ** What links may refer to *)

(** [extern/libtorrent/src/file_storage.cpp:1164-1169] file_storage::sanitize_symlinks
    [file_map.find(target)]: the first file with a path is the one that is kept. *)
Definition file_at (fs : file_storage) (target : bytes) : option internal_file_entry :=
  find (fun e => bool_decide (internal_file_path fs e = target)) (m_files fs).

(** [for (pv = p; !pv.empty(); pv = rsplit_path(pv).first)]; every turn makes [pv] shorter. *)
Fixpoint ancestors (fuel : nat) (pv : bytes) : list bytes :=
  match fuel, pv with
  | S fuel', _ :: _ => pv :: ancestors fuel' (rsplit_path pv).1
  | _, _ => []
  end.

(** [extern/libtorrent/src/file_storage.cpp:1203-1209] file_storage::sanitize_symlinks
    [dir_map.count(target)] *)
Definition dir_at (fs : file_storage) (target : bytes) : bool :=
  existsb (fun p => bool_decide (target ∈ ancestors (length p) p)) (m_paths fs).

(** ** The first pass *)

(** What a link is found to be: its target, with what the map of links to directories gets for it;
    or it is left for the second pass. *)
Inductive verdict := points_to (target : bytes) (dir_link : option bytes) | complex_link.

(** [extern/libtorrent/src/file_storage.cpp:1187-1199] file_storage::sanitize_symlinks *)
Definition via_file (fs : file_storage) (target : bytes) : option verdict :=
  e ← file_at fs target; Some (points_to target (if if_symlink_attribute e then Some target else None)).

(** [extern/libtorrent/src/file_storage.cpp:1211-1217] file_storage::sanitize_symlinks *)
Definition via_dir (fs : file_storage) (target : bytes) : option verdict :=
  if dir_at fs target then Some (points_to target (Some target)) else None.

(** [extern/libtorrent/src/file_storage.cpp:1227-1234] file_storage::sanitize_symlinks *)
Definition via_path (fs : file_storage) (target : bytes) : option verdict :=
  if bool_decide (target ∈ m_paths fs) then Some (points_to target (Some target)) else None.

(** [extern/libtorrent/src/file_storage.cpp:1221-1257] file_storage::sanitize_symlinks
    The target taken relative to the directory of the link. *)
Definition via_relative (fs : file_storage) (fe : internal_file_entry) (target : bytes) : option verdict :=
  if 0 <=? if_path_index fe then
    let target := append_path (nth (Z.to_nat (if_path_index fe)) (m_paths fs) []) target in
    via_path fs target ∪ via_dir fs target ∪ via_file fs target
  else None.

(** [extern/libtorrent/src/file_storage.cpp:1176-1257] file_storage::sanitize_symlinks *)
Definition judge_link (fs : file_storage) (fe : internal_file_entry) (target : bytes) : verdict :=
  if is_complete target then points_to (internal_file_path fs fe) None
  else default complex_link (via_file fs target ∪ via_dir fs target ∪ via_relative fs fe target).

(** The variables of the passes: [m_symlinks], [dir_links] and [symlinks_to_validate], which
    holds the entries themselves. *)
Record link_state := mk_links {
  ls_symlinks : list bytes;
  ls_dir_links : gmap bytes bytes;
  ls_to_validate : list internal_file_entry;
}.

(** [m_symlinks[fe.symlink_index]]; past the end of the vector C++ leaves the access open. *)
Definition target_of (fe : internal_file_entry) (symlinks : list bytes) : result bytes :=
  match symlinks !! Z.to_nat (if_symlink_index fe) with Some t => Ok t | None => Fault BadPrecondition end.

Definition set_target (fe : internal_file_entry) (t : bytes) (symlinks : list bytes) : list bytes :=
  <[Z.to_nat (if_symlink_index fe) := t]> symlinks.

(** [extern/libtorrent/src/file_storage.cpp:1160-1264] file_storage::sanitize_symlinks
    One turn of the first loop. *)
Definition first_turn (fs : file_storage) (fe : internal_file_entry) (s : link_state) : result link_state :=
  if negb (if_symlink_attribute fe) then Ok s
  else
    target ← target_of fe (ls_symlinks s);
    let path := internal_file_path fs fe in
    Ok match judge_link fs fe target with
       | points_to t d =>
           mk_links (set_target fe t (ls_symlinks s))
             (match d with Some t' => <[path := t']> (ls_dir_links s) | None => ls_dir_links s end) (ls_to_validate s)
       | complex_link =>
           mk_links (ls_symlinks s) (<[path := target]> (ls_dir_links s)) (ls_to_validate s ++ [fe])
       end.

(** [extern/libtorrent/src/file_storage.cpp:1160-1264] file_storage::sanitize_symlinks *)
Fixpoint first_pass (fs : file_storage) (files : list internal_file_entry) (s : link_state) : result link_state :=
  match files with
  | [] => Ok s
  | fe :: files' => s ← first_turn fs fe s; first_pass fs files' s
  end.

(** ** The second pass *)

(** [extern/libtorrent/src/file_storage.cpp:1284-1307] file_storage::sanitize_symlinks
    Following a target from [branch] on: whether it leads to a file or a directory. *)
Fixpoint follow_link (fuel : nat) (fs : file_storage) (dir_links : gmap bytes bytes) (target branch : bytes)
    (traversed : gset bytes) : result bool :=
  if (length branch <? length target)%nat then
    match fuel with
    | O => Fault OutOfFuel
    | S fuel' =>
        if dir_at fs branch then
          follow_link fuel' fs dir_links target (lsplit_path_at target (length branch + 1)).1 traversed
        else
          match dir_links !! branch with
          | None => Ok false
          | Some t =>
              if bool_decide (branch ∈ traversed) then Ok false
              else
                let target := combine_path t (drop (length branch + 1) target) in
                follow_link fuel' fs dir_links target (lsplit_path_at target 1).1 ({[branch]} ∪ traversed)
          end
    end
  else Ok (bool_decide (is_Some (file_at fs target)) || dir_at fs target).

(** The longest target in the map. *)
Definition longest (dir_links : gmap bytes bytes) : nat :=
  map_fold (fun _ t n => Nat.max (length t) n) 0%nat dir_links.

(** Every turn takes an element of the target, or a link that has not been traversed, which
    puts its target in front. *)
Definition follow_fuel (dir_links : gmap bytes bytes) (target : bytes) : nat :=
  length target + size dir_links * longest dir_links.

(** [extern/libtorrent/src/file_storage.cpp:1269-1316] file_storage::sanitize_symlinks
    One turn of the second loop. *)
Definition second_turn (fs : file_storage) (dir_links : gmap bytes bytes) (fe : internal_file_entry) (symlinks : list bytes) :
    result (list bytes) :=
  target ← target_of fe symlinks;
  valid ← follow_link (follow_fuel dir_links target) fs dir_links target (lsplit_path target).1 (∅ : gset bytes);
  Ok (if valid : bool then symlinks else set_target fe (internal_file_path fs fe) symlinks).

(** [extern/libtorrent/src/file_storage.cpp:1266-1316] file_storage::sanitize_symlinks *)
Fixpoint second_pass (fs : file_storage) (dir_links : gmap bytes bytes) (files : list internal_file_entry) (symlinks : list bytes) :
    result (list bytes) :=
  match files with
  | [] => Ok symlinks
  | fe :: files' => symlinks ← second_turn fs dir_links fe symlinks; second_pass fs dir_links files' symlinks
  end.

Definition set_symlinks (symlinks : list bytes) (fs : file_storage) : file_storage :=
  mk_fs (m_piece_length fs) (m_num_pieces fs) (m_files fs) (m_file_hashes fs) symlinks (m_mtime fs) (m_paths fs) (m_name fs) (m_total_size fs).

(** [extern/libtorrent/src/file_storage.cpp:1139-1317] file_storage::sanitize_symlinks *)
Definition sanitize_symlinks (fs : file_storage) : result file_storage :=
  s ← first_pass fs (m_files fs) (mk_links (m_symlinks fs) ∅ []);
  symlinks ← second_pass fs (ls_dir_links s) (ls_to_validate s) (ls_symlinks s);
  Ok (set_symlinks symlinks fs).

(** Only targets change. *)
Lemma sanitize_symlinks_only fs fs' : sanitize_symlinks fs = Ok fs' -> exists symlinks, fs' = set_symlinks symlinks fs.
Proof.
  unfold sanitize_symlinks. intros (s & _ & H)%result_bind_ok. apply result_bind_ok in H as (symlinks & _ & [= <-]).
  by exists symlinks.
Qed.

(** A torrent without links is left as it is. *)
Lemma first_pass_none fs files s : Forall (fun e => if_symlink_attribute e = false) files -> first_pass fs files s = Ok s.
Proof. induction 1 as [|e files He _ IH]; cbn [first_pass]; [done|]. unfold first_turn. by rewrite He. Qed.

Lemma sanitize_symlinks_none fs : Forall (fun e => if_symlink_attribute e = false) (m_files fs) -> sanitize_symlinks fs = Ok fs.
Proof. intros H. unfold sanitize_symlinks. rewrite first_pass_none by done. by destruct fs. Qed.
