(* ===== verification/SymlinksSpec.v ===== *)
(** * Links stay inside the torrent

    What [sanitize_symlinks] leaves, whatever links a torrent names: each points at itself,
    or to a file or directory of the torrent, or to a path that other links, themselves
    kept, lead to one.  The second pass ends, since it follows every link once at most. *)

From S2P Require Import Prelude Paths FileStorage Symlinks.

(** ** Splitting and joining *)

Lemma join_app es es' : es <> [] -> join_path (es ++ es') = join_path es ++ match es' with [] => [] | _ => 47 :: join_path es' end.
Proof.
  induction es as [|e es IH]; intros Hne; [done|]. destruct es as [|e2 es].
  - destruct es'; [by rewrite !app_nil_r|done].
  - cbn [app join_path] in *. rewrite IH by done. by rewrite <- app_assoc.
Qed.

Lemma find_first_from_sep a pos s : (pos <= length a)%nat -> Forall clean (drop pos a) ->
  find_first_from 47 pos (a ++ 47 :: s) = Some (length a).
Proof.
  revert pos. induction a as [|c a IH]; intros pos Hl Hc; cbn [app find_first_from length] in *; [by destruct pos; [|lia]|].
  destruct pos as [|pos].
  - rewrite drop_0 in Hc. apply Forall_cons in Hc as [Hc Ha]. rewrite (proj2 (Z.eqb_neq c 47)) by by apply clean_not_sep.
    rewrite IH; [done|lia|by rewrite drop_0].
  - rewrite IH; [done|lia|done].
Qed.

Lemma find_first_from_none a pos : Forall clean (drop pos a) -> find_first_from 47 pos a = None.
Proof.
  revert pos. induction a as [|c a IH]; intros pos Hc; cbn [find_first_from]; [done|]. destruct pos as [|pos].
  - rewrite drop_0 in Hc. apply Forall_cons in Hc as [Hc Ha]. rewrite (proj2 (Z.eqb_neq c 47)) by by apply clean_not_sep.
    rewrite IH; [done|by rewrite drop_0].
  - by rewrite IH.
Qed.

Lemma components_first es : es <> [] -> Forall component_ok es -> exists c p, join_path es = c :: p /\ c <> 47.
Proof.
  intros Hne H. destruct (safe_path_clean (join_path es)) as (c & p & E & Hc); [by exists es|].
  exists c, p. split; [done|by apply clean_not_sep].
Qed.

(** The branch that ends with the first element after [pos]. *)
Lemma lsplit_at_clean a pos es : a <> [] -> head a <> Some 47 -> (pos <= length a)%nat -> Forall clean (drop pos a) ->
  (lsplit_path_at (a ++ match es with [] => [] | _ => 47 :: join_path es end) pos).1 = a.
Proof.
  intros Hne Hh Hp Hc. destruct a as [|c a]; [done|]. unfold lsplit_path_at. cbn [app].
  assert (c <> 47) as Hc47 by (intros ->; by apply Hh). rewrite (proj2 (Z.eqb_neq c 47)) by done.
  change (c :: a ++ ?x) with ((c :: a) ++ x). destruct es as [|e es].
  - rewrite app_nil_r, find_first_from_none by done. done.
  - rewrite find_first_from_sep by done. by rewrite take_app_length.
Qed.

Lemma lsplit_at_first e es : Forall component_ok (e :: es) -> (lsplit_path_at (join_path (e :: es)) 1).1 = e.
Proof.
  intros H. change (e :: es) with ([e] ++ es). rewrite join_app by done. cbn [join_path].
  apply Forall_cons in H as [(Hne & Hc & _) _]. apply lsplit_at_clean; [done| | |].
  - destruct Hc as [|c e Hc]; [done|]. intros [= ->]. by apply clean_not_sep in Hc.
  - destruct e; [done|]. simpl. lia.
  - by apply Forall_drop.
Qed.

Lemma lsplit_at_next es e es' : es <> [] -> Forall component_ok (es ++ e :: es') ->
  (lsplit_path_at (join_path (es ++ e :: es')) (length (join_path es) + 1)).1 = join_path (es ++ [e]).
Proof.
  intros Hne H. replace (es ++ e :: es') with ((es ++ [e]) ++ es') in * by by rewrite <- app_assoc.
  apply Forall_app in H as [H _]. destruct (components_first (es ++ [e])) as (c & p & E & Hc); [by destruct es|done|].
  rewrite join_app by (by destruct es). apply lsplit_at_clean.
  - by rewrite E.
  - rewrite E. cbn. by intros [= ->].
  - rewrite join_path_snoc, !length_app by done. simpl. lia.
  - rewrite join_path_snoc, app_assoc by done. apply Forall_app in H as [_ (_ & He & _)%Forall_inv].
    rewrite drop_app_ge by (rewrite length_app; simpl; lia). by apply Forall_drop.
Qed.

Lemma lsplit_first e es : Forall component_ok (e :: es) -> (lsplit_path (join_path (e :: es))).1 = e.
Proof. intros [He _]%Forall_cons. by rewrite lsplit_join. Qed.

Lemma combine_join es es' : Forall component_ok es -> Forall component_ok es' -> combine_path (join_path es) (join_path es') = join_path (es ++ es').
Proof.
  intros H H'. rewrite <- append_join by done. unfold combine_path, append_path.
  rewrite (bool_decide_false (join_path es' = [46])), orb_false_r by by apply join_not_dot.
  destruct (_ || _); [done|]. destruct (bool_decide (join_path es' = [])); [done|].
  destruct (bool_decide (last _ = _)); [done|]. by rewrite <- app_assoc.
Qed.

Lemma drop_join es es' : es <> [] -> es' <> [] -> drop (length (join_path es) + 1) (join_path (es ++ es')) = join_path es'.
Proof.
  intros H H'. rewrite join_app by done. destruct es' as [|e es']; [done|].
  change (47 :: ?x) with ([47] ++ x). rewrite app_assoc.
  replace (length (join_path es) + 1)%nat with (length (join_path es ++ [47])) by by rewrite length_app.
  apply drop_app_length.
Qed.

Lemma join_shorter es es' : es <> [] -> es' <> [] -> (length (join_path es) < length (join_path (es ++ es')))%nat.
Proof. intros H H'. rewrite join_app by done. destruct es'; [done|]. rewrite length_app. simpl. lia. Qed.

Lemma length_join es : Forall component_ok es -> (length es <= length (join_path es))%nat.
Proof.
  induction es as [|e es IH]; intros H; [simpl; lia|]. change (e :: es) with ([e] ++ es). rewrite join_app by done.
  apply Forall_cons in H as [(Hne & _) H]. specialize (IH H). rewrite !length_app. cbn [join_path length].
  assert (0 < length e)%nat by (destruct e; [done|simpl; lia]). destruct es; simpl in *; lia.
Qed.

(** ** Following a target *)

(** A path of the torrent. *)
Definition there (fs : file_storage) (t : bytes) : bool := bool_decide (is_Some (file_at fs t)) || dir_at fs t.

Section Follow.
Context (fs : file_storage) (dir_links : gmap bytes bytes).

(** The elements [es] are followed from the last of [pre] on and lead to a path of the
    torrent: the loop of the second pass, element by element. *)
Inductive walk : list bytes -> list bytes -> gset bytes -> Prop :=
  | walk_end pre x traversed : there fs (join_path (pre ++ [x])) = true -> walk pre [x] traversed
  | walk_dir pre x y rest traversed : dir_at fs (join_path (pre ++ [x])) = true ->
      walk (pre ++ [x]) (y :: rest) traversed -> walk pre (x :: y :: rest) traversed
  | walk_link pre x y rest traversed es :
      dir_at fs (join_path (pre ++ [x])) = false -> dir_links !! join_path (pre ++ [x]) = Some (join_path es) ->
      es <> [] -> Forall component_ok es -> join_path (pre ++ [x]) ∉ traversed ->
      walk [] (es ++ y :: rest) ({[join_path (pre ++ [x])]} ∪ traversed) -> walk pre (x :: y :: rest) traversed.

(** What is followed through is followed up to any of its elements, if the keys of the map
    are files. *)
Lemma walk_prefix pre es traversed : (forall b t, dir_links !! b = Some t -> is_Some (file_at fs b)) -> walk pre es traversed -> forall xs rest traversed', es = xs ++ rest -> xs <> [] -> rest <> [] ->
  traversed' ⊆ traversed -> walk pre xs traversed'.
Proof.
  intros keys_there.
  induction 1 as [pre x tr Ht|pre x y rest tr Hd Hw IH|pre x y rest tr ts Hd Hl Hts Hc Hn Hw IH]; intros xs rest' tr' E Hxs Hr Hsub.
  - destruct xs as [|x' [|x2 xs]]; [done| |done]. injection E as -> E. by destruct rest'.
  - destruct xs as [|x' [|x2 xs]]; [done| |].
    + injection E as -> _. apply walk_end. unfold there. by rewrite Hd, orb_true_r.
    + injection E as -> -> ->. apply walk_dir; [done|]. by apply (IH (x2 :: xs) rest').
  - destruct xs as [|x' [|x2 xs]]; [done| |].
    + injection E as -> _. apply walk_end. unfold there. by rewrite bool_decide_true by by eapply keys_there.
    + injection E as -> -> ->. eapply walk_link; [done..|set_solver|]. apply (IH _ rest'); [by rewrite <- app_assoc|by destruct ts|done|set_solver].
Qed.

(** The targets of the map are paths of proper elements. *)
Context (targets_safe : forall b t, dir_links !! b = Some t -> safe_path t).

(** The loop at the state of [walk]. *)
Definition follow_at (fuel : nat) (pre es : list bytes) (traversed : gset bytes) : result bool :=
  follow_link fuel fs dir_links (join_path (pre ++ es)) (join_path (pre ++ take 1 es)) traversed.

Lemma follow_at_end fuel pre x traversed : follow_at fuel pre [x] traversed = Ok (there fs (join_path (pre ++ [x]))).
Proof. unfold follow_at. cbn [take]. destruct fuel; cbn [follow_link]; by rewrite Nat.ltb_irrefl. Qed.

Lemma follow_at_empty pre x y rest traversed : follow_at 0 pre (x :: y :: rest) traversed = Fault OutOfFuel.
Proof.
  unfold follow_at. cbn [take follow_link]. replace (pre ++ x :: y :: rest) with ((pre ++ [x]) ++ y :: rest) by by rewrite <- app_assoc.
  by rewrite (proj2 (Nat.ltb_lt _ _)) by (apply join_shorter; by destruct pre).
Qed.

Lemma follow_at_start fuel es traversed : es <> [] -> Forall component_ok es ->
  follow_link fuel fs dir_links (join_path es) (lsplit_path_at (join_path es) 1).1 traversed = follow_at fuel [] es traversed /\
  follow_link fuel fs dir_links (join_path es) (lsplit_path (join_path es)).1 traversed = follow_at fuel [] es traversed.
Proof. destruct es as [|e es]; [done|]. intros _ H. by rewrite lsplit_at_first, lsplit_first by done. Qed.

Lemma follow_at_step fuel pre x y rest traversed : Forall component_ok (pre ++ x :: y :: rest) ->
  follow_at (S fuel) pre (x :: y :: rest) traversed =
    if dir_at fs (join_path (pre ++ [x])) then follow_at fuel (pre ++ [x]) (y :: rest) traversed
    else match dir_links !! join_path (pre ++ [x]) with
         | None => Ok false
         | Some t =>
             if bool_decide (join_path (pre ++ [x]) ∈ traversed) then Ok false
             else follow_at fuel [] (components t ++ y :: rest) ({[join_path (pre ++ [x])]} ∪ traversed)
         end.
Proof.
  intros Hok. unfold follow_at at 1. cbn [take follow_link]. assert (pre ++ [x] <> []) as Hne by by destruct pre.
  replace (pre ++ x :: y :: rest) with ((pre ++ [x]) ++ y :: rest) in * by by rewrite <- app_assoc.
  rewrite (proj2 (Nat.ltb_lt _ _)) by by apply join_shorter.
  rewrite lsplit_at_next, drop_join by done. destruct (dir_at _ _); [done|].
  destruct (dir_links !! _) as [t|] eqn:Et; [|done]. destruct (targets_safe _ _ Et) as (es & Hes & Hc & ->).
  destruct (bool_decide _); [done|]. apply Forall_app in Hok as [_ Hok].
  rewrite combine_join, components_join by done. apply (follow_at_start fuel (es ++ y :: rest)); [by destruct es|].
  by apply Forall_app.
Qed.

Lemma follow_walk fuel : forall pre es traversed, es <> [] -> Forall component_ok (pre ++ es) ->
  follow_at fuel pre es traversed = Ok true -> walk pre es traversed.
Proof.
  induction fuel as [|fuel IH]; intros pre [|x [|y rest]] traversed Hne Hok H; try done.
  - rewrite follow_at_end in H. injection H as H. by constructor.
  - by rewrite follow_at_empty in H.
  - rewrite follow_at_end in H. injection H as H. by constructor.
  - rewrite follow_at_step in H by done. destruct (dir_at _ _) eqn:Ed.
    + apply walk_dir; [done|]. apply IH; [done|by rewrite <- app_assoc|done].
    + destruct (dir_links !! _) as [t|] eqn:Et; [|done]. destruct (targets_safe _ _ Et) as (es & Hes & Hc & ->).
      case_bool_decide; [done|]. rewrite components_join in H by done.
      eapply walk_link; [done..|]. apply IH; [by destruct es| |done].
      apply Forall_app in Hok as [_ [_ Hok]%Forall_cons]. cbn [app]. by apply Forall_app.
Qed.

Lemma walk_follow pre es traversed : walk pre es traversed -> Forall component_ok (pre ++ es) -> forall fuel b,
  follow_at fuel pre es traversed = Ok b -> b = true.
Proof.
  induction 1 as [pre x tr Ht|pre x y rest tr Hd Hw IH|pre x y rest tr ts Hd Hl Hts Hc Hn Hw IH]; intros Hok fuel b H.
  - rewrite follow_at_end in H. congruence.
  - destruct fuel as [|fuel]; [by rewrite follow_at_empty in H|].
    rewrite follow_at_step, Hd in H by done. eapply IH; [by rewrite <- app_assoc|done].
  - destruct fuel as [|fuel]; [by rewrite follow_at_empty in H|].
    rewrite follow_at_step, Hd, Hl, bool_decide_false, components_join in H by done. eapply IH; [|done]. cbn.
      apply Forall_app in Hok as [_ [_ Hok]%Forall_cons]. cbn [app]. by apply Forall_app.
Qed.

Lemma longest_bound b t : dir_links !! b = Some t -> (length t <= longest dir_links)%nat.
Proof.
  intros Ht%elem_of_map_to_list. unfold longest. rewrite map_fold_foldr. clear -Ht. revert Ht.
  generalize (map_to_list dir_links) as l. induction l as [|[b' t'] l IH]; intros Ht; [by apply elem_of_nil in Ht|].
  cbn [foldr uncurry]. apply elem_of_cons in Ht as [[= <- <-]|Ht%IH]; lia.
Qed.

(** Every turn takes an element or a link that was not traversed before. *)
Lemma follow_returns fuel : forall pre es traversed, es <> [] -> Forall component_ok (pre ++ es) -> traversed ⊆ dom dir_links ->
  (length es + (size dir_links - size traversed) * longest dir_links <= fuel)%nat ->
  returns (follow_at fuel pre es traversed) (fun _ => True).
Proof.
  induction fuel as [|fuel IH]; intros pre [|x [|y rest]] traversed Hne Hok Htr Hf; try done; try (by rewrite follow_at_end); try by apply Nat.le_0_r in Hf.
  rewrite follow_at_step by done. destruct (dir_at _ _).
  - apply IH; [done|by rewrite <- app_assoc|done|simpl in *; lia].
  - destruct (dir_links !! _) as [t|] eqn:Et; [|done]. destruct (targets_safe _ _ Et) as (es & Hes & Hc & ->).
    case_bool_decide as Hn; [done|]. rewrite components_join by done. apply longest_bound in Et as Hlong.
    pose proof (length_join es Hc) as Hl. assert ({[join_path (pre ++ [x])]} ∪ traversed ⊆ dom dir_links) as Hsub.
    { apply union_subseteq. split; [|done]. apply singleton_subseteq_l. by eapply elem_of_dom_2. }
    pose proof (subseteq_size _ _ Hsub) as Hsize. rewrite size_dom, size_union, size_singleton in Hsize by set_solver.
    apply IH; [by destruct es| |done|].
    + cbn [app]. apply Forall_app in Hok as [_ [_ Hok]%Forall_cons]. by apply Forall_app.
    + rewrite length_app, size_union, size_singleton by set_solver. simpl in *. nia.
Qed.

(** The verdict on a target: whether it can be walked. *)
Lemma follow_target t : safe_path t -> exists b,
  follow_link (follow_fuel dir_links t) fs dir_links t (lsplit_path t).1 ∅ = Ok b /\ (b = true <-> walk [] (components t) ∅).
Proof.
  intros (es & Hne & Hok & ->). rewrite components_join, (proj2 (follow_at_start _ es ∅ Hne Hok)) by done.
  pose proof (follow_returns (follow_fuel dir_links (join_path es)) [] es ∅ Hne Hok (empty_subseteq _)) as Hr.
  destruct (follow_at _ _ _ _) as [b|] eqn:Eb.
  - exists b. split; [done|]. split; [intros ->; by eapply follow_walk|]. intros Hw. by eapply walk_follow.
  - destruct Hr. unfold follow_fuel. rewrite size_empty, Nat.sub_0_r. pose proof (length_join es Hok). lia.
Qed.
End Follow.

(** ** The passes *)

Definition is_link (e : internal_file_entry) : Prop := if_symlink_attribute e = true.

#[global] Instance is_link_dec e : Decision (is_link e).
Proof. unfold is_link. apply _. Defined.

#[global] Instance internal_file_entry_eq_dec : EqDecision internal_file_entry.
Proof. solve_decision. Defined.

Definition link_index (e : internal_file_entry) : nat := Z.to_nat (if_symlink_index e).

(** Every link has a target of its own, made of proper elements, as the directories are. *)
Record links_ok (fs : file_storage) : Prop := mk_links_ok {
  lo_targets : Forall safe_path (m_symlinks fs);
  lo_paths : Forall (fun p => p = [] \/ safe_path p) (m_paths fs);
  lo_range : Forall (fun e => is_link e -> (link_index e < length (m_symlinks fs))%nat) (m_files fs);
  lo_distinct : NoDup (link_index <$> filter is_link (m_files fs));
}.

Lemma safe_not_complete t : safe_path t -> is_complete t = false.
Proof.
  intros (c & r & -> & Hc)%safe_path_clean. apply bool_decide_false. cbn. intros [= ->]. by apply clean_not_sep in Hc.
Qed.

Lemma append_safe p t : p = [] \/ safe_path p -> safe_path t -> safe_path (append_path p t).
Proof.
  intros Hp (es & Hne & Hes & ->). destruct Hp as [->|(es' & Hne' & Hes' & ->)].
  - change [] with (join_path []). rewrite append_join by (constructor || done). by exists es.
  - rewrite append_join by done. exists (es' ++ es). split; [by destruct es'|]. split; [by apply Forall_app|done].
Qed.

Lemma there_path fs t : t ∈ m_paths fs -> t <> [] -> dir_at fs t = true.
Proof.
  intros Ht Hne. apply existsb_exists. exists t. split; [by apply list_elem_of_In|]. apply bool_decide_true.
  destruct t; [done|]. cbn [length ancestors]. by left.
Qed.

(** A target that is settled names a path of the torrent. *)
Definition settled (fs : file_storage) (v : verdict) : Prop :=
  match v with
  | points_to t d => safe_path t /\ there fs t = true /\ (d = None \/ d = Some t)
  | complex_link => True
  end.

Lemma via_file_settled fs t v : safe_path t -> via_file fs t = Some v -> settled fs v.
Proof.
  intros Ht (e & He & [= <-])%bind_Some. unfold settled, there. split_and!; [done|by rewrite bool_decide_true|].
  destruct (if_symlink_attribute e); [by right|by left].
Qed.

Lemma via_dir_settled fs t v : safe_path t -> via_dir fs t = Some v -> settled fs v.
Proof.
  unfold via_dir. intros Ht Hv. destruct (dir_at fs t) eqn:Ed; [|done]. injection Hv as <-.
  split_and!; [done|unfold there; by rewrite Ed, orb_true_r|by right].
Qed.

Lemma via_path_settled fs t v : safe_path t -> via_path fs t = Some v -> settled fs v.
Proof.
  unfold via_path. intros Ht Hv. case_bool_decide as Hin; [|done]. injection Hv as <-.
  apply (via_dir_settled fs t); [done|]. unfold via_dir. rewrite there_path; [done|done|].
  by destruct (safe_path_clean t Ht) as (c & r & -> & _).
Qed.

Lemma judge_link_settled fs e t : links_ok fs -> safe_path t -> settled fs (judge_link fs e t).
Proof.
  intros Hfs Ht. unfold judge_link. rewrite safe_not_complete by done.
  destruct (via_file fs t ∪ via_dir fs t ∪ via_relative fs e t) as [v|] eqn:Ev; [|done]. cbn [default].
  apply union_Some in Ev as [[Ev|[_ Ev]]%union_Some|[_ Ev]];
    [by eapply via_file_settled|by eapply via_dir_settled|].
  unfold via_relative in Ev. destruct (0 <=? _); [|done]. cbv zeta in Ev.
  assert (safe_path (append_path (nth (Z.to_nat (if_path_index e)) (m_paths fs) []) t)) as Hs.
  { apply append_safe; [|done]. destruct (nth_in_or_default (Z.to_nat (if_path_index e)) (m_paths fs) []) as [Hin| ->]; [|by left].
    pose proof (lo_paths _ Hfs) as Hp. rewrite Forall_forall in Hp. by apply Hp, list_elem_of_In. }
  apply union_Some in Ev as [[Ev|[_ Ev]]%union_Some|[_ Ev]];
    [by eapply via_path_settled|by eapply via_dir_settled|by eapply via_file_settled].
Qed.

Section Passes.
Context (fs : file_storage) (Hfs : links_ok fs).

Lemma link_target_of e symlinks : e ∈ m_files fs -> is_link e -> length symlinks = length (m_symlinks fs) ->
  exists t, symlinks !! link_index e = Some t /\ target_of e symlinks = Ok t.
Proof.
  intros He Hl Hlen. pose proof (lo_range _ Hfs) as Hr. rewrite Forall_forall in Hr. specialize (Hr e He Hl).
  destruct (lookup_lt_is_Some_2 symlinks (link_index e)) as [t Ht]; [lia|]. exists t. split; [done|].
  unfold target_of. unfold link_index in Ht. by rewrite Ht.
Qed.

(** The links of [done] have been judged: the state of the first pass. *)
Record judged (done : list internal_file_entry) (s : link_state) : Prop := mk_judged {
  jd_length : length (ls_symlinks s) = length (m_symlinks fs);
  jd_safe : Forall safe_path (ls_symlinks s);
  jd_verdict : forall e t, e ∈ done -> is_link e -> m_symlinks fs !! link_index e = Some t ->
    match judge_link fs e t with
    | points_to t' _ => (e ∉ ls_to_validate s) /\ ls_symlinks s !! link_index e = Some t'
    | complex_link => e ∈ ls_to_validate s /\ ls_symlinks s !! link_index e = Some t
    end;
  jd_rest : forall k, k ∉ link_index <$> filter is_link done -> ls_symlinks s !! k = m_symlinks fs !! k;
  jd_dir_links : forall b t, ls_dir_links s !! b = Some t -> exists e, e ∈ done /\ is_link e /\
    internal_file_path fs e = b /\ ls_symlinks s !! link_index e = Some t;
  jd_validate : ls_to_validate s `sublist_of` filter is_link done;
}.

Lemma filter_snoc_link done e : is_link e -> filter is_link (done ++ [e]) = filter is_link done ++ [e].
Proof. intros Hl. by rewrite filter_app, filter_cons_True, filter_nil. Qed.

Lemma filter_snoc_other done e : ~ is_link e -> filter is_link (done ++ [e]) = filter is_link done.
Proof. intros Hl. by rewrite filter_app, filter_cons_False, filter_nil, app_nil_r. Qed.

(** Two links have their targets at different places. *)
Lemma other_index done e rest e' : m_files fs = done ++ e :: rest -> is_link e -> e' ∈ done -> is_link e' ->
  link_index e' <> link_index e.
Proof.
  intros Hfiles Hl He' Hl' E. pose proof (lo_distinct _ Hfs) as Hd.
  rewrite Hfiles, filter_app, filter_cons_True, fmap_app in Hd by done. apply NoDup_app in Hd as (_ & Hd & _).
  apply (Hd (link_index e')).
  - apply list_elem_of_fmap. exists e'. split; [done|]. by apply list_elem_of_filter.
  - rewrite E. cbn [fmap list_fmap]. by left.
Qed.

Lemma judged_other done e s : ~ is_link e -> judged done s -> judged (done ++ [e]) s.
Proof.
  intros Hl [Hlen Hsafe Hset Hrest Hdirs Hval]. split; [done|done| |by rewrite filter_snoc_other| |by rewrite filter_snoc_other].
  - intros e' t [He| ->%list_elem_of_singleton]%elem_of_app Hl' Ht; [by apply Hset|done].
  - intros b t Hb. destruct (Hdirs b t Hb) as (e' & He & H). exists e'. split; [|done]. apply elem_of_app. by left.
Qed.

Lemma rest_index done e rest : m_files fs = done ++ e :: rest -> is_link e -> link_index e ∉ link_index <$> filter is_link done.
Proof.
  intros Hfiles Hl (e' & E & [Hl' He']%list_elem_of_filter)%list_elem_of_fmap. by apply (other_index done e rest e' Hfiles Hl He').
Qed.

Lemma validated_done done s e : judged done s -> e ∈ ls_to_validate s -> e ∈ done /\ is_link e.
Proof. intros Hs He. eapply elem_of_sublist in He; [|apply (jd_validate _ _ Hs)]. apply list_elem_of_filter in He. naive_solver. Qed.

Lemma not_validated done e rest s : m_files fs = done ++ e :: rest -> is_link e -> judged done s -> e ∉ ls_to_validate s.
Proof. intros Hfiles Hl Hs Hin. destruct (validated_done done s e Hs Hin) as [He _]. by apply (other_index done e rest e). Qed.

Lemma judged_settled done e rest s t0 t d : m_files fs = done ++ e :: rest -> is_link e -> judged done s ->
  m_symlinks fs !! link_index e = Some t0 -> judge_link fs e t0 = points_to t d -> settled fs (points_to t d) ->
  judged (done ++ [e]) (mk_links (set_target e t (ls_symlinks s))
    (match d with Some t' => <[internal_file_path fs e := t']> (ls_dir_links s) | None => ls_dir_links s end) (ls_to_validate s)).
Proof.
  intros Hfiles Hl Hs Ht0 Hj (Ht & Hthere & Hd). pose proof (not_validated done e rest s Hfiles Hl Hs) as Hnew.
  destruct Hs as [Hlen Hsafe Hset Hrest Hdirs Hval].
  assert (set_target e t (ls_symlinks s) !! link_index e = Some t) as Hat.
  { unfold set_target. apply list_lookup_insert_eq. rewrite Hlen. by eapply lookup_lt_Some. }
  assert (forall e', e' ∈ done -> is_link e' -> set_target e t (ls_symlinks s) !! link_index e' = ls_symlinks s !! link_index e') as Hold.
  { intros e' He' Hl'. unfold set_target. apply list_lookup_insert_ne. intros E. by apply (other_index done e rest e'). }
  split; cbn [ls_symlinks ls_dir_links ls_to_validate].
  - unfold set_target. by rewrite length_insert.
  - by apply Forall_insert.
  - intros e' t1 [He'| ->%list_elem_of_singleton]%elem_of_app Hl' Ht1; [rewrite Hold by done; by apply Hset|].
    assert (t1 = t0) as -> by congruence. by rewrite Hj.
  - intros k Hk. rewrite filter_snoc_link, fmap_app in Hk by done. apply not_elem_of_app in Hk as [Hk Hke].
    unfold set_target. rewrite list_lookup_insert_ne; [by apply Hrest|]. intros <-. apply Hke. by left.
  - intros b t2 Hb. assert (b = internal_file_path fs e /\ t2 = t \/ ls_dir_links s !! b = Some t2) as [[-> ->]|Hb'].
    { destruct d as [t3|]; [|by right]. destruct Hd as [|[= <-]]; [done|]. apply lookup_insert_Some in Hb. naive_solver. }
    + exists e. split_and!; [apply elem_of_app; right; by left|done|done|done].
    + destruct (Hdirs b t2 Hb') as (e' & He' & Hl' & Hp & Hs'). exists e'. rewrite Hold by done.
      split_and!; [apply elem_of_app; by left|done|done|done].
  - rewrite filter_snoc_link by done. by apply sublist_inserts_r.
Qed.

Lemma judged_complex done e rest s t : m_files fs = done ++ e :: rest -> is_link e -> judged done s ->
  m_symlinks fs !! link_index e = Some t -> judge_link fs e t = complex_link ->
  judged (done ++ [e]) (mk_links (ls_symlinks s) (<[internal_file_path fs e := t]> (ls_dir_links s)) (ls_to_validate s ++ [e])).
Proof.
  intros Hfiles Hl [Hlen Hsafe Hset Hrest Hdirs Hval] Ht Hj. assert (ls_symlinks s !! link_index e = Some t) as Hat.
  { rewrite Hrest; [done|]. by eapply rest_index. }
  split; cbn [ls_symlinks ls_dir_links ls_to_validate]; [done|done| | | |].
  - intros e' t1 [He'| ->%list_elem_of_singleton]%elem_of_app Hl' Ht1.
    + specialize (Hset e' t1 He' Hl' Ht1). destruct (judge_link fs e' t1) as [t' d|].
      * split; [|apply Hset]. intros [Hin| ->%list_elem_of_singleton]%elem_of_app; [by apply Hset|].
        by apply (other_index done e rest e Hfiles Hl He').
      * split; [|apply Hset]. apply elem_of_app. left. apply Hset.
    + assert (t1 = t) as -> by congruence. rewrite Hj. split; [|done]. apply elem_of_app. right. by left.
  - intros k Hk. rewrite filter_snoc_link, fmap_app in Hk by done. by apply not_elem_of_app in Hk as [Hk%Hrest _].
  - intros b t2 [[<- <-]|[_ Hb']]%lookup_insert_Some.
    + exists e. split_and!; [apply elem_of_app; right; by left|done|done|done].
    + destruct (Hdirs b t2 Hb') as (e' & He' & Hl' & Hp & Hs). exists e'. split_and!; [apply elem_of_app; by left|done..].
  - rewrite filter_snoc_link by done. by apply sublist_app.
Qed.

Lemma first_turn_judged done e rest s : m_files fs = done ++ e :: rest -> judged done s ->
  returns (first_turn fs e s) (judged (done ++ [e])).
Proof.
  intros Hfiles Hs. unfold first_turn. destruct (if_symlink_attribute e) eqn:El; cbn [negb];
    [|apply judged_other; [unfold is_link; congruence|done]].
  assert (e ∈ m_files fs) as He by (rewrite Hfiles; apply elem_of_app; right; by left).
  destruct (link_target_of e (ls_symlinks s) He El (jd_length _ _ Hs)) as (t & Hlook & ->). cbn [mbind result_bind].
  assert (safe_path t) as Ht by (pose proof (jd_safe _ _ Hs) as H; rewrite Forall_lookup in H; by eapply H).
  rewrite (jd_rest _ _ Hs) in Hlook by by eapply rest_index.
  pose proof (judge_link_settled fs e t Hfs Ht) as Hset. destruct (judge_link fs e t) as [t' d|] eqn:Hj.
  - by apply (judged_settled done e rest s t).
  - by apply (judged_complex done e rest).
Qed.

Lemma first_pass_judged rest : forall done s, m_files fs = done ++ rest -> judged done s ->
  returns (first_pass fs rest s) (judged (m_files fs)).
Proof.
  induction rest as [|e rest IH]; intros done s Hfiles Hs; cbn [first_pass].
  - rewrite app_nil_r in Hfiles. by rewrite Hfiles.
  - eapply returns_bind; [by eapply first_turn_judged|]. intros s' Hs'. apply (IH (done ++ [e])); [by rewrite <- app_assoc|done].
Qed.

Lemma judged_start : judged [] (mk_links (m_symlinks fs) ∅ []).
Proof. split; cbn; [done|apply (lo_targets _ Hfs)|by intros e t ?%elem_of_nil|done|done|done]. Qed.

(** The map the first pass leaves. *)
Lemma judged_dir_links done s b t : done ⊆ m_files fs -> judged done s -> ls_dir_links s !! b = Some t ->
  safe_path t /\ is_Some (file_at fs b).
Proof.
  intros Hsub Hs Hb. destruct (jd_dir_links _ _ Hs b t Hb) as (e & He & _ & <- & Ht). split.
  - pose proof (jd_safe _ _ Hs) as H. rewrite Forall_lookup in H. by eapply H.
  - unfold file_at. destruct (find _ _) eqn:Ef; [done|].
    pose proof (find_none _ _ Ef e) as Hn. cbn in Hn. rewrite bool_decide_true in Hn by done. discriminate Hn.
    by apply list_elem_of_In, Hsub.
Qed.

Section SecondPass.
Context (dir_links : gmap bytes bytes).
Context (targets_safe : forall b t, dir_links !! b = Some t -> safe_path t).

(** What the second pass makes of the target [t] of [e]. *)
Definition validated (e : internal_file_entry) (t t' : bytes) : Prop :=
  walk fs dir_links [] (components t) ∅ /\ t' = t \/ ~ walk fs dir_links [] (components t) ∅ /\ t' = internal_file_path fs e.

Lemma second_turn_spec e symlinks t : symlinks !! link_index e = Some t -> safe_path t ->
  exists t', second_turn fs dir_links e symlinks = Ok (<[link_index e := t']> symlinks) /\ validated e t t'.
Proof.
  intros Ht Hs. unfold second_turn, target_of. unfold link_index in Ht. rewrite Ht. cbn [mbind result_bind].
  destruct (follow_target fs dir_links targets_safe t Hs) as (b & -> & Hb). cbn [mbind result_bind]. destruct b.
  - exists t. split; [unfold link_index; by rewrite list_insert_id|]. left. split; [by apply Hb|done].
  - exists (internal_file_path fs e). split; [done|]. right. split; [|done]. intros Hw%Hb. done.
Qed.

Lemma second_pass_spec files : NoDup (link_index <$> files) -> forall symlinks,
  (forall e, e ∈ files -> exists t, symlinks !! link_index e = Some t /\ safe_path t) ->
  returns (second_pass fs dir_links files symlinks) (fun symlinks' =>
    (forall k, k ∉ link_index <$> files -> symlinks' !! k = symlinks !! k) /\
    (forall e t, e ∈ files -> symlinks !! link_index e = Some t -> exists t', symlinks' !! link_index e = Some t' /\ validated e t t')).
Proof.
  induction files as [|e files IH]; intros Hd symlinks Hall; cbn [second_pass];
    [by split; [|intros e t ?%elem_of_nil]|].
  apply NoDup_cons in Hd as [Hne Hd]. destruct (Hall e) as (t & Ht & Hs); [by left|].
  destruct (second_turn_spec e symlinks t Ht Hs) as (t' & -> & Hv). cbn [mbind result_bind].
  assert (forall e', e' ∈ files -> link_index e' <> link_index e) as Hother.
  { intros e' He' E. apply Hne. apply list_elem_of_fmap. by exists e'. }
  eapply returns_mono; [apply IH; [done|]|].
  - intros e' He'. rewrite list_lookup_insert_ne by (by apply not_eq_sym, Hother). apply Hall. by right.
  - intros symlinks' [Hrest Hset]. split.
    + intros k Hk. cbn in Hk. apply not_elem_of_cons in Hk as [Hk1 Hk2]. rewrite Hrest by done. by rewrite list_lookup_insert_ne.
    + intros e' t1 [->|He']%elem_of_cons Ht1.
      * exists t'. rewrite Hrest, list_lookup_insert_eq by (done || by eapply lookup_lt_Some). split; [done|]. congruence.
      * apply Hset; [done|]. by rewrite list_lookup_insert_ne by (by apply not_eq_sym, Hother).
Qed.
End SecondPass.
End Passes.

(** ** Where links lead *)

(** A link of the storage at the path [b], with its target. *)
Definition link_at (fs : file_storage) (b t : bytes) : Prop :=
  exists e, e ∈ m_files fs /\ is_link e /\ internal_file_path fs e = b /\ m_symlinks fs !! link_index e = Some t.

(** Taken from the root of the torrent, the path leads to a file, a directory or a link of it, through
    the links it has. *)
Inductive leads (fs : file_storage) : bytes -> Prop :=
  | leads_there t : there fs t = true -> leads fs t
  | leads_via b t rest : link_at fs b t -> leads fs (t ++ 47 :: rest) -> leads fs (b ++ 47 :: rest).

(** Every link of the storage leads to a path of the torrent. *)
Definition links_inside (fs : file_storage) : Prop :=
  forall e, e ∈ m_files fs -> is_link e -> exists t, m_symlinks fs !! link_index e = Some t /\ leads fs t.

(** Only the files, the directories and the targets count. *)
Definition same_links (fs fs' : file_storage) : Prop :=
  m_files fs' = m_files fs /\ m_paths fs' = m_paths fs /\ m_symlinks fs' = m_symlinks fs.

Lemma same_leads fs fs' t : same_links fs fs' -> leads fs t -> leads fs' t.
Proof.
  destruct fs, fs'. unfold same_links. cbn. intros (-> & -> & ->). induction 1 as [t Ht|b t rest Hb _ IH].
  - by apply leads_there.
  - by eapply leads_via.
Qed.

Lemma same_links_inside fs fs' : same_links fs fs' -> links_inside fs -> links_inside fs'.
Proof.
  intros Hs Hin e He Hl. pose proof Hs as (Hf & _ & Ht). rewrite Hf in He. destruct (Hin e He Hl) as (t & H & Hlead).
  exists t. rewrite Ht. split; [done|]. by eapply same_leads.
Qed.

Lemma distinct_links fs e e' : links_ok fs -> e ∈ m_files fs -> is_link e -> e' ∈ m_files fs -> is_link e' ->
  link_index e = link_index e' -> e = e'.
Proof.
  intros Hfs He Hl He' Hl' E. pose proof (lo_distinct _ Hfs) as Hd.
  assert (e ∈ filter is_link (m_files fs)) as (i & Hi)%list_elem_of_lookup by by apply list_elem_of_filter.
  assert (e' ∈ filter is_link (m_files fs)) as (j & Hj)%list_elem_of_lookup by by apply list_elem_of_filter.
  assert (i = j) as ->; [|congruence]. eapply NoDup_lookup; [exact Hd| |]; rewrite list_lookup_fmap.
  - by rewrite Hi.
  - rewrite Hj. cbn. by rewrite E.
Qed.

(** A target that names a path of the torrent is left as it is. *)
Lemma judge_there fs e t : safe_path t -> there fs t = true -> exists d, judge_link fs e t = points_to t d.
Proof.
  intros Hs Ht. unfold judge_link. rewrite safe_not_complete by done. unfold there in Ht. unfold via_file, via_dir.
  destruct (file_at fs t) as [e'|]; [destruct (dir_at fs t), (via_relative fs e t); by eexists|]. rewrite bool_decide_false in Ht by by intros [? ?].
  cbn in Ht. rewrite Ht. destruct (via_relative fs e t); by eexists.
Qed.

Section Sanitized.
Context (fs : file_storage) (Hfs : links_ok fs) (s : link_state) (Hs : judged fs (m_files fs) s).
Context (symlinks : list bytes).
Context (Hrest : forall k, k ∉ link_index <$> ls_to_validate s -> symlinks !! k = ls_symlinks s !! k).
Context (Hvalid : forall e t, e ∈ ls_to_validate s -> ls_symlinks s !! link_index e = Some t ->
  exists t', symlinks !! link_index e = Some t' /\ validated fs (ls_dir_links s) e t t').

Lemma not_in_second e : e ∈ m_files fs -> is_link e -> e ∉ ls_to_validate s -> symlinks !! link_index e = ls_symlinks s !! link_index e.
Proof.
  intros He Hl Hn. apply Hrest. intros (e' & E & He')%list_elem_of_fmap. apply Hn.
  destruct (validated_done fs _ _ e' Hs He') as [Hin Hl']. by rewrite (distinct_links fs e e' Hfs He Hl Hin Hl' E).
Qed.

(** A link that was followed on the way to a path of the torrent is kept itself. *)
Lemma followed_link b t : ls_dir_links s !! b = Some t -> walk fs (ls_dir_links s) [] (components t) ∅ ->
  link_at (set_symlinks symlinks fs) b t.
Proof.
  intros Hb Hw. destruct (jd_dir_links _ _ _ Hs b t Hb) as (e & He & Hl & Hp & Ht). exists e. split_and!; [done|done|done|].
  cbn [set_symlinks m_symlinks]. destruct (decide (e ∈ ls_to_validate s)) as [Hin|Hin].
  - destruct (Hvalid e t Hin Ht) as (t' & -> & [[_ ->]|[Hn _]]); done.
  - by rewrite not_in_second.
Qed.

Lemma dir_links_safe b t : ls_dir_links s !! b = Some t -> safe_path t.
Proof. intros Hb. by apply (judged_dir_links fs _ s b t (reflexivity _) Hs Hb). Qed.

Lemma dir_links_there b t : ls_dir_links s !! b = Some t -> is_Some (file_at fs b).
Proof. intros Hb. by apply (judged_dir_links fs _ s b t (reflexivity _) Hs Hb). Qed.

Lemma walk_leads pre es traversed : walk fs (ls_dir_links s) pre es traversed -> Forall component_ok (pre ++ es) ->
  leads (set_symlinks symlinks fs) (join_path (pre ++ es)).
Proof.
  induction 1 as [pre x tr Ht|pre x y rest tr Hd Hw IH|pre x y rest tr ts Hd Hl Hts Hc Hn Hw IH]; intros Hok.
  - by apply leads_there.
  - replace (pre ++ x :: y :: rest) with ((pre ++ [x]) ++ y :: rest) in * by by rewrite <- app_assoc. by apply IH.
  - replace (pre ++ x :: y :: rest) with ((pre ++ [x]) ++ y :: rest) in * by by rewrite <- app_assoc.
    rewrite join_app by (by destruct pre). apply leads_via with (t := join_path ts).
    + apply followed_link; [done|]. rewrite components_join by done.
      eapply walk_prefix; [apply dir_links_there|exact Hw|done|done|done|apply empty_subseteq].
    + apply Forall_app in Hok as [_ Hok].
      assert (join_path ts ++ 47 :: join_path (y :: rest) = join_path (ts ++ y :: rest)) as -> by (symmetry; by apply (join_app ts (y :: rest))).
      apply IH. cbn [app]. by apply Forall_app.
Qed.

Lemma sanitized_inside : links_inside (set_symlinks symlinks fs).
Proof.
  intros e He Hl. cbn [set_symlinks m_files m_symlinks] in *.
  destruct (link_target_of fs Hfs e (m_symlinks fs) He Hl eq_refl) as (t0 & Ht0 & _).
  assert (forall t, there fs t = true -> leads (set_symlinks symlinks fs) t) as Hthere by by intros; apply leads_there.
  assert (safe_path t0) as Hsafe by (pose proof (lo_targets _ Hfs) as H; rewrite Forall_lookup in H; by eapply H).
  pose proof (jd_verdict _ _ _ Hs e t0 He Hl Ht0) as Hv. pose proof (judge_link_settled fs e t0 Hfs Hsafe) as Hset.
  destruct (judge_link fs e t0) as [t d|]; destruct Hv as [Hin Ht].
  - exists t. rewrite not_in_second by done. split; [done|]. apply Hthere, Hset.
  - destruct (Hvalid e t0 Hin Ht) as (t' & Ht' & Hcase). exists t'. split; [done|]. destruct Hcase as [[Hw ->]|[_ ->]].
    + destruct Hsafe as (es & Hne & Hok & ->). rewrite components_join in Hw by done. by apply (walk_leads [] es ∅).
    + apply Hthere. unfold there, file_at. rewrite bool_decide_true; [done|]. destruct (find _ _) eqn:Ef; [done|].
      pose proof (find_none _ _ Ef e) as Hn. cbn in Hn. rewrite bool_decide_true in Hn by done. discriminate Hn.
      by apply list_elem_of_In.
Qed.

Lemma sanitized_keeps e t : e ∈ m_files fs -> is_link e -> m_symlinks fs !! link_index e = Some t -> there fs t = true ->
  symlinks !! link_index e = Some t.
Proof.
  intros He Hl Ht Hth. assert (safe_path t) as Hsafe by (pose proof (lo_targets _ Hfs) as H; rewrite Forall_lookup in H; by eapply H).
  destruct (judge_there fs e t Hsafe Hth) as (d & Hj). pose proof (jd_verdict _ _ _ Hs e t He Hl Ht) as Hv. rewrite Hj in Hv.
  destruct Hv as [Hin Hv]. by rewrite not_in_second.
Qed.
End Sanitized.

Lemma sublist_map {A B} (f : A -> B) (l1 l2 : list A) : l1 `sublist_of` l2 -> (f <$> l1) `sublist_of` (f <$> l2).
Proof. induction 1; cbn; by constructor. Qed.

Lemma sanitize_spec fs : links_ok fs -> exists symlinks, sanitize_symlinks fs = Ok (set_symlinks symlinks fs) /\
  links_inside (set_symlinks symlinks fs) /\
  forall e t, e ∈ m_files fs -> is_link e -> m_symlinks fs !! link_index e = Some t -> there fs t = true ->
    symlinks !! link_index e = Some t.
Proof.
  intros Hfs. unfold sanitize_symlinks. pose proof (first_pass_judged fs Hfs (m_files fs) [] _ eq_refl (judged_start fs Hfs)) as H1.
  destruct (first_pass _ _ _) as [s|]; [|done]. cbn [mbind result_bind returns_or] in *. rename H1 into Hs.
  assert (NoDup (link_index <$> ls_to_validate s)) as Hnd.
  { eapply sublist_NoDup; [apply (lo_distinct _ Hfs)|]. apply sublist_map, (jd_validate _ _ _ Hs). }
  pose proof (second_pass_spec fs (ls_dir_links s) (dir_links_safe fs s Hs) _ Hnd (ls_symlinks s)) as H2.
  destruct (second_pass _ _ _ _) as [symlinks|]; cbn [mbind result_bind returns_or] in *.
  - destruct H2 as [Hrest Hvalid].
    { intros e He. destruct (validated_done fs _ _ e Hs He) as [Hin Hl].
      destruct (link_target_of fs Hfs e _ Hin Hl (jd_length _ _ _ Hs)) as (t & Ht & _). exists t. split; [done|].
      pose proof (jd_safe _ _ _ Hs) as H. rewrite Forall_lookup in H. by eapply H. }
    exists symlinks. split; [done|]. split; [by eapply sanitized_inside|]. intros. by eapply sanitized_keeps.
  - destruct H2. intros e He. destruct (validated_done fs _ _ e Hs He) as [Hin Hl].
    destruct (link_target_of fs Hfs e _ Hin Hl (jd_length _ _ _ Hs)) as (t & Ht & _). exists t. split; [done|].
    pose proof (jd_safe _ _ _ Hs) as H. rewrite Forall_lookup in H. by eapply H.
Qed.

(** ** Storages that are built file by file *)

Lemma get_or_add_path_adds path paths i paths' : get_or_add_path path paths = (i, paths') -> paths' = paths \/ paths' = paths ++ [path].
Proof. unfold get_or_add_path. destruct (rfind_path _ _); intros [= <- <-]; [by left|by right]. Qed.

Lemma update_path_index_adds e path b name paths e' paths' : safe_path path ->
  update_path_index e path b name paths = (e', paths') -> exists l, paths' = paths ++ l /\ Forall (fun p => p = [] \/ safe_path p) l.
Proof.
  intros (es & Hne & Hok & ->) H. unfold update_path_index in H.
  rewrite safe_not_complete in H by by exists es. destruct (exists_last Hne) as (es1 & leaf & ->). clear Hne.
  apply Forall_app in Hok as [Hes Hleaf%Forall_inv]. destruct es1 as [|e1 es1].
  - cbn [app join_path] in H. rewrite rsplit_single in H by done. injection H as _ <-. exists []. by rewrite app_nil_r.
  - rewrite rsplit_join in H by done. destruct (components_first (e1 :: es1)) as (c & p & E & _); [done|done|].
    rewrite E in H. rewrite <- E in H. clear E c p. apply Forall_cons in Hes as Hes'. destruct Hes' as [He1 Hes1].
    rewrite lsplit_join in H by done. cbn [fst snd] in H.
    assert (forall q i paths1, get_or_add_path q paths = (i, paths1) -> q = [] \/ safe_path q ->
      exists l, paths1 = paths ++ l /\ Forall (fun p => p = [] \/ safe_path p) l) as Hget.
    { intros q i paths1 [-> | ->]%get_or_add_path_adds Hq; [exists []; by rewrite app_nil_r|exists [q]; split; [done|by apply Forall_singleton]]. }
    assert (strip_separators (join_path es1) = [] \/ safe_path (strip_separators (join_path es1))) as Hstrip.
    { destruct es1 as [|e2 es2]; [by left|]. right. destruct (components_first (e2 :: es2)) as (c & p & E & Hc); [done|done|].
      rewrite E. cbn [strip_separators]. rewrite (proj2 (Z.eqb_neq c 47)), <- E by done. by exists (e2 :: es2). }
    case_bool_decide; destruct (get_or_add_path _ _) as [i paths1] eqn:Eg; injection H as _ <-; eapply Hget; try done.
    right. by exists (e1 :: es1).
Qed.

Lemma added_links filename path file_size file_flags filehash mtime symlink_path fs : links_ok fs -> safe_path path ->
  symlink_path = [] \/ safe_path symlink_path ->
  links_ok (add_file_borrow filename path file_size file_flags filehash mtime symlink_path fs).
Proof.
  intros [Ht Hp Hr Hd] Hpath Hlink. unfold add_file_borrow. set (name := if negb (has_parent_path path) then _ else _).
  destruct (update_path_index _ _ _ _ _) as [e paths] eqn:Eu. apply update_path_index_adds in Eu as (l & -> & Hl); [|done].
  set (link := negb (bool_decide (symlink_path = [])) && _).
  assert (link = true -> safe_path symlink_path) as Hsafe.
  { unfold link. intros [H%negb_true_iff%bool_decide_eq_false _]%andb_true_iff. by destruct Hlink. }
  clearbody link. set (e' := mk_ife _ (if link then _ else _) _ _ _ _ _ _ _ _ _).
  assert (is_link e' -> link = true /\ link_index e' = length (m_symlinks fs)) as He'.
  { unfold is_link, e', link_index. cbn [if_symlink_attribute if_symlink_index]. destruct link; [|done]. split; [done|]. apply Nat2Z.id. }
  clearbody e'. set (symlinks := if link then _ else _).
  assert (length (m_symlinks fs) <= length symlinks /\ (is_link e' -> length (m_symlinks fs) < length symlinks))%nat as [Hlen Hlen'].
  { unfold symlinks. destruct link; rewrite ?length_app; simpl; [lia|]. split; [lia|]. by intros [? _]%He'. }
  split; cbn [m_symlinks m_paths m_files].
  - unfold symlinks. destruct link; [|done]. apply Forall_app. split; [done|]. apply Forall_singleton. by apply Hsafe.
  - by apply Forall_app.
  - apply Forall_app. split.
    + eapply Forall_impl; [exact Hr|]. cbn. intros x Hx Hlx. specialize (Hx Hlx). lia.
    + apply Forall_singleton. intros Hl'. destruct (He' Hl') as [_ ->]. by apply Hlen'.
  - destruct (decide (is_link e')) as [Hl'|Hl']; [|by rewrite filter_snoc_other].
    rewrite filter_snoc_link, fmap_app by done. apply NoDup_app. split; [done|]. split; [|apply NoDup_singleton].
    destruct (He' Hl') as [_ Hi]. intros k (x & -> & [Hlx Hx]%list_elem_of_filter)%list_elem_of_fmap Hin.
    cbn in Hin. apply list_elem_of_singleton in Hin. rewrite Forall_forall in Hr. specialize (Hr x Hx Hlx). lia.
Qed.

Lemma empty_links l : links_ok (set_piece_length l fs_empty).
Proof. split; [constructor|constructor|constructor|apply NoDup_nil_2]. Qed.
