(* ===== verification/TorrentFiles.v ===== *)
(** * The files of a torrent

    [extern/libtorrent/src/torrent_info.cpp]: from the dictionaries of a torrent to its list of files.  The
    accessors of nodes are those of Bdecode.v; the paths are sanitized by Paths.v and laid
    out by FileStorage.v. *)

From S2P Require Import Prelude Bdecode BdecodeText Paths Net Storage FileStorage Symlinks.

(** [lt::errors]: the codes this part sets. *)
Inductive torrent_error :=
  | torrent_is_no_dict | torrent_missing_info | torrent_info_no_dict | metadata_too_large
  | torrent_missing_piece_length | torrent_missing_name | torrent_file_parse_failed
  | torrent_invalid_name | torrent_invalid_length | no_files_in_torrent | too_many_pieces_in_torrent
  | torrent_missing_pieces | torrent_invalid_hashes
  | unsupported_url_protocol | invalid_escaped_string | invalid_info_hash | missing_info_hash_in_uri
  | expected_close_bracket_in_address | invalid_port.

#[global] Instance torrent_error_eq_dec : EqDecision torrent_error.
Proof. solve_decision. Defined.

(** A function that returns [false] after it has set [ec], or without having set it, or
    goes on with a value. *)
Definition attempt (A : Type) : Type := option torrent_error + A.

(** The last argument of [attempt] chains: what [f] does if the attempt succeeded. *)
Definition and_then {A B} (m : result (attempt A)) (f : A -> result (attempt B)) : result (attempt B) :=
  a ← m; match a with inl e => Ok (inl e) | inr x => f x end.

Notation "' p ↤ m ; f" := (and_then m (fun p => f)) (at level 20, p pattern, m at level 100, f at level 200) : tent_scope.
Notation "x ↤ m ; f" := (and_then m (fun x => f)) (at level 20, m at level 100, f at level 200) : tent_scope.

Definition fails {A} (e : torrent_error) : result (attempt A) := Ok (inl (Some e)).
Definition succeeds {A} (a : A) : result (attempt A) := Ok (inr a).

(** ** Files *)

(** [extern/libtorrent/src/torrent_info.cpp:337-355] get_file_attributes *)
Definition get_file_attributes (dict : bdecode_node) : result Z :=
  attr ← dict_find_string (bytes_of_string "attr") dict;
  if node_bool attr then
    s ← string_value attr;
    Ok (foldl (fun file_flags c => Z.lor file_flags
      (if c =? 108 then flag_symlink else if c =? 120 then flag_executable
       else if c =? 104 then flag_hidden else if c =? 112 then flag_pad_file else 0)) 0 s)
  else Ok 0.

(** [extern/libtorrent/src/torrent_info.cpp:364-373] path_length *)
Fixpoint path_length_loop (n : nat) (i : Z) (p : bdecode_node) (ret : Z) : result (attempt Z) :=
  match n with
  | O => succeeds ret
  | S n' =>
      '(e, p) ← list_at i p;
      t ← node_type_of e;
      if negb (bool_decide (t = string_t)) then fails torrent_invalid_name
      else len ← string_length e; path_length_loop n' (i + 1) p (ret + len)
  end.

(** [extern/libtorrent/src/torrent_info.cpp:360-375] path_length *)
Definition path_length (p : bdecode_node) : result (attempt Z) :=
  '(len, p) ← list_size p;
  ret ↤ path_length_loop (Z.to_nat len) 0 p 0;
  succeeds (ret + len).

(** [extern/libtorrent/src/torrent_info.cpp:443-454] extract_single_file
    The elements from [i] on; [n] are left.  The path and the file name. *)
Fixpoint append_elements (n : nat) (i : Z) (p : bdecode_node) (path filename : bytes) : result (bytes * bytes) :=
  match n with
  | O => Ok (path, filename)
  | S n' =>
      '(e, p) ← list_at i p;
      s ← string_value e;
      let filename := match n' with O => strip_separators s | _ => filename end in
      path ← sanitize_append_path_element path s;
      append_elements n' (i + 1) p path filename
  end.

(** The elements of a list of strings, with its size first. *)
Definition sanitize_list (p : bdecode_node) (path : bytes) : result (bytes * bytes) :=
  '(size, p) ← list_size p; append_elements (Z.to_nat size) 0 p path [].

(** [dict.dict_find_...(key)], and if it is not there that of the second key. *)
Definition prefer (find : bytes -> bdecode_node -> result bdecode_node) (key key' : bytes) (dict : bdecode_node) :
    result bdecode_node :=
  p ← find key dict; if node_bool p then Ok p else find key' dict.

(** [extern/libtorrent/src/torrent_info.cpp:406-430] extract_single_file
    The path of the only file of a torrent: the path and the file name. *)
Definition single_path (dict : bdecode_node) (root_dir : bytes) : result (attempt (bytes * bytes)) :=
  p ← prefer dict_find_string (bytes_of_string "name.utf-8") (bytes_of_string "name") dict;
  if negb (node_bool p) then fails torrent_missing_name
  else
    s ← string_value p;
    if bool_decide (s = []) then fails torrent_missing_name
    else
      path ← sanitize_append_path_element root_dir s;
      if bool_decide (path = []) then fails torrent_missing_name else succeeds (path, strip_separators s).

(** [extern/libtorrent/src/torrent_info.cpp:431-478] extract_single_file
    The path of a file in a list of files: the path, the file name and the counter of the
    pad files. *)
Definition listed_path (dict : bdecode_node) (root_dir : bytes) (file_flags pad_file_cnt : Z) :
    result (attempt (bytes * bytes * Z)) :=
  p ← prefer dict_find_list (bytes_of_string "path.utf-8") (bytes_of_string "path") dict;
  '(size, p) ← (if node_bool p then list_size p else Ok (0, p));
  if 0 <? size then
    _ ↤ path_length p;
    '(path, filename) ← sanitize_list p root_dir;
    succeeds (if (length path =? length root_dir)%nat then path ++ [47; 95] else path, filename, pad_file_cnt)
  else if has_flag file_flags flag_pad_file then
    succeeds (combine_path (bytes_of_string ".pad") (take 9 (decimal_Z pad_file_cnt)), [], pad_file_cnt + 1)
  else fails torrent_missing_name.

(** [extern/libtorrent/src/torrent_info.cpp:489-510] extract_single_file
    The target of a symbolic link and the flags. *)
Definition link_target (dict : bdecode_node) (file_flags : Z) : result (attempt (bytes * Z)) :=
  if has_flag file_flags flag_symlink then
    s_p ← dict_find_list (bytes_of_string "symlink path") dict;
    if node_bool s_p then
      _ ↤ path_length s_p;
      '(target, _) ← sanitize_list s_p [];
      succeeds (target, file_flags)
    else succeeds ([], file_flags)
  else succeeds ([], file_flags).

(** [path.substr(path.size() - filename.size()) == filename] *)
Definition is_suffix (filename path : bytes) : bool :=
  (length filename <=? length path)%nat && bool_decide (drop (length path - length filename) path = filename).

(** [extern/libtorrent/src/torrent_info.cpp:382-522] extract_single_file
    The files and the counter of the pad files. *)
Definition extract_single_file (dict : bdecode_node) (files : file_storage) (root_dir : bytes) (top_level : bool)
    (pad_file_cnt : Z) : result (attempt (file_storage * Z)) :=
  t ← node_type_of dict;
  if negb (bool_decide (t = dict_t)) then Ok (inl None)
  else
    file_flags ← get_file_attributes dict;
    file_size ← (if has_flag file_flags flag_symlink then Ok 0
                 else dict_find_int_value (bytes_of_string "length") (-1) dict);
    if file_size <? 0 then fails torrent_invalid_length
    else
      mtime ← dict_find_int_value (bytes_of_string "mtime") 0 dict;
      '(path, filename, pad_file_cnt) ↤
        (if top_level then '(path, filename) ↤ single_path dict root_dir; succeeds (path, filename, pad_file_cnt)
         else listed_path dict root_dir file_flags pad_file_cnt);
      let file_flags :=
        match find_str (bytes_of_string "_____padding_file_") path with
        | Some _ => Z.lor file_flags flag_pad_file | None => file_flags
        end in
      fh ← dict_find_string (bytes_of_string "sha1") dict;
      filehash ← (if node_bool fh then
                    s ← string_value fh; Ok (if (length s =? 20)%nat then Some s else None)
                  else Ok None);
      '(symlink_path, file_flags) ↤ link_target dict file_flags;
      let filename := if is_suffix filename path then filename else [] in
      succeeds (add_file_borrow filename path file_size file_flags filehash mtime symlink_path files, pad_file_cnt).

(** [extern/libtorrent/src/torrent_info.cpp:538-543] extract_files *)
Fixpoint extract_loop (n : nat) (i : Z) (list : bdecode_node) (target : file_storage) (root_dir : bytes) (pad_file_cnt : Z) :
    result (attempt file_storage) :=
  match n with
  | O => succeeds target
  | S n' =>
      '(e, list) ← list_at i list;
      '(target, pad_file_cnt) ↤ extract_single_file e target root_dir false pad_file_cnt;
      extract_loop n' (i + 1) list target root_dir pad_file_cnt
  end.

(** [extern/libtorrent/src/torrent_info.cpp:526-547] extract_files *)
Definition extract_files (list : bdecode_node) (target : file_storage) (root_dir : bytes) : result (attempt file_storage) :=
  t ← node_type_of list;
  if negb (bool_decide (t = list_t)) then fails torrent_file_parse_failed
  else
    '(size, list) ← list_size list;
    target ↤ extract_loop (Z.to_nat size) 0 list target root_dir 0;
    target ← sanitize_symlinks target; succeeds target.
