(* ===== verification/Magnet.v ===== *)
(** * Magnet links

    [extern/libtorrent/src/magnet_uri.cpp]: a torrent file may hold a magnet link instead
    of the torrent; [torrent_info] takes the info hash and the trackers from it.  Peers
    named by address ([x.pe]) are left out: they need the parser of addresses of the boost
    library, and nothing reads them here. *)

From S2P Require Import Prelude MsgFactory Bdecode TorrentFiles.

(** ** Strings *)

(** The rest of a quoted part, its closing quote not counted. *)
Fixpoint quoted (s : bytes) : nat :=
  match s with
  | [] => 0
  | c :: s' => S (if c =? 34 then 0%nat else quoted s')
  end.

(** The characters before the separator, and whether it is there. *)
Fixpoint find_separator (sep : Z) (s : bytes) : nat * bool :=
  match s with
  | [] => (0%nat, false)
  | c :: s' => if c =? sep then (0%nat, true) else let '(n, found) := find_separator sep s' in (S n, found)
  end.

(** [extern/libtorrent/src/string_util.cpp:343-367] split_string
    A quoted part at the front may hold separators. *)
Definition split_string (last : bytes) (sep : Z) : bytes * bytes :=
  match last with
  | [] => ([], [])
  | c :: rest =>
      let pos := if (c =? 34) && negb (sep =? 34) then quoted rest else 0%nat in
      let '(n, found_sep) := find_separator sep (drop pos last) in
      (take (pos + n) last, drop (pos + n + (if found_sep then 1 else 0)) last)
  end.

(** [extern/libtorrent/src/hex.cpp:39-45] hex_to_int *)
Definition hex_to_int (c : Z) : option Z :=
  if (48 <=? c) && (c <=? 57) then Some (c - 48)
  else if (65 <=? c) && (c <=? 70) then Some (c - 65 + 10)
  else if (97 <=? c) && (c <=? 102) then Some (c - 97 + 10)
  else None.

(** [extern/libtorrent/src/hex.cpp:57-70] from_hex
    What is written over the front of [out], and whether all characters were digits. *)
Fixpoint from_hex (hex out : bytes) : bytes * bool :=
  match hex, out with
  | a :: b :: hex', _ :: out' =>
      match hex_to_int a with
      | None => (out, false)
      | Some t1 =>
          match hex_to_int b with
          | None => (u8 (Z.shiftl t1 4) :: out', false)
          | Some t2 => let '(rest, ok) := from_hex hex' out' in (Z.lor (u8 (Z.shiftl t1 4)) (Z.land t2 15) :: rest, ok)
          end
      end
  | _, _ => (out, true)
  end.

(** [extern/libtorrent/src/escape_string.cpp:66-116] unescape_string
    What has been read so far is returned with the error, too. *)
Fixpoint unescape_string (s : bytes) : bytes * option torrent_error :=
  match s with
  | [] => ([], None)
  | c :: s' =>
      if c =? 43 then let '(ret, e) := unescape_string s' in (32 :: ret, e)
      else if negb (c =? 37) then let '(ret, e) := unescape_string s' in (c :: ret, e)
      else
        match s' with
        | [] => ([], Some invalid_escaped_string)
        | h :: s'' =>
            match hex_to_int h, s'' with
            | Some high, l :: s3 =>
                match hex_to_int l with
                | Some low => let '(ret, e) := unescape_string s3 in (u8 (high * 16 + low) :: ret, e)
                | None => ([], Some invalid_escaped_string)
                end
            | _, _ => ([], Some invalid_escaped_string)
            end
        end
  end.

(** [extern/libtorrent/src/escape_string.cpp:123-134] unreserved_chars *)
Definition unreserved_chars : bytes :=
  bytes_of_string "%+;?:@=&,$/-_!.~*()ABCDEFGHIJKLMNOPQRSTUVWXYZabcdefghijklmnopqrstuvwxyz0123456789".

(** [extern/libtorrent/src/escape_string.cpp:139-162] escape_string_impl
    The characters from [offset] on stay as they are. *)
Fixpoint escape_string_impl (str : bytes) (offset : nat) : bytes :=
  match str with
  | [] => []
  | c :: str' =>
      (if bool_decide (c ∈ drop offset unreserved_chars) then [c] else 37 :: to_hex [c]) ++ escape_string_impl str' offset
  end.

(** [extern/libtorrent/src/escape_string.cpp:166-169] escape_string *)
Definition escape_string (str : bytes) : bytes := escape_string_impl str 11.

(** [std::toupper] in the C locale *)
Definition to_upper (c : Z) : Z := if (97 <=? c) && (c <=? 122) then c - 97 + 65 else c.

(** [extern/libtorrent/src/escape_string.cpp:415-432] base32decode
    The input of one group: [j] characters are read, [pad_start] is where padding began;
    nothing when a character is not of the alphabet. *)
Fixpoint base32_input (s : bytes) (j pad_start : Z) : option (bytes * Z) :=
  match s with
  | [] => Some ([], pad_start)
  | c :: s' =>
      let c := to_upper c in
      let go b pad_start := '(inbuf, pad) ← base32_input s' (j + 1) pad_start; Some ((b : Z) :: inbuf, pad) in
      if (65 <=? c) && (c <=? 90) then go (c - 65) pad_start
      else if (50 <=? c) && (c <=? 55) then go (c - 50 + (90 - 65) + 1) pad_start
      else if c =? 61 then go 0 (if pad_start =? 0 then j else pad_start)
      else if c =? 49 then go (73 - 65) pad_start
      else None
  end.

(** [extern/libtorrent/src/escape_string.cpp:434-446] base32decode *)
Definition base32_output (i : nat -> Z) : bytes :=
  [ Z.lor (u8 (Z.shiftl (i 0%nat) 3)) (Z.shiftr (i 1%nat) 2);
    Z.lor (Z.lor (u8 (Z.shiftl (Z.land (i 1%nat) 3) 6)) (Z.shiftl (i 2%nat) 1)) (Z.shiftr (Z.land (i 3%nat) 16) 4);
    Z.lor (u8 (Z.shiftl (Z.land (i 3%nat) 15) 4)) (Z.shiftr (Z.land (i 4%nat) 30) 1);
    Z.lor (Z.lor (u8 (Z.shiftl (Z.land (i 4%nat) 1) 7)) (Z.shiftl (Z.land (i 5%nat) 31) 2)) (Z.shiftr (Z.land (i 6%nat) 24) 3);
    Z.lor (u8 (Z.shiftl (Z.land (i 6%nat) 7) 5)) (i 7%nat) ].

(** [extern/libtorrent/src/escape_string.cpp:448-448] base32decode *)
Definition input_output_mapping : list nat := [5; 1; 1; 2; 2; 3; 4; 4; 5]%nat.

(** [extern/libtorrent/src/escape_string.cpp:400-455] base32decode
    [n] bounds the groups of eight characters. *)
Fixpoint base32_groups (n : nat) (s : bytes) : option bytes :=
  match n, s with
  | S n', _ :: _ =>
      let available_input := Z.min 8 (Z.of_nat (length s)) in
      '(inbuf, pad_start) ← base32_input (take 8 s) 0 (if available_input <? 8 then available_input else 0);
      let num_out := nth (Z.to_nat pad_start) input_output_mapping 0%nat in
      rest ← base32_groups n' (drop 8 s);
      Some (take num_out (base32_output (fun j => nth j inbuf 0)) ++ rest)
  | _, _ => Some []
  end.

(** [extern/libtorrent/src/escape_string.cpp:400-455] base32decode
    A character outside the alphabet makes the result empty. *)
Definition base32decode (s : bytes) : bytes := default [] (base32_groups (length s) s).

(** [std::atoi], which leaves open what happens to a number that is no [int]. *)
Definition atoi (s : bytes) : result Z :=
  let n := (signed_digits s).2 in
  if (- 2 ^ 31 <=? n) && (n <? 2 ^ 31) then Ok n else Fault SignedOverflow.

(** ** The parameters of a torrent *)

(** [extern/libtorrent/include/libtorrent/add_torrent_params.hpp:137-300] add_torrent_params
    The fields a magnet link sets. *)
Record magnet_params := mk_magnet {
  mg_name : bytes;
  mg_trackers : list bytes;
  mg_tracker_tiers : list Z;
  mg_url_seeds : list bytes;
  mg_info_hash : bytes;
  mg_file_priorities : list Z;
  mg_dht_nodes : list (bytes * Z);
}.

Definition magnet_empty : magnet_params := mk_magnet [] [] [] [] (replicate 20 0) [] [].

(** The state of the loop: [display_name] is kept in [mg_name]. *)
Record magnet_state := mk_magnet_state { ms_params : magnet_params; ms_tier : Z; ms_has_ih : bool }.

Definition set_mg_name (v : bytes) (p : magnet_params) : magnet_params :=
  mk_magnet v (mg_trackers p) (mg_tracker_tiers p) (mg_url_seeds p) (mg_info_hash p) (mg_file_priorities p) (mg_dht_nodes p).
Definition set_mg_trackers (v : list bytes) (tiers : list Z) (p : magnet_params) : magnet_params :=
  mk_magnet (mg_name p) v tiers (mg_url_seeds p) (mg_info_hash p) (mg_file_priorities p) (mg_dht_nodes p).
Definition set_mg_url_seeds (v : list bytes) (p : magnet_params) : magnet_params :=
  mk_magnet (mg_name p) (mg_trackers p) (mg_tracker_tiers p) v (mg_info_hash p) (mg_file_priorities p) (mg_dht_nodes p).
Definition set_mg_info_hash (v : bytes) (p : magnet_params) : magnet_params :=
  mk_magnet (mg_name p) (mg_trackers p) (mg_tracker_tiers p) (mg_url_seeds p) v (mg_file_priorities p) (mg_dht_nodes p).
Definition set_mg_file_priorities (v : list Z) (p : magnet_params) : magnet_params :=
  mk_magnet (mg_name p) (mg_trackers p) (mg_tracker_tiers p) (mg_url_seeds p) (mg_info_hash p) v (mg_dht_nodes p).
Definition set_mg_dht_nodes (v : list (bytes * Z)) (p : magnet_params) : magnet_params :=
  mk_magnet (mg_name p) (mg_trackers p) (mg_tracker_tiers p) (mg_url_seeds p) (mg_info_hash p) (mg_file_priorities p) v.

Definition with_params (f : magnet_params -> magnet_params) (st : magnet_state) : magnet_state :=
  mk_magnet_state (f (ms_params st)) (ms_tier st) (ms_has_ih st).

(** [std::vector::resize] *)
Definition resized {A} (n : nat) (a : A) (l : list A) : list A := take n (l ++ replicate (n - length l) a).

(** ** One parameter of the link *)

(** [extern/libtorrent/src/magnet_uri.cpp:203-216] parse_magnet_uri *)
Definition magnet_tracker (value : bytes) (st : magnet_state) : magnet_state :=
  let p := ms_params st in
  let tiers :=
    if bool_decide (length (mg_tracker_tiers p) = length (mg_trackers p)) then mg_tracker_tiers p
    else resized (length (mg_trackers p)) 0 (mg_tracker_tiers p) in
  match unescape_string value with
  | (tracker, None) => mk_magnet_state (set_mg_trackers (mg_trackers p ++ [tracker]) (tiers ++ [ms_tier st]) p) (ms_tier st + 1) (ms_has_ih st)
  | (_, Some _) => mk_magnet_state (set_mg_trackers (mg_trackers p) tiers p) (ms_tier st) (ms_has_ih st)
  end.

(** [extern/libtorrent/src/magnet_uri.cpp:217-222] parse_magnet_uri *)
Definition magnet_seed (value : bytes) (p : magnet_params) : magnet_params :=
  match unescape_string value with
  | (webseed, None) => set_mg_url_seeds (mg_url_seeds p ++ [webseed]) p
  | (_, Some _) => p
  end.

(** [extern/libtorrent/src/magnet_uri.cpp:223-255] parse_magnet_uri
    Nothing looks at the result of [from_hex]. *)
Definition magnet_hash (value : bytes) (st : magnet_state) : torrent_error + magnet_state :=
  match (if bool_decide (37 ∈ value) then unescape_string value else (value, None)) with
  | (_, Some e) => inl e
  | (value, None) =>
      if negb (bool_decide (take 9 value = bytes_of_string "urn:btih:")) then inr st
      else
        let value := drop 9 value in
        let found h := inr (mk_magnet_state (set_mg_info_hash h (ms_params st)) (ms_tier st) true) in
        if bool_decide (length value = 40%nat) then found (from_hex value (replicate 20 0)).1
        else if bool_decide (length value = 32%nat) then
          let ih := base32decode value in
          if bool_decide (length ih = 20%nat) then found ih else inl invalid_info_hash
        else inl invalid_info_hash
  end.

Definition max_index : Z := 10000.
Definition default_priority : Z := 4.
Definition dont_download : Z := 0.

(** The position of a character. *)
Fixpoint find_char (c : Z) (s : bytes) : option nat :=
  match s with [] => None | d :: s' => if d =? c then Some 0%nat else S <$> find_char c s' end.

Definition index_ok (i : Z) : bool := (0 <=? i) && (i <=? max_index).

(** [extern/libtorrent/src/magnet_uri.cpp:268-298] parse_magnet_uri
    The first and the last index of a token, if it is valid. *)
Definition magnet_range (token : bytes) : result (option (Z * Z)) :=
  if bool_decide (token = []) then Ok None
  else
    match find_char 45 token with
    | Some divider =>
        if bool_decide (divider = 0%nat) || bool_decide (divider = (length token - 1)%nat) then Ok None
        else
          idx1 ← atoi (take divider token);
          if negb (index_ok idx1) then Ok None
          else
            idx2 ← atoi (drop (divider + 1) token);
            Ok (if negb (index_ok idx2) || (idx2 <? idx1) then None else Some (idx1, idx2))
    | None =>
        idx1 ← atoi token;
        Ok (if negb (index_ok idx1) then None else Some (idx1, idx1))
    end.

(** [extern/libtorrent/src/magnet_uri.cpp:300-304] parse_magnet_uri *)
Definition select_files (idx1 idx2 : Z) (priorities : list Z) : list Z :=
  let priorities :=
    if Z.of_nat (length priorities) <=? idx2 then resized (Z.to_nat (idx2 + 1)) dont_download priorities else priorities in
  foldl (fun l i => <[Z.to_nat i := default_priority]> l) priorities (seqZ idx1 (idx2 - idx1 + 1)).

(** [extern/libtorrent/src/magnet_uri.cpp:263-306] parse_magnet_uri
    Every turn but the last shortens [value]. *)
Fixpoint select_loop (fuel : nat) (value : bytes) (priorities : list Z) : result (list Z) :=
  match fuel with
  | O => Fault OutOfFuel
  | S fuel' =>
      let '(token, value) := split_string value 44 in
      r ← magnet_range token;
      let priorities := match r with Some (idx1, idx2) => select_files idx1 idx2 priorities | None => priorities end in
      match value with [] => Ok priorities | _ => select_loop fuel' value priorities end
  end.

(** [extern/libtorrent/src/magnet_uri.cpp:256-307] parse_magnet_uri *)
Definition magnet_select (value : bytes) (p : magnet_params) : result magnet_params :=
  if negb (forallb (fun c => numeric c || (c =? 45) || (c =? 44)) value) then Ok p
  else
    priorities ← select_loop (S (length value)) value (mg_file_priorities p);
    Ok (set_mg_file_priorities priorities p).

(** The position of the last occurrence of a character. *)
Definition find_last (c : Z) (s : bytes) : option nat := (fun i => (length s - 1 - i)%nat) <$> find_char c (reverse s).

(** [extern/libtorrent/src/magnet_uri.cpp:315-324] parse_magnet_uri *)
Definition magnet_node (value : bytes) (p : magnet_params) : result magnet_params :=
  match find_last 58 value with
  | None => Ok p
  | Some divider =>
      port ← atoi (drop (divider + 1) value);
      Ok (if (0 <? port) && (port <? 65535) then set_mg_dht_nodes (mg_dht_nodes p ++ [(take divider value, port)]) p else p)
  end.

(** [extern/libtorrent/src/magnet_uri.cpp:188-196] parse_magnet_uri
    A suffix of digits after a period is dropped. *)
Definition parameter_name (name : bytes) : bytes :=
  let '(stripped_name, number) := split_string name 46 in
  if forallb numeric number then stripped_name else name.

(** [extern/libtorrent/src/magnet_uri.cpp:198-325] parse_magnet_uri *)
Definition magnet_parameter (name value : bytes) (st : magnet_state) : result (torrent_error + magnet_state) :=
  let named s := bool_decide (name = bytes_of_string s) in
  if named "dn"%string then Ok (inr (with_params (set_mg_name (unescape_string value).1) st))
  else if named "tr"%string then Ok (inr (magnet_tracker value st))
  else if named "ws"%string then Ok (inr (with_params (magnet_seed value) st))
  else if named "xt"%string then Ok (magnet_hash value st)
  else if named "so"%string then p ← magnet_select value (ms_params st); Ok (inr (with_params (fun _ => p) st))
  else if named "dht"%string then p ← magnet_node value (ms_params st); Ok (inr (with_params (fun _ => p) st))
  else Ok (inr st).

(** [extern/libtorrent/src/magnet_uri.cpp:181-326] parse_magnet_uri
    Every turn shortens [sv]. *)
Fixpoint magnet_loop (fuel : nat) (sv : bytes) (st : magnet_state) : result (torrent_error + magnet_state) :=
  match sv with
  | [] => Ok (inr st)
  | _ =>
      match fuel with
      | O => Fault OutOfFuel
      | S fuel' =>
          let '(name, sv) := split_string sv 61 in
          let '(value, sv) := split_string sv 38 in
          r ← magnet_parameter (parameter_name name) value st;
          match r with inl ec => Ok (inl ec) | inr st => magnet_loop fuel' sv st end
      end
  end.

(** [extern/libtorrent/src/magnet_uri.cpp:166-335] parse_magnet_uri *)
Definition parse_magnet_uri (uri : bytes) : result (torrent_error + magnet_params) :=
  if negb (bool_decide (take 8 uri = bytes_of_string "magnet:?")) then Ok (inl unsupported_url_protocol)
  else
    r ← magnet_loop (length uri) (drop 8 uri) (mk_magnet_state magnet_empty 0 false);
    match r with
    | inl ec => Ok (inl ec)
    | inr st => Ok (if ms_has_ih st then inr (ms_params st) else inl missing_info_hash_in_uri)
    end.

(** [extern/libtorrent/include/libtorrent/torrent_info.hpp:68-107] web_seed_entry
    The URL and the kind; the authentication, the headers and the state are not set here. *)
Inductive web_seed_type := url_seed | http_seed.
Record web_seed_entry := mk_web_seed { ws_url : bytes; ws_type : web_seed_type }.

#[global] Instance web_seed_type_eq_dec : EqDecision web_seed_type.
Proof. solve_decision. Defined.

(** [extern/libtorrent/src/magnet_uri.cpp:76-106] make_magnet_uri
    Of a torrent with this info hash, name, trackers and web seeds. *)
Definition make_magnet_uri (info_hash name : bytes) (trackers : list bytes) (web_seeds : list web_seed_entry) : bytes :=
  bytes_of_string "magnet:?xt=urn:btih:" ++ to_hex info_hash ++
  (if bool_decide (name = []) then [] else bytes_of_string "&dn=" ++ escape_string name) ++
  concat (map (fun tr => bytes_of_string "&tr=" ++ escape_string tr) trackers) ++
  concat (map (fun s => if bool_decide (ws_type s <> url_seed) then [] else bytes_of_string "&ws=" ++ escape_string (ws_url s)) web_seeds).
