(* ===== verification/MagnetSpec.v ===== *)
(** * What a magnet link says

    Reading a magnet link returns on every string, up to numbers too large for an [int],
    and what it returns is well formed; the link made for a torrent is read back as its
    name, hash, trackers and web seeds. *)

From S2P Require Import Prelude MsgFactory Bdecode TorrentFiles Magnet.

(** ** Splitting *)

Lemma find_separator_app sep a b : sep ∉ a -> find_separator sep (a ++ sep :: b) = (length a, true).
Proof.
  induction a as [|c a IH]; simpl; intros H; [by rewrite Z.eqb_refl|]. apply not_elem_of_cons in H as [Hc H].
  rewrite (proj2 (Z.eqb_neq c sep)) by done. by rewrite IH.
Qed.

Lemma find_separator_none sep a : sep ∉ a -> find_separator sep a = (length a, false).
Proof.
  induction a as [|c a IH]; simpl; intros H; [done|]. apply not_elem_of_cons in H as [Hc H].
  rewrite (proj2 (Z.eqb_neq c sep)) by done. by rewrite IH.
Qed.

(** No separator and no quote at the front. *)
Definition splits (sep : Z) (a : bytes) : Prop := (sep ∉ a) /\ 34 ∉ a.

Lemma split_string_app sep a b : splits sep a -> sep <> 34 -> split_string (a ++ sep :: b) sep = (a, b).
Proof.
  intros [Hs Hq] Hne. unfold split_string. destruct (a ++ sep :: b) as [|c rest] eqn:E; [by destruct a|].
  assert (c <> 34) as Hc by (destruct a as [|c' a]; injection E as -> _; [done|set_solver]).
  rewrite (proj2 (Z.eqb_neq c 34)) by done. cbn [andb]. rewrite drop_0, <- E, find_separator_app by done. cbn [Nat.add].
  rewrite take_app_length. replace (length a + 1)%nat with (length (a ++ [sep])) by (rewrite length_app; simpl; lia).
  change (a ++ sep :: b) with (a ++ [sep] ++ b). by rewrite app_assoc, drop_app_length.
Qed.

Lemma split_string_none sep a : splits sep a -> split_string a sep = (a, []).
Proof.
  intros [Hs Hq]. unfold split_string. destruct a as [|c rest] eqn:E; [done|].
  assert (c <> 34) as Hc by set_solver. rewrite (proj2 (Z.eqb_neq c 34)) by done. cbn [andb].
  rewrite drop_0, find_separator_none by done. rewrite take_ge, drop_ge by lia. done.
Qed.

(** Splitting takes at least a character off a string that has one. *)
Lemma split_string_length sep s a b : split_string s sep = (a, b) -> (length b <= length s)%nat /\ (s <> [] -> (length b < length s)%nat).
Proof.
  unfold split_string. destruct s as [|c rest]; [by intros [= <- <-]|].
  set (pos := if _ && _ then quoted rest else 0%nat). destruct (find_separator sep (drop pos (c :: rest))) as [n found] eqn:E.
  intros [= <- <-]. rewrite length_drop. split; [lia|]. intros _. cbn [length].
  assert (0 < pos + n + (if found then 1 else 0))%nat; [|lia].
  destruct found; [lia|]. destruct pos as [|pos]; [|lia]. rewrite drop_0 in E. cbn [find_separator] in E.
  destruct (c =? sep); [done|]. destruct (find_separator sep rest). injection E as <- _. lia.
Qed.

(** ** Escaping *)

Lemma hex_byte c : byte_ok c -> exists a b, to_hex [c] = [a; b] /\ hex_to_int a = Some (Z.shiftr c 4) /\
  hex_to_int b = Some (Z.land c 15) /\ u8 (Z.shiftr c 4 * 16 + Z.land c 15) = c /\
  Z.lor (u8 (Z.shiftl (Z.shiftr c 4) 4)) (Z.land (Z.land c 15) 15) = c.
Proof.
  intros Hc. exists (nth (Z.to_nat (Z.shiftr c 4)) hex_chars 0), (nth (Z.to_nat (Z.land c 15)) hex_chars 0). split; [done|].
  assert (forallb (fun c => bool_decide (hex_to_int (nth (Z.to_nat (Z.shiftr c 4)) hex_chars 0) = Some (Z.shiftr c 4) /\
    hex_to_int (nth (Z.to_nat (Z.land c 15)) hex_chars 0) = Some (Z.land c 15) /\ u8 (Z.shiftr c 4 * 16 + Z.land c 15) = c /\
    Z.lor (u8 (Z.shiftl (Z.shiftr c 4) 4)) (Z.land (Z.land c 15) 15) = c)) (seqZ 0 256) = true) as H by by vm_compute.
  rewrite forallb_forall in H. apply (bool_decide_unpack _), Is_true_true, H, list_elem_of_In, elem_of_seqZ. unfold byte_ok in Hc. lia.
Qed.

Lemma escape_string_cons c s :
  escape_string (c :: s) = (if bool_decide (c ∈ drop 11 unreserved_chars) then [c] else 37 :: to_hex [c]) ++ escape_string s.
Proof. done. Qed.

Lemma unreserved_plain c : c ∈ drop 11 unreserved_chars -> c <> 34 /\ c <> 37 /\ c <> 38 /\ c <> 43 /\ c <> 61.
Proof.
  intros Hc. assert (Forall (fun c => c <> 34 /\ c <> 37 /\ c <> 38 /\ c <> 43 /\ c <> 61) (drop 11 unreserved_chars)) as H by decide_by_computation.
  rewrite Forall_forall in H. by apply H.
Qed.

Lemma hex_chars_plain n : nth n hex_chars 0 <> 34 /\ nth n hex_chars 0 <> 38 /\ nth n hex_chars 0 <> 61 /\ nth n hex_chars 0 <> 37.
Proof.
  assert (Forall (fun c => c <> 34 /\ c <> 38 /\ c <> 61 /\ c <> 37) (0 :: hex_chars)) as H by decide_by_computation.
  rewrite Forall_forall in H. apply H. destruct (nth_in_or_default n hex_chars 0) as [Hin| ->]; [|by left].
  right. by apply list_elem_of_In.
Qed.

Lemma unescape_escape s : bytes_ok s -> unescape_string (escape_string s) = (s, None).
Proof.
  induction s as [|c s IH]; intros Hs; [done|]. apply Forall_cons in Hs as [Hc Hs]. rewrite escape_string_cons.
  case_bool_decide as Hu.
  - destruct (unreserved_plain c Hu) as (_ & H37 & _ & H43 & _). cbn [app unescape_string].
    rewrite (proj2 (Z.eqb_neq c 43)), (proj2 (Z.eqb_neq c 37)) by done. cbn [negb]. by rewrite IH.
  - destruct (hex_byte c Hc) as (a & b & E & Ha & Hb & Hv & _). rewrite E. cbn [app unescape_string Z.eqb Pos.eqb negb].
    by rewrite Ha, Hb, IH, Hv.
Qed.

Lemma escape_splits s : splits 38 (escape_string s) /\ splits 61 (escape_string s).
Proof.
  assert (Forall (fun c => c <> 34 /\ c <> 38 /\ c <> 61) (escape_string s)) as H.
  { induction s as [|c s IH]; [constructor|]. rewrite escape_string_cons. apply Forall_app. split; [|done].
    case_bool_decide as Hu; [apply Forall_singleton; by destruct (unreserved_plain c Hu) as (? & _ & ? & _ & ?)|].
    cbn [to_hex]. apply Forall_cons. split; [done|].
    apply Forall_cons. split; [|apply Forall_singleton]; by match goal with |- nth ?n _ _ <> _ /\ _ => destruct (hex_chars_plain n) as (? & ? & ? & _) end. }
  rewrite Forall_forall in H. split; split; intros Hin; apply H in Hin; naive_solver.
Qed.

Lemma from_hex_to_hex l : forall out, bytes_ok l -> length out = length l -> from_hex (to_hex l) out = (l, true).
Proof.
  induction l as [|c l IH]; intros out Hl Ho; [by destruct out|]. apply Forall_cons in Hl as [Hc Hl].
  destruct out as [|o out]; [done|]. injection Ho as Ho. destruct (hex_byte c Hc) as (a & b & E & Ha & Hb & _ & Hv).
  change (to_hex (c :: l)) with (to_hex [c] ++ to_hex l). rewrite E. cbn [app from_hex]. by rewrite Ha, Hb, IH, Hv.
Qed.

(** ** A link is a sequence of parameters *)

Definition segment (p : bytes * bytes) : bytes := p.1 ++ 61 :: p.2.

Definition link (first : bytes * bytes) (rest : list (bytes * bytes)) : bytes :=
  segment first ++ concat (map (fun p => 38 :: segment p) rest).

Definition plain_parameter (p : bytes * bytes) : Prop := splits 61 p.1 /\ splits 38 p.2.

(** The parameters handled one after the other. *)
Fixpoint all_parameters (ps : list (bytes * bytes)) (st : magnet_state) : result (torrent_error + magnet_state) :=
  match ps with
  | [] => Ok (inr st)
  | p :: ps' =>
      r ← magnet_parameter (parameter_name p.1) p.2 st;
      match r with inl ec => Ok (inl ec) | inr st => all_parameters ps' st end
  end.

Lemma magnet_loop_link rest : forall fuel first st, plain_parameter first -> Forall plain_parameter rest -> (length rest < fuel)%nat ->
  magnet_loop fuel (link first rest) st = all_parameters (first :: rest) st.
Proof.
  induction rest as [|p rest IH]; intros fuel first st [Hn Hv] Hr Hf; (destruct fuel as [|fuel]; [simpl in Hf; lia|]);
    unfold link, segment at 1; destruct first as [name value]; cbn [fst snd map concat] in *.
  - rewrite app_nil_r. cbn [magnet_loop]. destruct (name ++ 61 :: value) eqn:E; [by destruct name|]. rewrite <- E.
    rewrite split_string_app by done. rewrite split_string_none by done. cbn [all_parameters fst snd].
    destruct (magnet_parameter _ _ _) as [[e|st']|f]; [done| |done]. cbn [mbind result_bind]. by destruct fuel.
  - apply Forall_cons in Hr as [Hp Hr]. rewrite <- app_assoc. cbn [app]. cbn [magnet_loop].
    destruct (name ++ 61 :: _) eqn:E; [by destruct name|]. rewrite <- E.
    rewrite split_string_app by done. rewrite split_string_app by done. cbn [all_parameters fst snd].
    destruct (magnet_parameter _ _ _) as [[e|st']|f]; [done| |done]. cbn [mbind result_bind].
    fold (link p rest). rewrite IH by (done || (simpl in Hf; lia)). done.
Qed.

(** The parameters [make_magnet_uri] writes after the hash. *)
Definition made_parameters (name : bytes) (trackers web_seeds : list bytes) : list (bytes * bytes) :=
  (if bool_decide (name = []) then [] else [(bytes_of_string "dn", escape_string name)]) ++
  map (fun tr => (bytes_of_string "tr", escape_string tr)) trackers ++
  map (fun s => (bytes_of_string "ws", escape_string s)) web_seeds.

Definition hash_parameter (info_hash : bytes) : bytes * bytes :=
  (bytes_of_string "xt", bytes_of_string "urn:btih:" ++ to_hex info_hash).

(** The URLs of the seeds the link names; seeds over HTTP ([httpseeds]) have no place in it. *)
Definition url_seeds (web_seeds : list web_seed_entry) : list bytes :=
  map ws_url (filter (fun s => ws_type s = url_seed) web_seeds).

Lemma write_seeds web_seeds :
  concat (map (fun s => if bool_decide (ws_type s <> url_seed) then [] else bytes_of_string "&ws=" ++ escape_string (ws_url s)) web_seeds) =
  concat (map (fun s => bytes_of_string "&ws=" ++ escape_string s) (url_seeds web_seeds)).
Proof.
  unfold url_seeds. induction web_seeds as [|s web_seeds IH]; [done|]. cbn [map concat]. rewrite IH. destruct (decide (ws_type s = url_seed)) as [E|E].
  - rewrite bool_decide_false by (by intros Hn). rewrite filter_cons_True by done. done.
  - rewrite bool_decide_true by done. rewrite filter_cons_False by done. done.
Qed.

Lemma make_magnet_link info_hash name trackers web_seeds : make_magnet_uri info_hash name trackers web_seeds =
  bytes_of_string "magnet:?" ++ link (hash_parameter info_hash) (made_parameters name trackers (url_seeds web_seeds)).
Proof.
  unfold make_magnet_uri. rewrite write_seeds. generalize (url_seeds web_seeds). clear. intros web_seeds.
  unfold link, made_parameters, hash_parameter, segment. cbn [fst snd].
  rewrite !map_app, !concat_app, !map_map. case_bool_decide; cbn [map concat]; rewrite ?app_nil_r, <- ?app_assoc; done.
Qed.

Lemma all_parameters_app ps qs st : all_parameters (ps ++ qs) st =
  (r ← all_parameters ps st; match r with inl ec => Ok (inl ec) | inr st => all_parameters qs st end).
Proof.
  revert st. induction ps as [|p ps IH]; intros st; [done|]. cbn [app all_parameters].
  destruct (magnet_parameter _ _ _) as [[e|st']|f]; [done|apply IH|done].
Qed.

(** Each tracker has the tier of its place. *)
Definition tiers_ok (st : magnet_state) : Prop :=
  mg_tracker_tiers (ms_params st) = seqZ 0 (Z.of_nat (length (mg_trackers (ms_params st)))) /\
  ms_tier st = Z.of_nat (length (mg_trackers (ms_params st))).

Lemma seqZ_snoc n : seqZ 0 (Z.of_nat n) ++ [Z.of_nat n] = seqZ 0 (Z.of_nat (n + 1)).
Proof. rewrite Nat2Z.inj_add, seqZ_app by lia. done. Qed.

Lemma magnet_tracker_ok value st : tiers_ok st -> tiers_ok (magnet_tracker value st) /\
  ms_has_ih (magnet_tracker value st) = ms_has_ih st /\
  exists trs, ms_params (magnet_tracker value st) = set_mg_trackers (mg_trackers (ms_params st) ++ trs)
    (seqZ 0 (Z.of_nat (length (mg_trackers (ms_params st) ++ trs)))) (ms_params st) /\
    (forall tr, unescape_string value = (tr, None) -> trs = [tr]).
Proof.
  intros [Ht Hn]. unfold magnet_tracker, tiers_ok. rewrite bool_decide_true by (rewrite Ht, length_seqZ; lia).
  rewrite Ht, Hn. destruct (unescape_string value) as [tr [e|]]; cbn [ms_params ms_tier ms_has_ih set_mg_trackers mg_tracker_tiers mg_trackers].
  - split; [done|]. split; [done|]. exists []. by rewrite app_nil_r.
  - rewrite length_app. cbn [length]. rewrite seqZ_snoc. split; [split; [done|lia]|]. split; [done|].
    exists [tr]. rewrite length_app. split; [done|by intros ? [= ->]].
Qed.

Lemma all_trackers trs : forall st, tiers_ok st -> Forall bytes_ok trs -> exists st',
  all_parameters (map (fun tr => (bytes_of_string "tr", escape_string tr)) trs) st = Ok (inr st') /\ tiers_ok st' /\
  ms_has_ih st' = ms_has_ih st /\
  ms_params st' = set_mg_trackers (mg_trackers (ms_params st) ++ trs) (seqZ 0 (Z.of_nat (length (mg_trackers (ms_params st) ++ trs)))) (ms_params st).
Proof.
  induction trs as [|tr trs IH]; intros st Hst Hok.
  - exists st. rewrite app_nil_r. split; [done|]. split; [done|]. split; [done|]. rewrite <- (proj1 Hst). by destruct (ms_params st).
  - apply Forall_cons in Hok as [Htr Hok].
    destruct (magnet_tracker_ok (escape_string tr) st Hst) as (H1 & Hih & trs' & Hp & Htrs).
    rewrite (Htrs tr) in Hp by (by apply unescape_escape). cbn [map all_parameters fst snd].
    destruct (IH (magnet_tracker (escape_string tr) st) H1 Hok) as (st' & H2 & H3 & H4 & H5).
    exists st'. split; [exact H2|]. split; [done|]. split; [congruence|].
    rewrite H5, Hp. cbn [set_mg_trackers mg_trackers]. by rewrite <- !app_assoc.
Qed.

Lemma all_seeds seeds : forall st, Forall bytes_ok seeds ->
  all_parameters (map (fun s => (bytes_of_string "ws", escape_string s)) seeds) st =
  Ok (inr (with_params (fun p => set_mg_url_seeds (mg_url_seeds p ++ seeds) p) st)).
Proof.
  induction seeds as [|s seeds IH]; intros st Hok; cbn [map all_parameters fst snd].
  - destruct st as [[] ? ?]. unfold with_params, set_mg_url_seeds. cbn. by rewrite app_nil_r.
  - apply Forall_cons in Hok as [Hs Hok].
    change (magnet_parameter (parameter_name (bytes_of_string "ws")) (escape_string s) st) with
      (Ok (inr (with_params (magnet_seed (escape_string s)) st)) : result (torrent_error + magnet_state)).
    cbn [mbind result_bind]. rewrite IH by done. unfold with_params, magnet_seed. rewrite unescape_escape by done.
    cbn [ms_params ms_tier ms_has_ih mg_url_seeds set_mg_url_seeds]. by rewrite <- app_assoc.
Qed.

Lemma parameter_hash ih st : bytes_ok ih -> length ih = 20%nat ->
  magnet_parameter (parameter_name (hash_parameter ih).1) (hash_parameter ih).2 st =
  Ok (inr (mk_magnet_state (set_mg_info_hash ih (ms_params st)) (ms_tier st) true)).
Proof.
  intros Hok Hl. change (Ok (magnet_hash (hash_parameter ih).2 st) = Ok (inr (mk_magnet_state (set_mg_info_hash ih (ms_params st)) (ms_tier st) true))).
  f_equal. unfold magnet_hash, hash_parameter. cbn [snd].
  assert (37 ∉ to_hex ih) as Hp.
  { clear Hok Hl. induction ih as [|c ih IH]; [apply not_elem_of_nil|]. cbn [to_hex].
    rewrite !not_elem_of_cons. split_and!; [by destruct (hex_chars_plain (Z.to_nat (Z.shiftr c 4))) as (_ & _ & _ & ?)
      |by destruct (hex_chars_plain (Z.to_nat (Z.land c 15))) as (_ & _ & _ & ?)|done]. }
  rewrite bool_decide_false by (rewrite elem_of_app; intros [H|H]; [by revert H; apply (bool_decide_unpack _)|done]).
  change 9%nat with (length (bytes_of_string "urn:btih:")). rewrite take_app_length, drop_app_length.
  rewrite bool_decide_true by done. cbn [negb]. rewrite length_to_hex, Hl. rewrite bool_decide_true by done.
  rewrite from_hex_to_hex by done. done.
Qed.

Lemma made_parameters_plain name trackers web_seeds : Forall plain_parameter (made_parameters name trackers web_seeds).
Proof.
  assert (forall n v, splits 61 n -> plain_parameter (n, escape_string v)) as H by (intros n v Hn; split; [done|apply escape_splits]).
  unfold made_parameters. rewrite !Forall_app, !Forall_map. split; [case_bool_decide; [done|apply Forall_singleton]|split; apply Forall_true; intros v];
    apply H; split; by apply (bool_decide_unpack _).
Qed.

Lemma hash_parameter_plain ih : plain_parameter (hash_parameter ih).
Proof.
  split; cbn [hash_parameter fst snd]; [split; by apply (bool_decide_unpack _)|].
  assert (Forall (fun c => c <> 34 /\ c <> 38) (to_hex ih)) as H.
  { induction ih as [|c ih IH]; [constructor|]. cbn [to_hex].
    repeat (apply Forall_cons; split; [match goal with |- nth ?n _ _ <> _ /\ _ => by destruct (hex_chars_plain n) as (? & ? & _) end|]). done. }
  rewrite Forall_forall in H. split; rewrite elem_of_app; (intros [Hin|Hin]; [by revert Hin; apply (bool_decide_unpack _)|by apply H in Hin as []]).
Qed.

(** C21: The link made for a torrent is read back as the torrent's name, hash, trackers and those
    of its web seeds that are URL seeds, whatever characters they hold; the others, seeds over
    HTTP, are not written. *)
Theorem magnet_roundtrip info_hash name trackers web_seeds :
  length info_hash = 20%nat -> bytes_ok info_hash -> bytes_ok name -> Forall bytes_ok trackers -> Forall (fun s => bytes_ok (ws_url s)) web_seeds ->
  parse_magnet_uri (make_magnet_uri info_hash name trackers web_seeds) =
  Ok (inr (mk_magnet name trackers (seqZ 0 (Z.of_nat (length trackers))) (url_seeds web_seeds) info_hash [] [])).
Proof.
  intros Hl Hh Hn Ht Hs0. rewrite make_magnet_link. assert (Forall bytes_ok (url_seeds web_seeds)) as Hs.
  { unfold url_seeds. rewrite Forall_map. rewrite Forall_forall in *. intros s Hin. apply Hs0. by apply list_elem_of_filter in Hin as [_ Hin]. }
  clear Hs0. generalize dependent (url_seeds web_seeds). clear web_seeds. intros web_seeds Hs. unfold parse_magnet_uri.
  change 8%nat with (length (bytes_of_string "magnet:?")). rewrite take_app_length, drop_app_length, bool_decide_true by done. cbn [negb].
  rewrite magnet_loop_link; [|apply hash_parameter_plain|apply made_parameters_plain|].
  2:{ rewrite length_app. unfold link. rewrite length_app, length_concat. clear.
      enough (forall l : list (bytes * bytes), length l <= list_sum (map length (map (fun p => 38%Z :: segment p) l)))%nat as H.
      { specialize (H (made_parameters name trackers web_seeds)). change (length (bytes_of_string "magnet:?")) with 8%nat. lia. }
      intros l. induction l as [|p l IH]; [done|]. cbn [map]. unfold list_sum in *. cbn [fold_right length]. lia. }
  cbn [all_parameters]. rewrite parameter_hash by done. cbn [mbind result_bind].
  unfold made_parameters. cbn [ms_params ms_tier]. set (st := mk_magnet_state (set_mg_info_hash info_hash magnet_empty) 0 true).
  assert (all_parameters (if bool_decide (name = []) then [] else [(bytes_of_string "dn", escape_string name)]) st =
    Ok (inr (with_params (set_mg_name name) st))) as Hname.
  { case_bool_decide as E; [by subst name|]. cbn [all_parameters fst snd].
    change (magnet_parameter (parameter_name (bytes_of_string "dn")) (escape_string name) st) with
      (Ok (inr (with_params (set_mg_name (unescape_string (escape_string name)).1) st)) : result (torrent_error + magnet_state)).
    by rewrite unescape_escape. }
  rewrite all_parameters_app, Hname. cbn [mbind result_bind]. rewrite all_parameters_app.
  destruct (all_trackers trackers (with_params (set_mg_name name) st)) as (st' & -> & _ & Hih & Hp); [done|done|].
  cbn [mbind result_bind]. rewrite all_seeds by done. cbn [mbind result_bind with_params ms_has_ih ms_params]. rewrite Hih, Hp. done.
Qed.

Lemma magnet_roundtrip_witness :
  parse_magnet_uri (make_magnet_uri (replicate 20 171) (bytes_of_string "a&b=c d") [bytes_of_string "udp://t:1/?x=1&y"]
    [mk_web_seed (bytes_of_string "http://u/") url_seed; mk_web_seed (bytes_of_string "http://h/") http_seed]) =
  Ok (inr (mk_magnet (bytes_of_string "a&b=c d") [bytes_of_string "udp://t:1/?x=1&y"] [0] [bytes_of_string "http://u/"] (replicate 20 171) [] [])).
Proof.
  apply (magnet_roundtrip (replicate 20 171) (bytes_of_string "a&b=c d") [bytes_of_string "udp://t:1/?x=1&y"]
    [mk_web_seed (bytes_of_string "http://u/") url_seed; mk_web_seed (bytes_of_string "http://h/") http_seed]); [done|decide_by_computation..].
Defined.

(** ** Every string *)

(** What reading a link produces: a hash of 20 bytes, a tier for each tracker, and no more
    priorities than there may be files. *)
Definition magnet_ok (p : magnet_params) : Prop :=
  length (mg_info_hash p) = 20%nat /\ Z.of_nat (length (mg_file_priorities p)) <= 10001 /\
  mg_tracker_tiers p = seqZ 0 (Z.of_nat (length (mg_trackers p))).

Definition state_ok (st : magnet_state) : Prop :=
  tiers_ok st /\ length (mg_info_hash (ms_params st)) = 20%nat /\ Z.of_nat (length (mg_file_priorities (ms_params st))) <= 10001.

(** The only fault: a number that is no [int]. *)
Definition no_int (f : fault) : Prop := f = SignedOverflow.

Lemma from_hex_length hex out : length (from_hex hex out).1 = length out.
Proof.
  revert hex. induction out as [|o out IH]; intros [|a [|b hex]]; try done. cbn [from_hex].
  destruct (hex_to_int a); [|done]. destruct (hex_to_int b); [|done]. specialize (IH hex).
  destruct (from_hex hex out) as [rest ok]. simpl in *. by rewrite IH.
Qed.

Lemma atoi_returns s : returns_or no_int (atoi s) (fun n => - 2 ^ 31 <= n < 2 ^ 31).
Proof. unfold atoi. case_match eqn:E; [|done]. apply andb_true_iff in E. cbn [returns_or]. lia. Qed.

Lemma magnet_range_returns token : returns_or no_int (magnet_range token)
  (fun r => match r with Some (a, b) => 0 <= a <= b /\ b <= 10000 | None => True end).
Proof.
  unfold magnet_range, index_ok, max_index. case_bool_decide; [done|]. destruct (find_char 45 token) as [d|].
  - destruct (_ || _); [done|]. eapply returns_bind; [apply atoi_returns|]. intros a _. destruct (negb _) eqn:Ea; [done|].
    eapply returns_bind; [apply atoi_returns|]. intros b _. cbn [returns_or]. destruct (_ || _) eqn:Eb; [done|]. lia.
  - eapply returns_bind; [apply atoi_returns|]. intros a _. cbn [returns_or]. destruct (negb _) eqn:Ea; [done|]. lia.
Qed.

Lemma length_resized {A} n (a : A) l : length (resized n a l) = n.
Proof. unfold resized. rewrite length_take, length_app, length_replicate. lia. Qed.

Lemma select_files_length a b l : 0 <= a <= b -> b <= 10000 -> Z.of_nat (length l) <= 10001 -> Z.of_nat (length (select_files a b l)) <= 10001.
Proof.
  intros Ha Hb Hl. unfold select_files.
  assert (forall inds (l : list Z), length (foldl (fun l i => <[Z.to_nat i := default_priority]> l) l inds) = length l) as ->.
  { clear. induction inds as [|i inds IH]; intros l; [done|]. cbn [foldl]. by rewrite IH, length_insert. }
  case_match; [rewrite length_resized; lia|done].
Qed.

(** The priorities the tokens select; the loop ends. *)
Lemma select_loop_returns fuel : forall value l, (length value < fuel)%nat -> Z.of_nat (length l) <= 10001 ->
  returns_or no_int (select_loop fuel value l) (fun l => Z.of_nat (length l) <= 10001).
Proof.
  induction fuel as [|fuel IH]; intros value l Hf Hl; [lia|]. cbn [select_loop].
  destruct (split_string value 44) as [token rest] eqn:E. pose proof E as [_ Hlen]%split_string_length.
  eapply returns_bind; [apply magnet_range_returns|]. intros r Hr.
  assert (Z.of_nat (length (match r with Some (a, b) => select_files a b l | None => l end)) <= 10001) as Hl'.
  { destruct r as [[a b]|]; [|done]. destruct Hr; by apply select_files_length. }
  destruct rest as [|c rest]; [done|]. apply IH; [|done]. destruct value as [|d value]; [done|]. specialize (Hlen ltac:(done)). lia.
Qed.

Lemma magnet_hash_ok value st st' : state_ok st -> magnet_hash value st = inr st' -> state_ok st'.
Proof.
  intros (Ht & Hh & Hp). unfold magnet_hash. destruct (if bool_decide _ then _ else _) as [v [e|]]; [done|].
  destruct (negb _); [by intros [= <-]|]. case_bool_decide; [intros [= <-]|case_bool_decide; [case_bool_decide|]; [intros [= <-]|done..]];
    (split; [done|split; [|done]]); [|done]. cbn [ms_params mg_info_hash set_mg_info_hash]. by rewrite from_hex_length.
Qed.

Lemma magnet_parameter_returns name value st : state_ok st ->
  returns_or no_int (magnet_parameter name value st) (fun r => match r with inr st' => state_ok st' | inl _ => True end).
Proof.
  intros Hst. pose proof Hst as (Ht & Hh & Hp). unfold magnet_parameter. case_bool_decide; [done|]. case_bool_decide.
  { cbn [returns_or]. destruct (magnet_tracker_ok value st Ht) as (Ht' & _ & trs & E & _). split; [done|]. by rewrite E. }
  case_bool_decide; [cbn [returns_or]; unfold magnet_seed, with_params; destruct (unescape_string value) as [s [e|]]; done|].
  case_bool_decide; [cbn [returns_or]; destruct (magnet_hash value st) as [e|st'] eqn:E; [done|by eapply magnet_hash_ok]|].
  case_bool_decide.
  { eapply returns_bind with (P := fun p => state_ok (with_params (fun _ => p) st)); [|done]. unfold magnet_select.
    destruct (negb _); [by destruct st|]. eapply returns_bind; [apply select_loop_returns; [lia|done]|]. intros l Hl. done. }
  case_bool_decide; [|done].
  eapply returns_bind with (P := fun p => state_ok (with_params (fun _ => p) st)); [|done]. unfold magnet_node.
  destruct (find_last 58 value); [|by destruct st]. eapply returns_bind; [apply atoi_returns|]. intros port _. cbn [returns_or].
  destruct (_ && _); [done|by destruct st].
Qed.

Lemma magnet_loop_returns fuel : forall sv st, (length sv <= fuel)%nat -> state_ok st ->
  returns_or no_int (magnet_loop fuel sv st) (fun r => match r with inr st' => state_ok st' | inl _ => True end).
Proof.
  induction fuel as [|fuel IH]; intros sv st Hf Hst; destruct sv as [|c sv]; [done|simpl in Hf; lia|done|]. cbn [magnet_loop].
  destruct (split_string (c :: sv) 61) as [name sv1] eqn:E1. apply split_string_length in E1 as [_ E1]. specialize (E1 ltac:(done)).
  destruct (split_string sv1 38) as [value sv2] eqn:E2. apply split_string_length in E2 as [E2 _].
  eapply returns_bind; [by apply magnet_parameter_returns|]. intros [e|st'] Hst'; [done|]. apply IH; [lia|done].
Qed.

Lemma parse_magnet_uri_returns uri : returns_or no_int (parse_magnet_uri uri) (fun r => match r with inr p => magnet_ok p | inl _ => True end).
Proof.
  unfold parse_magnet_uri. destruct (negb _); [done|].
  eapply returns_bind; [apply magnet_loop_returns; [rewrite length_drop; lia|by split_and!]|].
  intros [e|st] H; [done|]. cbn [returns_or]. destruct (ms_has_ih st); [|done]. destruct H as ((H1 & _) & H2 & H3). done.
Qed.

(** A magnet link is read, or refused with an error, whatever it holds, unless a number in it
    is no [int]; what is read has a hash of 20 bytes, a tier for each tracker and at most
    10001 priorities of files. *)
Theorem magnet_total uri : match parse_magnet_uri uri with
  | Ok (inr p) => magnet_ok p
  | Ok (inl _) => True
  | Fault f => f = SignedOverflow
  end.
Proof. pose proof (parse_magnet_uri_returns uri) as H. by destruct (parse_magnet_uri uri) as [[e|p]|f]. Qed.

(** The characters of a hash in hexadecimal are not checked: one that is no digit leaves
    the rest of the hash zero. *)
Lemma invalid_hash_accepted : parse_magnet_uri (bytes_of_string "magnet:?xt=urn:btih:abxx567890123456789012345678901234567890") =
  Ok (inr (set_mg_info_hash (171 :: replicate 19 0) magnet_empty)).
Proof. by vm_compute. Qed.

(** An index of eleven digits is no [int], which [atoi] leaves undefined. *)
Lemma long_index_overflows : parse_magnet_uri (bytes_of_string "magnet:?so=99999999999") = Fault SignedOverflow.
Proof. by vm_compute. Qed.
