(* ===== verification/Urls.v ===== *)
(** * URLs

    [extern/libtorrent/src/parse_url.cpp] and the encoding of web seeds in
    [extern/libtorrent/src/escape_string.cpp]: how a URL is taken apart, and what is made of one with characters
    that do not belong there.  A well formed URL is taken into the parts it was made of. *)

From S2P Require Import Prelude MsgFactory Net Bdecode TorrentFiles Magnet.

(** ** Taking a URL apart *)

(** [std::find(s.begin() + pos, s.end(), c) - s.begin()]; the length if it is not there. *)
Fixpoint find_char (c : Z) (s : bytes) : nat :=
  match s with [] => 0 | x :: s' => if x =? c then 0%nat else S (find_char c s') end.

Definition find_from (c : Z) (pos : nat) (s : bytes) : nat := (pos + find_char c (drop pos s))%nat.

(** [std::string(s.begin() + first, s.begin() + last)] *)
Definition substring (first last : nat) (s : bytes) : bytes := take (last - first) (drop first s).

(** [libtorrent::is_digit] *)
Definition is_digit (c : Z) : bool := (48 <=? c) && (c <=? 57).

(** The tuple [parse_url_components] returns. *)
Record url_parts := mk_url { u_protocol : bytes; u_auth : bytes; u_hostname : bytes; u_port : Z; u_path : bytes }.

#[global] Instance url_parts_eq_dec : EqDecision url_parts.
Proof. solve_decision. Defined.

(** [extern/libtorrent/src/parse_url.cpp:84-111] parse_url_components
    The host from [start] on; [end_] is where the path begins.  The host and where the search for the
    port stopped, or the error. *)
Definition url_host (url : bytes) (start end_ : nat) : option (bytes * nat) :=
  if bool_decide (url !! start = Some 91) then
    let close := find_from 93 start url in
    if (close =? length url)%nat then None
    else Some (substring (start + 1) close url, find_from 58 close url)
  else
    let port_pos := find_from 58 start url in
    Some (substring start (if (port_pos <? end_)%nat then port_pos else end_) url, port_pos).

(** [extern/libtorrent/src/parse_url.cpp:84-133] parse_url_components
    From the host on. *)
Definition url_tail (url protocol auth : bytes) (start end_ : nat) : result (url_parts * option torrent_error) :=
  match url_host url start end_ with
  | None => Ok (mk_url protocol auth [] (-1) (drop start url), Some expected_close_bracket_in_address)
  | Some (hostname, port_pos) =>
      if (port_pos <? end_)%nat then
        let digits := substring (S port_pos) end_ url in
        if forallb is_digit digits then
          port ← atoi digits; Ok (mk_url protocol auth hostname port (drop end_ url), None)
        else Ok (mk_url protocol auth hostname (-1) (drop start url), Some invalid_port)
      else Ok (mk_url protocol auth hostname (-1) (drop end_ url), None)
  end.

(** [extern/libtorrent/src/parse_url.cpp:70-83] parse_url_components
    After the protocol, from [start] on. *)
Definition url_authority (url protocol : bytes) (start : nat) : result (url_parts * option torrent_error) :=
  let at_ := find_from 64 start url in
  let colon := find_from 58 start url in
  let end_ := find_from 47 start url in
  if negb (at_ =? length url)%nat && negb (colon =? length url)%nat && (colon <? at_)%nat && (at_ <? end_)%nat
  then url_tail url protocol (substring start at_ url) (S at_) end_
  else url_tail url protocol [] start end_.

(** [extern/libtorrent/src/parse_url.cpp:41-134] parse_url_components
    Spaces are skipped for the protocol, and for the path that goes with an error. *)
Definition parse_url_components (url : bytes) : result (url_parts * option torrent_error) :=
  let start := (length url - length (skip_spaces url))%nat in
  let end_ := find_char 58 url in
  let protocol := substring start end_ url in
  if bool_decide (url !! end_ = Some 58 /\ url !! S end_ = Some 47 /\ url !! S (S end_) = Some 47)
  then url_authority url protocol (end_ + 3)
  else Ok (mk_url protocol [] [] (-1) (drop start url), Some unsupported_url_protocol).

(** [extern/libtorrent/src/string_util.cpp:124-127] string_ends_with *)
Definition string_ends_with (s1 s2 : bytes) : bool := is_suffix s2 s1.

(** [extern/libtorrent/src/string_util.cpp:371-379] is_i2p_url *)
Definition is_i2p_url (url : bytes) : result bool :=
  '(u, _) ← parse_url_components url; Ok (string_ends_with (u_hostname u) (bytes_of_string ".i2p")).

(** ** Encoding *)

(** [extern/libtorrent/src/escape_string.cpp:171-174] escape_path *)
Definition escape_path (str : bytes) : bytes := escape_string_impl str 10.

(** [extern/libtorrent/src/escape_string.cpp:176-185] need_encoding *)
Definition need_encoding (str : bytes) : bool := existsb (fun c => negb (bool_decide (c ∈ unreserved_chars))) str.

(** [extern/libtorrent/src/escape_string.cpp:215-252] maybe_url_encode *)
Definition maybe_url_encode (url : bytes) : result bytes :=
  '(u, ec) ← parse_url_components url;
  match ec with
  | Some _ => Ok url
  | None =>
      if negb (need_encoding (u_path u)) then Ok url
      else Ok (u_protocol u ++ bytes_of_string "://" ++
               (match u_auth u with [] => [] | _ => u_auth u ++ [64] end) ++ u_hostname u ++
               (if u_port u =? -1 then [] else 58 :: decimal_Z (u_port u)) ++ escape_path (u_path u))
  end.

(** [extern/libtorrent/include/libtorrent/string_util.hpp:57-61] ensure_trailing_slash *)
Definition ensure_trailing_slash (url : bytes) : bytes := if bool_decide (last url = Some 47) then url else url ++ [47].

Example url_sample : parse_url_components (bytes_of_string "http://me:pw@host.org:8080/a/b") =
  Ok (mk_url (bytes_of_string "http") (bytes_of_string "me:pw") (bytes_of_string "host.org") 8080 (bytes_of_string "/a/b"), None).
Proof. by vm_compute. Qed.

(** ** Well formed URLs *)

(** A URL of its parts: user and password, then the host and the port if there is one. *)
Definition url_of (u : url_parts) : bytes :=
  u_protocol u ++ bytes_of_string "://" ++ (match u_auth u with [] => [] | _ => u_auth u ++ [64] end) ++
  u_hostname u ++ (if u_port u =? -1 then [] else 58 :: decimal_Z (u_port u)) ++ u_path u.

(** Characters of a user, a password or a host: no slash, colon or at. *)
Definition url_word (s : bytes) : Prop := Forall (fun c => c <> 47 /\ c <> 58 /\ c <> 64) s.

Record url_ok (u : url_parts) : Prop := mk_url_ok {
  uo_protocol : Forall (fun c => c <> 58) (u_protocol u) /\ match u_protocol u with [] => True | c :: _ => is_space c = false end;
  uo_auth : u_auth u = [] \/ exists user password, u_auth u = user ++ 58 :: password /\ url_word user /\ url_word password;
  uo_hostname : url_word (u_hostname u) /\ head (u_hostname u) <> Some 91;
  uo_port : u_port u = -1 \/ 0 <= u_port u < 2 ^ 31;
  uo_path : u_path u = [] \/ head (u_path u) = Some 47;
}.

Lemma find_char_app c a b : c ∉ a -> find_char c (a ++ b) = (length a + find_char c b)%nat.
Proof.
  induction a as [|x a IH]; intros H; cbn; [done|]. apply not_elem_of_cons in H as [Hx Ha].
  rewrite (proj2 (Z.eqb_neq x c)) by congruence. by rewrite IH.
Qed.

Lemma find_char_at c a b : c ∉ a -> find_char c (a ++ c :: b) = length a.
Proof. intros H. rewrite find_char_app by done. cbn. rewrite Z.eqb_refl. lia. Qed.

Lemma find_char_none c a : c ∉ a -> find_char c a = length a.
Proof. intros H. rewrite <- (app_nil_r a) at 1. rewrite find_char_app by done. cbn. lia. Qed.

Lemma find_char_le c s : (find_char c s <= length s)%nat.
Proof. induction s as [|x s IH]; cbn; [lia|]. destruct (_ =? _); lia. Qed.

Lemma find_from_app c pre s : find_from c (length pre) (pre ++ s) = (length pre + find_char c s)%nat.
Proof. unfold find_from. by rewrite drop_app_length. Qed.

Lemma substring_app pre s t : substring (length pre) (length pre + length s) (pre ++ s ++ t) = s.
Proof. unfold substring. rewrite drop_app_length. replace (length pre + length s - length pre)%nat with (length s) by lia. apply take_app_length. Qed.

Lemma word_not_in s c : url_word s -> c = 47 \/ c = 58 \/ c = 64 -> c ∉ s.
Proof. unfold url_word. rewrite Forall_forall. intros H Hc Hin. apply H in Hin. naive_solver. Qed.

Lemma decimal_is_digits n : 0 <= n -> forallb is_digit (decimal_Z n) = true /\ decimal_Z n <> [].
Proof.
  intros Hn. unfold decimal_Z. rewrite (proj2 (Z.ltb_ge n 0)) by lia. split; [|by cbn [decimal_digits]; intros [_ ?]%app_nil].
  apply forallb_forall. intros c Hc. pose proof (decimal_digits_chars 20 n Hn) as H. rewrite Forall_forall in H.
  apply list_elem_of_In, H in Hc. unfold is_digit. apply andb_true_iff. split; apply Z.leb_le; lia.
Qed.

Lemma number_digits fuel : forall n, 0 <= n < 10 ^ Z.of_nat fuel -> number (decimal_digits fuel n) = n.
Proof.
  induction fuel as [|fuel IH]; intros n Hn; [simpl in Hn; assert (n = 0) as -> by lia; done|].
  cbn [decimal_digits]. rewrite Nat2Z.inj_succ, Z.pow_succ_r in Hn by lia. unfold number in *. rewrite foldl_snoc.
  pose proof (Z.div_mod n 10). destruct (Z.ltb_spec n 10).
  - cbn [foldl]. rewrite Z.mod_small by lia. lia.
  - rewrite IH; [lia|]. split; [apply Z.div_pos; lia|apply Z.div_lt_upper_bound; lia].
Qed.

Lemma take_digits_all s : forallb is_digit s = true -> take_digits s = s.
Proof. induction s as [|c s IH]; [done|]. cbn. intros [Hc Hs]%andb_true_iff. unfold is_digit in Hc. rewrite Hc. by rewrite IH. Qed.

Lemma atoi_digits s : forallb is_digit s = true -> number s < 2 ^ 31 -> 0 <= number s -> atoi s = Ok (number s).
Proof.
  intros Hs Hn H0. unfold atoi, signed_digits. assert (skip_spaces s = s /\ (let '(neg, s') := match s with
    | 45 :: s' => (true, s') | 43 :: s' => (false, s') | _ => (false, s) end in (neg, s') = (false, s))) as [-> H].
  { destruct s as [|c s]; [done|]. cbn in Hs. apply andb_true_iff in Hs as [Hc _]. unfold is_digit in Hc. apply andb_true_iff in Hc as [Hl%Z.leb_le Hh%Z.leb_le].
    assert (c = 48 \/ c = 49 \/ c = 50 \/ c = 51 \/ c = 52 \/ c = 53 \/ c = 54 \/ c = 55 \/ c = 56 \/ c = 57) as Hcase by lia.
    destruct_or! Hcase; by subst c. }
  destruct (match s with 45 :: s' => (true, s') | 43 :: s' => (false, s') | _ => (false, s) end) as [neg s'].
  injection H as -> ->. cbn [snd]. rewrite take_digits_all by done. rewrite (proj2 (Z.leb_le _ _)), (proj2 (Z.ltb_lt _ _)) by lia. done.
Qed.

Lemma atoi_decimal n : 0 <= n < 2 ^ 31 -> atoi (decimal_Z n) = Ok n.
Proof.
  intros Hn. assert (number (decimal_Z n) = n) as E.
  { unfold decimal_Z. rewrite (proj2 (Z.ltb_ge n 0)) by lia. apply number_digits. simpl. lia. }
  rewrite atoi_digits; rewrite ?E; [done| |lia|lia]. apply decimal_is_digits; lia.
Qed.

(** The part from the port on. *)
Definition port_text (u : url_parts) : bytes := if u_port u =? -1 then [] else 58 :: decimal_Z (u_port u).

(** Nothing before the path has a slash, and the path, if it is not empty, begins with one. *)
Lemma path_begins u before : url_ok u -> 47 ∉ before -> find_char 47 (before ++ u_path u) = length before.
Proof.
  intros Hu Hb. rewrite find_char_app by done. destruct (uo_path _ Hu) as [->|Hp]; [cbn; lia|].
  destruct (u_path u) as [|c p]; [done|]. injection Hp as ->. cbn. lia.
Qed.

Lemma port_no_slash u : url_ok u -> (47 ∉ port_text u) /\ 64 ∉ port_text u.
Proof.
  intros Hu. unfold port_text. destruct (_ =? -1); [split; apply not_elem_of_nil|].
  destruct (decimal_chars (u_port u)) as (Hc & _). rewrite Forall_forall in Hc.
  split; intros [Heq|Hin]%elem_of_cons; try done; apply Hc in Hin; lia.
Qed.

Lemma url_tail_spec u pre protocol auth : url_ok u ->
  url_tail (pre ++ u_hostname u ++ port_text u ++ u_path u) protocol auth (length pre) (length pre + (length (u_hostname u) + length (port_text u))) =
    Ok (mk_url protocol auth (u_hostname u) (u_port u) (u_path u), None).
Proof.
  intros Hu. destruct (uo_hostname _ Hu) as [Hw Hh]. set (H := u_hostname u) in *. set (url := pre ++ H ++ port_text u ++ u_path u).
  assert (drop (length pre + (length H + length (port_text u))) url = u_path u) as Hdrop.
  { unfold url. rewrite !app_assoc, <- !app_assoc. rewrite (app_assoc pre), (app_assoc (pre ++ H)).
    rewrite <- (drop_app_length ((pre ++ H) ++ port_text u) (u_path u)) at 2. f_equal. rewrite !length_app. lia. }
  assert (url !! length pre <> Some 91) as Hno.
  { unfold url. rewrite lookup_app_r, Nat.sub_diag by lia. destruct H as [|c h]; [|cbn; intros [= ->]; by apply Hh].
    unfold port_text. destruct (_ =? -1); [|done]. cbn. destruct (uo_path _ Hu) as [->|Hp]; [done|]. destruct (u_path u); [done|].
    injection Hp as ->. done. }
  assert (58 ∉ H) as H58 by (apply word_not_in; [done|naive_solver]).
  unfold url_tail, url_host. rewrite bool_decide_false by done. cbv zeta.
  assert (find_from 58 (length pre) url = length pre + (length H + find_char 58 (port_text u ++ u_path u)))%nat as ->
    by (unfold url; by rewrite find_from_app, find_char_app).
  unfold port_text in *. destruct (Z.eqb_spec (u_port u) (-1)) as [E|E].
  - cbn [length app] in *. rewrite (proj2 (Nat.ltb_ge _ _)) by lia. rewrite Nat.add_0_r in *. rewrite Hdrop, E.
    unfold url. by rewrite substring_app.
  - cbn [app find_char length]. rewrite Z.eqb_refl, Nat.add_0_r. rewrite (proj2 (Nat.ltb_lt _ _)) by lia.
    destruct (uo_port _ Hu) as [|Hport]; [done|]. destruct (decimal_is_digits (u_port u)) as [Hd _]; [lia|].
    assert (substring (S (length pre + length H)) (length pre + (length H + S (length (decimal_Z (u_port u))))) url = decimal_Z (u_port u)) as ->.
    { unfold url. replace (pre ++ H ++ (58 :: decimal_Z (u_port u)) ++ u_path u) with ((pre ++ H ++ [58]) ++ decimal_Z (u_port u) ++ u_path u)
        by by rewrite <- !app_assoc.
      rewrite <- (substring_app (pre ++ H ++ [58]) (decimal_Z (u_port u)) (u_path u)) at 3. rewrite !length_app. cbn [length]. f_equal; lia. }
    rewrite Hd, atoi_decimal by done. cbn [mbind result_bind]. cbn [length] in Hdrop. rewrite Hdrop.
    unfold url. by rewrite substring_app.
Qed.

Lemma host_no_slash u : url_ok u -> (47 ∉ u_hostname u ++ port_text u) /\ 64 ∉ u_hostname u ++ port_text u.
Proof.
  intros Hu. destruct (uo_hostname _ Hu) as [Hw _]. destruct (port_no_slash u Hu) as [H1 H2].
  split; apply not_elem_of_app; (split; [|done]); apply word_not_in; naive_solver.
Qed.

Lemma url_authority_spec u pre protocol : url_ok u ->
  url_authority (pre ++ (match u_auth u with [] => [] | _ => u_auth u ++ [64] end) ++ u_hostname u ++ port_text u ++ u_path u)
    protocol (length pre) = Ok (mk_url protocol (u_auth u) (u_hostname u) (u_port u) (u_path u), None).
Proof.
  intros Hu. destruct (host_no_slash u Hu) as [H47 H64]. unfold url_authority. cbv zeta. rewrite !find_from_app.
  destruct (uo_auth _ Hu) as [E|(user & password & E & Huser & Hpass)].
  - rewrite E. cbn [app].
    assert (find_char 47 (u_hostname u ++ port_text u ++ u_path u) = length (u_hostname u) + length (port_text u))%nat as ->
      by (rewrite app_assoc, path_begins, length_app; done).
    assert (length (u_hostname u) + length (port_text u) <= find_char 64 (u_hostname u ++ port_text u ++ u_path u))%nat as Hat
      by (rewrite app_assoc, find_char_app, length_app by done; lia).
    rewrite (proj2 (Nat.ltb_ge _ (length pre + (length (u_hostname u) + length (port_text u))))) by lia.
    rewrite andb_false_r. by apply url_tail_spec.
  - assert (match u_auth u with [] => [] | _ => u_auth u ++ [64] end = u_auth u ++ [64]) as -> by (rewrite E; by destruct user).
    set (rest := u_hostname u ++ port_text u ++ u_path u).
    assert (47 ∉ u_auth u ++ [64]) as Ha47.
    { rewrite E. intros [[Hin|[Hin|Hin]%elem_of_cons]%elem_of_app|Hin%list_elem_of_singleton]%elem_of_app; try done;
        (eapply word_not_in; [| |exact Hin]); naive_solver. }
    assert (64 ∉ u_auth u) as Ha64.
    { rewrite E. intros [Hin|[Hin|Hin]%elem_of_cons]%elem_of_app; try done; (eapply word_not_in; [| |exact Hin]); naive_solver. }
    rewrite <- !(app_assoc (u_auth u) [64]). cbn [app]. rewrite (find_char_at 64) by done.
    assert (find_char 58 (u_auth u ++ 64 :: rest) = length user) as ->.
    { rewrite E, <- app_assoc. cbn [app]. apply find_char_at, word_not_in; [done|naive_solver]. }
    assert (find_char 47 (u_auth u ++ 64%Z :: rest) = length (u_auth u) + 1 + (length (u_hostname u) + length (port_text u)))%nat as ->.
    { change (64 :: rest) with ([64] ++ rest). rewrite app_assoc, find_char_app by done. unfold rest.
      rewrite app_assoc, path_begins, !length_app by done. simpl. lia. }
    assert (length user < length (u_auth u))%nat as Huser' by (rewrite E, length_app; simpl; lia).
    rewrite !(proj2 (Nat.eqb_neq _ _)) by (rewrite !length_app; simpl; lia).
    rewrite !(proj2 (Nat.ltb_lt _ _)) by lia. cbn [negb andb]. rewrite substring_app.
    pose proof (url_tail_spec u (pre ++ u_auth u ++ [64]) protocol (u_auth u) Hu) as Ht.
    rewrite !length_app, <- !app_assoc in Ht. cbn [length app] in Ht. fold rest in Ht.
    replace (S (length pre + length (u_auth u))) with (length pre + (length (u_auth u) + 1))%nat by lia.
    by rewrite !Nat.add_assoc in *.
Qed.

(** A URL is taken into the parts it was made of. *)
Theorem url_roundtrip u : url_ok u -> parse_url_components (url_of u) = Ok (u, None).
Proof.
  intros Hu. unfold parse_url_components, url_of. destruct (uo_protocol _ Hu) as [Hp Hs].
  set (rest := (match u_auth u with [] => [] | _ => u_auth u ++ [64] end) ++ _).
  change (bytes_of_string "://" ++ rest) with (58 :: 47 :: 47 :: rest).
  assert (58 ∉ u_protocol u) as H58 by (intros Hin; rewrite Forall_forall in Hp; by apply Hp in Hin).
  rewrite find_char_at by done. assert (skip_spaces (u_protocol u ++ 58 :: 47 :: 47 :: rest) = u_protocol u ++ 58 :: 47 :: 47 :: rest) as ->
    by (destruct (u_protocol u) as [|c p]; [done|cbn [app skip_spaces]; by rewrite Hs]).
  rewrite Nat.sub_diag, bool_decide_true.
  2: { rewrite !lookup_app_r, Nat.sub_diag by lia. replace (S (length (u_protocol u)) - length (u_protocol u))%nat with 1%nat by lia.
       by replace (S (S (length (u_protocol u))) - length (u_protocol u))%nat with 2%nat by lia. }
  assert (substring 0 (length (u_protocol u)) (u_protocol u ++ 58 :: 47 :: 47 :: rest) = u_protocol u) as ->
    by (unfold substring; rewrite Nat.sub_0_r; apply take_app_length).
  pose proof (url_authority_spec u (u_protocol u ++ [58; 47; 47]) (u_protocol u) Hu) as Ha.
  rewrite length_app, <- app_assoc in Ha. simpl in Ha. unfold rest. fold (port_text u). etrans; [exact Ha|]. by destruct u.
Qed.

(** What is encoded has the same parts, and the path in characters that belong there. *)
Lemma encode_parts u : url_ok u -> need_encoding (u_path u) = true ->
  maybe_url_encode (url_of u) = Ok (url_of (mk_url (u_protocol u) (u_auth u) (u_hostname u) (u_port u) (escape_path (u_path u)))).
Proof. intros Hu Hn. unfold maybe_url_encode. rewrite url_roundtrip by done. cbn [mbind result_bind]. by rewrite Hn. Qed.

(** The brackets of an address of IPv6 are lost. *)
Lemma brackets_lost : maybe_url_encode (bytes_of_string "http://[::1]:80/a b") = Ok (bytes_of_string "http://::1:80/a%20b").
Proof. by vm_compute. Qed.

(** A port is not checked to be one. *)
Lemma long_port_overflows : parse_url_components (bytes_of_string "http://a:99999999999/") = Fault SignedOverflow.
Proof. by vm_compute. Qed.

(** Whatever the URL, taking it apart returns unless the port is no [int]. *)
Lemma parse_url_returns url : returns_or (fun f => f = SignedOverflow) (parse_url_components url) (fun _ => True).
Proof.
  unfold parse_url_components. cbv zeta. case_bool_decide; [|done]. unfold url_authority. cbv zeta.
  assert (forall protocol auth start end_, returns_or (fun f => f = SignedOverflow) (url_tail url protocol auth start end_) (fun _ => True)) as Ht.
  { intros protocol auth start end_. unfold url_tail. destruct (url_host _ _ _) as [[h p]|]; [|done]. destruct (p <? end_)%nat; [|done].
    cbv zeta. destruct (forallb _ _); [|done]. unfold atoi. by destruct (_ && _). }
  destruct (_ && _); apply Ht.
Qed.

Lemma maybe_url_encode_returns url : returns_or (fun f => f = SignedOverflow) (maybe_url_encode url) (fun _ => True).
Proof.
  unfold maybe_url_encode. eapply returns_bind; [apply parse_url_returns|]. intros [u [e|]] _; [done|]. by destruct (negb _).
Qed.

Lemma is_i2p_url_returns url : returns_or (fun f => f = SignedOverflow) (is_i2p_url url) (fun _ => True).
Proof. unfold is_i2p_url. eapply returns_bind; [apply parse_url_returns|]. by intros [u e] _. Qed.
