(* ===== verification/TorrentNames.v ===== *)
(** * Files of a torrent with the same name

    [extern/libtorrent/src/torrent_info.cpp], [file_storage.cpp]: two files whose paths differ at most in the
    case of their letters must not get the same file.  A first pass compares checksums
    only; if two are equal, a second compares the paths and renames.  The checksum is
    [boost::crc_optimal], which is not in the repository: a class. *)

From S2P Require Import Prelude Paths Net Storage FileStorage.

(** The CRC-32C of bytes. *)
Class Crc32c := crc32c : bytes -> Z.

(** [extern/libtorrent/src/string_util.cpp:84-87] to_lower *)
Definition to_lower (c : Z) : Z := if (65 <=? c) && (c <=? 90) then c - 65 + 97 else c.

Definition lower : bytes -> bytes := map to_lower.

(** [extern/libtorrent/src/string_util.cpp:103-109] string_equal_no_case *)
Definition string_equal_no_case (s1 s2 : bytes) : bool := bool_decide (lower s1 = lower s2).

(** [extern/libtorrent/src/path.cpp:478-491] extension *)
Definition extension (f : bytes) : bytes :=
  match find_last_of 46 f, find_last_of 47 f with
  | None, _ => []
  | Some dot, None => drop dot f
  | Some dot, Some slash => if (dot <? slash)%nat then [] else drop dot f
  end.

(** [extern/libtorrent/src/path.cpp:493-503] remove_extension *)
Definition remove_extension (f : bytes) : bytes :=
  match find_last_of 46 (c_str f), find_last_of 47 (c_str f) with
  | None, _ => f
  | Some O, _ => f
  | Some ext, None => take ext f
  | Some ext, Some slash => if (ext <? slash)%nat then f else take ext f
  end.

(** [extern/libtorrent/src/file_storage.cpp:388-393] file_storage::rename_file *)
Definition rename_file (index : nat) (new_filename : bytes) (fs : file_storage) : result file_storage :=
  match m_files fs !! index with
  | None => Fault DanglingIterator
  | Some e =>
      let '(e, paths) := update_path_index e new_filename true (m_name fs) (m_paths fs) in
      Ok (mk_fs (m_piece_length fs) (m_num_pieces fs) (<[index := e]> (m_files fs)) (m_file_hashes fs) (m_symlinks fs)
        (m_mtime fs) paths (m_name fs) (m_total_size fs))
  end.

(** [extern/libtorrent/src/torrent_info.cpp:669-673] name_entry
    Who has a name: the number of a file, or that of a directory as [- 1 - number] with the length of its front part. *)
Record name_entry := mk_name_entry { ne_idx : Z; ne_length : Z }.

Section Names.
Context {CRC : Crc32c}.

(** ** Checksums of paths *)

(** [extern/libtorrent/src/file_storage.cpp:723-789] file_storage::file_path_hash
    With an empty [save_path]. *)
Definition file_path_hash (fs : file_storage) (fe : internal_file_entry) : Z :=
  let below := fun p : bytes => if bool_decide (p = []) then [] else lower p ++ [47] in
  if (if_path_index fe =? -2) || (if_path_index fe =? -1) then crc32c (lower (filename fe))
  else
    let p := nth (Z.to_nat (if_path_index fe)) (m_paths fs) [] in
    if if_no_root_dir fe then crc32c (below p ++ lower (filename fe))
    else crc32c (lower (m_name fs) ++ [47] ++ below p ++ lower (filename fe)).

(** [extern/libtorrent/src/file_storage.cpp:697-703] process_path_lowercase
    The checksums of the front parts of a path that end before a separator, and of all of
    it; [fed] is what the checksum has been given. *)
Fixpoint prefix_hashes (fed str : bytes) : list Z :=
  match str with
  | [] => [crc32c fed]
  | c :: str' => (if c =? 47 then [crc32c fed] else []) ++ prefix_hashes (fed ++ [to_lower c]) str'
  end.

(** [extern/libtorrent/src/file_storage.cpp:692-705] process_path_lowercase *)
Definition process_path_lowercase (table : gset Z) (fed str : bytes) : gset Z :=
  match str with [] => table | _ => list_to_set (prefix_hashes fed str) ∪ table end.

(** [extern/libtorrent/src/file_storage.cpp:707-721] file_storage::all_path_hashes *)
Definition all_path_hashes (fs : file_storage) (table : gset Z) : gset Z :=
  let fed := if bool_decide (m_name fs = []) then [] else lower (m_name fs) ++ [47] in
  foldl (fun table p => process_path_lowercase table fed p) table (m_paths fs).

(** ** The second pass *)

(** [extern/libtorrent/src/torrent_info.cpp:700-708] torrent_info::resolve_duplicate_filenames_slow
    The directories above a path; [count] characters of it have been fed. *)
Fixpoint dir_prefixes (fed path : bytes) (path_index count : Z) : list (Z * name_entry) :=
  match path with
  | [] => [(crc32c fed, mk_name_entry path_index count)]
  | c :: path' =>
      (if c =? 47 then [(crc32c fed, mk_name_entry path_index count)] else [])
      ++ dir_prefixes (fed ++ [to_lower c]) path' path_index (count + 1)
  end.

(** [extern/libtorrent/src/torrent_info.cpp:689-711] torrent_info::resolve_duplicate_filenames_slow *)
Definition dir_entries (fs : file_storage) : list (Z * name_entry) :=
  let fed := lower (m_name fs) in
  concat (imap (fun k path =>
    dir_prefixes (if bool_decide (path = []) then fed else fed ++ [47]) path (-1 - Z.of_nat k) 0) (m_paths fs)).

(** [extern/libtorrent/src/torrent_info.cpp:724-726] torrent_info::resolve_duplicate_filenames_slow *)
Definition other_name (fs : file_storage) (o : name_entry) : bytes :=
  if ne_idx o <? 0 then
    combine_path (m_name fs) (take (Z.to_nat (ne_length o)) (nth (Z.to_nat (- ne_idx o - 1)) (m_paths fs) []))
  else match m_files fs !! Z.to_nat (ne_idx o) with Some fe => file_path fs fe | None => [] end.

(** [extern/libtorrent/src/torrent_info.cpp:720-728] torrent_info::resolve_duplicate_filenames_slow
    The order of entries with equal checksums is that of their insertion; entries of the
    same name are all directories. *)
Definition find_match (fs : file_storage) (fe : internal_file_entry) (files : list (Z * name_entry)) : option name_entry :=
  snd <$> List.find (fun o =>
    (o.1 =? file_path_hash fs fe) && string_equal_no_case (other_name fs o.2) (file_path fs fe)) files.

(** [extern/libtorrent/src/torrent_info.cpp:738-743] torrent_info::resolve_duplicate_filenames_slow
    Pad files of the same size may share a name. *)
Definition shared_pad (fs : file_storage) (fe : internal_file_entry) (o : name_entry) : bool :=
  (0 <=? ne_idx o) && if_pad_file fe &&
  match m_files fs !! Z.to_nat (ne_idx o) with
  | Some other => if_pad_file other && (if_size fe =? if_size other)
  | None => false
  end.

(** [extern/libtorrent/src/torrent_info.cpp:752-754] torrent_info::resolve_duplicate_filenames_slow *)
Definition numbered (base ext : bytes) (cnt : Z) : bytes := base ++ take 49 (46 :: decimal_Z cnt ++ c_str ext).

(** [extern/libtorrent/src/torrent_info.cpp:748-770] torrent_info::resolve_duplicate_filenames_slow *)
Fixpoint new_name (fuel : nat) (base ext : bytes) (cnt : Z) (files : list (Z * name_entry)) : result (bytes * Z) :=
  match fuel with
  | O => Fault OutOfFuel
  | S fuel' =>
      let cnt := cnt + 1 in
      let filename := numbered base ext cnt in
      let new_hash := crc32c (lower filename) in
      if existsb (fun o => o.1 =? new_hash) files then new_name fuel' base ext cnt files
      else Ok (filename, new_hash)
  end.

(** Enough for the counters of up to four digits. *)
Definition name_fuel : nat := Z.to_nat 9999.

(** [extern/libtorrent/src/torrent_info.cpp:718-773] torrent_info::resolve_duplicate_filenames_slow
    File number [i]. *)
Definition resolve_turn (i : nat) (fs : file_storage) (files : list (Z * name_entry)) :
    result (file_storage * list (Z * name_entry)) :=
  match m_files fs !! i with
  | None => Fault DanglingIterator
  | Some fe =>
      match find_match fs fe files with
      | None => Ok (fs, files ++ [(file_path_hash fs fe, mk_name_entry (Z.of_nat i) 0)])
      | Some other =>
          if shared_pad fs fe other then Ok (fs, files)
          else
            let filename := file_path fs fe in
            '(filename, new_hash) ← new_name name_fuel (remove_extension filename) (extension filename) 0 files;
            fs ← rename_file i filename fs;
            Ok (fs, files ++ [(new_hash, mk_name_entry (Z.of_nat i) 0)])
      end
  end.

(** [extern/libtorrent/src/torrent_info.cpp:715-774] torrent_info::resolve_duplicate_filenames_slow
    The files from number [i] on; [n] are left. *)
Fixpoint resolve_loop (n i : nat) (fs : file_storage) (files : list (Z * name_entry)) : result file_storage :=
  match n with
  | O => Ok fs
  | S n' => '(fs, files) ← resolve_turn i fs files; resolve_loop n' (S i) fs files
  end.

(** [extern/libtorrent/src/torrent_info.cpp:676-775] torrent_info::resolve_duplicate_filenames_slow *)
Definition resolve_duplicate_filenames_slow (fs : file_storage) : result file_storage :=
  resolve_loop (length (m_files fs)) 0 fs (dir_entries fs).

(** ** The first pass *)

(** [extern/libtorrent/src/torrent_info.cpp:644-656] torrent_info::resolve_duplicate_filenames *)
Fixpoint collides (hashes : list Z) (table : gset Z) : bool :=
  match hashes with
  | [] => false
  | h :: hashes' => bool_decide (h ∈ table) || collides hashes' ({[h]} ∪ table)
  end.

(** [extern/libtorrent/src/torrent_info.cpp:633-657] torrent_info::resolve_duplicate_filenames *)
Definition resolve_duplicate_filenames (fs : file_storage) : result file_storage :=
  if collides (map (file_path_hash fs) (m_files fs)) (all_path_hashes fs ∅)
  then resolve_duplicate_filenames_slow fs else Ok fs.
End Names.

(** ** Renaming ends *)

(** Nothing but the search for a free number can go wrong. *)
Definition out_of_fuel (f : fault) : Prop := f = OutOfFuel.

Lemma new_name_faults {CRC : Crc32c} base ext files fuel : forall cnt,
  returns_or out_of_fuel (new_name fuel base ext cnt files) (fun _ => True).
Proof. induction fuel as [|fuel IH]; intros cnt; cbn [new_name]; [done|]. case_match; [apply IH|done]. Qed.

Lemma resolve_turn_faults {CRC : Crc32c} i fs files : (i < length (m_files fs))%nat ->
  returns_or out_of_fuel (resolve_turn i fs files) (fun r => length (m_files r.1) = length (m_files fs)).
Proof.
  intros Hi. unfold resolve_turn. destruct (lookup_lt_is_Some_2 (m_files fs) i Hi) as [fe Hfe]. rewrite Hfe.
  destruct (find_match fs fe files) as [other|]; [|done]. destruct (shared_pad fs fe other); [done|].
  eapply returns_bind; [apply new_name_faults|]. intros [name h] _. unfold rename_file. rewrite Hfe.
  destruct (update_path_index _ _ _ _ _) as [e paths]. cbn. by rewrite length_insert.
Qed.

Lemma resolve_faults {CRC : Crc32c} fs : returns_or out_of_fuel (resolve_duplicate_filenames fs) (fun _ => True).
Proof.
  unfold resolve_duplicate_filenames, resolve_duplicate_filenames_slow. destruct (collides _ _); [|done].
  assert (forall n i fs files, (i + n <= length (m_files fs))%nat ->
    returns_or out_of_fuel (resolve_loop n i fs files) (fun _ => True)) as H; [|by apply H].
  clear fs. induction n as [|n IH]; intros i fs files Hi; [done|]. cbn [resolve_loop].
  eapply returns_bind; [apply resolve_turn_faults; lia|]. intros [fs' files'] Hl. cbn in Hl. apply IH. lia.
Qed.

(** What the polynomial guarantees: bytes that differ only within four in a row have
    different checksums. *)
Class Crc32cLaws (CRC : Crc32c) := crc_burst : forall before x y after,
  length x = 4%nat -> length y = 4%nat -> bytes_ok x -> bytes_ok y ->
  crc32c (before ++ x ++ after) = crc32c (before ++ y ++ after) -> x = y.

(** The counters of four digits. *)
Lemma decimal_four c : 1000 <= c <= 9999 ->
  decimal_Z c = [48 + c / 1000; 48 + c / 100 mod 10; 48 + c / 10 mod 10; 48 + c mod 10].
Proof.
  intros Hc. unfold decimal_Z. rewrite (proj2 (Z.ltb_ge c 0)) by lia.
  assert (forall fuel n, decimal_digits (S fuel) n = (if n <? 10 then [] else decimal_digits fuel (n / 10)) ++ [48 + n mod 10]) as E by done.
  rewrite (E 19%nat), (E 18%nat), (E 17%nat), (E 16%nat). clear E.
  rewrite (Z.div_div c 10 10), (Z.div_div c (10 * 10) 10) by done. change (10 * 10 * 10) with 1000. change (10 * 10) with 100.
  rewrite (proj2 (Z.ltb_ge c 10)), (proj2 (Z.ltb_ge (c / 10) 10)), (proj2 (Z.ltb_ge (c / 100) 10)), (proj2 (Z.ltb_lt (c / 1000) 10))
    by (Z.to_euclidean_division_equations; lia).
  cbn [app]. repeat f_equal. rewrite Z.mod_small; [done|]. Z.to_euclidean_division_equations; lia.
Qed.

Lemma lower_digit d : 48 <= d < 58 -> to_lower d = d.
Proof. intros Hd. unfold to_lower. case_match eqn:E; lia. Qed.

Lemma four_digits c : 1000 <= c <= 9999 ->
  length (decimal_Z c) = 4%nat /\ bytes_ok (decimal_Z c) /\ lower (decimal_Z c) = decimal_Z c /\ number (decimal_Z c) = c.
Proof.
  intros Hc. rewrite (decimal_four c Hc).
  assert (0 <= c / 1000 < 10) by (Z.to_euclidean_division_equations; lia).
  pose proof (Z.mod_pos_bound (c / 100) 10 eq_refl). pose proof (Z.mod_pos_bound (c / 10) 10 eq_refl).
  pose proof (Z.mod_pos_bound c 10 eq_refl). split_and!; [done| | |].
  - repeat constructor; unfold byte_ok; lia.
  - unfold lower. cbn [map]. by rewrite !lower_digit by lia.
  - unfold number. cbn [foldl]. Z.to_euclidean_division_equations; lia.
Qed.

Section Renaming.
Context {CRC : Crc32c} {CL : Crc32cLaws CRC}.

Lemma lower_numbered base ext c : 1000 <= c <= 9999 ->
  lower (numbered base ext c) = (lower base ++ [46]) ++ decimal_Z c ++ lower (take 44 (c_str ext)).
Proof.
  intros Hc. destruct (four_digits c Hc) as (Hl & _ & Hlow & _). unfold numbered, lower in *.
  change (46 :: ?l) with ([46] ++ l). rewrite (take_app_ge [46]) by (simpl; lia). simpl (49 - _)%nat.
  rewrite (take_app_ge (decimal_Z c)) by (rewrite Hl; lia). rewrite Hl. simpl (48 - 4)%nat. rewrite !map_app, Hlow. by rewrite <- !app_assoc.
Qed.

Lemma numbered_distinct base ext a b : 1000 <= a <= 9999 -> 1000 <= b <= 9999 ->
  crc32c (lower (numbered base ext a)) = crc32c (lower (numbered base ext b)) -> a = b.
Proof.
  intros Ha Hb. rewrite (lower_numbered base ext a Ha), (lower_numbered base ext b Hb). destruct (four_digits a Ha) as (Hla & Hoka & _ & Hna).
  destruct (four_digits b Hb) as (Hlb & Hokb & _ & Hnb). intros H. apply crc_burst in H; [|done..]. congruence.
Qed.

(** Among the counters of four digits there is one whose checksum is free. *)
Lemma free_counter base ext (files : list (Z * name_entry)) : Z.of_nat (length files) < 9000 -> exists c, 1000 <= c <= 9999 /\
  existsb (fun o => o.1 =? crc32c (lower (numbered base ext c))) files = false.
Proof.
  intros Hlen. set (h := fun c => crc32c (lower (numbered base ext c))).
  destruct (decide (Exists (fun c => h c ∉ map fst files) (seqZ 1000 9000))) as [Hex|Hno].
  - apply Exists_exists in Hex as (c & Hc%elem_of_seqZ & Hh). exists c. split; [lia|]. apply not_true_is_false.
    rewrite existsb_exists. intros (o & Ho & E%Z.eqb_eq). apply Hh. fold (h c) in E. rewrite <- E.
    apply list_elem_of_In, in_map. done.
  - exfalso. apply not_Exists_Forall in Hno; [|apply _]. assert (map h (seqZ 1000 9000) ⊆+ map fst files) as Hsub%submseteq_length.
    { apply NoDup_submseteq.
      - apply (NoDup_fmap_2_strong h); [|apply NoDup_seqZ]. intros a b Ha%elem_of_seqZ Hb%elem_of_seqZ. apply numbered_distinct; lia.
      - intros x (c & -> & Hc)%list_elem_of_fmap. rewrite Forall_forall in Hno. specialize (Hno c Hc). cbn in Hno.
        by destruct (decide (h c ∈ map fst files)). }
    rewrite !length_map, length_seqZ in Hsub. lia.
Qed.

Lemma new_name_reaches base ext files c : forall fuel cnt, cnt < c -> (Z.to_nat (c - cnt) <= fuel)%nat ->
  existsb (fun o => o.1 =? crc32c (lower (numbered base ext c))) files = false ->
  exists r, new_name fuel base ext cnt files = Ok r.
Proof.
  induction fuel as [|fuel IH]; intros cnt Hc Hf Hfree; [lia|]. cbn [new_name].
  case_match eqn:E; [|by eexists]. destruct (decide (cnt + 1 = c)) as [<-|]; [congruence|]. apply IH; [lia|lia|done].
Qed.

Lemma new_name_returns base ext files : Z.of_nat (length files) < 9000 -> exists r, new_name name_fuel base ext 0 files = Ok r.
Proof.
  intros Hlen. destruct (free_counter base ext files Hlen) as (c & Hc & Hfree).
  apply (new_name_reaches base ext files c); [lia|unfold name_fuel; lia|done].
Qed.

Lemma resolve_turn_returns i fs files : (i < length (m_files fs))%nat -> Z.of_nat (length files) < 9000 ->
  exists fs' files', resolve_turn i fs files = Ok (fs', files') /\
    length (m_files fs') = length (m_files fs) /\ (length files' <= S (length files))%nat.
Proof.
  intros Hi Hlen. unfold resolve_turn. destruct (lookup_lt_is_Some_2 (m_files fs) i Hi) as [fe Hfe]. rewrite Hfe.
  destruct (find_match fs fe files) as [other|].
  - destruct (shared_pad fs fe other); [by exists fs, files; split_and!; [|lia|lia]|].
    destruct (new_name_returns (remove_extension (file_path fs fe)) (extension (file_path fs fe)) files Hlen) as [[name h] ->].
    cbn [mbind result_bind]. unfold rename_file. rewrite Hfe. destruct (update_path_index _ _ _ _ _) as [e paths].
    cbn [mbind result_bind]. do 2 eexists. split; [done|]. cbn [m_files]. rewrite length_insert, length_app. simpl. lia.
  - do 2 eexists. split; [done|]. rewrite length_app. simpl. lia.
Qed.

(** With fewer than 9000 names of files and directories, every file gets a name: the
    search for a free number ends. *)
Theorem resolve_returns fs : Z.of_nat (length (dir_entries fs) + length (m_files fs)) < 9000 ->
  exists fs', resolve_duplicate_filenames fs = Ok fs'.
Proof.
  intros H. unfold resolve_duplicate_filenames, resolve_duplicate_filenames_slow.
  destruct (collides _ _); [|by eexists]. revert H. generalize (dir_entries fs) as files. intros files.
  assert (forall n i fs files, (i + n <= length (m_files fs))%nat -> Z.of_nat (length files + n) < 9000 ->
    exists fs', resolve_loop n i fs files = Ok fs') as Hloop.
  { clear fs files. induction n as [|n IH]; intros i fs files Hi Hn; [by eexists|]. cbn [resolve_loop].
    destruct (resolve_turn_returns i fs files) as (fs' & files' & -> & Hf & Hf'); [lia|lia|].
    cbn [mbind result_bind]. apply IH; lia. }
  intros H. by apply Hloop.
Qed.
End Renaming.
