(* ===== verification/Encoding.v ===== *)
(** * Fixing the encoding of a text

    [verify_encoding] of [extern/libtorrent/src/torrent_info.cpp] and the conversions of
    [extern/libtorrent/src/ConvertUTF.cpp] it uses, as it calls them ([lenientConversion]): what is not UTF-8 in the comment
    of a torrent is replaced by underscores. *)

From S2P Require Import Prelude Paths.

(** [ConversionResult] *)
Inductive conversion_result := conversionOK | sourceExhausted | targetExhausted | sourceIllegal.

#[global] Instance conversion_result_eq_dec : EqDecision conversion_result.
Proof. solve_decision. Defined.

(** [UNI_REPLACEMENT_CHAR], [UNI_MAX_LEGAL_UTF32] *)
Definition replacement_char : Z := 0xFFFD.
Definition max_legal_utf32 : Z := 0x10FFFF.

(** The code point of a sequence of [len] bytes. *)
Definition sequence_value (source : bytes) (len : nat) : Z :=
  let ch := foldl (fun ch c => u32 (u32 (Z.shiftl ch 6) + c)) 0 (take len source) in
  u32 (ch - nth (len - 1) offsetsFromUTF8 0).

(** [extern/libtorrent/src/ConvertUTF.cpp:472-530] ConvertUTF8toUTF32
    [room] is the space of the target, [result] the variable of that name; the code points written, the rest of
    the source and the result.  Every turn takes a byte. *)
Fixpoint ConvertUTF8toUTF32 (fuel : nat) (source : bytes) (room : nat) (result : conversion_result) :
    list Z * bytes * conversion_result :=
  match fuel, source with
  | S fuel', c :: _ =>
      let len := S (trailingBytesForUTF8 c) in
      if (length source <? len)%nat then ([], source, sourceExhausted)
      else if negb (isLegalUTF8 source len) then ([], source, sourceIllegal)
      else
        let ch := sequence_value source len in
        match room with
        | O => ([], source, targetExhausted)
        | S room' =>
            let '(cp, result) :=
              if ch <=? max_legal_utf32 then (if (0xD800 <=? ch) && (ch <=? 0xDFFF) then replacement_char else ch, result)
              else (replacement_char, sourceIllegal) in
            let '(cps, rest, result) := ConvertUTF8toUTF32 fuel' (drop len source) room' result in
            (cp :: cps, rest, result)
        end
  | _, _ => ([], source, result)
  end.

(** [extern/libtorrent/src/ConvertUTF.cpp:403-468] ConvertUTF32toUTF8
    One code point; five bytes, which the caller has, are room enough for any. *)
Definition ConvertUTF32toUTF8 (ch : Z) : bytes :=
  let '(bytesToWrite, ch) :=
    if ch <? 0x80 then (1%nat, ch) else if ch <? 0x800 then (2%nat, ch) else if ch <? 0x10000 then (3%nat, ch)
    else if ch <=? max_legal_utf32 then (4%nat, ch) else (3%nat, replacement_char) in
  let tail i := Z.land (Z.lor (Z.shiftr ch (6 * i)) 0x80) 0xBF in
  match bytesToWrite with
  | 1%nat => [u8 ch]
  | 2%nat => [u8 (Z.lor (Z.shiftr ch 6) 0xC0); tail 0]
  | 3%nat => [u8 (Z.lor (Z.shiftr ch 12) 0xE0); tail 1; tail 0]
  | _ => [u8 (Z.lor (Z.shiftr ch 18) 0xF0); tail 2; tail 1; tail 0]
  end.

(** [extern/libtorrent/src/torrent_info.cpp:130-162] verify_encoding
    One turn of the loop from [ptr]: the rest, the character written and whether it was valid. *)
Definition encoding_turn (ptr : bytes) : bytes * bytes * bool :=
  let '(cps, rest, res) := ConvertUTF8toUTF32 (length ptr) ptr 1 conversionOK in
  let '(rest, codepoint, valid) :=
    match cps with
    | [] => (if bool_decide (res = sourceExhausted) then [] else drop 1 ptr, 95, false)
    | cp :: _ =>
        if bool_decide (res = sourceExhausted \/ res = sourceIllegal) then (rest, cp, true)
        else if bool_decide (cp = replacement_char) then (rest, 95, false) else (rest, cp, true)
    end in
  (rest, ConvertUTF32toUTF8 codepoint, valid).

(** [extern/libtorrent/src/torrent_info.cpp:126-171] verify_encoding
    The text written and whether all of it was valid. *)
Fixpoint encoding_loop (fuel : nat) (ptr : bytes) : result (bytes * bool) :=
  match ptr with
  | [] => Ok ([], true)
  | _ =>
      match fuel with
      | O => Fault OutOfFuel
      | S fuel' =>
          let '(rest, out, valid) := encoding_turn ptr in
          '(tmp_path, all_valid) ← encoding_loop fuel' rest;
          Ok (out ++ tmp_path, valid && all_valid)
      end
  end.

(** [extern/libtorrent/src/torrent_info.cpp:116-178] verify_encoding
    The text afterwards, and whether it was valid. *)
Definition verify_encoding (target : bytes) : result (bytes * bool) :=
  '(tmp_path, valid_encoding) ← encoding_loop (length target) target;
  Ok (if valid_encoding : bool then target else tmp_path, valid_encoding).

Example encoding_samples :
  verify_encoding (bytes_of_string "plain") = Ok (bytes_of_string "plain", true) /\
  verify_encoding [195; 164; 33] = Ok ([195; 164; 33], true) /\
  verify_encoding [97; 128; 98; 195] = Ok (bytes_of_string "a_b_", false) /\
  verify_encoding [97; 255; 98] = Ok (bytes_of_string "a_", false) /\
  verify_encoding [240; 159; 152; 128] = Ok ([240; 159; 152; 128], true).
Proof. by vm_compute. Qed.

(** ** The loops end *)

Lemma convert_rest fuel : forall source room result cps rest res, ConvertUTF8toUTF32 fuel source room result = (cps, rest, res) ->
  (length rest + length cps <= length source)%nat.
Proof.
  induction fuel as [|fuel IH]; intros source room result cps rest res H; cbn [ConvertUTF8toUTF32] in H; [by simplify_eq; simpl; lia|].
  destruct source as [|c source]; [by simplify_eq; simpl; lia|]. cbv zeta in H.
  destruct (Nat.ltb_spec (length (c :: source)) (S (trailingBytesForUTF8 c))); [by simplify_eq; simpl; lia|].
  destruct (negb _); [by simplify_eq; simpl; lia|]. destruct room as [|room]; [by simplify_eq; simpl; lia|].
  destruct (if sequence_value _ _ <=? max_legal_utf32 then _ else _) as [cp result'].
  destruct (ConvertUTF8toUTF32 fuel _ room result') as [[cps' rest'] res'] eqn:E. apply IH in E. injection H as <- <- <-.
  rewrite length_drop in E. cbn [length] in *. lia.
Qed.

Lemma encoding_turn_rest ptr rest out valid : ptr <> [] -> encoding_turn ptr = (rest, out, valid) -> (length rest < length ptr)%nat.
Proof.
  intros Hne H. unfold encoding_turn in H. destruct (ConvertUTF8toUTF32 _ _ _ _) as [[cps rest'] res] eqn:E. apply convert_rest in E.
  destruct ptr as [|c ptr]; [done|]. destruct cps as [|cp cps].
  - injection H as <- _ _. case_bool_decide; rewrite ?skipn_cons; cbn [length skipn]; rewrite ?skipn_O; lia.
  - cbn [length] in *. repeat case_bool_decide; simplify_eq; lia.
Qed.

Lemma encoding_loop_returns fuel : forall ptr, (length ptr <= fuel)%nat -> returns (encoding_loop fuel ptr) (fun _ => True).
Proof.
  induction fuel as [|fuel IH]; intros [|c ptr] Hl; try done; [simpl in Hl; lia|]. cbn [encoding_loop].
  destruct (encoding_turn (c :: ptr)) as [[rest out] valid] eqn:E. apply encoding_turn_rest in E; [|done].
  eapply returns_bind; [apply IH; simpl in *; lia|]. by intros [tmp all] _.
Qed.

(** Any text is checked, and a valid one is left as it is. *)
Lemma verify_encoding_returns target : returns (verify_encoding target) (fun '(fixed, valid) => valid = true -> fixed = target).
Proof.
  unfold verify_encoding. eapply returns_bind; [by apply encoding_loop_returns|]. intros [tmp valid] _. cbn. by intros ->.
Qed.
