(* ===== verification/TorrentExtras.v ===== *)
(** * What else a torrent file holds

    The parts of [extern/libtorrent/src/torrent_info.cpp] the client has no use for but reads: similar torrents and
    collections, nodes of the DHT, the date, web seeds, the comment and who made the
    torrent.  An error in one of them would keep the torrent from loading. *)

From S2P Require Import Prelude Bdecode TorrentFiles Magnet Urls Encoding.

(** [extern/libtorrent/include/libtorrent/torrent_info.hpp:632-687] torrent_info *)
Record torrent_extras := mk_extras {
  x_similar_torrents : list bytes;
  x_collections : list bytes;
  x_owned_similar_torrents : list bytes;
  x_owned_collections : list bytes;
  x_nodes : list (bytes * Z);
  x_creation_date : Z;
  x_web_seeds : list web_seed_entry;
  x_comment : bytes;
  x_created_by : bytes;
  x_i2p : bool;
}.

Definition extras_empty : torrent_extras := mk_extras [] [] [] [] [] 0 [] [] [] false.

(** What [f] takes from the items of a list, from number [i] on; [n] are left. *)
Fixpoint collect_items {A} (f : bdecode_node -> result (option A)) (n : nat) (i : Z) (list_node : bdecode_node) : result (list A) :=
  match n with
  | O => Ok []
  | S n' =>
      '(e, list_node) ← list_at i list_node;
      x ← f e;
      rest ← collect_items f n' (i + 1) list_node;
      Ok (match x with Some a => a :: rest | None => rest end)
  end.

Definition items_of {A} (f : bdecode_node -> result (option A)) (list_node : bdecode_node) : result (list A) :=
  '(size, list_node) ← list_size list_node; collect_items f (Z.to_nat size) 0 list_node.

(** The items of the list at [key], or none. *)
Definition items_at {A} (f : bdecode_node -> result (option A)) (key : bytes) (dict : bdecode_node) : result (list A) :=
  l ← dict_find_list key dict; if node_bool l then items_of f l else Ok [].

(** [extern/libtorrent/src/torrent_info.cpp:1251-1261] torrent_info::parse_info_section *)
Definition similar_torrent (e : bdecode_node) : result (option bytes) :=
  t ← node_type_of e;
  if negb (bool_decide (t = string_t)) then Ok None
  else
    len ← string_length e;
    if negb (len =? 20) then Ok None else s ← string_value e; Ok (Some s).

(** [extern/libtorrent/src/torrent_info.cpp:1267-1275] torrent_info::parse_info_section *)
Definition collection (e : bdecode_node) : result (option bytes) :=
  t ← node_type_of e;
  if negb (bool_decide (t = string_t)) then Ok None else s ← string_value e; Ok (Some s).

(** [extern/libtorrent/src/torrent_info.cpp:1421-1451] torrent_info::parse_torrent_file
    Similar torrents and collections, of the info section (lines 1247-1277 do the same there) or
    of the file. *)
Definition read_references (dict : bdecode_node) : result (list bytes * list bytes) :=
  similar ← items_at similar_torrent (bytes_of_string "similar") dict;
  collections ← items_at collection (bytes_of_string "collections") dict;
  Ok (similar, collections).

(** [extern/libtorrent/src/torrent_info.cpp:1504-1512] torrent_info::parse_torrent_file
    The port is converted to an [int]. *)
Definition dht_node (n : bdecode_node) : result (option (bytes * Z)) :=
  t ← node_type_of n;
  if negb (bool_decide (t = list_t)) then Ok None
  else
    '(size, n) ← list_size n;
    if size <? 2 then Ok None
    else
      '(host, n) ← list_at 0 n;
      host_type ← node_type_of host;
      if negb (bool_decide (host_type = string_t)) then Ok None
      else
        '(port, n) ← list_at 1 n;
        port_type ← node_type_of port;
        if negb (bool_decide (port_type = int_t)) then Ok None
        else s ← string_value host; v ← int_value port; Ok (Some (s, i32 v)).

(** [extern/libtorrent/src/torrent_info.cpp:1499-1514] torrent_info::parse_torrent_file *)
Definition read_nodes (torrent_file : bdecode_node) : result (list (bytes * Z)) :=
  items_at dht_node (bytes_of_string "nodes") torrent_file.

(** [extern/libtorrent/src/torrent_info.cpp:1516-1521] torrent_info::parse_torrent_file *)
Definition read_creation_date (torrent_file : bdecode_node) : result Z :=
  cd ← dict_find_int_value (bytes_of_string "creation date") (-1) torrent_file; Ok (if 0 <=? cd then cd else 0).

(** ** Web seeds *)

(** [extern/libtorrent/src/torrent_info.cpp:1540-1548] torrent_info::parse_torrent_file
    The URL of an item, encoded; [slash] for a torrent of several files. *)
Definition seed_url (slash : bool) (url : bdecode_node) : result (option bytes) :=
  t ← node_type_of url;
  if negb (bool_decide (t = string_t)) then Ok None
  else
    len ← string_length url;
    if len =? 0 then Ok None
    else
      s ← string_value url;
      u ← maybe_url_encode s;
      Ok (Some (if slash then ensure_trailing_slash u else u)).

(** [if (!unique.insert(u).second) continue;] *)
Fixpoint only_once (unique : list bytes) (urls : list bytes) : list bytes :=
  match urls with
  | [] => []
  | u :: urls' => if bool_decide (u ∈ unique) then only_once unique urls' else u :: only_once (u :: unique) urls'
  end.

(** [extern/libtorrent/src/torrent_info.cpp:1524-1550] torrent_info::parse_torrent_file
    The URLs at [key]: a string, or a list of which each is taken once.  Lines 1553-1572 do the same
    for http seeds, without slashes. *)
Definition seed_urls (slash : bool) (key : bytes) (torrent_file : bdecode_node) : result (list bytes) :=
  url_seeds ← dict_find key torrent_file;
  if negb (node_bool url_seeds) then Ok []
  else
    t ← node_type_of url_seeds;
    if bool_decide (t = string_t) then u ← seed_url slash url_seeds; Ok (option_list u)
    else if bool_decide (t = list_t) then urls ← items_of (seed_url slash) url_seeds; Ok (only_once [] urls)
    else Ok [].

(** [extern/libtorrent/src/torrent_info.cpp:1523-1572] torrent_info::parse_torrent_file *)
Definition read_web_seeds (slash : bool) (torrent_file : bdecode_node) : result (list web_seed_entry) :=
  url_seeds ← seed_urls slash (bytes_of_string "url-list") torrent_file;
  http_seeds ← seed_urls false (bytes_of_string "httpseeds") torrent_file;
  Ok (map (fun u => mk_web_seed u url_seed) url_seeds ++ map (fun u => mk_web_seed u http_seed) http_seeds).

(** ** Texts *)

(** [extern/libtorrent/src/torrent_info.cpp:1574-1576] torrent_info::parse_torrent_file
    Lines 1578-1580 do the same for who made the torrent. *)
Definition read_text (key_utf8 key : bytes) (torrent_file : bdecode_node) : result bytes :=
  s ← dict_find_string_value key_utf8 [] torrent_file;
  s ← (match s with [] => dict_find_string_value key [] torrent_file | _ => Ok s end);
  '(fixed, _) ← verify_encoding s;
  Ok fixed.

(** ** All of it *)

(** [extern/libtorrent/src/torrent_info.cpp:1470-1472] torrent_info::parse_torrent_file
    Whether one of the URLs of the trackers is of I2P. *)
Fixpoint any_i2p (urls : list bytes) : result bool :=
  match urls with
  | [] => Ok false
  | u :: urls' => b ← is_i2p_url u; b' ← any_i2p urls'; Ok (b || b')
  end.

(** The extras the info section has been read to. *)
Definition info_extras (references : list bytes * list bytes) : torrent_extras :=
  mk_extras references.1 references.2 [] [] [] 0 [] [] [] false.

(** [extern/libtorrent/src/torrent_info.cpp:1498-1583] torrent_info::parse_torrent_file
    The parts around the trackers, whose URLs are given; none of them ends with an error. *)
Definition read_extras (torrent_file : bdecode_node) (urls : list bytes) (slash : bool) (x : torrent_extras) : result torrent_extras :=
  references ← read_references torrent_file;
  i2p ← any_i2p urls;
  nodes ← read_nodes torrent_file;
  date ← read_creation_date torrent_file;
  seeds ← read_web_seeds slash torrent_file;
  comment ← read_text (bytes_of_string "comment.utf-8") (bytes_of_string "comment") torrent_file;
  created_by ← read_text (bytes_of_string "created by.utf-8") (bytes_of_string "created by") torrent_file;
  Ok (mk_extras (x_similar_torrents x) (x_collections x) references.1 references.2 nodes date seeds comment created_by i2p).
