(* ===== verification/TorrentInfo.v ===== *)
(** * Reading a torrent file

    [extern/libtorrent/src/torrent_info.cpp]: from the bytes of a torrent file to what the client uses of it: the
    files, the sizes, the hashes of the pieces, the info hash and the trackers, with the
    rest of the file (TorrentExtras.v).  A file may hold a magnet link instead (Magnet.v). *)

From S2P Require Import Prelude MsgFactory Net Storage Sha1 Bdecode BdecodeText Paths FileStorage Symlinks TorrentFiles TorrentNames Magnet TorrentExtras.

(** [extern/libtorrent/include/libtorrent/announce_entry.hpp:148-191] announce_entry
    What the client reads of it, and the tier. *)
Record announce_entry := mk_announce_entry { ae_url : bytes; ae_tier : Z }.

(** [extern/libtorrent/src/announce_entry.cpp:155-159] announce_entry::trim *)
Fixpoint trim (url : bytes) : bytes :=
  match url with [] => [] | c :: url' => if is_space c then trim url' else url end.

(** [std::shuffle] with the generator's state. *)
Class Shuffle := shuffle : forall {A}, list A -> list A.
Class ShuffleLaws (SH : Shuffle) := shuffle_permutes : forall A (l : list A), Permutation (shuffle l) l.

(** [extern/libtorrent/include/libtorrent/torrent_info.hpp:630-724] torrent_info *)
Record torrent_object := mk_object {
  o_files : file_storage;
  o_urls : list announce_entry;
  o_info_hash : bytes;
  o_piece_hashes : option bytes;
  o_merkle_tree : list bytes;
  o_merkle_first_leaf : Z;
  o_multifile : bool;
  o_private : bool;
  o_ssl : bool;
  o_extras : torrent_extras;
}.

Definition no_hash : bytes := replicate 20 0.

(** A [torrent_info] before anything is parsed. *)
Definition object_empty : torrent_object := mk_object fs_empty [] no_hash None [] 0 false false false extras_empty.

Definition set_files (fs : file_storage) (o : torrent_object) : torrent_object :=
  mk_object fs (o_urls o) (o_info_hash o) (o_piece_hashes o) (o_merkle_tree o) (o_merkle_first_leaf o) (o_multifile o) (o_private o) (o_ssl o) (o_extras o).
Definition set_urls (urls : list announce_entry) (o : torrent_object) : torrent_object :=
  mk_object (o_files o) urls (o_info_hash o) (o_piece_hashes o) (o_merkle_tree o) (o_merkle_first_leaf o) (o_multifile o) (o_private o) (o_ssl o) (o_extras o).
Definition set_info_hash (h : bytes) (o : torrent_object) : torrent_object :=
  mk_object (o_files o) (o_urls o) h (o_piece_hashes o) (o_merkle_tree o) (o_merkle_first_leaf o) (o_multifile o) (o_private o) (o_ssl o) (o_extras o).
Definition set_piece_hashes (h : option bytes) (tree : list bytes) (leaf : Z) (o : torrent_object) : torrent_object :=
  mk_object (o_files o) (o_urls o) (o_info_hash o) h tree leaf (o_multifile o) (o_private o) (o_ssl o) (o_extras o).
Definition set_multifile (b : bool) (o : torrent_object) : torrent_object :=
  mk_object (o_files o) (o_urls o) (o_info_hash o) (o_piece_hashes o) (o_merkle_tree o) (o_merkle_first_leaf o) b (o_private o) (o_ssl o) (o_extras o).
Definition set_flags (private_torrent ssl_torrent : bool) (o : torrent_object) : torrent_object :=
  mk_object (o_files o) (o_urls o) (o_info_hash o) (o_piece_hashes o) (o_merkle_tree o) (o_merkle_first_leaf o) (o_multifile o)
    (o_private o || private_torrent) (o_ssl o || ssl_torrent) (o_extras o).
Definition set_extras (x : torrent_extras) (o : torrent_object) : torrent_object :=
  mk_object (o_files o) (o_urls o) (o_info_hash o) (o_piece_hashes o) (o_merkle_tree o) (o_merkle_first_leaf o) (o_multifile o) (o_private o) (o_ssl o) x.

(** The object, the error code and whether parsing succeeded. *)
Definition outcome : Type := torrent_object * option torrent_error * bool.

(** [m_files.set_piece_length(0); return false;] *)
Definition invalid (ec : option torrent_error) (o : torrent_object) : outcome :=
  (set_files (set_piece_length 0 (o_files o)) o, ec, false).

(** ** Hashes of pieces *)

(** [extern/libtorrent/src/merkle.cpp:59-66] merkle_num_leafs *)
Fixpoint merkle_leafs_loop (fuel : nat) (pieces ret : Z) : result Z :=
  if ret <? pieces then
    match fuel with O => Fault OutOfFuel | S fuel' => merkle_leafs_loop fuel' pieces (Z.shiftl ret 1) end
  else Ok ret.

Definition merkle_num_leafs (pieces : Z) : result Z := merkle_leafs_loop 31 pieces 1.

(** [extern/libtorrent/src/merkle.cpp:53-57] merkle_num_nodes *)
Definition merkle_num_nodes (leafs : Z) : Z := Z.shiftl leafs 1 - 1.

(** [num_pieces * 20], an [int] *)
Definition hashes_size (num_pieces : Z) : result Z :=
  if (- 2 ^ 31 <=? num_pieces * 20) && (num_pieces * 20 <? 2 ^ 31) then Ok (num_pieces * 20) else Fault SignedOverflow.

(** [extern/libtorrent/src/torrent_info.cpp:1186-1242] torrent_info::parse_info_section *)
Definition parse_hashes (info : bdecode_node) (num_pieces max_pieces : Z) (o : torrent_object) : result (attempt torrent_object) :=
  pieces ← dict_find_string (bytes_of_string "pieces") info;
  root_hash ← dict_find_string (bytes_of_string "root hash") info;
  if negb (node_bool pieces) && negb (node_bool root_hash) then fails torrent_missing_pieces
  else if ((2 ^ 31 - 1) / 20 <=? num_pieces) || (max_pieces <? num_pieces) then fails too_many_pieces_in_torrent
  else if node_bool pieces then
    len ← string_length pieces;
    size ← hashes_size num_pieces;
    if negb (len =? size) then fails torrent_invalid_hashes
    else
      s ← string_value pieces;
      succeeds (set_piece_hashes (Some s) (o_merkle_tree o) (o_merkle_first_leaf o) o)
  else
    len ← string_length root_hash;
    if negb (len =? 20) then fails torrent_invalid_hashes
    else if num_pieces <=? 0 then fails no_files_in_torrent
    else
      num_leafs ← merkle_num_leafs num_pieces;
      let num_nodes := merkle_num_nodes num_leafs in
      root ← string_value root_hash;
      succeeds (set_piece_hashes (o_piece_hashes o) (<[0%nat := root]> (replicate (Z.to_nat num_nodes) no_hash)) (num_nodes - num_leafs) o).

(** [extern/libtorrent/include/libtorrent/torrent_info.hpp:489-508] torrent_info::hash_for_piece_ptr
    The 20 bytes at the place of the piece; the index is not checked, so that of a piece the
    torrent does not have they are whatever is stored there. *)
Definition hash_for_piece `{PastEnd} (o : torrent_object) (index : Z) : bytes :=
  match o_merkle_tree o with
  | [] => bytes_at (default [] (o_piece_hashes o)) (index * 20) 20
  | _ =>
      let i := o_merkle_first_leaf o + index in
      match (if i <? 0 then None else o_merkle_tree o !! Z.to_nat i) with
      | Some h => h
      | None => bytes_at (concat (o_merkle_tree o)) (i * 20) 20
      end
  end.

(** ** The info section *)

(** [extern/libtorrent/src/torrent_info.cpp:1111-1153] torrent_info::parse_info_section
    The files, and whether there is a list of them. *)
Definition parse_files (info : bdecode_node) (info_hash : bytes) (files : file_storage) :
    result (attempt (file_storage * bool)) :=
  name_ent ← prefer dict_find_string (bytes_of_string "name.utf-8") (bytes_of_string "name") info;
  if negb (node_bool name_ent) then fails torrent_missing_name
  else
    s ← string_value name_ent;
    name ← sanitize_append_path_element [] s;
    let name := if bool_decide (name = []) then to_hex info_hash else name in
    files_node ← dict_find_list (bytes_of_string "files") info;
    if negb (node_bool files_node) then
      '(files, _) ↤ extract_single_file info files [] true 0;
      files ← sanitize_symlinks files; succeeds (files, false)
    else files ↤ extract_files files_node files name; succeeds (files, true).

(** [extern/libtorrent/src/torrent_info.cpp:1183-1184] torrent_info::parse_info_section
    C++ divides towards zero; the quotient is converted to [int]. *)
Definition count_pieces (files : file_storage) : Z :=
  i32 (Z.quot (m_total_size files + m_piece_length files - 1) (m_piece_length files)).

(** [extern/libtorrent/src/torrent_info.cpp:1154-1284] torrent_info::parse_info_section
    From the files to the end. *)
Definition finish_info (info : bdecode_node) (files : file_storage) (max_pieces : Z) (o : torrent_object) : result outcome :=
  if bool_decide (m_files files = []) then Ok (invalid (Some no_files_in_torrent) o)
  else if bool_decide (m_name files = []) then Ok (invalid (Some torrent_missing_name) o)
  else if (2 ^ 31 - 1 - m_piece_length files) * m_piece_length files <=? m_total_size files then
    Ok (invalid (Some too_many_pieces_in_torrent) o)
  else
    let files := set_num_pieces (count_pieces files) files in
    r ← parse_hashes info (m_num_pieces files) max_pieces o;
    match r with
    | inl ec => Ok (invalid ec o)
    | inr o =>
        private_torrent ← dict_find_int_value (bytes_of_string "private") 0 info;
        references ← read_references info;
        cert ← dict_find_string (bytes_of_string "ssl-cert") info;
        Ok (set_extras (info_extras references) (set_files files (set_flags (negb (private_torrent =? 0)) (node_bool cert) o)), None, true)
    end.

Section TorrentInfo.
Context {EN : Endian} {CRC : Crc32c} {SH : Shuffle}.

(** [extern/libtorrent/src/torrent_info.cpp:1071-1285] torrent_info::parse_info_section
    [garbage] is what the uninitialised buffer of the hasher holds. *)
Definition parse_info_section (garbage : bytes) (info : bdecode_node) (max_pieces : Z) (o : torrent_object) : result outcome :=
  t ← node_type_of info;
  if negb (bool_decide (t = dict_t)) then Ok (o, Some torrent_info_no_dict, false)
  else
    section ← data_section info;
    info_hash ← hash_parts garbage [section];
    let o := set_info_hash info_hash o in
    if 2 ^ 31 - 1 <=? Z.of_nat (length section) then Ok (o, Some metadata_too_large, false)
    else
      piece_length ← dict_find_int_value (bytes_of_string "piece length") (-1) info;
      if (piece_length <=? 0) || (2 ^ 31 - 1 <? piece_length) then Ok (o, Some torrent_missing_piece_length, false)
      else
        r ← parse_files info info_hash (set_piece_length piece_length fs_empty);
        match r with
        | inl ec => Ok (invalid ec o)
        | inr (files, multifile) => finish_info info files max_pieces (set_multifile multifile o)
        end.

(** ** Trackers *)

(** [extern/libtorrent/src/torrent_info.cpp:1462-1474] torrent_info::parse_torrent_file
    The URLs of tier [j] from number [k] on; [n] are left. *)
Fixpoint tier_urls (n : nat) (k j : Z) (tier : bdecode_node) : result (list announce_entry) :=
  match n with
  | O => Ok []
  | S n' =>
      '(s, tier) ← list_string_value_at k [] tier;
      let url := trim s in
      rest ← tier_urls n' (k + 1) j tier;
      Ok (if bool_decide (url = []) then rest else mk_announce_entry url (u8 j) :: rest)
  end.

(** [extern/libtorrent/src/torrent_info.cpp:1458-1475] torrent_info::parse_torrent_file *)
Fixpoint announce_tiers (n : nat) (j : Z) (announce_node : bdecode_node) : result (list announce_entry) :=
  match n with
  | O => Ok []
  | S n' =>
      '(tier, announce_node) ← list_at j announce_node;
      t ← node_type_of tier;
      urls ← (if bool_decide (t = list_t) then '(end2, tier) ← list_size tier; tier_urls (Z.to_nat end2) 0 j tier else Ok []);
      rest ← announce_tiers n' (j + 1) announce_node;
      Ok (urls ++ rest)
  end.

(** [std::stable_sort] by tier. *)
Fixpoint insert_tier (e : announce_entry) (l : list announce_entry) : list announce_entry :=
  match l with
  | [] => [e]
  | e' :: l' => if ae_tier e <=? ae_tier e' then e :: l else e' :: insert_tier e l'
  end.

Definition sort_tiers (l : list announce_entry) : list announce_entry := foldr insert_tier [] l.

(** [extern/libtorrent/src/torrent_info.cpp:1453-1497] torrent_info::parse_torrent_file
    The trackers of a torrent that has none yet. *)
Definition parse_trackers (torrent_file : bdecode_node) : result (list announce_entry) :=
  announce_node ← dict_find_list (bytes_of_string "announce-list") torrent_file;
  urls ← (if node_bool announce_node then
            '(size, announce_node) ← list_size announce_node;
            urls ← announce_tiers (Z.to_nat size) 0 announce_node;
            Ok (if bool_decide (urls = []) then [] else sort_tiers (shuffle urls))
          else Ok []);
  if bool_decide (urls = []) then
    s ← dict_find_string_value (bytes_of_string "announce") [] torrent_file;
    Ok (if bool_decide (trim s = []) then [] else [mk_announce_entry (trim s) 0])
  else Ok urls.

(** ** The whole file *)

(** [extern/libtorrent/src/torrent_info.cpp:87-87] default_piece_limit *)
Definition default_piece_limit : Z := 0x100000.

(** [extern/libtorrent/src/torrent_info.cpp:1389-1583] torrent_info::parse_torrent_file
    On a fresh object. *)
Definition parse_torrent_file (garbage : bytes) (torrent_file : bdecode_node) (piece_limit : Z) : result outcome :=
  let o := object_empty in
  t ← node_type_of torrent_file;
  if negb (bool_decide (t = dict_t)) then Ok (o, Some torrent_is_no_dict, false)
  else
    info ← dict_find_dict (bytes_of_string "info") torrent_file;
    if negb (node_bool info) then
      uri ← dict_find_string (bytes_of_string "magnet-uri") torrent_file;
      if node_bool uri then
        s ← string_value uri;
        p ← parse_magnet_uri s;
        match p with
        | inl ec => Ok (o, Some ec, false)
        | inr p =>
            Ok (set_urls (map (fun url => mk_announce_entry url 0) (mg_trackers p)) (set_info_hash (mg_info_hash p) o), None, true)
        end
      else Ok (o, Some torrent_missing_info, false)
    else
      '(o, ec, parsed) ← parse_info_section garbage info piece_limit o;
      if negb parsed then Ok (o, ec, false)
      else
        files ← resolve_duplicate_filenames (o_files o);
        urls ← parse_trackers torrent_file;
        extras ← read_extras torrent_file (map ae_url urls) (o_multifile o && (1 <? Z.of_nat (length (m_files files)))) (o_extras o);
        Ok (set_extras extras (set_urls urls (set_files files o)), ec, true).

(** The value of the [error_code] the constructor sets. *)
Inductive load_error := bdecode_failed (e : bdecode_error) | torrent_failed (e : torrent_error).

(** [extern/libtorrent/src/torrent_info.cpp:960-968] torrent_info::torrent_info
    The object and the error code. *)
Definition torrent_info_create (garbage buffer : bytes) : result (torrent_object * option load_error) :=
  '(e, ec, _) ← bdecode_default buffer;
  if negb (bool_decide (ec = no_error)) then Ok (object_empty, Some (bdecode_failed ec))
  else
    '(o, ec, _) ← parse_torrent_file garbage e default_piece_limit;
    Ok (o, option_map torrent_failed ec).
End TorrentInfo.

(** What the client asks of a torrent. *)
Definition info_of `{PastEnd} (o : torrent_object) : torrent_info :=
  mk_torrent_info (m_piece_length (o_files o)) (m_num_pieces (o_files o)) (m_total_size (o_files o)) (entries (o_files o))
    (hash_for_piece o) (o_info_hash o) (map ae_url (o_urls o)).
