(* ===== verification/TorrentLayout.v ===== *)
(** * What a loaded torrent guarantees

    The files that reading a torrent file leaves lie one after the other, however the file
    was made and whatever was renamed; the pieces fill them and each has its hash.  This is
    what the theorems about the download take for granted as [torrent_ok]. *)

From S2P Require Import Prelude MsgFactory Net Storage Sha1 Bdecode BdecodeSpec BdecodeNodes Paths FileStorage Symlinks TorrentFiles TorrentNames TorrentExtras TorrentInfo.

(** ** Successful attempts *)

Lemma and_then_ok {A B} (m : result (attempt A)) (f : A -> result (attempt B)) b :
  and_then m f = Ok (inr b) <-> exists a, m = Ok (inr a) /\ f a = Ok (inr b).
Proof.
  unfold and_then. rewrite result_bind_ok. split.
  - intros ([e|a] & Hm & Hf); [done|by exists a].
  - intros (a & Hm & Hf). by exists (inr a).
Qed.

(** Take apart a call that has returned: its steps, and the tests it has passed. *)
Ltac unbind H :=
  repeat lazymatch type of H with
  | and_then _ _ = Ok (inr _) => let a := fresh "a" in let E := fresh "E" in apply and_then_ok in H as (a & E & H); cbv beta iota in H
  | mbind _ _ = Ok _ => let a := fresh "a" in let E := fresh "E" in apply result_bind_ok in H as (a & E & H); cbv beta iota in H
  | (let '(_, _) := ?p in _) = Ok _ => let x := fresh "x" in let y := fresh "y" in destruct p as [x y]; cbv beta iota in H
  | (if ?b then _ else _) = Ok _ => let E := fresh "E" in destruct b eqn:E; cbv beta iota in H
  | Ok _ = Ok _ => injection H as H
  | fails _ = Ok (inr _) => discriminate H
  | succeeds _ = Ok (inr _) => unfold succeeds in H; injection H as H
  end.

(** ** The list of files *)

(** The files lie one after the other from [o] on and end at [total], up to the wrap-around
    of the 48 bits of an offset and the 64 bits of the sum. *)
Fixpoint laid (o : Z) (files : list internal_file_entry) (total : Z) : Prop :=
  match files with
  | [] => o = total
  | e :: files' => if_offset e = o mod 2 ^ 48 /\ 0 <= if_size e < 2 ^ 48 /\ laid (i64 (o + if_size e)) files' total
  end.

Fixpoint sizes (files : list internal_file_entry) : Z :=
  match files with [] => 0 | e :: files' => if_size e + sizes files' end.

Lemma laid_snoc files e : forall o t total, laid o files t -> if_offset e = t mod 2 ^ 48 -> 0 <= if_size e < 2 ^ 48 ->
  total = i64 (t + if_size e) -> laid o (files ++ [e]) total.
Proof.
  induction files as [|f files IH]; cbn [app laid]; intros o t total Hl Ho Hs Ht; [by subst|].
  destruct Hl as (? & ? & Hl). split_and!; [done|lia|lia|]. by eapply IH.
Qed.

Lemma laid_sizes_nonneg o files total : laid o files total -> 0 <= sizes files.
Proof. revert o. induction files as [|e files IH]; intros o; cbn; [lia|]. intros (_ & ? & Hl). apply IH in Hl. lia. Qed.

(** Without wrap-around: the files of [torrent_ok]. *)
Lemma laid_files_ok fs files : forall o total, laid o files total -> 0 <= o -> o + sizes files < 2 ^ 48 ->
  files_ok o (map (file_entry_of fs) files) total /\ total = o + sizes files.
Proof.
  induction files as [|e files IH]; intros o total Hl Ho Hs; cbn in *; [split; lia|].
  destruct Hl as (Hoff & Hsz & Hl). pose proof (laid_sizes_nonneg _ _ _ Hl) as Hn.
  rewrite i64_small in Hl by lia. destruct (IH _ _ Hl) as [Hok ->]; [lia|lia|].
  rewrite Z.mod_small in Hoff by lia. split_and!; [done|lia|done|lia].
Qed.

(** What holds of a list of files from its creation on. *)
Definition files_laid (pl : Z) (fs : file_storage) : Prop :=
  laid 0 (m_files fs) (m_total_size fs) /\ m_piece_length fs = pl.

Lemma added_laid pl filename path file_size file_flags filehash mtime symlink_path fs : files_laid pl fs ->
  files_laid pl (add_file_borrow filename path file_size file_flags filehash mtime symlink_path fs).
Proof.
  intros [Hl Hp]. destruct (added_entry filename path file_size file_flags filehash mtime symlink_path fs)
    as (e & He & Ho & Hs & Ht & Hpl & _). split; [|by rewrite Hpl].
  rewrite He. apply (laid_snoc _ _ _ (m_total_size fs)); [done|done| |].
  - rewrite Hs. apply Z.mod_pos_bound. lia.
  - by rewrite Ht, Hs.
Qed.

Lemma extract_single_file_laid pl dict fs root_dir top_level cnt fs' cnt' : files_laid pl fs ->
  extract_single_file dict fs root_dir top_level cnt = Ok (inr (fs', cnt')) -> files_laid pl fs'.
Proof.
  intros Hl H. unfold extract_single_file in H. unbind H; try done; simplify_eq; by apply added_laid.
Qed.

Lemma extract_loop_laid pl n : forall i list fs root_dir cnt fs', files_laid pl fs ->
  extract_loop n i list fs root_dir cnt = Ok (inr fs') -> files_laid pl fs'.
Proof.
  induction n as [|n IH]; intros i list fs root_dir cnt fs' Hl H; cbn [extract_loop] in H; unbind H; [by subst|].
  eapply IH; [|done]. by eapply extract_single_file_laid.
Qed.

Lemma sanitize_laid pl fs fs' : files_laid pl fs -> sanitize_symlinks fs = Ok fs' -> files_laid pl fs'.
Proof. by intros Hl (symlinks & ->)%sanitize_symlinks_only. Qed.

Lemma parse_files_laid pl info info_hash fs fs' multi : files_laid pl fs ->
  parse_files info info_hash fs = Ok (inr (fs', multi)) -> files_laid pl fs'.
Proof.
  intros Hl H. unfold parse_files in H. unbind H; simplify_eq.
  - eapply sanitize_laid; [|done]. by eapply extract_single_file_laid.
  - unfold extract_files in *. match goal with E : _ = Ok (inr fs') |- _ => unbind E end. subst.
    eapply sanitize_laid; [|done]. by eapply extract_loop_laid.
Qed.

(** ** Renaming *)

(** [fs'] differs from [fs] in names at most. *)
Definition renamed (fs fs' : file_storage) : Prop :=
  map (fun e => (if_offset e, if_size e)) (m_files fs') = map (fun e => (if_offset e, if_size e)) (m_files fs) /\
  m_total_size fs' = m_total_size fs /\ m_piece_length fs' = m_piece_length fs /\ m_num_pieces fs' = m_num_pieces fs.

#[global] Instance renamed_preorder : PreOrder renamed.
Proof. split; [by intros fs|]. intros a b c (H1 & H2 & H3 & H4) (H1' & H2' & H3' & H4'). split_and!; congruence. Qed.

Lemma update_path_index_layout e path b name paths e' paths' : update_path_index e path b name paths = (e', paths') ->
  if_offset e' = if_offset e /\ if_size e' = if_size e.
Proof.
  assert (forall n c e, if_offset (set_name n c e) = if_offset e /\ if_size (set_name n c e) = if_size e) as Hn
    by (intros n c x; unfold set_name; destruct n; [done|by destruct c]).
  unfold update_path_index. intros H. repeat (case_match; simplify_eq); 
    cbn [if_offset if_size set_path_index]; rewrite ?(proj1 (Hn _ _ _)), ?(proj2 (Hn _ _ _)); done.
Qed.

Lemma rename_file_renamed i name fs fs' : rename_file i name fs = Ok fs' -> renamed fs fs'.
Proof.
  unfold rename_file. destruct (m_files fs !! i) as [e|] eqn:Ei; [|done].
  destruct (update_path_index e name true _ _) as [e' paths] eqn:E. intros [= <-].
  apply update_path_index_layout in E as [Eo Es]. split_and!; try done. cbn [m_files].
  rewrite list_fmap_insert, Eo, Es. apply list_insert_id. by rewrite list_lookup_fmap, Ei.
Qed.

Section Layout.
Context {EN : Endian} {CRC : Crc32c} {SH : Shuffle} {PE : PastEnd}.

Lemma resolve_turn_renamed i fs files fs' files' : resolve_turn i fs files = Ok (fs', files') -> renamed fs fs'.
Proof.
  unfold resolve_turn. destruct (m_files fs !! i) as [fe|]; [|done]. destruct (find_match fs fe files) as [other|]; [|by intros [= <- _]].
  intros H. unbind H; simplify_eq; [done|]. by eapply rename_file_renamed.
Qed.

Lemma resolve_renamed fs fs' : resolve_duplicate_filenames fs = Ok fs' -> renamed fs fs'.
Proof.
  unfold resolve_duplicate_filenames, resolve_duplicate_filenames_slow. destruct (collides _ _); [|by intros [= <-]].
  generalize (dir_entries fs) as files, 0%nat as i, (length (m_files fs)) as n. intros files i n. revert files i fs.
  induction n as [|n IH]; intros files i fs H; cbn [resolve_loop] in H; unbind H; simplify_eq; [done|].
  etrans; [by eapply resolve_turn_renamed|by eapply IH].
Qed.

Lemma laid_renamed files files' : map (fun e => (if_offset e, if_size e)) files' = map (fun e => (if_offset e, if_size e)) files ->
  sizes files' = sizes files /\ forall o total, laid o files total -> laid o files' total.
Proof.
  revert files'. induction files as [|e files IH]; intros [|e' files'] H; try done. injection H as Ho Hs H.
  destruct (IH files' H) as [Hz Hl]. cbn [sizes laid]. rewrite Ho, Hs, Hz. split; [done|]. naive_solver.
Qed.

(** ** The hashes of the pieces *)

Lemma merkle_leafs_enough fuel : forall pieces ret, 0 < ret -> pieces <= ret * 2 ^ Z.of_nat fuel ->
  exists r, merkle_leafs_loop fuel pieces ret = Ok r /\ pieces <= r /\ ret <= r.
Proof.
  induction fuel as [|fuel IH]; intros pieces ret Hr Hp; cbn [merkle_leafs_loop].
  - rewrite (proj2 (Z.ltb_ge ret pieces)) by lia. exists ret. split_and!; [done|lia|lia].
  - destruct (Z.ltb_spec ret pieces) as [Hlt|Hge]; [|by exists ret].
    rewrite Z.shiftl_mul_pow2 by lia. destruct (IH pieces (ret * 2 ^ 1)) as (r & -> & H1 & H2); [lia| |].
    + rewrite Nat2Z.inj_succ, Z.pow_succ_r in Hp by lia. lia.
    + exists r. split_and!; [done|lia|lia].
Qed.

(** A torrent has a hash for every piece, and no more pieces than allowed. *)
Definition hashes_ok (num_pieces max_pieces : Z) (o : torrent_object) : Prop :=
  num_pieces <= max_pieces /\ forall i, 0 <= i < num_pieces -> length (hash_for_piece o i) = 20%nat.


Lemma parse_hashes_ok info l num_pieces max_pieces o o' : denotes info (BDict l) -> o_merkle_tree o = [] ->
  parse_hashes info num_pieces max_pieces o = Ok (inr o') -> hashes_ok num_pieces max_pieces o'.
Proof.
  intros Hn Ho H. unfold parse_hashes in H.
  destruct (dict_find_string_node info l (bytes_of_string "pieces") Hn) as (pieces & Hp & Hps). rewrite Hp in H.
  destruct (dict_find_string_node info l (bytes_of_string "root hash") Hn) as (root & Hr & Hrs). rewrite Hr in H.
  cbn [mbind result_bind] in H. destruct (string_of _ l) as [s|].
  - destruct Hps as (_ & Hb & Hs & Hlen). rewrite Hb, Hs, Hlen in H. cbn [negb andb mbind result_bind] in H. unbind H.
    unfold hashes_size in *. destruct (_ && _) in E0; [|done]. injection E0 as <-. subst o'.
    apply negb_false_iff, Z.eqb_eq in E1. apply orb_false_iff in E as [_ E%Z.ltb_ge]. split; [done|]. intros i Hi.
    unfold hash_for_piece. cbn [o_merkle_tree o_piece_hashes set_piece_hashes default]. rewrite Ho.
    apply length_bytes_at.
  - rewrite Hps in H. cbn [negb andb] in H. destruct (string_of (bytes_of_string "root hash") l) as [s|]; [|by rewrite Hrs in H].
    destruct Hrs as (_ & Hb & Hs & Hlen). rewrite Hb, Hs, Hlen in H. cbn [negb mbind result_bind] in H. unbind H.
    apply negb_false_iff, Z.eqb_eq in E0. apply Z.leb_gt in E1. apply orb_false_iff in E as [E%Z.leb_gt E'%Z.ltb_ge].
    change ((2 ^ 31 - 1) / 20) with 107374182 in E.
    destruct (merkle_leafs_enough 31 num_pieces 1) as (r & Hm & Hr1 & Hr2); [lia|simpl; lia|].
    unfold merkle_num_leafs in E2. rewrite Hm in E2. injection E2 as <-. subst o'. split; [done|]. intros i Hi.
    unfold hash_for_piece. cbn [o_merkle_tree o_merkle_first_leaf set_piece_hashes]. unfold merkle_num_nodes.
    rewrite Z.shiftl_mul_pow2 by lia. change (2 ^ 1) with 2. set (n := Z.to_nat (r * 2 - 1)).
    assert (exists m, n = S m) as [m Hn'] by (exists (pred n); lia). rewrite Hn'. cbn [replicate insert list_insert].
    assert (Forall (fun h => length h = 20%nat) (s :: replicate m no_hash)) as Hall
      by (constructor; [lia|by apply Forall_replicate]).
    destruct (if _ <? _ then _ else _) as [h|] eqn:Eh; [|apply length_bytes_at]. destruct (_ <? _); [done|]. by eapply Forall_lookup_1 in Hall.
Qed.

(** ** The torrent *)

(** What reading the info section leaves: pieces counted from files that are laid out. *)
Record info_ok (max_pieces : Z) (o : torrent_object) : Prop := {
  iok_piece_length : 0 < m_piece_length (o_files o) < 2 ^ 31;
  iok_laid : laid 0 (m_files (o_files o)) (m_total_size (o_files o));
  iok_total : m_total_size (o_files o) < (2 ^ 31 - 1 - m_piece_length (o_files o)) * m_piece_length (o_files o);
  iok_pieces : m_num_pieces (o_files o) = count_pieces (o_files o);
  iok_hashes : hashes_ok (m_num_pieces (o_files o)) max_pieces o;
}.

Lemma finish_info_ok info l files max_pieces o o' ec : denotes info (BDict l) -> o_merkle_tree o = [] ->
  files_laid (m_piece_length files) files -> 0 < m_piece_length files < 2 ^ 31 ->
  finish_info info files max_pieces o = Ok (o', ec, true) -> info_ok max_pieces o'.
Proof.
  intros Hn Ho [Hl _] Hpl H. unfold finish_info in H. unbind H; try done.
  destruct a as [e|o1]; [by injection H|]. unbind H. subst o'.
  apply Z.leb_gt in E1. eapply parse_hashes_ok in E2 as [Hm Hh]; [|done|done].
  split; cbn [set_extras set_flags set_files o_files m_piece_length m_files m_total_size m_num_pieces set_num_pieces]; try done.
Qed.

Lemma parse_info_section_ok garbage info v max_pieces o o' ec : denotes info v -> o_merkle_tree o = [] ->
  parse_info_section garbage info max_pieces o = Ok (o', ec, true) -> info_ok max_pieces o'.
Proof.
  intros Hn Ho H. unfold parse_info_section in H. rewrite (node_type_of_denotes _ _ Hn) in H. cbn [mbind result_bind] in H.
  destruct v as [z|s|l|l]; cbn [value_type] in H; try (by injection H). unbind H; try done.
  destruct a2 as [e|[files multi]]; [by injection H|]. apply orb_false_iff in E4 as [Hlow%Z.leb_gt Hhigh%Z.ltb_ge].
  eapply (parse_files_laid a1) in E5 as [Hl Hp]; [|by split]. eapply finish_info_ok; [done| | | |done]; rewrite ?Hp; [done|done|lia].
Qed.

(** When parsing stops, no files are taken over. *)
Lemma parse_info_section_fresh garbage info max_pieces o o' ec : m_files (o_files o) = [] ->
  parse_info_section garbage info max_pieces o = Ok (o', ec, false) -> m_files (o_files o') = [].
Proof.
  intros Ho H. unfold parse_info_section, finish_info in H. unbind H; subst; try done.
  destruct a3 as [e|[files multi]]; unbind H; subst; try done. destruct a3 as [e|o1]; unbind H; by subst.
Qed.

Lemma parse_info_section_no_error garbage info max_pieces o o' ec :
  parse_info_section garbage info max_pieces o = Ok (o', ec, true) -> ec = None.
Proof.
  intros H. unfold parse_info_section, finish_info in H. unbind H; subst; try done.
  destruct a3 as [e|[files multi]]; unbind H; subst; try done. destruct a3 as [e|o1]; unbind H; by subst.
Qed.

Lemma info_ok_renamed max_pieces o files urls extras : info_ok max_pieces o -> renamed (o_files o) files ->
  info_ok max_pieces (set_extras extras (set_urls urls (set_files files o))) /\ sizes (m_files files) = sizes (m_files (o_files o)).
Proof.
  intros [Hpl Hl Ht Hp Hh] (Hr & Et & Epl & En). destruct (laid_renamed _ _ Hr) as [Hs Hl']. split; [|done].
  split; cbn [set_extras set_urls set_files o_files]; rewrite ?Et, ?Epl, ?En; [done|by apply Hl'|done| |done].
  rewrite Hp. unfold count_pieces. by rewrite Et, Epl.
Qed.

(** How a file that loads without an error and has files was read. *)
Record read_as (garbage buffer : bytes) (o : torrent_object) (n info : bdecode_node) (l li : list (bytes * bvalue))
    (o1 : torrent_object) (files : file_storage) (urls : list announce_entry) (extras : torrent_extras) : Prop := {
  ra_decoded : exists pos, bdecode_default buffer = Ok (n, no_error, pos);
  ra_root : denotes n (BDict l);
  ra_find : dict_find_dict (bytes_of_string "info") n = Ok info;
  ra_value : value_of (bytes_of_string "info") l = Some (BDict li);
  ra_info : denotes info (BDict li);
  ra_parsed : parse_info_section garbage info default_piece_limit object_empty = Ok (o1, None, true);
  ra_resolved : resolve_duplicate_filenames (o_files o1) = Ok files;
  ra_trackers : parse_trackers n = Ok urls;
  ra_extras : read_extras n (map ae_url urls) (o_multifile o1 && (1 <? Z.of_nat (length (m_files files)))) (o_extras o1) = Ok extras;
  ra_object : o = set_extras extras (set_urls urls (set_files files o1));
}.

Lemma torrent_info_create_inv garbage buffer o : torrent_info_create garbage buffer = Ok (o, None) ->
  m_files (o_files o) <> [] -> exists n info l li o1 files urls extras, read_as garbage buffer o n info l li o1 files urls extras.
Proof.
  intros H Hne. unfold torrent_info_create in H. apply result_bind_ok in H as ([[n ec] pos] & Hb & H).
  case_bool_decide as Hec; [|by injection H]. cbn [negb] in H. subst ec. pose proof Hb as Hb'.
  apply decoded_value in Hb as (b & r & ts & v & _ & _ & Hn).
  apply result_bind_ok in H as ([[o1 ec] parsed] & H & Ho). injection Ho as <- Hec.
  unfold parse_torrent_file in H. rewrite (node_type_of_denotes _ _ Hn) in H. cbn [mbind result_bind] in H.
  destruct v as [z|s|l|l]; cbn [value_type] in H; try by injection H as <- _. rewrite bool_decide_true in H by done. cbn [negb] in H.
  destruct (dict_find_type_node n l dict_t (bytes_of_string "info") ltac:(done) Hn) as (info & Hi & Hv).
  change (dict_find_type dict_t) with dict_find_dict in Hi. rewrite Hi in H. cbn [mbind result_bind] in H.
  unfold typed_value_of in Hv. destruct (value_of (bytes_of_string "info") l) as [v|] eqn:Ev; cbn [mbind option_bind] in Hv.
  2: { destruct Hv as [_ Hbool]. rewrite Hbool in H. cbn [negb] in H. unbind H; try (by subst o1).
       match type of H with context [match ?p with inl _ => _ | inr _ => _ end] => destruct p end; by injection H as <- _. }
  case_bool_decide as Hty; destruct Hv as [Hd Hbool].
  2: { rewrite Hbool in H. cbn [negb] in H. unbind H; try (by subst o1).
       match type of H with context [match ?p with inl _ => _ | inr _ => _ end] => destruct p end; by injection H as <- _. }
  rewrite (proj1 Hbool) in H. cbn [negb] in H. apply result_bind_ok in H as ([[o2 ec2] p2] & Hp & H).
  destruct v as [z|s|l'|li]; try done. destruct p2; cbn [negb] in H.
  - unbind H. subst o1 ec2. destruct ec; [done|]. exists n, info, l, li, o2, a, a0, a1. by split; try exists pos.
  - injection H as -> -> _. by eapply parse_info_section_fresh in Hp.
Qed.

Lemma torrent_info_create_ok garbage buffer o : torrent_info_create garbage buffer = Ok (o, None) ->
  m_files (o_files o) <> [] -> info_ok default_piece_limit o.
Proof.
  intros H Hne. destruct (torrent_info_create_inv _ _ _ H Hne) as (n & info & l & li & o1 & files & urls & extras & [_ _ _ _ Hinfo Hparsed Hres _ _ ->]).
  eapply parse_info_section_ok in Hparsed; [|done|done].
  apply resolve_renamed in Hres. by eapply info_ok_renamed in Hres as [? _].
Qed.

(** C15: A torrent file that loads without an error, and whose files have together more than no
    and fewer than 2^48 bytes, is a torrent as the download needs it: the files lie without gaps one after
    the other and the pieces fill them; and every piece has a hash of 20 bytes. *)
Theorem loaded_torrent_ok garbage buffer o : torrent_info_create garbage buffer = Ok (o, None) ->
  0 < sizes (m_files (o_files o)) < 2 ^ 48 ->
  torrent_ok (info_of o) /\ ti_num_pieces (info_of o) <= default_piece_limit /\
  forall i, piece_index_ok (info_of o) i -> length (ti_hash_for_piece (info_of o) i) = 20%nat.
Proof.
  intros H Hs. destruct (torrent_info_create_ok _ _ _ H) as [Hpl Hl Ht Hp [Hm Hh]]; [intros E; rewrite E in Hs; simpl in Hs; lia|].
  destruct (laid_files_ok (o_files o) _ _ _ Hl) as [Hf Hsum]; [lia|lia|].
  split; [|by split]. unfold count_pieces in Hp. set (pl := m_piece_length (o_files o)) in *. set (tot := m_total_size (o_files o)) in *.
  rewrite Z.quot_div_nonneg in Hp by lia.
  assert (0 <= (tot + pl - 1) / pl < 2 ^ 31 - pl) as Hr by (split; [apply Z.div_pos; lia|apply Z.div_lt_upper_bound; nia]).
  rewrite i32_small in Hp by lia. split; cbn [info_of ti_piece_length ti_total_size ti_num_pieces ti_files]; fold pl tot; [done|lia|done|lia|done].
Qed.
End Layout.

(** ** Samples *)

(** A file of five bytes in pieces of four, and two trackers. *)
Definition one_file : bytes := bytes_of_string
  "d8:announce1:x13:announce-listll1:ael1:b2: cee4:infod6:lengthi5e4:name1:a12:piece lengthi4e6:pieces40:0123456789012345678901234567890123456789ee".

(** Two files in a directory; the last element of the first path is dropped when it is
    sanitized. *)
Definition dotdot_file : bytes := bytes_of_string
  "d4:infod5:filesld6:lengthi5e4:pathl3:a..2:..eed6:lengthi6e4:pathl1:b1:ceee4:name1:t12:piece lengthi8e6:pieces40:0123456789012345678901234567890123456789ee".

(** Stand-ins for what the repository does not contain. *)
Definition sample_crc : Crc32c := unbe.
Definition sample_past_end : PastEnd := fun _ _ => 0.
#[local] Existing Instance sample_past_end.
Definition sample_shuffle : Shuffle := fun _ l => l.
Definition sample_create : bytes -> result (torrent_object * option load_error) :=
  torrent_info_create (EN := false) (CRC := sample_crc) (SH := sample_shuffle) (replicate 64 0).
Definition sample_object (buffer : bytes) : torrent_object := (ok_or (object_empty, None) (sample_create buffer)).1.

Lemma loaded_torrent_ok_witness : torrent_ok (info_of (sample_object one_file)) /\
  ti_num_pieces (info_of (sample_object one_file)) <= default_piece_limit /\
  forall i, piece_index_ok (info_of (sample_object one_file)) i ->
    length (ti_hash_for_piece (info_of (sample_object one_file)) i) = 20%nat.
Proof.
  apply (loaded_torrent_ok (EN := false) (CRC := sample_crc) (SH := sample_shuffle) (replicate 64 0) one_file).
  - by vm_compute.
  - by vm_compute.
Defined.

(** The name that is kept apart from the path is the one before it was sanitized: the
    path read back is that of the parent directory. *)
Lemma dotdot_file_path : map fe_path (ti_files (info_of (sample_object dotdot_file))) = [bytes_of_string "t/.."; bytes_of_string "t/b/c"].
Proof. by vm_compute. Qed.
