(* ===== verification/Reorder.v ===== *)
(** * The order of the files of a torrent

    [file_storage::optimize] ([extern/libtorrent/src/file_storage.cpp]) is what [create_torrent] lays the files out
    with before it hashes them: at an aligned offset it puts the largest file that is left, and
    in front of a file that would start elsewhere it puts smaller files or a file of padding.
    The arrays of times and hashes of the files are kept in step. *)

From S2P Require Import Prelude Net Storage FileStorage TorrentLayout.

(** ** Moving files *)

(** [extern/libtorrent/src/file_storage.cpp:961-961] file_storage::reorder_file
    [std::iter_swap(l.begin() + i, l.begin() + j)] *)
Definition swap_at {A} (i j : nat) (l : list A) : result (list A) :=
  match l !! i, l !! j with
  | Some a, Some b => Ok (<[i := b]> (<[j := a]> l))
  | _, _ => Fault BadPrecondition
  end.

(** [extern/libtorrent/src/file_storage.cpp:962-973] file_storage::reorder_file
    [if (!l.empty()) { if (l.size() < index) l.resize(index + 1, d); std::iter_swap(..); }], for
    the times and for the hashes *)
Definition swap_column {A} (d : A) (index dst : nat) (l : list A) : result (list A) :=
  match l with
  | [] => Ok []
  | _ => swap_at dst index (if (length l <? index)%nat then resize (S index) d l else l)
  end.

Definition set_m_files (files : list internal_file_entry) (file_hashes : list (option bytes)) (mtime : list Z) (fs : file_storage) :
    file_storage :=
  mk_fs (m_piece_length fs) (m_num_pieces fs) files file_hashes (m_symlinks fs) mtime (m_paths fs) (m_name fs) (m_total_size fs).

(** [extern/libtorrent/src/file_storage.cpp:955-974] file_storage::reorder_file *)
Definition reorder_file (index dst : nat) (fs : file_storage) : result file_storage :=
  files ← swap_at index dst (m_files fs);
  mtime ← swap_column 0 index dst (m_mtime fs);
  file_hashes ← swap_column None index dst (m_file_hashes fs);
  Ok (set_m_files files file_hashes mtime fs).

(** What [optimize] keeps beside the list: the offset up to which files are placed and the
    number of files of padding. *)
Record packing := mk_packing { pk_fs : file_storage; pk_off : Z; pk_counter : Z }.

Definition set_offset (o : Z) (e : internal_file_entry) : internal_file_entry :=
  mk_ife (o mod 2 ^ 48) (if_symlink_index e) (if_no_root_dir e) (if_size e) (if_name_len e) (if_pad_file e)
    (if_hidden_attribute e) (if_executable_attribute e) (if_symlink_attribute e) (if_name e) (if_path_index e).

(** [extern/libtorrent/src/file_storage.cpp:1119-1129] file_storage::add_pad_file
    The entry of a file of padding. *)
Definition pad_entry (size offset path_index counter : Z) : internal_file_entry :=
  let e := set_name (decimal_Z counter) false (set_path_index path_index false (set_offset offset ife_default)) in
  mk_ife (if_offset e) (if_symlink_index e) (if_no_root_dir e) (size mod 2 ^ 48) (if_name_len e) true
    (if_hidden_attribute e) (if_executable_attribute e) (if_symlink_attribute e) (if_name e) (if_path_index e).

(** [extern/libtorrent/src/file_storage.cpp:1133-1134] file_storage::add_pad_file
    [if (!l.empty()) l.resize(index + 1, d);] *)
Definition extend_column {A} (d : A) (index : nat) (l : list A) : list A :=
  match l with [] => [] | _ => resize (S index) d l end.

(** [extern/libtorrent/src/file_storage.cpp:1112-1137] file_storage::add_pad_file
    [i] stays where it is, so afterwards it points at the padding. *)
Definition add_pad_file (size : Z) (i : nat) (s : packing) : result packing :=
  let fs := pk_fs s in
  let index := length (m_files fs) in
  let '(path_index, paths) := get_or_add_path (bytes_of_string ".pad") (m_paths fs) in
  let e := pad_entry size (pk_off s) path_index (pk_counter s) in
  if pk_off s + size <? 2 ^ 63 then
    let mtime := extend_column 0 index (m_mtime fs) in
    let file_hashes := extend_column None index (m_file_hashes fs) in
    let fs := set_m_files (m_files fs ++ [e]) file_hashes mtime (set_name_and_paths (m_name fs) paths fs) in
    fs ← (if bool_decide (index = i) then Ok fs else reorder_file index i fs);
    Ok (mk_packing fs (pk_off s + size) (pk_counter s + 1))
  else Fault SignedOverflow.

(** ** Choosing a file *)

(** [extern/libtorrent/src/file_storage.cpp:1009-1022] file_storage::optimize
    From [k] on: the first file whose size is a multiple of the alignment, or else the
    largest. *)
Fixpoint best_match (alignment : Z) (files : list internal_file_entry) (k best : nat) (best_size : Z) : nat :=
  match files with
  | [] => best
  | e :: files' =>
      if if_size e mod alignment =? 0 then k
      else if best_size <? if_size e then best_match alignment files' (S k) k (if_size e)
      else best_match alignment files' (S k) best best_size
  end.

(** [extern/libtorrent/src/file_storage.cpp:1043-1054] file_storage::optimize
    The largest file from [k] on that fits into the padding. *)
Fixpoint best_filler (pad_size : Z) (files : list internal_file_entry) (k : nat) (best : option (nat * Z)) : option (nat * Z) :=
  match files with
  | [] => best
  | e :: files' =>
      let best :=
        if pad_size <? if_size e then best
        else match best with
             | None => Some (k, if_size e)
             | Some (_, size) => if size <? if_size e then Some (k, if_size e) else best
             end in
      best_filler pad_size files' (S k) best
  end.

(** ** Placing the files *)

(** [extern/libtorrent/src/file_storage.cpp:1088-1089] file_storage::optimize
    [i->offset = off; off += i->size;] with [i] at a file; the size is unsigned. *)
Definition place (i : nat) (s : packing) : result packing :=
  let fs := pk_fs s in
  match m_files fs !! i with
  | None => Fault BadPrecondition
  | Some e =>
      Ok (mk_packing (set_m_files (<[i := set_offset (pk_off s) e]> (m_files fs)) (m_file_hashes fs) (m_mtime fs) fs)
            (i64 (pk_off s + if_size e)) (pk_counter s))
  end.

(** [extern/libtorrent/src/file_storage.cpp:1024-1030] file_storage::optimize
    The file that was chosen changes places with the one at [i]. *)
Definition bring (index i : nat) (s : packing) : result packing :=
  fs ← (if bool_decide (index = i) then Ok (pk_fs s) else reorder_file index i (pk_fs s));
  Ok (mk_packing fs (pk_off s) (pk_counter s)).

(** [extern/libtorrent/src/file_storage.cpp:1088-1107] file_storage::optimize
    The end of a turn: the file at [i] is placed, and padding follows it if the tail of a
    large file is padded.  The position the loop goes on from. *)
Definition place_turn (pad_file_limit alignment : Z) (tail_padding : bool) (i : nat) (s : packing) : result (nat * packing) :=
  s ← place i s;
  let size := match m_files (pk_fs s) !! i with Some e => if_size e | None => 0 end in
  if tail_padding && (u32 pad_file_limit <? size) && negb (pk_off s mod alignment =? 0) then
    s ← add_pad_file (alignment - pk_off s mod alignment) (S i) s;
    Ok (if bool_decide (S i = length (m_files (pk_fs s))) then S i else S (S i), s)
  else Ok (S i, s).

(** [extern/libtorrent/src/file_storage.cpp:1000-1108] file_storage::optimize
    A turn of the loop. *)
Definition optimize_turn (pad_file_limit alignment : Z) (tail_padding : bool) (i : nat) (s : packing) : result (nat * packing) :=
  let files := m_files (pk_fs s) in
  let off := pk_off s in
  match files !! i with
  | None => Fault BadPrecondition
  | Some e =>
      if alignment =? 0 then Fault DivisionByZero
      else if off mod alignment =? 0 then
        s ← bring (best_match alignment (drop i files) i i (if_size e)) i s;
        place_turn pad_file_limit alignment tail_padding i s
      else if (0 <=? pad_file_limit) && (pad_file_limit <? if_size e) && negb (if_pad_file e) then
        let pad_size := alignment - off mod alignment in
        match (if 0 <? pad_file_limit then best_filler pad_size (drop (S i) files) (S i) None else None) with
        | Some (index, _) =>
            s ← bring index i s;
            s ← place i s;
            Ok (S i, s)
        | None =>
            s ← add_pad_file pad_size i s;
            Ok (S i, s)
        end
      else place_turn pad_file_limit alignment tail_padding i s
  end.

(** [extern/libtorrent/src/file_storage.cpp:1000-1000] file_storage::optimize *)
Fixpoint optimize_loop (fuel : nat) (pad_file_limit alignment : Z) (tail_padding : bool) (i : nat) (s : packing) : result packing :=
  if bool_decide (i = length (m_files (pk_fs s))) then Ok s
  else match fuel with
       | O => Fault OutOfFuel
       | S fuel' =>
           '(i, s) ← optimize_turn pad_file_limit alignment tail_padding i s;
           optimize_loop fuel' pad_file_limit alignment tail_padding i s
       end.

Definition set_total_size (total : Z) (fs : file_storage) : file_storage :=
  mk_fs (m_piece_length fs) (m_num_pieces fs) (m_files fs) (m_file_hashes fs) (m_symlinks fs) (m_mtime fs) (m_paths fs) (m_name fs) total.

(** [extern/libtorrent/src/file_storage.cpp:990-1110] file_storage::optimize
    A negative alignment other than -1 is outside of what the conversions allow. *)
Definition optimize (pad_file_limit alignment : Z) (tail_padding : bool) (fs : file_storage) : result file_storage :=
  let alignment := if alignment =? -1 then m_piece_length fs else alignment in
  if alignment <? 0 then Fault BadPrecondition
  else
    s ← optimize_loop (2 * length (m_files fs)) pad_file_limit alignment tail_padding 0 (mk_packing fs 0 0);
    Ok (set_total_size (pk_off s) (pk_fs s)).

(** ** Exchanging elements *)

Definition swapped {A} (i j : nat) (l l' : list A) : Prop :=
  exists a b, l !! i = Some a /\ l !! j = Some b /\ l' = <[i := b]> (<[j := a]> l).

Lemma swap_at_swapped {A} i j (l : list A) : (i < length l)%nat -> (j < length l)%nat ->
  exists l', swap_at i j l = Ok l' /\ swapped i j l l'.
Proof.
  intros [a Ha]%lookup_lt_is_Some [b Hb]%lookup_lt_is_Some. unfold swap_at. rewrite Ha, Hb. eexists. split; [done|]. by exists a, b.
Qed.

Lemma swapped_length {A} i j (l l' : list A) : swapped i j l l' -> length l' = length l.
Proof. intros (a & b & _ & _ & ->). by rewrite !length_insert. Qed.

Lemma swapped_lookup {A} i j (l l' : list A) k : swapped i j l l' ->
  l' !! k = l !! (if decide (k = i) then j else if decide (k = j) then i else k).
Proof.
  intros (a & b & Ha & Hb & ->). pose proof (lookup_lt_Some _ _ _ Ha). pose proof (lookup_lt_Some _ _ _ Hb).
  destruct (decide (k = i)) as [->|Hi]; [by rewrite list_lookup_insert_eq by (by rewrite length_insert)|].
  rewrite list_lookup_insert_ne by done. destruct (decide (k = j)) as [->|Hj]; [by rewrite list_lookup_insert_eq|].
  by rewrite list_lookup_insert_ne.
Qed.

Lemma swapped_perm {A} i j (l l' : list A) : swapped i j l l' -> l' ≡ₚ l.
Proof.
  intros H. apply Permutation_inj. split; [by apply (swapped_length i j)|].
  exists (fun k => if decide (k = i) then j else if decide (k = j) then i else k). split.
  - intros x y. repeat case_decide; congruence.
  - intros k. by apply swapped_lookup.
Qed.

Lemma swapped_take {A} i j n (l l' : list A) : swapped i j l l' -> (n <= i)%nat -> (n <= j)%nat -> take n l' = take n l.
Proof. intros (a & b & _ & _ & ->) Hi Hj. by rewrite !take_insert_ge by lia. Qed.

Lemma swapped_map {A B} (f : A -> B) i j l l' : swapped i j l l' -> swapped i j (map f l) (map f l').
Proof.
  intros (a & b & Ha & Hb & ->). exists (f a), (f b). rewrite !list_lookup_fmap, Ha, Hb. split; [done|]. split; [done|].
  by rewrite !list_fmap_insert.
Qed.

Lemma swapped_zip {A B} i j (l l' : list A) (k k' : list B) : swapped i j l l' -> swapped i j k k' -> swapped i j (zip l k) (zip l' k').
Proof.
  intros (a & b & Ha & Hb & ->) (c & d & Hc & Hd & ->). exists (a, c), (b, d). rewrite !lookup_zip_with, Ha, Hb, Hc, Hd.
  split; [done|]. split; [done|]. by rewrite !insert_zip_with.
Qed.

Lemma swapped_replicate {A} i j n (x : A) : (i < n)%nat -> (j < n)%nat -> swapped i j (replicate n x) (replicate n x).
Proof. intros Hi Hj. exists x, x. rewrite !lookup_replicate_2 by done. by rewrite !insert_replicate. Qed.

Lemma swapped_sym {A} i j (l l' : list A) : swapped i j l l' -> swapped j i l l'.
Proof.
  intros (a & b & Ha & Hb & ->). exists b, a. split; [done|]. split; [done|]. destruct (decide (i = j)) as [->|Hne].
  - congruence.
  - by apply list_insert_insert_ne.
Qed.

(** ** The rows of the table of files *)

(** An array beside the list of files is empty or as long as the list. *)
Definition column_ok {A} (n : nat) (l : list A) : Prop := l = [] \/ length l = n.

Definition column {A} (n : nat) (l : list A) : list (option A) := match l with [] => replicate n None | _ => map Some l end.

Definition in_step (fs : file_storage) : Prop :=
  column_ok (length (m_files fs)) (m_mtime fs) /\ column_ok (length (m_files fs)) (m_file_hashes fs).

(** A file with its time and hash, and without its offset. *)
Definition row : Type := internal_file_entry * (option Z * option (option bytes)).

Definition rows (fs : file_storage) : list row :=
  let n := length (m_files fs) in
  zip (map (set_offset 0) (m_files fs)) (zip (column n (m_mtime fs)) (column n (m_file_hashes fs))).

Lemma length_column {A} n (l : list A) : column_ok n l -> length (column n l) = n.
Proof. unfold column. destruct l; [by rewrite length_replicate|]. intros [|E]; [done|]. by rewrite length_map. Qed.

Lemma swap_column_ok {A} (d : A) n index dst l : column_ok n l -> (index < n)%nat -> (dst < n)%nat ->
  exists l', swap_column d index dst l = Ok l' /\ column_ok n l' /\ swapped index dst (column n l) (column n l') /\ (l' = [] <-> l = []).
Proof.
  intros Hl Hi Hd. unfold swap_column. destruct l as [|x l]; [|destruct Hl as [|Hl]; [done|]].
  - exists []. split; [done|]. split; [by left|]. split; [by apply swapped_replicate|done].
  - rewrite (proj2 (Nat.ltb_ge _ _)) by lia. destruct (swap_at_swapped dst index (x :: l)) as (l' & Hs & Hsw); [lia|lia|].
    exists l'. split; [done|]. pose proof (swapped_length _ _ _ _ Hsw) as Hlen. split; [right; lia|].
    destruct l' as [|y l']; [done|]. split; [|done]. by apply swapped_sym, swapped_map.
Qed.

Lemma sizes_app l k : sizes (l ++ k) = sizes l + sizes k.
Proof. induction l as [|e l IH]; cbn; [done|]. rewrite IH. lia. Qed.

#[global] Instance sizes_proper : Proper ((≡ₚ) ==> (=)) sizes.
Proof. induction 1; cbn; lia. Qed.

Lemma perm_drop {A} i (l l' k : list A) : l' ≡ₚ l ++ k -> take i l' = take i l -> drop i l' ≡ₚ drop i l ++ k.
Proof.
  intros Hp Ht. rewrite <- (take_drop i l), <- app_assoc in Hp. rewrite <- (take_drop i l'), Ht in Hp.
  by apply Permutation_app_inv_l in Hp.
Qed.

(** ** What the steps do *)

Lemma reorder_spec index dst fs : in_step fs -> (dst <= index)%nat -> (index < length (m_files fs))%nat ->
  exists fs', reorder_file index dst fs = Ok fs' /\ in_step fs' /\ rows fs' ≡ₚ rows fs /\ swapped index dst (m_files fs) (m_files fs') /\
    (m_mtime fs' = [] <-> m_mtime fs = []) /\ (m_file_hashes fs' = [] <-> m_file_hashes fs = []) /\
    exists h t, fs' = set_m_files (m_files fs') h t fs.
Proof.
  intros [Ht Hh] Hd Hi. unfold reorder_file.
  destruct (swap_at_swapped index dst (m_files fs)) as (files & -> & Hs); [lia|lia|].
  destruct (swap_column_ok 0 _ index dst _ Ht) as (mtime & -> & Ht' & Hst & Het); [lia|lia|].
  destruct (swap_column_ok None _ index dst _ Hh) as (hashes & -> & Hh' & Hsh & Heh); [lia|lia|]. cbn [mbind result_bind].
  pose proof (swapped_length _ _ _ _ Hs) as Hl. eexists. split; [done|]. unfold in_step, rows.
  cbn [m_files m_mtime m_file_hashes set_m_files]. rewrite Hl. split; [done|]. split; [|split_and!; try done; by eexists _, _].
  apply (swapped_perm index dst). apply swapped_zip; [by apply swapped_map|]. by apply swapped_zip.
Qed.

(** The row of a file of padding: it has a time and a hash if the others have. *)
Definition pad_row (alignment : Z) (fs : file_storage) (r : row) : Prop :=
  if_pad_file r.1 = true /\ 0 < if_size r.1 < alignment /\
  r.2 = (match m_mtime fs with [] => None | _ => Some 0 end, match m_file_hashes fs with [] => None | _ => Some None end).

(** What no step changes. *)
Definition same_torrent (fs fs' : file_storage) : Prop :=
  m_piece_length fs' = m_piece_length fs /\ m_name fs' = m_name fs /\ m_symlinks fs' = m_symlinks fs /\
  m_num_pieces fs' = m_num_pieces fs /\ m_paths fs `prefix_of` m_paths fs' /\
  (m_mtime fs' = [] <-> m_mtime fs = []) /\ (m_file_hashes fs' = [] <-> m_file_hashes fs = []).

#[global] Instance same_torrent_preorder : PreOrder same_torrent.
Proof.
  split; [by intros fs|]. intros a b c (H1 & H2 & H3 & H4 & H5 & H6 & H7) (H1' & H2' & H3' & H4' & H5' & H6' & H7').
  split_and!; try congruence; [by etrans|by rewrite H6'|by rewrite H7'].
Qed.

Lemma same_torrent_set fs fs' f h t : fs' = set_m_files f h t fs -> (m_mtime fs' = [] <-> m_mtime fs = []) ->
  (m_file_hashes fs' = [] <-> m_file_hashes fs = []) -> same_torrent fs fs'.
Proof. intros -> Ht Hh. by repeat (split; [done|]). Qed.

Lemma pad_row_same alignment fs fs' r : same_torrent fs fs' -> pad_row alignment fs' r -> pad_row alignment fs r.
Proof.
  intros (_ & _ & _ & _ & _ & Ht & Hh) (H1 & H2 & H3). split; [done|]. split; [done|]. rewrite H3.
  f_equal; [destruct (m_mtime fs'), (m_mtime fs)|destruct (m_file_hashes fs'), (m_file_hashes fs)]; try done; naive_solver.
Qed.

Lemma column_snoc {A} (d : A) n l : column_ok n l -> exists l', l' = extend_column d n l /\
  column_ok (S n) l' /\ column (S n) l' = column n l ++ [match l with [] => None | _ => Some d end] /\ (l' = [] <-> l = []).
Proof.
  intros Hl. eexists. split; [done|]. unfold extend_column. destruct l as [|x l].
  - split; [by left|]. split; [|done]. cbn [column]. apply replicate_S_end.
  - destruct Hl as [|Hl]; [done|]. rewrite resize_ge by (rewrite Hl; lia). rewrite Hl. replace (S n - n)%nat with 1%nat by lia.
    split; [right; rewrite length_app, Hl; simpl; lia|]. split; [|done]. change (map Some ((x :: l) ++ [d]) = map Some (x :: l) ++ [Some d]). by rewrite map_app.
Qed.

Lemma pad_entry_fields size offset path_index counter : 0 <= size < 2 ^ 48 ->
  let e := pad_entry size offset path_index counter in
  if_offset e = offset mod 2 ^ 48 /\ if_size e = size /\ if_pad_file e = true /\ if_path_index e = path_index /\
  if_name e = decimal_Z counter.
Proof.
  intros Hs. pose proof (decimal_chars counter) as (_ & Hne & _). unfold pad_entry, set_name.
  destruct (decimal_Z counter) as [|c l]; [done|]. split_and!; [done|by apply Z.mod_small|done|done|done].
Qed.

Lemma add_pad_spec alignment size i s : in_step (pk_fs s) -> (i <= length (m_files (pk_fs s)))%nat -> 0 < size < alignment ->
  alignment < 2 ^ 48 -> pk_off s + size < 2 ^ 63 -> exists s' e r, add_pad_file size i s = Ok s' /\ in_step (pk_fs s') /\
    pk_off s' = pk_off s + size /\ pad_row alignment (pk_fs s) r /\ rows (pk_fs s') ≡ₚ rows (pk_fs s) ++ [r] /\
    take (S i) (m_files (pk_fs s')) = take i (m_files (pk_fs s)) ++ [e] /\ drop (S i) (m_files (pk_fs s')) ≡ₚ drop i (m_files (pk_fs s)) /\
    length (m_files (pk_fs s')) = S (length (m_files (pk_fs s))) /\
    if_offset e = pk_off s mod 2 ^ 48 /\ if_size e = size /\ if_pad_file e = true /\ same_torrent (pk_fs s) (pk_fs s').
Proof.
  intros [Ht Hh] Hi Hsize Hal Hoff. unfold add_pad_file. destruct (get_or_add_path_spec (bytes_of_string ".pad") (m_paths (pk_fs s)))
    as (pi & paths & -> & Hpaths). cbv zeta. rewrite (proj2 (Z.ltb_lt _ _)) by done.
  pose proof (pad_entry_fields size (pk_off s) (Z.of_nat pi) (pk_counter s) ltac:(lia)) as (Eo & Es & Ep & _ & _).
  set (e := pad_entry _ _ _ _) in *.
  destruct (column_snoc 0 _ _ Ht) as (mtime & <- & Ht1 & Ht2 & Ht3). destruct (column_snoc None _ _ Hh) as (hashes & <- & Hh1 & Hh2 & Hh3).
  set (fs1 := set_m_files _ _ _ _).
  assert (in_step fs1) as Hstep by (split; cbn; rewrite length_app, Nat.add_1_r; done).
  set (r := (set_offset 0 e, (match m_mtime (pk_fs s) with [] => None | _ => Some 0 end, match m_file_hashes (pk_fs s) with [] => None | _ => Some None end)) : row).
  assert (rows fs1 = rows (pk_fs s) ++ [r]) as Hrows.
  { unfold rows. cbn [m_files m_mtime m_file_hashes fs1 set_m_files set_name_and_paths].
    rewrite length_app, Nat.add_1_r, Ht2, Hh2, map_app. rewrite !zip_with_app; [done|..];
      rewrite ?length_map, ?length_zip_with, !length_column by done; lia. }
  assert (same_torrent (pk_fs s) fs1) as Hsame by (split_and!; try done; apply Hpaths).
  assert (exists fs', (if bool_decide (length (m_files (pk_fs s)) = i) then Ok fs1 else reorder_file (length (m_files (pk_fs s))) i fs1) = Ok fs' /\
    in_step fs' /\ rows fs' ≡ₚ rows fs1 /\ swapped (length (m_files (pk_fs s))) i (m_files fs1) (m_files fs') /\ same_torrent fs1 fs')
    as (fs' & -> & Hstep' & Hrows' & Hsw & Hsame').
  { assert (length (m_files fs1) = S (length (m_files (pk_fs s)))) as Hl1 by (cbn; rewrite length_app; simpl; lia).
    case_bool_decide as E.
    - exists fs1. split_and!; try done. rewrite E. destruct (lookup_lt_is_Some_2 (m_files fs1) i) as [x Hx]; [lia|].
      exists x, x. split; [done|]. split; [done|]. by rewrite list_insert_insert_eq, list_insert_id.
    - destruct (reorder_spec (length (m_files (pk_fs s))) i fs1 Hstep ltac:(lia) ltac:(lia)) as (fs' & -> & H1 & H2 & H3 & H4 & H5 & h & t & E').
      exists fs'. split; [done|]. split; [done|]. split; [done|]. split; [done|]. by eapply same_torrent_set. }
  cbn [mbind result_bind]. pose proof (swapped_length _ _ _ _ Hsw) as Hl. cbn [m_files fs1 set_m_files] in Hl, Hsw. rewrite length_app, Nat.add_1_r in Hl.
  assert (take (S i) (m_files fs') = take i (m_files (pk_fs s)) ++ [e]) as Htake.
  { rewrite (take_S_r _ _ e).
    - f_equal. rewrite (swapped_take _ _ i _ _ Hsw) by lia. by rewrite take_app_le.
    - rewrite (swapped_lookup _ _ _ _ i Hsw). assert ((if decide (i = length (m_files (pk_fs s))) then i else if decide (i = i) then length (m_files (pk_fs s)) else i) = length (m_files (pk_fs s))) as ->
        by (repeat case_decide; congruence).
      by rewrite lookup_app_r, Nat.sub_diag by lia. }
  eexists _, e, r. split; [done|]. cbn [pk_fs pk_off]. split; [done|]. split; [done|].
  split; [split; [exact Ep|]; split; [change (0 < if_size e < alignment); lia|done]|].
  split; [by rewrite Hrows', Hrows|]. split; [done|]. split; [|do 4 (split; [done|]); by etrans].
  apply (Permutation_app_inv_l (take (S i) (m_files fs'))). rewrite take_drop, Htake, <- app_assoc, (swapped_perm _ _ _ _ Hsw).
  rewrite Permutation_app_comm. cbn [app]. rewrite <- Permutation_middle. by rewrite take_drop.
Qed.

(** ** Choosing *)

Lemma best_match_range alignment files : forall k best size,
  best_match alignment files k best size = best \/ (k <= best_match alignment files k best size < k + length files)%nat.
Proof.
  induction files as [|e files IH]; intros k best size; cbn [best_match length]; [by left|].
  destruct (_ =? 0); [right; lia|]. destruct (_ <? _); [right; destruct (IH (S k) k (if_size e)); lia|].
  destruct (IH (S k) best size); [by left|right; lia].
Qed.

Lemma best_filler_fits pad_size all files : forall k best r, drop k all = files ->
  (forall j z, best = Some (j, z) -> exists e, all !! j = Some e /\ if_size e <= pad_size) ->
  best_filler pad_size files k best = Some r -> exists e, all !! r.1 = Some e /\ if_size e <= pad_size.
Proof.
  induction files as [|e files IH]; intros k best r Hd Hb; cbn [best_filler].
  - intros ->. destruct r as [j z]. by apply (Hb j z).
  - assert (all !! k = Some e) as Hk by (rewrite <- (Nat.add_0_r k), <- lookup_drop, Hd; done).
    apply IH.
    + replace (S k) with (k + 1)%nat by lia. by rewrite <- drop_drop, Hd.
    + intros j z. destruct (Z.ltb_spec pad_size (if_size e)); [apply Hb|]. destruct best as [[j' z']|].
      * destruct (_ <? _); [intros [= <- <-]; by exists e|apply Hb].
      * intros [= <- <-]. by exists e.
Qed.

Lemma best_filler_range pad_size files : forall k best r, best_filler pad_size files k best = Some r ->
  best = Some r \/ (k <= r.1 < k + length files)%nat.
Proof.
  induction files as [|e files IH]; intros k best r; cbn [best_filler length]; [by left|]. intros H%IH. destruct H as [H|]; [|right; lia].
  revert H. destruct (_ <? _); [by left|]. destruct best as [[j z]|]; [destruct (_ <? _); [|by left]|]; intros [= <-]; right; simpl; lia.
Qed.

(** ** The invariant of the loop *)
Section Optimize.
Variables (limit alignment : Z) (tail_padding : bool) (fs0 : file_storage).
Hypothesis alignment_ok : 0 < alignment < 2 ^ 31.

Definition size_ok (e : internal_file_entry) : Prop := 0 <= if_size e < 2 ^ 48.

(** All files are padded, or only such that no filler needs padding itself. *)
Definition padded : Prop := 0 <= limit /\ (limit = 0 \/ alignment <= limit).

Definition starts_aligned (e : internal_file_entry) : Prop :=
  if_pad_file e = false -> limit < if_size e -> if_offset e mod alignment = 0.

Record placed (i : nat) (s : packing) : Prop := {
  pl_in : (i <= length (m_files (pk_fs s)))%nat;
  pl_step : in_step (pk_fs s);
  pl_same : same_torrent fs0 (pk_fs s);
  pl_rows : exists pads, rows (pk_fs s) ≡ₚ rows fs0 ++ pads /\ Forall (pad_row alignment fs0) pads;
  pl_sizes : Forall size_ok (m_files (pk_fs s));
  pl_laid : laid 0 (take i (m_files (pk_fs s))) (pk_off s);
  pl_total : pk_off s = sizes (take i (m_files (pk_fs s)));
  pl_aligned : padded -> Forall starts_aligned (take i (m_files (pk_fs s)));
}.

Lemma bring_placed index i s : placed i s -> (i <= index)%nat -> (index < length (m_files (pk_fs s)))%nat ->
  exists s', bring index i s = Ok s' /\ placed i s' /\ pk_off s' = pk_off s /\ m_files (pk_fs s') !! i = m_files (pk_fs s) !! index /\
    drop i (m_files (pk_fs s')) ≡ₚ drop i (m_files (pk_fs s)) /\ length (m_files (pk_fs s')) = length (m_files (pk_fs s)).
Proof.
  intros [Hi Hst Hsa (pads & Hr & Hpads) Hsz Hl Htot Hal] Hii Hn. unfold bring. case_bool_decide as E.
  - subst index. exists s. split; [by destruct s|]. split; [split; [done|done|done|by exists pads|done|done|done|done]|done].
  - destruct (reorder_spec index i (pk_fs s) Hst Hii Hn) as (fs' & -> & Hst' & Hr' & Hsw & Ht' & Hh' & h & t & E').
    cbn [mbind result_bind]. eexists. split; [done|]. cbn [pk_fs pk_off].
    pose proof (swapped_length _ _ _ _ Hsw) as Hlen. pose proof (swapped_take _ _ i _ _ Hsw ltac:(lia) ltac:(lia)) as Htake.
    pose proof (swapped_perm _ _ _ _ Hsw) as Hperm. split.
    + split; cbn [pk_fs pk_off]; rewrite ?Hlen, ?Htake; try done.
      * etrans; [done|]. by eapply same_torrent_set.
      * exists pads. by rewrite Hr'.
      * by rewrite Hperm.
    + split; [done|]. split.
      * rewrite (swapped_lookup _ _ _ _ i Hsw). rewrite (decide_False (P := i = index)) by done. by rewrite decide_True.
      * split; [|done]. rewrite <- (app_nil_r (drop i (m_files (pk_fs s)))). apply perm_drop; [|done]. by rewrite app_nil_r.
Qed.

Lemma place_placed i s e : placed i s -> m_files (pk_fs s) !! i = Some e -> 0 <= pk_off s -> pk_off s + if_size e < 2 ^ 48 ->
  (padded -> if_pad_file e = false -> limit < if_size e -> pk_off s mod alignment = 0) ->
  exists s', place i s = Ok s' /\ placed (S i) s' /\ pk_off s' = pk_off s + if_size e /\
    m_files (pk_fs s') !! i = Some (set_offset (pk_off s) e) /\
    drop (S i) (m_files (pk_fs s')) = drop (S i) (m_files (pk_fs s)) /\ length (m_files (pk_fs s')) = length (m_files (pk_fs s)).
Proof.
  intros [Hi Hst Hsa (pads & Hr & Hpads) Hsz Hl Htot Hal] He Ho Hmax Hdue. unfold place. rewrite He. eexists. split; [done|]. cbn [pk_fs pk_off].
  pose proof (lookup_lt_Some _ _ _ He) as Hlt. pose proof (Forall_lookup_1 _ _ _ _ Hsz He) as Hse. unfold size_ok in Hse.
  rewrite i64_small by lia. cbn [m_files set_m_files].
  assert (take (S i) (<[i := set_offset (pk_off s) e]> (m_files (pk_fs s))) = take i (m_files (pk_fs s)) ++ [set_offset (pk_off s) e]) as Htake.
  { rewrite (take_S_r _ _ (set_offset (pk_off s) e)) by (by apply list_lookup_insert_eq). by rewrite take_insert_ge by lia. }
  split; [|split; [done|]; split; [by apply list_lookup_insert_eq|]; split; [by rewrite drop_insert_lt by lia|by apply length_insert]].
  split; cbn [pk_fs pk_off m_files set_m_files]; rewrite ?length_insert, ?Htake.
  - lia.
  - destruct Hst as [Ht Hh]. split; cbn [m_files m_mtime m_file_hashes set_m_files]; by rewrite length_insert.
  - etrans; [done|]. by eapply same_torrent_set.
  - exists pads. split; [|done]. rewrite <- Hr. unfold rows. cbn [m_files m_mtime m_file_hashes set_m_files]. rewrite length_insert, list_fmap_insert.
    change (set_offset 0 (set_offset (pk_off s) e)) with (set_offset 0 e). by rewrite list_insert_id by (by rewrite list_lookup_fmap, He).
  - by apply Forall_insert.
  - eapply laid_snoc; [done|done|done|]. cbn [if_size set_offset]. by rewrite i64_small by lia.
  - rewrite sizes_app, Htot. cbn. lia.
  - intros Hp. apply Forall_app. split; [by apply Hal|]. apply Forall_singleton. intros H1 H2. cbn [if_offset set_offset].
    rewrite (Z.mod_small (pk_off s)) by lia. by apply Hdue.
Qed.

Lemma pad_placed size i s : placed i s -> 0 < size < alignment -> 0 <= pk_off s -> pk_off s + size < 2 ^ 48 ->
  exists s', add_pad_file size i s = Ok s' /\ placed (S i) s' /\ pk_off s' = pk_off s + size /\
    drop (S i) (m_files (pk_fs s')) ≡ₚ drop i (m_files (pk_fs s)) /\ length (m_files (pk_fs s')) = S (length (m_files (pk_fs s))).
Proof.
  intros [Hi Hst Hsa (pads & Hr & Hpads) Hsz Hl Htot Hal] Hs Ho Hmax.
  destruct (add_pad_spec alignment size i s Hst Hi Hs) as (s' & e & r & Hs' & Hst' & Ho' & Hrow & Hr' & Htake & Hdrop & Hlen & Eo & Es & Ep & Hsame);
    [lia|lia|].
  exists s'. split; [done|]. split; [|done]. split.
  - lia.
  - done.
  - by etrans.
  - exists (pads ++ [r]). rewrite Hr', Hr, app_assoc. split; [done|]. apply Forall_app. split; [done|]. apply Forall_singleton.
    by eapply pad_row_same.
  - rewrite <- (take_drop (S i) (m_files (pk_fs s'))), Htake, Hdrop. rewrite <- (take_drop i (m_files (pk_fs s))) in Hsz.
    apply Forall_app in Hsz as [H1 H2]. repeat apply Forall_app_2; [done| |done]. apply Forall_singleton. unfold size_ok. lia.
  - rewrite Htake, Ho'. eapply laid_snoc; [done|done|lia|]. rewrite Es. by rewrite i64_small by lia.
  - rewrite Htake, Ho', sizes_app, Htot. cbn. lia.
  - intros Hp. rewrite Htake. apply Forall_app. split; [by apply Hal|]. apply Forall_singleton. intros H. congruence.
Qed.

(** Two turns for each file that is left, and one less at an aligned offset. *)
Definition potential (i : nat) (s : packing) : Z :=
  2 * Z.of_nat (length (m_files (pk_fs s)) - i) + (if pk_off s mod alignment =? 0 then 0 else 1).

(** The room the files that are left, and padding for them, may take. *)
Definition room_ok (i : nat) (s : packing) : Prop :=
  0 <= pk_off s /\ pk_off s + sizes (drop i (m_files (pk_fs s))) + potential i s * alignment < 2 ^ 48.

Definition progress (i : nat) (s : packing) (r : result (nat * packing)) : Prop :=
  exists i' s', r = Ok (i', s') /\ placed i' s' /\ room_ok i' s' /\ potential i' s' < potential i s.

Lemma sizes_nonneg l : Forall size_ok l -> 0 <= sizes l.
Proof. induction 1 as [|e l He _ IH]; cbn; [lia|]. unfold size_ok in He. lia. Qed.

Lemma drop_sizes i l e : l !! i = Some e -> sizes (drop i l) = if_size e + sizes (drop (S i) l).
Proof. intros He. by rewrite (drop_S _ _ _ He). Qed.

Lemma placed_rest i s e : placed i s -> m_files (pk_fs s) !! i = Some e ->
  size_ok e /\ 0 <= sizes (drop (S i) (m_files (pk_fs s))) /\ (i < length (m_files (pk_fs s)))%nat.
Proof.
  intros Hp He. pose proof (pl_sizes _ _ Hp) as Hsz. split; [by apply (Forall_lookup_1 _ _ _ _ Hsz He)|].
  split; [by apply sizes_nonneg, Forall_drop|]. by eapply lookup_lt_Some.
Qed.

(** Padding up to the next aligned offset. *)
Lemma pad_to_aligned off : off mod alignment <> 0 ->
  0 < alignment - off mod alignment < alignment /\ (off + (alignment - off mod alignment)) mod alignment = 0.
Proof.
  intros Hne. pose proof (Z.mod_pos_bound off alignment ltac:(lia)). split; [lia|].
  pose proof (Z.div_mod off alignment ltac:(lia)) as E. symmetry. apply (Z.mod_unique _ _ (off / alignment + 1)); [lia|]. rewrite Z.mul_add_distr_l. lia.
Qed.

Lemma potential_bounds i s : 2 * Z.of_nat (length (m_files (pk_fs s)) - i) <= potential i s <= 2 * Z.of_nat (length (m_files (pk_fs s)) - i) + 1.
Proof. unfold potential. destruct (_ =? 0); lia. Qed.

Lemma place_turn_progress i0 s0 i s e : placed i s -> m_files (pk_fs s) !! i = Some e -> room_ok i s -> potential i s = potential i0 s0 ->
  (padded -> if_pad_file e = false -> limit < if_size e -> pk_off s mod alignment = 0) ->
  progress i0 s0 (place_turn limit alignment tail_padding i s).
Proof.
  intros Hp He [Ho Hroom] Epot Hdue. destruct (placed_rest _ _ _ Hp He) as (Hse & Hrest & Hlt). unfold size_ok in Hse.
  rewrite (drop_sizes _ _ _ He) in Hroom. pose proof (potential_bounds i s) as Hpot. 
  destruct (place_placed i s e Hp He Ho) as (s1 & Hs1 & Hp1 & Ho1 & He1 & Hd1 & Hl1); [nia|done|].
  unfold place_turn. rewrite Hs1. cbn [mbind result_bind]. rewrite He1.
  destruct (tail_padding && _ && _) eqn:Etail.
  - apply andb_true_iff in Etail as [_ Hne%negb_true_iff%Z.eqb_neq]. destruct (pad_to_aligned _ Hne) as [Hsize Haligned].
    destruct (pad_placed _ (S i) s1 Hp1 Hsize) as (s2 & Hs2 & Hp2 & Ho2 & Hd2 & Hl2); [lia|nia|].
    rewrite Hs2. cbn [mbind result_bind]. rewrite bool_decide_false by lia. exists (S (S i)), s2. split; [done|]. split; [done|].
    assert (potential (S (S i)) s2 = 2 * (Z.of_nat (length (m_files (pk_fs s)) - i) - 1)) as Epot2.
    { unfold potential. rewrite Ho2, Haligned, Hl2, Hl1. simpl. lia. }
    unfold room_ok. rewrite Epot2, Hd2, Hd1, Ho2, Ho1. rewrite Ho1 in Hsize. split; [split; [lia|nia]|lia].
  - exists (S i), s1. split; [done|]. split; [done|]. pose proof (potential_bounds (S i) s1) as Hpot1. rewrite Hl1 in Hpot1.
    unfold room_ok. rewrite Hd1, Ho1. split; [split; [lia|nia]|lia].
Qed.

Lemma optimize_turn_progress i s : placed i s -> (i < length (m_files (pk_fs s)))%nat -> room_ok i s ->
  progress i s (optimize_turn limit alignment tail_padding i s).
Proof.
  intros Hp [e He]%lookup_lt_is_Some Hroom. destruct (placed_rest _ _ _ Hp He) as (Hse & Hrest & Hlt). unfold size_ok in Hse.
  pose proof (potential_bounds i s) as Hpot. unfold optimize_turn. rewrite He. rewrite (proj2 (Z.eqb_neq alignment 0)) by lia.
  destruct (Z.eqb_spec (pk_off s mod alignment) 0) as [Hal|Hne].
  - set (index := best_match _ _ _ _ _).
    assert (i <= index < length (m_files (pk_fs s)))%nat as Hindex.
    { destruct (best_match_range alignment (drop i (m_files (pk_fs s))) i i (if_size e)) as [E|E]; fold index in E; [lia|].
      rewrite length_drop in E. lia. }
    destruct (bring_placed index i s Hp) as (s1 & Hs1 & Hp1 & Ho1 & He1 & Hd1 & Hl1); [lia|lia|]. rewrite Hs1. cbn [mbind result_bind].
    destruct (lookup_lt_is_Some_2 (m_files (pk_fs s)) index) as [e1 He1']; [lia|]. rewrite He1' in He1.
    apply (place_turn_progress i s i s1 e1); [done|done| | |by rewrite Ho1].
    + unfold room_ok, potential in *. by rewrite Ho1, Hd1, Hl1.
    + unfold potential. by rewrite Ho1, Hl1.
  - destruct ((0 <=? limit) && _ && _) eqn:Edue.
    2: { apply (place_turn_progress i s i s e); try done. intros [Hlim _] Hpad Hsize. exfalso. revert Edue. rewrite Hpad.
      rewrite (proj2 (Z.leb_le 0 limit)), (proj2 (Z.ltb_lt limit _)) by lia. done. }
    apply andb_true_iff in Edue as [[Hlim%Z.leb_le Hsize%Z.ltb_lt]%andb_true_iff Hpad%negb_true_iff].
    destruct (pad_to_aligned _ Hne) as [Hps Haligned]. set (pad_size := alignment - pk_off s mod alignment) in *.
    destruct Hroom as [Ho Hroom]. rewrite (drop_sizes _ _ _ He) in Hroom.
    destruct (if 0 <? limit then _ else None) as [[index z]|] eqn:Efill.
    + destruct (Z.ltb_spec 0 limit) as [Hpos|]; [|done].
      destruct (best_filler_range _ _ _ _ _ Efill) as [|Hindex]; [done|]. rewrite length_drop in Hindex. cbn [fst] in Hindex.
      destruct (best_filler_fits pad_size (m_files (pk_fs s)) _ (S i) None _ eq_refl ltac:(done) Efill) as (f & Hf & Hfs). cbn [fst] in Hf.
      destruct (bring_placed index i s Hp) as (s1 & Hs1 & Hp1 & Ho1 & He1 & Hd1 & Hl1); [lia|lia|]. rewrite Hs1. cbn [mbind result_bind].
      rewrite Hf in He1. destruct (placed_rest _ _ _ Hp1 He1) as (Hsf & Hrest1 & _). unfold size_ok in Hsf.
      assert (sizes (drop i (m_files (pk_fs s))) = if_size f + sizes (drop (S i) (m_files (pk_fs s1)))) as Hsum
        by (by rewrite <- (drop_sizes _ _ _ He1), Hd1). rewrite (drop_sizes _ _ _ He) in Hsum.
      destruct (place_placed i s1 f Hp1 He1) as (s2 & Hs2 & Hp2 & Ho2 & _ & Hd2 & Hl2); [lia|nia| |].
      { intros [_ [|Hal]] _ Hlf; lia. }
      rewrite Hs2. cbn [mbind result_bind]. exists (S i), s2. split; [done|]. split; [done|].
      pose proof (potential_bounds (S i) s2) as Hpot2. rewrite Hl2, Hl1 in Hpot2. unfold room_ok. rewrite Hd2, Ho2, Ho1. split; [split; [lia|nia]|lia].
    + destruct (pad_placed pad_size i s Hp Hps Ho) as (s1 & Hs1 & Hp1 & Ho1 & Hd1 & Hl1); [nia|]. rewrite Hs1. cbn [mbind result_bind].
      exists (S i), s1. split; [done|]. split; [done|].
      assert (potential (S i) s1 = 2 * Z.of_nat (length (m_files (pk_fs s)) - i)) as Epot1 by (unfold potential; rewrite Ho1, Haligned, Hl1; simpl; lia).
      assert (potential i s = 2 * Z.of_nat (length (m_files (pk_fs s)) - i) + 1) as Epot.
      { unfold potential. by rewrite (proj2 (Z.eqb_neq _ 0) Hne). }
      unfold room_ok. rewrite Epot1, Hd1, Ho1, (drop_sizes _ _ _ He). rewrite Epot in *. split; [split; [lia|nia]|lia].
Qed.

Lemma optimize_loop_ok fuel : forall i s, placed i s -> room_ok i s -> potential i s <= Z.of_nat fuel ->
  exists s', optimize_loop fuel limit alignment tail_padding i s = Ok s' /\ placed (length (m_files (pk_fs s'))) s' /\ pk_off s' < 2 ^ 48.
Proof.
  induction fuel as [|fuel IH]; intros i s Hp Hroom Hf; cbn [optimize_loop]; case_bool_decide as E.
  1, 3: exists s; (split; [done|]); split; [by rewrite <- E|]; destruct Hroom as [_ Hroom]; pose proof (potential_bounds i s);
    pose proof (sizes_nonneg _ (Forall_drop _ i _ (pl_sizes _ _ Hp))); nia.
  all: pose proof (pl_in _ _ Hp); pose proof (potential_bounds i s).
  1: lia.
  destruct (optimize_turn_progress i s Hp ltac:(lia) Hroom) as (i' & s' & -> & Hp' & Hroom' & Hlt). cbn [mbind result_bind].
  apply IH; [done|done|lia].
Qed.
End Optimize.

Lemma optimize_spec pad_file_limit alignment tail_padding fs : in_step fs -> Forall size_ok (m_files fs) ->
  let al := if alignment =? -1 then m_piece_length fs else alignment in
  0 < al < 2 ^ 31 -> sizes (m_files fs) + 2 * Z.of_nat (length (m_files fs)) * al < 2 ^ 48 ->
  exists fs', optimize pad_file_limit alignment tail_padding fs = Ok fs' /\ in_step fs' /\ same_torrent fs fs' /\
    (exists pads, rows fs' ≡ₚ rows fs ++ pads /\ Forall (pad_row al fs) pads) /\
    laid 0 (m_files fs') (m_total_size fs') /\ m_total_size fs' = sizes (m_files fs') /\ m_total_size fs' < 2 ^ 48 /\
    (padded pad_file_limit al -> Forall (starts_aligned pad_file_limit al) (m_files fs')).
Proof.
  intros Hstep Hsz al Hal Hroom. unfold optimize. fold al. rewrite (proj2 (Z.ltb_ge al 0)) by lia.
  assert (potential al 0 (mk_packing fs 0 0) = 2 * Z.of_nat (length (m_files fs))) as Hpot.
  { unfold potential. cbn [pk_fs pk_off]. rewrite Zmod_0_l, Nat.sub_0_r. simpl. lia. }
  destruct (optimize_loop_ok pad_file_limit al tail_padding fs Hal (2 * length (m_files fs)) 0 (mk_packing fs 0 0))
    as (s' & -> & [_ H1 H2 H3 H4 H5 H6 H7] & Hmax).
  - split; cbn [pk_fs pk_off]; rewrite ?take_0; try done; [lia|]. exists []. by rewrite app_nil_r.
  - split; [done|]. rewrite Hpot. cbn [pk_fs pk_off]. rewrite drop_0. lia.
  - rewrite Hpot. lia.
  - cbn [mbind result_bind]. rewrite firstn_all in H5, H6, H7. eexists. split; [done|]. by repeat (split; [done|]).
Qed.

(** Two bytes of different files, none of them padding, are in different pieces when every
    file is padded to the piece length. *)
Lemma padded_apart pl files : 0 < pl -> forall o total j k f g, laid o files total -> 0 <= o -> o + sizes files < 2 ^ 48 ->
  Forall (starts_aligned 0 pl) files -> files !! j = Some f -> files !! k = Some g -> (j < k)%nat -> if_pad_file g = false ->
  forall x y, if_offset f <= x < if_offset f + if_size f -> if_offset g <= y < if_offset g + if_size g -> x / pl < y / pl.
Proof.
  intros Hpl. assert (forall files o total k g, laid o files total -> 0 <= o -> o + sizes files < 2 ^ 48 -> files !! k = Some g -> o <= if_offset g) as Hafter.
  { clear files. induction files as [|e files IH]; intros o total k g Hl Ho Hmax Hk; [done|]. cbn in Hl, Hmax. destruct Hl as (He & Hs & Hl).
    pose proof (laid_sizes_nonneg _ _ _ Hl). rewrite i64_small in Hl by lia. rewrite Z.mod_small in He by lia.
    destruct k as [|k]; [injection Hk as <-; lia|]. specialize (IH _ _ k g Hl ltac:(lia) ltac:(lia) Hk). lia. }
  induction files as [|e files IH]; intros o total j k f g Hl Ho Hmax Hal Hj Hk Hjk Hg x y Hx Hy; [done|].
  cbn in Hl, Hmax. destruct Hl as (He & Hs & Hl). pose proof (laid_sizes_nonneg _ _ _ Hl). rewrite i64_small in Hl by lia.
  rewrite Z.mod_small in He by lia. destruct k as [|k]; [lia|]. cbn in Hk. apply Forall_cons in Hal as [_ Hal]. destruct j as [|j].
  - injection Hj as <-. pose proof (Hafter _ _ _ k g Hl ltac:(lia) ltac:(lia) Hk). 
    pose proof (Forall_lookup_1 _ _ _ _ Hal Hk Hg ltac:(lia)) as Hg0.
    assert (x / pl < if_offset g / pl).
    { apply Z.div_lt_upper_bound; [lia|]. pose proof (Z.div_mod (if_offset g) pl ltac:(lia)). lia. }
    pose proof (Z.div_le_mono (if_offset g) y pl Hpl ltac:(lia)). lia.
  - apply (IH _ _ j k f g Hl); try done; lia.
Qed.

(** [optimize] returns, whatever files it is given, within two turns for each.  It moves every
    file together with its time and hash and adds only files of padding; the files then lie
    one after the other, and if all files are padded or the limit is at least the alignment,
    each file larger than the limit starts at a multiple of it. *)
Theorem optimize_layout pad_file_limit alignment tail_padding fs : in_step fs -> Forall size_ok (m_files fs) ->
  let al := if alignment =? -1 then m_piece_length fs else alignment in
  0 < al < 2 ^ 31 -> sizes (m_files fs) + 2 * Z.of_nat (length (m_files fs)) * al < 2 ^ 48 ->
  exists fs', optimize pad_file_limit alignment tail_padding fs = Ok fs' /\ in_step fs' /\ same_torrent fs fs' /\
    (exists pads, rows fs' ≡ₚ rows fs ++ pads /\ Forall (pad_row al fs) pads) /\
    laid 0 (m_files fs') (m_total_size fs') /\ m_total_size fs' = sizes (m_files fs') /\ m_total_size fs' < 2 ^ 48 /\
    (padded pad_file_limit al -> Forall (starts_aligned pad_file_limit al) (m_files fs')).
Proof. apply optimize_spec. Qed.

(** C22: Padding separates the files.  For a list of files whose times and hashes, where there are
    any, are given for every file ([short_column] shows what happens else), and which with its
    padding has fewer than 2^48 bytes: when every file is padded to the piece length, [optimize]
    returns, keeps all files with their times and hashes, lays the files out without gaps, and
    no piece holds bytes of two of them, padding apart. *)
Theorem padded_files_apart tail_padding fs : in_step fs -> Forall size_ok (m_files fs) -> 0 < m_piece_length fs < 2 ^ 31 ->
  sizes (m_files fs) + 2 * Z.of_nat (length (m_files fs)) * m_piece_length fs < 2 ^ 48 ->
  exists fs', optimize 0 (-1) tail_padding fs = Ok fs' /\
    (exists pads, rows fs' ≡ₚ rows fs ++ pads /\ Forall (pad_row (m_piece_length fs) fs) pads) /\
    files_ok 0 (map (file_entry_of fs') (m_files fs')) (m_total_size fs') /\
    forall j k f g x y, m_files fs' !! j = Some f -> m_files fs' !! k = Some g -> j <> k ->
      if_pad_file f = false -> if_pad_file g = false ->
      if_offset f <= x < if_offset f + if_size f -> if_offset g <= y < if_offset g + if_size g ->
      x / m_piece_length fs' <> y / m_piece_length fs'.
Proof.
  intros Hst Hsz Hpl Hroom. destruct (optimize_spec 0 (-1) tail_padding fs Hst Hsz Hpl Hroom) as (fs' & Ho & _ & Hsame & Hrows & Hl & Ht & Hmax & Hal).
  exists fs'. split; [done|]. split; [exact Hrows|]. rewrite Ht in Hmax. split; [by apply laid_files_ok|].
  destruct Hsame as (-> & _). specialize (Hal ltac:(by split; [|left])). cbn [Z.eqb Pos.eqb] in Hal.
  intros j k f g x y Hj Hk Hne Hf Hg Hx Hy. destruct (decide (j < k)%nat).
  - pose proof (padded_apart _ _ (proj1 Hpl) 0 _ j k f g Hl ltac:(lia) Hmax Hal Hj Hk ltac:(lia) Hg x y Hx Hy). lia.
  - pose proof (padded_apart _ _ (proj1 Hpl) 0 _ k j g f Hl ltac:(lia) Hmax Hal Hk Hj ltac:(lia) Hf y x Hy Hx). lia.
Qed.

(** ** Samples *)

Definition storage_of (l : list (string * Z * Z)) : file_storage :=
  foldl (fun fs '(path, size, mtime) => add_file (bytes_of_string path) size 0 mtime [] fs) (set_piece_length 8 fs_empty) l.

Definition shape (r : result file_storage) : list (bytes * Z * Z) :=
  map (fun e => (filename e, if_offset e, if_size e)) (m_files (ok_or fs_empty r)).

(** Every file is padded: the largest first, then padding, and so on. *)
Example shape_padded : shape (optimize 0 (-1) false (storage_of [("t/a", 3, 0); ("t/b", 9, 0); ("t/c", 8, 0)])) =
  [(bytes_of_string "c", 0, 8); (bytes_of_string "b", 8, 9); (bytes_of_string "0", 17, 7); (bytes_of_string "a", 24, 3)].
Proof. by vm_compute. Qed.

(** With a limit between zero and the alignment the filler itself may be larger than the
    limit: it is not padded and starts at an unaligned offset. *)
Lemma filler_unaligned : shape (optimize 2 (-1) false (storage_of [("t/a", 9, 0); ("t/b", 9, 0); ("t/c", 3, 0)])) =
  [(bytes_of_string "a", 0, 9); (bytes_of_string "c", 9, 3); (bytes_of_string "0", 12, 4); (bytes_of_string "b", 16, 9)].
Proof. by vm_compute. Qed.

(** A file without a time behind those that have one, at the end of the list: the array of
    times is one too short for the exchange, and is not made longer. *)
Lemma short_column : m_mtime (storage_of [("t/a", 3, 7); ("t/b", 9, 0)]) = [7] /\
  optimize 0 (-1) false (storage_of [("t/a", 3, 7); ("t/b", 9, 0)]) = Fault BadPrecondition.
Proof. by vm_compute. Qed.

Lemma optimize_layout_witness : let fs := storage_of [("t/a", 3, 7); ("t/b", 9, 8); ("t/c", 8, 9)] in
  exists fs', optimize 8 8 true fs = Ok fs' /\ in_step fs' /\ same_torrent fs fs' /\
    (exists pads, rows fs' ≡ₚ rows fs ++ pads /\ Forall (pad_row 8 fs) pads) /\
    laid 0 (m_files fs') (m_total_size fs') /\ m_total_size fs' = sizes (m_files fs') /\ m_total_size fs' < 2 ^ 48 /\
    (padded 8 8 -> Forall (starts_aligned 8 8) (m_files fs')).
Proof.
  apply (optimize_layout 8 8 true); [by split; [right|left]; vm_compute| |done|by vm_compute]. unfold size_ok. decide_by_computation.
Defined.

Lemma padded_files_apart_witness : let fs := storage_of [("t/a", 3, 7); ("t/b", 9, 8); ("t/c", 8, 9)] in
  exists fs', optimize 0 (-1) false fs = Ok fs' /\
    (exists pads, rows fs' ≡ₚ rows fs ++ pads /\ Forall (pad_row 8 fs) pads) /\
    files_ok 0 (map (file_entry_of fs') (m_files fs')) (m_total_size fs') /\
    forall j k f g x y, m_files fs' !! j = Some f -> m_files fs' !! k = Some g -> j <> k ->
      if_pad_file f = false -> if_pad_file g = false ->
      if_offset f <= x < if_offset f + if_size f -> if_offset g <= y < if_offset g + if_size g ->
      x / m_piece_length fs' <> y / m_piece_length fs'.
Proof.
  apply (padded_files_apart false); [by split; [right|left]; vm_compute| |done|by vm_compute]. unfold size_ok. decide_by_computation.
Defined.
