(* ===== verification/TorrentRead.v ===== *)
(** * Reading a torrent file: hash, totality, trackers

    What reading a torrent file computes, against the value the file holds: the info hash
    is the SHA-1 digest of the section it names, the trackers are those it lists, tier by
    tier; and no file, however it was made, takes the reading outside the decoded tokens. *)

From stdpp Require Import sorting.
From S2P Require Import Prelude MsgFactory Net Storage Sha1 Sha1Spec Bdecode BdecodeSpec BdecodeNodes Entry EntrySpec Paths FileStorage TorrentFiles TorrentNames TorrentInfo TorrentLayout.

(** ** The info hash *)

Lemma dict_find_buffer n key c : dict_find key n = Ok c -> node_bool c = true -> m_buffer c = m_buffer n.
Proof. unfold dict_find. intros H. apply result_bind_ok in H as ([token|] & _ & [= <-]); done. Qed.

Lemma dict_find_type_buffer t n key c : dict_find_type t key n = Ok c -> node_bool c = true -> m_buffer c = m_buffer n.
Proof.
  unfold dict_find_type. intros H Hc. unbind H. case_bool_decide; subst c; [|done]. by eapply dict_find_buffer.
Qed.

Section Read.
Context {EN : Endian} {CRC : Crc32c} {PE : PastEnd} {SH : Shuffle}.

Lemma parse_hashes_info_hash info num_pieces max_pieces o o' :
  parse_hashes info num_pieces max_pieces o = Ok (inr o') -> o_info_hash o' = o_info_hash o.
Proof. unfold parse_hashes. intros H. unbind H; by subst o'. Qed.

Lemma parse_info_section_hash garbage info max_pieces o o' ec : parse_info_section garbage info max_pieces o = Ok (o', ec, true) ->
  exists section, data_section info = Ok section /\ hash_parts garbage [section] = Ok (o_info_hash o').
Proof.
  intros H. unfold parse_info_section, finish_info in H. unbind H; try done.
  destruct a3 as [e|[files multi]]; unbind H; try done. destruct a3 as [e|o1]; unbind H; try done. subst o'.
  exists a0. split; [done|]. rewrite E2. f_equal. apply parse_hashes_info_hash in E10. cbn in *. by rewrite E10.
Qed.

(** The value of the first key [key] of the dictionary the buffer begins with is written as [section]. *)
Definition root_section (buffer key section : bytes) (v : bvalue) : Prop :=
  exists b rest, buffer = 100 :: b ++ 101 :: rest /\ written_under 1 b key section v.

(** What the key [key] of a decoded dictionary leads to is the value written under it. *)
Lemma dict_find_written depth_limit token_limit buffer n pos l key c : bdecode depth_limit token_limit buffer = Ok (n, no_error, pos) ->
  denotes n (BDict l) -> dict_find key n = Ok c -> node_bool c = true ->
  exists section v, placed_as c (m_token_idx c) section v /\ denotes c v /\ root_section buffer key section v.
Proof.
  intros Hd Hn Hc Hb. assert (Z.of_nat (length buffer) <= max_offset) as Hmax.
  { unfold bdecode in Hd. by destruct (Z.ltb_spec max_offset (Z.of_nat (length buffer))). }
  apply decoded_root in Hd as (b & r & ts & v & -> & Hi & ->). pose proof (root_denotes _ _ _ _ Hi Hmax) as Hv.
  pose proof (node_type_of_denotes _ _ Hn) as Hty. rewrite (node_type_of_denotes _ _ Hv) in Hty.
  destruct v as [z|s|l'|l']; try done. clear Hty Hn. destruct (dict_find_denotes _ l' key Hv) as (c' & Hc' & Hval).
  assert (c' = c) as -> by congruence. clear Hc'. destruct (value_of key l') as [v|] eqn:Ev; [|by subst c].
  inversion Hi as [| | |o s ts0 l0 Hp Hm]; subst. unfold dict_find in Hc.
  destruct (placed_dict _ _ _ (proj1 Hv)) as [_ Hlen]. apply placed_items_length in Hlen as [_ Hlen]. rewrite flatten_length in Hlen.
  set (n := root_node _ _ _) in *.
  destruct (dict_search_written n key v Hmax _ _ _ _ Hp Ev (length (m_root_tokens n)) [set_next_item (Z.of_nat (length ts0) + 2) (new_token_0 0 T_dict)]
    (new_token (1 + Z.of_nat (length s)) 1 T_end 0) [new_token (Z.of_nat (length (100 :: s ++ [101]))) 0 T_end 0] [100] (101 :: r)) as (i & section & Hs & Hplace & Hw).
  - change (m_token_idx n) with 0 in Hlen. lia.
  - subst n. cbn [root_node m_root_tokens]. unfold container. cbn [app]. by rewrite <- !app_assoc.
  - subst n. cbn [root_node m_buffer app]. by rewrite <- !app_assoc.
  - done.
  - done.
  - cbn [new_token offset]. apply Z.mod_small. rewrite !length_app in Hmax. cbn [length] in Hmax.
    rewrite length_app in Hmax. unfold max_offset in Hmax. lia.
  - change (Z.of_nat (length [_])) with (m_token_idx n + 1) in Hs. rewrite Hs in Hc. cbn [mbind result_bind] in Hc. injection Hc as <-.
    exists section, v. split; [exact Hplace|]. split; [by apply denotes_child; exists section|].
    exists s, r. split; [|done]. cbn [app]. by rewrite <- app_assoc.
Qed.

(** C19: The info hash of a torrent is the digest of the bytes its info section has in the file: of those the value of
    the key "info" of the root dictionary is written with. *)
Theorem info_hash_of_section garbage buffer o : length garbage = 64%nat -> bytes_ok buffer ->
  torrent_info_create garbage buffer = Ok (o, None) -> m_files (o_files o) <> [] ->
  exists section li, root_section buffer (bytes_of_string "info") section (BDict li) /\
    ti_info_hash (info_of o) = fips_sha1 section.
Proof.
  intros Hg Hok H Hne. destruct (torrent_info_create_inv _ _ _ H Hne) as (n & info & l & li & o1 & files & urls & extras & [[pos Hd] Hn Hfind _ Hinfo Hparsed _ _ _ ->]).
  unfold bdecode_default in Hd. apply decoded_root in Hd as Hroot. destruct Hroot as (b & r & ts & v & Hbuf & _ & Hroot).
  assert (dict_find (bytes_of_string "info") n = Ok info) as Hfind'.
  { unfold dict_find_dict, dict_find_type in Hfind. unbind Hfind. apply denotes_bool in Hinfo. case_bool_decide; by subst info. }
  pose proof (dict_find_buffer _ _ _ Hfind' (denotes_bool _ _ Hinfo)) as Hb. rewrite Hroot in Hb. cbn [root_node m_buffer] in Hb.
  destruct (dict_find_written _ _ _ _ _ _ _ _ Hd Hn Hfind' (denotes_bool _ _ Hinfo)) as (section & v' & Hp & Hv & Hs).
  pose proof (node_type_of_denotes _ _ Hinfo) as Hty. rewrite (node_type_of_denotes _ _ Hv) in Hty. destruct v' as [z|s|l'|l']; try done.
  exists section, l'. split; [done|].
  apply parse_info_section_hash in Hparsed as (section' & Hs' & Hh).
  rewrite (data_section_placed info _ _ _ eq_refl Hp) in Hs'. injection Hs' as <-.
  destruct Hp as (pre & ts' & t & post & bpre & bpost & _ & _ & Hb' & Hmax & _ & _). rewrite Hb in Hb', Hmax.
  assert (bytes_ok section) as Hok'.
  { rewrite Hb' in Hok. by apply Forall_app in Hok as [_ [Hok _]%Forall_app]. }
  assert (Z.of_nat (length section) < 2 ^ 29) by (rewrite Hb', !length_app in Hmax; unfold max_offset in Hmax; lia).
  rewrite hash_parts_digest in Hh; [|done|cbn [concat]; by rewrite app_nil_r|by apply Forall_singleton].
  injection Hh as Hh. cbn [concat] in Hh. rewrite app_nil_r in Hh. by cbn.
Qed.

(** ** Trackers *)

(** The trackers a value lists in tier [j], and in the tiers from [j] on. *)
Definition url_of (v : bvalue) : bytes := match v with BStr s => trim s | _ => [] end.

Fixpoint tier_entries (j : Z) (l : list bvalue) : list announce_entry :=
  match l with
  | [] => []
  | v :: l' => if bool_decide (url_of v = []) then tier_entries j l' else mk_announce_entry (url_of v) (u8 j) :: tier_entries j l'
  end.

Fixpoint listed_trackers (j : Z) (l : list bvalue) : list announce_entry :=
  match l with
  | [] => []
  | v :: l' => match v with BList t => tier_entries j t | _ => [] end ++ listed_trackers (j + 1) l'
  end.

Lemma list_string_value_at_node n l i x default_val : denotes n (BList l) -> l !! i = Some x ->
  exists n', list_string_value_at (Z.of_nat i) default_val n = Ok (match x with BStr s => s | _ => default_val end, n') /\ denotes n' (BList l).
Proof.
  intros Hn Hx. destruct (list_at_denotes n l i x Hn Hx) as (c & n' & Hat & Hc & Hn'). exists n'. split; [|done].
  unfold list_string_value_at. rewrite Hat. cbn [mbind result_bind]. rewrite (node_type_of_denotes c x Hc). cbn [mbind result_bind].
  destruct x as [z|s|t|t]; cbn [value_type]; try done. by rewrite bool_decide_true, (proj1 (string_node c s Hc)) by done.
Qed.

Lemma tier_urls_value j l2 : forall l1 tier, denotes tier (BList (l1 ++ l2)) ->
  tier_urls (length l2) (Z.of_nat (length l1)) j tier = Ok (tier_entries j l2).
Proof.
  induction l2 as [|x l2 IH]; intros l1 tier Hn; [done|]. cbn [length tier_urls tier_entries].
  destruct (list_string_value_at_node tier (l1 ++ x :: l2) (length l1) x [] Hn) as (tier' & -> & Hn');
    [by rewrite list_lookup_middle|].
  cbn [mbind result_bind]. specialize (IH (l1 ++ [x]) tier'). rewrite <- app_assoc, length_app in IH. simpl (length [x]) in IH.
  replace (Z.of_nat (length l1) + 1) with (Z.of_nat (length l1 + 1)) by lia. rewrite IH by done. cbn [mbind result_bind].
  by destruct x.
Qed.

Lemma announce_tiers_value l2 : forall l1 n, denotes n (BList (l1 ++ l2)) ->
  announce_tiers (length l2) (Z.of_nat (length l1)) n = Ok (listed_trackers (Z.of_nat (length l1)) l2).
Proof.
  induction l2 as [|x l2 IH]; intros l1 n Hn; [done|]. cbn [length announce_tiers listed_trackers].
  destruct (list_at_denotes n (l1 ++ x :: l2) (length l1) x Hn) as (c & n' & -> & Hc & Hn'); [by rewrite list_lookup_middle|].
  cbn [mbind result_bind]. rewrite (node_type_of_denotes c x Hc). cbn [mbind result_bind].
  specialize (IH (l1 ++ [x]) n'). rewrite <- app_assoc, length_app in IH. simpl (length [x]) in IH.
  replace (Z.of_nat (length l1) + 1) with (Z.of_nat (length l1 + 1)) by lia.
  destruct x as [z|s|t|t]; cbn [value_type]; rewrite ?bool_decide_false by done; cbn [mbind result_bind]; try by rewrite IH.
  rewrite bool_decide_true by done. destruct (list_size_denotes c t Hc) as (c' & -> & Hc'). cbn [mbind result_bind].
  rewrite Nat2Z.id. rewrite (tier_urls_value _ t [] c') by done. cbn [mbind result_bind]. by rewrite IH.
Qed.

Definition tier_le (a b : announce_entry) : Prop := ae_tier a <= ae_tier b.

Lemma insert_tier_permutation e l : Permutation (insert_tier e l) (e :: l).
Proof.
  induction l as [|e' l IH]; simpl; [done|]. destruct (_ <=? _); [done|]. rewrite IH. by constructor.
Qed.

Lemma insert_tier_sorted e l : StronglySorted tier_le l -> StronglySorted tier_le (insert_tier e l).
Proof.
  induction 1 as [|e' l Hs IH Hall]; simpl; [by repeat constructor|].
  destruct (Z.leb_spec (ae_tier e) (ae_tier e')) as [Hle|Hgt].
  - constructor; [by constructor|]. constructor; [done|]. eapply Forall_impl; [exact Hall|]. unfold tier_le. cbn. lia.
  - constructor; [done|]. rewrite insert_tier_permutation. constructor; [unfold tier_le; lia|done].
Qed.

Lemma sort_tiers_spec l : Permutation (sort_tiers l) l /\ StronglySorted tier_le (sort_tiers l).
Proof.
  induction l as [|e l [IHp IHs]]; cbn [sort_tiers foldr]; [by split; [done|constructor]|].
  split; [rewrite insert_tier_permutation; by constructor|by apply insert_tier_sorted].
Qed.

(** The trackers a dictionary lists, and its single announce URL. *)
Definition listed_of (l : list (bytes * bvalue)) : list announce_entry :=
  match value_of (bytes_of_string "announce-list") l with Some (BList t) => listed_trackers 0 t | _ => [] end.

Definition announce_of (l : list (bytes * bvalue)) : list announce_entry :=
  let url := trim (default [] (string_of (bytes_of_string "announce") l)) in
  if bool_decide (url = []) then [] else [mk_announce_entry url 0].

Lemma parse_trackers_value n l : ShuffleLaws SH -> denotes n (BDict l) ->
  parse_trackers n = Ok (if bool_decide (listed_of l = []) then announce_of l else sort_tiers (shuffle (listed_of l))).
Proof.
  intros Hsh Hn. unfold parse_trackers.
  destruct (dict_find_type_node n l list_t (bytes_of_string "announce-list") ltac:(done) Hn) as (c & Hc & Hv).
  change (dict_find_type list_t) with dict_find_list in Hc. rewrite Hc. cbn [mbind result_bind].
  set (urls := if bool_decide (listed_of l = []) then [] else sort_tiers (shuffle (listed_of l))).
  assert ((if node_bool c then _ else Ok []) = Ok urls) as ->.
  { unfold urls, listed_of, typed_value_of in *. destruct (value_of _ l) as [[z|s|t|t]|]; cbn [mbind option_bind] in Hv;
      cbn [value_type] in Hv; rewrite ?bool_decide_false in Hv by done; try by rewrite (proj2 Hv), bool_decide_true.
    rewrite bool_decide_true in Hv by done. destruct Hv as (Hd & -> & _).
    destruct (list_size_denotes c t Hd) as (c' & -> & Hd'). cbn [mbind result_bind]. rewrite Nat2Z.id.
    pose proof (announce_tiers_value t [] c' Hd') as Ht. change (Z.of_nat (length [])) with 0 in Ht. by rewrite Ht. }
  cbn [mbind result_bind]. rewrite (dict_find_string_value_node n l _ _ Hn). cbn [mbind result_bind].
  unfold urls. clear urls. destruct (decide (listed_of l = [])) as [Hl|Hl].
  - by rewrite !(bool_decide_true (listed_of l = [])), (bool_decide_true ([] = [])) by done.
  - rewrite !(bool_decide_false (listed_of l = [])) by done. rewrite bool_decide_false; [done|].
    assert (Permutation (sort_tiers (shuffle (listed_of l))) (listed_of l)) as Hp by (etrans; [apply sort_tiers_spec|apply shuffle_permutes]).
    intros E. rewrite E in Hp. by apply Permutation_nil in Hp.
Qed.

(** C20: The trackers of a torrent file are those of its announce list that are not blank, each
    as often as it is listed, the tiers in order; without any, the single announce URL. *)
Theorem trackers_of_file n l : ShuffleLaws SH -> denotes n (BDict l) -> exists urls, parse_trackers n = Ok urls /\
  if bool_decide (listed_of l = []) then urls = announce_of l
  else Permutation urls (listed_of l) /\ StronglySorted tier_le urls.
Proof.
  intros Hsh Hn. rewrite (parse_trackers_value n l Hsh Hn). eexists. split; [done|].
  destruct (sort_tiers_spec (shuffle (listed_of l))) as [Hp Hs].
  case_bool_decide; [done|]. split; [by etrans; [exact Hp|apply shuffle_permutes]|done].
Qed.
End Read.

(** ** Witnesses *)

#[local] Existing Instance sample_past_end.

#[export] Instance sample_shuffle_laws : ShuffleLaws sample_shuffle.
Proof. by intros A l. Qed.

Lemma info_hash_of_section_witness : exists section li, root_section one_file (bytes_of_string "info") section (BDict li) /\
  ti_info_hash (info_of (sample_object one_file)) = fips_sha1 section.
Proof.
  apply (info_hash_of_section (EN := false) (CRC := sample_crc) (SH := sample_shuffle) (replicate 64 0) one_file).
  - done.
  - decide_by_computation.
  - by vm_compute.
  - by vm_compute.
Defined.

(** Two tiers, the first with a blank. *)
Definition tiers_entry : entry := EDict [(bytes_of_string "announce-list",
  EList [EList [EStr (bytes_of_string "b")]; EList [EStr (bytes_of_string " a"); EStr (bytes_of_string " ")]])].

Lemma trackers_of_file_witness : exists n urls, denotes n (value_of_entry tiers_entry) /\
  parse_trackers (SH := sample_shuffle) n = Ok urls /\
  Permutation urls [mk_announce_entry (bytes_of_string "b") 0; mk_announce_entry (bytes_of_string "a") 1] /\
  StronglySorted tier_le urls.
Proof.
  destruct (encoded_node tiers_entry) as (n & Hn); [by vm_compute|by vm_compute|]. exists n.
  destruct (trackers_of_file (SH := sample_shuffle) n [(bytes_of_string "announce-list",
    BList [BList [BStr (bytes_of_string "b")]; BList [BStr (bytes_of_string " a"); BStr (bytes_of_string " ")]])] sample_shuffle_laws Hn)
    as (urls & Hu & Hp). exists urls. split; [exact Hn|]. split; [exact Hu|]. exact Hp.
Defined.
