(* ===== verification/TorrentTotal.v ===== *)
(** * No torrent file breaks the reader

    Whatever bytes a torrent file consists of, reading it returns: every token and every
    byte that is looked at exists, the loops end.  The one computation that C++ leaves
    open is the size of the hashes of a torrent whose sizes add up to less than zero. *)

From S2P Require Import Prelude MsgFactory Net Storage Sha1 Sha1Spec Bdecode BdecodeSpec BdecodeNodes Paths FileStorage Symlinks SymlinksSpec TorrentFiles TorrentNames Magnet MagnetSpec Urls Encoding TorrentExtras TorrentInfo TorrentLayout TorrentRead.

(** ** Nodes of a buffer of bytes *)

(** A node of a value, in a buffer of bytes. *)
Definition good (n : bdecode_node) (v : bvalue) : Prop := denotes n v /\ bytes_ok (m_buffer n).

Lemma good_type n v : good n v -> node_type_of n = Ok (value_type v).
Proof. intros [Hn _]. by apply node_type_of_denotes. Qed.

Lemma string_value_ok n s : bytes_ok (m_buffer n) -> string_value n = Ok s -> bytes_ok s.
Proof.
  intros Hb H. unfold string_value in H. unbind H. subst s. unfold buffer_span. by apply Forall_take, Forall_drop.
Qed.

Lemma good_string n s : good n (BStr s) -> string_value n = Ok s /\ string_length n = Ok (Z.of_nat (length s)) /\ bytes_ok s.
Proof. intros [Hn Hb]. destruct (string_node n s Hn) as [Hs Hl]. split_and!; [done|done|by eapply string_value_ok]. Qed.

(** What a search by key and type finds. *)
Definition found (t : node_type) (c : bdecode_node) : Prop :=
  node_bool c = false \/ node_bool c = true /\ exists v, good c v /\ value_type v = t.

Section Total.
Context (E : fault -> Prop).

Lemma good_find t key n l : t <> none_t -> good n (BDict l) -> returns_or E (dict_find_type t key n) (found t).
Proof.
  intros Ht [Hn Hb]. destruct (dict_find_type_node n l t key Ht Hn) as (c & Hc & Hv). rewrite Hc. cbn [returns_or].
  destruct (typed_value_of t key l) as [v|]; [|left; apply Hv]. destruct Hv as (Hd & Hbool & Hty). right. split; [done|].
  exists v. split; [|done]. split; [done|]. by rewrite (dict_find_type_buffer _ _ _ _ Hc Hbool).
Qed.

Lemma good_list_size n l : good n (BList l) ->
  returns_or E (list_size n) (fun '(size, n') => size = Z.of_nat (length l) /\ good n' (BList l)).
Proof.
  intros [Hn Hb]. destruct (list_size_denotes n l Hn) as (n' & Hs & Hn'). rewrite Hs. split; [done|]. split; [done|].
  unfold list_size in Hs. unbind Hs; by subst.
Qed.

Lemma good_list_at n l i : good n (BList l) -> (i < length l)%nat ->
  returns_or E (list_at (Z.of_nat i) n) (fun '(c, n') => (exists x, l !! i = Some x /\ good c x) /\ good n' (BList l)).
Proof.
  intros [Hn Hb] Hi. destruct (lookup_lt_is_Some_2 l i Hi) as [x Hx].
  destruct (list_at_denotes n l i x Hn Hx) as (c & n' & Hat & Hc & Hn'). rewrite Hat.
  unfold list_at in Hat. unbind Hat. subst. split; [exists x; split; [done|by split]|by split].
Qed.

(** ** Attempts *)

(** An attempt returns; if it succeeds, what it yields satisfies [P]. *)
Definition yields {A} (m : result (attempt A)) (P : A -> Prop) : Prop :=
  returns_or E m (fun r => match r with inl _ => True | inr a => P a end).

Lemma yields_then {A B} (m : result (attempt A)) (f : A -> result (attempt B)) P Q :
  yields m P -> (forall a, P a -> yields (f a) Q) -> yields (and_then m f) Q.
Proof. intros Hm Hf. eapply returns_bind; [exact Hm|]. intros [e|a]; [done|apply Hf]. Qed.

Definition is_str (v : bvalue) : Prop := exists s, v = BStr s.

Lemma path_length_loop_total l2 : forall l1 p ret, good p (BList (l1 ++ l2)) ->
  yields (path_length_loop (length l2) (Z.of_nat (length l1)) p ret) (fun _ => Forall is_str l2).
Proof.
  induction l2 as [|x l2 IH]; intros l1 p ret Hp; [by constructor|]. cbn [length path_length_loop].
  eapply returns_bind; [apply (good_list_at _ _ (length l1) Hp); rewrite length_app; simpl; lia|].
  intros [e p'] ((x' & Hx & He) & Hp'). rewrite list_lookup_middle in Hx by done. injection Hx as <-.
  rewrite (good_type _ _ He). cbn [mbind result_bind]. case_bool_decide as Ht; [|done]. destruct x as [z|s|t|t]; try done. cbn [negb].
  destruct (good_string _ _ He) as (_ & -> & _). cbn [mbind result_bind].
  replace (Z.of_nat (length l1) + 1) with (Z.of_nat (length (l1 ++ [BStr s]))) by (rewrite length_app; simpl; lia).
  eapply returns_mono; [apply IH; by rewrite <- app_assoc|]. intros [e0|a]; [done|]. intros Hf. constructor; [by exists s|done].
Qed.

Lemma path_length_total p l : good p (BList l) -> yields (path_length p) (fun _ => Forall is_str l).
Proof.
  intros Hp. unfold path_length. eapply returns_bind; [by eapply good_list_size|]. intros [len p'] [-> Hp'].
  rewrite Nat2Z.id. eapply yields_then; [by apply (path_length_loop_total l [])|]. by intros ret Hl.
Qed.

(** Sanitizing the elements of a list of strings. *)
Lemma append_elements_total l2 : forall l1 p path name, good p (BList (l1 ++ l2)) -> Forall is_str l2 -> path = [] \/ safe_path path ->
  returns_or E (append_elements (length l2) (Z.of_nat (length l1)) p path name) (fun '(r, _) => r = path \/ safe_path r).
Proof.
  induction l2 as [|x l2 IH]; intros l1 p path name Hp Hs Hpath; [by left|]. cbn [length append_elements].
  apply Forall_cons in Hs as [[s ->] Hs].
  eapply returns_bind; [apply (good_list_at _ _ (length l1) Hp); rewrite length_app; simpl; lia|].
  intros [e p'] ((x' & Hx & He) & Hp'). rewrite list_lookup_middle in Hx by done. injection Hx as <-.
  destruct (good_string _ _ He) as (-> & _ & Hok). cbn [mbind result_bind].
  destruct (sanitize_safe path s Hok Hpath) as (r & -> & Hr). cbn [mbind result_bind].
  replace (Z.of_nat (length l1) + 1) with (Z.of_nat (length (l1 ++ [BStr s]))) by (rewrite length_app; simpl; lia).
  eapply returns_mono; [apply IH; [by rewrite <- app_assoc|done|naive_solver]|]. intros [r' name']. naive_solver.
Qed.

Lemma sanitize_list_total p l path : good p (BList l) -> Forall is_str l -> path = [] \/ safe_path path ->
  returns_or E (sanitize_list p path) (fun '(r, _) => r = path \/ safe_path r).
Proof.
  intros Hp Hs Hpath. unfold sanitize_list. eapply returns_bind; [by eapply good_list_size|]. intros [size p'] [-> Hp'].
  rewrite Nat2Z.id. by apply (append_elements_total l []).
Qed.

(** ** Files *)

Lemma found_string c : found string_t c -> node_bool c = false \/ node_bool c = true /\ exists s, good c (BStr s).
Proof. intros [|(Hb & v & Hg & Hv)]; [by left|right]. split; [done|]. destruct v as [z|s|t|t]; try done. by exists s. Qed.

Lemma found_list c : found list_t c -> node_bool c = false \/ node_bool c = true /\ exists l, good c (BList l).
Proof. intros [|(Hb & v & Hg & Hv)]; [by left|right]. split; [done|]. destruct v as [z|s|t|t]; try done. by exists t. Qed.

Lemma good_int_value key default_val n l : good n (BDict l) ->
  dict_find_int_value key default_val n = Ok (int_of_key key default_val l).
Proof. intros [Hn _]. by apply dict_find_int_value_node. Qed.

Lemma prefer_total t key key' n l : t <> none_t -> good n (BDict l) -> returns_or E (prefer (dict_find_type t) key key' n) (found t).
Proof.
  intros Ht Hn. unfold prefer. eapply returns_bind; [by apply (good_find t key n l)|]. intros c Hc.
  destruct (node_bool c); [done|]. by apply (good_find t key' n l).
Qed.

Lemma get_file_attributes_total n l : good n (BDict l) -> returns_or E (get_file_attributes n) (fun _ => True).
Proof.
  intros Hn. unfold get_file_attributes. eapply returns_bind; [by apply (good_find string_t _ n l)|].
  intros c [->|(-> & s & Hs)]%found_string; [done|]. by rewrite (proj1 (good_string _ _ Hs)).
Qed.

(** The paths a torrent names are made of proper elements. *)
Lemma single_path_total n l root_dir : good n (BDict l) -> root_dir = [] \/ safe_path root_dir ->
  yields (single_path n root_dir) (fun '(path, _) => safe_path path).
Proof.
  intros Hn Hroot. unfold single_path. eapply returns_bind; [by apply (prefer_total string_t _ _ n l)|].
  intros c [->|(-> & s & Hs)]%found_string; [done|]. destruct (good_string _ _ Hs) as (-> & _ & Hok). cbn [negb mbind result_bind].
  case_bool_decide; [done|]. destruct (sanitize_safe root_dir s Hok Hroot) as (r & -> & Hr). cbn [mbind result_bind].
  case_bool_decide; [done|]. cbn. naive_solver.
Qed.

Lemma component_safe e : component_ok e -> safe_path e.
Proof. intros He. exists [e]. split; [done|]. split; [by apply Forall_singleton|done]. Qed.

Lemma pad_path_safe cnt : safe_path (combine_path (bytes_of_string ".pad") (take 9 (decimal_Z cnt))).
Proof.
  destruct (decimal_chars cnt) as (Hc & Hne & Hh). assert (component_ok (bytes_of_string ".pad")) as Hpad
    by (split_and!; [done|decide_by_computation|done|done]).
  assert (component_ok (take 9 (decimal_Z cnt))) as Hnum.
  { destruct (decimal_Z cnt) as [|c l]; [done|]. split_and!; [done| |intros [= -> _]; by apply Hh|intros [= -> _]; by apply Hh].
    apply Forall_take. eapply Forall_impl; [exact Hc|]. unfold clean. cbn. lia. }
  change (bytes_of_string ".pad") with (join_path [bytes_of_string ".pad"]).
  change (take 9 (decimal_Z cnt)) with (join_path [take 9 (decimal_Z cnt)]). rewrite combine_join by by apply Forall_singleton.
  eexists. split; [|split; [|done]]; [done|]. constructor; [done|by apply Forall_singleton].
Qed.

Lemma listed_path_total n l root_dir flags cnt : good n (BDict l) -> safe_path root_dir ->
  yields (listed_path n root_dir flags cnt) (fun '(path, _, _) => safe_path path).
Proof.
  intros Hn Hroot. pose proof (pad_path_safe cnt) as Hpad. unfold listed_path.
  eapply returns_bind; [by apply (prefer_total list_t _ _ n l)|].
  intros c [->|(-> & t & Ht)]%found_list; cbn [mbind result_bind]; [by destruct (has_flag _ _)|].
  eapply returns_bind; [by eapply good_list_size|]. intros [size c'] [-> Hc'].
  destruct (0 <? _); [|by destruct (has_flag _ _)]. eapply yields_then; [by eapply path_length_total|]. intros ? Hs.
  eapply returns_bind; [eapply sanitize_list_total; [done|done|by right]|]. intros [path name] Hp.
  assert (safe_path path) as Hpath by by destruct Hp as [->|]. cbn. destruct (_ =? _)%nat; [|done].
  destruct Hpath as (es & Hne & Hok & ->). exists (es ++ [[95]]). split; [by destruct es|]. split; [|by rewrite join_path_snoc].
  apply Forall_app. split; [done|]. apply Forall_singleton. split_and!; [done|decide_by_computation|done|done].
Qed.

Lemma link_target_total n l flags : good n (BDict l) ->
  yields (link_target n flags) (fun '(target, _) => target = [] \/ safe_path target).
Proof.
  intros Hn. unfold link_target. destruct (has_flag _ _); [|by left].
  eapply returns_bind; [by apply (good_find list_t _ n l)|]. intros c [->|(-> & t & Ht)]%found_list; [by left|].
  eapply yields_then; [by eapply path_length_total|]. intros ? Hs.
  eapply returns_bind; [eapply sanitize_list_total; [done|done|by left]|]. by intros [path name] H.
Qed.

Lemma extract_single_file_total n v files root_dir (top_level : bool) cnt : good n v -> links_ok files ->
  safe_path root_dir \/ top_level = true /\ root_dir = [] ->
  yields (extract_single_file n files root_dir top_level cnt) (fun '(files', _) => links_ok files').
Proof.
  intros Hn Hfiles Hroot. unfold extract_single_file. rewrite (good_type n v Hn). cbn [mbind result_bind].
  destruct v as [z|s|l|l]; cbn [value_type]; rewrite ?bool_decide_false by done; try done. rewrite bool_decide_true by done. cbn [negb].
  eapply returns_bind; [by eapply get_file_attributes_total|]. intros flags _.
  rewrite !(good_int_value _ _ n l Hn).
  assert ((if has_flag flags flag_symlink then Ok 0 else Ok (int_of_key (bytes_of_string "length") (-1) l)) =
    Ok (if has_flag flags flag_symlink then 0 else int_of_key (bytes_of_string "length") (-1) l)) as -> by by destruct (has_flag _ _).
  cbn [mbind result_bind]. set (size := if has_flag _ _ then _ else _). destruct (size <? 0); [done|].
  eapply yields_then; [instantiate (1 := fun '(path, _, _) => safe_path path)|].
  { destruct top_level; [|eapply listed_path_total; [done|naive_solver]].
    eapply yields_then; [eapply single_path_total; [done|naive_solver]|]. by intros [path name] H. }
  intros [[path name] cnt'] Hpath. eapply returns_bind; [by apply (good_find string_t _ n l)|]. intros fh Hfh.
  eapply (returns_bind _ _ _ (fun _ => True)).
  { apply found_string in Hfh as [->|(-> & s & Hs)]; [done|]. by rewrite (proj1 (good_string _ _ Hs)). }
  intros hash _. eapply yields_then; [by eapply link_target_total|]. intros [target flags'] Htarget. by apply added_links.
Qed.

Lemma extract_loop_total l2 : forall l1 n files root_dir cnt, good n (BList (l1 ++ l2)) -> links_ok files -> safe_path root_dir ->
  yields (extract_loop (length l2) (Z.of_nat (length l1)) n files root_dir cnt) links_ok.
Proof.
  induction l2 as [|x l2 IH]; intros l1 n files root_dir cnt Hn Hfiles Hroot; [done|]. cbn [length extract_loop].
  eapply returns_bind; [apply (good_list_at _ _ (length l1) Hn); rewrite length_app; simpl; lia|].
  intros [e n'] ((x' & Hx & He) & Hn'). rewrite list_lookup_middle in Hx by done. injection Hx as <-.
  eapply yields_then; [eapply extract_single_file_total; [done|done|by left]|]. intros [files' cnt'] Hfiles'.
  replace (Z.of_nat (length l1) + 1) with (Z.of_nat (length (l1 ++ [x]))) by (rewrite length_app; simpl; lia).
  apply IH; [by rewrite <- app_assoc|done|done].
Qed.

(** Validating the links at the end. *)
Lemma sanitize_total files : links_ok files -> returns_or E (sanitize_symlinks files) links_inside.
Proof. intros H. destruct (sanitize_spec files H) as (symlinks & -> & Hin & _). exact Hin. Qed.

Lemma hex_safe h : bytes_ok h -> h <> [] -> safe_path (to_hex h).
Proof.
  intros Hok Hne. apply component_safe. pose proof (to_hex_chars h Hok) as Hc. rewrite Forall_forall in Hc.
  assert (Forall (fun c => clean c /\ c <> 46) hex_chars) as Hx by (unfold clean; decide_by_computation). rewrite Forall_forall in Hx.
  assert (46 ∉ to_hex h) as Hd by (intros H%Hc%Hx; naive_solver).
  split_and!; [by destruct h| |intros H; apply Hd; rewrite H; by left|intros H; apply Hd; rewrite H; by left].
  apply Forall_forall. intros c H%Hc%Hx. apply H.
Qed.

Lemma parse_files_total n l info_hash files : good n (BDict l) -> links_ok files -> bytes_ok info_hash -> info_hash <> [] ->
  yields (parse_files n info_hash files) (fun '(files', _) => links_inside files').
Proof.
  intros Hn Hfiles Hh Hne. unfold parse_files. eapply returns_bind; [by apply (prefer_total string_t _ _ n l)|].
  intros c [->|(-> & s & Hs)]%found_string; [done|]. destruct (good_string _ _ Hs) as (-> & _ & Hok). cbn [negb mbind result_bind].
  destruct (sanitize_safe [] s Hok (or_introl eq_refl)) as (r & -> & Hr). cbn [mbind result_bind].
  set (name := if bool_decide (r = []) then _ else _).
  assert (safe_path name) as Hname by (unfold name; case_bool_decide; [by apply hex_safe|naive_solver]).
  eapply returns_bind; [by apply (good_find list_t _ n l)|]. intros c' [->|(-> & t & Ht)]%found_list; cbn [negb].
  - eapply yields_then; [eapply extract_single_file_total; [done|done|by right]|]. intros [files' cnt] Hfiles'.
    eapply returns_bind; [by apply sanitize_total|]. by intros files2 H.
  - eapply yields_then; [|by intros files2 H; exact H]. unfold extract_files. rewrite (good_type _ _ Ht).
    cbn [mbind result_bind value_type]. rewrite bool_decide_true by done. cbn [negb].
    eapply returns_bind; [by eapply good_list_size|]. intros [size c''] [-> Hc'']. rewrite Nat2Z.id.
    eapply yields_then; [by apply (extract_loop_total t [])|]. intros files' Hfiles'.
    eapply returns_bind; [by apply sanitize_total|]. by intros files2 H.
Qed.
End Total.

(** ** The info section *)

Definition overflow (f : fault) : Prop := f = SignedOverflow.

Lemma parse_hashes_total n l num_pieces max_pieces o : good n (BDict l) ->
  yields overflow (parse_hashes n num_pieces max_pieces o) (fun _ => True).
Proof.
  intros Hn. unfold parse_hashes. eapply returns_bind; [by apply (good_find _ string_t _ n l)|]. intros pieces Hp%found_string.
  eapply returns_bind; [by apply (good_find _ string_t _ n l)|]. intros root Hr%found_string.
  destruct (negb (node_bool pieces) && negb (node_bool root)) eqn:E; [done|].
  destruct ((2 ^ 31 - 1) / 20 <=? num_pieces) eqn:Eb; cbn [orb]; [done|].
  destruct (max_pieces <? num_pieces); [done|]. destruct Hp as [Hb|(Hb & s & Hs)]; rewrite Hb in *; cbn [negb andb] in *.
  - destruct Hr as [Hr|(Hr & s & Hs)]; [by rewrite Hr in E|]. destruct (good_string _ _ Hs) as (-> & -> & _). cbn [mbind result_bind].
    destruct (_ =? 20); [|done]. cbn [negb]. destruct (Z.leb_spec num_pieces 0); [done|].
    apply Z.leb_gt in Eb. change ((2 ^ 31 - 1) / 20) with 107374182 in Eb. unfold merkle_num_leafs.
    destruct (merkle_leafs_enough 31 num_pieces 1) as (r & -> & _); [lia|simpl; lia|done].
  - destruct (good_string _ _ Hs) as (-> & -> & _). cbn [mbind result_bind]. unfold hashes_size.
    destruct (_ && _); cbn [mbind result_bind]; [by destruct (_ =? _)|done].
Qed.

(** ** The rest of the file *)

Lemma collect_items_total {A} (f : bdecode_node -> result (option A)) l2 : forall l1 n, good n (BList (l1 ++ l2)) ->
  (forall e x, good e x -> returns_or overflow (f e) (fun _ => True)) ->
  returns_or overflow (collect_items f (length l2) (Z.of_nat (length l1)) n) (fun _ => True).
Proof.
  intros l1 n Hn Hf. revert l1 n Hn. induction l2 as [|x l2 IH]; intros l1 n Hn; [done|]. cbn [length collect_items].
  eapply returns_bind; [apply (good_list_at _ _ _ (length l1) Hn); rewrite length_app; simpl; lia|].
  intros [e n'] ((x' & _ & He) & Hn'). eapply returns_bind; [by eapply Hf|]. intros y _.
  replace (Z.of_nat (length l1) + 1) with (Z.of_nat (length (l1 ++ [x]))) by (rewrite length_app; simpl; lia).
  eapply returns_bind; [apply IH; by rewrite <- app_assoc|]. done.
Qed.

Lemma items_of_total {A} (f : bdecode_node -> result (option A)) n l : good n (BList l) ->
  (forall e x, good e x -> returns_or overflow (f e) (fun _ => True)) -> returns_or overflow (items_of f n) (fun _ => True).
Proof.
  intros Hn Hf. unfold items_of. eapply returns_bind; [by eapply good_list_size|]. intros [size n'] [-> Hn'].
  rewrite Nat2Z.id. by apply (collect_items_total f l []).
Qed.

Lemma items_at_total {A} (f : bdecode_node -> result (option A)) key n l : good n (BDict l) ->
  (forall e x, good e x -> returns_or overflow (f e) (fun _ => True)) -> returns_or overflow (items_at f key n) (fun _ => True).
Proof.
  intros Hn Hf. unfold items_at. eapply returns_bind; [by apply (good_find _ list_t key n l)|].
  intros c [->|(-> & t & Ht)]%found_list; [done|]. by eapply items_of_total.
Qed.

(** An item is taken apart by its type. *)
Ltac by_type e x He :=
  rewrite (good_type e x He); cbn [mbind result_bind]; case_bool_decide; destruct x; try done; cbn [negb].

Lemma similar_torrent_total e x : good e x -> returns_or overflow (similar_torrent e) (fun _ => True).
Proof.
  intros He. unfold similar_torrent. by_type e x He. destruct (good_string _ _ He) as (-> & -> & _). cbn [mbind result_bind]. by destruct (negb _).
Qed.

Lemma collection_total e x : good e x -> returns_or overflow (collection e) (fun _ => True).
Proof. intros He. unfold collection. by_type e x He. by destruct (good_string _ _ He) as (-> & _). Qed.

Lemma read_references_total n l : good n (BDict l) -> returns_or overflow (read_references n) (fun _ => True).
Proof.
  intros Hn. unfold read_references. eapply returns_bind; [eapply items_at_total; [done|apply similar_torrent_total]|]. intros similar _.
  eapply returns_bind; [eapply items_at_total; [done|apply collection_total]|]. done.
Qed.

Lemma good_int n z : good n (BInt z) -> exists v, int_value n = Ok v.
Proof. intros [Hn _]. eexists. by apply int_node. Qed.

Lemma dht_node_total e x : good e x -> returns_or overflow (dht_node e) (fun _ => True).
Proof.
  intros He. unfold dht_node. by_type e x He. eapply returns_bind; [by eapply good_list_size|]. intros [size e'] [-> He'].
  destruct (_ <? 2) eqn:Hlen; [done|]. apply Z.ltb_ge in Hlen.
  eapply returns_bind; [apply (good_list_at _ e' _ 0 He'); lia|]. intros [host e2] ((h & _ & Hh) & He2).
  by_type host h Hh. eapply returns_bind; [apply (good_list_at _ e2 _ 1 He2); lia|]. intros [port e3] ((p & _ & Hp) & _).
  by_type port p Hp. destruct (good_string _ _ Hh) as (-> & _). cbn [mbind result_bind]. by destruct (good_int _ _ Hp) as (v & ->).
Qed.

Lemma seed_url_total slash e x : good e x -> returns_or overflow (seed_url slash e) (fun _ => True).
Proof.
  intros He. unfold seed_url. by_type e x He. destruct (good_string _ _ He) as (-> & -> & _). cbn [mbind result_bind].
  destruct (_ =? 0); [done|]. eapply returns_bind; [apply maybe_url_encode_returns|]. done.
Qed.

Lemma seed_urls_total slash key n l : good n (BDict l) -> returns_or overflow (seed_urls slash key n) (fun _ => True).
Proof.
  intros [Hn Hb]. unfold seed_urls. destruct (dict_find_denotes n l key Hn) as (c & Hc & Hv). rewrite Hc. cbn [mbind result_bind].
  destruct (node_bool c) eqn:Hbool; [|done]. cbn [negb]. destruct (value_of key l) as [v|]; [|by subst c].
  assert (good c v) as Hg by (split; [apply Hv|by rewrite (dict_find_buffer _ _ _ Hc Hbool)]).
  rewrite (good_type c v Hg). cbn [mbind result_bind]. case_bool_decide.
  - eapply returns_bind; [by eapply seed_url_total|]. done.
  - case_bool_decide; [|done]. destruct v as [z|s|t|t]; try done.
    eapply returns_bind; [eapply items_of_total; [done|apply seed_url_total]|]. done.
Qed.

Lemma read_text_total key_utf8 key n l : good n (BDict l) -> returns_or overflow (read_text key_utf8 key n) (fun _ => True).
Proof.
  intros [Hn _]. unfold read_text. rewrite !(dict_find_string_value_node n l _ _ Hn). cbn [mbind result_bind].
  eapply (returns_bind _ _ _ (fun _ => True)); [by destruct (default _ _)|]. intros s _.
  eapply returns_bind; [eapply returns_weaken; [apply verify_encoding_returns|by intros]|]. by intros [fixed valid] _.
Qed.

Lemma any_i2p_total urls : returns_or overflow (any_i2p urls) (fun _ => True).
Proof.
  induction urls as [|u urls IH]; [done|]. cbn [any_i2p]. eapply returns_bind; [apply is_i2p_url_returns|]. intros b _.
  by eapply returns_bind; [apply IH|].
Qed.

Lemma read_extras_total n l urls slash x : good n (BDict l) -> returns_or overflow (read_extras n urls slash x) (fun _ => True).
Proof.
  intros Hn. unfold read_extras. eapply returns_bind; [by eapply read_references_total|]. intros references _.
  eapply returns_bind; [apply any_i2p_total|]. intros i2p _.
  eapply returns_bind; [eapply items_at_total; [done|apply dht_node_total]|]. intros nodes _.
  unfold read_creation_date. rewrite (good_int_value _ _ n l Hn). cbn [mbind result_bind]. unfold read_web_seeds.
  eapply (returns_bind _ _ _ (fun _ => True)).
  { eapply returns_bind; [by eapply seed_urls_total|]. intros s1 _. eapply returns_bind; [by eapply seed_urls_total|]. done. }
  intros seeds _. eapply returns_bind; [by eapply read_text_total|]. intros comment _.
  eapply returns_bind; [by eapply read_text_total|]. done.
Qed.

Lemma finish_info_total n l files max_pieces o : good n (BDict l) ->
  returns_or overflow (finish_info n files max_pieces o) (fun _ => True).
Proof.
  intros Hn. unfold finish_info. case_bool_decide; [done|]. case_bool_decide; [done|]. destruct (_ <=? _); [done|].
  eapply returns_bind; [by eapply parse_hashes_total|]. intros [e|o'] _; [done|].
  rewrite (good_int_value _ _ n l Hn). cbn [mbind result_bind].
  eapply returns_bind; [by eapply read_references_total|]. intros references _.
  eapply returns_bind; [by apply (good_find _ string_t _ n l)|]. done.
Qed.

Lemma denotes_section n v : good n v -> exists section, data_section n = Ok section /\ bytes_ok section /\ Z.of_nat (length section) < 2 ^ 29.
Proof.
  intros [[[b Hp] _] Hb]. exists b. split; [by apply (data_section_placed n (m_token_idx n) b v)|].
  destruct Hp as (pre & ts & t & post & bpre & bpost & _ & _ & Hb' & Hmax & _). rewrite Hb' in *.
  apply Forall_app in Hb as [_ [Hb _]%Forall_app]. split; [done|]. rewrite !length_app in Hmax. unfold max_offset in Hmax. lia.
Qed.

Section TorrentTotal.
Context {EN : Endian} {CRC : Crc32c} {SH : Shuffle}.

Lemma parse_info_section_total garbage n v max_pieces o : length garbage = 64%nat -> good n v ->
  returns_or overflow (parse_info_section garbage n max_pieces o) (fun _ => True).
Proof.
  intros Hg Hn. unfold parse_info_section. rewrite (good_type n v Hn). cbn [mbind result_bind].
  destruct v as [z|s|l|l]; cbn [value_type]; rewrite ?bool_decide_false by done; try done. rewrite bool_decide_true by done. cbn [negb].
  destruct (denotes_section _ _ Hn) as (section & -> & Hok & Hlen). cbn [mbind result_bind].
  rewrite hash_parts_digest; [|done|cbn [concat]; by rewrite app_nil_r|by apply Forall_singleton]. cbn [mbind result_bind].
  destruct (_ <=? _); [done|]. rewrite (good_int_value _ _ n l Hn). cbn [mbind result_bind]. destruct (_ || _); [done|].
  eapply returns_bind.
  { eapply parse_files_total; [done|apply empty_links|apply fips_sha1_bytes|].
    intros H. pose proof (fips_sha1_length (concat [section])) as Hl. by rewrite H in Hl. }
  intros [e|[files multi]] _; [done|]. by eapply finish_info_total.
Qed.

(** What the info section of a decoded buffer leaves. *)
Lemma parse_info_section_links garbage n v max_pieces o o' ec : length garbage = 64%nat -> good n v ->
  parse_info_section garbage n max_pieces o = Ok (o', ec, true) -> links_inside (o_files o').
Proof.
  intros Hg Hn H. unfold parse_info_section in H. rewrite (good_type n v Hn) in H. cbn [mbind result_bind] in H.
  destruct v as [z|s|l|l]; cbn [value_type] in H; rewrite ?bool_decide_false in H by done; try (by injection H).
  rewrite bool_decide_true in H by done. cbn [negb] in H. destruct (denotes_section _ _ Hn) as (section & Hsec & Hok & Hlen).
  rewrite Hsec in H. cbn [mbind result_bind] in H.
  rewrite hash_parts_digest in H; [|done|cbn [concat]; by rewrite app_nil_r|by apply Forall_singleton]. cbn [mbind result_bind] in H.
  unbind H; try done. pose proof (parse_files_total no_fault n l (fips_sha1 (concat [section])) (set_piece_length a fs_empty) Hn (empty_links a)
    (fips_sha1_bytes _)) as Hf.
  match goal with E : parse_files _ _ _ = Ok ?r |- _ => rewrite E in Hf; destruct r as [e|[files multi]] end; [by injection H|].
  assert (links_inside files) as Hin.
  { apply Hf. intros E'. pose proof (fips_sha1_length (concat [section])) as Hl. by rewrite E' in Hl. }
  unfold finish_info in H. unbind H; try done. destruct a0 as [e|o1]; [by injection H|]. unbind H. subst o'. by eapply same_links_inside; [|exact Hin].
Qed.

(** The names the second pass has recorded before file [i]: those of the directories and of the files before it. *)
Definition earlier_name (fs : file_storage) (i : nat) (o : name_entry) : Prop :=
  o ∈ map snd (dir_entries fs) \/ exists j : nat, (j < i)%nat /\ o = mk_name_entry (Z.of_nat j) 0.

(** A file has the name of a directory or of a file before it, up to case, and is not a pad file that may share it. *)
Definition name_clash (fs : file_storage) : Prop := exists i e o, m_files fs !! i = Some e /\ earlier_name fs i o /\
  string_equal_no_case (other_name fs o) (file_path fs e) = true /\ shared_pad fs e o = false.

Lemma find_match_earlier fs i e files o : (forall o, o ∈ files -> earlier_name fs i o.2) ->
  find_match fs e files = Some o -> earlier_name fs i o /\ string_equal_no_case (other_name fs o) (file_path fs e) = true.
Proof.
  intros Hf H. unfold find_match in H. destruct (List.find _ files) as [o'|] eqn:E; [|done]. injection H as <-.
  apply find_some in E as [Hin [_ Hn]%andb_prop]. split; [|done]. by apply Hf, list_elem_of_In.
Qed.

Lemma resolve_loop_clash fs fs' n : forall i files, (forall o, o ∈ files -> earlier_name fs i o.2) ->
  resolve_loop n i fs files = Ok fs' -> fs' = fs \/ name_clash fs.
Proof.
  assert (forall i o, earlier_name fs i o -> earlier_name fs (S i) o) as Hlater.
  { intros i o [H|(j & Hj & Ho)]; [by left|]. right. exists j. split; [lia|done]. }
  induction n as [|n IH]; intros i files Hf H; cbn [resolve_loop] in H; [injection H as ->; by left|].
  unfold resolve_turn in H. destruct (m_files fs !! i) as [e|] eqn:Ei; [|done].
  destruct (find_match fs e files) as [o|] eqn:Em; cbn [mbind result_bind] in H.
  - destruct (find_match_earlier fs i e files o Hf Em) as [Ho Hn].
    destruct (shared_pad fs e o) eqn:Ep; cbn [mbind result_bind] in H; [|by right; exists i, e, o].
    eapply IH; [|exact H]. intros o' Ho'. by apply Hlater, Hf.
  - eapply IH; [|exact H]. intros o' Ho'. apply elem_of_app in Ho' as [Ho'|Ho']; [by apply Hlater, Hf|]. apply list_elem_of_singleton in Ho' as ->.
    right. exists i. split; [lia|done].
Qed.

(** Only files that clash are renamed. *)
Lemma resolve_clash fs fs' : resolve_duplicate_filenames fs = Ok fs' -> fs' = fs \/ name_clash fs.
Proof.
  unfold resolve_duplicate_filenames, resolve_duplicate_filenames_slow. destruct (collides _ _); [|intros [= ->]; by left].
  apply resolve_loop_clash. intros o Ho. left. by apply list_elem_of_fmap_2.
Qed.

(** C14: Whatever links a torrent file names, reading it turns each into one that leads to a file, a directory
    or a link of the torrent. The files are the torrent's own then, unless one of them has the name of
    another or of a directory, up to case: such a file is renamed after its links were settled, and a link to it is left
    with a name that no file has ([renamed_link_lost]). *)
Theorem links_stay_inside garbage buffer o : length garbage = 64%nat -> bytes_ok buffer ->
  torrent_info_create garbage buffer = Ok (o, None) -> m_files (o_files o) <> [] ->
  links_inside (o_files o) \/
  exists fs, links_inside fs /\ name_clash fs /\ resolve_duplicate_filenames fs = Ok (o_files o).
Proof.
  intros Hg Hok H Hne. destruct (torrent_info_create_inv _ _ _ H Hne) as (n & info & l & li & o1 & files & urls & extras & [[pos Hd] Hn Hfind _ Hinfo Hparsed Hres _ _ ->]).
  unfold bdecode_default in Hd. apply decoded_root in Hd as (b & r & ts & v & Hbuf & _ & Hroot).
  pose proof (dict_find_type_buffer _ _ _ _ Hfind (denotes_bool _ _ Hinfo)) as Hb. rewrite Hroot in Hb. cbn [root_node m_buffer] in Hb.
  assert (links_inside (o_files o1)) as Hin.
  { eapply parse_info_section_links; [done| |exact Hparsed]. split; [done|]. by rewrite Hb. }
  destruct (resolve_clash _ _ Hres) as [->|Hc]; [by left|]. right. by exists (o_files o1).
Qed.

(** The torrent names 9000 files and directories or more. *)
Definition too_many_names (garbage buffer : bytes) : Prop := exists n pos info o,
  bdecode_default buffer = Ok (n, no_error, pos) /\ dict_find_dict (bytes_of_string "info") n = Ok info /\
  parse_info_section garbage info default_piece_limit object_empty = Ok (o, None, true) /\
  9000 <= Z.of_nat (length (dir_entries (o_files o)) + length (m_files (o_files o))).

(** The trackers are read without a fault. *)
Lemma parse_trackers_total n l : ShuffleLaws SH -> denotes n (BDict l) -> is_ok (parse_trackers n) = true.
Proof. intros Hsh Hn. by rewrite (parse_trackers_value n l Hsh Hn). Qed.

Lemma parse_torrent_file_total garbage buffer n pos v : Crc32cLaws CRC -> ShuffleLaws SH -> length garbage = 64%nat ->
  good n v -> bdecode_default buffer = Ok (n, no_error, pos) ->
  returns_or (fun f => f = SignedOverflow \/ f = OutOfFuel /\ too_many_names garbage buffer)
    (parse_torrent_file garbage n default_piece_limit) (fun _ => True).
Proof.
  intros Hcrc Hsh Hg Hn Hd. unfold parse_torrent_file. rewrite (good_type n v Hn). cbn [mbind result_bind].
  destruct v as [z|s|l|l]; cbn [value_type]; rewrite ?bool_decide_false by done; try done. rewrite bool_decide_true by done. cbn [negb].
  destruct (dict_find_type dict_t (bytes_of_string "info") n) as [info|f] eqn:Hi;
    [|pose proof (good_find no_fault dict_t (bytes_of_string "info") n l ltac:(done) Hn) as H; by rewrite Hi in H].
  pose proof (good_find no_fault dict_t (bytes_of_string "info") n l ltac:(done) Hn) as Hf. rewrite Hi in Hf. cbn in Hf.
  unfold dict_find_dict. rewrite Hi. cbn [mbind result_bind]. destruct Hf as [Hb|(Hb & v & Hv & _)]; rewrite Hb; cbn [negb].
  - eapply returns_bind; [by apply (good_find _ string_t _ n l)|]. intros uri [->|(-> & s & Hs)]%found_string; [done|].
    rewrite (proj1 (good_string _ _ Hs)). cbn [mbind result_bind].
    eapply returns_bind; [eapply returns_mono_fault; [apply parse_magnet_uri_returns|by left]|]. by intros [e|p].
  - pose proof (parse_info_section_total garbage info v default_piece_limit object_empty Hg Hv) as Hp.
    destruct (parse_info_section _ _ _ _) as [[[o ec] parsed]|f] eqn:Ep; [|left; exact Hp]. cbn [mbind result_bind].
    destruct parsed; [|done]. cbn [negb]. pose proof (resolve_faults (o_files o)) as Hr.
    destruct (resolve_duplicate_filenames (o_files o)) as [files|f] eqn:Er; cbn [mbind result_bind].
    + pose proof (parse_trackers_total n l Hsh (proj1 Hn)) as Ht. destruct (parse_trackers n) as [urls|]; [|done].
      cbn [mbind result_bind]. eapply returns_bind; [eapply returns_mono_fault; [by eapply read_extras_total|by left]|]. done.
    + right. split; [exact Hr|]. assert (ec = None) as -> by by eapply parse_info_section_no_error.
      exists n, pos, info, o. split_and!; [done|done|done|]. destruct (Z.le_gt_cases 9000
        (Z.of_nat (length (dir_entries (o_files o)) + length (m_files (o_files o))))) as [|Hlt]; [done|].
      destruct (resolve_returns (o_files o) Hlt) as [fs' Hfs]. congruence.
Qed.

(** C23: Reading returns an object or an error on every file, unless its sizes add up to a
    negative number of 64 bits, a magnet link in it has a number that is no [int], or it
    names thousands of files that collide. *)
Theorem torrent_file_total garbage buffer : Crc32cLaws CRC -> ShuffleLaws SH -> length garbage = 64%nat -> bytes_ok buffer ->
  match torrent_info_create garbage buffer with
  | Ok _ => True
  | Fault f => f = SignedOverflow \/ f = OutOfFuel /\ too_many_names garbage buffer
  end.
Proof.
  intros Hcrc Hsh Hg Hok. change (returns_or (fun f => f = SignedOverflow \/ f = OutOfFuel /\ too_many_names garbage buffer)
    (torrent_info_create garbage buffer) (fun _ => True)). unfold torrent_info_create.
  destruct (bdecode_returns 100 2000000 buffer) as (n & ec & pos & Hd). fold (bdecode_default buffer) in Hd. rewrite Hd.
  cbn [mbind result_bind]. case_bool_decide as Hec; [|done]. cbn [negb]. subst ec.
  pose proof Hd as (b & r & ts & v & Hbuf & _ & Hroot)%decoded_root. pose proof Hd as (_ & _ & _ & v' & _ & _ & Hn)%decoded_value.
  assert (good n v') as Hgood by (split; [done|by rewrite Hroot]).
  eapply returns_bind; [by eapply parse_torrent_file_total|]. by intros [[o ec] parsed] _.
Qed.
End TorrentTotal.

(** ** Witnesses *)

Lemma unbe_app_parts a b : unbe (a ++ b) = unbe a * 256 ^ Z.of_nat (length b) + unbe b.
Proof.
  induction b as [|x b IH] using rev_ind; [rewrite app_nil_r; cbn; lia|].
  rewrite app_assoc, !unbe_app, IH, length_app. simpl (length [x]). rewrite Nat2Z.inj_add, Z.pow_add_r by lia. change (256 ^ Z.of_nat 1) with 256. lia.
Qed.

#[export] Instance sample_crc_laws : Crc32cLaws sample_crc.
Proof.
  intros before x y after Hx Hy Hox Hoy H. unfold crc32c, sample_crc in H. rewrite !unbe_app_parts in H.
  rewrite !length_app, Hx, Hy in H.
  assert (unbe x = unbe y) as E by nia. rewrite <- (be_unbe x Hox), <- (be_unbe y Hoy), Hx, Hy. by rewrite E.
Qed.

(** Sizes that are too large: refused, not a fault. *)
Definition huge_file : bytes := bytes_of_string "d4:infod6:lengthi9223372036854775807e4:name1:a12:piece lengthi1e6:pieces0:ee".

Lemma torrent_file_total_witness :
  match torrent_info_create (EN := false) (CRC := sample_crc) (SH := sample_shuffle) (replicate 64 0) huge_file with
  | Ok _ => True
  | Fault f => f = SignedOverflow \/ f = OutOfFuel /\
      too_many_names (EN := false) (CRC := sample_crc) (replicate 64 0) huge_file
  end.
Proof.
  apply (torrent_file_total (EN := false) (CRC := sample_crc) (SH := sample_shuffle) (replicate 64 0) huge_file).
  - apply sample_crc_laws.
  - apply sample_shuffle_laws.
  - done.
  - decide_by_computation.
Defined.

(** A link to a directory, one through it, one that leads nowhere and one out of the torrent. *)
Definition links_file : bytes := bytes_of_string
  "d4:infod5:filesld6:lengthi5e4:pathl1:d1:aeed4:attr1:l4:pathl1:le12:symlink pathl1:deed4:attr1:l4:pathl1:me12:symlink pathl1:l1:aeed4:attr1:l4:pathl1:ne12:symlink pathl1:m1:xeed4:attr1:l4:pathl1:oe12:symlink pathl2:..3:etc6:passwdeee4:name1:t12:piece lengthi4e6:pieces40:0000000000000000000000000000000000000000ee".

Definition links_object : torrent_object := sample_object links_file.

Example links_sample : map (internal_file_path (o_files links_object)) (m_files (o_files links_object)) = map bytes_of_string ["d/a"; "l"; "m"; "n"; "o"]%string /\
  m_symlinks (o_files links_object) = map bytes_of_string ["d"; "l/a"; "n"; "o"]%string.
Proof. by vm_compute. Qed.

Lemma links_stay_inside_witness : links_inside (o_files links_object) \/
  exists fs, links_inside fs /\ name_clash (CRC := sample_crc) fs /\ resolve_duplicate_filenames (CRC := sample_crc) fs = Ok (o_files links_object).
Proof.
  apply (links_stay_inside (EN := false) (CRC := sample_crc) (SH := sample_shuffle) (replicate 64 0) links_file).
  - done.
  - decide_by_computation.
  - by vm_compute.
  - by vm_compute.
Defined.

(** The files d/a and d/A, and a link l to d/A. *)
Definition renamed_file : bytes := bytes_of_string
  "d4:infod5:filesld6:lengthi5e4:pathl1:d1:aeed6:lengthi5e4:pathl1:d1:Aeed4:attr1:l4:pathl1:le12:symlink pathl1:d1:Aeee4:name1:t12:piece lengthi16e6:pieces20:00000000000000000000ee".

(** The torrent loads without an error: the file d/A is renamed, the link is not. *)
Lemma renamed_link_lost : torrent_info_create (EN := false) (CRC := sample_crc) (SH := sample_shuffle) (replicate 64 0) renamed_file
    = Ok (sample_object renamed_file, None) /\
  map (internal_file_path (o_files (sample_object renamed_file))) (m_files (o_files (sample_object renamed_file)))
    = map bytes_of_string ["d/a"; "d/A.1"; "l"]%string /\
  m_symlinks (o_files (sample_object renamed_file)) = [bytes_of_string "d/A"] /\
  there (o_files (sample_object renamed_file)) (bytes_of_string "d/A") = false.
Proof. by vm_compute. Qed.
