(* ===== verification/TorrentMake.v ===== *)
(** * Torrent files as they are meant

    A torrent made of a name, files with their sizes and the hashes of the pieces, encoded
    as the format has it, is read back as exactly that. *)

From S2P Require Import Prelude MsgFactory Net Storage Sha1 Sha1Spec Bdecode BdecodeSpec BdecodeNodes Paths FileStorage Symlinks.
From S2P Require Import Entry EntrySpec TorrentFiles Magnet TorrentNames Urls Encoding TorrentExtras TorrentInfo TorrentLayout TorrentRead.

(** ** Making a torrent *)

Record made_file := mk_made_file { mf_dirs : list bytes; mf_leaf : bytes; mf_size : Z }.

Record made_torrent := mk_made_torrent {
  mt_announce : bytes;
  mt_name : bytes;
  mt_piece_length : Z;
  mt_files : list made_file;
  mt_pieces : bytes;
}.

Definition key (s : string) : bytes := bytes_of_string s.

Definition made_path (f : made_file) : list bytes := mf_dirs f ++ [mf_leaf f].

Definition file_made (f : made_file) : entry :=
  EDict [(key "length", EInt (mf_size f)); (key "path", EList (map EStr (made_path f)))].

Definition info_made (mt : made_torrent) : entry :=
  EDict [(key "files", EList (map file_made (mt_files mt))); (key "name", EStr (mt_name mt));
         (key "piece length", EInt (mt_piece_length mt)); (key "pieces", EStr (mt_pieces mt))].

Definition torrent_made (mt : made_torrent) : entry :=
  EDict [(key "announce", EStr (mt_announce mt)); (key "info", info_made mt)].

Definition made_total (mt : made_torrent) : Z := foldr (fun f n => mf_size f + n) 0 (mt_files mt).

Definition made_pieces (mt : made_torrent) : Z := (made_total mt + mt_piece_length mt - 1) / mt_piece_length mt.

Definition made_file_ok (f : made_file) : Prop :=
  Forall plain_name (mf_dirs f) /\ plain_name (mf_leaf f) /\ 0 <= mf_size f < 2 ^ 48.

Record made_ok (mt : made_torrent) : Prop := {
  mk_announce_ok : mt_announce mt <> [] /\ trim (mt_announce mt) = mt_announce mt /\ short (mt_announce mt) = true /\
    is_ok (is_i2p_url (mt_announce mt)) = true;
  mk_name_ok : plain_name (mt_name mt);
  mk_piece_length_ok : 0 < mt_piece_length mt < 2 ^ 31;
  mk_files_ok : mt_files mt <> [] /\ Forall made_file_ok (mt_files mt);
  mk_total_ok : 0 < made_total mt < 2 ^ 48 /\ made_total mt < (2 ^ 31 - 1 - mt_piece_length mt) * mt_piece_length mt;
  mk_pieces_ok : made_pieces mt <= default_piece_limit /\ Z.of_nat (length (mt_pieces mt)) = made_pieces mt * 20;
}.

(** ** One file *)

(** What adding a file of the torrent [name] comes down to. *)
Definition addition_of (name : bytes) (f : made_file) : addition :=
  let path := join_path (name :: made_path f) in
  mk_addition (name :: mf_dirs f) (mf_leaf f) (mf_leaf f) (mf_size f)
    (match find_str (bytes_of_string "_____padding_file_") path with Some _ => flag_pad_file | None => 0 end) None 0 [].

Lemma sanitize_names l2 : forall l1 p path, denotes p (BList (map BStr (l1 ++ l2))) -> Forall plain_name l2 -> path <> [] ->
  forall name, append_elements (length l2) (Z.of_nat (length l1)) p path name =
    Ok (path ++ concat (map (fun e => 47 :: e) l2), match last l2 with Some e => strip_separators e | None => name end).
Proof.
  induction l2 as [|e l2 IH]; intros l1 p path Hp Hl Hne name; cbn [length append_elements]; [by rewrite app_nil_r|].
  apply Forall_cons in Hl as [He Hl].
  destruct (list_at_denotes p (map BStr (l1 ++ e :: l2)) (length l1) (BStr e) Hp) as (c & p' & -> & Hc & Hp').
  { rewrite map_app. cbn [map]. rewrite <- (length_map BStr l1). by rewrite list_lookup_middle. }
  cbn [mbind result_bind]. rewrite (proj1 (string_node c e Hc)). cbn [mbind result_bind].
  rewrite (sanitize_plain path e He). cbn [mbind result_bind]. rewrite bool_decide_false by done.
  specialize (IH (l1 ++ [e]) p' (path ++ [47] ++ e)). rewrite <- app_assoc, length_app in IH. simpl (length [e]) in IH.
  replace (Z.of_nat (length l1) + 1) with (Z.of_nat (length l1 + 1)) by lia. rewrite IH; [|done|done|by destruct path].
  cbn [map concat]. rewrite <- !app_assoc. do 2 f_equal.
  destruct l2 as [|e2 l2]; [done|]. cbn [length]. done.
Qed.

Lemma join_cons e es : join_path (e :: es) = e ++ concat (map (fun x => 47 :: x) es).
Proof.
  revert e. induction es as [|e' es IH]; intros e; [by rewrite app_nil_r|].
  change (join_path (e :: e' :: es)) with (e ++ [47] ++ join_path (e' :: es)). rewrite IH. done.
Qed.

Lemma plain_component e : plain_name e -> component_ok e.
Proof. by intros []. Qed.

Lemma strip_plain e : plain_name e -> strip_separators e = e.
Proof. intros [(Hne & Hc & _) _]. destruct e as [|c e]; [done|]. apply Forall_inv in Hc as (_ & H & _). cbn. by rewrite (proj2 (Z.eqb_neq c 47)). Qed.

(** The strings of a list, sanitized one after the other below [name]. *)
Lemma sanitize_list_made p name es e : denotes p (BList (map BStr (es ++ [e]))) -> plain_name name -> Forall plain_name (es ++ [e]) ->
  sanitize_list p name = Ok (join_path (name :: es ++ [e]), e).
Proof.
  intros Hp Hn He. unfold sanitize_list. destruct (list_size_denotes p _ Hp) as (p' & -> & Hp'). cbn [mbind result_bind].
  rewrite Nat2Z.id, length_map. pose proof (sanitize_names (es ++ [e]) [] p' name Hp' He) as Hs.
  change (Z.of_nat (length [])) with 0 in Hs. rewrite Hs by (by destruct Hn as [[? _] _]).
  rewrite join_cons, last_snoc, strip_plain; [done|]. by apply Forall_app in He as [_ He%Forall_inv].
Qed.

Lemma path_length_made_loop l2 : forall l1 p ret, denotes p (BList (map BStr (l1 ++ l2))) ->
  exists z, path_length_loop (length l2) (Z.of_nat (length l1)) p ret = Ok (inr z).
Proof.
  induction l2 as [|e l2 IH]; intros l1 p ret Hp; [by eexists|]. cbn [length path_length_loop].
  destruct (list_at_denotes p (map BStr (l1 ++ e :: l2)) (length l1) (BStr e) Hp) as (c & p' & -> & Hc & Hp').
  { rewrite map_app. cbn [map]. rewrite <- (length_map BStr l1). by rewrite list_lookup_middle. }
  cbn [mbind result_bind]. rewrite (node_type_of_denotes c _ Hc). cbn [mbind result_bind value_type].
  rewrite bool_decide_true by done. cbn [negb]. rewrite (proj2 (string_node c e Hc)). cbn [mbind result_bind].
  specialize (IH (l1 ++ [e]) p' (ret + Z.of_nat (length e))). rewrite <- app_assoc, length_app in IH. simpl (length [e]) in IH.
  replace (Z.of_nat (length l1) + 1) with (Z.of_nat (length l1 + 1)) by lia. by apply IH.
Qed.

Lemma path_length_made p l : denotes p (BList (map BStr l)) -> exists z, path_length p = Ok (inr z).
Proof.
  intros Hp. unfold path_length. destruct (list_size_denotes p _ Hp) as (p' & -> & Hp'). cbn [mbind result_bind].
  rewrite Nat2Z.id, length_map. destruct (path_length_made_loop l [] p' 0 Hp') as [z Hz].
  change (Z.of_nat (length [])) with 0 in Hz. rewrite Hz. by eexists.
Qed.

(** The value of a file's dictionary. *)
Definition file_value (f : made_file) : list (bytes * bvalue) :=
  [(key "length", BInt (mf_size f)); (key "path", BList (map BStr (made_path f)))].

Lemma file_value_of f : value_of_entry (file_made f) = BDict (file_value f).
Proof. unfold file_made, file_value. cbn. by rewrite map_map. Qed.

(** A key that the dictionary does not have, or not with that type. *)
Lemma absent t k c l : t <> none_t -> denotes c (BDict l) -> typed_value_of t (key k) l = None ->
  exists d, dict_find_type t (bytes_of_string k) c = Ok d /\ node_bool d = false.
Proof.
  intros Ht Hc Hn. destruct (dict_find_type_node c l t (key k) Ht Hc) as (d & Hd & Hv). rewrite Hn in Hv.
  exists d. split; [exact Hd|apply Hv].
Qed.

Lemma absent_items {A} (f : bdecode_node -> result (option A)) k c l : denotes c (BDict l) ->
  typed_value_of list_t (key k) l = None -> items_at f (bytes_of_string k) c = Ok [].
Proof.
  intros Hc Hn. unfold items_at. destruct (absent list_t k c l ltac:(done) Hc Hn) as (d & Hd & Hb).
  unfold dict_find_list. rewrite Hd. cbn [mbind result_bind]. by rewrite Hb.
Qed.

Lemma absent_references c l : denotes c (BDict l) -> typed_value_of list_t (key "similar") l = None ->
  typed_value_of list_t (key "collections") l = None -> read_references c = Ok ([], []).
Proof. intros Hc H1 H2. unfold read_references. by rewrite !(absent_items _ _ c l) by done. Qed.

Lemma absent_seeds slash k c l : denotes c (BDict l) -> value_of (key k) l = None -> seed_urls slash (bytes_of_string k) c = Ok [].
Proof.
  intros Hc Hn. unfold seed_urls. unfold key in Hn.
  destruct (dict_find_denotes c l (bytes_of_string k) Hc) as (d & -> & Hd). rewrite Hn in Hd. by subst d.
Qed.

Lemma absent_text k k' c l : denotes c (BDict l) -> string_of (key k) l = None -> string_of (key k') l = None ->
  read_text (bytes_of_string k) (bytes_of_string k') c = Ok [].
Proof.
  intros Hc H H'. unfold read_text. rewrite !(dict_find_string_value_node c l _ _ Hc). unfold key in *. by rewrite H, H'.
Qed.

Lemma listed_path_made c name f flags cnt : denotes c (BDict (file_value f)) -> plain_name name -> made_file_ok f ->
  listed_path c name flags cnt = succeeds (join_path (name :: made_path f), mf_leaf f, cnt).
Proof.
  intros Hc Hn (Hd & Hl & _). unfold listed_path, prefer.
  destruct (absent list_t "path.utf-8" c _ ltac:(done) Hc eq_refl) as (d & Hf & Hb). unfold dict_find_list. rewrite Hf.
  cbn [mbind result_bind]. rewrite Hb.
  destruct (dict_find_type_node c _ list_t (bytes_of_string "path") ltac:(done) Hc) as (p & -> & Hp & Hpb & _).
  cbn [mbind result_bind]. rewrite Hpb. destruct (list_size_denotes p _ Hp) as (p' & -> & Hp'). cbn [mbind result_bind].
  unfold made_path in *. rewrite length_map, length_app. simpl (length [_]). rewrite (proj2 (Z.ltb_lt 0 _)) by lia.
  destruct (path_length_made p' _ Hp') as [z ->]. cbn [and_then mbind result_bind].
  rewrite (sanitize_list_made p' name (mf_dirs f) (mf_leaf f) Hp' Hn) by (apply Forall_app; by rewrite Forall_singleton).
  cbn [mbind result_bind]. rewrite (proj2 (Nat.eqb_neq _ _)); [done|]. rewrite join_cons, map_app, concat_app, !length_app. simpl. lia.
Qed.

Lemma suffix_join name es e : is_suffix e (join_path (name :: es ++ [e])) = true.
Proof.
  unfold is_suffix. rewrite join_cons, map_app, concat_app. cbn [map concat]. rewrite app_nil_r.
  change (47 :: e) with ([47] ++ e). rewrite !app_assoc. set (x := (_ ++ _) ++ [47]).
  rewrite length_app, (proj2 (Nat.leb_le _ _)) by lia. cbn [andb].
  rewrite bool_decide_true; [done|]. replace (length x + length e - length e)%nat with (length x) by lia. apply drop_app_length.
Qed.

Lemma extract_made c name f fs cnt : denotes c (BDict (file_value f)) -> plain_name name -> made_file_ok f ->
  extract_single_file c fs name false cnt = succeeds (add (addition_of name f) fs, cnt).
Proof.
  intros Hc Hn Hf. pose proof Hf as (_ & _ & Hsize). unfold extract_single_file. rewrite (node_type_of_denotes c _ Hc). cbn [mbind result_bind value_type].
  rewrite bool_decide_true by done. cbn [negb].
  assert (get_file_attributes c = Ok 0) as ->.
  { unfold get_file_attributes. destruct (absent string_t "attr" c _ ltac:(done) Hc eq_refl) as (d & Hd & Hb).
    unfold dict_find_string. rewrite Hd. cbn [mbind result_bind]. by rewrite Hb. }
  cbn [mbind result_bind]. change (has_flag 0 flag_symlink) with false. cbn iota.
  rewrite !(dict_find_int_value_node c _ _ _ Hc). cbn [mbind result_bind].
  change (int_of_key (bytes_of_string "length") (-1) (file_value f)) with (mf_size f).
  change (int_of_key (bytes_of_string "mtime") 0 (file_value f)) with 0.
  rewrite (proj2 (Z.ltb_ge (mf_size f) 0)) by lia. rewrite (listed_path_made c name f 0 cnt Hc Hn Hf). cbn [and_then succeeds mbind result_bind].
  destruct (absent string_t "sha1" c _ ltac:(done) Hc eq_refl) as (d & Hd & Hb). unfold dict_find_string. rewrite Hd.
  cbn [mbind result_bind]. rewrite Hb. cbn [mbind result_bind].
  set (flags := match find_str _ _ with Some _ => _ | None => _ end).
  assert (link_target c flags = succeeds ([], flags)) as ->
    by (unfold link_target, flags; by destruct (find_str _ _)).
  cbn [and_then succeeds mbind result_bind]. unfold made_path at 1. rewrite suffix_join. done.
Qed.

(** ** All files *)

Lemma extract_loop_made name l2 : forall l1 n fs cnt, denotes n (BList (map (fun f => BDict (file_value f)) (l1 ++ l2))) ->
  plain_name name -> Forall made_file_ok l2 ->
  extract_loop (length l2) (Z.of_nat (length l1)) n fs name cnt = succeeds (add_all_files (map (addition_of name) l2) fs).
Proof.
  induction l2 as [|f l2 IH]; intros l1 n fs cnt Hn Hname Hf; [done|]. cbn [length extract_loop]. apply Forall_cons in Hf as [Hf1 Hf].
  destruct (list_at_denotes n _ (length l1) (BDict (file_value f)) Hn) as (c & n' & -> & Hc & Hn').
  { rewrite map_app. cbn [map]. rewrite <- (length_map (fun f => BDict (file_value f)) l1). by rewrite list_lookup_middle. }
  cbn [mbind result_bind]. rewrite (extract_made c name f fs cnt Hc Hname Hf1). cbn [and_then succeeds mbind result_bind].
  specialize (IH (l1 ++ [f]) n' (add (addition_of name f) fs) cnt). rewrite <- app_assoc, length_app in IH. simpl (length [f]) in IH.
  replace (Z.of_nat (length l1) + 1) with (Z.of_nat (length l1 + 1)) by lia. by rewrite IH.
Qed.

Definition info_value (mt : made_torrent) : list (bytes * bvalue) :=
  [(key "files", BList (map (fun f => BDict (file_value f)) (mt_files mt))); (key "name", BStr (mt_name mt));
   (key "piece length", BInt (mt_piece_length mt)); (key "pieces", BStr (mt_pieces mt))].

Lemma info_value_of mt : value_of_entry (info_made mt) = BDict (info_value mt).
Proof. unfold info_made, info_value. cbn. rewrite map_map. do 4 f_equal. apply map_ext, file_value_of. Qed.

Lemma no_links_made name l : forall fs, Forall (fun e => if_symlink_attribute e = false) (m_files fs) ->
  Forall (fun e => if_symlink_attribute e = false) (m_files (add_all_files (map (addition_of name) l) fs)).
Proof.
  induction l as [|f l IH]; intros fs H; [done|]. cbn [map]. apply IH. unfold add, add_file_borrow.
  destruct (update_path_index _ _ _ _ _) as [e paths]. cbn [m_files]. apply Forall_app. split; [done|]. by apply Forall_singleton.
Qed.

(** The files as they are read. *)
Definition files_of (mt : made_torrent) : file_storage :=
  add_all_files (map (addition_of (mt_name mt)) (mt_files mt)) (set_piece_length (mt_piece_length mt) fs_empty).

Lemma parse_files_made n mt info_hash : denotes n (BDict (info_value mt)) -> made_ok mt ->
  parse_files n info_hash (set_piece_length (mt_piece_length mt) fs_empty) = succeeds (files_of mt, true).
Proof.
  intros Hn [_ Hname _ [_ Hf] _ _]. unfold parse_files, prefer.
  destruct (absent string_t "name.utf-8" n _ ltac:(done) Hn eq_refl) as (d & Hd & Hb). unfold dict_find_string. rewrite Hd.
  cbn [mbind result_bind]. rewrite Hb.
  destruct (dict_find_string_node n _ (bytes_of_string "name") Hn) as (c & Hc & Hs). unfold dict_find_string in Hc. rewrite Hc.
  change (string_of (bytes_of_string "name") (info_value mt)) with (Some (mt_name mt)) in Hs. destruct Hs as (_ & Hcb & Hcs & _).
  cbn [mbind result_bind]. rewrite Hcb, Hcs. cbn [mbind result_bind negb]. rewrite (sanitize_plain [] _ Hname). cbn [mbind result_bind].
  rewrite (bool_decide_true ([] = [])) by done. cbn [app]. rewrite bool_decide_false by (by destruct Hname as [[? _] _]).
  destruct (dict_find_type_node n _ list_t (bytes_of_string "files") ltac:(done) Hn) as (p & Hp & Hpn & Hpb & _).
  unfold dict_find_list. rewrite Hp. cbn [mbind result_bind]. rewrite Hpb. cbn [negb]. unfold extract_files.
  rewrite (node_type_of_denotes p _ Hpn). cbn [mbind result_bind value_type]. rewrite bool_decide_true by done. cbn [negb].
  destruct (list_size_denotes p _ Hpn) as (p' & -> & Hp'). cbn [mbind result_bind]. rewrite Nat2Z.id, length_map.
  pose proof (extract_loop_made (mt_name mt) (mt_files mt) [] p' (set_piece_length (mt_piece_length mt) fs_empty) 0 Hp' Hname Hf) as Hl.
  change (Z.of_nat (length [])) with 0 in Hl. rewrite Hl.
  cbn [and_then succeeds mbind result_bind]. rewrite sanitize_symlinks_none; [done|]. by apply no_links_made.
Qed.

Lemma additions_ok mt : made_ok mt -> Forall addition_ok (map (addition_of (mt_name mt)) (mt_files mt)) /\
  Forall (fun a => ad_dirs a <> []) (map (addition_of (mt_name mt)) (mt_files mt)) /\
  sum_sizes (map (addition_of (mt_name mt)) (mt_files mt)) = made_total mt.
Proof.
  intros [_ Hname _ [_ Hf] _ _]. split_and!.
  - apply Forall_map. eapply Forall_impl; [exact Hf|]. intros f (Hd & Hl & Hs). split_and!; cbn [addition_of ad_dirs ad_leaf ad_size ad_filename].
    + constructor; [by apply plain_component|]. eapply Forall_impl; [exact Hd|]. apply plain_component.
    + by apply plain_component.
    + lia.
    + lia.
    + right. split; [done|]. destruct Hl as (_ & _ & Hl). unfold name_is_owned. lia.
  - apply Forall_map. by eapply Forall_impl; [exact Hf|].
  - unfold made_total, sum_sizes. clear. induction (mt_files mt) as [|f l IH]; cbn; [done|]. by rewrite IH.
Qed.

(** The name of the storage is that of the torrent. *)
Lemma add_name a fs name : addition_ok a -> (exists ds, ad_dirs a = name :: ds) -> m_files fs = [] \/ m_name fs = name ->
  m_name (add a fs) = name /\ m_files (add a fs) <> [].
Proof.
  intros (Hd & Hl & _) [ds Hds] Hfs. unfold add, add_file_borrow, ad_path. rewrite has_parent_join by done.
  rewrite (bool_decide_false (ad_dirs a = [])) by (by rewrite Hds). cbn [negb]. destruct (update_path_index _ _ _ _ _) as [e paths].
  cbn [m_name m_files]. split; [|by destruct (m_files fs)]. destruct (m_files fs); [|by destruct Hfs].
  rewrite Hds. cbn [app]. rewrite Hds in Hd. by rewrite lsplit_join by (by apply Forall_inv in Hd).
Qed.

Lemma all_added_name l fs name : l <> [] -> Forall addition_ok l -> Forall (fun a => exists ds, ad_dirs a = name :: ds) l -> m_files fs = [] ->
  m_name (add_all_files l fs) = name /\ m_files (add_all_files l fs) <> [].
Proof.
  intros Hne Ha Hd Hfs. assert (m_files (add_all_files l fs) = [] \/ m_name (add_all_files l fs) = name /\ m_files (add_all_files l fs) <> []) as H.
  { clear Hne. induction l as [|a l IH] using rev_ind; [by left|]. right. unfold add_all_files in *. rewrite foldl_snoc.
    apply Forall_app in Ha as [Ha Ha1%Forall_inv]. apply Forall_app in Hd as [Hd Hd1%Forall_inv].
    apply add_name; [done|done|]. destruct (IH Ha Hd) as [|[]]; [by left|by right]. }
  destruct H as [H|]; [|done]. exfalso. destruct (exists_last Hne) as (l' & a & ->). revert H. unfold add_all_files. rewrite foldl_snoc.
  unfold add, add_file_borrow. destruct (update_path_index _ _ _ _ _) as [e paths]. cbn [m_files]. by destruct (m_files (foldl _ _ _)).
Qed.

Lemma files_of_name mt : made_ok mt -> m_name (files_of mt) = mt_name mt /\ m_files (files_of mt) <> [].
Proof.
  intros Hok. pose proof (additions_ok mt Hok) as (Ha & _ & _). destruct Hok as [_ _ _ [Hne _] _ _].
  apply all_added_name; [by destruct (mt_files mt)|done| |done]. apply Forall_map, Forall_true. intros f. by eexists.
Qed.

Lemma files_of_layout mt : made_ok mt -> m_total_size (files_of mt) = made_total mt /\ m_piece_length (files_of mt) = mt_piece_length mt /\
  map (fun f => (fe_path f, fe_name f, fe_size f)) (entries (files_of mt)) =
    map (fun f => (join_path (mt_name mt :: made_path f), mf_leaf f, mf_size f)) (mt_files mt) /\
  files_ok 0 (entries (files_of mt)) (made_total mt).
Proof.
  intros Hok. destruct (additions_ok mt Hok) as (Ha & Hd & Hs). pose proof Hok as [_ _ _ _ [Ht _] _].
  destruct (add_all_layout (mt_piece_length mt) _ Ha (or_introl Hd)) as (_ & Htot & Hpl & Hm & Hf); [lia|].
  fold (files_of mt) in *. rewrite Hs in *. split_and!; [done|done| |done]. rewrite Hm, map_map. done.
Qed.

Lemma count_pieces_made mt : made_ok mt -> count_pieces (files_of mt) = made_pieces mt /\ 0 <= made_pieces mt.
Proof.
  intros Hok. destruct (files_of_layout mt Hok) as (Ht & Hp & _). destruct Hok as [_ _ Hpl _ [Htot _] [Hlim _]].
  unfold count_pieces. rewrite Ht, Hp. rewrite Z.quot_div_nonneg by lia. fold (made_pieces mt).
  assert (0 <= made_pieces mt) by (apply Z.div_pos; lia). unfold default_piece_limit in Hlim. by rewrite i32_small by lia.
Qed.

Lemma parse_hashes_made n mt o : denotes n (BDict (info_value mt)) -> made_ok mt ->
  parse_hashes n (made_pieces mt) default_piece_limit o =
    succeeds (set_piece_hashes (Some (mt_pieces mt)) (o_merkle_tree o) (o_merkle_first_leaf o) o).
Proof.
  intros Hn Hok. destruct (count_pieces_made mt Hok) as [_ Hpos]. destruct Hok as [_ _ _ _ _ [Hlim Hlen]].
  unfold default_piece_limit in *. unfold parse_hashes.
  destruct (dict_find_string_node n _ (bytes_of_string "pieces") Hn) as (c & -> & Hs).
  change (string_of (bytes_of_string "pieces") (info_value mt)) with (Some (mt_pieces mt)) in Hs. destruct Hs as (_ & Hcb & Hcs & Hcl).
  cbn [mbind result_bind]. destruct (absent string_t "root hash" n _ ltac:(done) Hn eq_refl) as (d & Hd & Hb).
  unfold dict_find_string. rewrite Hd. cbn [mbind result_bind]. rewrite Hcb, Hcs, Hcl. cbn [negb andb mbind result_bind].
  change ((2 ^ 31 - 1) / 20) with 107374182. rewrite (proj2 (Z.leb_gt 107374182 _)), (proj2 (Z.ltb_ge 1048576 _)) by lia. cbn [orb].
  unfold hashes_size. rewrite (proj2 (Z.leb_le _ _)), (proj2 (Z.ltb_lt _ _)) by lia. cbn [andb mbind result_bind].
  by rewrite Hlen, Z.eqb_refl.
Qed.

Section Made.
Context {EN : Endian} {CRC : Crc32c} {PE : PastEnd} {SH : Shuffle} {SL : ShuffleLaws SH}.

(** What reading the info section leaves in a fresh object. *)
Definition info_object (info_hash : bytes) (mt : made_torrent) : torrent_object :=
  mk_object (set_num_pieces (made_pieces mt) (files_of mt)) [] info_hash (Some (mt_pieces mt)) [] 0 true false false extras_empty.

Lemma parse_info_section_made garbage n mt : length garbage = 64%nat -> bytes_ok (m_buffer n) -> denotes n (BDict (info_value mt)) ->
  made_ok mt -> exists info_hash,
  parse_info_section garbage n default_piece_limit object_empty = Ok (info_object info_hash mt, None, true).
Proof.
  intros Hg Hb Hn Hok. unfold parse_info_section. rewrite (node_type_of_denotes n _ Hn). cbn [mbind result_bind value_type].
  rewrite bool_decide_true by done. cbn [negb].
  destruct Hn as [[section Hp] Hcache] eqn:EHn. clear EHn. pose proof (conj (ex_intro _ section Hp) Hcache : denotes n _) as Hn'.
  rewrite (data_section_placed n (m_token_idx n) section _ eq_refl Hp). cbn [mbind result_bind].
  destruct Hp as (pre & ts & t & post & bpre & bpost & _ & _ & Hbuf & Hmax & _).
  assert (bytes_ok section) as Hs by (rewrite Hbuf in Hb; by apply Forall_app in Hb as [_ [Hb _]%Forall_app]).
  assert (Z.of_nat (length section) < 2 ^ 29) by (rewrite Hbuf, !length_app in Hmax; unfold max_offset in Hmax; lia).
  rewrite hash_parts_digest; [|done|cbn [concat]; by rewrite app_nil_r|by apply Forall_singleton]. cbn [mbind result_bind].
  rewrite (proj2 (Z.leb_gt _ _)) by lia. rewrite (dict_find_int_value_node n _ _ _ Hn'). cbn [mbind result_bind].
  change (int_of_key (bytes_of_string "piece length") (-1) (info_value mt)) with (mt_piece_length mt).
  pose proof Hok as [_ Hname Hpl _ [_ Htot] _]. rewrite (proj2 (Z.leb_gt _ _)), (proj2 (Z.ltb_ge _ _)) by lia. cbn [orb].
  rewrite (parse_files_made n mt _ Hn' Hok). cbn [succeeds mbind result_bind]. unfold finish_info.
  destruct (files_of_name mt Hok) as [Hfn Hne]. destruct (files_of_layout mt Hok) as (Ht & Hp & _).
  rewrite (bool_decide_false (m_files _ = [])) by done. rewrite (bool_decide_false (m_name _ = [])) by (rewrite Hfn; by destruct Hname as [[? _] _]).
  rewrite Ht, Hp, (proj2 (Z.leb_gt _ _)) by lia. cbn [m_num_pieces set_num_pieces].
  rewrite (proj1 (count_pieces_made mt Hok)), (parse_hashes_made n mt _ Hn' Hok). cbn [succeeds mbind result_bind].
  rewrite (dict_find_int_value_node n _ _ _ Hn'). cbn [mbind result_bind].
  rewrite (absent_references n _ Hn' eq_refl eq_refl). cbn [mbind result_bind].
  destruct (absent string_t "ssl-cert" n _ ltac:(done) Hn' eq_refl) as (d & Hd & Hdb).
  unfold dict_find_string. rewrite Hd. cbn [mbind result_bind]. rewrite Hdb. by eexists.
Qed.

(** No two paths have the same checksum. *)
Definition names_differ (mt : made_torrent) : Prop :=
  collides (map (file_path_hash (files_of mt)) (m_files (files_of mt))) (all_path_hashes (files_of mt) ∅) = false.

Definition torrent_value (mt : made_torrent) : list (bytes * bvalue) :=
  [(key "announce", BStr (mt_announce mt)); (key "info", BDict (info_value mt))].

Lemma torrent_value_of mt : value_of_entry (torrent_made mt) = BDict (torrent_value mt).
Proof. unfold torrent_made, torrent_value. cbn [value_of_entry map fst snd]. by rewrite info_value_of. Qed.

(** The rest of the file is empty. *)
Lemma read_extras_made n mt slash x : denotes n (BDict (torrent_value mt)) -> is_ok (is_i2p_url (mt_announce mt)) = true ->
  exists extras, read_extras n [mt_announce mt] slash x = Ok extras.
Proof.
  intros Hn Hi. unfold read_extras. rewrite (absent_references n _ Hn eq_refl eq_refl). cbn [mbind result_bind any_i2p].
  rewrite (is_ok_or false _ Hi). cbn [mbind result_bind]. unfold read_nodes. rewrite (absent_items _ "nodes" n _ Hn eq_refl).
  cbn [mbind result_bind]. unfold read_creation_date. rewrite (dict_find_int_value_node n _ _ _ Hn). cbn [mbind result_bind].
  unfold read_web_seeds. rewrite (absent_seeds _ "url-list" n _ Hn eq_refl), (absent_seeds _ "httpseeds" n _ Hn eq_refl).
  cbn [mbind result_bind]. rewrite (absent_text "comment.utf-8" "comment" n _ Hn eq_refl eq_refl).
  cbn [mbind result_bind]. rewrite (absent_text "created by.utf-8" "created by" n _ Hn eq_refl eq_refl). by eexists.
Qed.

Lemma parse_torrent_file_made garbage n mt : length garbage = 64%nat -> bytes_ok (m_buffer n) -> denotes n (BDict (torrent_value mt)) ->
  made_ok mt -> names_differ mt -> exists info_hash extras,
  parse_torrent_file garbage n default_piece_limit =
    Ok (set_extras extras (set_urls [mk_announce_entry (mt_announce mt) 0] (info_object info_hash mt)), None, true).
Proof.
  intros Hg Hb Hn Hok Hd. unfold parse_torrent_file. rewrite (node_type_of_denotes n _ Hn). cbn [mbind result_bind value_type].
  rewrite bool_decide_true by done. cbn [negb].
  destruct (dict_find_type_node n _ dict_t (bytes_of_string "info") ltac:(done) Hn) as (info & Hi & Hin & Hib & _).
  pose proof (dict_find_type_buffer _ _ _ _ Hi Hib) as Hbuf. unfold dict_find_dict. rewrite Hi. cbn [mbind result_bind]. rewrite Hib. cbn [negb].
  destruct (parse_info_section_made garbage info mt Hg ltac:(by rewrite Hbuf) Hin Hok) as [h ->]. cbn [mbind result_bind negb].
  unfold resolve_duplicate_filenames. unfold info_object at 1 2 3. cbn [o_files].
  change (collides _ _) with (collides (map (file_path_hash (files_of mt)) (m_files (files_of mt))) (all_path_hashes (files_of mt) ∅)).
  rewrite Hd. cbn [mbind result_bind]. rewrite (parse_trackers_value n _ SL Hn). cbn [mbind result_bind].
  assert (listed_of (torrent_value mt) = []) as -> by done. rewrite bool_decide_true by done.
  assert (announce_of (torrent_value mt) = [mk_announce_entry (mt_announce mt) 0]) as ->.
  { destruct Hok as [(Ha & Htrim & _ & _) _ _ _ _ _]. unfold announce_of.
    change (default [] (string_of _ (torrent_value mt))) with (mt_announce mt). rewrite Htrim. by rewrite bool_decide_false. }
  cbn [map ae_url]. pose proof (mk_announce_ok _ Hok) as (_ & _ & _ & Hi2p).
  match goal with |- context [read_extras n _ ?slash ?x] => destruct (read_extras_made n mt slash x Hn Hi2p) as [extras ->] end.
  by exists h, extras.
Qed.

Lemma short_length s : Z.of_nat (length s) < 10 ^ 8 -> short s = true.
Proof. intros H. unfold short. by apply Z.ltb_lt. Qed.

Lemma plain_short e : plain_name e -> plain (EStr e) = true.
Proof. intros (_ & _ & H). apply short_length. lia. Qed.

Lemma file_made_plain f : made_file_ok f -> plain (file_made f) = true.
Proof.
  intros (Hd & Hl & Hs). unfold file_made. cbn [plain forallb map sorted_keys fst snd]. rewrite (proj2 (Z.ltb_lt (- 10 ^ 18) _)), (proj2 (Z.ltb_lt _ (2 ^ 63))) by lia.
  assert (forallb plain (map EStr (made_path f)) = true) as ->; [|done].
  unfold made_path. rewrite map_app, forallb_app. cbn [map forallb]. rewrite (plain_short _ Hl), andb_true_r.
  induction Hd as [|e l He _ IH]; [done|]. cbn [map forallb]. by rewrite (plain_short e He), IH.
Qed.

Lemma info_made_plain mt : made_ok mt -> plain (info_made mt) = true.
Proof.
  intros [_ Hname Hpl [_ Hf] _ [Hlim Hp]]. unfold default_piece_limit in Hlim.
  assert (forallb plain (map file_made (mt_files mt)) = true) as Hfiles
    by (induction Hf as [|f l Hf1 _ IH]; [done|]; cbn [map forallb]; by rewrite (file_made_plain f Hf1), IH).
  change (plain (info_made mt)) with ((true && forallb plain (map file_made (mt_files mt)) && ((true && plain (EStr (mt_name mt))) &&
      ((true && ((- 10 ^ 18 <? mt_piece_length mt) && (mt_piece_length mt <? 2 ^ 63))) && ((true && short (mt_pieces mt)) && true)))) && true).
  rewrite Hfiles, (plain_short _ Hname), short_length by lia. by rewrite !(proj2 (Z.ltb_lt _ _)) by lia.
Qed.

Lemma torrent_made_plain mt : made_ok mt -> plain (torrent_made mt) = true.
Proof.
  intros Hok. destruct (mk_announce_ok _ Hok) as (_ & _ & Ha & _).
  change (plain (torrent_made mt)) with (((true && short (mt_announce mt)) && ((true && plain (info_made mt)) && true)) && true).
  by rewrite Ha, (info_made_plain mt Hok).
Qed.

Lemma info_value_depth mt : (depth (BDict (info_value mt)) <= 4)%nat.
Proof.
  assert (forall l, foldr (fun v n => Nat.max (depth v) n) 0%nat (map BStr l) = 0%nat) as Hs by (induction l as [|e l IH]; [done|]; cbn; by rewrite IH).
  assert (foldr (fun v n => Nat.max (depth v) n) 0%nat (map (fun f => BDict (file_value f)) (mt_files mt)) <= 2)%nat as Hf.
  { induction (mt_files mt) as [|f l IH]; [simpl; lia|]. cbn [map foldr]. unfold file_value at 1. cbn [depth foldr snd]. rewrite Hs. simpl. lia. }
  unfold info_value. cbn [depth foldr snd]. lia.
Qed.

Lemma torrent_value_depth mt : (depth (BDict (torrent_value mt)) < 100)%nat.
Proof.
  change (depth (BDict (torrent_value mt))) with (S (Nat.max 0 (Nat.max (depth (BDict (info_value mt))) 0))).
  pose proof (info_value_depth mt). lia.
Qed.

(** What loading the file gives. *)
Lemma made_loads garbage mt rest : length garbage = 64%nat -> made_ok mt -> names_differ mt ->
  exists text, bencode (torrent_made mt) = Ok (text, Z.of_nat (length text)) /\
  (Z.of_nat (length text) <= 2000000 -> Z.of_nat (length (text ++ rest)) <= max_offset -> bytes_ok (text ++ rest) ->
   exists o, torrent_info_create garbage (text ++ rest) = Ok (o, None) /\ let ti := info_of o in
     ti_piece_length ti = mt_piece_length mt /\ ti_total_size ti = made_total mt /\ ti_num_pieces ti = made_pieces mt /\
     map (fun f => (fe_path f, fe_name f, fe_size f)) (ti_files ti) =
       map (fun f => (join_path (mt_name mt :: made_path f), mf_leaf f, mf_size f)) (mt_files mt) /\
     files_ok 0 (ti_files ti) (made_total mt) /\
     (forall i, 0 <= i < made_pieces mt -> ti_hash_for_piece ti i = take 20 (drop (Z.to_nat (i * 20)) (mt_pieces mt))) /\
     ti_trackers ti = [mt_announce mt]).
Proof.
  intros Hg Hok Hd. destruct (encode_plain (torrent_made mt) (torrent_made_plain mt Hok)) as (text & Ht & Hi).
  exists text. split; [done|]. intros Hlen Hmax Hb. rewrite length_app in Hmax. destruct (Hi ltac:(lia) 0) as [ts Hts].
  rewrite torrent_value_of in Hts. pose proof (item_lengths _ _ _ _ Hts) as Hl.
  assert (Z.of_nat (length (text ++ rest)) <= max_offset) as Hmax' by (rewrite length_app; lia).
  destruct (parse_torrent_file_made garbage (root_node (text ++ rest) text ts) mt Hg Hb) as (h & extras & Hp); [by apply root_denotes|done|done|].
  exists (set_extras extras (set_urls [mk_announce_entry (mt_announce mt) 0] (info_object h mt))). split.
  - unfold torrent_info_create, bdecode_default.
    rewrite (decode_item 100 2000000 text rest ts _ Hts Hmax' (torrent_value_depth mt)) by lia. cbn [mbind result_bind].
    rewrite bool_decide_true by done. cbn [negb]. rewrite Hp. done.
  - destruct (files_of_layout mt Hok) as (Htot & Hpl & Hm & Hf). split_and!; try done.
    intros i Hin. apply bytes_at_in_range; [lia|]. cbn [o_piece_hashes default]. destruct (mk_pieces_ok mt Hok). cbn. lia.
Qed.
(** A torrent made of a name, files and hashes, encoded, loads without an error as just
    that: the paths below the name, the sizes one after the other, the number of pieces,
    for each piece its hash, and the tracker; bytes after it do not matter. *)
Theorem made_torrent_loads garbage mt rest : length garbage = 64%nat -> made_ok mt -> names_differ mt ->
  exists text, bencode (torrent_made mt) = Ok (text, Z.of_nat (length text)) /\
  (Z.of_nat (length text) <= 2000000 -> Z.of_nat (length (text ++ rest)) <= max_offset -> bytes_ok (text ++ rest) ->
   exists o, torrent_info_create garbage (text ++ rest) = Ok (o, None) /\ let ti := info_of o in
     ti_piece_length ti = mt_piece_length mt /\ ti_total_size ti = made_total mt /\ ti_num_pieces ti = made_pieces mt /\
     map (fun f => (fe_path f, fe_name f, fe_size f)) (ti_files ti) =
       map (fun f => (join_path (mt_name mt :: made_path f), mf_leaf f, mf_size f)) (mt_files mt) /\
     files_ok 0 (ti_files ti) (made_total mt) /\
     (forall i, 0 <= i < made_pieces mt -> ti_hash_for_piece ti i = take 20 (drop (Z.to_nat (i * 20)) (mt_pieces mt))) /\
     ti_trackers ti = [mt_announce mt]).
Proof. apply made_loads. Qed.
End Made.

(** ** A sample *)

Definition made_sample : made_torrent :=
  mk_made_torrent (key "udp://t:1/") (key "t") 4
    [mk_made_file [] (key "a") 3; mk_made_file [key "d"] (key "b.txt") 5] (key "0123456789012345678901234567890123456789").

Lemma plain_name_intro e : bool_decide (e <> [] /\ Forall (fun c => 32 <= c < 128 /\ c <> 47 /\ c <> 92) e /\ e <> [46] /\ e <> [46; 46] /\
  (length e < 240)%nat) = true -> plain_name e.
Proof.
  intros (Hne & Hf & Hd & Hdd & Hl)%bool_decide_eq_true_1. split_and!; [|eapply Forall_impl; [exact Hf|cbn; lia]|done].
  split_and!; try done. eapply Forall_impl; [exact Hf|]. unfold clean. cbn. lia.
Qed.

Lemma made_sample_ok : made_ok made_sample.
Proof.
  split; [split_and!; by vm_compute|by apply plain_name_intro|simpl; lia| |split_and!; by vm_compute|split_and!; by vm_compute].
  split; [done|]. apply Forall_cons. split; [|apply Forall_singleton]; (split; [|split; [by apply plain_name_intro|simpl; lia]]).
  - apply Forall_nil_2.
  - apply Forall_singleton. by apply plain_name_intro.
Qed.

#[local] Existing Instance sample_past_end.

Definition made_text : bytes := (ok_or ([], 0) (bencode (torrent_made made_sample))).1.

Lemma made_torrent_loads_witness : let ti := info_of (sample_object (made_text ++ [10])) in
  ti_num_pieces ti = 2 /\ map fe_path (ti_files ti) = [key "t/a"; key "t/d/b.txt"] /\ ti_trackers ti = [key "udp://t:1/"].
Proof.
  destruct (made_torrent_loads (EN := false) (CRC := sample_crc) (SH := sample_shuffle) (replicate 64 0) made_sample [10])
    as (text & Ht & Hload); [done|exact made_sample_ok|by vm_compute|].
  assert (text = made_text) as -> by (unfold made_text; by rewrite Ht).
  destruct Hload as (o & Ho & _ & _ & Hn & Hf & _ & _ & Htr); [by vm_compute|by vm_compute|decide_by_computation|].
  assert (o = sample_object (made_text ++ [10])) as -> by (unfold sample_object, sample_create; by rewrite Ho).
  split; [done|]. split; [|done]. apply (f_equal (map (fun x => x.1.1))) in Hf. rewrite !map_map in Hf. exact Hf.
Defined.
