(* ===== verification/Merkle.v ===== *)
(** * Merkle torrents

    A torrent may name the hashes of its pieces by the root of a hash tree only.  The nodes are
    numbered level by level from the root ([extern/libtorrent/src/merkle.cpp]); the leaves are the hashes of the pieces
    and every other node is the hash of its two children.  [create_torrent] builds the tree,
    [torrent_info] takes nodes that come with a piece, after it has checked them against the
    root, and gives out the nodes another peer needs to check a piece. *)

From S2P Require Import Prelude Storage Sha1Spec FileStorage Bdecode BdecodeSpec BdecodeNodes Entry EntrySpec TorrentInfo.

(** [extern/libtorrent/src/merkle.cpp:37-42] merkle_get_parent
    C++ divides towards zero. *)
Definition merkle_get_parent (tree_node : Z) : Z := Z.quot (tree_node - 1) 2.

(** [extern/libtorrent/src/merkle.cpp:44-51] merkle_get_sibling *)
Definition merkle_get_sibling (tree_node : Z) : Z :=
  tree_node + (if negb (Z.land tree_node 1 =? 0) then 1 else -1).

Definition node (t : list bytes) (i : Z) : bytes := nth (Z.to_nat i) t [].

Definition in_tree (t : list bytes) (i : Z) : bool := (0 <=? i) && (i <? Z.of_nat (length t)).

Section Merkle.
Context {SHA : Sha1} {PE : PastEnd}.

(** ** Building the tree *)

(** [extern/libtorrent/src/create_torrent.cpp:674-680] create_torrent::generate
    [n] parents, one after the other from [parent]; their children start at [i]. *)
Fixpoint hash_level (n : nat) (i parent : Z) (t : list bytes) : list bytes :=
  match n with
  | O => t
  | S n' => hash_level n' (i + 2) (parent + 1) (<[Z.to_nat parent := sha1 (node t i ++ node t (i + 1))]> t)
  end.

(** [extern/libtorrent/src/create_torrent.cpp:669-683] create_torrent::generate
    Level by level, from the leaves to the root. *)
Fixpoint hash_levels (fuel : nat) (level_start level_size : Z) (t : list bytes) : result (list bytes) :=
  if 0 <? level_start then
    match fuel with
    | O => Fault OutOfFuel
    | S fuel' =>
        let parent := merkle_get_parent level_start in
        hash_levels fuel' parent (Z.quot level_size 2) (hash_level (Z.to_nat ((level_size + 1) / 2)) level_start parent t)
    end
  else Ok t.

(** [extern/libtorrent/src/create_torrent.cpp:655-684] create_torrent::generate
    Leaves without a piece are zero. *)
Definition merkle_tree_of (hashes : list bytes) : result (list bytes) :=
  num_leafs ← merkle_num_leafs (Z.of_nat (length hashes));
  let num_nodes := merkle_num_nodes num_leafs in
  let first_leaf := num_nodes - num_leafs in
  let leaves := hashes ++ replicate (Z.to_nat (num_leafs - Z.of_nat (length hashes))) no_hash in
  hash_levels 31 first_leaf num_leafs (replicate (Z.to_nat first_leaf) no_hash ++ leaves).

(** ** Taking nodes in *)

(** [extern/libtorrent/src/torrent_info.cpp:1315-1337] torrent_info::add_merkle_nodes
    From node [n] with hash [h] up to the root; the hash that comes out there, and the nodes
    used on the way. *)
Fixpoint climb (fuel : nat) (subtree : gmap Z bytes) (n : Z) (h : bytes) (to_add : gmap Z bytes) :
    result (option (bytes * gmap Z bytes)) :=
  if 0 <? n then
    match fuel with
    | O => Fault OutOfFuel
    | S fuel' =>
        let sibling := merkle_get_sibling n in
        match subtree !! sibling with
        | None => Ok None
        | Some s =>
            climb fuel' subtree (merkle_get_parent n) (if sibling <? n then sha1 (s ++ h) else sha1 (h ++ s))
              (<[sibling := s]> (<[n := h]> to_add))
        end
    end
  else Ok (Some (h, to_add)).

(** [extern/libtorrent/src/torrent_info.cpp:1343-1346] torrent_info::add_merkle_nodes
    [for (auto const& i : to_add) m_merkle_tree[i.first] = i.second;]
    The keys differ, so the order of the assignments is of no account. *)
Definition store_nodes (to_add : gmap Z bytes) (t : list bytes) : result (list bytes) :=
  if bool_decide (map_Forall (fun i _ => in_tree t i = true) to_add)
  then Ok (imap (fun i h => default h (to_add !! Z.of_nat i)) t)
  else Fault BadPrecondition.

Definition set_merkle (t : list bytes) (o : torrent_object) : torrent_object :=
  set_piece_hashes (o_piece_hashes o) t (o_merkle_first_leaf o) o.

(** [extern/libtorrent/src/torrent_info.cpp:1301-1348] torrent_info::add_merkle_nodes *)
Definition add_merkle_nodes (subtree : gmap Z bytes) (piece : Z) (o : torrent_object) : result (bool * torrent_object) :=
  let n := o_merkle_first_leaf o + piece in
  match subtree !! n with
  | None => Ok (false, o)
  | Some h =>
      climbed ← climb 31 subtree n h ∅;
      match climbed with
      | None => Ok (false, o)
      | Some (root, to_add) =>
          match o_merkle_tree o with
          | [] => Fault BadPrecondition
          | r :: _ =>
              if negb (bool_decide (root = r)) then Ok (false, o)
              else t ← store_nodes to_add (o_merkle_tree o); Ok (true, set_merkle t o)
          end
      end
  end.

(** ** Giving nodes out *)

(** [extern/libtorrent/src/torrent_info.cpp:1368-1368] torrent_info::build_merkle_list
    [m_merkle_tree[i]] *)
Definition tree_at (t : list bytes) (i : Z) : result bytes :=
  if in_tree t i then Ok (node t i) else Fault BadPrecondition.

(** [extern/libtorrent/src/torrent_info.cpp:1370-1379] torrent_info::build_merkle_list
    A build that checks assertions ([TORRENT_USE_ASSERTS]) stops at a sibling of zeros. *)
Fixpoint siblings_up (asserts : bool) (fuel : nat) (t : list bytes) (n : Z) (ret : gmap Z bytes) : result (gmap Z bytes) :=
  if 0 <? n then
    match fuel with
    | O => Fault OutOfFuel
    | S fuel' =>
        h ← tree_at t (merkle_get_sibling n);
        if asserts && bool_decide (h = no_hash) then Fault AssertionFailed
        else siblings_up asserts fuel' t (merkle_get_parent n) (<[merkle_get_sibling n := h]> ret)
    end
  else Ok ret.

(** [extern/libtorrent/src/torrent_info.cpp:1359-1381] torrent_info::build_merkle_list *)
Definition build_merkle_list (asserts : bool) (piece : Z) (o : torrent_object) : result (gmap Z bytes) :=
  let t := o_merkle_tree o in
  let n := o_merkle_first_leaf o + piece in
  leaf ← tree_at t n;
  root ← tree_at t 0;
  siblings_up asserts 31 t n (<[0 := root]> (<[n := leaf]> ∅)).

(** [extern/libtorrent/include/libtorrent/torrent_info.hpp:522-523] torrent_info::set_merkle_tree
    The tree that was there is handed back. *)
Definition set_merkle_tree (t : list bytes) (o : torrent_object) : torrent_object * list bytes := (set_merkle t o, o_merkle_tree o).

(** ** Numbers of nodes *)

Lemma parent_of i : 0 <= i -> merkle_get_parent (2 * i + 1) = i /\ merkle_get_parent (2 * i + 2) = i.
Proof.
  intros Hi. unfold merkle_get_parent. rewrite !Z.quot_div_nonneg by lia. split.
  - symmetry. apply (Z.div_unique _ 2 _ 0); lia.
  - symmetry. apply (Z.div_unique _ 2 _ 1); lia.
Qed.

Lemma sibling_of i : 0 <= i -> merkle_get_sibling (2 * i + 1) = 2 * i + 2 /\ merkle_get_sibling (2 * i + 2) = 2 * i + 1.
Proof.
  intros Hi. unfold merkle_get_sibling. assert (forall x, Z.land x 1 = x mod 2) as Hland by (intros x; by apply (Z.land_ones x 1)).
  rewrite !Hland. rewrite <- (Z.mod_unique (2 * i + 1) 2 i 1), <- (Z.mod_unique (2 * i + 2) 2 (i + 1) 0) by lia. simpl. lia.
Qed.

(** A node other than the root is one of the two children of its parent. *)
Lemma node_cases n : 0 < n -> exists i, 0 <= i < n /\ merkle_get_parent n = i /\
  (n = 2 * i + 1 /\ merkle_get_sibling n = 2 * i + 2 \/ n = 2 * i + 2 /\ merkle_get_sibling n = 2 * i + 1).
Proof.
  intros Hn. pose proof (Z.div_mod (n - 1) 2 ltac:(lia)). pose proof (Z.mod_pos_bound (n - 1) 2 ltac:(lia)).
  set (i := (n - 1) / 2) in *. assert (n = 2 * i + 1 \/ n = 2 * i + 2) as Hc by lia. exists i. split; [lia|].
  destruct (parent_of i ltac:(lia)) as [P1 P2]. destruct (sibling_of i ltac:(lia)) as [S1 S2].
  destruct Hc as [E|E]; rewrite E; by auto.
Qed.

Lemma tree_at_ok t i : 0 <= i < Z.of_nat (length t) -> tree_at t i = Ok (node t i).
Proof.
  intros H. unfold tree_at, in_tree. by rewrite (proj2 (Z.leb_le _ _)), (proj2 (Z.ltb_lt _ _)) by lia.
Qed.

(** ** What a tree is *)

(** [leaf] is the number of the first leaf. *)
Record merkle_ok (leaf : Z) (t : list bytes) : Prop := {
  mo_leaf : 0 <= leaf < 2 ^ 30;
  mo_length : Z.of_nat (length t) = 2 * leaf + 1;
  mo_hash : forall i, 0 <= i < leaf -> node t i = sha1 (node t (2 * i + 1) ++ node t (2 * i + 2));
}.

(** Some nodes of the tree [T] are known, the root among them. *)
Definition known (T t : list bytes) (i : Z) : Prop := node t i = node T i.

Definition partial_copy (T t : list bytes) : Prop :=
  length t = length T /\ known T t 0 /\ forall i, known T t i \/ node t i = no_hash.

(** The messages that [climb] hashes, each with the node it is compared with in effect. *)
Fixpoint climb_messages (fuel : nat) (subtree : gmap Z bytes) (n : Z) (h : bytes) : list (Z * bytes) :=
  match fuel, subtree !! merkle_get_sibling n with
  | S fuel', Some s =>
      if 0 <? n then
        let m := if merkle_get_sibling n <? n then s ++ h else h ++ s in
        (merkle_get_parent n, m) :: climb_messages fuel' subtree (merkle_get_parent n) (sha1 m)
      else []
  | _, _ => []
  end.

(** The message is not a second one with the digest of the node's two children. *)
Definition honest (T : list bytes) (m : Z * bytes) : Prop :=
  sha1 m.2 = node T m.1 -> m.2 = node T (2 * m.1 + 1) ++ node T (2 * m.1 + 2).

(** Whoever made up the nodes [subtree] for a piece has not found a second message for the
    digest of a node of the tree: none of the at most 31 messages that checking them hashes
    is one. *)
Definition unforged (T : list bytes) (leaf : Z) (subtree : gmap Z bytes) (piece : Z) : Prop :=
  Forall (honest T) (match subtree !! (leaf + piece) with Some h => climb_messages 31 subtree (leaf + piece) h | None => [] end).

(** *** The nodes of a level *)

Lemma node_insert t i j h : 0 <= i < Z.of_nat (length t) -> 0 <= j ->
  node (<[Z.to_nat i := h]> t) j = if decide (i = j) then h else node t j.
Proof.
  intros Hi Hj. unfold node. rewrite !nth_lookup. case_decide as E.
  - subst j. by rewrite list_lookup_insert_eq by lia.
  - by rewrite list_lookup_insert_ne by lia.
Qed.

Lemma hash_level_spec n : forall i parent t, 0 <= parent -> parent + Z.of_nat n <= i -> i + 2 * Z.of_nat n <= Z.of_nat (length t) ->
  let t' := hash_level n i parent t in length t' = length t /\
  forall k, 0 <= k -> node t' k =
    if decide (parent <= k < parent + Z.of_nat n) then sha1 (node t (i + 2 * (k - parent)) ++ node t (i + 2 * (k - parent) + 1))
    else node t k.
Proof.
  induction n as [|n IH]; intros i parent t Hp Hi Hl; cbv zeta; cbn [hash_level].
  - split; [done|]. intros k Hk. by rewrite decide_False by lia.
  - set (t1 := <[Z.to_nat parent := _]> t). assert (length t1 = length t) as Hl1 by apply length_insert.
    destruct (IH (i + 2) (parent + 1) t1) as [H1 H2]; [lia|lia|lia|]. split; [by rewrite H1|]. intros k Hk. rewrite H2 by done.
    destruct (decide (k = parent)) as [->|Hne].
    + rewrite decide_False, decide_True by lia. unfold t1. rewrite node_insert, decide_True by lia.
      by rewrite Z.sub_diag, Z.mul_0_r, Z.add_0_r.
    + destruct (decide (parent + 1 <= k < parent + 1 + Z.of_nat n)) as [Hk1|Hk1].
      * rewrite decide_True by lia. unfold t1. rewrite !node_insert, !decide_False by lia.
        by replace (i + 2 + 2 * (k - (parent + 1))) with (i + 2 * (k - parent)) by lia.
      * rewrite decide_False by lia. unfold t1. by rewrite node_insert, decide_False by lia.
Qed.

(** From level [j] up: the nodes that are hashed already stay, the levels above are hashed. *)
Lemma hash_levels_spec j : forall fuel leaf t, (j <= fuel)%nat -> 2 ^ Z.of_nat j - 1 <= leaf -> Z.of_nat (length t) = 2 * leaf + 1 ->
  (forall i, 2 ^ Z.of_nat j - 1 <= i < leaf -> node t i = sha1 (node t (2 * i + 1) ++ node t (2 * i + 2))) ->
  exists t', hash_levels fuel (2 ^ Z.of_nat j - 1) (2 ^ Z.of_nat j) t = Ok t' /\ length t' = length t /\
    (forall i, 0 <= i < leaf -> node t' i = sha1 (node t' (2 * i + 1) ++ node t' (2 * i + 2))) /\
    (forall i, 2 ^ Z.of_nat j - 1 <= i -> node t' i = node t i).
Proof.
  induction j as [|j IH]; intros fuel leaf t Hf Hleaf Hl Hok.
  - exists t. split; [by destruct fuel|]. split; [done|]. split; [|done]. intros i Hi. apply Hok. simpl. lia.
  - destruct fuel as [|fuel]; [lia|]. rewrite Nat2Z.inj_succ, Z.pow_succ_r in * by lia.
    pose proof (Z.pow_pos_nonneg 2 (Z.of_nat j) ltac:(lia) ltac:(lia)) as Hpos. set (m := 2 ^ Z.of_nat j) in *.
    cbn [hash_levels]. rewrite (proj2 (Z.ltb_lt 0 _)) by lia.
    assert (merkle_get_parent (2 * m - 1) = m - 1) as ->.
    { replace (2 * m - 1) with (2 * (m - 1) + 1) by lia. by apply parent_of; lia. }
    assert (Z.quot (2 * m) 2 = m) as ->.
    { rewrite Z.quot_div_nonneg by lia. symmetry. apply (Z.div_unique _ 2 _ 0); lia. }
    assert ((2 * m + 1) / 2 = m) as -> by (symmetry; apply (Z.div_unique _ 2 _ 1); lia).
    destruct (hash_level_spec (Z.to_nat m) (2 * m - 1) (m - 1) t ltac:(lia) ltac:(lia) ltac:(lia)) as [Hl1 Hn].
    set (t1 := hash_level _ _ _ _) in *. rewrite Z2Nat.id in Hn by lia.
    assert (forall i, 2 * m - 1 <= i -> node t1 i = node t i) as Hbelow by (intros i Hi; rewrite Hn, decide_False by lia; done).
    destruct (IH fuel leaf t1) as (t' & Ht & Hlen & Hhash & Hsame); [lia|lia|lia| |].
    { intros i Hi. destruct (decide (i < 2 * m - 1)) as [Hlt|Hge].
      - rewrite Hn, decide_True by lia. rewrite !Hbelow by lia. f_equal. f_equal; f_equal; lia.
      - rewrite !Hbelow by lia. apply Hok. lia. }
    exists t'. split; [done|]. split; [lia|]. split; [done|]. intros i Hi. rewrite Hsame, Hbelow by lia. done.
Qed.

(** The number of leaves is the least power of two that is enough. *)
Lemma merkle_leafs_power fuel : forall pieces k, pieces <= 2 ^ (k + Z.of_nat fuel) -> 0 <= k ->
  exists j, 0 <= j <= k + Z.of_nat fuel /\ merkle_leafs_loop fuel pieces (2 ^ k) = Ok (2 ^ j) /\ pieces <= 2 ^ j /\
    (j = k \/ 2 ^ j < 2 * pieces).
Proof.
  induction fuel as [|fuel IH]; intros pieces k Hp Hk; cbn [merkle_leafs_loop].
  - rewrite Z.add_0_r in Hp. exists k. rewrite (proj2 (Z.ltb_ge _ _)) by lia. split_and!; [lia|lia|done|lia|by left].
  - destruct (Z.ltb_spec (2 ^ k) pieces) as [Hlt|Hge]; [|exists k; split_and!; [lia|lia|done|lia|by left]].
    rewrite Z.shiftl_mul_pow2 by lia. change (2 ^ 1) with 2. replace (2 ^ k * 2) with (2 ^ (k + 1)) by (rewrite Z.pow_add_r; lia).
    destruct (IH pieces (k + 1)) as (j & Hj & -> & Hle & Hc); [by replace (k + 1 + Z.of_nat fuel) with (k + Z.of_nat (S fuel)) by lia|lia|].
    exists j. split_and!; [lia|lia|done|done|]. right. destruct Hc as [->|]; [|done]. rewrite Z.pow_add_r by lia. lia.
Qed.

(** The tree that is built for the hashes of the pieces: its leaves are the hashes, then
    zeros, and every other node is the hash of its children. *)
Theorem created_tree_ok hashes : hashes <> [] -> Z.of_nat (length hashes) <= 2 ^ 30 ->
  exists t leafs, merkle_tree_of hashes = Ok t /\ merkle_num_leafs (Z.of_nat (length hashes)) = Ok leafs /\
    merkle_ok (leafs - 1) t /\ Z.of_nat (length hashes) <= leafs /\
    forall p, 0 <= p < leafs -> node t (leafs - 1 + p) = nth (Z.to_nat p) hashes no_hash.
Proof.
  intros Hne Hle. set (n := Z.of_nat (length hashes)) in *.
  assert (0 < n) as Hpos by (unfold n; destruct hashes; [done|simpl; lia]).
  destruct (merkle_leafs_power 31 n 0) as (j & Hj & Hm & Hn & Hc); [lia|lia|].
  assert (2 ^ j <= 2 ^ 30) as Hbound.
  { destruct Hc as [->|Hc]; [by apply Z.pow_le_mono_r|]. apply Z.pow_le_mono_r; [lia|].
    destruct (decide (j <= 30)); [done|]. assert (2 ^ 31 <= 2 ^ j) by (apply Z.pow_le_mono_r; lia). lia. }
  assert (0 < 2 ^ j) as Hp by (by apply Z.pow_pos_nonneg; lia). change (2 ^ 0) with 1 in Hm.
  unfold merkle_tree_of. fold n. unfold merkle_num_leafs. rewrite Hm. cbn [mbind result_bind].
  unfold merkle_num_nodes. rewrite Z.shiftl_mul_pow2 by lia. change (2 ^ 1) with 2.
  replace (2 ^ j * 2 - 1 - 2 ^ j) with (2 ^ j - 1) by lia. set (leafs := 2 ^ j) in *.
  set (t0 := replicate _ no_hash ++ _).
  assert (Z.of_nat (length t0) = 2 * (leafs - 1) + 1) as Hl0.
  { unfold t0. rewrite !length_app, !length_replicate. fold n. lia. }
  destruct (hash_levels_spec (Z.to_nat j) 31 (leafs - 1) t0) as (t & Ht & Hlen & Hhash & Hsame).
  - assert (j <= 30) by (apply (Z.pow_le_mono_r_iff 2); lia). lia.
  - rewrite Z2Nat.id by lia. fold leafs. lia.
  - done.
  - rewrite Z2Nat.id by lia. fold leafs. lia.
  - rewrite Z2Nat.id in Ht, Hsame by lia. fold leafs in Ht, Hsame. exists t, leafs. split; [done|]. split; [done|].
    split; [split; [lia|lia|done]|]. split; [fold n; lia|]. intros p Hp'. rewrite Hsame by lia. unfold node, t0.
    rewrite app_nth2 by (rewrite length_replicate; lia). rewrite length_replicate.
    replace (Z.to_nat (leafs - 1 + p) - Z.to_nat (leafs - 1))%nat with (Z.to_nat p) by lia.
    destruct (decide (Z.to_nat p < length hashes)%nat) as [Hin|Hout].
    + rewrite app_nth1 by done. by apply nth_indep.
    + rewrite app_nth2, (nth_overflow hashes) by lia. rewrite nth_lookup, lookup_replicate_2; [done|]. fold n. lia.
Qed.

(** ** Nodes against the root *)
Section Tree.
Variables (leaf : Z) (T : list bytes).
Hypothesis T_ok : merkle_ok leaf T.
Hypothesis T_hashes : forall i, 0 <= i <= 2 * leaf -> length (node T i) = 20%nat.

Definition hash_length (h : bytes) : Prop := length h = 20%nat.

(** The hash of a node and its sibling, in their order, is that of the parent. *)
Lemma parent_hash n : 0 < n <= 2 * leaf -> let s := merkle_get_sibling n in
  0 <= merkle_get_parent n < n /\ 2 * merkle_get_parent n + 1 <= n /\ 0 <= s <= 2 * leaf /\ s <> n /\
  (if s <? n then sha1 (node T s ++ node T n) else sha1 (node T n ++ node T s)) = node T (merkle_get_parent n).
Proof.
  intros Hn. destruct (node_cases n ltac:(lia)) as (i & Hi & -> & [[E ->]|[E ->]]); cbv zeta.
  - rewrite (proj2 (Z.ltb_ge _ _)) by lia. rewrite (mo_hash _ _ T_ok i) by lia. rewrite E. split_and!; lia || done.
  - rewrite (proj2 (Z.ltb_lt _ _)) by lia. rewrite (mo_hash _ _ T_ok i) by lia. rewrite E. split_and!; lia || done.
Qed.

Lemma fuel_halves n fuel : 0 < n -> n + 1 <= 2 ^ Z.of_nat (S fuel) -> 2 * merkle_get_parent n + 1 <= n ->
  merkle_get_parent n + 1 <= 2 ^ Z.of_nat fuel.
Proof. intros Hn. rewrite Nat2Z.inj_succ, Z.pow_succ_r by lia. lia. Qed.

Definition inside (m : gmap Z bytes) : Prop := forall i v, m !! i = Some v -> 0 <= i <= 2 * leaf.

(** The nodes that are gathered are nodes of the tree. *)
Definition gathered (acc acc' : gmap Z bytes) : Prop :=
  forall i v, acc' !! i = Some v -> acc !! i = Some v \/ v = node T i.

Lemma climb_total subtree fuel : forall n h acc, 0 <= n <= 2 * leaf -> n + 1 <= 2 ^ Z.of_nat fuel -> inside acc ->
  exists r, climb fuel subtree n h acc = Ok r /\
    forall root acc', r = Some (root, acc') -> inside acc' /\ forall i, is_Some (acc !! i) -> is_Some (acc' !! i).
Proof.
  induction fuel as [|fuel IH]; intros n h acc Hn Hf Ha; cbn [climb]; destruct (Z.ltb_spec 0 n) as [Hpos|Hz].
  1: simpl in Hf; lia.
  1, 3: exists (Some (h, acc)); (split; [done|]); intros root acc' [= <- <-]; by split.
  destruct (parent_hash n ltac:(lia)) as (Hp & Hp2 & Hs & _ & _). destruct (subtree !! merkle_get_sibling n) as [s|];
    [|by exists None].
  destruct (IH (merkle_get_parent n) (if merkle_get_sibling n <? n then sha1 (s ++ h) else sha1 (h ++ s))
    (<[merkle_get_sibling n := s]> (<[n := h]> acc))) as (r & -> & Hr); [lia|by apply fuel_halves| |].
  - intros i v. rewrite !lookup_insert. case_decide; [intros; lia|]. case_decide; [intros; lia|]. apply Ha.
  - exists r. split; [done|]. intros root acc' E. destruct (Hr root acc' E) as [H1 H2]. split; [done|].
    intros i Hi. apply H2. rewrite !lookup_insert. repeat case_decide; by eauto.
Qed.

Lemma climb_marks subtree fuel n h acc r root acc' : 0 < n <= 2 * leaf -> n + 1 <= 2 ^ Z.of_nat fuel -> inside acc ->
  climb fuel subtree n h acc = Ok r -> r = Some (root, acc') -> is_Some (acc' !! n).
Proof.
  intros Hn Hf Ha. destruct fuel as [|fuel]; [simpl in Hf; lia|]. cbn [climb]. rewrite (proj2 (Z.ltb_lt 0 n)) by lia.
  destruct (parent_hash n Hn) as (Hp & Hp2 & Hs & Hne & _). destruct (subtree !! merkle_get_sibling n) as [s|]; [|by intros [= <-]].
  intros H E. edestruct (climb_total subtree fuel (merkle_get_parent n)) as (r' & H' & Hr'); [| | |rewrite H' in H; injection H as ->;
    eapply (Hr' root acc' E)]; [lia|apply (fuel_halves n); lia| |].
  - intros i v. rewrite !lookup_insert. case_decide; [intros; lia|]. case_decide; [intros; lia|]. apply Ha.
  - rewrite lookup_insert_ne, lookup_insert_eq by done. by eexists.
Qed.

Lemma climb_sound subtree fuel : map_Forall (fun _ => hash_length) subtree -> (forall x, hash_length (sha1 x)) ->
  forall n h acc acc', 0 <= n <= 2 * leaf -> hash_length h -> Forall (honest T) (climb_messages fuel subtree n h) ->
  climb fuel subtree n h acc = Ok (Some (node T 0, acc')) -> h = node T n /\ gathered acc acc'.
Proof.
  intros Hsub Hsha. induction fuel as [|fuel IH]; intros n h acc acc' Hn Hh; cbn [climb climb_messages];
    destruct (Z.ltb_spec 0 n) as [Hpos|Hz]; [done| | |].
  1, 3: intros _ [= -> <-]; (split; [by replace n with 0 by lia|]); intros i v; by left.
  destruct (node_cases n Hpos) as (i & Hi & Hpar & Hsib). destruct (parent_hash n ltac:(lia)) as (Hp & _ & Hs & Hne & Hhash). cbv zeta in Hhash.
  destruct (subtree !! merkle_get_sibling n) as [s|] eqn:Es; [|done]. pose proof (Hsub _ _ Es) as Hsl.
  set (m := if merkle_get_sibling n <? n then s ++ h else h ++ s). intros [Hm Hms]%Forall_cons.
  assert ((if merkle_get_sibling n <? n then sha1 (s ++ h) else sha1 (h ++ s)) = sha1 m) as -> by (unfold m; by destruct (_ <? n)).
  intros [E Hg]%IH; [|lia|apply Hsha|done].
  pose proof (T_hashes n ltac:(lia)) as HTn. pose proof (T_hashes _ Hs) as HTs. unfold hash_length in *.
  specialize (Hm E). cbn [fst snd] in Hm. rewrite Hpar in Hm.
  assert (h = node T n /\ s = node T (merkle_get_sibling n)) as [-> ->].
  { revert Hm HTs HTn. unfold m. destruct Hsib as [[-> ->]|[-> ->]]; intros Hm HTs HTn.
    - rewrite (proj2 (Z.ltb_ge _ _)) in Hm by lia. apply app_inj_1 in Hm as [-> ->]; [done|lia].
    - rewrite (proj2 (Z.ltb_lt _ _)) in Hm by lia. apply app_inj_1 in Hm as [-> ->]; [done|lia]. }
  split; [done|]. intros k v Hk. destruct (Hg k v Hk) as [Hv|]; [|by right]. rewrite !lookup_insert in Hv.
  repeat (case_decide; [subst k; injection Hv as <-; by right|]). by left.
Qed.

(** *** The nodes that are given out *)

Lemma siblings_up_spec fuel : forall n ret, 0 <= n <= 2 * leaf -> n + 1 <= 2 ^ Z.of_nat fuel ->
  (forall i v, ret !! i = Some v -> v = node T i) ->
  exists L, siblings_up false fuel T n ret = Ok L /\ (forall i v, L !! i = Some v -> v = node T i) /\
    (forall i, is_Some (ret !! i) -> is_Some (L !! i)) /\
    forall acc, exists acc', climb fuel L n (node T n) acc = Ok (Some (node T 0, acc')) /\ gathered acc acc'.
Proof.
  pose proof (mo_length _ _ T_ok) as Hlen.
  induction fuel as [|fuel IH]; intros n ret Hn Hf Hret; cbn [siblings_up climb andb]; destruct (Z.ltb_spec 0 n) as [Hpos|Hz].
  1: simpl in Hf; lia.
  1, 3: exists ret; split_and!; try done; intros acc; exists acc; replace n with 0 by lia; (split; [done|]); intros i v; by left.
  destruct (parent_hash n ltac:(lia)) as (Hp & Hp2 & Hs & _ & Hhash). cbv zeta in Hhash.
  rewrite tree_at_ok by lia. cbn [mbind result_bind].
  destruct (IH (merkle_get_parent n) (<[merkle_get_sibling n := node T (merkle_get_sibling n)]> ret)) as (L & HL & Hv & Hdom & Hc);
    [lia|by apply fuel_halves| |].
  { intros i v. rewrite lookup_insert. case_decide as E; [subst i; by intros [= <-]|apply Hret]. }
  exists L. split; [done|]. split; [done|]. split; [intros i Hi; apply Hdom; rewrite lookup_insert; case_decide; by eauto|].
  intros acc. destruct (Hdom (merkle_get_sibling n)) as [s Es]; [rewrite lookup_insert_eq; by eexists|].
  rewrite Es, (Hv _ _ Es), Hhash.
  destruct (Hc (<[merkle_get_sibling n := node T (merkle_get_sibling n)]> (<[n := node T n]> acc))) as (acc' & -> & Hg).
  exists acc'. split; [done|]. intros i v Hi. apply Hg in Hi as [Hi|]; [|by right]. rewrite !lookup_insert in Hi.
  repeat (case_decide; [subst i; injection Hi as <-; by right|]). by left.
Qed.

(** Without a node of zeros no assertion fails. *)
Lemma siblings_asserted fuel : (forall i, 0 <= i <= 2 * leaf -> node T i <> no_hash) ->
  forall n ret, 0 <= n <= 2 * leaf -> siblings_up true fuel T n ret = siblings_up false fuel T n ret.
Proof.
  intros Hz. pose proof (mo_length _ _ T_ok) as Hlen. induction fuel as [|fuel IH]; intros n ret Hn; cbn [siblings_up andb]; destruct (Z.ltb_spec 0 n) as [Hpos|]; try done.
  destruct (parent_hash n ltac:(lia)) as (Hp & Hp2 & Hs & _). rewrite tree_at_ok by lia. cbn [mbind result_bind].
  rewrite bool_decide_false by (apply Hz; lia). apply IH. lia.
Qed.

(** *** Storing them *)

Lemma store_nodes_spec t acc : length t = length T -> inside acc ->
  exists t', store_nodes acc t = Ok t' /\ length t' = length t /\
    forall i, 0 <= i -> node t' i = match acc !! i with Some v => v | None => node t i end.
Proof.
  intros Hl Ha. pose proof (mo_length _ _ T_ok) as Hlen. unfold store_nodes. rewrite bool_decide_true.
  - eexists. split; [done|]. split; [apply length_imap|]. intros i Hi. unfold node. rewrite !nth_lookup, list_lookup_imap.
    rewrite Z2Nat.id by done. destruct (acc !! i) as [v|] eqn:E.
    + destruct (lookup_lt_is_Some_2 t (Z.to_nat i)) as [x ->]; [specialize (Ha i v E); lia|done].
    + by destruct (t !! Z.to_nat i).
  - intros i v E. specialize (Ha i v E). unfold in_tree. apply andb_true_intro. split; [apply Z.leb_le|apply Z.ltb_lt]; lia.
Qed.

(** A partial copy stays one when nodes of the tree are stored. *)
Lemma store_partial t acc t' : partial_copy T t -> gathered ∅ acc -> length t' = length t ->
  (forall i, 0 <= i -> node t' i = match acc !! i with Some v => v | None => node t i end) ->
  partial_copy T t' /\ forall i, 0 <= i -> known T t i -> known T t' i.
Proof.
  intros (Hl & H0 & Hi) Hg Hl' Hn.
  assert (forall i v, acc !! i = Some v -> v = node T i) as Hv
    by (intros i v E; destruct (Hg i v E) as [H|]; [by rewrite lookup_empty in H|done]).
  assert (forall i, 0 <= i -> known T t i -> known T t' i) as Hk.
  { intros i Hi0 Hki. unfold known. rewrite Hn by done. destruct (acc !! i) eqn:E; [by apply Hv|done]. }
  split; [|done]. split; [by rewrite Hl'|]. split; [by apply Hk|]. intros i. destruct (decide (0 <= i)) as [Hi0|Hneg].
  - destruct (acc !! i) as [v|] eqn:E; [left; unfold known; rewrite Hn, E by done; by apply Hv|].
    destruct (Hi i) as [|E']; [left; by apply Hk|right; by rewrite Hn, E].
  - assert (forall (l : list bytes), node l i = node l 0) as Hneg0 by (intros l; unfold node; by replace (Z.to_nat i) with 0%nat by lia).
    left. unfold known. rewrite !Hneg0. by apply Hk.
Qed.

Section Object.
Variables (o : torrent_object) (piece : Z).
Hypothesis o_leaf : o_merkle_first_leaf o = leaf.
Hypothesis o_copy : partial_copy T (o_merkle_tree o).
Hypothesis piece_ok : 0 <= piece <= leaf.

(** The outcome that [add_merkle_nodes] has when the root comes out. *)
Lemma add_merkle_stored subtree h acc : subtree !! (leaf + piece) = Some h ->
  climb 31 subtree (leaf + piece) h ∅ = Ok (Some (node T 0, acc)) -> gathered ∅ acc ->
  exists o', add_merkle_nodes subtree piece o = Ok (true, o') /\ o_merkle_first_leaf o' = leaf /\
    partial_copy T (o_merkle_tree o') /\ (forall i, 0 <= i -> known T (o_merkle_tree o) i -> known T (o_merkle_tree o') i) /\
    known T (o_merkle_tree o') (leaf + piece).
Proof.
  intros Hh Hc Hg. pose proof (mo_leaf _ _ T_ok) as Hleaf. pose proof (mo_length _ _ T_ok) as Hlen.
  destruct o_copy as (Hl & H0 & _).
  destruct (climb_total subtree 31 (leaf + piece) h ∅ ltac:(lia)) as (r & Hr & Hin); [lia|by intros i v; rewrite lookup_empty|].
  rewrite Hc in Hr. injection Hr as <-. destruct (Hin _ _ eq_refl) as [Hins _].
  destruct (store_nodes_spec (o_merkle_tree o) acc Hl Hins) as (t' & Ht' & Hl' & Hn).
  destruct (store_partial _ _ _ o_copy Hg Hl' Hn) as [Hp Hk].
  exists (set_merkle t' o). unfold add_merkle_nodes. rewrite o_leaf, Hh, Hc. cbn [mbind result_bind].
  destruct (o_merkle_tree o) as [|r0 l0] eqn:Et; [simpl in Hl; lia|]. unfold known in H0. change (node (r0 :: l0) 0) with r0 in H0.
  rewrite bool_decide_true by done. cbn [negb]. rewrite <- Et in *. rewrite Ht'. cbn [mbind result_bind].
  split; [done|]. split; [done|]. split; [done|]. split; [done|].
  change (node t' (leaf + piece) = node T (leaf + piece)). rewrite Hn by lia. destruct (decide (leaf + piece = 0)) as [E0|Hne].
  - rewrite E0. destruct (acc !! 0) as [v|] eqn:E; [|by rewrite Et]. destruct (Hg _ _ E) as [H|]; [by rewrite lookup_empty in H|done].
  - destruct (climb_marks subtree 31 (leaf + piece) h ∅ _ _ _ ltac:(lia) ltac:(lia) ltac:(by intros i v; rewrite lookup_empty) Hc eq_refl) as [v E].
    rewrite E. destruct (Hg _ _ E) as [H|]; [by rewrite lookup_empty in H|done].
Qed.

(** Nodes that come from outside are taken only if they are nodes of the tree, unless
    whoever made them up has found a second message for a digest: whatever a peer sends with
    a piece, [add_merkle_nodes] returns, the tree stays a partial copy of the one that was
    made, what was known stays known, and acceptance means that the leaf of the piece is
    right. *)
Theorem merkle_nodes_sound subtree : (forall x, hash_length (sha1 x)) -> map_Forall (fun _ => hash_length) subtree ->
  unforged T leaf subtree piece ->
  exists ok o', add_merkle_nodes subtree piece o = Ok (ok, o') /\
    o_merkle_first_leaf o' = leaf /\ partial_copy T (o_merkle_tree o') /\ (forall i, 0 <= i -> known T (o_merkle_tree o) i -> known T (o_merkle_tree o') i) /\
    (if ok then known T (o_merkle_tree o') (leaf + piece) /\ subtree !! (leaf + piece) = Some (node T (leaf + piece)) else o' = o).
Proof.
  intros Hsha Hsub Hhon. pose proof (mo_leaf _ _ T_ok) as Hleaf. pose proof (mo_length _ _ T_ok) as Hlen. unfold unforged in Hhon.
  destruct o_copy as (Hl & H0 & _).
  assert (add_merkle_nodes subtree piece o = Ok (false, o) -> exists ok o', add_merkle_nodes subtree piece o = Ok (ok, o') /\
    o_merkle_first_leaf o' = leaf /\ partial_copy T (o_merkle_tree o') /\ (forall i, 0 <= i -> known T (o_merkle_tree o) i -> known T (o_merkle_tree o') i) /\
    (if ok then known T (o_merkle_tree o') (leaf + piece) /\ subtree !! (leaf + piece) = Some (node T (leaf + piece)) else o' = o)) as Hrefuse
    by (intros E; by exists false, o).
  destruct (subtree !! (leaf + piece)) as [h|] eqn:Eh; [|apply Hrefuse; unfold add_merkle_nodes; by rewrite o_leaf, Eh].
  destruct (climb_total subtree 31 (leaf + piece) h ∅ ltac:(lia)) as (r & Hr & _); [lia|by intros i v; rewrite lookup_empty|].
  destruct r as [[root acc]|]; [|apply Hrefuse; unfold add_merkle_nodes; by rewrite o_leaf, Eh, Hr].
  assert (exists r0 l0, o_merkle_tree o = r0 :: l0 /\ r0 = node T 0) as (r0 & l0 & Et & Er0).
  { revert Hl H0. destruct (o_merkle_tree o) as [|r0 l0]; [simpl; lia|]. intros _ E. by exists r0, l0. }
  destruct (decide (root = node T 0)) as [->|Hne].
  2: { apply Hrefuse. unfold add_merkle_nodes. rewrite o_leaf, Eh, Hr. cbn [mbind result_bind]. rewrite Et, bool_decide_false by congruence. done. }
  clear Hrefuse.
  destruct (climb_sound subtree 31 Hsub Hsha (leaf + piece) h ∅ acc ltac:(lia) (Hsub _ _ Eh) Hhon Hr) as [-> Hg].
  destruct (add_merkle_stored subtree _ acc Eh Hr Hg) as (o' & Ho & Hlf & Hp & Hk & Hkn). exists true, o'. by split_and!.
Qed.

(** The nodes one peer gives out for a piece are taken by every other. *)
Theorem merkle_list_complete full : o_merkle_tree full = T -> o_merkle_first_leaf full = leaf ->
  exists L o', build_merkle_list false piece full = Ok L /\
    ((forall i, 0 <= i <= 2 * leaf -> node T i <> no_hash) -> build_merkle_list true piece full = Ok L) /\ add_merkle_nodes L piece o = Ok (true, o') /\
    o_merkle_first_leaf o' = leaf /\ partial_copy T (o_merkle_tree o') /\ known T (o_merkle_tree o') (leaf + piece).
Proof.
  intros HT Hleaf'. pose proof (mo_leaf _ _ T_ok) as Hleaf. pose proof (mo_length _ _ T_ok) as Hlen.
  destruct (siblings_up_spec 31 (leaf + piece) (<[0 := node T 0]> (<[leaf + piece := node T (leaf + piece)]> ∅)))
    as (L & HL & Hv & Hdom & Hc); [lia|lia| |].
  { intros i v. rewrite !lookup_insert, lookup_empty. repeat case_decide; try done; subst i; by intros [= <-]. }
  destruct (Hdom (leaf + piece)) as [h Eh]; [rewrite !lookup_insert; repeat case_decide; by eauto|].
  destruct (Hc ∅) as (acc & Hacc & Hg). rewrite <- (Hv _ _ Eh) in Hacc.
  destruct (add_merkle_stored L h acc Eh Hacc Hg) as (o' & Ho & Hlf & Hp & _ & Hkn). exists L, o'. split_and!; try done; [|intros Hz]; unfold build_merkle_list; rewrite HT, Hleaf', !tree_at_ok by lia; [exact HL|].
  cbn [mbind result_bind]. rewrite siblings_asserted by (done || lia). exact HL.
Qed.
End Object.

(** *** Many nodes, from many peers *)

(** The nodes that come with pieces, one delivery after the other; the pieces whose nodes
    were taken. *)
Fixpoint add_deliveries (deliveries : list (Z * gmap Z bytes)) (o : torrent_object) : result (list Z * torrent_object) :=
  match deliveries with
  | [] => Ok ([], o)
  | (piece, subtree) :: rest =>
      '(ok, o) ← add_merkle_nodes subtree piece o;
      '(taken, o) ← add_deliveries rest o;
      Ok ((if ok : bool then [piece] else []) ++ taken, o)
  end.

Definition delivery_ok (d : Z * gmap Z bytes) : Prop :=
  0 <= d.1 <= leaf /\ map_Forall (fun _ => hash_length) d.2 /\ unforged T leaf d.2 d.1.

Lemma add_deliveries_sound deliveries : (forall x, hash_length (sha1 x)) -> Forall delivery_ok deliveries ->
  forall o, o_merkle_first_leaf o = leaf -> partial_copy T (o_merkle_tree o) ->
  exists taken o', add_deliveries deliveries o = Ok (taken, o') /\
    o_merkle_first_leaf o' = leaf /\ partial_copy T (o_merkle_tree o') /\ (forall i, 0 <= i -> known T (o_merkle_tree o) i -> known T (o_merkle_tree o') i) /\
    Forall (fun p => 0 <= p /\ known T (o_merkle_tree o') (leaf + p)) taken.
Proof.
  intros Hsha Hd. pose proof (mo_leaf _ _ T_ok) as Hleaf. induction Hd as [|[p sub] rest (Hp & Hsub & Hhon) Hd IH]; intros o Ho Hc; cbn [add_deliveries].
  { by exists [], o. }
  destruct (merkle_nodes_sound o p Ho Hc Hp sub Hsha Hsub Hhon) as (ok & o1 & -> & Ho1 & Hc1 & Hk1 & Hok).
  destruct (IH o1 Ho1 Hc1) as (taken & o2 & E2 & Ho2 & Hc2 & Hk2 & Htaken).
  cbn [mbind result_bind]. rewrite E2. cbn [mbind result_bind]. eexists _, o2. split; [done|]. split; [done|]. split; [done|].
  split; [by eauto|]. apply Forall_app. split; [|done]. destruct ok; [|done]. constructor; [|done]. simpl in Hp. split; [lia|]. apply Hk2; [lia|apply Hok].
Qed.
End Tree.

(** ** From the torrent file to a checked piece *)

Lemma nodes_have_length leaf t : merkle_ok leaf t -> (forall x, hash_length (sha1 x)) ->
  (forall p, 0 <= p <= leaf -> hash_length (node t (leaf + p))) -> forall i, 0 <= i <= 2 * leaf -> hash_length (node t i).
Proof.
  intros Hok Hsha Hleaves i Hi. destruct (decide (i < leaf)).
  - rewrite (mo_hash _ _ Hok) by lia. apply Hsha.
  - replace i with (leaf + (i - leaf)) by lia. apply Hleaves. lia.
Qed.

(** What reading a root hash leaves is a partial copy of the tree with that root. *)
Lemma parse_root_hash info l num_pieces max_pieces T leafs o : denotes info (BDict l) -> string_of (bytes_of_string "pieces") l = None ->
  string_of (bytes_of_string "root hash") l = Some (node T 0) -> hash_length (node T 0) -> 0 < num_pieces < 107374182 ->
  num_pieces <= max_pieces -> merkle_num_leafs num_pieces = Ok leafs -> merkle_ok (leafs - 1) T ->
  exists o', parse_hashes info num_pieces max_pieces o = Ok (inr o') /\ o_merkle_first_leaf o' = leafs - 1 /\ partial_copy T (o_merkle_tree o').
Proof.
  intros Hd Hno Hroot Hlen Hn Hmax Hleafs Hok. pose proof (mo_leaf _ _ Hok) as Hl. pose proof (mo_length _ _ Hok) as HlT.
  unfold parse_hashes. destruct (dict_find_string_node info l (bytes_of_string "pieces") Hd) as (c & -> & Hc).
  destruct (dict_find_string_node info l (bytes_of_string "root hash") Hd) as (d & -> & Hds). rewrite Hno in Hc. rewrite Hroot in Hds.
  destruct Hds as (_ & Hdb & Hdv & Hdl). cbn [mbind result_bind]. rewrite Hc, Hdb. cbn [negb andb].
  change ((2 ^ 31 - 1) / 20) with 107374182. rewrite (proj2 (Z.leb_gt 107374182 _)), (proj2 (Z.ltb_ge max_pieces _)) by lia. cbn [orb].
  rewrite Hdl. unfold hash_length in Hlen. rewrite Hlen. cbn [mbind result_bind negb Z.eqb Z.of_nat Pos.of_succ_nat Pos.succ Pos.eqb].
  rewrite (proj2 (Z.leb_gt num_pieces 0)) by lia. rewrite Hleafs, Hdv. cbn [mbind result_bind]. unfold merkle_num_nodes.
  rewrite Z.shiftl_mul_pow2 by lia. change (2 ^ 1) with 2. eexists. split; [done|]. cbn [o_merkle_first_leaf o_merkle_tree set_piece_hashes].
  split; [lia|]. split; [rewrite length_insert, length_replicate; lia|]. unfold known.
  assert (forall i, node (<[0%nat := node T 0]> (replicate (Z.to_nat (leafs * 2 - 1)) no_hash)) i =
    if decide (Z.to_nat i = 0%nat) then node T 0 else if decide (i < 2 * leafs - 1) then no_hash else []) as Hnode.
  { intros i. unfold node at 1. rewrite nth_lookup. destruct (Z.to_nat i) as [|m] eqn:Em.
    - rewrite list_lookup_insert_eq by (rewrite length_replicate; lia). done.
    - rewrite list_lookup_insert_ne by done. rewrite decide_False by done. destruct (decide _).
      + rewrite lookup_replicate_2 by lia. done.
      + rewrite lookup_ge_None_2 by (rewrite length_replicate; lia). done. }
  split; [by rewrite Hnode|]. intros i. rewrite Hnode. case_decide as E0; [left; unfold node; by rewrite E0|]. case_decide; [by right|left].
  unfold node. rewrite nth_overflow by lia. done.
Qed.

Lemma hash_for_piece_node o p : 0 <= o_merkle_first_leaf o + p < Z.of_nat (length (o_merkle_tree o)) ->
  hash_for_piece o p = node (o_merkle_tree o) (o_merkle_first_leaf o + p).
Proof.
  intros Hi. unfold hash_for_piece, node. destruct (o_merkle_tree o) as [|r t] eqn:E; [simpl in Hi; lia|]. rewrite <- E in *.
  rewrite (proj2 (Z.ltb_ge _ _)) by lia. rewrite nth_lookup. destruct (lookup_lt_is_Some_2 (o_merkle_tree o) (Z.to_nat (o_merkle_first_leaf o + p))) as [h ->]; [lia|done].
Qed.

(** C35: The root hash in a torrent file stands for all hashes of its pieces: a [torrent_info]
    read from it, after whatever nodes have been sent to it, has the hash the torrent was
    made with for every piece whose nodes it took, and it takes the nodes that an owner of
    the tree gives out for a piece - as long as nobody has sent it a forgery (a second message
    for one of the digests).  A build that checks assertions gives the nodes out where the tree
    has no node of zeros; padding leaves are such nodes ([padding_asserted]). *)
Theorem root_hash_suffices hashes T info l max_pieces o deliveries full leafs :
  (forall x, hash_length (sha1 x)) -> Forall hash_length hashes ->
  0 < Z.of_nat (length hashes) < 107374182 -> Z.of_nat (length hashes) <= max_pieces -> merkle_tree_of hashes = Ok T ->
  merkle_num_leafs (Z.of_nat (length hashes)) = Ok leafs -> denotes info (BDict l) ->
  string_of (bytes_of_string "pieces") l = None -> string_of (bytes_of_string "root hash") l = Some (node T 0) ->
  Forall (delivery_ok (leafs - 1) T) deliveries -> o_merkle_tree full = T -> o_merkle_first_leaf full = leafs - 1 ->
  exists o0, parse_hashes info (Z.of_nat (length hashes)) max_pieces o = Ok (inr o0) /\
    exists taken o1, add_deliveries deliveries o0 = Ok (taken, o1) /\
      Forall (fun p => forall h, hashes !! Z.to_nat p = Some h -> hash_for_piece o1 p = h) taken /\
      forall p h, hashes !! Z.to_nat p = Some h -> 0 <= p -> exists L o2,
        build_merkle_list false p full = Ok L /\
        ((forall i, 0 <= i <= 2 * (leafs - 1) -> node T i <> no_hash) -> build_merkle_list true p full = Ok L) /\ add_merkle_nodes L p o1 = Ok (true, o2) /\ hash_for_piece o2 p = h.
Proof.
  intros Hsha Hh Hn Hmax HT Hleafs Hd Hno Hroot Hds HfT Hfl.
  destruct (created_tree_ok hashes) as (T' & leafs' & HT' & Hl' & Hok & Hle & Hleaves); [intros ->; simpl in Hn; lia|lia|].
  rewrite HT in HT'. injection HT' as <-. rewrite Hleafs in Hl'. injection Hl' as <-.
  assert (forall i, 0 <= i <= 2 * (leafs - 1) -> length (node T i) = 20%nat) as Hlens.
  { apply nodes_have_length; [done|done|]. intros p Hp. rewrite Hleaves by lia. destruct (nth_in_or_default (Z.to_nat p) hashes no_hash) as [Hin|Hz];
      [|by rewrite Hz]. rewrite Forall_forall in Hh. apply Hh. by apply list_elem_of_In. }
  assert (forall o' p h, o_merkle_first_leaf o' = leafs - 1 -> partial_copy T (o_merkle_tree o') -> 0 <= p -> hashes !! Z.to_nat p = Some h ->
    known T (o_merkle_tree o') (leafs - 1 + p) -> hash_for_piece o' p = h) as Hhash.
  { intros o' p h Hf [Hl _] Hp Hph Hk. pose proof (mo_length _ _ Hok). pose proof (lookup_lt_Some _ _ _ Hph). rewrite hash_for_piece_node, Hf by (rewrite ?Hf; lia). rewrite Hk. rewrite Hleaves by lia. by rewrite nth_lookup, Hph. }
  destruct (parse_root_hash info l (Z.of_nat (length hashes)) max_pieces T leafs o Hd Hno Hroot) as (o0 & Ho0 & Hf0 & Hc0); try done; [apply Hlens; lia|].
  exists o0. split; [done|].
  destruct (add_deliveries_sound (leafs - 1) T Hok Hlens deliveries Hsha Hds o0 Hf0 Hc0) as (taken & o1 & Ho1 & Hf1 & Hc1 & _ & Ht).
  exists taken, o1. split; [done|]. split.
  - eapply Forall_impl; [exact Ht|]. intros p [Hp Hk] h Hph. by eapply Hhash.
  - intros p h Hph Hp. pose proof (lookup_lt_Some _ _ _ Hph).
    destruct (merkle_list_complete (leafs - 1) T Hok o1 p Hf1 Hc1 ltac:(lia) full HfT Hfl) as (L & o2 & HL & HL2 & Ho2 & Hf2 & Hc2 & Hk2).
    exists L, o2. split; [done|]. split; [done|]. split; [done|]. by eapply Hhash.
Qed.
End Merkle.

(** ** A sample: three pieces, and so four leaves *)

#[local] Instance no_past_end : PastEnd := fun _ _ => 0.

Definition three_hashes : list bytes := map (fun x => fips_sha1 [x]) [1; 2; 3].
Definition sample_tree : list bytes := ok_or [] (merkle_tree_of (SHA := fips_sha1) three_hashes).
Definition owner : torrent_object := set_merkle sample_tree (set_piece_hashes None [] 3 object_empty).
Definition reader : torrent_object :=
  set_merkle (node sample_tree 0 :: replicate 6 no_hash) (set_piece_hashes None [] 3 object_empty).
Definition good_nodes : gmap Z bytes := ok_or ∅ (build_merkle_list false 1 owner).
Definition bad_nodes : gmap Z bytes := <[4 := no_hash]> good_nodes.

Lemma created_tree_ok_witness : exists (t : list bytes) (leafs : Z), merkle_tree_of (SHA := fips_sha1) three_hashes = Ok t /\
  merkle_num_leafs 3 = Ok leafs /\ merkle_ok (SHA := fips_sha1) (leafs - 1) t /\ 3 <= leafs /\
  forall p, 0 <= p < leafs -> node t (leafs - 1 + p) = nth (Z.to_nat p) three_hashes no_hash.
Proof. apply (created_tree_ok (SHA := fips_sha1) three_hashes); [done|by vm_compute]. Defined.

Lemma sample_tree_ok : merkle_ok (SHA := fips_sha1) 3 sample_tree.
Proof.
  assert (length sample_tree = 7%nat) as Hl by (by vm_compute). split; [by vm_compute|by rewrite Hl|]. intros i Hi.
  assert (i = 0 \/ i = 1 \/ i = 2) as [->|[->| ->]] by lia; by vm_compute.
Qed.

Lemma sample_tree_hashes i : 0 <= i <= 2 * 3 -> length (node sample_tree i) = 20%nat.
Proof.
  intros Hi. assert (Forall (fun h => length h = 20%nat) sample_tree) as Hall by decide_by_computation.
  unfold node. apply (proj1 (List.Forall_nth _ _) Hall). assert (length sample_tree = 7%nat) as -> by (by vm_compute). lia.
Qed.

Lemma reader_copy : partial_copy sample_tree (o_merkle_tree reader).
Proof.
  split; [by vm_compute|]. split; [by vm_compute|]. intros i. destruct (decide (Z.to_nat i < 7)%nat) as [Hlt|Hge].
  - destruct (Z.to_nat i) as [|k] eqn:E; [left; unfold known, node; by rewrite E|right]. unfold node. rewrite E.
    do 6 (destruct k as [|k]; [done|]). lia.
  - left. unfold known, node. rewrite !nth_overflow; [done| |by simpl; lia]. assert (length sample_tree = 7%nat) as -> by (by vm_compute). lia.
Qed.

(** The leaf beside the third of three pieces is padding, which is zero, so that the assertion
    fails which is to say that no node is missing, though the tree has them all. *)
Lemma padding_asserted : o_merkle_tree owner = sample_tree /\ (exists L, build_merkle_list false 2 owner = Ok L) /\
  build_merkle_list true 2 owner = Fault AssertionFailed.
Proof. split_and!; [done|eexists; by vm_compute|by vm_compute]. Qed.

(** With a wrong leaf the nodes are refused; the nodes of piece 1 do for piece 0 too. *)
Example deliveries_taken :
  (ok_or ([], reader) (add_deliveries (SHA := fips_sha1) [(1, bad_nodes); (1, good_nodes); (0, good_nodes)] reader)).1 = [1; 0].
Proof. by vm_compute. Qed.

Lemma merkle_nodes_sound_witness : exists ok o',
  add_merkle_nodes (SHA := fips_sha1) bad_nodes 1 reader = Ok (ok, o') /\ o_merkle_first_leaf o' = 3 /\
  partial_copy sample_tree (o_merkle_tree o') /\
  (forall i, 0 <= i -> known sample_tree (o_merkle_tree reader) i -> known sample_tree (o_merkle_tree o') i) /\
  (if ok then known sample_tree (o_merkle_tree o') (3 + 1) /\ bad_nodes !! (3 + 1) = Some (node sample_tree (3 + 1)) else o' = reader).
Proof.
  apply (merkle_nodes_sound (SHA := fips_sha1) 3 sample_tree sample_tree_ok sample_tree_hashes reader 1 eq_refl reader_copy).
  - lia.
  - exact fips_sha1_length.
  - unfold hash_length. decide_by_computation.
  - unfold unforged, honest. decide_by_computation.
Defined.

Lemma merkle_list_complete_witness : exists L o', build_merkle_list false 1 owner = Ok L /\
  ((forall i, 0 <= i <= 2 * 3 -> node sample_tree i <> no_hash) -> build_merkle_list true 1 owner = Ok L) /\ add_merkle_nodes (SHA := fips_sha1) L 1 reader = Ok (true, o') /\ o_merkle_first_leaf o' = 3 /\
  partial_copy sample_tree (o_merkle_tree o') /\ known sample_tree (o_merkle_tree o') (3 + 1).
Proof.
  apply (merkle_list_complete (SHA := fips_sha1) 3 sample_tree sample_tree_ok reader 1 eq_refl reader_copy); [lia|done|done].
Defined.

Definition root_pairs : list (bytes * bvalue) := [(bytes_of_string "root hash", BStr (node sample_tree 0))].

Lemma root_node_denotes : exists info, denotes info (BDict root_pairs).
Proof.
  destruct (encode_plain (EDict [(bytes_of_string "root hash", EStr (node sample_tree 0))]) ltac:(by vm_compute)) as (text & Ht & Hi).
  assert (text = (ok_or ([], 0) (bencode (EDict [(bytes_of_string "root hash", EStr (node sample_tree 0))]))).1) as E
    by (unfold bencode; by rewrite Ht).
  assert (Z.of_nat (length text) <= 1000) as Hl by (rewrite E; by vm_compute).
  destruct (Hi ltac:(unfold max_offset; lia) 0) as [ts Hts]. exists (root_node (text ++ []) text ts). apply root_denotes; [exact Hts|].
  rewrite app_nil_r. unfold max_offset. lia.
Qed.

Lemma root_hash_suffices_witness : exists info, denotes info (BDict root_pairs) /\
  exists o0, parse_hashes info 3 default_piece_limit object_empty = Ok (inr o0) /\
    exists taken o1,
      add_deliveries (SHA := fips_sha1) [(1, bad_nodes); (1, good_nodes); (0, good_nodes)] o0 = Ok (taken, o1) /\
      Forall (fun p => forall h, three_hashes !! Z.to_nat p = Some h -> hash_for_piece o1 p = h) taken /\
      forall p h, three_hashes !! Z.to_nat p = Some h -> 0 <= p -> exists L o2,
        build_merkle_list false p owner = Ok L /\
        ((forall i, 0 <= i <= 2 * (4 - 1) -> node sample_tree i <> no_hash) -> build_merkle_list true p owner = Ok L) /\ add_merkle_nodes (SHA := fips_sha1) L p o1 = Ok (true, o2) /\ hash_for_piece o2 p = h.
Proof.
  destruct root_node_denotes as [info Hd]. exists info. split; [exact Hd|].
  apply (root_hash_suffices (SHA := fips_sha1) three_hashes sample_tree info root_pairs default_piece_limit object_empty
    [(1, bad_nodes); (1, good_nodes); (0, good_nodes)] owner 4).
  - exact fips_sha1_length.
  - unfold hash_length. decide_by_computation.
  - simpl. lia.
  - simpl. unfold default_piece_limit. lia.
  - by vm_compute.
  - by vm_compute.
  - exact Hd.
  - by vm_compute.
  - by vm_compute.
  - repeat apply Forall_cons_2; [..|apply Forall_nil_2]; (split_and!; [simpl; lia|simpl; lia|unfold hash_length; decide_by_computation|unfold unforged, honest; decide_by_computation]).
  - by vm_compute.
  - by vm_compute.
Defined.
