(* ===== verification/CreateTorrent.v ===== *)
(** * Making a torrent file

    [create_torrent] ([extern/libtorrent/src/create_torrent.cpp]) takes a list of files, lays them out in pieces,
    is told the hashes of the pieces, the trackers and the rest, and generates the dictionary
    that is the torrent file once it is encoded.  The list of files belongs to the caller, who
    sees what happens to it; here it is a field.  Reading the files and their names from the
    disk ([add_files], [set_piece_hashes]) is not modelled. *)

From stdpp Require Import sorting.
From S2P Require Import Prelude MsgFactory Net Storage Sha1 Sha1Spec Bdecode BdecodeSpec BdecodeNodes Paths FileStorage Symlinks.
From S2P Require Import Entry EntrySpec TorrentFiles Magnet TorrentExtras TorrentInfo Merkle Reorder.

(** ** What is kept *)

(** [extern/libtorrent/include/libtorrent/create_torrent.hpp:296-360] create_torrent *)
Record create_torrent := mk_ct {
  ct_files : file_storage;
  ct_info_dict : entry;
  ct_urls : list (bytes * Z);
  ct_url_seeds : list bytes;
  ct_http_seeds : list bytes;
  ct_piece_hash : list bytes;
  ct_filehashes : list bytes;
  ct_similar : list bytes;
  ct_collections : list bytes;
  ct_merkle_tree : list bytes;
  ct_nodes : list (bytes * Z);
  ct_creation_date : Z;
  ct_comment : bytes;
  ct_created_by : bytes;
  ct_root_cert : bytes;
  ct_multifile : bool;
  ct_private : bool;
  ct_merkle_torrent : bool;
  ct_include_mtime : bool;
  ct_include_symlinks : bool;
}.

Definition set_ct_files (v : file_storage) (c : create_torrent) : create_torrent :=
  mk_ct v (ct_info_dict c) (ct_urls c) (ct_url_seeds c) (ct_http_seeds c) (ct_piece_hash c) (ct_filehashes c) (ct_similar c)
    (ct_collections c) (ct_merkle_tree c) (ct_nodes c) (ct_creation_date c) (ct_comment c) (ct_created_by c) (ct_root_cert c)
    (ct_multifile c) (ct_private c) (ct_merkle_torrent c) (ct_include_mtime c) (ct_include_symlinks c).
Definition set_ct_info_dict (v : entry) (c : create_torrent) : create_torrent :=
  mk_ct (ct_files c) v (ct_urls c) (ct_url_seeds c) (ct_http_seeds c) (ct_piece_hash c) (ct_filehashes c) (ct_similar c)
    (ct_collections c) (ct_merkle_tree c) (ct_nodes c) (ct_creation_date c) (ct_comment c) (ct_created_by c) (ct_root_cert c)
    (ct_multifile c) (ct_private c) (ct_merkle_torrent c) (ct_include_mtime c) (ct_include_symlinks c).
Definition set_ct_urls (v : list (bytes * Z)) (c : create_torrent) : create_torrent :=
  mk_ct (ct_files c) (ct_info_dict c) v (ct_url_seeds c) (ct_http_seeds c) (ct_piece_hash c) (ct_filehashes c) (ct_similar c)
    (ct_collections c) (ct_merkle_tree c) (ct_nodes c) (ct_creation_date c) (ct_comment c) (ct_created_by c) (ct_root_cert c)
    (ct_multifile c) (ct_private c) (ct_merkle_torrent c) (ct_include_mtime c) (ct_include_symlinks c).
Definition set_ct_url_seeds (v : list bytes) (c : create_torrent) : create_torrent :=
  mk_ct (ct_files c) (ct_info_dict c) (ct_urls c) v (ct_http_seeds c) (ct_piece_hash c) (ct_filehashes c) (ct_similar c)
    (ct_collections c) (ct_merkle_tree c) (ct_nodes c) (ct_creation_date c) (ct_comment c) (ct_created_by c) (ct_root_cert c)
    (ct_multifile c) (ct_private c) (ct_merkle_torrent c) (ct_include_mtime c) (ct_include_symlinks c).
Definition set_ct_http_seeds (v : list bytes) (c : create_torrent) : create_torrent :=
  mk_ct (ct_files c) (ct_info_dict c) (ct_urls c) (ct_url_seeds c) v (ct_piece_hash c) (ct_filehashes c) (ct_similar c)
    (ct_collections c) (ct_merkle_tree c) (ct_nodes c) (ct_creation_date c) (ct_comment c) (ct_created_by c) (ct_root_cert c)
    (ct_multifile c) (ct_private c) (ct_merkle_torrent c) (ct_include_mtime c) (ct_include_symlinks c).
Definition set_ct_piece_hash (v : list bytes) (c : create_torrent) : create_torrent :=
  mk_ct (ct_files c) (ct_info_dict c) (ct_urls c) (ct_url_seeds c) (ct_http_seeds c) v (ct_filehashes c) (ct_similar c)
    (ct_collections c) (ct_merkle_tree c) (ct_nodes c) (ct_creation_date c) (ct_comment c) (ct_created_by c) (ct_root_cert c)
    (ct_multifile c) (ct_private c) (ct_merkle_torrent c) (ct_include_mtime c) (ct_include_symlinks c).
Definition set_ct_filehashes (v : list bytes) (c : create_torrent) : create_torrent :=
  mk_ct (ct_files c) (ct_info_dict c) (ct_urls c) (ct_url_seeds c) (ct_http_seeds c) (ct_piece_hash c) v (ct_similar c)
    (ct_collections c) (ct_merkle_tree c) (ct_nodes c) (ct_creation_date c) (ct_comment c) (ct_created_by c) (ct_root_cert c)
    (ct_multifile c) (ct_private c) (ct_merkle_torrent c) (ct_include_mtime c) (ct_include_symlinks c).
Definition set_ct_similar (v : list bytes) (c : create_torrent) : create_torrent :=
  mk_ct (ct_files c) (ct_info_dict c) (ct_urls c) (ct_url_seeds c) (ct_http_seeds c) (ct_piece_hash c) (ct_filehashes c) v
    (ct_collections c) (ct_merkle_tree c) (ct_nodes c) (ct_creation_date c) (ct_comment c) (ct_created_by c) (ct_root_cert c)
    (ct_multifile c) (ct_private c) (ct_merkle_torrent c) (ct_include_mtime c) (ct_include_symlinks c).
Definition set_ct_collections (v : list bytes) (c : create_torrent) : create_torrent :=
  mk_ct (ct_files c) (ct_info_dict c) (ct_urls c) (ct_url_seeds c) (ct_http_seeds c) (ct_piece_hash c) (ct_filehashes c)
    (ct_similar c) v (ct_merkle_tree c) (ct_nodes c) (ct_creation_date c) (ct_comment c) (ct_created_by c) (ct_root_cert c)
    (ct_multifile c) (ct_private c) (ct_merkle_torrent c) (ct_include_mtime c) (ct_include_symlinks c).
Definition set_ct_merkle_tree (v : list bytes) (c : create_torrent) : create_torrent :=
  mk_ct (ct_files c) (ct_info_dict c) (ct_urls c) (ct_url_seeds c) (ct_http_seeds c) (ct_piece_hash c) (ct_filehashes c)
    (ct_similar c) (ct_collections c) v (ct_nodes c) (ct_creation_date c) (ct_comment c) (ct_created_by c) (ct_root_cert c)
    (ct_multifile c) (ct_private c) (ct_merkle_torrent c) (ct_include_mtime c) (ct_include_symlinks c).
Definition set_ct_nodes (v : list (bytes * Z)) (c : create_torrent) : create_torrent :=
  mk_ct (ct_files c) (ct_info_dict c) (ct_urls c) (ct_url_seeds c) (ct_http_seeds c) (ct_piece_hash c) (ct_filehashes c)
    (ct_similar c) (ct_collections c) (ct_merkle_tree c) v (ct_creation_date c) (ct_comment c) (ct_created_by c)
    (ct_root_cert c) (ct_multifile c) (ct_private c) (ct_merkle_torrent c) (ct_include_mtime c) (ct_include_symlinks c).
Definition set_ct_creation_date (v : Z) (c : create_torrent) : create_torrent :=
  mk_ct (ct_files c) (ct_info_dict c) (ct_urls c) (ct_url_seeds c) (ct_http_seeds c) (ct_piece_hash c) (ct_filehashes c)
    (ct_similar c) (ct_collections c) (ct_merkle_tree c) (ct_nodes c) v (ct_comment c) (ct_created_by c) (ct_root_cert c)
    (ct_multifile c) (ct_private c) (ct_merkle_torrent c) (ct_include_mtime c) (ct_include_symlinks c).
Definition set_ct_comment (v : bytes) (c : create_torrent) : create_torrent :=
  mk_ct (ct_files c) (ct_info_dict c) (ct_urls c) (ct_url_seeds c) (ct_http_seeds c) (ct_piece_hash c) (ct_filehashes c)
    (ct_similar c) (ct_collections c) (ct_merkle_tree c) (ct_nodes c) (ct_creation_date c) v (ct_created_by c) (ct_root_cert c)
    (ct_multifile c) (ct_private c) (ct_merkle_torrent c) (ct_include_mtime c) (ct_include_symlinks c).
Definition set_ct_created_by (v : bytes) (c : create_torrent) : create_torrent :=
  mk_ct (ct_files c) (ct_info_dict c) (ct_urls c) (ct_url_seeds c) (ct_http_seeds c) (ct_piece_hash c) (ct_filehashes c)
    (ct_similar c) (ct_collections c) (ct_merkle_tree c) (ct_nodes c) (ct_creation_date c) (ct_comment c) v (ct_root_cert c)
    (ct_multifile c) (ct_private c) (ct_merkle_torrent c) (ct_include_mtime c) (ct_include_symlinks c).
Definition set_ct_root_cert (v : bytes) (c : create_torrent) : create_torrent :=
  mk_ct (ct_files c) (ct_info_dict c) (ct_urls c) (ct_url_seeds c) (ct_http_seeds c) (ct_piece_hash c) (ct_filehashes c)
    (ct_similar c) (ct_collections c) (ct_merkle_tree c) (ct_nodes c) (ct_creation_date c) (ct_comment c) (ct_created_by c) v
    (ct_multifile c) (ct_private c) (ct_merkle_torrent c) (ct_include_mtime c) (ct_include_symlinks c).
Definition set_ct_multifile (v : bool) (c : create_torrent) : create_torrent :=
  mk_ct (ct_files c) (ct_info_dict c) (ct_urls c) (ct_url_seeds c) (ct_http_seeds c) (ct_piece_hash c) (ct_filehashes c)
    (ct_similar c) (ct_collections c) (ct_merkle_tree c) (ct_nodes c) (ct_creation_date c) (ct_comment c) (ct_created_by c)
    (ct_root_cert c) v (ct_private c) (ct_merkle_torrent c) (ct_include_mtime c) (ct_include_symlinks c).
Definition set_ct_private (v : bool) (c : create_torrent) : create_torrent :=
  mk_ct (ct_files c) (ct_info_dict c) (ct_urls c) (ct_url_seeds c) (ct_http_seeds c) (ct_piece_hash c) (ct_filehashes c)
    (ct_similar c) (ct_collections c) (ct_merkle_tree c) (ct_nodes c) (ct_creation_date c) (ct_comment c) (ct_created_by c)
    (ct_root_cert c) (ct_multifile c) v (ct_merkle_torrent c) (ct_include_mtime c) (ct_include_symlinks c).

(** ** The flags *)

(** [extern/libtorrent/include/libtorrent/create_torrent.hpp:108-108] create_torrent::optimize_alignment *)
Definition optimize_alignment : Z := 1.
(** [extern/libtorrent/include/libtorrent/create_torrent.hpp:122-122] create_torrent::merkle *)
Definition flag_merkle : Z := 2.
(** [extern/libtorrent/include/libtorrent/create_torrent.hpp:130-130] create_torrent::modification_time *)
Definition modification_time : Z := 4.
(** [extern/libtorrent/include/libtorrent/create_torrent.hpp:136-136] create_torrent::symlinks *)
Definition flag_symlinks : Z := 8.
(** [extern/libtorrent/include/libtorrent/create_torrent.hpp:143-143] create_torrent::mutable_torrent_support *)
Definition mutable_torrent_support : Z := 16.

(** [std::sort] by the tier; the order of equal tiers is not specified. *)
Class UrlSort := url_sort : list (bytes * Z) -> list (bytes * Z).
Class UrlSortLaws (US : UrlSort) := {
  url_sort_permutes : forall l, url_sort l ≡ₚ l;
  url_sort_sorted : forall l, StronglySorted (fun a b => a.2 <= b.2) (url_sort l);
}.

(** ** The operations *)

(** [extern/libtorrent/src/create_torrent.cpp:711-714] create_torrent::set_root_cert *)
Definition set_root_cert (cert : bytes) (c : create_torrent) : create_torrent := set_ct_root_cert cert c.

(** [extern/libtorrent/src/create_torrent.cpp:716-719] create_torrent::add_similar_torrent *)
Definition add_similar_torrent (ih : bytes) (c : create_torrent) : create_torrent := set_ct_similar (ct_similar c ++ [ih]) c.

(** [extern/libtorrent/src/create_torrent.cpp:721-724] create_torrent::add_collection *)
Definition add_collection (s : bytes) (c : create_torrent) : create_torrent := set_ct_collections (ct_collections c ++ [s]) c.

(** [extern/libtorrent/src/create_torrent.cpp:730-730] create_torrent::set_hash
    [l[index] = v] *)
Definition assign_at {A} (index : Z) (v : A) (l : list A) : result (list A) :=
  if (0 <=? index) && (index <? Z.of_nat (length l)) then Ok (<[Z.to_nat index := v]> l) else Fault BadPrecondition.

(** [extern/libtorrent/src/create_torrent.cpp:726-731] create_torrent::set_hash *)
Definition set_hash (index : Z) (h : bytes) (c : create_torrent) : result create_torrent :=
  hashes ← assign_at index h (ct_piece_hash c); Ok (set_ct_piece_hash hashes c).

(** [extern/libtorrent/src/create_torrent.cpp:733-739] create_torrent::set_file_hash *)
Definition set_file_hash (index : Z) (h : bytes) (c : create_torrent) : result create_torrent :=
  let filehashes := match ct_filehashes c with [] => replicate (length (m_files (ct_files c))) no_hash | l => l end in
  filehashes ← assign_at index h filehashes; Ok (set_ct_filehashes filehashes c).

(** [extern/libtorrent/src/create_torrent.cpp:741-744] create_torrent::add_node *)
Definition add_node (node : bytes * Z) (c : create_torrent) : create_torrent := set_ct_nodes (ct_nodes c ++ [node]) c.

(** [extern/libtorrent/src/create_torrent.cpp:746-749] create_torrent::add_url_seed *)
Definition add_url_seed (url : bytes) (c : create_torrent) : create_torrent := set_ct_url_seeds (ct_url_seeds c ++ [url]) c.

(** [extern/libtorrent/src/create_torrent.cpp:751-754] create_torrent::add_http_seed *)
Definition add_http_seed (url : bytes) (c : create_torrent) : create_torrent := set_ct_http_seeds (ct_http_seeds c ++ [url]) c.

(** [extern/libtorrent/src/create_torrent.cpp:756-760] create_torrent::set_comment
    No string clears the comment; a string ends at its first NUL. *)
Definition set_comment (str : option bytes) (c : create_torrent) : create_torrent :=
  set_ct_comment (match str with None => [] | Some s => c_str s end) c.

(** [extern/libtorrent/src/create_torrent.cpp:762-766] create_torrent::set_creator *)
Definition set_creator (str : option bytes) (c : create_torrent) : create_torrent :=
  set_ct_created_by (match str with None => [] | Some s => c_str s end) c.

(** [extern/libtorrent/include/libtorrent/create_torrent.hpp:263-263] create_torrent::set_priv *)
Definition set_priv (p : bool) (c : create_torrent) : create_torrent := set_ct_private p c.

(** ** Reading the list of files *)

(** [extern/libtorrent/src/file_storage.cpp:879-887] file_storage::file_flags *)
Definition file_flags (e : internal_file_entry) : Z :=
  Z.lor (Z.lor (Z.lor (if if_pad_file e then flag_pad_file else 0) (if if_hidden_attribute e then flag_hidden else 0))
    (if if_executable_attribute e then flag_executable else 0)) (if if_symlink_attribute e then flag_symlink else 0).

(** [extern/libtorrent/src/file_storage.cpp:676-680] file_storage::mtime *)
Definition file_mtime (fs : file_storage) (i : nat) : Z := nth i (m_mtime fs) 0.

(** [extern/libtorrent/src/file_storage.cpp:657-674] file_storage::symlink
    The target with the name of the torrent before it. *)
Definition file_symlink (fs : file_storage) (e : internal_file_entry) : result bytes :=
  match m_symlinks fs !! Z.to_nat (if_symlink_index e) with
  | Some link => Ok (append_path (m_name fs) link)
  | None => Fault BadPrecondition
  end.

(** ** The constructors *)

(** [extern/libtorrent/include/libtorrent/disk_interface.hpp:62-62] default_block_size *)
Definition default_block_size : Z := 16384.

(** [extern/libtorrent/src/create_torrent.cpp:367-377] create_torrent::create_torrent *)
Definition size_table : list Z :=
  [2684355; 10737418; 42949673; 171798692; 687194767; 2748779069; 10995116278; 43980465111; 175921860444; 703687441777].

(** [extern/libtorrent/src/create_torrent.cpp:379-384] create_torrent::create_torrent *)
Fixpoint size_steps (total : Z) (table : list Z) (i : Z) : Z :=
  match table with
  | [] => i
  | s :: table' => if total <=? s then i else size_steps total table' (i + 1)
  end.

(** [extern/libtorrent/src/create_torrent.cpp:359-390] create_torrent::create_torrent
    The size of a piece: as it is given, or one that fits the total size. *)
Definition choose_piece_size (piece_size total : Z) (merkle_torrent : bool) : Z :=
  if (piece_size =? 0) && negb merkle_torrent then Z.shiftl default_block_size (size_steps total size_table 0)
  else if (piece_size =? 0) && merkle_torrent then 64 * 1024
  else piece_size.

(** [extern/libtorrent/src/create_torrent.cpp:343-351] create_torrent::create_torrent
    The members as they are initialized; [now] is the time. *)
Definition ct_initial (fs : file_storage) (flags now : Z) : create_torrent :=
  mk_ct fs EUndefined [] [] [] [] [] [] [] [] [] now [] [] [] (1 <? Z.of_nat (length (m_files fs))) false
    (has_flag flags flag_merkle) (has_flag flags modification_time) (has_flag flags flag_symlinks).

(** [extern/libtorrent/src/create_torrent.cpp:343-409] create_torrent::create_torrent
    [resize] to a negative size is [std::length_error]. *)
Definition ct_create (fs : file_storage) (piece_size pad_file_limit flags alignment now : Z) : result create_torrent :=
  let c := ct_initial fs flags now in
  match m_files fs with
  | [] => Ok c
  | first :: _ =>
      if m_total_size fs =? 0 then Ok c
      else
        let c := if negb (ct_multifile c) && has_parent_path (file_path fs first) then set_ct_multifile true c else c in
        let piece_size := choose_piece_size piece_size (m_total_size fs) (ct_merkle_torrent c) in
        let alignment := if has_flag flags mutable_torrent_support then piece_size else alignment in
        let files := set_piece_length piece_size fs in
        files ← (if has_flag flags (Z.lor optimize_alignment mutable_torrent_support)
                 then optimize pad_file_limit alignment (has_flag flags mutable_torrent_support) files else Ok files);
        if m_piece_length files =? 0 then Fault DivisionByZero
        else
          let num_pieces := count_pieces files in
          if num_pieces <? 0 then Fault BadPrecondition
          else Ok (set_ct_piece_hash (replicate (Z.to_nat num_pieces) no_hash) (set_ct_files (set_num_pieces num_pieces files) c))
  end.

Section Create.
Context {US : UrlSort} {PE : PastEnd}.

(** [extern/libtorrent/src/create_torrent.cpp:698-709] create_torrent::add_tracker
    A URL that is there already is left out. *)
Definition add_tracker (url : bytes) (tier : Z) (c : create_torrent) : create_torrent :=
  if existsb (fun ae => bool_decide (ae.1 = url)) (ct_urls c) then c
  else set_ct_urls (url_sort (ct_urls c ++ [(url, tier)])) c.

(** [extern/libtorrent/src/create_torrent.cpp:437-443] create_torrent::create_torrent *)
Definition add_seed (c : create_torrent) (s : web_seed_entry) : create_torrent :=
  match ws_type s with url_seed => add_url_seed (ws_url s) c | http_seed => add_http_seed (ws_url s) c end.

(** [extern/libtorrent/src/create_torrent.cpp:411-452] create_torrent::create_torrent
    From a torrent that was read; [metadata] is its info section as it stood in the file. *)
Definition ct_from_info (ti : torrent_object) (metadata : bytes) (now : Z) : create_torrent :=
  let x := o_extras ti in
  let files := o_files ti in
  let c := mk_ct files EUndefined [] [] [] [] [] [] [] [] [] now [] [] [] (1 <? Z.of_nat (length (m_files files))) (o_private ti)
    (negb (bool_decide (o_merkle_tree ti = []))) false false in
  if negb (0 <? m_piece_length files) then c
  else
    let c := if 0 <? x_creation_date x then set_ct_creation_date (x_creation_date x) c else c in
    let c := if bool_decide (x_created_by x = []) then c else set_creator (Some (x_created_by x)) c in
    let c := if bool_decide (x_comment x = []) then c else set_comment (Some (x_comment x)) c in
    let c := foldl (fun c n => add_node n c) c (x_nodes x) in
    let c := foldl (fun c t => add_tracker (ae_url t) (ae_tier t) c) c (o_urls ti) in
    let c := foldl add_seed c (x_web_seeds x) in
    let hashes := map (fun i => hash_for_piece ti (Z.of_nat i)) (seq 0 (Z.to_nat (m_num_pieces files))) in
    set_ct_info_dict (EPreformatted metadata) (set_ct_piece_hash hashes c).
End Create.

(** ** Writing entries *)

(** [e[key] = v;] *)
Definition set_key (key : string) (v e : entry) : result entry :=
  '(_, e) ← entry_index_ref (bytes_of_string key) e; d ← entry_dict e; Ok (EDict (map_set (bytes_of_string key) v d)).

(** [entry& x = e[key];] and what is done to [x]. *)
Definition update_key (key : string) (f : entry -> result entry) (e : entry) : result entry :=
  '(x, e) ← entry_index_ref (bytes_of_string key) e;
  x ← f x;
  d ← entry_dict e;
  Ok (EDict (map_set (bytes_of_string key) x d)).

(** [e.list().emplace_back(v);] for each. *)
Fixpoint push_all (vs : list entry) (e : entry) : result entry :=
  match vs with
  | [] => Ok e
  | v :: vs' => '(l, _) ← entry_list_ref e; push_all vs' (EList (l ++ [v]))
  end.

(** [if (b) ...] *)
Definition only_if (b : bool) (f : entry -> result entry) (e : entry) : result entry := if b then f e else Ok e.

Definition is_empty {A} (l : list A) : bool := match l with [] => true | _ => false end.

(** [extern/libtorrent/src/create_torrent.cpp:505-519] create_torrent::generate
    One string, or a list of them; lines 521-535 do the same for http seeds. *)
Definition write_seeds (key : string) (seeds : list bytes) (dict : entry) : result entry :=
  match seeds with
  | [] => Ok dict
  | [url] => set_key key (EStr url) dict
  | _ => update_key key (push_all (map EStr seeds)) dict
  end.

(** [extern/libtorrent/src/create_torrent.cpp:483-493] create_torrent::generate
    The tiers: one list for each run of URLs of the same tier. *)
Fixpoint write_tiers (current_tier : Z) (tier : list entry) (urls : list (bytes * Z)) : list entry :=
  match urls with
  | [] => [EList tier]
  | (url, t) :: urls' =>
      if negb (t =? current_tier) then EList tier :: write_tiers t [EStr url] urls'
      else write_tiers current_tier (tier ++ [EStr url]) urls'
  end.

(** [extern/libtorrent/src/create_torrent.cpp:463-463] create_torrent::generate *)
Definition write_announce (urls : list (bytes * Z)) (dict : entry) : result entry :=
  match urls with [] => Ok dict | (url, _) :: _ => set_key "announce" (EStr url) dict end.

(** [extern/libtorrent/src/create_torrent.cpp:478-495] create_torrent::generate *)
Definition write_announce_list (urls : list (bytes * Z)) (dict : entry) : result entry :=
  match urls with
  | (_, tier) :: _ :: _ => set_key "announce-list" (EList (write_tiers tier [] urls)) dict
  | _ => Ok dict
  end.

(** [extern/libtorrent/src/create_torrent.cpp:465-476] create_torrent::generate *)
Definition write_nodes (nodes : list (bytes * Z)) (dict : entry) : result entry :=
  only_if (negb (is_empty nodes))
    (update_key "nodes" (push_all (map (fun n => EList [EStr n.1; EInt n.2]) nodes))) dict.

(** ** The info section *)

(** [extern/libtorrent/src/create_torrent.cpp:622-624] create_torrent::generate
    The elements of a path, as often as [lsplit_path] finds one. *)
Fixpoint path_elements (fuel : nat) (path : bytes) : result (list entry) :=
  let '(elem, rest) := lsplit_path path in
  match elem with
  | [] => Ok []
  | _ =>
      match fuel with
      | O => Fault OutOfFuel
      | S fuel' => l ← path_elements fuel' rest; Ok (EStr elem :: l)
      end
  end.

(** [extern/libtorrent/src/create_torrent.cpp:623-624] create_torrent::generate
    Each turn takes at least one character. *)
Definition elements_of (path : bytes) : result (list entry) := path_elements (length path) path.

(** [extern/libtorrent/src/create_torrent.cpp:575-586] create_torrent::generate
    Lines 627-635 do the same for a file of several. *)
Definition write_attributes (include_symlinks : bool) (flags : Z) (e : entry) : result entry :=
  only_if (negb (flags =? 0))
    (update_key "attr" (fun attr =>
      '(s, _) ← entry_string_ref attr;
      Ok (EStr (s ++ (if has_flag flags flag_pad_file then [112] else []) ++ (if has_flag flags flag_hidden then [104] else []) ++
        (if has_flag flags flag_executable then [120] else []) ++
        (if include_symlinks && has_flag flags flag_symlink then [108] else []))))) e.

(** [extern/libtorrent/src/create_torrent.cpp:587-595] create_torrent::generate
    Lines 637-645 do the same for a file of several. *)
Definition write_symlink (include_symlinks : bool) (fs : file_storage) (f : internal_file_entry) (e : entry) : result entry :=
  only_if (include_symlinks && has_flag (file_flags f) flag_symlink)
    (update_key "symlink path" (fun sympath =>
      target ← file_symlink fs f;
      l ← elements_of target;
      push_all l sympath)) e.

(** [extern/libtorrent/src/create_torrent.cpp:572-599] create_torrent::generate
    The only file of a torrent. *)
Definition write_single (c : create_torrent) (f : internal_file_entry) (info : entry) : result entry :=
  info ← only_if (ct_include_mtime c) (set_key "mtime" (EInt (file_mtime (ct_files c) 0))) info;
  info ← set_key "length" (EInt (if_size f)) info;
  info ← write_attributes (ct_include_symlinks c) (file_flags f) info;
  info ← write_symlink (ct_include_symlinks c) (ct_files c) f info;
  match ct_filehashes c with
  | [] => Ok info
  | h :: _ => set_key "sha1" (EStr h) info
  end.

(** [extern/libtorrent/src/create_torrent.cpp:609-649] create_torrent::generate
    The entry of file [i] of several; the first element of its path is the torrent's name. *)
Definition write_file (c : create_torrent) (i : nat) (f : internal_file_entry) : result entry :=
  let fs := ct_files c in
  e ← only_if (ct_include_mtime c && negb (file_mtime fs i =? 0)) (set_key "mtime" (EInt (file_mtime fs i))) EUndefined;
  e ← set_key "length" (EInt (if_size f)) e;
  e ← update_key "path" (fun path_e => l ← elements_of (lsplit_path (file_path fs f)).2; push_all l path_e) e;
  e ← write_attributes (ct_include_symlinks c) (file_flags f) e;
  e ← write_symlink (ct_include_symlinks c) fs f e;
  match ct_filehashes c with
  | [] => Ok e
  | hashes =>
      match hashes !! i with
      | None => Fault BadPrecondition
      | Some h => only_if (negb (bool_decide (h = no_hash))) (set_key "sha1" (EStr h)) e
      end
  end.

(** [extern/libtorrent/src/create_torrent.cpp:607-650] create_torrent::generate *)
Fixpoint write_files (c : create_torrent) (i : nat) (files : list internal_file_entry) : result (list entry) :=
  match files with
  | [] => Ok []
  | f :: files' => e ← write_file c i f; l ← write_files c (S i) files'; Ok (e :: l)
  end.

Section Generate.
Context {SHA : Sha1}.

(** [extern/libtorrent/src/create_torrent.cpp:654-693] create_torrent::generate
    The hashes, or the root of a tree of them, which is kept; there are as many hashes as
    pieces. *)
Definition write_hashes (c : create_torrent) (info : entry) : result (entry * create_torrent) :=
  if ct_merkle_torrent c then
    tree ← merkle_tree_of (ct_piece_hash c);
    info ← set_key "root hash" (EStr (node tree 0)) info;
    Ok (info, set_ct_merkle_tree tree c)
  else
    info ← update_key "pieces" (fun p => '(s, _) ← entry_string_ref p; Ok (EStr (s ++ concat (ct_piece_hash c)))) info;
    Ok (info, c).

(** [extern/libtorrent/src/create_torrent.cpp:545-693] create_torrent::generate
    The info section of a torrent that is not made from another one. *)
Definition write_info (c : create_torrent) (info : entry) : result (entry * create_torrent) :=
  info ← only_if (negb (is_empty (ct_collections c))) (update_key "collections" (push_all (map EStr (ct_collections c)))) info;
  info ← only_if (negb (is_empty (ct_similar c))) (update_key "similar" (push_all (map EStr (ct_similar c)))) info;
  info ← set_key "name" (EStr (m_name (ct_files c))) info;
  info ← only_if (negb (is_empty (ct_root_cert c))) (set_key "ssl-cert" (EStr (ct_root_cert c))) info;
  info ← only_if (ct_private c) (set_key "private" (EInt 1)) info;
  info ← (if negb (ct_multifile c) then
            match m_files (ct_files c) with f :: _ => write_single c f info | [] => Fault BadPrecondition end
          else
            '(files, info) ← entry_find_key_ref (bytes_of_string "files") info;
            match files with
            | Some _ => Ok info
            | None => update_key "files" (fun files => l ← write_files c 0 (m_files (ct_files c)); push_all l files) info
            end);
  info ← set_key "piece length" (EInt (m_piece_length (ct_files c))) info;
  write_hashes c info.

(** [extern/libtorrent/src/create_torrent.cpp:454-696] create_torrent::generate
    The tree of hashes is the only member it changes. *)
Definition generate (c : create_torrent) : result (entry * create_torrent) :=
  if is_empty (m_files (ct_files c)) || (m_total_size (ct_files c) =? 0) then Ok (EUndefined, c)
  else
    dict ← write_announce (ct_urls c) EUndefined;
    dict ← write_nodes (ct_nodes c) dict;
    dict ← write_announce_list (ct_urls c) dict;
    dict ← only_if (negb (is_empty (ct_comment c))) (set_key "comment" (EStr (ct_comment c))) dict;
    dict ← set_key "creation date" (EInt (ct_creation_date c)) dict;
    dict ← only_if (negb (is_empty (ct_created_by c))) (set_key "created by" (EStr (ct_created_by c))) dict;
    dict ← write_seeds "url-list" (ct_url_seeds c) dict;
    dict ← write_seeds "httpseeds" (ct_http_seeds c) dict;
    '(info, dict) ← entry_index_ref (bytes_of_string "info") dict;
    '(info, c) ←
      match ct_info_dict c with
      | EDict _ | EPreformatted _ => Ok (ct_info_dict c, c)
      | _ => write_info c info
      end;
    d ← entry_dict dict;
    Ok (EDict (map_set (bytes_of_string "info") info d), c).
End Generate.
