(* ===== verification/CreateSpec.v ===== *)
(** * Torrent files that were made

    What [create_torrent::generate] writes is read back: a torrent made of a list of files, with
    hashes, trackers, seeds and texts, encoded and loaded, has the files, the hashes and the
    trackers it was made with.  And a torrent that is made from one that was read keeps its
    info section byte for byte, so that its hash stays the same. *)

From stdpp Require Import sorting.
From S2P Require Import Prelude MsgFactory Net Storage Sha1 Sha1Spec Bdecode BdecodeSpec BdecodeNodes Entry EntrySpec Paths FileStorage Symlinks.
From S2P Require Import TorrentFiles Magnet TorrentNames Urls TorrentExtras TorrentInfo TorrentLayout TorrentRead TorrentTotal TorrentMake.
From S2P Require Import Merkle Reorder CreateTorrent.

(** ** Maps *)

Lemma strview_less_trans a : forall b c, strview_less a b = true -> strview_less b c = true -> strview_less a c = true.
Proof.
  induction a as [|x a IH]; intros [|y b] [|z c]; cbn; try done.
  destruct (Z.ltb_spec x y), (Z.ltb_spec y z), (Z.ltb_spec x z), (Z.ltb_spec y x), (Z.ltb_spec z y), (Z.ltb_spec z x); try lia; try done.
  apply IH.
Qed.

Lemma strview_less_total a : forall b, a <> b -> strview_less a b = false -> strview_less b a = true.
Proof.
  induction a as [|x a IH]; intros [|y b]; cbn; try done. intros Hne.
  destruct (Z.ltb_spec x y), (Z.ltb_spec y x); try lia; try done. apply IH. assert (x = y) by lia. congruence.
Qed.

Lemma map_set_forall {V} (P : bytes * V -> Prop) k v d : (forall k', k' = k -> P (k', v)) -> Forall P d -> Forall P (map_set k v d).
Proof.
  intros Hkv. induction 1 as [|[k' w] d Hw Hd IH]; cbn [map_set]; [by constructor; [apply Hkv|]|].
  case_bool_decide as E; [by constructor; [apply Hkv|]|]. destruct (strview_less k k'); repeat constructor; try done. by apply Hkv.
Qed.

Lemma sorted_cons {V} k (v : V) d : sorted_keys ((k, v) :: d) = true <-> Forall (fun kv => strview_less k kv.1 = true) d /\ sorted_keys d = true.
Proof.
  cbn [sorted_keys]. rewrite andb_true_iff, forallb_forall, Forall_forall. split; intros [H1 H2]; (split; [|done]); intros x Hx; apply H1;
    by apply list_elem_of_In.
Qed.

Lemma map_set_keeps_sorted {V} k (v : V) d : sorted_keys d = true -> sorted_keys (map_set k v d) = true.
Proof.
  induction d as [|[k' w] d IH]; intros Hs; [done|]. cbn [map_set]. apply sorted_cons in Hs as [Hk Hs].
  case_bool_decide as E; [by apply sorted_cons|]. destruct (strview_less k k') eqn:El.
  - apply sorted_cons. split; [|by apply sorted_cons]. constructor; [done|]. eapply Forall_impl; [exact Hk|]. intros kv. by apply strview_less_trans.
  - apply sorted_cons. split; [|by apply IH]. apply map_set_forall; [|done]. intros k2 ->. cbn. by apply strview_less_total.
Qed.

Lemma map_find_above {V} k (d : list (bytes * V)) : Forall (fun kv => strview_less k kv.1 = true) d -> map_find k d = None.
Proof.
  induction 1 as [|[k' w] d Hk _ IH]; [done|]. cbn [map_find]. rewrite bool_decide_false; [done|]. cbn in Hk. intros ->.
  by rewrite strview_less_irrefl in Hk.
Qed.

Lemma map_find_set {V} k (v : V) d k2 : sorted_keys d = true -> map_find k2 (map_set k v d) = if decide (k2 = k) then Some v else map_find k2 d.
Proof.
  induction d as [|[k' w] d IH]; intros Hs; cbn [map_set].
  - cbn. case_decide as E; case_bool_decide as E'; congruence.
  - apply sorted_cons in Hs as [Hk Hs]. case_bool_decide as E.
    + subst k'. cbn. repeat case_decide; repeat case_bool_decide; congruence.
    + destruct (strview_less k k') eqn:El.
      * cbn. case_decide as E2; [by rewrite bool_decide_true|]. by rewrite (bool_decide_false (k = k2)) by congruence.
      * cbn. rewrite IH by done. case_decide as E2; [|done]. by rewrite bool_decide_false by congruence.
Qed.

Lemma value_of_map k d : value_of k (map (fun kv => (kv.1, value_of_entry kv.2)) d) = value_of_entry <$> map_find k d.
Proof.
  induction d as [|[k' v] d IH]; [done|]. cbn. rewrite IH. destruct (decide (k' = k)) as [->|Hne].
  - by rewrite !bool_decide_true.
  - by rewrite !bool_decide_false by congruence.
Qed.

Lemma map_set_set {V} k (v w : V) d : map_set k v (map_set k w d) = map_set k v d.
Proof.
  induction d as [|[k' x] d IH]; cbn; [by rewrite bool_decide_true|].
  case_bool_decide as E; cbn; [by rewrite bool_decide_true|]. destruct (strview_less k k') eqn:El; cbn.
  - by rewrite bool_decide_true.
  - by rewrite bool_decide_false, El, IH.
Qed.

(** ** Writing into a dictionary *)

(** The pairs of an entry that is a dictionary, or becomes one. *)
Definition pairs_of (e : entry) : option (list (bytes * entry)) :=
  match e with EUndefined => Some [] | EDict d => Some d | _ => None end.

Lemma entry_index_pairs key e d : pairs_of e = Some d -> exists d1, entry_index_ref key e =
  Ok (default EUndefined (map_find key d), EDict d1) /\ forall v, map_set key v d1 = map_set key v d.
Proof.
  intros He. unfold entry_index_ref, entry_dict_ref. destruct e as [| | | |d'|]; try done; injection He as <-.
  - exists (map_set key EUndefined []). split; [done|]. intros v. apply (map_set_set key v EUndefined []).
  - change (defined_as dictionary_e (EDict d')) with (EDict d'). cbn [entry_dict mbind result_bind]. destruct (map_find key d') eqn:E.
    + exists d'. split; done.
    + eexists. split; [done|]. intros v. apply map_set_set.
Qed.

Lemma set_key_spec key v e d : pairs_of e = Some d -> set_key key v e = Ok (EDict (map_set (bytes_of_string key) v d)).
Proof.
  intros He. unfold set_key. destruct (entry_index_pairs (bytes_of_string key) e d He) as (d1 & -> & Hd). cbn. by rewrite Hd.
Qed.

(** What a key that was not there is updated to. *)
Lemma update_key_spec key f v e d : pairs_of e = Some d -> map_find (bytes_of_string key) d = None -> f EUndefined = Ok v ->
  update_key key f e = Ok (EDict (map_set (bytes_of_string key) v d)).
Proof.
  intros He Hn Hf. unfold update_key. destruct (entry_index_pairs (bytes_of_string key) e d He) as (d1 & -> & Hd).
  rewrite Hn. cbn. rewrite Hf. cbn. by rewrite Hd.
Qed.

Lemma push_all_list vs : forall l, push_all vs (EList l) = Ok (EList (l ++ vs)).
Proof. induction vs as [|v vs IH]; intros l; [cbn; by rewrite app_nil_r|].
  change (push_all (v :: vs) (EList l)) with (push_all vs (EList (l ++ [v]))). rewrite IH. by rewrite <- app_assoc. Qed.

Lemma push_all_fresh vs : vs <> [] -> push_all vs EUndefined = Ok (EList vs).
Proof. destruct vs as [|v vs]; [done|]. intros _.
  change (push_all (v :: vs) EUndefined) with (push_all vs (EList [v])). by rewrite push_all_list. Qed.

(** ** What a step of [generate] does to the dictionary *)

(** Pairs that can be encoded and read again. *)
Definition pair_ok (kv : bytes * entry) : Prop := short kv.1 = true /\ plain kv.2 = true /\ (depth (value_of_entry kv.2) <= 10)%nat.
Definition dict_ok (d : list (bytes * entry)) : Prop := sorted_keys d = true /\ Forall pair_ok d.

(** The step writes [w] at [key], if that is something, and nothing else. *)
Definition writes (key : string) (w : option entry) (f : entry -> result entry) : Prop :=
  forall e d, pairs_of e = Some d -> dict_ok d -> map_find (bytes_of_string key) d = None -> exists e' d',
    f e = Ok e' /\ pairs_of e' = Some d' /\ dict_ok d' /\
    forall k, map_find k d' = if decide (k = bytes_of_string key) then w else map_find k d.

Lemma writes_nothing key : writes key None Ok.
Proof. intros e d He Hd Hn. exists e, d. split_and!; try done. intros k. by case_decide; subst. Qed.

Lemma writes_entry key v f : pair_ok (bytes_of_string key, v) ->
  (forall e d, pairs_of e = Some d -> map_find (bytes_of_string key) d = None -> f e = Ok (EDict (map_set (bytes_of_string key) v d))) ->
  writes key (Some v) f.
Proof.
  intros Hv Hf e d He [Hs Hd] Hn. eexists _, _. split; [by apply Hf|]. split; [done|]. split; [split|].
  - by apply map_set_keeps_sorted.
  - apply map_set_forall; [by intros k ->|done].
  - intros k. by apply map_find_set.
Qed.

Lemma writes_set key v : pair_ok (bytes_of_string key, v) -> writes key (Some v) (set_key key v).
Proof. intros Hv. apply writes_entry; [done|]. intros e d He _. by apply set_key_spec. Qed.

Lemma writes_update key f v : pair_ok (bytes_of_string key, v) -> f EUndefined = Ok v -> writes key (Some v) (update_key key f).
Proof. intros Hv Hf. apply writes_entry; [done|]. intros e d He Hn. by apply update_key_spec. Qed.

Lemma writes_if key b w f : (b = true -> writes key w f) -> writes key (if b then w else None) (only_if b f).
Proof. intros H. destruct b; [by apply H|]. apply writes_nothing. Qed.

(** What is found after steps that wrote [ws] at [keys]. *)
Fixpoint written (k : bytes) (keys : list string) (ws : list (option entry)) : option entry :=
  match keys, ws with
  | key :: keys', w :: ws' => if decide (k = bytes_of_string key) then w else written k keys' ws'
  | _, _ => None
  end.

Definition has_written (keys : list string) (ws : list (option entry)) (e : entry) : Prop :=
  exists d, pairs_of e = Some d /\ dict_ok d /\ forall k, map_find k d = written k keys ws.

Definition fresh (key : string) (keys : list string) : bool :=
  forallb (fun k => negb (bool_decide (bytes_of_string key = bytes_of_string k))) keys.

Lemma fresh_unwritten key keys : fresh key keys = true -> forall ws, written (bytes_of_string key) keys ws = None.
Proof.
  induction keys as [|k keys IH]; intros Hf [|w ws]; try done. cbn in *. apply andb_true_iff in Hf as [Hk Hf].
  rewrite decide_False; [by apply IH|]. intros E. by rewrite E, bool_decide_true in Hk.
Qed.

Lemma writes_next key w f keys ws e : writes key w f -> has_written keys ws e -> fresh key keys = true ->
  exists e', f e = Ok e' /\ has_written (key :: keys) (w :: ws) e'.
Proof.
  intros Hf (d & He & Hd & Hk) Hfresh. destruct (Hf e d He Hd) as (e' & d' & Hr & He' & Hd' & Hk'); [rewrite Hk; by apply fresh_unwritten|].
  exists e'. split; [done|]. exists d'. split; [done|]. split; [done|]. intros k. rewrite Hk'. cbn. by rewrite Hk.
Qed.

Lemma nothing_written : has_written [] [] EUndefined.
Proof. exists []. by split_and!. Qed.

(** ** The steps of [generate] *)

Definition number_ok (z : Z) : Prop := - 10 ^ 18 < z < 2 ^ 63.

Lemma text_ok key s : short (bytes_of_string key) = true -> short s = true -> pair_ok (bytes_of_string key, EStr s).
Proof. intros Hk Hs. split_and!; [done|done|cbn; lia]. Qed.

Lemma number_pair_ok key z : short (bytes_of_string key) = true -> number_ok z -> pair_ok (bytes_of_string key, EInt z).
Proof.
  intros Hk [H1 H2]. split_and!; [done| |cbn; lia]. cbn [plain snd]. by rewrite (proj2 (Z.ltb_lt _ _) H1), (proj2 (Z.ltb_lt _ _) H2).
Qed.

(** A list whose items are plain and not deep. *)
Definition item_ok (n : nat) (e : entry) : Prop := plain e = true /\ (depth (value_of_entry e) <= n)%nat.

Lemma list_item_ok n l : Forall (item_ok n) l -> item_ok (S n) (EList l).
Proof.
  intros Hl. split.
  - cbn [plain]. apply forallb_forall. intros e He%list_elem_of_In. rewrite Forall_forall in Hl. by apply Hl.
  - cbn [value_of_entry depth]. apply le_n_S. induction Hl as [|e l [_ He] _ IH]; cbn; lia.
Qed.

Lemma text_item_ok s : short s = true -> item_ok 0 (EStr s).
Proof. by split. Qed.

Lemma texts_item_ok l : Forall (fun s => short s = true) l -> item_ok 1 (EList (map EStr l)).
Proof. intros Hl. apply list_item_ok, Forall_map. eapply Forall_impl; [exact Hl|]. intros s. apply text_item_ok. Qed.

Lemma item_pair_ok key n e : short (bytes_of_string key) = true -> item_ok n e -> (n <= 10)%nat -> pair_ok (bytes_of_string key, e).
Proof. intros Hk [Hp Hd] Hn. split_and!; [done|done|cbn in *; lia]. Qed.

Definition urls_short (urls : list (bytes * Z)) : Prop := Forall (fun u => short u.1 = true) urls.

Lemma writes_announce urls : urls_short urls ->
  writes "announce" (match urls with [] => None | u :: _ => Some (EStr u.1) end) (write_announce urls).
Proof.
  intros Hu. unfold write_announce. destruct urls as [|[u t] urls]; [apply writes_nothing|]. apply writes_set, text_ok; [done|].
  by apply Forall_inv in Hu.
Qed.

Lemma write_tiers_ok urls : urls_short urls -> forall t tier, Forall (item_ok 0) tier -> Forall (item_ok 1) (write_tiers t tier urls).
Proof.
  induction 1 as [|[u t'] urls Hu _ IH]; intros t tier Ht; cbn [write_tiers]; [by apply Forall_singleton, list_item_ok|].
  apply text_item_ok in Hu. cbn in Hu. destruct (_ =? _); cbn [negb].
  - apply IH, Forall_app. by rewrite Forall_singleton.
  - constructor; [by apply list_item_ok|]. apply IH. by apply Forall_singleton.
Qed.

Definition announce_list_of (urls : list (bytes * Z)) : option entry :=
  match urls with (_, t) :: _ :: _ => Some (EList (write_tiers t [] urls)) | _ => None end.

Lemma writes_announce_list urls : urls_short urls -> writes "announce-list" (announce_list_of urls) (write_announce_list urls).
Proof.
  intros Hu. unfold write_announce_list, announce_list_of. destruct urls as [|[u t] [|u2 urls]]; [apply writes_nothing|apply writes_nothing|].
  apply writes_set, (item_pair_ok _ 2); [done| |lia]. apply list_item_ok. by apply write_tiers_ok.
Qed.

Lemma writes_seeds key seeds : short (bytes_of_string key) = true -> Forall (fun s => short s = true) seeds ->
  exists w, writes key w (write_seeds key seeds).
Proof.
  intros Hk Hs. unfold write_seeds. destruct seeds as [|u [|u2 seeds]].
  - exists None. apply writes_nothing.
  - exists (Some (EStr u)). apply writes_set, text_ok; [done|]. by apply Forall_inv in Hs.
  - exists (Some (EList (map EStr (u :: u2 :: seeds)))). apply writes_update.
    + eapply item_pair_ok; [done|by apply texts_item_ok|lia].
    + by apply push_all_fresh.
Qed.

Lemma writes_nodes nodes : Forall (fun n => short n.1 = true /\ number_ok n.2) nodes -> exists w, writes "nodes" w (write_nodes nodes).
Proof.
  intros Hn. unfold write_nodes. eexists. apply writes_if. intros Hne. apply writes_update; [|apply push_all_fresh; by destruct nodes].
  eapply (item_pair_ok _ 2); [done| |lia]. apply list_item_ok, Forall_map. eapply Forall_impl; [exact Hn|]. intros [h p] [Hh Hp]. apply list_item_ok.
  constructor; [by apply text_item_ok|]. apply Forall_singleton. destruct (number_pair_ok "x" p eq_refl Hp) as (_ & H & _). split; [done|cbn; lia].
Qed.

(** ** The info section *)

Lemma join_length es : Forall component_ok es -> (length es <= length (join_path es))%nat.
Proof.
  induction 1 as [|e es (He & _) _ IH]; [done|]. rewrite join_cons, length_app. destruct e as [|c e]; [done|]. cbn [length].
  destruct es as [|e2 es]; [cbn; lia|]. rewrite join_cons, length_app in IH. cbn [map concat length] in *. rewrite length_app. cbn [length]. lia.
Qed.

Lemma path_elements_join es : Forall component_ok es -> forall fuel, (length es <= fuel)%nat ->
  path_elements fuel (join_path es) = Ok (map EStr es).
Proof.
  induction 1 as [|e es He Hes IH]; intros fuel Hf; [by destruct fuel|]. destruct fuel as [|fuel]; [cbn in Hf; lia|].
  cbn [path_elements]. rewrite lsplit_join by done. destruct He as (Hne & _). destruct e as [|x e]; [done|].
  rewrite IH by (cbn in Hf; lia). done.
Qed.

Lemma elements_of_join es : Forall component_ok es -> elements_of (join_path es) = Ok (map EStr es).
Proof. intros H. apply path_elements_join; [done|by apply join_length]. Qed.

Lemma plain_components l : Forall plain_name l -> Forall component_ok l.
Proof. intros H. eapply Forall_impl; [exact H|]. apply plain_component. Qed.

(** A torrent of plain files, without flags, times and hashes of its own for them. *)
Record plain_torrent (c : create_torrent) : Prop := {
  pt_info : ct_info_dict c = EUndefined;
  pt_filehashes : ct_filehashes c = [];
  pt_similar : ct_similar c = [];
  pt_collections : ct_collections c = [];
  pt_root_cert : ct_root_cert c = [];
  pt_multifile : ct_multifile c = true;
  pt_private : ct_private c = false;
  pt_merkle : ct_merkle_torrent c = false;
  pt_mtime : ct_include_mtime c = false;
  pt_symlinks : ct_include_symlinks c = false;
}.

(** The entry of the list is the file that was meant. *)
Definition same_file (name : bytes) (fs : file_storage) (e : internal_file_entry) (f : made_file) : Prop :=
  file_path fs e = join_path (name :: made_path f) /\ if_size e = mf_size f /\ file_flags e = 0.

Lemma write_file_made c i name e f : plain_torrent c -> plain_name name -> made_file_ok f -> same_file name (ct_files c) e f ->
  write_file c i e = Ok (file_made f).
Proof.
  intros [_ Hh _ _ _ _ _ _ Hm Hl] Hname (Hd & Hleaf & _) (Hp & Hs & Hf). unfold write_file. rewrite Hm, Hl, Hh, Hp, Hs.
  rewrite lsplit_join by (by apply plain_component). cbn [only_if andb fst snd mbind result_bind].
  assert (Forall component_ok (made_path f)) as Hc by (unfold made_path; apply Forall_app; split; [by apply plain_components|]; by apply Forall_singleton, plain_component).
  rewrite (set_key_spec "length" _ EUndefined [] eq_refl). cbn [mbind result_bind].
  rewrite (update_key_spec "path" _ (EList (map EStr (made_path f))) _ [(key "length", EInt (mf_size f))]); [|done|done|].
  - cbn [mbind result_bind]. unfold write_attributes, write_symlink. rewrite Hf. reflexivity.
  - rewrite elements_of_join by done. cbn [mbind result_bind]. apply push_all_fresh. unfold made_path. by destruct (mf_dirs f).
Qed.

Lemma write_files_made c name l fl : plain_torrent c -> plain_name name -> Forall made_file_ok fl -> Forall2 (same_file name (ct_files c)) l fl ->
  forall i, write_files c i l = Ok (map file_made fl).
Proof.
  intros Hc Hname Hf H. induction H as [|e f l fl He _ IH]; intros i; [done|]. apply Forall_cons in Hf as [Hf1 Hf]. cbn [write_files].
  rewrite (write_file_made c i name e f) by done. cbn [mbind result_bind]. by rewrite IH.
Qed.

Section Generate.
Context {SHA : Sha1}.

Lemma write_info_made c mt : plain_torrent c -> plain_name (mt_name mt) -> mt_files mt <> [] -> Forall made_file_ok (mt_files mt) ->
  Forall2 (same_file (mt_name mt) (ct_files c)) (m_files (ct_files c)) (mt_files mt) -> m_name (ct_files c) = mt_name mt ->
  m_piece_length (ct_files c) = mt_piece_length mt -> concat (ct_piece_hash c) = mt_pieces mt ->
  write_info c EUndefined = Ok (info_made mt, c).
Proof.
  intros Hc Hname Hne Hf Hsame Hn Hpl Hp. pose proof Hc as [_ _ Hs Hco Hr Hm Hpr Hme _ _]. unfold write_info.
  rewrite Hs, Hco, Hr, Hm, Hpr, Hn, Hpl. cbn [is_empty negb only_if mbind result_bind].
  rewrite (set_key_spec "name" _ EUndefined [] eq_refl). cbn [mbind result_bind map_set].
  change (entry_find_key_ref (bytes_of_string "files") (EDict [(bytes_of_string "name", EStr (mt_name mt))]))
    with (Ok (A := option entry * entry) (None, EDict [(bytes_of_string "name", EStr (mt_name mt))])).
  cbn [mbind result_bind].
  rewrite (update_key_spec "files" _ (EList (map file_made (mt_files mt))) _ [(bytes_of_string "name", EStr (mt_name mt))]); [|done|done|].
  2: { rewrite (write_files_made c (mt_name mt) _ (mt_files mt)) by done. cbn [mbind result_bind]. apply push_all_fresh. by destruct (mt_files mt). }
  cbn [mbind result_bind]. erewrite set_key_spec by reflexivity. cbn [mbind result_bind]. unfold write_hashes. rewrite Hme.
  erewrite (update_key_spec "pieces" _ (EStr (mt_pieces mt))); [|reflexivity|reflexivity|].
  - reflexivity.
  - rewrite Hp. reflexivity.
Qed.

(** The numbers and texts around the info section can be encoded. *)
Record texts_ok (c : create_torrent) : Prop := {
  tx_urls : urls_short (ct_urls c);
  tx_nodes : Forall (fun n => short n.1 = true /\ number_ok n.2) (ct_nodes c);
  tx_comment : short (ct_comment c) = true;
  tx_created_by : short (ct_created_by c) = true;
  tx_date : number_ok (ct_creation_date c);
  tx_url_seeds : Forall (fun s => short s = true) (ct_url_seeds c);
  tx_http_seeds : Forall (fun s => short s = true) (ct_http_seeds c);
}.

(** The same as a check. *)
Definition number_check (z : Z) : bool := (- 10 ^ 18 <? z) && (z <? 2 ^ 63).
Definition texts_check (c : create_torrent) : bool :=
  forallb (fun u => short u.1) (ct_urls c) && forallb (fun n => short n.1 && number_check n.2) (ct_nodes c) && short (ct_comment c) &&
  short (ct_created_by c) && number_check (ct_creation_date c) && forallb short (ct_url_seeds c) && forallb short (ct_http_seeds c).

Lemma forallb_Forall {A} (f : A -> bool) (P : A -> Prop) l : (forall x, f x = true -> P x) -> forallb f l = true -> Forall P l.
Proof. intros Hf H. rewrite forallb_forall in H. apply Forall_forall. intros x Hx%list_elem_of_In. by apply Hf, H. Qed.

Lemma number_check_ok z : number_check z = true -> number_ok z.
Proof. intros [H1%Z.ltb_lt H2%Z.ltb_lt]%andb_true_iff. by split. Qed.

Lemma texts_check_ok c : texts_check c = true -> texts_ok c.
Proof.
  unfold texts_check. rewrite !andb_true_iff. intros [[[[[[H1 H2] H3] H4] H5] H6] H7].
  split; [by eapply forallb_Forall; [|exact H1]| |done|done|by apply number_check_ok|by eapply forallb_Forall; [|exact H6]|by eapply forallb_Forall; [|exact H7]].
  eapply forallb_Forall; [|exact H2]. intros n [Hn Hp]%andb_true_iff. split; [done|by apply number_check_ok].
Qed.

Definition generated_info (c : create_torrent) : result (entry * create_torrent) :=
  match ct_info_dict c with EDict _ | EPreformatted _ => Ok (ct_info_dict c, c) | _ => write_info c EUndefined end.

(** The dictionary: the trackers, the rest, and the info section. *)
Lemma generate_dict c info c' : m_files (ct_files c) <> [] -> m_total_size (ct_files c) <> 0 -> texts_ok c -> generated_info c = Ok (info, c') ->
  exists d, generate c = Ok (EDict (map_set (bytes_of_string "info") info d), c') /\ dict_ok d /\
    map_find (bytes_of_string "info") d = None /\
    map_find (bytes_of_string "announce") d = match ct_urls c with [] => None | u :: _ => Some (EStr u.1) end /\
    map_find (bytes_of_string "announce-list") d = announce_list_of (ct_urls c).
Proof.
  intros Hne Ht [Hu Hn Hco Hcr Hda Hus Hhs] Hinfo. unfold generate. rewrite (proj2 (Z.eqb_neq _ _) Ht). destruct (m_files (ct_files c)) as [|f0 l0] eqn:Ef; [done|].
  cbn [is_empty orb].
  destruct (writes_next _ _ _ _ _ _ (writes_announce _ Hu) nothing_written eq_refl) as (e1 & -> & H1). cbn [mbind result_bind].
  destruct (writes_nodes _ Hn) as [wn Hwn]. destruct (writes_next _ _ _ _ _ _ Hwn H1 eq_refl) as (e2 & -> & H2). cbn [mbind result_bind].
  destruct (writes_next _ _ _ _ _ _ (writes_announce_list _ Hu) H2 eq_refl) as (e3 & -> & H3). cbn [mbind result_bind].
  assert (writes "comment" _ (only_if (negb (is_empty (ct_comment c))) (set_key "comment" (EStr (ct_comment c))))) as Hwc
    by (apply writes_if; intros _; by apply writes_set, text_ok).
  destruct (writes_next _ _ _ _ _ _ Hwc H3 eq_refl) as (e4 & -> & H4). cbn [mbind result_bind].
  assert (writes "creation date" _ (set_key "creation date" (EInt (ct_creation_date c)))) as Hwd by (by apply writes_set, number_pair_ok).
  destruct (writes_next _ _ _ _ _ _ Hwd H4 eq_refl) as (e5 & -> & H5). cbn [mbind result_bind].
  assert (writes "created by" _ (only_if (negb (is_empty (ct_created_by c))) (set_key "created by" (EStr (ct_created_by c))))) as Hwb
    by (apply writes_if; intros _; by apply writes_set, text_ok).
  destruct (writes_next _ _ _ _ _ _ Hwb H5 eq_refl) as (e6 & -> & H6). cbn [mbind result_bind].
  destruct (writes_seeds "url-list" _ eq_refl Hus) as [wu Hwu]. destruct (writes_next _ _ _ _ _ _ Hwu H6 eq_refl) as (e7 & -> & H7). cbn [mbind result_bind].
  destruct (writes_seeds "httpseeds" _ eq_refl Hhs) as [wh Hwh]. destruct (writes_next _ _ _ _ _ _ Hwh H7 eq_refl) as (e8 & -> & H8). cbn [mbind result_bind].
  destruct H8 as (d & He & Hd & Hk). 
  assert (forall k, fresh k ["httpseeds"; "url-list"; "created by"; "creation date"; "comment"; "announce-list"; "nodes"; "announce"] = true ->
    map_find (bytes_of_string k) d = None) as Hfresh by (intros k Hf; rewrite Hk; by apply fresh_unwritten).
  destruct (entry_index_pairs (bytes_of_string "info") e8 d He) as (d1 & -> & Hd1). rewrite (Hfresh "info"%string) by done.
  cbn [mbind result_bind default]. unfold generated_info in Hinfo. rewrite Hinfo. cbn [mbind result_bind entry_dict]. rewrite Hd1.
  exists d. split; [done|]. split; [done|]. split; [by apply Hfresh|]. rewrite !Hk. done.
Qed.
End Generate.

(** ** Reading it *)
Section Load.
Context {EN : Endian} {CRC : Crc32c} {PE : PastEnd} {SH : Shuffle} {SL : ShuffleLaws SH}.

Definition trackers_of (l : list (bytes * bvalue)) : list announce_entry :=
  if bool_decide (listed_of l = []) then announce_of l else sort_tiers (shuffle (listed_of l)).

(** What a file with a given info section loads as, whatever else it holds. *)
Definition loads_as (mt : made_torrent) (urls : list announce_entry) (o : torrent_object) : Prop :=
  exists h extras, o = set_extras extras (set_urls urls (info_object h mt)).

Lemma parse_torrent_file_with garbage n l mt : length garbage = 64%nat -> good n (BDict l) ->
  value_of (bytes_of_string "info") l = Some (BDict (info_value mt)) -> made_ok mt -> names_differ mt ->
  returns_or overflow (parse_torrent_file garbage n default_piece_limit)
    (fun '(o, ec, ok) => loads_as mt (trackers_of l) o /\ ec = None /\ ok = true).
Proof.
  intros Hg [Hn Hb] Hv Hok Hd. unfold parse_torrent_file. rewrite (node_type_of_denotes n _ Hn). cbn [mbind result_bind value_type].
  rewrite bool_decide_true by done. cbn [negb].
  destruct (dict_find_type_node n l dict_t (bytes_of_string "info") ltac:(done) Hn) as (info & Hi & Hinfo).
  unfold typed_value_of in Hinfo. rewrite Hv in Hinfo. cbn [mbind option_bind] in Hinfo. rewrite bool_decide_true in Hinfo by done.
  destruct Hinfo as (Hin & Hib & _). pose proof (dict_find_type_buffer _ _ _ _ Hi Hib) as Hbuf. unfold dict_find_dict. rewrite Hi. cbn [mbind result_bind].
  rewrite Hib. cbn [negb]. destruct (parse_info_section_made garbage info mt Hg ltac:(by rewrite Hbuf) Hin Hok) as [h ->]. cbn [mbind result_bind negb].
  unfold resolve_duplicate_filenames. unfold info_object at 1 2 3. cbn [o_files].
  change (collides _ _) with (collides (map (file_path_hash (files_of mt)) (m_files (files_of mt))) (all_path_hashes (files_of mt) ∅)).
  rewrite Hd. cbn [mbind result_bind]. rewrite (parse_trackers_value n l SL Hn). cbn [mbind result_bind]. fold (trackers_of l).
  eapply returns_bind; [eapply read_extras_total; by split|]. intros extras _. split; [|done]. by exists h, extras.
Qed.

Lemma torrent_info_create_with garbage e d mt rest : length garbage = 64%nat -> e = EDict d -> plain e = true -> (depth (value_of_entry e) < 100)%nat ->
  map_find (bytes_of_string "info") d = Some (info_made mt) -> made_ok mt -> names_differ mt ->
  exists text, bencode e = Ok (text, Z.of_nat (length text)) /\
  (Z.of_nat (length text) <= 2000000 -> Z.of_nat (length (text ++ rest)) <= max_offset -> bytes_ok (text ++ rest) ->
   returns_or overflow (torrent_info_create garbage (text ++ rest)) (fun '(o, ec) =>
     loads_as mt (trackers_of (map (fun kv => (kv.1, value_of_entry kv.2)) d)) o /\ ec = None)).
Proof.
  intros Hg -> Hp Hdepth Hinfo Hok Hd. destruct (encode_plain _ Hp) as (text & Ht & Hi). exists text. split; [done|].
  intros Hlen Hmax Hb. rewrite length_app in Hmax. destruct (Hi ltac:(lia) 0) as [ts Hts]. pose proof (item_lengths _ _ _ _ Hts) as Hl.
  assert (Z.of_nat (length (text ++ rest)) <= max_offset) as Hmax' by (rewrite length_app; lia).
  unfold torrent_info_create, bdecode_default. rewrite (decode_item 100 2000000 text rest ts _ Hts Hmax' Hdepth) by lia. cbn [mbind result_bind].
  rewrite bool_decide_true by done. cbn [negb].
  eapply returns_bind; [eapply (parse_torrent_file_with garbage (root_node (text ++ rest) text ts) _ mt Hg)|]; try done.
  - split; [by apply root_denotes|done].
  - rewrite value_of_map, Hinfo. cbn [fmap option_fmap option_map]. by rewrite info_value_of.
  - intros [[o ec] ok] (Ho & -> & _). by split.
Qed.
End Load.

(** ** The trackers *)

(** URLs that reading leaves as they are. *)
Definition url_plain (url : bytes) : Prop := trim url = url /\ url <> [].

Lemma tier_urls_of j l : Forall url_plain l -> map ae_url (tier_entries j (map BStr l)) = l.
Proof.
  induction 1 as [|u l [Ht Hne] _ IH]; [done|]. cbn. rewrite Ht, bool_decide_false by done. cbn. by rewrite IH.
Qed.

Lemma values_of_texts l : map value_of_entry (map EStr l) = map BStr l.
Proof. by rewrite map_map. Qed.

Lemma listed_of_tiers urls : Forall (fun u => url_plain u.1) urls -> forall j t tier, Forall url_plain tier ->
  map ae_url (listed_trackers j (map value_of_entry (write_tiers t (map EStr tier) urls))) = tier ++ map fst urls.
Proof.
  induction 1 as [|[u t'] urls Hu _ IH]; intros j t tier Ht; cbn [write_tiers].
  - cbn [map listed_trackers value_of_entry]. by rewrite values_of_texts, !app_nil_r, (tier_urls_of j tier).
  - destruct (_ =? _); cbn [negb].
    + change (map EStr tier ++ [EStr u]) with (map EStr tier ++ map EStr [u]). rewrite <- map_app.
      rewrite IH by (apply Forall_app; by rewrite Forall_singleton). by rewrite <- app_assoc.
    + cbn [map listed_trackers value_of_entry]. rewrite map_app. change [EStr u] with (map EStr [u]).
      rewrite IH by (by apply Forall_singleton). by rewrite values_of_texts, (tier_urls_of j tier).
Qed.

Lemma trackers_generated {SH : Shuffle} {SL : ShuffleLaws SH} urls d : Forall (fun u => url_plain u.1) urls ->
  map_find (bytes_of_string "announce") d = match urls with [] => None | u :: _ => Some (EStr u.1) end ->
  map_find (bytes_of_string "announce-list") d = announce_list_of urls ->
  map ae_url (trackers_of (map (fun kv => (kv.1, value_of_entry kv.2)) d)) ≡ₚ map fst urls.
Proof.
  intros Hu Ha Hl. unfold trackers_of, listed_of. rewrite value_of_map, Hl. unfold announce_of, string_of. rewrite value_of_map, Ha.
  destruct urls as [|[u t] [|u2 urls]].
  - rewrite bool_decide_true by done. done.
  - apply Forall_inv in Hu as [Ht Hne]. cbn in Ht, Hne. cbn. rewrite Ht. by rewrite bool_decide_false.
  - cbn [announce_list_of fmap option_fmap option_map value_of_entry].
    pose proof (listed_of_tiers _ Hu 0 t [] (Forall_nil_2 _)) as E. cbn [map app] in E.
    change (map value_of_entry (write_tiers t [] ((u, t) :: u2 :: urls))) with (map value_of_entry (write_tiers t (map EStr []) ((u, t) :: u2 :: urls))).
    set (listed := listed_trackers 0 _) in *. cbn [map app] in E.
    rewrite bool_decide_false by (intros E'; rewrite E' in E; done).
    destruct (sort_tiers_spec (shuffle listed)) as [Hp _]. rewrite Hp, (SL _ listed). by rewrite E.
Qed.

(** ** From the list of files *)

(** The file as [add_file] gets it. *)
Definition source_addition (name : bytes) (f : made_file) : addition :=
  mk_addition (name :: mf_dirs f) (mf_leaf f) [] (mf_size f) 0 None 0 [].

Definition source_files (name : bytes) (files : list made_file) : file_storage :=
  add_all_files (map (source_addition name) files) fs_empty.

(** What the torrent of these files is meant to be; the URL is of no account. *)
Definition meant (name : bytes) (pl : Z) (files : list made_file) (pieces : bytes) : made_torrent :=
  mk_made_torrent (key "a") name pl files pieces.

Record source_ok (name : bytes) (pl : Z) (files : list made_file) : Prop := {
  so_name : plain_name name;
  so_piece_length : 0 < pl < 2 ^ 31;
  so_files : files <> [] /\ Forall made_file_ok files;
  so_total : 0 < made_total (meant name pl files []) < 2 ^ 48 /\ made_total (meant name pl files []) < (2 ^ 31 - 1 - pl) * pl;
  so_pieces : made_pieces (meant name pl files []) <= default_piece_limit;
}.

Lemma add_set_piece_length pl a fs : add a (set_piece_length pl fs) = set_piece_length pl (add a fs).
Proof.
  unfold add, add_file_borrow. cbn [m_name m_files m_paths set_piece_length]. by destruct (update_path_index _ _ _ _ _) as [e paths].
Qed.

Lemma add_all_set_piece_length pl l : forall fs, add_all_files l (set_piece_length pl fs) = set_piece_length pl (add_all_files l fs).
Proof. induction l as [|a l IH]; intros fs; [done|].
  change (add_all_files l (add a (set_piece_length pl fs)) = set_piece_length pl (add_all_files l (add a fs))). by rewrite add_set_piece_length. Qed.

(** Files added without flags have none. *)
Lemma no_flags name l : forall fs, Forall (fun e => file_flags e = 0) (m_files fs) ->
  Forall (fun e => file_flags e = 0) (m_files (add_all_files (map (source_addition name) l) fs)).
Proof.
  induction l as [|f l IH]; intros fs H; [done|]. cbn [map]. apply IH. unfold add, add_file_borrow.
  destruct (update_path_index _ _ _ _ _) as [e paths]. cbn [m_files]. apply Forall_app. split; [done|]. by apply Forall_singleton.
Qed.

Lemma source_additions_ok name files : plain_name name -> Forall made_file_ok files ->
  Forall addition_ok (map (source_addition name) files) /\ Forall (fun a => ad_dirs a <> []) (map (source_addition name) files) /\
  sum_sizes (map (source_addition name) files) = foldr (fun f n => mf_size f + n) 0 files.
Proof.
  intros Hname Hf. split_and!.
  - apply Forall_map. eapply Forall_impl; [exact Hf|]. intros f (Hd & Hl & Hs). split_and!; cbn [source_addition ad_dirs ad_leaf ad_size ad_filename].
    + constructor; [by apply plain_component|by apply plain_components].
    + by apply plain_component.
    + lia.
    + lia.
    + by left.
  - apply Forall_map. by eapply Forall_impl; [exact Hf|].
  - unfold sum_sizes. clear. induction files as [|f l IH]; cbn; [done|]. by rewrite IH.
Qed.

Lemma same_files_intro name fs files : forall l, Forall (fun e => file_flags e = 0) l ->
  map (fun e => (file_path fs e, if_size e)) l = map (fun f => (join_path (name :: made_path f), mf_size f)) files ->
  Forall2 (same_file name fs) l files.
Proof.
  induction files as [|f files IH]; intros [|e l] Hl Hmap; try done. apply Forall_cons in Hl as [He Hl].
  injection Hmap as Hp Hs Hmap. constructor; [by split_and!|by apply IH].
Qed.

(** The list that [add_file] makes of the files. *)
Lemma source_files_spec name pl files : source_ok name pl files -> let fs := set_piece_length pl (source_files name files) in
  Forall2 (same_file name fs) (m_files fs) files /\ m_name fs = name /\ m_files fs <> [] /\
  m_total_size fs = made_total (meant name pl files []) /\ m_piece_length fs = pl.
Proof.
  intros [Hname _ [Hne Hf] [Htot _] _] fs. destruct (source_additions_ok name files Hname Hf) as (Ha & Hd & Hs).
  unfold fs, source_files. rewrite <- add_all_set_piece_length.
  destruct (add_all_layout pl _ Ha (or_introl Hd)) as (_ & Ht & Hpl & Hm & _); [rewrite Hs; unfold made_total in Htot; cbn in Htot; lia|].
  split; [|split; [|split; [|split; [by rewrite Ht, Hs|done]]]].
  - apply same_files_intro; [by apply no_flags|]. unfold entries in Hm. rewrite !map_map in Hm.
    apply (f_equal (map (fun x => (x.1.1, x.2)))) in Hm. rewrite !map_map in Hm. exact Hm.
  - apply all_added_name; [by destruct files|done| |done]. apply Forall_map, Forall_true. intros f. by eexists.
  - apply (all_added_name _ _ name); [by destruct files|done| |done]. apply Forall_map, Forall_true. intros f. by eexists.
Qed.

(** ** The operations between the constructor and [generate] *)
Section Operations.
Context {US : UrlSort}.

Inductive ct_op :=
  | OpHash (index : Z) (h : bytes)
  | OpTracker (url : bytes) (tier : Z)
  | OpNode (node : bytes * Z)
  | OpUrlSeed (url : bytes)
  | OpHttpSeed (url : bytes)
  | OpComment (str : option bytes)
  | OpCreator (str : option bytes).

Definition run_op (c : create_torrent) (op : ct_op) : result create_torrent :=
  match op with
  | OpHash index h => set_hash index h c
  | OpTracker url tier => Ok (add_tracker url tier c)
  | OpNode node => Ok (add_node node c)
  | OpUrlSeed url => Ok (add_url_seed url c)
  | OpHttpSeed url => Ok (add_http_seed url c)
  | OpComment str => Ok (set_comment str c)
  | OpCreator str => Ok (set_creator str c)
  end.

Fixpoint run_ops (ops : list ct_op) (c : create_torrent) : result create_torrent :=
  match ops with [] => Ok c | op :: ops' => c ← run_op c op; run_ops ops' c end.

Lemma run_op_keeps c op c' : run_op c op = Ok c' ->
  ct_files c' = ct_files c /\ length (ct_piece_hash c') = length (ct_piece_hash c) /\ (plain_torrent c -> plain_torrent c').
Proof.
  destruct op as [i h|url tier|n|u|u|s|s]; cbn [run_op]; [|intros [= <-]; try done..].
  - unfold set_hash, assign_at. destruct (_ && _); [|done]. intros [= <-]. cbn. split; [done|]. split; [apply length_insert|]. by intros [].
  - unfold add_tracker. destruct (existsb _ _); [done|]. split; [done|]. split; [done|]. by intros [].
  - split; [done|]. split; [done|]. by intros [].
  - split; [done|]. split; [done|]. by intros [].
  - split; [done|]. split; [done|]. by intros [].
  - split; [done|]. split; [done|]. by intros [].
  - split; [done|]. split; [done|]. by intros [].
Qed.

Lemma run_ops_keeps ops : forall c c', run_ops ops c = Ok c' ->
  ct_files c' = ct_files c /\ length (ct_piece_hash c') = length (ct_piece_hash c) /\ (plain_torrent c -> plain_torrent c').
Proof.
  induction ops as [|op ops IH]; intros c c' H; cbn [run_ops] in H; [by injection H as <-|].
  apply result_bind_ok in H as (c1 & H1 & H). apply run_op_keeps in H1 as (E1 & E2 & E3). destruct (IH _ _ H) as (E4 & E5 & E6).
  split; [congruence|]. split; [congruence|]. auto.
Qed.

(** The URLs are those that were added, each once. *)
Lemma add_tracker_urls {UL : UrlSortLaws US} url tier c : NoDup (map fst (ct_urls c)) ->
  NoDup (map fst (ct_urls (add_tracker url tier c))) /\
  forall u, u ∈ map fst (ct_urls (add_tracker url tier c)) <-> u = url \/ u ∈ map fst (ct_urls c).
Proof.
  intros Hd. unfold add_tracker. destruct (existsb _ _) eqn:E.
  - split; [done|]. intros u. split; [by right|]. intros [->|]; [|done]. apply existsb_exists in E as (ae & Hae & Hu).
    apply bool_decide_eq_true in Hu. subst url. apply list_elem_of_fmap. exists ae. split; [done|]. by apply list_elem_of_In.
  - cbn [ct_urls set_ct_urls].
    assert (map fst (url_sort (ct_urls c ++ [(url, tier)])) ≡ₚ url :: map fst (ct_urls c)) as Hp.
    { rewrite (url_sort_permutes (ct_urls c ++ [(url, tier)])), map_app. cbn. by rewrite <- Permutation_cons_append. }
    rewrite Hp. split.
    + constructor; [|done]. intros (ae & -> & Hae)%list_elem_of_fmap. 
      assert (existsb (fun ae' => bool_decide (ae'.1 = ae.1)) (ct_urls c) = true) as E2; [|congruence].
      apply existsb_exists. exists ae. split; [by apply list_elem_of_In|]. by apply bool_decide_eq_true.
    + intros u. rewrite Hp. by rewrite elem_of_cons.
Qed.

Lemma run_ops_urls {UL : UrlSortLaws US} ops : forall c c', run_ops ops c = Ok c' -> NoDup (map fst (ct_urls c)) ->
  NoDup (map fst (ct_urls c')) /\
  forall u, u ∈ map fst (ct_urls c') <-> (exists tier, OpTracker u tier ∈ ops) \/ u ∈ map fst (ct_urls c).
Proof.
  induction ops as [|op ops IH]; intros c c' H Hd; cbn [run_ops] in H.
  - injection H as <-. split; [done|]. intros u. split; [by right|]. intros [[t Ht]|]; [by apply not_elem_of_nil in Ht|done].
  - apply result_bind_ok in H as (c1 & H1 & H).
    assert (NoDup (map fst (ct_urls c1)) /\ forall u, u ∈ map fst (ct_urls c1) <-> (exists tier, OpTracker u tier = op) \/ u ∈ map fst (ct_urls c)) as [Hd1 Hu1].
    { destruct op as [i h|url tier|n|u|u|s|s]; cbn [run_op] in H1.
      1: unfold set_hash, assign_at in H1; destruct (_ && _); [|done]; injection H1 as <-.
      2: { injection H1 as <-. destruct (add_tracker_urls url tier c Hd) as [Hd1 Hu]. split; [done|]. intros u. rewrite Hu.
        split; [intros [->|]; [left; by exists tier|by right]|]. intros [[t [= -> _]]|]; [by left|by right]. }
      all: try (injection H1 as <-); split; [exact Hd|]; intros u'; split; [by right|]; intros [[t Ht]|]; [done|done]. }
    destruct (IH _ _ H Hd1) as [Hd' Hu']. split; [done|]. intros u. rewrite Hu', Hu1. split.
    + intros [[t Ht]|[[t Ht]|]]; [left; exists t; by right|left; exists t; subst; by left|by right].
    + intros [[t Ht]|]; [|by right; right]. apply elem_of_cons in Ht as [Ht|Ht]; [right; left; by exists t|left; by exists t].
Qed.
End Operations.

(** The constructor, for a size of the pieces that is given. *)
Lemma count_pieces_small fs : 0 < m_piece_length fs -> 0 <= m_total_size fs ->
  (m_total_size fs + m_piece_length fs - 1) / m_piece_length fs < 2 ^ 31 ->
  count_pieces fs = (m_total_size fs + m_piece_length fs - 1) / m_piece_length fs /\ 0 <= count_pieces fs.
Proof.
  intros Hp Ht Hm. unfold count_pieces. rewrite Z.quot_div_nonneg by lia.
  assert (0 <= (m_total_size fs + m_piece_length fs - 1) / m_piece_length fs) by (apply Z.div_pos; lia). rewrite i32_small by lia. by split.
Qed.

Lemma ct_create_spec name pl files now : source_ok name pl files -> exists c,
  ct_create (source_files name files) pl (-1) 0 (-1) now = Ok c /\ plain_torrent c /\ ct_urls c = [] /\
  ct_files c = set_num_pieces (made_pieces (meant name pl files [])) (set_piece_length pl (source_files name files)) /\
  Z.of_nat (length (ct_piece_hash c)) = made_pieces (meant name pl files []).
Proof.
  intros Hok. destruct (source_files_spec name pl files Hok) as (Hs & _ & Hne & Ht & _). destruct Hok as [Hname Hpl [_ Hfiles] [Htot Hlim] Hpieces].
  cbv zeta in *. cbn [m_files m_total_size set_piece_length] in *. set (fs := source_files name files) in *. unfold ct_create.
  destruct (m_files fs) as [|first rest] eqn:Ef; [done|]. rewrite (proj2 (Z.eqb_neq (m_total_size fs) 0)) by lia.
  assert (has_parent_path (file_path fs first) = true) as Hparent.
  { inversion Hs as [|? f ? ? (Hp & _)]; subst. change (file_path (set_piece_length pl fs) first) with (file_path fs first) in Hp. rewrite Hp.
    apply Forall_inv in Hfiles as (_ & Hl & _). unfold made_path. rewrite app_comm_cons.
    rewrite has_parent_join by (by apply plain_component). by rewrite bool_decide_false. }
  rewrite Hparent, andb_true_r.
  change (has_flag 0 mutable_torrent_support) with false. change (has_flag 0 (Z.lor optimize_alignment mutable_torrent_support)) with false.
  set (c1 := if negb (ct_multifile (ct_initial fs 0 now)) then _ else _).
  assert (plain_torrent c1 /\ ct_urls c1 = []) as [Hc1 Hu1].
  { unfold c1. destruct (ct_multifile (ct_initial fs 0 now)) eqn:Em; cbn [negb]; by repeat split. }
  rewrite (pt_merkle _ Hc1). unfold choose_piece_size. rewrite (proj2 (Z.eqb_neq pl 0)) by lia. cbn [andb mbind result_bind m_piece_length set_piece_length].
  rewrite (proj2 (Z.eqb_neq pl 0)) by lia. unfold default_piece_limit in Hpieces.
  destruct (count_pieces_small (set_piece_length pl fs)) as [Hcount Hpos]; cbn [m_piece_length m_total_size set_piece_length]; [lia|lia| |].
  { rewrite Ht. change (made_pieces (meant name pl files []) < 2 ^ 31). lia. }
  cbn [m_piece_length m_total_size set_piece_length] in Hcount. rewrite Ht in Hcount.
  change (count_pieces (set_piece_length pl fs) = made_pieces (meant name pl files [])) in Hcount.
  rewrite (proj2 (Z.ltb_ge _ _)) by lia. eexists. split; [done|]. split; [by destruct Hc1|]. split; [done|]. cbn [ct_files ct_piece_hash set_ct_piece_hash set_ct_files].
  rewrite Hcount. split; [done|]. rewrite length_replicate. lia.
Qed.

Lemma concat_digests (l : list bytes) : Forall (fun h => length h = 20%nat) l -> length (concat l) = (20 * length l)%nat /\
  forall i h, l !! i = Some h -> take 20 (drop (20 * i) (concat l)) = h.
Proof.
  induction 1 as [|x l Hx _ [IHl IH]]; [by split|]. cbn [concat length]. split; [rewrite length_app; lia|]. intros [|i] h Hi.
  - injection Hi as <-. rewrite Nat.mul_0_r, drop_0. rewrite <- Hx. apply take_app_length.
  - cbn in Hi. rewrite drop_app_ge by lia. replace (20 * S i - length x)%nat with (20 * i)%nat by lia. by apply IH.
Qed.

Lemma meant_ok name pl files hashes : source_ok name pl files -> Forall (fun h => length h = 20%nat) hashes ->
  Z.of_nat (length hashes) = made_pieces (meant name pl files []) -> made_ok (meant name pl files (concat hashes)).
Proof.
  intros [Hname Hpl Hf Ht Hp] Hh Hl. split; [split_and!; by vm_compute|done|done|done|done|].
  split; [done|]. destruct (concat_digests hashes Hh) as [E _]. cbn [mt_pieces meant]. rewrite E.
  change (made_pieces (meant name pl files (concat hashes))) with (made_pieces (meant name pl files [])). lia.
Qed.

Lemma info_made_item mt : made_ok mt -> item_ok 4 (info_made mt).
Proof. intros Hok. split; [by apply info_made_plain|]. rewrite info_value_of. apply info_value_depth. Qed.

Lemma pairs_plain d : dict_ok d -> plain (EDict d) = true /\ (depth (value_of_entry (EDict d)) < 100)%nat.
Proof.
  intros [Hs Hd]. split.
  - cbn [plain]. rewrite Hs, andb_true_r. apply forallb_forall. intros kv Hkv%list_elem_of_In. rewrite Forall_forall in Hd.
    destruct (Hd kv Hkv) as (H1 & H2 & _). by rewrite H1, H2.
  - cbn [value_of_entry depth]. assert (forall n, (n <= 10)%nat -> (S n < 100)%nat) as H by (intros; lia). apply H.
    clear -Hd. induction Hd as [|kv d (_ & _ & Hkv) _ IH]; cbn; lia.
Qed.

Section Created.
Context {EN : Endian} {CRC : Crc32c} {PE : PastEnd} {SH : Shuffle} {SL : ShuffleLaws SH} {US : UrlSort} {UL : UrlSortLaws US} {SHA : Sha1}.

End Created.

(** ** From a torrent that was read *)

Lemma map_set_split {V} k (v : V) d : map_find k d = None -> exists d1 d2, d = d1 ++ d2 /\ map_set k v d = d1 ++ (k, v) :: d2.
Proof.
  induction d as [|[k' w] d IH]; cbn; intros Hn; [by exists [], []|]. case_bool_decide; [done|]. destruct (strview_less k k').
  - by exists [], ((k', w) :: d).
  - destruct (IH Hn) as (d1 & d2 & -> & ->). by exists ((k', w) :: d1), d2.
Qed.

Lemma write_all_app {A} (w : A -> result (bytes * Z)) l1 l2 b2 r2 : write_all w l2 = Ok (b2, r2) -> forall b1 r1,
  write_all w l1 = Ok (b1, r1) -> write_all w (l1 ++ l2) = Ok (b1 ++ b2, r1 + r2).
Proof.
  intros H2. induction l1 as [|x l1 IH]; intros b1 r1 H1; cbn [write_all app] in *.
  - injection H1 as <- <-. exact H2.
  - destruct (w x) as [[b r]|]; [|done]. cbn [mbind result_bind] in *. destruct (write_all w l1) as [[b' r']|]; [|done].
    cbn [mbind result_bind] in *. injection H1 as <- <-. rewrite (IH b' r' eq_refl). cbn [mbind result_bind].
    rewrite <- app_assoc. do 2 f_equal. lia.
Qed.

Lemma pairs_written d : Forall pair_ok d -> exists b, write_all write_pair d = Ok (b, Z.of_nat (length b)).
Proof.
  intros Hd. destruct (encode_pairs d) as (b & Hb & _); [|by exists b]. eapply Forall_impl; [exact Hd|].
  intros kv (Hk & Hp & _). split; [done|by apply encode_plain].
Qed.

(** The bytes before the value of the key [info]. *)
Definition info_key : bytes := bytes_of_string "4:info".

Section Regenerate.
Context {US : UrlSort} {SHA : Sha1} {PE : PastEnd}.

Lemma from_info_fields ti metadata now : 0 < m_piece_length (o_files ti) ->
  ct_files (ct_from_info ti metadata now) = o_files ti /\ ct_info_dict (ct_from_info ti metadata now) = EPreformatted metadata.
Proof.
  intros Hpl. unfold ct_from_info. rewrite (proj2 (Z.ltb_lt _ _) Hpl). cbn [negb].
  assert (forall l c, ct_files (foldl add_seed c l) = ct_files c) as Hseeds.
  { induction l as [|s l IH]; intros c; cbn; [done|]. rewrite IH. unfold add_seed. by destruct (ws_type s). }
  assert (forall l c, ct_files (foldl (fun c t => add_tracker (ae_url t) (ae_tier t) c) c l) = ct_files c) as Htrackers.
  { induction l as [|t l IH]; intros c; cbn; [done|]. rewrite IH. unfold add_tracker. by destruct (existsb _ _). }
  assert (forall l c, ct_files (foldl (fun c n => add_node n c) c l) = ct_files c) as Hnodes.
  { induction l as [|n l IH]; intros c; cbn; [done|]. by rewrite IH. }
  split; [|done]. cbn [ct_files set_ct_info_dict set_ct_piece_hash]. rewrite Hseeds, Htrackers, Hnodes.
  do 2 (case_bool_decide); by destruct (0 <? _).
Qed.

(** A torrent that is made from one that was read keeps its info section: the encoded file
    has the bytes that were read, as they were, behind the key [info], and so the section
    that is hashed is the same. *)
Theorem regenerated_info_section ti metadata now : 0 < m_piece_length (o_files ti) -> m_files (o_files ti) <> [] -> m_total_size (o_files ti) <> 0 ->
  let c := ct_from_info ti metadata now in texts_ok c ->
  exists e before after, generate c = Ok (e, c) /\
    bencode e = Ok (before ++ info_key ++ metadata ++ after, Z.of_nat (length (before ++ info_key ++ metadata ++ after))).
Proof.
  intros Hpl Hne Ht c Htexts. destruct (from_info_fields ti metadata now Hpl) as [Hf Hi]. fold c in Hf, Hi.
  destruct (generate_dict c (EPreformatted metadata) c) as (d & Hgen & [Hs Hd] & Hn & _); [by rewrite Hf|by rewrite Hf|done|by unfold generated_info; rewrite Hi|].
  destruct (map_set_split (bytes_of_string "info") (EPreformatted metadata) d Hn) as (d1 & d2 & Ed & E). rewrite E in Hgen. rewrite Ed in Hd. 
  apply Forall_app in Hd as [Hd1 Hd2]. destruct (pairs_written d1 Hd1) as [b1 H1]. destruct (pairs_written d2 Hd2) as [b2 H2].
  exists (EDict (d1 ++ (bytes_of_string "info", EPreformatted metadata) :: d2)), (100 :: b1), (b2 ++ [101]). split; [done|].
  assert (write_all write_pair (d1 ++ (bytes_of_string "info", EPreformatted metadata) :: d2) =
    Ok (b1 ++ (info_key ++ metadata) ++ b2, Z.of_nat (length b1) + (6 + Z.of_nat (length metadata) + Z.of_nat (length b2)))) as Hw.
  { apply write_all_app; [|done]. cbn [write_all]. rewrite H2. done. }
  unfold bencode. set (l := d1 ++ _) in *.
  change (bencode_recursive (EDict l)) with ('(out, ret) ← write_all write_pair l; Ok ([100] ++ out ++ [101], ret + 2)). rewrite Hw. cbn [mbind result_bind].
  f_equal. f_equal; [by rewrite <- !app_assoc|]. rewrite !length_app. cbn [length info_key]. 
  change (length info_key) with 6%nat. rewrite ?length_app. simpl. lia.
Qed.
End Regenerate.

(** Every operation on pieces of the torrent succeeds. *)
Lemma run_ops_returns {US : UrlSort} ops : forall c,
  Forall (fun op => match op with OpHash i _ => 0 <= i < Z.of_nat (length (ct_piece_hash c)) | _ => True end) ops ->
  exists c', run_ops ops c = Ok c'.
Proof.
  induction ops as [|op ops IH]; intros c H; [by exists c|]. apply Forall_cons in H as [Hop Hops]. cbn [run_ops].
  assert (exists c1, run_op c op = Ok c1) as [c1 H1].
  { destruct op as [i h|url tier|n|u|u|s|s]; cbn [run_op]; try by eexists. unfold set_hash, assign_at.
    rewrite (proj2 (Z.leb_le _ _)), (proj2 (Z.ltb_lt _ _)) by lia. by eexists. }
  rewrite H1. cbn [mbind result_bind]. apply IH. apply run_op_keeps in H1 as (_ & -> & _). exact Hops.
Qed.

(** The size of a piece that is chosen for a torrent: a power of two from 16 KiB to 16 MiB,
    such that a torrent of less than 655 GiB has no more than 83887 pieces. *)
Theorem auto_piece_size total : 0 < total -> let pl := choose_piece_size 0 total false in
  (exists i, 0 <= i <= 10 /\ pl = 2 ^ (14 + i)) /\ (total <= 703687441777 -> (total + pl - 1) / pl <= 83887).
Proof.
  intros Ht pl. assert (0 <= size_steps total size_table 0 <= 10) as Hi.
  { unfold size_table. cbn [size_steps]. repeat match goal with |- context [total <=? ?s] => destruct (Z.leb_spec total s) end; lia. }
  split.
  - exists (size_steps total size_table 0). split; [done|]. unfold pl, choose_piece_size, default_block_size. cbn [Z.eqb andb negb].
    rewrite Z.shiftl_mul_pow2, Z.pow_add_r by lia. lia.
  - intros Hmax. unfold pl, choose_piece_size, default_block_size, size_table. cbn [Z.eqb andb negb size_steps].
    repeat match goal with |- context [total <=? ?s] => destruct (Z.leb_spec total s) end; try lia;
      match goal with |- context [Z.shiftl 16384 ?k] => let x := eval vm_compute in (Z.shiftl 16384 k) in change (Z.shiftl 16384 k) with x end;
      apply Z.lt_succ_r, Z.div_lt_upper_bound; lia.
Qed.

(** ** Samples *)

#[local] Existing Instance sample_past_end.

Definition tier_before (a b : bytes * Z) : Prop := a.2 <= b.2.
#[local] Instance tier_before_dec : RelDecision tier_before := fun a b => Z_le_dec a.2 b.2.
#[local] Instance tier_before_total : Total tier_before.
Proof. intros a b. unfold tier_before. lia. Qed.
#[local] Instance tier_before_trans : Transitive tier_before.
Proof. intros a b c. unfold tier_before. lia. Qed.

Definition sample_sort : UrlSort := merge_sort tier_before.
Lemma sample_sort_laws : UrlSortLaws sample_sort.
Proof. split; intros l; [apply merge_sort_Permutation|apply (StronglySorted_merge_sort tier_before)]. Qed.

Definition sample_made_files : list made_file := [mk_made_file [] (key "a") 3; mk_made_file [key "d"] (key "b.txt") 5].
Definition sample_ops : list ct_op :=
  [OpTracker (key "http://b/") 1; OpHash 1 (fips_sha1 [2]); OpTracker (key "udp://a:1/") 0; OpComment (Some (key "made")); OpHash 0 (fips_sha1 [1]);
   OpTracker (key "http://b/") 2; OpUrlSeed (key "http://s/"); OpNode (key "n", 6881)].
Definition sample_c0 : create_torrent :=
  ok_or (ct_initial fs_empty 0 0) (ct_create (source_files (key "t") sample_made_files) 4 (-1) 0 (-1) 1000).
Definition sample_created : create_torrent := ok_or sample_c0 (run_ops (US := sample_sort) sample_ops sample_c0).
Definition created_text : bytes := Eval vm_compute in (ok_or ([], 0) (bencode (ok_or (EUndefined, sample_created) (generate (SHA := fips_sha1) sample_created)).1)).1.

(** The bytes that are made for the sample, and what they load as. *)
Example created_loads :
  ('(e, _) ← generate (SHA := fips_sha1) sample_created; bencode e) = Ok (created_text, Z.of_nat (length created_text)) /\
  bool_decide (bytes_ok (created_text ++ [10])) = true /\ Z.of_nat (length (created_text ++ [10])) <= 2000000 /\
  let o := sample_object (created_text ++ [10]) in
  is_ok (sample_create (created_text ++ [10])) = true /\ map ae_url (o_urls o) = [key "udp://a:1/"; key "http://b/"] /\
  map (fun f => (fe_path f, fe_size f)) (entries (o_files o)) = [(key "t/a", 3); (key "t/d/b.txt", 5)] /\
  hash_for_piece o 1 = fips_sha1 [2] /\ x_comment (o_extras o) = key "made" /\ x_creation_date (o_extras o) = 1000.
Proof. by vm_compute. Qed.

Lemma sample_source_ok : source_ok (key "t") 4 sample_made_files.
Proof.
  split; [by apply plain_name_intro|lia| |split_and!; by vm_compute|by vm_compute].
  split; [done|]. apply Forall_cons. split; [|apply Forall_singleton]; (split; [|split; [by apply plain_name_intro|simpl; lia]]).
  - apply Forall_nil_2.
  - apply Forall_singleton. by apply plain_name_intro.
Qed.


(** The info section of [one_file], and the torrent made from what it loads as. *)
Definition one_section : bytes := bytes_of_string "d6:lengthi5e4:name1:a12:piece lengthi4e6:pieces40:0123456789012345678901234567890123456789e".
Definition remade : create_torrent := ct_from_info (US := sample_sort) (sample_object one_file) one_section 1000.
Definition remade_text : bytes := Eval vm_compute in (ok_or ([], 0) ('(e, _) ← generate (SHA := fips_sha1) remade; bencode e)).1.

Lemma regenerated_info_section_witness : exists e before after, generate (SHA := fips_sha1) remade = Ok (e, remade) /\
  bencode e = Ok (before ++ info_key ++ one_section ++ after, Z.of_nat (length (before ++ info_key ++ one_section ++ after))).
Proof.
  apply (regenerated_info_section (US := sample_sort) (SHA := fips_sha1) (PE := sample_past_end) (sample_object one_file) one_section 1000).
  - by vm_compute.
  - by vm_compute.
  - by vm_compute.
  - apply texts_check_ok. by vm_compute.
Defined.

(** What it loads as has the same info hash and the same trackers; those of one tier have
    changed places, as sorting may do. *)
Example remade_loads :
  ('(e, _) ← generate (SHA := fips_sha1) remade; bencode e) = Ok (remade_text, Z.of_nat (length remade_text)) /\
  is_ok (sample_create remade_text) = true /\ o_info_hash (sample_object remade_text) = o_info_hash (sample_object one_file) /\
  map ae_url (o_urls (sample_object one_file)) = map key ["a"; "b"; "c"] /\ map ae_url (o_urls (sample_object remade_text)) = map key ["a"; "c"; "b"].
Proof. by vm_compute. Qed.

(** A torrent with a link [t/l] to its file [t/a]. *)
Definition linked_files : file_storage :=
  add_file (bytes_of_string "t/l") 0 flag_symlink 0 (bytes_of_string "a") (add_file (bytes_of_string "t/a") 3 0 0 [] fs_empty).
Definition linked : create_torrent := ok_or (ct_initial linked_files 0 0) (ct_create linked_files 16384 (-1) flag_symlinks (-1) 1000).
Definition linked_text : bytes := Eval vm_compute in (ok_or ([], 0) ('(e, _) ← generate (SHA := fips_sha1) linked; bencode e)).1.

(** The target is written with the name of the torrent before it, names nothing when it is
    read, and the link is made to point at itself. *)
Lemma symlink_lost :
  ('(e, _) ← generate (SHA := fips_sha1) linked; bencode e) = Ok (linked_text, Z.of_nat (length linked_text)) /\
  m_symlinks (ct_files linked) = [bytes_of_string "a"] /\ is_ok (sample_create linked_text) = true /\
  m_symlinks (o_files (sample_object linked_text)) = [bytes_of_string "l"].
Proof. by vm_compute. Qed.

(** A torrent of one hash tree: the root is written, and the tree kept. *)
Example merkle_written :
  let c := ok_or (ct_initial linked_files 0 0) (ct_create linked_files 1 (-1) flag_merkle (-1) 1000) in
  (fun r => length (ct_merkle_tree r.2)) <$> generate (SHA := fips_sha1) c = Ok 7%nat.
Proof. by vm_compute. Qed.
