(* ===== verification/IpFilter.v ===== *)
(** * Filters of addresses and ports

    [ip_filter] and [port_filter] ([extern/libtorrent/include/libtorrent/ip_filter.hpp],
    [extern/libtorrent/src/ip_filter.cpp]) say for each address, or port, which flags it has.  A
    filter is a set of the starts of ranges; a rule gives the addresses of a range new flags.
    The ranges are kept few: neighbours have different flags.  The template over the type of
    addresses is the class [Address]; what it needs of the type is [AddressLaws], which the
    byte arrays of IP addresses and the 16-bit ports fulfil. *)

From S2P Require Import Prelude.

(** ** Addresses *)

Class Address (A : Type) := {
  addr_eq_dec : EqDecision A;
  (** [operator<] *)
  addr_lt : A -> A -> bool;
  zero : A;
  plus_one : A -> A;
  minus_one : A -> A;
  max_addr : A
}.
#[global] Existing Instance addr_eq_dec.

(** The addresses are the numbers up to [addr_top], in order. *)
Class AddressLaws (A : Type) `{Address A} := {
  addr_ok : A -> Prop;
  addr_value : A -> Z;
  addr_top : Z;
  addr_value_range a : addr_ok a -> 0 <= addr_value a <= addr_top;
  addr_value_inj a b : addr_ok a -> addr_ok b -> addr_value a = addr_value b -> a = b;
  addr_lt_value a b : addr_ok a -> addr_ok b -> addr_lt a b = (addr_value a <? addr_value b);
  addr_zero : addr_ok zero /\ addr_value zero = 0;
  addr_max : addr_ok max_addr /\ addr_value max_addr = addr_top;
  addr_plus_one a : addr_ok a -> addr_value a < addr_top -> addr_ok (plus_one a) /\ addr_value (plus_one a) = addr_value a + 1;
  addr_minus_one a : addr_ok a -> 0 < addr_value a -> addr_ok (minus_one a) /\ addr_value (minus_one a) = addr_value a - 1
}.

(** *** Arrays of bytes *)

(** [std::array<unsigned char, n>], the bytes of an IP address *)
Record array (n : nat) := mk_array { array_bytes : bytes }.
Arguments mk_array {n} _.
Arguments array_bytes {n} _.

#[global] Instance array_eq_dec n : EqDecision (array n).
Proof. solve_decision. Defined.

(** [std::lexicographical_compare] *)
Fixpoint bytes_less (l r : bytes) : bool :=
  match l, r with
  | _, [] => false
  | [], _ :: _ => true
  | a :: l, b :: r => if a <? b then true else if b <? a then false else bytes_less l r
  end.

(** [extern/libtorrent/include/libtorrent/ip_filter.hpp:88-97] detail::plus_one
    The loop over the bytes, the last one first. *)
Fixpoint plus_loop (rev_bytes : bytes) : bytes :=
  match rev_bytes with
  | [] => []
  | t :: rest => if t <? 255 then t + 1 :: rest else 0 :: plus_loop rest
  end.

(** [extern/libtorrent/include/libtorrent/ip_filter.hpp:107-116] detail::minus_one *)
Fixpoint minus_loop (rev_bytes : bytes) : bytes :=
  match rev_bytes with
  | [] => []
  | t :: rest => if 0 <? t then t - 1 :: rest else 255 :: minus_loop rest
  end.

(** [extern/libtorrent/include/libtorrent/ip_filter.hpp:73-129] detail::zero, detail::plus_one, detail::minus_one, detail::max_addr *)
#[global] Instance array_address n : Address (array n) := {
  addr_lt a b := bytes_less (array_bytes a) (array_bytes b);
  zero := mk_array (replicate n 0);
  plus_one a := mk_array (rev (plus_loop (rev (array_bytes a))));
  minus_one a := mk_array (rev (minus_loop (rev (array_bytes a))));
  max_addr := mk_array (replicate n 255)
}.

(** [std::uint16_t], a port *)
Record port := mk_port { port_number : Z }.

#[global] Instance port_eq_dec : EqDecision port.
Proof. solve_decision. Defined.

(** [extern/libtorrent/include/libtorrent/ip_filter.hpp:81-134] detail::zero, detail::plus_one, detail::minus_one, detail::max_addr *)
#[global] Instance port_address : Address port := {
  addr_lt a b := port_number a <? port_number b;
  zero := mk_port 0;
  plus_one a := mk_port (u16 (port_number a + 1));
  minus_one a := mk_port (u16 (port_number a - 1));
  max_addr := mk_port 65535
}.

(** ** The filter *)

Section Filter.
Context {A : Type} `{Address A}.

(** [extern/libtorrent/include/libtorrent/ip_filter.hpp:243-252] filter_impl::range *)
Record range := mk_range {
  start : A;
  access : Z
}.

(** [extern/libtorrent/include/libtorrent/ip_filter.hpp:57-69] ip_range *)
Record ip_range := mk_ip_range {
  ir_first : A;
  ir_last : A;
  ir_flags : Z
}.

(** The [std::set] of the ranges is the list of its elements in order; an iterator is a place
    in it, the end its length. *)
Abbreviation access_list := (list range).

(** [std::set::upper_bound]: the first element that starts after the address. *)
Fixpoint set_upper_bound (a : A) (l : access_list) : nat :=
  match l with
  | [] => 0
  | r :: l' => if addr_lt a (start r) then 0 else S (set_upper_bound a l')
  end.

(** [std::set::lower_bound] *)
Fixpoint set_lower_bound (a : A) (l : access_list) : nat :=
  match l with
  | [] => 0
  | r :: l' => if addr_lt (start r) a then S (set_lower_bound a l') else 0
  end.

(** [std::set::insert]: the place of the element, or of the one that was there, and the set. *)
Definition set_insert (r : range) (l : access_list) : nat * access_list :=
  let p := set_lower_bound (start r) l in
  match l !! p with
  | Some e => if addr_lt (start r) (start e) then (p, take p l ++ r :: drop p l) else (p, l)
  | None => (p, l ++ [r])
  end.

(** An iterator still names its element after an insertion at [p] into a set that was [l]. *)
Definition moved (p : nat) (l l' : access_list) (i : nat) : nat :=
  if bool_decide (length l < length l' /\ p <= i)%nat then S i else i.

(** [*i] *)
Definition deref (l : access_list) (i : nat) : result range :=
  match l !! i with Some r => Ok r | None => Fault BadPrecondition end.

(** [extern/libtorrent/include/libtorrent/ip_filter.hpp:143-147] filter_impl::filter_impl *)
Definition filter_create : access_list := (set_insert (mk_range zero 0) []).2.

(** [extern/libtorrent/include/libtorrent/ip_filter.hpp:177-177] filter_impl::add_rule
    The elements between [i] and [j] are erased; [j] keeps to its element. *)
Definition erase_after (i j : nat) (l : access_list) : result (nat * access_list) :=
  if bool_decide (i = j) then Ok (j, l)
  else if bool_decide (S i <= j)%nat then Ok (S i, take (S i) l ++ drop j l)
  else Fault BadPrecondition.

(** [extern/libtorrent/include/libtorrent/ip_filter.hpp:178-190] filter_impl::add_rule *)
Definition write_rule (first : A) (flags first_access : Z) (i j : nat) (l : access_list) : result (nat * access_list) :=
  e ← deref l i;
  if bool_decide (start e = first) then Ok (j, <[i := mk_range first flags]> l)
  else if negb (first_access =? flags) then
    let '(p, l') := set_insert (mk_range first flags) l in
    Ok (moved p l l' j, l')
  else Ok (j, l).

(** [extern/libtorrent/include/libtorrent/ip_filter.hpp:162-190] filter_impl::add_rule
    From the range that holds the first address up to where the rule itself stands in the set. *)
Definition open_rule (first : A) (flags : Z) (i j : nat) (l : access_list) : result (nat * access_list) :=
  e ← deref l i;
  '(i, j, first_access, l) ←
    (if bool_decide (start e <> first /\ access e <> flags) then
       let '(p, l') := set_insert (mk_range first flags) l in
       Ok (p, moved p l l' j, access e, l')
     else if bool_decide (i <> 0%nat) then
       before ← deref l (pred i);
       if access before =? flags then Ok (pred i, j, access before, l)
       else Ok (i, j, access e, l)
     else Ok (i, j, access e, l));
  '(j, l) ← erase_after i j l;
  write_rule first flags first_access i j l.

(** [extern/libtorrent/include/libtorrent/ip_filter.hpp:192-203] filter_impl::add_rule
    What follows the last address. *)
Definition close_rule (last : A) (flags last_access : Z) (j : nat) (l : access_list) : access_list :=
  let open :=
    match l !! j with
    | Some e => bool_decide (minus_one (start e) <> last)
    | None => bool_decide (last <> max_addr)
    end in
  let '(j, l) :=
    if open && negb (last_access =? flags) then set_insert (mk_range (plus_one last) last_access) l
    else (j, l) in
  match l !! j with
  | Some e => if access e =? flags then delete j l else l
  | None => l
  end.

(** [extern/libtorrent/include/libtorrent/ip_filter.hpp:149-204] filter_impl::add_rule *)
Definition filter_add_rule (first last : A) (flags : Z) (l : access_list) : result access_list :=
  let i := set_upper_bound first l in
  let j := set_upper_bound last l in
  let i := pred i in
  e ← (if bool_decide (j = 0%nat) then Fault BadPrecondition else deref l (pred j));
  '(j, l) ← open_rule first flags i j l;
  Ok (close_rule last flags (access e) j l).

(** [extern/libtorrent/include/libtorrent/ip_filter.hpp:206-215] filter_impl::access *)
Definition filter_access (a : A) (l : access_list) : result Z :=
  e ← deref l (pred (set_upper_bound a l));
  Ok (access e).

(** [extern/libtorrent/include/libtorrent/ip_filter.hpp:217-239] filter_impl::export_filter *)
Fixpoint filter_export (l : access_list) : list ip_range :=
  match l with
  | [] => []
  | [r] => [mk_ip_range (start r) max_addr (access r)]
  | r :: (next :: _) as rest => mk_ip_range (start r) (minus_one (start next)) (access r) :: filter_export rest
  end.
End Filter.

Arguments range A : clear implicits.
Arguments ip_range A : clear implicits.

(** ** Addresses of both families *)

(** [boost::asio::ip::address] *)
Inductive address :=
  | V4 (a : array 4)
  | V6 (a : array 16).

(** [extern/libtorrent/include/libtorrent/ip_filter.hpp:312-315] ip_filter *)
Record ip_filter := mk_ip_filter {
  m_filter4 : list (range (array 4));
  m_filter6 : list (range (array 16))
}.

Definition ip_filter_create : ip_filter := mk_ip_filter filter_create filter_create.

(** [extern/libtorrent/src/ip_filter.cpp:37-51] ip_filter::add_rule
    [to_v4] and [to_v6] throw [bad_cast] on an address of the other family. *)
Definition ip_add_rule (first last : address) (flags : Z) (f : ip_filter) : result ip_filter :=
  match first, last with
  | V4 first, V4 last => l ← filter_add_rule first last flags (m_filter4 f); Ok (mk_ip_filter l (m_filter6 f))
  | V6 first, V6 last => l ← filter_add_rule first last flags (m_filter6 f); Ok (mk_ip_filter (m_filter4 f) l)
  | _, _ => Fault InvalidArgument
  end.

(** [extern/libtorrent/src/ip_filter.cpp:53-59] ip_filter::access *)
Definition ip_access (a : address) (f : ip_filter) : result Z :=
  match a with
  | V4 a => filter_access a (m_filter4 f)
  | V6 a => filter_access a (m_filter6 f)
  end.

(** [extern/libtorrent/src/ip_filter.cpp:61-65] ip_filter::export_filter *)
Definition ip_export_filter (f : ip_filter) : list (ip_range (array 4)) * list (ip_range (array 16)) :=
  (filter_export (m_filter4 f), filter_export (m_filter6 f)).

(** [extern/libtorrent/src/ip_filter.cpp:67-70] port_filter::add_rule *)
Definition port_add_rule (first last flags : Z) (l : list (range port)) : result (list (range port)) :=
  filter_add_rule (mk_port first) (mk_port last) flags l.

(** [extern/libtorrent/src/ip_filter.cpp:72-75] port_filter::access *)
Definition port_access (p : Z) (l : list (range port)) : result Z := filter_access (mk_port p) l.

(** ** What a filter means *)

Section Meaning.
Context {A : Type} `{AddressLaws A}.

Abbreviation access_list := (list (range A)).

Definition at_ (r : range A) : Z := addr_value (start r).

(** The flags of the address whose number is [x]: those of the last range that starts at or
    before it; [d] are those of an address before the first range. *)
Definition flags_at (d : Z) (l : access_list) (x : Z) : Z :=
  foldl (fun flags r => if at_ r <=? x then access r else flags) d l.

(** The ranges follow each other, neighbours differ, and the first starts at the first
    address. *)
Definition follows (before : option (range A)) (r : range A) : Prop :=
  match before with
  | None => at_ r = 0
  | Some b => at_ b < at_ r /\ access b <> access r
  end.

Fixpoint chain (before : option (range A)) (l : access_list) : Prop :=
  match l with
  | [] => True
  | r :: l' => addr_ok (start r) /\ follows before r /\ chain (Some r) l'
  end.

Definition filter_ok (l : access_list) : Prop := l <> [] /\ chain None l.

Definition last_of (before : option (range A)) (l : access_list) : option (range A) :=
  foldl (fun _ r => Some r) before l.

Lemma last_of_app b l l' : last_of b (l ++ l') = last_of (last_of b l) l'.
Proof. apply foldl_app. Qed.

Lemma chain_app l : forall b l', chain b (l ++ l') <-> chain b l /\ chain (last_of b l) l'.
Proof. induction l as [|r l IH]; intros b l'; simpl; [tauto|]. rewrite IH. unfold last_of. simpl. tauto. Qed.

(** Only the starts of what follows matter. *)
Lemma chain_after b b' l :
  (forall r, head l = Some r -> follows b r -> follows b' r) -> chain b l -> chain b' l.
Proof. destruct l as [|r l]; [done|]. intros Hf (? & Hb & ?). split; [done|]. split; [by apply Hf|done]. Qed.

Lemma chain_starts l : forall b r, chain (Some b) l -> r ∈ l -> at_ b < at_ r.
Proof.
  induction l as [|e l IH]; intros b r Hc Hin; [by apply not_elem_of_nil in Hin|]. destruct Hc as (_ & [Hlt _] & Hc).
  apply elem_of_cons in Hin as [->|Hin]; [done|]. specialize (IH _ _ Hc Hin). lia.
Qed.

Lemma chain_ok l : forall b, chain b l -> Forall (fun r => addr_ok (start r)) l.
Proof. induction l as [|r l IH]; intros b; [by constructor|]. intros (? & _ & ?). constructor; [done|by eapply IH]. Qed.

Lemma flags_at_app d l l' x : flags_at d (l ++ l') x = flags_at (flags_at d l x) l' x.
Proof. apply foldl_app. Qed.

Lemma flags_at_before d l x : Forall (fun r => x < at_ r) l -> flags_at d l x = d.
Proof.
  revert d; induction l as [|r l IH]; intros d Hl; [done|]. apply Forall_cons in Hl as [Hr Hl].
  unfold flags_at. simpl. rewrite (proj2 (Z.leb_gt _ _)) by lia. by apply IH.
Qed.

Lemma flags_at_after d l x : Forall (fun r => at_ r <= x) l ->
  forall b, flags_at (from_option access d b) l x = from_option access d (last_of b l).
Proof.
  induction 1 as [|r l Hr _ IH]; intros b; [done|]. unfold flags_at. simpl. rewrite (proj2 (Z.leb_le _ _)) by done. apply (IH (Some r)).
Qed.

(** A place in the set is where the starts pass an address. *)
Lemma set_upper_bound_app a l l' : addr_ok a ->
  Forall (fun r => addr_ok (start r) /\ at_ r <= addr_value a) l -> set_upper_bound a (l ++ l') = (length l + set_upper_bound a l')%nat.
Proof.
  intros Ha. induction 1 as [|r l [Hok Hle] _ IH]; [done|]. simpl. rewrite addr_lt_value by done.
  rewrite (proj2 (Z.ltb_ge _ _)) by done. by rewrite IH.
Qed.

Lemma set_upper_bound_0 a l : addr_ok a -> Forall (fun r => addr_ok (start r) /\ addr_value a < at_ r) l -> set_upper_bound a l = 0%nat.
Proof.
  intros Ha Hl. destruct Hl as [|r l [Hok Hlt] _]; [done|]. simpl. rewrite addr_lt_value by done.
  by rewrite (proj2 (Z.ltb_lt _ _)) by done.
Qed.

Lemma set_insert_here r l l' : addr_ok (start r) -> Forall (fun e => addr_ok (start e) /\ at_ e < at_ r) l ->
  Forall (fun e => addr_ok (start e) /\ at_ r < at_ e) l' -> set_insert r (l ++ l') = (length l, l ++ r :: l').
Proof.
  intros Hr Hl Hl'.
  assert (set_lower_bound (start r) (l ++ l') = length l) as Hp.
  { induction Hl as [|e l [Hok Hlt] _ IH]; simpl.
    - destruct Hl' as [|e l' [Hok Hlt] _]; [done|]. simpl. rewrite addr_lt_value by done.
      by rewrite (proj2 (Z.ltb_ge _ _)) by (unfold at_ in *; lia).
    - rewrite addr_lt_value by done. rewrite (proj2 (Z.ltb_lt _ _)) by done. by rewrite IH. }
  unfold set_insert. rewrite Hp, lookup_app_r, Nat.sub_diag by lia.
  destruct Hl' as [|e l' [Hok Hlt] _]; simpl; [by rewrite app_nil_r|].
  rewrite addr_lt_value by done. rewrite (proj2 (Z.ltb_lt _ _)) by done.
  by rewrite take_app_length, drop_app_length.
Qed.

Lemma moved_after p (l l' : access_list) i : length l' = S (length l) -> (p <= i)%nat -> moved p l l' i = S i.
Proof. intros Hl Hp. unfold moved. by rewrite bool_decide_true by lia. Qed.

Lemma deref_middle (l l' : access_list) r : deref (l ++ r :: l') (length l) = Ok r.
Proof. unfold deref. by rewrite list_lookup_middle. Qed.

(** ** What a rule does *)

(** A set, cut where a rule begins and where it ends. *)
Record cut (first last : A) (l pre seg post : access_list) : Prop := {
  cut_eq : l = pre ++ seg ++ post;
  cut_pre : Forall (fun r => addr_ok (start r) /\ at_ r < addr_value first) pre;
  cut_seg : Forall (fun r => addr_ok (start r) /\ addr_value first <= at_ r <= addr_value last) seg;
  cut_post : Forall (fun r => addr_ok (start r) /\ addr_value last < at_ r) post
}.

Lemma sorted_split (P : Z -> bool) b l : (forall x y, x <= y -> P y = true -> P x = true) -> chain b l ->
  exists l1 l2, l = l1 ++ l2 /\ Forall (fun r => P (at_ r) = true) l1 /\ Forall (fun r => P (at_ r) = false) l2.
Proof.
  intros HP. revert b; induction l as [|r l IH]; intros b Hc; [by exists [], []|].
  destruct Hc as (_ & _ & Hc). destruct (P (at_ r)) eqn:E.
  - destruct (IH _ Hc) as (l1 & l2 & -> & H1 & H2). exists (r :: l1), l2. split; [done|]. by split; [constructor|].
  - exists [], (r :: l). split; [done|]. split; [done|]. constructor; [done|]. apply Forall_forall. intros e He.
    pose proof (chain_starts _ _ _ Hc He). apply not_true_iff_false. intros Ht. rewrite (HP (at_ r) (at_ e)) in E; [done|lia|done].
Qed.

Lemma cut_exists first last l : addr_value first <= addr_value last -> filter_ok l ->
  exists pre seg post, cut first last l pre seg post.
Proof.
  intros Hle [_ Hc]. pose proof (chain_ok _ _ Hc) as Hok.
  destruct (sorted_split (fun x => x <? addr_value first) None l) as (pre & rest & -> & Hpre & Hrest); [intros; lia|done|].
  apply chain_app in Hc as [_ Hc]. apply Forall_app in Hok as [Hok1 Hok].
  destruct (sorted_split (fun x => x <=? addr_value last) (last_of None pre) rest) as (seg & post & -> & Hseg & Hpost); [intros x y Hxy Hy; apply Z.leb_le in Hy; apply Z.leb_le; lia|done|].
  apply Forall_app in Hrest as [Hrest _]. apply Forall_app in Hok as [Hok2 Hok3].
  exists pre, seg, post. split; [done| | |]; apply Forall_forall; intros r Hr; rewrite !Forall_forall in *; split; auto.
  - specialize (Hpre r Hr). simpl in Hpre. lia.
  - specialize (Hrest r Hr). specialize (Hseg r Hr). simpl in *. lia.
  - specialize (Hpost r Hr). simpl in Hpost. lia.
Qed.

(** The first half leaves what lies before the rule, and the rule unless it only continues
    the range before it. *)
Definition opening (pre : access_list) (first : A) (flags : Z) : access_list :=
  match last_of None pre with
  | Some b => if access b =? flags then [] else [mk_range first flags]
  | None => [mk_range first flags]
  end.

Lemma last_of_snoc b l r : last_of b (l ++ [r]) = Some r.
Proof. by rewrite last_of_app. Qed.

Lemma erase_after_middle (l1 seg post : access_list) r :
  erase_after (length l1) (length (l1 ++ r :: seg)) (l1 ++ r :: seg ++ post) = Ok (S (length l1), l1 ++ r :: post).
Proof.
  unfold erase_after. rewrite length_app. simpl. rewrite bool_decide_false by lia. rewrite bool_decide_true by lia.
  replace (l1 ++ r :: seg ++ post) with ((l1 ++ [r]) ++ seg ++ post) by (by rewrite <- app_assoc).
  rewrite take_app_length' by (rewrite length_app; simpl; lia).
  rewrite (app_assoc _ seg), drop_app_length' by (rewrite !length_app; simpl; lia). by rewrite <- app_assoc.
Qed.

Lemma start_ne r (a : A) : at_ r <> addr_value a -> start r <> a.
Proof. intros Hne <-. by apply Hne. Qed.

Lemma opening_snoc pre0 b first flags : opening (pre0 ++ [b]) first flags = if access b =? flags then [] else [mk_range first flags].
Proof. unfold opening. by rewrite last_of_snoc. Qed.

Section Rule.
Context (first last : A) (flags : Z) (l pre seg post : access_list).
Hypothesis first_ok : addr_ok first.
Hypothesis last_ok : addr_ok last.
Hypothesis l_ok : filter_ok l.
Hypothesis l_cut : cut first last l pre seg post.
Hypothesis in_order : addr_value first <= addr_value last.

Lemma cut_last : set_upper_bound last l = length (pre ++ seg).
Proof.
  destruct l_cut as [-> Hpre Hseg Hpost]. rewrite app_assoc, set_upper_bound_app; [|done|].
  - rewrite (set_upper_bound_0 last post); [lia|done|done].
  - apply Forall_app; split; eapply Forall_impl; [exact Hpre| |exact Hseg|]; simpl; intros r [? ?]; split; try done; lia.
Qed.

(** The rule starts where a range does. *)
Lemma open_rule_at a seg' : seg = a :: seg' -> start a = first ->
  open_rule first flags (length pre) (length (pre ++ seg)) l = Ok (length (pre ++ opening pre first flags), (pre ++ opening pre first flags) ++ post).
Proof.
  intros Hs Ha. pose proof (cut_eq _ _ _ _ _ _ l_cut) as Hl. pose proof (cut_pre _ _ _ _ _ _ l_cut) as Hpre. subst seg. simpl app in Hl.
  assert (forall v, write_rule first flags v (length pre) (S (length pre)) (pre ++ a :: post) =
    Ok (length (pre ++ [mk_range first flags]), (pre ++ [mk_range first flags]) ++ post)) as Hhere.
  { intros v. unfold write_rule. rewrite deref_middle. cbn [mbind result_bind]. rewrite bool_decide_true by done.
    rewrite insert_app_r_alt, Nat.sub_diag, length_app, Nat.add_1_r, <- app_assoc by done. done. }
  unfold open_rule. rewrite Hl at 1. rewrite deref_middle. cbn [mbind result_bind].
  rewrite bool_decide_false by naive_solver.
  assert (opening pre first flags = [mk_range first flags] ->
    ('(j, l) ← erase_after (length pre) (length (pre ++ a :: seg')) l; write_rule first flags (access a) (length pre) j l) =
    Ok (length (pre ++ opening pre first flags), (pre ++ opening pre first flags) ++ post)) as Hthen.
  { intros ->. rewrite Hl, erase_after_middle. apply Hhere. }
  clear Hhere. destruct pre as [|b pre0 _] using rev_ind; [rewrite bool_decide_false by naive_solver; by apply Hthen|].
  rewrite opening_snoc in *. apply Forall_app in Hpre as [_ Hb]. apply Forall_cons in Hb as [[Hbok Hblt] _].
  rewrite bool_decide_true by (rewrite length_app; simpl; lia).
  replace (pred (length (pre0 ++ [b]))) with (length pre0) by (rewrite length_app; simpl; lia).
  assert (deref l (length pre0) = Ok b) as -> by (rewrite Hl, <- app_assoc; apply deref_middle). cbn [mbind result_bind].
  destruct (access b =? flags) eqn:Eb; cbn [mbind result_bind]; [|by apply Hthen].
  rewrite Hl, <- !app_assoc. rewrite (erase_after_middle pre0 (a :: seg') post b : erase_after _ (length (pre0 ++ [b] ++ a :: seg')) (pre0 ++ [b] ++ a :: seg' ++ post) = _).
  cbn [mbind result_bind].
  unfold write_rule. rewrite deref_middle. cbn [mbind result_bind]. rewrite bool_decide_false by (apply start_ne; lia). rewrite Eb. cbn [negb].
  rewrite app_nil_r, length_app, Nat.add_1_r, <- ?app_assoc. done.
Qed.

(** The rule starts inside a range. *)
Lemma open_rule_inside pre0 b : pre = pre0 ++ [b] -> Forall (fun r => addr_value first < at_ r) seg ->
  open_rule first flags (length pre0) (length (pre ++ seg)) l = Ok (length (pre ++ opening pre first flags), (pre ++ opening pre first flags) ++ post).
Proof.
  intros Hp Hseg. destruct l_cut as [Hl Hpre Hseg' Hpost]. destruct l_ok as [_ Hc]. subst pre.
  assert (deref l (length pre0) = Ok b) as Hb by (rewrite Hl, <- app_assoc; apply deref_middle).
  apply Forall_app in Hpre as Hb'. destruct Hb' as [Hpre0 [[Hbok Hblt] _]%Forall_cons].
  unfold open_rule. rewrite Hb, opening_snoc. cbn [mbind result_bind].
  assert (start b <> first) as Hne by (apply start_ne; lia). destruct (access b =? flags) eqn:Eb.
  - rewrite bool_decide_false by lia.
    set (choice := (if bool_decide (length pre0 <> 0%nat) then _ else _) : result (nat * nat * Z * access_list)).
    assert (choice = Ok (length pre0, length ((pre0 ++ [b]) ++ seg), access b, l)) as ->.
    { unfold choice. clear choice. destruct pre0 as [|b0 pre00 _] using rev_ind; [done|]. rewrite Hl, <- !app_assoc in Hc.
      apply chain_app in Hc as [_ Hc]. destruct Hc as (_ & _ & _ & [_ Hdiff] & _).
      rewrite bool_decide_true by (rewrite length_app; simpl; lia).
      assert (deref l (pred (length (pre00 ++ [b0]))) = Ok b0) as ->
        by (rewrite length_app, Nat.add_1_r, Hl, <- !app_assoc; apply deref_middle).
      cbn [mbind result_bind]. by rewrite (proj2 (Z.eqb_neq _ _)) by lia. }
    cbn [mbind result_bind]. rewrite Hl, <- !app_assoc.
    rewrite (erase_after_middle pre0 seg post b : erase_after _ (length (pre0 ++ [b] ++ seg)) (pre0 ++ [b] ++ seg ++ post) = _).
    cbn [mbind result_bind]. unfold write_rule. rewrite deref_middle. cbn [mbind result_bind]. rewrite bool_decide_false by done. rewrite Eb.
    rewrite !length_app, Nat.add_1_r. done.
  - rewrite bool_decide_true by (split; [done|lia]). rewrite Hl, set_insert_here; [|done|done|].
    2: { apply Forall_app; split; [|eapply Forall_impl; [exact Hpost|intros r [? ?]; split; [done|cbn [start at_]; unfold at_ at 1; simpl; lia]]].
      rewrite Forall_forall in *. intros r Hr. split; [by apply Hseg'|by apply Hseg]. }
    rewrite moved_after by (rewrite ?length_app; simpl; rewrite ?length_app; lia). cbn [mbind result_bind].
    replace (S (length ((pre0 ++ [b]) ++ seg))) with (length ((pre0 ++ [b]) ++ mk_range first flags :: seg)) by (rewrite !length_app; simpl; lia).
    rewrite erase_after_middle. cbn [mbind result_bind]. unfold write_rule. rewrite deref_middle. cbn [mbind result_bind].
    rewrite bool_decide_true by done. rewrite insert_app_r_alt, Nat.sub_diag by done.
    f_equal. f_equal; [rewrite !length_app; simpl; lia|by rewrite <- !app_assoc].
Qed.

(** The first half of [add_rule], wherever the rule starts. *)
Lemma open_rule_spec :
  open_rule first flags (pred (set_upper_bound first l)) (set_upper_bound last l) l =
  Ok (length (pre ++ opening pre first flags), (pre ++ opening pre first flags) ++ post).
Proof.
  rewrite cut_last. pose proof l_cut as [Hl Hpre Hseg Hpost]. destruct l_ok as [Hne Hc].
  assert (set_upper_bound first l = (length pre + set_upper_bound first (seg ++ post))%nat) as ->.
  { rewrite Hl. apply set_upper_bound_app; [done|]. eapply Forall_impl; [exact Hpre|]. simpl. intros r [? ?]. split; [done|lia]. }
  assert (Forall (fun r => addr_ok (start r) /\ addr_value first < at_ r) post) as Hpost'.
  { eapply Forall_impl; [exact Hpost|]. simpl. intros r [? ?]. split; [done|lia]. }
  assert (chain (last_of None pre) (seg ++ post)) as Hc2 by (rewrite Hl in Hc; by apply chain_app in Hc as [_ ?]).
  destruct (decide (start <$> head seg = Some first)) as [Ha|Hno].
  - assert (exists a seg', seg = a :: seg' /\ start a = first) as (a & seg' & Es & Ha')
      by (revert Ha; clear; destruct seg as [|a seg']; [done|]; intros [= <-]; by exists a, seg').
    rewrite <- (open_rule_at a seg' Es Ha'). f_equal. rewrite Es.
    cbn [app set_upper_bound]. rewrite Ha', addr_lt_value, Z.ltb_irrefl by done.
    assert (set_upper_bound first (seg' ++ post) = 0%nat) as ->; [|lia]. apply set_upper_bound_0; [done|].
    rewrite Es in Hc2. destruct Hc2 as (_ & _ & Hc'). pose proof (chain_ok _ _ Hc') as Hok. rewrite Forall_forall in *.
    intros r Hr. split; [by apply Hok|]. pose proof (chain_starts _ _ _ Hc' Hr). unfold at_ in *. by rewrite Ha' in *.
  - assert (Forall (fun r => addr_value first < at_ r) seg) as Hafter.
    { revert Hno Hseg Hc2. clear -first_ok. destruct seg as [|a seg']; [done|]. intros Hno [[Hok Hle] _]%Forall_cons (_ & _ & Hc).
      assert (addr_value first < at_ a).
      { assert (at_ a <> addr_value first) as Hna; [|lia]. intros Heq. apply Hno. simpl. f_equal. by apply addr_value_inj. }
      constructor; [done|]. apply Forall_forall. intros r Hr. pose proof (chain_starts _ _ _ Hc (proj2 (elem_of_app _ _ _) (or_introl Hr))). lia. }
    assert (exists pre0 b, pre = pre0 ++ [b]) as (pre0 & b & Ep).
    { destruct (rev pre) as [|b rpre] eqn:Er.
      - exfalso. assert (pre = []) as Ep by (rewrite <- (rev_involutive pre); by rewrite Er). rewrite Ep in Hl. 
        assert (Forall (fun r => addr_value first < at_ r) l) as Hall.
        { rewrite Hl. cbn [app]. apply Forall_app; split; [done|]. eapply Forall_impl; [exact Hpost'|]. by intros r [_ ?]. }
        pose proof (addr_value_range first first_ok). revert Hne Hc Hall. clear -H1. destruct l as [|r l']; [done|].
        intros _ (_ & Hz & _) [Hlt _]%Forall_cons. simpl in Hz. lia.
      - exists (rev rpre), b. rewrite <- (rev_involutive pre). by rewrite Er. }
    rewrite <- (open_rule_inside pre0 b Ep Hafter). f_equal. rewrite set_upper_bound_0; [|done|].
    + rewrite Ep, length_app. simpl. lia.
    + apply Forall_app; split; [|done]. rewrite Forall_forall in *. intros r Hr. split; [by apply Hseg|by apply Hafter].
Qed.

End Rule.

(** The second half: what follows the rule keeps its flags, and a range that continues the
    rule disappears in it. *)
Definition closing (last : A) (flags last_access : Z) (post : access_list) : access_list :=
  match post with
  | e :: post' => if at_ e =? addr_value last + 1 then if access e =? flags then post' else post
                  else if last_access =? flags then post else mk_range (plus_one last) last_access :: post
  | [] => if (addr_value last =? addr_top) || (last_access =? flags) then [] else [mk_range (plus_one last) last_access]
  end.

Lemma insert_after_last last front post flags : addr_ok last -> addr_value last < addr_top ->
  Forall (fun r => addr_ok (start r) /\ at_ r <= addr_value last) front ->
  Forall (fun r => addr_ok (start r) /\ addr_value last + 1 < at_ r) post ->
  set_insert (mk_range (plus_one last) flags) (front ++ post) = (length front, front ++ mk_range (plus_one last) flags :: post).
Proof.
  intros Hl Hlt Hf Hp. destruct (addr_plus_one last Hl Hlt) as [Hok Hv]. apply set_insert_here; [done| |];
    (eapply Forall_impl; [eassumption|]); unfold at_; simpl; intros r [? ?]; (split; [done|lia]).
Qed.

Lemma close_rule_spec last flags front last_access post : addr_ok last ->
  Forall (fun r => addr_ok (start r) /\ at_ r <= addr_value last) front ->
  Forall (fun r => addr_ok (start r) /\ addr_value last < at_ r) post -> (exists b, chain b post) ->
  (forall e, head post = Some e -> access e <> last_access) ->
  close_rule last flags last_access (length front) (front ++ post) = front ++ closing last flags last_access post.
Proof.
  intros Hok Hfront Hpost [b0 Hc] Hdiff. pose proof (addr_value_range last Hok) as Hr. destruct addr_max as [Hmok Hmv].
  unfold close_rule, closing. rewrite lookup_app_r, Nat.sub_diag by done. destruct post as [|e post']; cbn [lookup list_lookup].
  - destruct (Z.eqb_spec (addr_value last) addr_top) as [Htop|Htop]; cbn [orb].
    + rewrite bool_decide_false by (intros []; apply addr_value_inj; by rewrite ?Hmv). cbn [andb].
      by rewrite lookup_app_r, Nat.sub_diag by done.
    + rewrite bool_decide_true by (intros ->; done). cbn [andb]. destruct (last_access =? flags) eqn:Ef; cbn [negb].
      * by rewrite lookup_app_r, Nat.sub_diag by done.
      * rewrite insert_after_last by (done || lia). rewrite list_lookup_middle by done. cbn [access]. by rewrite Ef.
  - apply Forall_cons in Hpost as [[Heok Helt] Hpost]. destruct Hc as (_ & _ & Hc).
    assert (Hm := addr_minus_one (start e) Heok). unfold at_ in Helt. specialize (Hm ltac:(lia)) as [Hmeok Hmev].
    specialize (Hdiff e eq_refl). unfold at_ at 1. destruct (Z.eqb_spec (addr_value (start e)) (addr_value last + 1)) as [Hn|Hn].
    + rewrite bool_decide_false by (intros []; apply addr_value_inj; [done..|lia]). cbn [andb]. rewrite list_lookup_middle by done.
      destruct (access e =? flags); [|done]. by rewrite delete_middle.
    + rewrite bool_decide_true by (intros <-; lia). cbn [andb]. destruct (last_access =? flags) eqn:Ef; cbn [negb].
      * rewrite list_lookup_middle by done. by rewrite (proj2 (Z.eqb_neq (access e) flags)) by lia.
      * pose proof (addr_value_range _ Heok). rewrite insert_after_last; [|done|lia|done|].
        -- rewrite list_lookup_middle by done. cbn [access]. by rewrite Ef.
        -- constructor; [unfold at_; split; [done|lia]|]. pose proof (chain_ok _ _ Hc) as Hcok. rewrite Forall_forall in *. intros r Hrin.
           split; [by apply Hcok|]. pose proof (chain_starts _ _ _ Hc Hrin). unfold at_ in *. lia.
Qed.

(** The new set is well formed again. *)
Lemma front_chain pre first flags : addr_ok first -> chain None pre -> (pre = [] -> addr_value first = 0) ->
  Forall (fun r => addr_ok (start r) /\ at_ r < addr_value first) pre ->
  chain None (pre ++ opening pre first flags) /\
  exists f, last_of None (pre ++ opening pre first flags) = Some f /\ access f = flags /\ at_ f <= addr_value first.
Proof.
  intros Hok Hc Hz Hpre. destruct pre as [|b pre0 _] using rev_ind.
  - cbn. split; [|by eexists]. split; [done|]. split; [|done]. by apply Hz.
  - rewrite opening_snoc. apply Forall_app in Hpre as [_ [[Hbok Hlt] _]%Forall_cons]. destruct (Z.eqb_spec (access b) flags) as [E|E].
    + rewrite app_nil_r, last_of_snoc. split; [done|]. exists b. split; [done|]. split; [done|lia].
    + rewrite last_of_app, chain_app, !last_of_snoc. split.
      * split; [done|]. cbn. by split_and!.
      * eexists. split; [done|]. by split; [|unfold at_; simpl].
Qed.

Lemma closing_chain last flags last_access post f b : addr_ok last -> at_ f <= addr_value last -> access f = flags ->
  at_ b <= addr_value last -> access b = last_access -> chain (Some b) post ->
  Forall (fun r => addr_ok (start r) /\ addr_value last < at_ r) post ->
  chain (Some f) (closing last flags last_access post).
Proof.
  intros Hok Hf Haf Hb Hab Hc Hpost. pose proof (addr_value_range last Hok) as Hr. unfold closing. destruct post as [|e post'].
  - destruct (Z.eqb_spec (addr_value last) addr_top); [done|]. destruct (Z.eqb_spec last_access flags); [done|]. cbn [orb].
    destruct (addr_plus_one last Hok ltac:(lia)) as [? Hv]. cbn. unfold at_ at 2. cbn. split_and!; try done; [lia|congruence].
  - destruct Hc as (Heok & [_ Hne] & Hc). apply Forall_cons in Hpost as [[_ Helt] Hpost]. pose proof (addr_value_range _ Heok) as Her. fold (at_ e) in Her.
    destruct (Z.eqb_spec (at_ e) (addr_value last + 1)) as [Hn|Hn].
    + destruct (Z.eqb_spec (access e) flags) as [Ee|Ee]; [|cbn; split_and!; try done; [lia|congruence]].
      revert Hc. apply chain_after. intros r _ [? ?]. split; [lia|congruence].
    + destruct (Z.eqb_spec last_access flags) as [El|El]; cbn.
      * split_and!; try done; [lia|congruence].
      * destruct (addr_plus_one last Hok ltac:(lia)) as [? Hv]. unfold at_ at 2 3. cbn. split_and!; try done; try lia; congruence.
Qed.

Lemma cut_chain first last l pre seg post : addr_ok first -> filter_ok l -> cut first last l pre seg post ->
  addr_value first <= addr_value last ->
  chain None pre /\ (pre = [] -> addr_value first = 0) /\
  exists b, deref l (pred (length (pre ++ seg))) = Ok b /\ length (pre ++ seg) <> 0%nat /\ at_ b <= addr_value last /\
    last_of None (pre ++ seg) = Some b /\ chain (Some b) post.
Proof.
  intros Hfok [Hne Hc] [-> Hpre Hseg Hpost] Hle. pose proof (addr_value_range first Hfok).
  assert (Forall (fun r => at_ r <= addr_value last) (pre ++ seg)) as Hin.
  { apply Forall_app; split; (eapply Forall_impl; [eassumption|]); simpl; intros r [? ?]; lia. }
  assert (forall r l', pre ++ seg ++ post = r :: l' -> at_ r = 0) as Hz by (intros r l' El; rewrite El in Hc; by destruct Hc as (_ & ? & _)).
  rewrite app_assoc in Hc. apply chain_app in Hc as [Hc Hcp]. split; [by apply chain_app in Hc as [? _]|]. split.
  - intros ->. destruct seg as [|r seg']; [destruct post as [|r post']; [done|]|].
    + apply Forall_cons in Hpost as [[_ Hlt] _]. specialize (Hz r post' eq_refl). lia.
    + apply Forall_cons in Hseg as [[_ ?] _]. specialize (Hz r (seg' ++ post) eq_refl). lia.
  - rewrite app_assoc in Hne, Hz |- *. remember (pre ++ seg) as ps eqn:Eps. clear Hpre Hseg Eps. destruct ps as [|b ps0 _] using rev_ind.
    + destruct post as [|r post']; [done|]. apply Forall_cons in Hpost as [[_ Hlt] _]. specialize (Hz r post' eq_refl). lia.
    + exists b. rewrite last_of_snoc in *. rewrite length_app, Nat.add_1_r. cbn [pred].
      apply Forall_app in Hin as [_ [Hb _]%Forall_cons]. split_and!; try done. by rewrite <- app_assoc; apply deref_middle.
Qed.

Lemma closing_flags last flags last_access post d d' x : addr_ok last -> addr_value last < x <= addr_top -> d = flags -> d' = last_access ->
  (exists b, chain b post) -> Forall (fun r => addr_ok (start r) /\ addr_value last < at_ r) post ->
  flags_at d (closing last flags last_access post) x = flags_at d' post x.
Proof.
  intros Hok Hx -> -> [b Hc] Hpost. unfold closing. destruct post as [|e post'].
  - rewrite (proj2 (Z.eqb_neq _ _)) by lia. cbn [orb]. destruct (Z.eqb_spec last_access flags) as [->|El]; [done|].
    destruct (addr_plus_one last Hok ltac:(lia)) as [? Hv]. unfold flags_at, at_. cbn. by rewrite (proj2 (Z.leb_le _ _)) by lia.
  - apply Forall_cons in Hpost as [[_ Helt] Hpost]. destruct (Z.eqb_spec (at_ e) (addr_value last + 1)) as [Hn|Hn].
    + destruct (Z.eqb_spec (access e) flags) as [<-|Ee]; unfold flags_at; cbn; by rewrite (proj2 (Z.leb_le (at_ e) x)) by lia.
    + destruct (Z.eqb_spec last_access flags) as [->|El]; [done|].
      destruct (addr_plus_one last Hok ltac:(lia)) as [? Hv]. unfold flags_at, at_. cbn. by rewrite (proj2 (Z.leb_le (addr_value (plus_one last)) x)) by lia.
Qed.

Lemma closing_after last flags last_access post : addr_ok last -> Forall (fun r => addr_ok (start r) /\ addr_value last < at_ r) post ->
  Forall (fun r => addr_value last < at_ r) (closing last flags last_access post).
Proof.
  intros Hok Hpost. pose proof (addr_value_range last Hok).
  assert (Forall (fun r => addr_value last < at_ r) post) as Hp by (eapply Forall_impl; [exact Hpost|by intros r [_ ?]]).
  assert (forall flags, addr_value last < addr_top -> addr_value last < at_ (mk_range (plus_one last) flags)) as Hnew
    by (intros v Hlt; destruct (addr_plus_one last Hok Hlt) as [_ Hv]; unfold at_; simpl; lia).
  unfold closing. destruct post as [|e post'].
  - destruct (Z.eqb_spec (addr_value last) addr_top); [done|]. destruct (last_access =? flags); [done|]. cbn [orb]. constructor; [apply Hnew; lia|done].
  - apply Forall_cons in Hpost as [[Heok Helt] _]. pose proof (addr_value_range _ Heok) as He. fold (at_ e) in He.
    repeat case_match; try done; [by apply Forall_cons in Hp as [_ ?]|]. constructor; [apply Hnew; lia|done].
Qed.

(** [add_rule] gives the addresses of the rule their flags and leaves the others theirs, and the
    set stays well formed. *)
Lemma filter_add_rule_spec first last flags l : addr_ok first -> addr_ok last -> addr_value first <= addr_value last -> filter_ok l ->
  exists l', filter_add_rule first last flags l = Ok l' /\ filter_ok l' /\
    forall d x, 0 <= x <= addr_top -> flags_at d l' x = if (addr_value first <=? x) && (x <=? addr_value last) then flags else flags_at d l x.
Proof.
  intros Hf Hl Hle Hok. destruct (cut_exists first last l Hle Hok) as (pre & seg & post & Hcut).
  destruct (cut_chain first last l pre seg post Hf Hok Hcut Hle) as (Hcpre & Hz & b & Hb & Hn & Hble & Hlast & Hcpost).
  pose proof (open_rule_spec first last flags l pre seg post Hf Hl Hok Hcut Hle) as Hopen.
  pose proof Hcut as [Hleq Hpre Hseg Hpost]. set (front := pre ++ opening pre first flags) in *.
  destruct (front_chain pre first flags Hf Hcpre Hz Hpre) as (Hcf & f & Hlf & Haf & Hfle). fold front in Hcf, Hlf.
  assert (Forall (fun r => addr_ok (start r) /\ at_ r <= addr_value first) front) as Hfront.
  { apply Forall_app; split; [eapply Forall_impl; [exact Hpre|]; simpl; intros r [? ?]; split; [done|lia]|].
    unfold opening. repeat case_match; repeat constructor; try done; unfold at_; simpl; lia. }
  exists (front ++ closing last flags (access b) post). split.
  { unfold filter_add_rule. rewrite (cut_last first last l pre seg post) in * by done. rewrite bool_decide_false by done. rewrite Hb. cbn [mbind result_bind].
    rewrite Hopen. cbn [mbind result_bind]. rewrite close_rule_spec; [done|done| |done|by exists (Some b)|].
    - eapply Forall_impl; [exact Hfront|]. simpl. intros r [? ?]. split; [done|lia].
    - intros e He. destruct post as [|e' post']; [done|]. injection He as ->. destruct Hcpost as (_ & [_ Hne] & _). congruence. }
  split.
  { split; [destruct front; [done|by destruct (closing _ _ _ _)]|]. apply chain_app. split; [done|]. rewrite Hlf.
    eapply (closing_chain last flags (access b) post f b); try done; lia. }
  intros d x Hx. rewrite flags_at_app, Hleq, app_assoc, (flags_at_app d (pre ++ seg)).
  destruct (Z.leb_spec (addr_value first) x) as [Hfx|Hfx]; cbn [andb].
  - assert (flags_at d front x = flags) as Hff.
    { assert (Forall (fun r => at_ r <= x) front) as Hall by (eapply Forall_impl; [exact Hfront|]; simpl; intros r [? ?]; lia).
      etrans; [exact (flags_at_after d front x Hall None)|]. by rewrite Hlf. }
    rewrite Hff. destruct (Z.leb_spec x (addr_value last)) as [Hxl|Hxl].
    + apply flags_at_before. eapply Forall_impl; [by apply closing_after|]. simpl. intros r ?. lia.
    + apply closing_flags; try done; [lia| |by exists (Some b)].
      assert (Forall (fun r => at_ r <= x) (pre ++ seg)) as Hall; [|etrans; [exact (flags_at_after d _ x Hall None)|]; by rewrite Hlast].
      apply Forall_app; split; (eapply Forall_impl; [eassumption|]); simpl; intros r [? ?]; lia.
  - assert (forall l', Forall (fun r => addr_value first <= at_ r) l' -> flags_at (flags_at d pre x) l' x = flags_at d pre x) as Hskip.
    { intros l' Hl'. apply flags_at_before. eapply Forall_impl; [exact Hl'|]. simpl. intros r ?. lia. }
    unfold front. rewrite !flags_at_app, !Hskip; try done.
    + eapply Forall_impl; [exact Hpost|]. simpl. intros r [? ?]. lia.
    + eapply Forall_impl; [exact Hseg|]. simpl. intros r [? ?]. lia.
    + eapply Forall_impl; [by apply closing_after|]. simpl. intros r ?. lia.
    + unfold opening. repeat case_match; repeat constructor; unfold at_; simpl; lia.
Qed.

Lemma filter_create_ok : filter_ok filter_create.
Proof. destruct addr_zero as [? Hz]. unfold filter_create, filter_ok. simpl. split; [done|]. by split_and!. Qed.

Lemma create_flags x : 0 <= x -> flags_at 0 filter_create x = 0.
Proof. intros Hx. unfold flags_at, filter_create. simpl. by case_match. Qed.

(** [access] finds the range by binary search, and it is the right one. *)
Lemma filter_access_spec a l : addr_ok a -> filter_ok l -> filter_access a l = Ok (flags_at 0 l (addr_value a)).
Proof.
  intros Ha [Hne Hc]. pose proof (addr_value_range a Ha). pose proof (chain_ok _ _ Hc) as Hok.
  destruct (sorted_split (fun x => x <=? addr_value a) None l) as (l1 & l2 & -> & H1' & H2'); [intros x y Hxy Hy; apply Z.leb_le in Hy; apply Z.leb_le; lia|done|].
  apply Forall_app in Hok as [Hok1 Hok2]. unfold filter_access. rewrite set_upper_bound_app, set_upper_bound_0; [|done| |done|].
  2-3: rewrite Forall_forall in *; intros r Hr; split; [by auto|]. 2: apply Z.leb_gt; by apply H2'. 2: apply Z.leb_le; by apply H1'.
  rewrite flags_at_app, (flags_at_before _ l2) by (eapply Forall_impl; [exact H2'|]; simpl; intros r ?; lia).
  assert (Forall (fun r => at_ r <= addr_value a) l1) as Hall by (eapply Forall_impl; [exact H1'|]; simpl; intros r ?; lia).
  destruct l1 as [|b l0 _] using rev_ind.
  - destruct l2 as [|r l2]; [done|]. destruct Hc as (_ & Hz & _). apply Forall_cons in H2' as [Hr _]. simpl in Hz, Hr. lia.
  - replace (flags_at 0 (l0 ++ [b]) (addr_value a)) with (access b)
      by (symmetry; etrans; [exact (flags_at_after 0 _ _ Hall None)|]; by rewrite last_of_snoc).
    rewrite length_app, Nat.add_0_r, Nat.add_1_r, <- app_assoc. cbn [pred app]. by rewrite deref_middle.
Qed.

(** A set is determined by the flags it gives, so no other says the same with fewer ranges. *)
Lemma chain_canonical l1 : forall b l2, addr_ok (start b) -> chain (Some b) l1 -> chain (Some b) l2 ->
  (forall x, at_ b < x <= addr_top -> flags_at (access b) l1 x = flags_at (access b) l2 x) -> l1 = l2.
Proof.
  assert (forall b r l, chain (Some b) (r :: l) -> flags_at (access b) (r :: l) (at_ r) = access r) as Hhead.
  { intros b r l (_ & _ & Hc). unfold flags_at. cbn [foldl]. rewrite Z.leb_refl. apply flags_at_before. apply Forall_forall.
    intros e He. by apply (chain_starts _ _ _ Hc). }
  assert (forall b r l x, chain (Some b) (r :: l) -> x < at_ r -> flags_at (access b) (r :: l) x = access b) as Hbefore.
  { intros b r l x Hc Hx. destruct Hc as (_ & _ & Hc). apply flags_at_before. constructor; [done|]. apply Forall_forall.
    intros e He. pose proof (chain_starts _ _ _ Hc He). lia. }
  assert (forall b r l, chain (Some b) (r :: l) -> at_ b < at_ r <= addr_top /\ access b <> access r) as Hin.
  { intros b r l (Hok & [? ?] & _). pose proof (addr_value_range _ Hok). unfold at_ in *. split; [lia|done]. }
  induction l1 as [|r1 l1 IH]; intros b [|r2 l2] Hb H1 H2 Heq; [done| | |].
  - exfalso. destruct (Hin _ _ _ H2) as [Hr Hne]. apply Hne. rewrite <- (Hhead b r2 l2 H2), <- Heq by done. done.
  - exfalso. destruct (Hin _ _ _ H1) as [Hr Hne]. apply Hne. rewrite <- (Hhead b r1 l1 H1), Heq by done. done.
  - destruct (Hin _ _ _ H1) as [Hr1 Hne1], (Hin _ _ _ H2) as [Hr2 Hne2].
    assert (at_ r1 = at_ r2) as Hat.
    { destruct (Z.lt_trichotomy (at_ r1) (at_ r2)) as [Hlt|[?|Hlt]]; [|done|]; exfalso.
      - apply Hne1. rewrite <- (Hhead b r1 l1 H1), Heq, Hbefore by done. done.
      - apply Hne2. rewrite <- (Hhead b r2 l2 H2), <- Heq, Hbefore by done. done. }
    assert (r1 = r2) as ->.
    { pose proof (Heq _ Hr1) as Ha. rewrite (Hhead b r1 l1 H1), Hat, (Hhead b r2 l2 H2) in Ha. destruct H1 as (Ho1 & _), H2 as (Ho2 & _).
      destruct r1 as [s1 a1], r2 as [s2 a2]. simpl in *. subst a2. f_equal. by apply addr_value_inj. }
    f_equal. destruct H1 as (Ho & _ & H1), H2 as (_ & _ & H2). apply (IH r2 l2); try done. intros x Hx.
    specialize (Heq x ltac:(lia)). unfold flags_at in Heq. cbn [foldl] in Heq. by rewrite (proj2 (Z.leb_le (at_ r2) x)) in Heq by lia.
Qed.

Lemma filter_canonical l1 l2 : filter_ok l1 -> filter_ok l2 ->
  (forall x, 0 <= x <= addr_top -> flags_at 0 l1 x = flags_at 0 l2 x) -> l1 = l2.
Proof.
  intros [Hn1 H1] [Hn2 H2] Heq. destruct l1 as [|r1 l1], l2 as [|r2 l2]; [done..|]. destruct H1 as (Ho1 & Hz1 & H1), H2 as (Ho2 & Hz2 & H2).
  simpl in Hz1, Hz2. unfold flags_at in Heq. cbn [foldl] in Heq. rewrite Hz1, Hz2 in Heq. pose proof (addr_value_range _ Ho1) as Ht. fold (at_ r1) in Ht.
  assert (r1 = r2) as <-.
  { pose proof (Heq 0 ltac:(lia)) as H0'. change (0 <=? 0) with true in H0'. cbn [Z.leb] in H0'. 
    fold (flags_at (access r1) l1 0) in H0'. fold (flags_at (access r2) l2 0) in H0'. rewrite !flags_at_before in H0'.
    - destruct r1 as [s1 a1], r2 as [s2 a2]. simpl in *. subst a2. f_equal. apply addr_value_inj; try done. unfold at_ in *. simpl in *. lia.
    - apply Forall_forall. intros r Hr. pose proof (chain_starts _ _ _ H2 Hr). lia.
    - apply Forall_forall. intros r Hr. pose proof (chain_starts _ _ _ H1 Hr). lia. }
  f_equal. apply (chain_canonical l1 r1 l2); try done. intros x Hx. specialize (Heq x ltac:(lia)).
  by rewrite (proj2 (Z.leb_le 0 x)) in Heq by lia.
Qed.

(** The exported ranges follow each other from [next] to the last address, and each has the
    flags [flags] gives its addresses. *)
Fixpoint exported (flags : Z -> Z) (next : Z) (rs : list (ip_range A)) : Prop :=
  match rs with
  | [] => next = addr_top + 1
  | r :: rs' => addr_value (ir_first r) = next /\ next <= addr_value (ir_last r) <= addr_top /\
      (forall x, next <= x <= addr_value (ir_last r) -> flags x = ir_flags r) /\
      match rs' with [] => True | r' :: _ => ir_flags r <> ir_flags r' end /\
      exported flags (addr_value (ir_last r) + 1) rs'
  end.

Lemma exported_ext f g rs : forall next, 0 <= next -> (forall x, 0 <= x <= addr_top -> f x = g x) -> exported f next rs -> exported g next rs.
Proof.
  induction rs as [|r rs IH]; intros next Hn Hfg; [done|]. intros (Hf & Hle & Hfl & Hd & Hrs). split_and!; try done; try lia.
  - intros x Hx. rewrite <- Hfg by lia. by apply Hfl.
  - apply IH; [lia|done|done].
Qed.

Lemma filter_export_spec l : forall r, chain (Some r) l -> addr_ok (start r) ->
  exported (flags_at 0 (r :: l)) (at_ r) (filter_export (r :: l)).
Proof.
  induction l as [|e l IH]; intros r Hc Hok; pose proof (addr_value_range _ Hok) as Hr.
  - destruct addr_max as [Hmok Hmv]. cbn. rewrite Hmv. split_and!; try done; try (unfold at_; lia).
    intros x Hx. unfold flags_at. cbn. by rewrite (proj2 (Z.leb_le _ _)) by lia.
  - pose proof Hc as (Heok & [Hlt Hne] & Hc'). specialize (IH e Hc' Heok). pose proof (addr_value_range _ Heok) as He. fold (at_ e) in He.
    destruct (addr_minus_one (start e) Heok) as [Hmok Hmv]; [unfold at_ in *; lia|]. fold (at_ e) in Hmv.
    change (filter_export (r :: e :: l)) with (mk_ip_range (start r) (minus_one (start e)) (access r) :: filter_export (e :: l)).
    cbn [exported ir_first ir_last ir_flags]. rewrite Hmv. replace (at_ e - 1 + 1) with (at_ e) by lia.
    assert (forall x, at_ e <= x -> flags_at 0 (r :: e :: l) x = flags_at 0 (e :: l) x) as Hsame.
    { intros x Hx. unfold flags_at. cbn. by rewrite (proj2 (Z.leb_le (at_ e) x)) by lia. }
    split_and!; try done; try (unfold at_ in *; lia).
    + intros x Hx. change (r :: e :: l) with ([r] ++ e :: l). rewrite flags_at_app, flags_at_before.
      * unfold flags_at. cbn. by rewrite (proj2 (Z.leb_le _ _)) by lia.
      * constructor; [lia|]. apply Forall_forall. intros e' He'. pose proof (chain_starts _ _ _ Hc' He'). lia.
    + by destruct l.
    + assert (forall next rs, at_ e <= next -> exported (flags_at 0 (e :: l)) next rs -> exported (flags_at 0 (r :: e :: l)) next rs) as Hmono;
        [|apply Hmono; [lia|done]].
      clear -Hsame. intros next rs. revert next. induction rs as [|i rs IH]; intros next Hn; [done|]. intros (Hf & Hle & Hfl & Hd & Hrs).
      split_and!; try done; try lia; [|apply IH; [lia|done]]. intros x Hx. rewrite Hsame by lia. by apply Hfl.
Qed.

(** *** Rules, one after the other *)

Definition rule_ok (r : A * A * Z) : Prop :=
  let '(first, last, _) := r in addr_ok first /\ addr_ok last /\ addr_value first <= addr_value last.

Fixpoint filter_rules (rules : list (A * A * Z)) (l : access_list) : result access_list :=
  match rules with
  | [] => Ok l
  | (first, last, flags) :: rules' => l ← filter_add_rule first last flags l; filter_rules rules' l
  end.

(** What a list of rules means: the last rule that holds an address counts. *)
Definition rules_flags (rules : list (A * A * Z)) (d x : Z) : Z :=
  foldl (fun v '(first, last, flags) => if (addr_value first <=? x) && (x <=? addr_value last) then flags else v) d rules.

Lemma filter_rules_spec rules : Forall rule_ok rules -> forall l, filter_ok l ->
  exists l', filter_rules rules l = Ok l' /\ filter_ok l' /\ forall x, 0 <= x <= addr_top -> flags_at 0 l' x = rules_flags rules (flags_at 0 l x) x.
Proof.
  induction 1 as [|[[first last] flags] rules (Hf & Hl & Hle) _ IH]; intros l Hok; [by exists l|].
  destruct (filter_add_rule_spec first last flags l Hf Hl Hle Hok) as (l1 & E1 & Hok1 & Hfl). cbn [filter_rules]. rewrite E1. cbn [mbind result_bind].
  destruct (IH l1 Hok1) as (l' & -> & Hok' & Hfl'). exists l'. split_and!; try done. intros x Hx. rewrite Hfl', Hfl by done. done.
Qed.

(** A filter made by rules gives every address the flags of the last rule that holds it, exports
    ranges that say the same, and is the only filter that does. *)
Lemma filter_made rules : Forall rule_ok rules ->
  exists l, filter_rules rules filter_create = Ok l /\
    (forall a, addr_ok a -> filter_access a l = Ok (rules_flags rules 0 (addr_value a))) /\
    exported (rules_flags rules 0) 0 (filter_export l) /\
    forall rules', Forall rule_ok rules' -> (forall x, 0 <= x <= addr_top -> rules_flags rules' 0 x = rules_flags rules 0 x) ->
      filter_rules rules' filter_create = Ok l.
Proof.
  intros Hr. destruct (filter_rules_spec rules Hr _ filter_create_ok) as (l & E & Hok & Hfl).
  assert (forall x, 0 <= x <= addr_top -> flags_at 0 l x = rules_flags rules 0 x) as Hfl0 by (intros x Hx; rewrite Hfl, create_flags by lia; done).
  exists l. split_and!; [done| | |].
  - intros a Ha. rewrite filter_access_spec by done. by rewrite Hfl0 by by apply addr_value_range.
  - apply (exported_ext (flags_at 0 l)); [lia|done|]. destruct Hok as [Hne Hc]. destruct l as [|r l]; [done|]. destruct Hc as (Ho & Hz & Hc).
    simpl in Hz. pose proof (filter_export_spec l r Hc Ho) as Hx. by rewrite Hz in Hx.
  - intros rules' Hr' Heq. destruct (filter_rules_spec rules' Hr' _ filter_create_ok) as (l' & -> & Hok' & Hfl').
    f_equal. apply filter_canonical; try done. intros x Hx. rewrite Hfl', create_flags, Heq, Hfl0 by lia. done.
Qed.
End Meaning.

(** ** The addresses of the code *)

Lemma unbe_cons b l : unbe (b :: l) = b * 256 ^ Z.of_nat (length l) + unbe l.
Proof.
  induction l as [|c l IH] using rev_ind; [cbn; lia|]. rewrite app_comm_cons, !unbe_app, IH, length_app, Nat.add_1_r, Nat2Z.inj_succ, Z.pow_succ_r by lia. lia.
Qed.

Lemma bytes_less_unbe l r : bytes_ok l -> bytes_ok r -> length l = length r -> bytes_less l r = (unbe l <? unbe r).
Proof.
  intros Hl. revert r. induction Hl as [|a l Ha Hl IH]; intros [|b r] Hr Hlen; try done. apply Forall_cons in Hr as [Hb Hr].
  injection Hlen as Hlen. pose proof (unbe_bound l Hl). pose proof (unbe_bound r Hr). unfold byte_ok in *.
  cbn [bytes_less]. rewrite (IH r Hr Hlen), !unbe_cons. rewrite Hlen in *. set (p := 256 ^ Z.of_nat (length r)) in *.
  destruct (Z.ltb_spec a b); [symmetry; apply Z.ltb_lt; nia|]. destruct (Z.ltb_spec b a); [symmetry; apply Z.ltb_ge; nia|].
  assert (a = b) as -> by lia. apply eq_iff_eq_true. rewrite !Z.ltb_lt. lia.
Qed.

Lemma unbe_inj l r : bytes_ok l -> bytes_ok r -> length l = length r -> unbe l = unbe r -> l = r.
Proof. intros Hl Hr Hlen E. rewrite <- (be_unbe l Hl), <- (be_unbe r Hr). by rewrite Hlen, E. Qed.

(** The carry of the loop runs over the last bytes. *)
Lemma plus_loop_spec l : bytes_ok l -> bytes_ok (rev (plus_loop l)) /\ length (plus_loop l) = length l /\
  (unbe (rev l) + 1 < 256 ^ Z.of_nat (length l) -> unbe (rev (plus_loop l)) = unbe (rev l) + 1).
Proof.
  induction 1 as [|t l Ht Hl (IH1 & IH2 & IH3)]; [cbn; split_and!; try done; constructor|]. unfold byte_ok in Ht. cbn [plus_loop rev length].
  rewrite Nat2Z.inj_succ, Z.pow_succ_r by lia. assert (bytes_ok (rev l)) as Hrl by (by apply Forall_rev). pose proof (unbe_bound _ Hrl).
  destruct (Z.ltb_spec t 255); cbn [rev length]; rewrite !unbe_app.
  - split_and!; [|done|lia]. apply Forall_app; split; [done|]. repeat constructor; unfold byte_ok in *; lia.
  - rewrite IH2. split_and!; [|done|].
    + apply Forall_app; split; [done|]. repeat constructor; unfold byte_ok; lia.
    + intros Hlt. rewrite IH3 by lia. lia.
Qed.

Lemma minus_loop_spec l : bytes_ok l -> bytes_ok (rev (minus_loop l)) /\ length (minus_loop l) = length l /\
  (0 < unbe (rev l) -> unbe (rev (minus_loop l)) = unbe (rev l) - 1).
Proof.
  induction 1 as [|t l Ht Hl (IH1 & IH2 & IH3)]; [cbn; split_and!; try done; constructor|]. unfold byte_ok in Ht. cbn [minus_loop rev length].
  assert (bytes_ok (rev l)) as Hrl by (by apply Forall_rev). pose proof (unbe_bound _ Hrl).
  destruct (Z.ltb_spec 0 t); cbn [rev length]; rewrite !unbe_app.
  - split_and!; [|done|lia]. apply Forall_app; split; [done|]. repeat constructor; unfold byte_ok in *; lia.
  - rewrite IH2. split_and!; [|done|].
    + apply Forall_app; split; [done|]. repeat constructor; unfold byte_ok; lia.
    + intros Hlt. rewrite IH3 by lia. lia.
Qed.

Lemma unbe_replicate n b : 0 <= b < 256 -> bytes_ok (replicate n b) /\ unbe (replicate n b) * 255 = b * (256 ^ Z.of_nat n - 1).
Proof.
  intros Hb. split; [by apply Forall_replicate|]. induction n as [|n IH]; [cbn; lia|]. cbn [replicate].
  rewrite unbe_cons, length_replicate, Nat2Z.inj_succ, Z.pow_succ_r by lia. lia.
Qed.

#[global, refine] Instance array_laws n : AddressLaws (array n) := {
  addr_ok a := length (array_bytes a) = n /\ bytes_ok (array_bytes a);
  addr_value a := unbe (array_bytes a);
  addr_top := 256 ^ Z.of_nat n - 1
}.
Proof.
  - intros [l] [Hl Hb]. simpl in *. subst n. pose proof (unbe_bound l Hb). lia.
  - intros [l] [r] [Hl Hb] [Hl' Hb'] E. simpl in *. f_equal. apply unbe_inj; congruence || done.
  - intros [l] [r] [Hl Hb] [Hl' Hb']. simpl in *. apply bytes_less_unbe; congruence || done.
  - destruct (unbe_replicate n 0) as [? ?]; [lia|]. simpl. rewrite length_replicate. split_and!; try done. lia.
  - destruct (unbe_replicate n 255) as [? ?]; [lia|]. simpl. rewrite length_replicate. split_and!; try done. lia.
  - intros [l] [Hl Hb] Hlt. simpl in *. subst n. destruct (plus_loop_spec (rev l)) as (Hp1 & Hp2 & Hp3); [by apply Forall_rev|].
    rewrite ?length_rev, ?rev_involutive in *. rewrite Hp2. split_and!; try done. apply Hp3. lia.
  - intros [l] [Hl Hb] Hlt. simpl in *. subst n. destruct (minus_loop_spec (rev l)) as (Hp1 & Hp2 & Hp3); [by apply Forall_rev|].
    rewrite ?length_rev, ?rev_involutive in *. rewrite Hp2. split_and!; try done. by apply Hp3.
Defined.

#[global, refine] Instance port_laws : AddressLaws port := {
  addr_ok p := 0 <= port_number p < 2 ^ 16;
  addr_value := port_number;
  addr_top := 65535
}.
Proof.
  - intros p. lia.
  - intros [a] [b]. simpl. by intros _ _ ->.
  - done.
  - done.
  - done.
  - intros [a]. simpl. intros. rewrite u16_small by lia. lia.
  - intros [a]. simpl. intros. rewrite u16_small by lia. lia.
Defined.

(** ** Both families *)

Abbreviation ip_rule := (address * address * Z)%type.

Definition v4_rules (rules : list ip_rule) : list (array 4 * array 4 * Z) :=
  omap (fun '(first, last, flags) => match first, last with V4 a, V4 b => Some (a, b, flags) | _, _ => None end) rules.

Definition v6_rules (rules : list ip_rule) : list (array 16 * array 16 * Z) :=
  omap (fun '(first, last, flags) => match first, last with V6 a, V6 b => Some (a, b, flags) | _, _ => None end) rules.

(** The ends of a rule are of one family, and in order. *)
Definition ip_rule_ok (r : ip_rule) : Prop :=
  match r with
  | (V4 a, V4 b, flags) => rule_ok (a, b, flags)
  | (V6 a, V6 b, flags) => rule_ok (a, b, flags)
  | _ => False
  end.

Definition address_ok (a : address) : Prop := match a with V4 a => addr_ok a | V6 a => addr_ok a end.

Definition add_rules (rules : list ip_rule) (f : ip_filter) : result ip_filter :=
  foldl (fun f '(first, last, flags) => f ← f; ip_add_rule first last flags f) (Ok f) rules.

(** The rule of [rules] that counts for an address. *)
Definition rule_holds (a : address) (r : ip_rule) : bool :=
  match a, r with
  | V4 a, (V4 first, V4 last, _) => negb (addr_lt a first) && negb (addr_lt last a)
  | V6 a, (V6 first, V6 last, _) => negb (addr_lt a first) && negb (addr_lt last a)
  | _, _ => false
  end.

Definition flags_of (rules : list ip_rule) (a : address) : Z :=
  foldl (fun v r => if rule_holds a r then r.2 else v) 0 rules.

Lemma foldl_fault {X S : Type} (step : S -> X -> result S) (xs : list X) e : foldl (fun r x => s ← r; step s x) (Fault e) xs = Fault e.
Proof. induction xs as [|x xs IH]; [done|]. apply IH. Qed.

Lemma add_rules_families rules : Forall ip_rule_ok rules -> forall f l4 l6, filter_rules (v4_rules rules) (m_filter4 f) = Ok l4 ->
  filter_rules (v6_rules rules) (m_filter6 f) = Ok l6 -> add_rules rules f = Ok (mk_ip_filter l4 l6).
Proof.
  induction 1 as [|[[[a|a] [b|b]] flags] rules Hr _ IH]; intros f l4 l6 H4 H6; try done.
  - cbn in H4, H6. injection H4 as <-. injection H6 as <-. by destruct f.
  - cbn [v4_rules omap list_omap filter_rules] in H4. apply result_bind_ok in H4 as (l & E & H4).
    unfold add_rules. cbn [foldl mbind result_bind ip_add_rule]. rewrite E. cbn [mbind result_bind]. by apply IH.
  - cbn [v6_rules omap list_omap filter_rules] in H6. apply result_bind_ok in H6 as (l & E & H6).
    unfold add_rules. cbn [foldl mbind result_bind ip_add_rule]. rewrite E. cbn [mbind result_bind]. by apply IH.
Qed.

Lemma family_rules_ok rules : Forall ip_rule_ok rules -> Forall rule_ok (v4_rules rules) /\ Forall rule_ok (v6_rules rules).
Proof. induction 1 as [|[[[a|a] [b|b]] flags] rules Hr _ [IH4 IH6]]; try done; split; try done; by constructor. Qed.

Lemma holds_value {A} `{AddressLaws A} a first last : addr_ok a -> addr_ok first -> addr_ok last ->
  negb (addr_lt a first) && negb (addr_lt last a) = (addr_value first <=? addr_value a) && (addr_value a <=? addr_value last).
Proof. intros Ha Hf Hl. rewrite !addr_lt_value by done. by rewrite <- !Z.leb_antisym. Qed.

Lemma flags_of_family rules : Forall ip_rule_ok rules ->
  (forall a, addr_ok a -> flags_of rules (V4 a) = rules_flags (v4_rules rules) 0 (addr_value a)) /\
  (forall a, addr_ok a -> flags_of rules (V6 a) = rules_flags (v6_rules rules) 0 (addr_value a)).
Proof.
  unfold flags_of, rules_flags. generalize 0 as d. intros d Hr. split; intros a Ha; revert d;
    induction Hr as [|[[[b|b] [c|c]] flags] rules Hr _ IH]; intros d; try done; destruct Hr as (Hb & Hc & _);
    cbn [v4_rules v6_rules omap list_omap foldl rule_holds snd]; rewrite ?holds_value by done; apply IH.
Qed.

Lemma array_value n x : 0 <= x <= 256 ^ Z.of_nat n - 1 -> exists a : array n, addr_ok a /\ addr_value a = x.
Proof.
  intros Hx. exists (mk_array (be n x)). cbn. rewrite length_be, unbe_be_small by lia. split_and!; try done. apply be_bytes_ok.
Qed.

(** C39: After rules are added whose ends are of one family and in order, every address has the flags of the last rule that holds it, or
    none; the exported ranges cover the addresses of each family once, in order, with these
    flags, and neighbours differ; and rules that say the same about every address make the
    same filter. *)
Theorem ip_filter_last_rule rules : Forall ip_rule_ok rules ->
  exists f, add_rules rules ip_filter_create = Ok f /\
    (forall a, address_ok a -> ip_access a f = Ok (flags_of rules a)) /\
    exported (rules_flags (v4_rules rules) 0) 0 (ip_export_filter f).1 /\
    exported (rules_flags (v6_rules rules) 0) 0 (ip_export_filter f).2 /\
    forall rules', Forall ip_rule_ok rules' -> (forall a, address_ok a -> flags_of rules' a = flags_of rules a) ->
      add_rules rules' ip_filter_create = Ok f.
Proof.
  intros Hr. destruct (family_rules_ok rules Hr) as [H4 H6]. destruct (flags_of_family rules Hr) as [F4 F6].
  destruct (filter_made _ H4) as (l4 & E4 & A4 & X4 & U4), (filter_made _ H6) as (l6 & E6 & A6 & X6 & U6).
  exists (mk_ip_filter l4 l6). split_and!; [by apply add_rules_families| |done|done|].
  - intros [a|a] Ha; cbn [ip_access m_filter4 m_filter6]; [by rewrite F4, A4|by rewrite F6, A6].
  - intros rules' Hr' Heq. destruct (family_rules_ok rules' Hr') as [H4' H6']. destruct (flags_of_family rules' Hr') as [F4' F6'].
    apply add_rules_families; [done|apply U4; [done|]|apply U6; [done|]]; intros x Hx; destruct (array_value _ x Hx) as (a & Ha & <-).
    + rewrite <- F4, <- F4' by done. by apply Heq.
    + rewrite <- F6, <- F6' by done. by apply Heq.
Qed.

(** The port filter, likewise. *)
Theorem port_filter_last_rule rules : Forall (rule_ok (A := port)) rules ->
  exists l, filter_rules rules filter_create = Ok l /\
    (forall p, 0 <= p < 2 ^ 16 -> port_access p l = Ok (rules_flags rules 0 p)) /\
    exported (rules_flags rules 0) 0 (filter_export l).
Proof.
  intros Hr. destruct (filter_made rules Hr) as (l & E & Ha & Hx & _). exists l. split_and!; [done| |done].
  intros p Hp. unfold port_access. by rewrite Ha by (cbn; lia).
Qed.

(** ** Samples *)

(** 10.0.0.0/8 is blocked, 10.1.0.0/16 then allowed again, and an IPv6 network blocked. *)
Definition sample_rules : list ip_rule :=
  let net l := mk_array (l ++ replicate (16 - length l) 0) in
  let top l := mk_array (l ++ replicate (16 - length l) 255) in
  [(V4 (mk_array [10; 0; 0; 0]), V4 (mk_array [10; 255; 255; 255]), 1);
   (V6 (net [254; 128]), V6 (top [254; 128]), 1);
   (V4 (mk_array [10; 1; 0; 0]), V4 (mk_array [10; 1; 255; 255]), 0)].

Example sample_ranges :
  (fun f => map (fun r => (array_bytes (ir_first r), array_bytes (ir_last r), ir_flags r)) (ip_export_filter f).1) <$> add_rules sample_rules ip_filter_create =
  Ok [([0; 0; 0; 0], [9; 255; 255; 255], 0); ([10; 0; 0; 0], [10; 0; 255; 255], 1); ([10; 1; 0; 0], [10; 1; 255; 255], 0);
      ([10; 2; 0; 0], [10; 255; 255; 255], 1); ([11; 0; 0; 0], [255; 255; 255; 255], 0)].
Proof. vm_compute. reflexivity. Qed.

Lemma sample_rules_ok : Forall ip_rule_ok sample_rules.
Proof. repeat constructor; cbn; try (apply (bool_decide_unpack _); vm_compute; exact I); vm_compute; intuition congruence. Qed.

Lemma ip_filter_last_rule_witness : Forall ip_rule_ok sample_rules /\
  exists f, add_rules sample_rules ip_filter_create = Ok f /\ ip_access (V4 (mk_array [10; 2; 3; 4])) f = Ok 1.
Proof.
  split; [exact sample_rules_ok|]. destruct (ip_filter_last_rule sample_rules sample_rules_ok) as (f & E & Ha & _).
  exists f. split; [exact E|]. rewrite (Ha (V4 (mk_array [10; 2; 3; 4]))); [reflexivity|]. split; [reflexivity|decide_by_computation].
Defined.

Lemma port_filter_last_rule_witness : exists l, filter_rules [(mk_port 6881, mk_port 6889, 1)] filter_create = Ok l /\ port_access 6885 l = Ok 1.
Proof.
  destruct (port_filter_last_rule [(mk_port 6881, mk_port 6889, 1)]) as (l & E & Ha & _); [repeat constructor; cbn; lia|].
  exists l. split; [exact E|]. by rewrite (Ha 6885) by lia.
Defined.
