(* ===== verification/PacketBuffer.v ===== *)
(** * The packet buffer

    [packet_buffer] ([extern/libtorrent/src/packet_buffer.cpp]) keeps the packets of a uTP
    stream that wait for their turn, or for an acknowledgement, by their sequence numbers: a
    circular buffer whose size is a power of two and which grows when a number does not fit.
    Sequence numbers have 16 bits and wrap around; which of two comes first is decided by the
    shorter way between them.  The packets themselves are a parameter. *)

From S2P Require Import Prelude.

(** [extern/libtorrent/src/utp_stream.cpp:140-152] compare_less_wrap *)
Definition compare_less_wrap (lhs rhs mask : Z) : bool :=
  let dist_down := Z.land (u32 (lhs - rhs)) mask in
  let dist_up := Z.land (u32 (rhs - lhs)) mask in
  dist_up <? dist_down.

Section Buffer.
Context {packet : Type}.

(** [extern/libtorrent/include/libtorrent/packet_buffer.hpp:102-114] packet_buffer *)
Record packet_buffer := mk_packet_buffer {
  m_storage : list (option packet);
  m_capacity : Z;
  m_size : Z;
  m_first : Z;
  m_last : Z
}.

Definition packet_buffer_create : packet_buffer := mk_packet_buffer [] 0 0 0 0.

Definition set_storage (storage : list (option packet)) (capacity : Z) (pb : packet_buffer) : packet_buffer :=
  mk_packet_buffer storage capacity (m_size pb) (m_first pb) (m_last pb).
Definition set_size (size : Z) (pb : packet_buffer) : packet_buffer :=
  mk_packet_buffer (m_storage pb) (m_capacity pb) size (m_first pb) (m_last pb).
Definition set_first (first : Z) (pb : packet_buffer) : packet_buffer :=
  mk_packet_buffer (m_storage pb) (m_capacity pb) (m_size pb) first (m_last pb).
Definition set_last (last : Z) (pb : packet_buffer) : packet_buffer :=
  mk_packet_buffer (m_storage pb) (m_capacity pb) (m_size pb) (m_first pb) last.

(** [m_storage[i & (m_capacity - 1)]] *)
Definition slot (i capacity : Z) (storage : list (option packet)) : result (option packet) :=
  match storage !! Z.to_nat (Z.land i (u32 (capacity - 1))) with
  | Some p => Ok p
  | None => Fault BadPrecondition
  end.

Definition set_slot (i capacity : Z) (p : option packet) (storage : list (option packet)) : list (option packet) :=
  <[Z.to_nat (Z.land i (u32 (capacity - 1))) := p]> storage.

(** [extern/libtorrent/src/packet_buffer.cpp:140-141] packet_buffer::reserve *)
Fixpoint grow (fuel : nat) (new_size size : Z) : result Z :=
  if size <=? new_size then Ok new_size
  else match fuel with
       | O => Fault OutOfFuel
       | S fuel' => grow fuel' (u32 (Z.shiftl new_size 1)) size
       end.

(** [extern/libtorrent/src/packet_buffer.cpp:145-146] packet_buffer::reserve
    [n] slots from index [i] on; each is moved once, so the old storage is left as it is. *)
Fixpoint move_slots (n : nat) (i capacity new_size : Z) (storage new_storage : list (option packet)) : result (list (option packet)) :=
  match n with
  | O => Ok new_storage
  | S n' =>
      p ← slot i capacity storage;
      move_slots n' (u32 (i + 1)) capacity new_size storage (set_slot i new_size p new_storage)
  end.

(** [extern/libtorrent/src/packet_buffer.cpp:134-150] packet_buffer::reserve *)
Definition reserve (size : Z) (pb : packet_buffer) : result packet_buffer :=
  new_size ← grow 32 (if m_capacity pb =? 0 then 16 else m_capacity pb) size;
  new_storage ← move_slots (Z.to_nat (m_capacity pb)) (m_first pb) (m_capacity pb) new_size (m_storage pb) (replicate (Z.to_nat new_size) None);
  Ok (set_storage new_storage new_size pb).

(** [extern/libtorrent/src/packet_buffer.cpp:180-187] packet_buffer::remove
    Down to the slot of the last packet. *)
Fixpoint seek_last (n : nat) (last : Z) (pb : packet_buffer) : result Z :=
  match n with
  | O => Ok last
  | S n' =>
      p ← slot last (m_capacity pb) (m_storage pb);
      match p with Some _ => Ok last | None => seek_last n' (u32 (last - 1)) pb end
  end.

(** [extern/libtorrent/src/packet_buffer.cpp:172-178] packet_buffer::remove
    Up to the slot of the first packet. *)
Fixpoint seek_first (n : nat) (first : Z) (pb : packet_buffer) : result Z :=
  match n with
  | O => Ok first
  | S n' =>
      p ← slot first (m_capacity pb) (m_storage pb);
      match p with Some _ => Ok first | None => seek_first n' (u32 (first + 1)) pb end
  end.

(** [extern/libtorrent/src/packet_buffer.cpp:172-187] packet_buffer::remove
    After the packet at an end is gone, the end moves to the next one. *)
Definition close_gap (idx : Z) (pb : packet_buffer) : result packet_buffer :=
  pb ← (if (idx =? m_first pb) && negb (m_size pb =? 0) then
          first ← seek_first (Z.to_nat (m_capacity pb)) (u32 (m_first pb + 1)) pb;
          Ok (set_first (Z.land first 65535) pb)
        else Ok pb);
  if (Z.land (u32 (idx + 1)) 65535 =? m_last pb) && negb (m_size pb =? 0) then
    last ← seek_last (Z.to_nat (m_capacity pb)) (u32 (m_last pb - 1)) pb;
    Ok (set_last (Z.land (u32 (last + 1)) 65535) pb)
  else Ok pb.

(** [extern/libtorrent/src/packet_buffer.cpp:162-190] packet_buffer::remove *)
Definition remove_at (idx : Z) (pb : packet_buffer) : result (option packet * packet_buffer) :=
  old_value ← slot idx (m_capacity pb) (m_storage pb);
  let pb := set_storage (set_slot idx (m_capacity pb) None (m_storage pb)) (m_capacity pb) pb in
  let pb :=
    match old_value with
    | Some _ =>
        let pb := set_size (m_size pb - 1) pb in
        if m_size pb =? 0 then set_last (m_first pb) pb else pb
    | None => pb
    end in
  pb ← close_gap idx pb;
  Ok (old_value, pb).

(** [extern/libtorrent/src/packet_buffer.cpp:152-191] packet_buffer::remove *)
Definition remove (idx : Z) (pb : packet_buffer) : result (option packet * packet_buffer) :=
  if u32 (m_first pb + m_capacity pb) <=? idx then Ok (None, pb)
  else if compare_less_wrap idx (m_first pb) 65535 then Ok (None, pb)
  else remove_at idx pb.

(** [extern/libtorrent/src/packet_buffer.cpp:71-79] packet_buffer::insert
    The slots that are free in front of the first packet. *)
Fixpoint free_below (fuel : nat) (i free_space : Z) (pb : packet_buffer) : result Z :=
  if i =? Z.land (m_first pb) (u32 (m_capacity pb - 1)) then Ok free_space
  else match fuel with
       | O => Fault OutOfFuel
       | S fuel' =>
           p ← slot i (m_capacity pb) (m_storage pb);
           match p with
           | Some _ => Ok free_space
           | None => free_below fuel' (Z.land (u32 (i - 1)) (u32 (m_capacity pb - 1))) (free_space + 1) pb
           end
       end.

(** [extern/libtorrent/src/packet_buffer.cpp:64-105] packet_buffer::insert
    Makes room for an index. *)
Definition make_room (idx : Z) (pb : packet_buffer) : result packet_buffer :=
  if negb (m_size pb =? 0) then
    pb ← (if compare_less_wrap idx (m_first pb) 65535 then
            free_space ← free_below (Z.to_nat (m_capacity pb)) (Z.land (u32 (m_first pb - 1)) (u32 (m_capacity pb - 1))) 0 pb;
            let distance := Z.land (u32 (m_first pb - idx)) 65535 in
            pb ← (if free_space <? distance then reserve (u32 (distance + m_capacity pb - free_space)) pb else Ok pb);
            Ok (set_first idx pb)
          else if u32 (m_first pb + m_capacity pb) <=? idx then reserve (u32 (idx - m_first pb + 1)) pb
          else if idx <? m_first pb then
            let limit := Z.land (u32 (m_first pb + m_capacity pb)) 65535 in
            if (limit <=? idx) && (m_capacity pb <? 65535) then reserve (u32 (m_capacity pb + (idx + 1 - limit))) pb
            else Ok pb
          else Ok pb);
    let next := Z.land (u32 (idx + 1)) 65535 in
    Ok (if compare_less_wrap (m_last pb) next 65535 then set_last next pb else pb)
  else Ok (set_last (Z.land (u32 (idx + 1)) 65535) (set_first idx pb)).

(** [extern/libtorrent/src/packet_buffer.cpp:54-119] packet_buffer::insert *)
Definition insert (idx : Z) (value : option packet) (pb : packet_buffer) : result (option packet * packet_buffer) :=
  match value with
  | None => remove idx pb
  | Some _ =>
      pb ← make_room idx pb;
      pb ← (if m_capacity pb =? 0 then reserve 16 pb else Ok pb);
      old_value ← slot idx (m_capacity pb) (m_storage pb);
      let pb := set_storage (set_slot idx (m_capacity pb) value (m_storage pb)) (m_capacity pb) pb in
      let pb := if m_size pb =? 0 then set_first idx pb else pb in
      Ok (old_value, match old_value with None => set_size (m_size pb + 1) pb | Some _ => pb end)
  end.

(** [extern/libtorrent/src/packet_buffer.cpp:121-132] packet_buffer::at *)
Definition packet_at (idx : Z) (pb : packet_buffer) : result (option packet) :=
  if u32 (m_first pb + m_capacity pb) <=? idx then Ok None
  else if compare_less_wrap idx (m_first pb) 65535 then Ok None
  else slot idx (m_capacity pb) (m_storage pb).

(** [extern/libtorrent/include/libtorrent/packet_buffer.hpp:96-96] packet_buffer::span *)
Definition span_of (pb : packet_buffer) : Z := Z.land (u32 (m_last pb - m_first pb)) 65535.
End Buffer.
Arguments packet_buffer packet : clear implicits.

(** ** Sequence numbers and slots *)

(** How far an index lies ahead of another. *)
Definition ahead (first idx : Z) : Z := (idx - first) mod 65536.

Ltac seq_lia := unfold ahead in *; Z.div_mod_to_equations; lia.

Lemma land_65535 i : Z.land i 65535 = i mod 65536.
Proof. change 65535 with (Z.ones 16). by rewrite Z.land_ones. Qed.

Lemma u32_mod_16 i : u32 i mod 65536 = i mod 65536.
Proof. unfold u32. rewrite <- (Znumtheory.Zmod_div_mod 65536 (2 ^ 32)); [done|lia..|by exists 65536]. Qed.

Lemma compare_less_ahead a b : compare_less_wrap a b 65535 = (ahead a b <? ahead b a).
Proof. unfold compare_less_wrap. by rewrite !land_65535, !u32_mod_16. Qed.

Lemma compare_less_16 a b : compare_less_wrap a b 65535 = (2 ^ 15 <? ahead b a).
Proof.
  rewrite compare_less_ahead. apply eq_iff_eq_true. rewrite !Z.ltb_lt. seq_lia.
Qed.

Definition capacity_ok (capacity : Z) : Prop := exists k, 4 <= k <= 16 /\ capacity = 2 ^ k.

Lemma capacity_bounds c : capacity_ok c -> 16 <= c <= 65536 /\ exists q, 65536 = q * c.
Proof.
  intros (k & Hk & ->). split.
  - split; [apply (Z.pow_le_mono_r 2 4 k); lia|apply (Z.pow_le_mono_r 2 k 16); lia].
  - exists (2 ^ (16 - k)). rewrite <- Z.pow_add_r by lia. by replace (16 - k + k) with 16 by lia.
Qed.

Lemma mask_mod c i : capacity_ok c -> Z.land i (u32 (c - 1)) = i mod c.
Proof.
  intros Hc. pose proof (capacity_bounds c Hc) as [Hb _]. destruct Hc as (k & Hk & ->). rewrite u32_small by lia.
  replace (2 ^ k - 1) with (Z.ones k) by (rewrite Z.ones_equiv; lia). by rewrite Z.land_ones by lia.
Qed.

Lemma mod_16_mod c i : capacity_ok c -> (i mod 65536) mod c = i mod c.
Proof.
  intros Hc. destruct (capacity_bounds c Hc) as [Hb [q Hq]]. symmetry. apply Znumtheory.Zmod_div_mod; [lia|lia|]. by exists q.
Qed.

Lemma u32_mod_cap c i : capacity_ok c -> u32 i mod c = i mod c.
Proof. intros Hc. rewrite <- (mod_16_mod c (u32 i)), u32_mod_16, mod_16_mod by done. done. Qed.

(** Indices of a window no larger than the buffer have slots of their own. *)
Lemma same_slot c a b : capacity_ok c -> a mod c = b mod c -> 0 <= b - a < c -> a = b.
Proof.
  intros Hc Hm Hd. pose proof (capacity_bounds c Hc) as [Hb _]. 
  assert ((b - a) mod c = 0) as H0 by (rewrite Zminus_mod, Hm, Z.sub_diag; by apply Z.mod_0_l; lia).
  rewrite Z.mod_small in H0 by lia. lia.
Qed.

Lemma slot_of_ahead c first idx : capacity_ok c -> (first + ahead first idx) mod c = idx mod c.
Proof.
  intros Hc. unfold ahead. rewrite Zplus_mod, mod_16_mod, <- Zplus_mod by done. f_equal. lia.
Qed.

Section Contents.
Context {packet : Type}.
Implicit Types (pb : packet_buffer packet) (m : gmap Z packet).

(** What the slot of an index holds. *)
Definition held (storage : list (option packet)) (capacity i : Z) : option packet :=
  mjoin (storage !! Z.to_nat (i mod capacity)).

Lemma slot_held storage c i : capacity_ok c -> Z.of_nat (length storage) = c -> slot i c storage = Ok (held storage c i).
Proof.
  intros Hc Hl. pose proof (capacity_bounds c Hc) as [Hb _]. unfold slot, held. rewrite mask_mod by done.
  pose proof (Z.mod_pos_bound i c ltac:(lia)). destruct (lookup_lt_is_Some_2 storage (Z.to_nat (i mod c))) as [x ->]; [lia|done].
Qed.

Lemma held_set storage c i p j : capacity_ok c -> Z.of_nat (length storage) = c ->
  held (set_slot i c p storage) c j = if decide (j mod c = i mod c) then p else held storage c j.
Proof.
  intros Hc Hl. pose proof (capacity_bounds c Hc) as [Hb _]. unfold held, set_slot. rewrite mask_mod by done.
  pose proof (Z.mod_pos_bound i c ltac:(lia)). pose proof (Z.mod_pos_bound j c ltac:(lia)).
  destruct (decide (j mod c = i mod c)) as [->|Hne]; [by rewrite list_lookup_insert_eq by lia|].
  by rewrite list_lookup_insert_ne by lia.
Qed.

Lemma length_set_slot storage c i (p : option packet) : length (set_slot i c p storage) = length storage.
Proof. apply length_insert. Qed.

Lemma held_mod storage c i j : i mod c = j mod c -> held storage c i = held storage c j.
Proof. unfold held. by intros ->. Qed.

(** *** Growing *)

Lemma grow_spec k size fuel : 4 <= k <= 16 -> size <= 65536 -> 16 - k <= Z.of_nat fuel ->
  exists n, grow fuel (2 ^ k) size = Ok n /\ capacity_ok n /\ 2 ^ k <= n /\ size <= n.
Proof.
  revert k; induction fuel as [|fuel IH]; intros k Hk Hs Hf; cbn [grow].
  - assert (k = 16) as -> by lia. rewrite (proj2 (Z.leb_le _ _)) by lia. exists (2 ^ 16). split_and!; try done. by exists 16.
  - destruct (Z.leb_spec size (2 ^ k)); [exists (2 ^ k); split_and!; try done; by exists k|].
    assert (k < 16) by (destruct (decide (k = 16)) as [->|]; [change (2 ^ 16) with 65536 in *; lia|lia]).
    assert (2 ^ k * 2 = 2 ^ (k + 1)) as Hk2 by (rewrite Z.pow_add_r by lia; lia). rewrite Z.shiftl_mul_pow2, Z.pow_1_r, Hk2 by lia.
    pose proof (Z.pow_le_mono_r 2 (k + 1) 16 ltac:(lia) ltac:(lia)). pose proof (Z.pow_pos_nonneg 2 (k + 1)). rewrite u32_small by lia.
    destruct (IH (k + 1) ltac:(lia) Hs ltac:(lia)) as (n & Hn & Hok & Hle & Hsz). exists n. split_and!; try done. lia.
Qed.

Lemma move_slots_spec storage c N : capacity_ok c -> Z.of_nat (length storage) = c -> capacity_ok N -> c <= N ->
  forall n i new, Z.of_nat n <= c -> Z.of_nat (length new) = N -> 0 <= i -> i + Z.of_nat n < 2 ^ 32 ->
  exists new', move_slots n i c N storage new = Ok new' /\ Z.of_nat (length new') = N /\
    forall x, held new' N x = if decide ((x - i) mod N < Z.of_nat n) then held storage c (i + (x - i) mod N) else held new N x.
Proof.
  intros Hc Hl HN Hle. pose proof (capacity_bounds N HN) as [HNb _]. induction n as [|n IH]; intros i new Hn Hnew Hi Hsum.
  - exists new. split_and!; try done. intros x. pose proof (Z.mod_pos_bound (x - i) N). by rewrite decide_False by lia.
  - cbn [move_slots]. rewrite slot_held by done. cbn [mbind result_bind]. rewrite u32_small by lia.
    destruct (IH (i + 1) (set_slot i N (held storage c i) new) ltac:(lia)) as (new' & -> & Hl' & Hx); [by rewrite length_set_slot|lia|lia|].
    exists new'. split_and!; try done. intros x. rewrite Hx, held_set by done. clear Hx IH.
    pose proof (Z.mod_pos_bound (x - i) N ltac:(lia)) as Hy. remember ((x - i) mod N) as y eqn:Ey.
    assert ((x - (i + 1)) mod N = (y - 1) mod N) as -> by (rewrite Ey, Zminus_mod_idemp_l; f_equal; lia).
    assert (x mod N = i mod N <-> y = 0) as Hxi.
    { rewrite Ey. split; intros E.
      - rewrite Zminus_mod, E, Z.sub_diag. by apply Z.mod_0_l; lia.
      - replace x with (i + (x - i)) by lia. rewrite Zplus_mod, E, Z.add_0_r, Z.mod_mod by lia. done. }
    destruct (decide (y = 0)) as [->|Hne].
    + rewrite (decide_True _ _ (proj2 Hxi eq_refl)). rewrite (decide_True (P := 0 < _)) by lia. rewrite Z.add_0_r.
      assert ((0 - 1) mod N = N - 1) as -> by (symmetry; apply (Zmod_unique _ _ (-1)); lia). by rewrite decide_False by lia.
    + rewrite (decide_False (P := x mod N = i mod N)) by tauto. rewrite (Z.mod_small (y - 1)) by lia.
      replace (i + 1 + (y - 1)) with (i + y) by lia. repeat case_decide; try done; lia.
Qed.

(** *** What a buffer holds *)

Record shape pb : Prop := {
  sh_capacity : capacity_ok (m_capacity pb);
  sh_storage : Z.of_nat (length (m_storage pb)) = m_capacity pb;
  sh_first : 0 <= m_first pb < 65536
}.

(** The packet under an index: indices outside of the window of the buffer have none. *)
Definition contents pb (idx : Z) : option packet :=
  if ahead (m_first pb) idx <? m_capacity pb then held (m_storage pb) (m_capacity pb) idx else None.

Definition holds pb m : Prop := forall idx, 0 <= idx < 65536 -> contents pb idx = m !! idx.

Lemma ahead_range first idx : 0 <= ahead first idx < 65536.
Proof. apply Z.mod_pos_bound. lia. Qed.

(** Two indices of the window with the same slot are the same. *)
Lemma window_inj c first a b : capacity_ok c -> 0 <= a < 65536 -> 0 <= b < 65536 -> ahead first a < c -> ahead first b < c ->
  a mod c = b mod c -> a = b.
Proof.
  intros Hc Ha Hb Hfa Hfb Hm. pose proof (ahead_range first a). pose proof (ahead_range first b).
  assert (ahead first a = ahead first b) as E; [|seq_lia].
  rewrite <- (slot_of_ahead c first a), <- (slot_of_ahead c first b) in Hm by done.
  destruct (Z.le_ge_cases (ahead first a) (ahead first b)).
  - pose proof (same_slot c _ _ Hc Hm ltac:(lia)). lia.
  - pose proof (same_slot c _ _ Hc (eq_sym Hm) ltac:(lia)). lia.
Qed.

(** Every slot belongs to an index of the window. *)
Lemma window_index c first i : capacity_ok c -> 0 <= first < 65536 ->
  exists j, 0 <= j < 65536 /\ ahead first j < c /\ j mod c = i mod c.
Proof.
  intros Hc Hf. pose proof (capacity_bounds c Hc) as [Hb _]. set (d := (i - first) mod c). pose proof (Z.mod_pos_bound (i - first) c ltac:(lia)) as Hd.
  fold d in Hd. exists ((first + d) mod 65536). assert (ahead first ((first + d) mod 65536) = d) as Ha by seq_lia. rewrite Ha.
  split; [apply Z.mod_pos_bound; lia|]. split; [lia|]. rewrite mod_16_mod by done. unfold d.
  rewrite Zplus_mod_idemp_r. f_equal. lia.
Qed.

(** The window may start elsewhere as long as all packets stay in it. *)
Lemma holds_set_first pb m first : shape pb -> holds pb m -> 0 <= first < 65536 ->
  (forall idx, 0 <= idx < 65536 -> is_Some (m !! idx) -> ahead first idx < m_capacity pb) -> holds (set_first first pb) m.
Proof.
  intros [Hc Hl Hf] Hm Hf' Hin idx Hidx. unfold contents. cbn [set_first m_first m_capacity m_storage].
  destruct (Z.ltb_spec (ahead first idx) (m_capacity pb)) as [Ha|Ha].
  - destruct (window_index _ (m_first pb) idx Hc Hf) as (j & Hj & Hja & Hjm).
    pose proof (Hm j Hj) as Hmj. unfold contents in Hmj. rewrite (proj2 (Z.ltb_lt _ _) Hja) in Hmj. rewrite (held_mod _ _ j idx Hjm) in Hmj.
    destruct (m !! j) as [p|] eqn:Ej.
    + assert (j = idx) as <-; [|by rewrite Hmj, Ej]. apply (window_inj (m_capacity pb) first); try done. apply Hin; [done|]. by exists p.
    + rewrite Hmj. destruct (m !! idx) as [p|] eqn:Ei; [|done]. pose proof (Hm idx Hidx) as Hmi. rewrite Ei in Hmi. unfold contents in Hmi.
      destruct (_ <? _); congruence.
  - destruct (m !! idx) as [p|] eqn:Ei; [|done]. specialize (Hin idx Hidx ltac:(by exists p)). lia.
Qed.

Lemma holds_set_slot pb m idx p : shape pb -> holds pb m -> 0 <= idx < 65536 -> ahead (m_first pb) idx < m_capacity pb ->
  holds (set_storage (set_slot idx (m_capacity pb) p (m_storage pb)) (m_capacity pb) pb) (partial_alter (fun _ => p) idx m).
Proof.
  intros [Hc Hl Hf] Hm Hidx Ha j Hj. unfold contents. cbn [set_storage m_first m_capacity m_storage]. rewrite held_set by done.
  destruct (decide (j = idx)) as [->|Hne].
  - rewrite lookup_partial_alter_eq. rewrite (proj2 (Z.ltb_lt _ _) Ha). by rewrite decide_True.
  - rewrite lookup_partial_alter_ne by done. rewrite <- Hm by done. unfold contents.
    destruct (Z.ltb_spec (ahead (m_first pb) j) (m_capacity pb)) as [Hja|]; [|done]. rewrite decide_False; [done|].
    intros E. apply Hne. by apply (window_inj (m_capacity pb) (m_first pb)).
Qed.

Lemma reserve_spec pb m size : shape pb -> holds pb m -> size <= 65536 ->
  exists storage capacity, reserve size pb = Ok (set_storage storage capacity pb) /\ shape (set_storage storage capacity pb) /\
    holds (set_storage storage capacity pb) m /\ size <= capacity /\ m_capacity pb <= capacity.
Proof.
  intros [Hc Hl Hf] Hm Hs. pose proof (capacity_bounds _ Hc) as [Hb _]. unfold reserve. rewrite (proj2 (Z.eqb_neq _ _)) by lia.
  pose proof Hc as (k & Hk & Hck). assert (grow 32 (m_capacity pb) size = grow 32 (2 ^ k) size) as -> by (by rewrite Hck). destruct (grow_spec k size 32 Hk Hs ltac:(lia)) as (N & -> & HN & HkN & HsN).
  cbn [mbind result_bind]. rewrite <- Hck in HkN. pose proof (capacity_bounds _ HN) as [HNb _].
  destruct (move_slots_spec (m_storage pb) (m_capacity pb) N Hc Hl HN HkN (Z.to_nat (m_capacity pb)) (m_first pb) (replicate (Z.to_nat N) None))
    as (new & -> & Hln & Hx); [lia|rewrite length_replicate; lia|lia|lia|]. cbn [mbind result_bind].
  exists new, N. split_and!; try done. intros idx Hidx. rewrite <- Hm by done. unfold contents. cbn [set_storage m_first m_capacity m_storage].
  rewrite Hx, Z2Nat.id by lia. clear Hx.
  destruct (Z.ltb_spec (ahead (m_first pb) idx) N) as [HaN|HaN]; [|by rewrite (proj2 (Z.ltb_ge _ _)) by lia].
  assert ((idx - m_first pb) mod N = ahead (m_first pb) idx) as ->.
  { rewrite <- mod_16_mod by done. fold (ahead (m_first pb) idx). apply Z.mod_small. pose proof (ahead_range (m_first pb) idx). lia. }
  destruct (Z.ltb_spec (ahead (m_first pb) idx) (m_capacity pb)).
  - rewrite decide_True by done. apply held_mod. by apply slot_of_ahead.
  - rewrite decide_False by lia. unfold held. destruct (lookup _ _) as [o|] eqn:E; [|done]. apply lookup_replicate in E as [-> _]. done.
Qed.

(** *** The loops over the slots *)

Lemma u32_succ i : u32 (u32 i + 1) = u32 (i + 1).
Proof. unfold u32. by rewrite Zplus_mod_idemp_l. Qed.

Lemma u32_pred i : u32 (u32 i - 1) = u32 (i - 1).
Proof. unfold u32. by rewrite Zminus_mod_idemp_l. Qed.

Abbreviation held_at pb := (held (m_storage pb) (m_capacity pb)).

Lemma slot_u32 pb i : shape pb -> slot (u32 i) (m_capacity pb) (m_storage pb) = Ok (held_at pb i).
Proof. intros [Hc Hl Hf]. rewrite slot_held by done. by rewrite (held_mod _ _ (u32 i) i) by by apply u32_mod_cap. Qed.

Lemma seek_first_spec pb : shape pb -> forall n i o, 0 <= o < Z.of_nat n -> is_Some (held_at pb (i + o)) ->
  exists e, 0 <= e <= o /\ seek_first n (u32 i) pb = Ok (u32 (i + e)) /\ is_Some (held_at pb (i + e)) /\
    forall e', 0 <= e' < e -> held_at pb (i + e') = None.
Proof.
  intros Hs. induction n as [|n IH]; intros i o Ho Hheld; [lia|]. cbn [seek_first]. rewrite slot_u32 by done. cbn [mbind result_bind].
  destruct (held_at pb i) as [p|] eqn:E.
  - exists 0. rewrite Z.add_0_r, E. split_and!; [lia..|done|done|lia].
  - assert (o <> 0) by (intros ->; rewrite Z.add_0_r, E in Hheld; by destruct Hheld).
    destruct (IH (i + 1) (o - 1)) as (e & He & Hseek & Hsome & Hnone); [lia|by replace (i + 1 + (o - 1)) with (i + o) by lia|].
    rewrite u32_succ, Hseek. exists (e + 1). replace (i + (e + 1)) with (i + 1 + e) by lia. split_and!; try done; try lia.
    intros e' He'. destruct (decide (e' = 0)) as [->|]; [by rewrite Z.add_0_r|]. replace (i + e') with (i + 1 + (e' - 1)) by lia. apply Hnone. lia.
Qed.

Lemma seek_last_spec pb : shape pb -> forall n i o, 0 <= o < Z.of_nat n -> is_Some (held_at pb (i - o)) ->
  exists e, 0 <= e <= o /\ seek_last n (u32 i) pb = Ok (u32 (i - e)) /\ is_Some (held_at pb (i - e)) /\
    forall e', 0 <= e' < e -> held_at pb (i - e') = None.
Proof.
  intros Hs. induction n as [|n IH]; intros i o Ho Hheld; [lia|]. cbn [seek_last]. rewrite slot_u32 by done. cbn [mbind result_bind].
  destruct (held_at pb i) as [p|] eqn:E.
  - exists 0. rewrite Z.sub_0_r, E. split_and!; [lia..|done|done|lia].
  - assert (o <> 0) by (intros ->; rewrite Z.sub_0_r, E in Hheld; by destruct Hheld).
    destruct (IH (i - 1) (o - 1)) as (e & He & Hseek & Hsome & Hnone); [lia|by replace (i - 1 - (o - 1)) with (i - o) by lia|].
    rewrite u32_pred, Hseek. exists (e + 1). replace (i - (e + 1)) with (i - 1 - e) by lia. split_and!; try done; try lia.
    intros e' He'. destruct (decide (e' = 0)) as [->|]; [by rewrite Z.sub_0_r|]. replace (i - e') with (i - 1 - (e' - 1)) by lia. apply Hnone. lia.
Qed.

(** The packets lie in [span] slots from the first one on: the others in front of it are free. *)
Lemma free_below_spec pb span : shape pb -> 1 <= span <= m_capacity pb -> is_Some (held_at pb (m_first pb + (span - 1))) ->
  (forall d, span <= d < m_capacity pb -> held_at pb (m_first pb + d) = None) ->
  forall fuel j n, 0 <= j <= m_capacity pb - span -> m_capacity pb - j <= Z.of_nat fuel ->
    free_below fuel ((m_first pb - 1 - j) mod m_capacity pb) n pb = Ok (n + (m_capacity pb - span - j)).
Proof.
  intros [Hc Hl Hf] Hspan Hlast Hfree. pose proof (capacity_bounds _ Hc) as [Hb _]. set (c := m_capacity pb) in *. set (f := m_first pb) in *.
  assert (forall j, 0 <= j < c -> (f - 1 - j) mod c = (f + (c - 1 - j)) mod c) as Hpos.
  { intros j Hj. replace (f + (c - 1 - j)) with (f - 1 - j + 1 * c) by lia. by rewrite Z.mod_add by lia. }
  induction fuel as [|fuel IH]; intros j n Hj Hfuel; [lia|]. cbn [free_below]. fold c f. rewrite mask_mod by done.
  destruct (Z.eqb_spec ((f - 1 - j) mod c) (f mod c)) as [Hstop|Hgo].
  - rewrite Hpos in Hstop by lia. pose proof (same_slot c f (f + (c - 1 - j)) Hc (eq_sym Hstop) ltac:(lia)). f_equal. lia.
  - rewrite slot_held by done. cbn [mbind result_bind]. rewrite (held_mod _ _ _ (f + (c - 1 - j))) by (rewrite Z.mod_mod by lia; apply Hpos; lia).
    destruct (decide (j = c - span)) as [->|Hne].
    + replace (f + (c - 1 - (c - span))) with (f + (span - 1)) by lia. destruct Hlast as [p ->]. f_equal. lia.
    + rewrite Hfree by lia. rewrite mask_mod by done. rewrite u32_mod_cap, Zminus_mod_idemp_l by done.
      replace (f - 1 - j - 1) with (f - 1 - (j + 1)) by lia. rewrite IH by lia. f_equal. lia.
Qed.

(** ** The buffer as a map *)

(** A buffer represents the packets by their numbers: they lie within [span] of the first, and
    both ends hold a packet. *)
Record represents pb m : Prop := {
  rp_shape : shape pb \/ (pb = packet_buffer_create /\ m = ∅);
  rp_holds : holds pb m;
  rp_size : m_size pb = Z.of_nat (size m);
  rp_last : 0 <= m_last pb < 65536;
  rp_keys idx : is_Some (m !! idx) -> 0 <= idx < 65536 /\ ahead (m_first pb) idx < ahead (m_first pb) (m_last pb) <= 2 ^ 15;
  rp_ends : m <> ∅ -> is_Some (m !! m_first pb) /\ is_Some (m !! ((m_last pb - 1) mod 65536))
}.

Lemma represents_create : represents packet_buffer_create ∅.
Proof.
  split; try done; [by right| |].
  - intros idx _. unfold contents. simpl. destruct (_ <? 0); [|done]. by rewrite lookup_empty.
  - intros idx. rewrite lookup_empty. by intros [].
Qed.

(** The numbers the calls reach: behind the first one, in the window, or ahead without
    wrapping around. *)
Definition reaches pb (idx : Z) : Prop :=
  m_first pb <= idx \/ ahead (m_first pb) idx < m_capacity pb \/ 2 ^ 15 < ahead (m_first pb) idx.

Lemma key_ahead pb m idx : represents pb m -> 0 <= idx < 65536 -> is_Some (m !! idx) -> ahead (m_first pb) idx < m_capacity pb.
Proof.
  intros [_ Hh _ _ _ _] Hi [p Hp]. specialize (Hh idx Hi). rewrite Hp in Hh. unfold contents in Hh. destruct (Z.ltb_spec (ahead (m_first pb) idx) (m_capacity pb)); [done|discriminate].
Qed.

(** The two tests in front of [at] and [remove] are passed by the window only. *)
Lemma guards_spec {A} pb m idx (x y : A) : represents pb m -> 0 <= idx < 65536 -> reaches pb idx ->
  let guarded := if u32 (m_first pb + m_capacity pb) <=? idx then x else if compare_less_wrap idx (m_first pb) 65535 then x else y in
  (m !! idx = None /\ guarded = x) \/
  (shape pb /\ ahead (m_first pb) idx < m_capacity pb /\ held_at pb idx = m !! idx /\ guarded = y).
Proof.
  intros Hr Hi Hreach. pose proof Hr as [Hshape Hh _ _ Hkeys _]. cbv zeta. rewrite compare_less_16.
  destruct Hshape as [Hs|[-> ->]].
  2: { left. split; [done|]. unfold packet_buffer_create. cbn [m_first m_capacity]. rewrite u32_small by lia. by rewrite (proj2 (Z.leb_le _ _)) by lia. }
  pose proof Hs as [Hc Hl Hf]. pose proof (capacity_bounds _ Hc) as [Hcb _]. rewrite u32_small by lia.
  assert (forall P : Prop, (is_Some (m !! idx) -> P -> False) -> P -> m !! idx = None) as Hnone.
  { intros P HP p. destruct (m !! idx) eqn:E; [|done]. exfalso. apply HP; [by eexists|done]. }
  destruct (Z.leb_spec (m_first pb + m_capacity pb) idx) as [Hfar|Hnear].
  - left. split; [|done]. revert Hfar. apply Hnone. intros Hk Hfar. pose proof (key_ahead pb m idx Hr Hi Hk). seq_lia.
  - destruct (Z.ltb_spec (2 ^ 15) (ahead (m_first pb) idx)) as [Hbehind|Hahead].
    + left. split; [|done]. revert Hbehind. apply Hnone. intros Hk Hbehind. destruct (Hkeys idx Hk). lia.
    + right. assert (ahead (m_first pb) idx < m_capacity pb) as Hw.
      { destruct Hreach as [Hge|[?|?]]; [|done|lia]. seq_lia. }
      split_and!; try done. rewrite <- Hh by done. unfold contents. by rewrite (proj2 (Z.ltb_lt _ _) Hw).
Qed.

Lemma packet_at_spec pb m idx : represents pb m -> 0 <= idx < 65536 -> reaches pb idx -> packet_at idx pb = Ok (m !! idx).
Proof.
  intros Hr Hi Hreach. unfold packet_at. destruct (guards_spec pb m idx (Ok None) (slot idx (m_capacity pb) (m_storage pb)) Hr Hi Hreach)
    as [[-> ->]|(Hs & _ & <- & ->)]; [done|]. destruct Hs as [Hc Hl _]. by apply slot_held.
Qed.

Lemma shape_set pb p idx : shape pb -> shape (set_storage (set_slot idx (m_capacity pb) p (m_storage pb)) (m_capacity pb) pb).
Proof. intros [Hc Hl Hf]. split; cbn; [done|by rewrite length_set_slot|done]. Qed.

Lemma key_held pb m idx : represents pb m -> 0 <= idx < 65536 -> is_Some (m !! idx) -> held_at pb idx = m !! idx.
Proof.
  intros Hr Hi Hk. pose proof (key_ahead pb m idx Hr Hi Hk) as Ha. rewrite <- (rp_holds _ _ Hr) by done. unfold contents.
  by rewrite (proj2 (Z.ltb_lt _ _) Ha).
Qed.

Lemma seq_16 i : Z.land (u32 i) 65535 = i mod 65536.
Proof. by rewrite land_65535, u32_mod_16. Qed.

Lemma size_zero m : (Z.of_nat (size m) =? 0) = bool_decide (m = ∅).
Proof.
  destruct (bool_decide_reflect (m = ∅)) as [->|Hne]; [done|]. apply Z.eqb_neq. intros E. apply Hne. apply map_size_empty_inv. lia.
Qed.

(** The packets and the slots of the window correspond. *)
Lemma holds_key pb m k : shape pb -> holds pb m -> 0 <= k < 65536 -> is_Some (m !! k) ->
  ahead (m_first pb) k < m_capacity pb /\ is_Some (held_at pb (m_first pb + ahead (m_first pb) k)).
Proof.
  intros Hs Hh Hkr [p Hp]. specialize (Hh k Hkr). rewrite Hp in Hh. unfold contents in Hh.
  destruct (Z.ltb_spec (ahead (m_first pb) k) (m_capacity pb)); [|discriminate]. split; [done|].
  exists p. rewrite <- Hh. apply held_mod. apply slot_of_ahead, Hs.
Qed.

Lemma holds_held pb m i : shape pb -> holds pb m -> 0 <= i < m_capacity pb -> is_Some (held_at pb (m_first pb + i)) ->
  is_Some (m !! ((m_first pb + i) mod 65536)).
Proof.
  intros Hs Hh Hi Hheld. pose proof (capacity_bounds _ (sh_capacity _ Hs)) as [Hb _]. pose proof (sh_first _ Hs).
  assert (ahead (m_first pb) ((m_first pb + i) mod 65536) = i) as Ha by seq_lia.
  rewrite <- Hh by (apply Z.mod_pos_bound; lia). unfold contents. rewrite Ha, (proj2 (Z.ltb_lt _ _)) by lia.
  rewrite (held_mod _ _ _ (m_first pb + i)); [done|]. apply mod_16_mod, Hs.
Qed.

(** What [remove] has to repair. *)
Record gap pb m idx : Prop := {
  gp_shape : shape pb;
  gp_holds : holds pb m;
  gp_size : m_size pb = Z.of_nat (size m);
  gp_last : 0 <= m_last pb < 65536;
  gp_idx : 0 <= idx < 65536 /\ ahead (m_first pb) idx < m_capacity pb /\ m !! idx = None;
  gp_keys k : is_Some (m !! k) -> 0 <= k < 65536 /\ ahead (m_first pb) k < ahead (m_first pb) (m_last pb) <= 2 ^ 15;
  gp_front : m <> ∅ -> is_Some (m !! m_first pb) \/ m_first pb = idx;
  gp_back : m <> ∅ -> is_Some (m !! ((m_last pb - 1) mod 65536)) \/ m_last pb = (idx + 1) mod 65536
}.

Section Gap.
Context (pb : packet_buffer packet) (m : gmap Z packet) (idx : Z).
Hypothesis G : gap pb m idx.
Hypothesis some_left : m <> ∅.

Abbreviation f := (m_first pb).
Abbreviation c := (m_capacity pb).
Abbreviation span := (ahead f (m_last pb)).

Lemma gap_key k : is_Some (m !! k) -> ahead f k < c /\ is_Some (held_at pb (f + ahead f k)).
Proof. intros Hk. apply (holds_key pb m); [apply G..| |done]. by apply (gp_keys _ _ _ G). Qed.

Lemma gap_held i : 0 <= i < c -> is_Some (held_at pb (f + i)) -> is_Some (m !! ((f + i) mod 65536)).
Proof. apply holds_held; apply G. Qed.

Lemma gap_some_key : exists k, is_Some (m !! k).
Proof. destruct (map_choose m some_left) as (k & p & Hk). exists k. by exists p. Qed.

(** The first packet is gone. *)
Lemma close_front : f = idx ->
  exists first, seek_first (Z.to_nat c) (u32 (f + 1)) pb = Ok first /\ represents (set_first (Z.land first 65535) pb) m /\
    (idx + 1) mod 65536 <> m_last pb.
Proof.
  intros Hf. destruct gap_some_key as [k0 Hk0]. pose proof (gp_idx _ _ _ G) as (Hir & _ & Hnone). pose proof (gp_shape _ _ _ G) as Hs.
  assert (forall k, is_Some (m !! k) -> 1 <= ahead f k < span /\ span <= 2 ^ 15) as Hkeys.
  { intros k Hk. destruct (gp_keys _ _ _ G k Hk) as [Hkr Hka]. 
    assert (k <> idx) by (intros ->; rewrite Hnone in Hk; by destruct Hk). subst idx. seq_lia. }
  destruct (gap_key k0 Hk0) as [Hk0c Hk0h]. destruct (Hkeys k0 Hk0) as [Hk0a _].
  destruct (seek_first_spec pb Hs (Z.to_nat c) (f + 1) (ahead f k0 - 1)) as (e & He & Hseek & Hsome & Hfree);
    [lia|by replace (f + 1 + (ahead f k0 - 1)) with (f + ahead f k0) by lia|].
  exists (u32 (f + 1 + e)). split; [done|]. rewrite seq_16. replace (f + 1 + e) with (f + (1 + e)) in * by lia.
  pose proof (gap_held (1 + e) ltac:(lia) Hsome) as Hnew. set (first := (f + (1 + e)) mod 65536) in *.
  assert (forall k, is_Some (m !! k) -> 1 + e <= ahead f k /\ ahead first k = ahead f k - (1 + e)) as Hlater.
  { intros k Hk. destruct (Hkeys k Hk) as [Hka _]. destruct (gap_key k Hk) as [_ Hkh].
    assert (1 + e <= ahead f k).
    { destruct (Z.le_gt_cases (1 + e) (ahead f k)); [done|]. exfalso. specialize (Hfree (ahead f k - 1) ltac:(lia)).
      replace (f + 1 + (ahead f k - 1)) with (f + ahead f k) in Hfree by lia. rewrite Hfree in Hkh. by destruct Hkh. }
    split; [done|]. unfold first. seq_lia. }
  assert (ahead first (m_last pb) = span - (1 + e)) as Hspan.
  { destruct (Hlater k0 Hk0) as [? _]. unfold first in *. pose proof (gp_last _ _ _ G). seq_lia. }
  split.
  - split; cbn [set_first m_first m_last m_size m_capacity m_storage].
    + left. destruct Hs as [? ? _]. split; [done..|]. apply Z.mod_pos_bound. lia.
    + apply holds_set_first; [done|apply G|apply Z.mod_pos_bound; lia|]. intros k Hkr Hk. destruct (Hlater k Hk) as [? ->]. pose proof (gap_key k Hk). lia.
    + apply G.
    + apply G.
    + intros k Hk. rewrite Hspan. destruct (Hlater k Hk) as [? ->]. destruct (Hkeys k Hk). pose proof (proj1 (gp_keys _ _ _ G k Hk)). lia.
    + intros _. split; [done|]. destruct (gp_back _ _ _ G some_left) as [?|Hl]; [done|]. exfalso. 
      destruct (Hkeys k0 Hk0). rewrite Hl, <- Hf in *. seq_lia.
  - intros Hl. destruct (Hkeys k0 Hk0). rewrite <- Hl, <- Hf in *. seq_lia.
Qed.

(** The last packet is gone. *)
Lemma close_back : f <> idx -> (idx + 1) mod 65536 = m_last pb ->
  exists last, seek_last (Z.to_nat c) (u32 (m_last pb - 1)) pb = Ok last /\ represents (set_last (Z.land (u32 (last + 1)) 65535) pb) m.
Proof.
  intros Hf Hl. destruct gap_some_key as [k0 Hk0]. pose proof (gp_idx _ _ _ G) as (Hir & Hic & Hnone). pose proof (gp_shape _ _ _ G) as Hs.
  destruct (gap_key k0 Hk0) as [Hk0c Hk0h]. pose proof (gp_keys _ _ _ G) as Hkeys. destruct (Hkeys k0 Hk0) as [_ Hk0a].
  assert (span = ahead f idx + 1) as Hspan by (rewrite <- Hl in *; seq_lia).
  assert (forall i, held_at pb (m_last pb - 1 - i) = held_at pb (f + (span - 1 - i))) as Hback.
  { intros i. apply held_mod. rewrite <- (mod_16_mod c (m_last pb - 1 - i)), <- (mod_16_mod c (f + (span - 1 - i))) by apply Hs. f_equal.
    seq_lia. }
  destruct (seek_last_spec pb Hs (Z.to_nat c) (m_last pb - 1) (span - 1 - ahead f k0)) as (e & He & Hseek & Hsome & Hfree);
    [pose proof (ahead_range f k0); lia|rewrite Hback; by replace (span - 1 - (span - 1 - ahead f k0)) with (ahead f k0) by lia|].
  pose proof (ahead_range f k0) as Hk0r.
  exists (u32 (m_last pb - 1 - e)). split; [done|]. rewrite u32_succ, seq_16. replace (m_last pb - 1 - e + 1) with (m_last pb - e) by lia.
  rewrite Hback in Hsome. pose proof (gap_held (span - 1 - e) ltac:(lia) Hsome) as Hnew.
  assert (ahead f ((m_last pb - e) mod 65536) = span - e) as Hnspan by (seq_lia).
  split; cbn [set_last m_first m_last m_size m_capacity m_storage].
  - left. by destruct Hs.
  - apply G.
  - apply G.
  - apply Z.mod_pos_bound. lia.
  - intros k Hk. destruct (Hkeys k Hk) as [Hkr Hka]. rewrite Hnspan. split; [done|]. split; [|lia].
    destruct (Z.lt_ge_cases (ahead f k) (span - e)); [done|]. exfalso. destruct (gap_key k Hk) as [_ Hkh].
    specialize (Hfree (span - 1 - ahead f k) ltac:(lia)). rewrite Hback in Hfree.
    replace (span - 1 - (span - 1 - ahead f k)) with (ahead f k) in Hfree by lia. rewrite Hfree in Hkh. by destruct Hkh.
  - intros _. split; [destruct (gp_front _ _ _ G some_left); done|].
    assert (((m_last pb - e) mod 65536 - 1) mod 65536 = (f + (span - 1 - e)) mod 65536) as ->; [|done]. seq_lia.
Qed.
End Gap.

Lemma close_gap_spec pb m idx : gap pb m idx ->
  exists pb', close_gap idx pb = Ok pb' /\ represents pb' m /\ (m = ∅ -> m_first pb' = m_first pb).
Proof.
  intros G. pose proof G as [Hs Hh Hsize Hl Hi Hkeys Hfront Hback]. unfold close_gap. rewrite seq_16, Hsize, size_zero.
  destruct (bool_decide_reflect (m = ∅)) as [->|Hne]; cbn [negb].
  { rewrite !andb_false_r. cbn [mbind result_bind]. rewrite Hsize, size_zero, bool_decide_true, andb_false_r by done.
    exists pb. split; [done|]. split; [|done]. split; try done. by left. }
  rewrite !andb_true_r. destruct (Z.eqb_spec idx (m_first pb)) as [Hf|Hf].
  - destruct (close_front pb m idx G Hne (eq_sym Hf)) as (first & -> & Hr & Hnl). cbn [mbind result_bind set_first m_last m_size].
    rewrite (proj2 (Z.eqb_neq _ _)) by done. by eexists.
  - cbn [mbind result_bind]. rewrite Hsize, size_zero, bool_decide_false, andb_true_r by done.
    destruct (Z.eqb_spec ((idx + 1) mod 65536) (m_last pb)) as [Hlast|Hlast].
    + destruct (close_back pb m idx G Hne ltac:(done) Hlast) as (last & -> & Hr). by eexists.
    + exists pb. split; [done|]. split; [|done]. split; try done; [by left|]. intros _. split; [by destruct (Hfront Hne)|]. destruct (Hback Hne); [done|by subst].
Qed.

Lemma delete_some m idx k : is_Some (delete idx m !! k) <-> k <> idx /\ is_Some (m !! k).
Proof.
  destruct (decide (k = idx)) as [->|Hne]; [rewrite lookup_delete_eq; split; [by intros []|tauto]|].
  rewrite lookup_delete_ne by done. tauto.
Qed.

(** [remove] takes the packet out, whether or not it is one of the ends. *)
Lemma remove_spec pb m idx : represents pb m -> 0 <= idx < 65536 -> reaches pb idx ->
  exists pb', remove idx pb = Ok (m !! idx, pb') /\ represents pb' (delete idx m) /\ (delete idx m = ∅ -> m_first pb' = m_first pb).
Proof.
  intros Hr Hi Hreach. unfold remove.
  destruct (guards_spec pb m idx (Ok (None, pb)) (remove_at idx pb) Hr Hi Hreach) as [[Hn ->]|(Hs & Ha & Hheld & ->)].
  { exists pb. by rewrite Hn, delete_id. }
  pose proof Hr as [_ Hh Hsize Hl Hkeys Hends]. unfold remove_at. rewrite slot_held by apply Hs. rewrite Hheld. cbn [mbind result_bind].
  set (pb1 := set_storage _ _ pb).
  assert (holds pb1 (delete idx m)) as Hh1 by (by apply holds_set_slot).
  assert (forall k, is_Some (delete idx m !! k) -> 0 <= k < 65536 /\ ahead (m_first pb) k < ahead (m_first pb) (m_last pb) <= 2 ^ 15) as Hkeys1
    by (intros k [_ Hk]%delete_some; by apply Hkeys).
  assert (delete idx m <> ∅ -> (is_Some (delete idx m !! m_first pb) \/ m_first pb = idx) /\
    (is_Some (delete idx m !! ((m_last pb - 1) mod 65536)) \/ m_last pb = (idx + 1) mod 65536)) as Hends1.
  { intros Hne. destruct Hends as [Hf Hb]; [intros ->; by rewrite delete_empty in Hne|]. rewrite !delete_some. split.
    - destruct (decide (m_first pb = idx)); [by right|by left].
    - destruct (decide ((m_last pb - 1) mod 65536 = idx)) as [E|]; [right|by left]. rewrite <- E. seq_lia. }
  assert (forall pb2, m_storage pb2 = m_storage pb1 -> m_capacity pb2 = m_capacity pb1 -> m_first pb2 = m_first pb ->
    m_size pb2 = Z.of_nat (size (delete idx m)) -> (m_last pb2 = m_last pb \/ (delete idx m = ∅ /\ m_last pb2 = m_first pb)) -> gap pb2 (delete idx m) idx) as Hgap.
  { intros pb2 E1 E2 E3 E4 E5. split.
    - destruct (shape_set pb None idx Hs) as [? ? ?]. split; by rewrite ?E1, ?E2, ?E3.
    - intros k Hk. unfold contents. rewrite E1, E2, E3. by apply Hh1.
    - done.
    - destruct E5 as [->|[_ ->]]; [done|apply Hs].
    - rewrite E3, E2. split_and!; [lia..|done|apply lookup_delete_eq].
    - intros k Hk. rewrite E3. destruct E5 as [->|[E _]]; [by apply Hkeys1|]. rewrite E, lookup_empty in Hk. by destruct Hk.
    - intros Hne. rewrite E3. by apply Hends1.
    - intros Hne. destruct E5 as [->|[E _]]; [by apply Hends1|done]. }
  assert (forall pb2, gap pb2 (delete idx m) idx /\ m_first pb2 = m_first pb -> exists pb', (pb3 ← close_gap idx pb2; Ok (m !! idx, pb3)) = Ok (m !! idx, pb') /\
    represents pb' (delete idx m) /\ (delete idx m = ∅ -> m_first pb' = m_first pb)) as Hthen.
  { intros pb2 [G <-]. destruct (close_gap_spec _ _ _ G) as (pb' & -> & Hr' & He). by exists pb'. }
  clear Hends Hends1 Hkeys Hkeys1. destruct (m !! idx) as [p|] eqn:Ep; apply Hthen; (split; [apply Hgap|]); clear Hthen Hgap; try done; try (by case_match).
  - assert (Z.of_nat (size (delete idx m)) = m_size pb - 1) as ->; [|by case_match].
    rewrite Hsize, map_size_delete_Some by (by exists p). pose proof (map_size_ne_0_lookup_2 m idx ltac:(by exists p)). lia.
  - unfold pb1. cbn [set_storage set_size m_size]. destruct (Z.eqb_spec (m_size pb - 1) 0) as [E|E]; cbn; [right|by left].
    split; [|done]. apply map_size_empty_inv. rewrite map_size_delete_Some by (by exists p). lia.
  - cbn. by rewrite delete_id.
  - by left.
Qed.

(** ** Inserting *)

(** The numbers that can be put in: behind the first packet or ahead of it, within half of the
    numbers of all packets; if ahead and wrapped around, then the window must reach that far
    or wrap around too. *)
Definition fits pb m (idx : Z) : Prop :=
  m = ∅ \/
  (2 ^ 15 < ahead (m_first pb) idx /\ 65536 - ahead (m_first pb) idx + ahead (m_first pb) (m_last pb) <= 2 ^ 15) \/
  (ahead (m_first pb) idx < 2 ^ 15 /\
    (m_first pb <= idx \/ ahead (m_first pb) idx < m_capacity pb \/ 65536 <= m_first pb + m_capacity pb)).

(** What [make_room] achieves: the index is in the window and within the ends. *)
Record room pb m idx : Prop := {
  rm_shape : shape pb \/ (m_capacity pb = 0 /\ m_storage pb = [] /\ m = ∅ /\ m_first pb = idx);
  rm_holds : holds pb m;
  rm_size : m_size pb = Z.of_nat (size m);
  rm_last : 0 <= m_last pb < 65536;
  rm_idx : 0 < m_capacity pb -> ahead (m_first pb) idx < m_capacity pb;
  rm_in : ahead (m_first pb) idx < ahead (m_first pb) (m_last pb) <= 2 ^ 15;
  rm_keys k : is_Some (m !! k) -> 0 <= k < 65536 /\ ahead (m_first pb) k < ahead (m_first pb) (m_last pb);
  rm_front : is_Some (m !! m_first pb) \/ m_first pb = idx;
  rm_back : is_Some (m !! ((m_last pb - 1) mod 65536)) \/ m_last pb = (idx + 1) mod 65536
}.

Section Room.
Context (pb : packet_buffer packet) (m : gmap Z packet) (idx : Z).
Hypothesis R : represents pb m.
Hypothesis Hidx : 0 <= idx < 65536.
Hypothesis some_in : m <> ∅.

Abbreviation f := (m_first pb).
Abbreviation c := (m_capacity pb).
Abbreviation span := (ahead f (m_last pb)).

Lemma room_shape : shape pb.
Proof. destruct (rp_shape _ _ R) as [?|[_ ?]]; done. Qed.

Lemma room_span : 1 <= span <= c /\ is_Some (held_at pb (f + (span - 1))).
Proof.
  destruct (rp_ends _ _ R some_in) as [_ Hl]. destruct (rp_keys _ _ R _ Hl) as [Hlr Hla].
  assert (ahead f ((m_last pb - 1) mod 65536) = span - 1) as E by (pose proof (rp_last _ _ R); seq_lia).
  destruct (holds_key pb m _ room_shape (rp_holds _ _ R) Hlr Hl) as [Hc Hh]. rewrite E in *. pose proof (ahead_range f ((m_last pb - 1) mod 65536)). split; [lia|done].
Qed.

(** Behind the first packet. *)
Lemma room_behind : 2 ^ 15 < ahead f idx -> 65536 - ahead f idx + span <= 2 ^ 15 ->
  exists pb', make_room idx pb = Ok pb' /\ room pb' m idx.
Proof.
  intros Ha Hs. pose proof room_shape as Hshape. pose proof R as [_ Hh Hsize Hl Hkeys Hends]. destruct room_span as [Hspan Hlast].
  pose proof (capacity_bounds _ (sh_capacity _ Hshape)) as [Hcb _]. pose proof (sh_first _ Hshape) as Hf. pose proof (ahead_range f idx) as Har.
  unfold make_room. rewrite Hsize, size_zero, bool_decide_false, compare_less_16 by done. cbn [negb]. rewrite (proj2 (Z.ltb_lt _ _) Ha).
  rewrite mask_mod, u32_mod_cap by apply Hshape. replace (f - 1) with (f - 1 - 0) by lia.
  rewrite (free_below_spec pb span Hshape Hspan Hlast); [| |lia|lia].
  2: { intros d Hd. destruct (held_at pb (f + d)) eqn:E; [|done]. exfalso.
    pose proof (holds_held pb m d Hshape Hh ltac:(lia) ltac:(by eexists)) as Hk. destruct (Hkeys _ Hk) as [_ Hka]. seq_lia. }
  cbn [mbind result_bind]. rewrite !seq_16. set (b := (f - idx) mod 65536). assert (b = 65536 - ahead f idx) as Hb by (unfold b; seq_lia).
  assert (exists pb1, (if 0 + (c - span - 0) <? b then reserve (u32 (b + c - (0 + (c - span - 0)))) pb else Ok pb) = Ok pb1 /\
    shape pb1 /\ holds pb1 m /\ b + span <= m_capacity pb1 /\ m_first pb1 = f /\ m_last pb1 = m_last pb /\ m_size pb1 = m_size pb)
    as (pb1 & -> & Hs1 & Hh1 & Hc1 & E1 & E2 & E3).
  { destruct (Z.ltb_spec (0 + (c - span - 0)) b).
    - rewrite u32_small by lia. destruct (reserve_spec pb m (b + c - (0 + (c - span - 0))) Hshape Hh ltac:(lia)) as (st & c' & -> & ? & ? & ? & ?).
      eexists. split; [done|]. split_and!; try done. cbn. lia.
    - exists pb. split_and!; try done. lia. }
  cbn [mbind result_bind]. rewrite compare_less_16. cbn [set_first m_last]. rewrite E2.
  assert (ahead ((idx + 1) mod 65536) (m_last pb) = b + span - 1) as Hnext by (unfold b; seq_lia). rewrite Hnext.
  rewrite (proj2 (Z.ltb_ge _ _)) by lia. exists (set_first idx pb1). split; [done|].
  assert (forall k, is_Some (m !! k) -> ahead idx k = b + ahead f k) as Hfar.
  { intros k Hk. destruct (Hkeys k Hk). unfold b. seq_lia. }
  assert (ahead idx (m_last pb) = b + span) as Hspan' by (unfold b; seq_lia).
  assert (ahead idx idx = 0) as H0 by seq_lia.
  split; cbn [set_first m_first m_last m_size m_capacity m_storage]; rewrite ?E2, ?E3, ?Hspan', ?H0; try done; try lia.
  - left. by destruct Hs1.
  - apply holds_set_first; try done. intros k _ Hk. destruct (Hkeys k Hk). rewrite Hfar by done. lia.
  - intros k Hk. destruct (Hkeys k Hk). rewrite Hfar by done. split; [done|lia].
  - left. by apply Hends.
Qed.

(** Ahead of it. *)
Lemma room_ahead : ahead f idx < 2 ^ 15 -> f <= idx \/ ahead f idx < c \/ 65536 <= f + c ->
  exists pb', make_room idx pb = Ok pb' /\ room pb' m idx.
Proof.
  intros Ha Hreach. pose proof room_shape as Hshape. pose proof R as [_ Hh Hsize Hl Hkeys Hends]. destruct room_span as [Hspan Hlast].
  pose proof (capacity_bounds _ (sh_capacity _ Hshape)) as [Hcb _]. pose proof (sh_first _ Hshape) as Hf. pose proof (ahead_range f idx) as Har.
  unfold make_room. rewrite Hsize, size_zero, bool_decide_false, compare_less_16 by done. cbn [negb]. rewrite (proj2 (Z.ltb_ge _ _)) by lia.
  assert (span <= 2 ^ 15) as Hsp by (destruct (Hends some_in) as [Hk _]; destruct (Hkeys _ Hk); lia).
  assert (forall size, size = ahead f idx + 1 -> exists pb1, reserve (u32 size) pb = Ok pb1 /\
    shape pb1 /\ holds pb1 m /\ ahead f idx < m_capacity pb1 /\ m_first pb1 = f /\ m_last pb1 = m_last pb /\ m_size pb1 = m_size pb) as Hreserve.
  { intros size0 ->. rewrite u32_small by lia. destruct (reserve_spec pb m (ahead f idx + 1) Hshape Hh ltac:(lia)) as (st & c' & -> & ? & ? & ? & ?).
    eexists. split; [done|]. split_and!; try done. cbn. lia. }
  match goal with |- context [if u32 (f + c) <=? idx then ?x else ?y] => set (chosen := if u32 (f + c) <=? idx then x else y) end.
  assert (exists pb1, chosen = Ok pb1 /\ shape pb1 /\ holds pb1 m /\ ahead f idx < m_capacity pb1 /\ m_first pb1 = f /\ m_last pb1 = m_last pb /\ m_size pb1 = m_size pb)
    as (pb1 & -> & Hs1 & Hh1 & Hc1 & E1 & E2 & E3).
  { unfold chosen. rewrite u32_small by lia. destruct (Z.leb_spec (f + c) idx); [apply Hreserve; seq_lia|].
    destruct (Z.ltb_spec idx f).
    - assert (65536 <= f + c) by (destruct Hreach as [?|[?|?]]; [lia|seq_lia|done]). rewrite land_65535.
      assert ((f + c) mod 65536 = f + c - 65536) as -> by (symmetry; apply (Zmod_unique _ _ 1); lia).
      destruct (Z.leb_spec (f + c - 65536) idx); cbn [andb].
      + assert (c <= ahead f idx) by seq_lia. rewrite (proj2 (Z.ltb_lt _ _)) by lia. apply Hreserve. seq_lia.
      + exists pb. split_and!; try done. seq_lia.
    - exists pb. split_and!; try done. seq_lia. }
  cbn [mbind result_bind]. rewrite seq_16, compare_less_16, E2.
  assert (ahead ((idx + 1) mod 65536) (m_last pb) = (span - ahead f idx - 1) mod 65536) as -> by seq_lia.
  assert (ahead f ((idx + 1) mod 65536) = ahead f idx + 1) as Hnext by seq_lia.
  destruct (Z.le_gt_cases span (ahead f idx)) as [Hout|Hin].
  - assert ((span - ahead f idx - 1) mod 65536 = span - ahead f idx - 1 + 65536) as -> by (symmetry; apply (Zmod_unique _ _ (-1)); lia).
    rewrite (proj2 (Z.ltb_lt _ _)) by lia. eexists. split; [done|].
    split; cbn [set_last m_first m_last m_size m_capacity m_storage]; rewrite ?E1, ?E3, ?Hnext; try done; try lia.
    + left. by destruct Hs1.
    + apply Z.mod_pos_bound. lia.
    + intros k Hk. destruct (Hkeys k Hk). split; [done|lia].
    + left. by apply Hends.
  - rewrite Z.mod_small by lia. rewrite (proj2 (Z.ltb_ge _ _)) by lia. exists pb1. split; [done|].
    split; rewrite ?E1, ?E2, ?E3; try done; try lia; [by left| |left; by apply Hends..].
    intros k Hk. destruct (Hkeys k Hk). split; [done|lia].
Qed.
End Room.

(** Into an empty buffer. *)
Lemma room_empty pb idx : represents pb ∅ -> 0 <= idx < 65536 -> exists pb', make_room idx pb = Ok pb' /\ room pb' ∅ idx.
Proof.
  intros [Hs Hh Hsize Hl _ _] Hi. unfold make_room. rewrite Hsize. cbn [negb Z.eqb]. change (Z.of_nat (size ∅) =? 0) with true. cbn [negb].
  eexists. split; [done|]. rewrite seq_16. assert (ahead idx ((idx + 1) mod 65536) = 1) as H1 by seq_lia.
  assert (ahead idx idx = 0) as H0 by seq_lia.
  split; cbn [set_last set_first m_first m_last m_size m_capacity m_storage]; rewrite ?H1, ?H0; try done; try lia.
  - destruct Hs as [[? ? ?]|[-> _]]; [left; by split|by right].
  - destruct Hs as [Hs|[-> _]]; [|intros j _; unfold contents; cbn; by case_match].
    change (holds (set_first idx pb) ∅). apply holds_set_first; try done. intros k _. rewrite lookup_empty. by intros [].
  - apply Z.mod_pos_bound. lia.
  - intros k. rewrite lookup_empty. by intros [].
Qed.

Lemma make_room_spec pb m idx : represents pb m -> 0 <= idx < 65536 -> fits pb m idx -> exists pb', make_room idx pb = Ok pb' /\ room pb' m idx.
Proof.
  intros Hr Hi Hfits. destruct (decide (m = ∅)) as [->|Hne]; [by apply room_empty|].
  destruct Hfits as [?|[[? ?]|[? ?]]]; [done|by apply room_behind|by apply room_ahead].
Qed.

(** The first storage. *)
Lemma room_storage pb m idx : room pb m idx -> 0 <= idx < 65536 ->
  exists pb', (if m_capacity pb =? 0 then reserve 16 pb else Ok pb) = Ok pb' /\ room pb' m idx /\ shape pb'.
Proof.
  intros Hr Hi. pose proof Hr as [Hs Hh Hsize Hl Hidx Hin Hkeys Hf Hb]. destruct Hs as [Hs|(Hc & Hst & -> & Hfi)].
  - pose proof (capacity_bounds _ (sh_capacity _ Hs)) as [? _]. rewrite (proj2 (Z.eqb_neq _ _)) by lia. by exists pb.
  - rewrite Hc. cbn [Z.eqb]. unfold reserve. rewrite Hc. cbn [Z.eqb grow Z.leb]. change (16 <=? 16) with true. cbn [mbind result_bind].
    eexists. split; [done|]. assert (shape (set_storage (replicate (Z.to_nat 16) None) 16 pb)) as Hs'.
    { split; cbn [set_storage m_capacity m_storage m_first]; [by exists 4|by rewrite length_replicate|by rewrite Hfi]. }
    split; [|done]. split; cbn [set_storage m_capacity m_storage m_first m_last m_size]; try done; [by left| |].
    + intros j _. rewrite lookup_empty. unfold contents, held. cbn [set_storage m_capacity m_storage m_first]. case_match; [|done].
      destruct (replicate (Z.to_nat 16) (None : option packet) !! Z.to_nat (j mod 16)) as [o|] eqn:E; [|done]. apply lookup_replicate in E as [-> _]. done.
    + intros _. rewrite Hfi. unfold ahead. rewrite Z.sub_diag. done.
Qed.

(** [insert] returns the packet the number had before and puts the new one in its place. *)
Lemma insert_spec pb m idx p : represents pb m -> 0 <= idx < 65536 -> fits pb m idx ->
  exists pb', insert idx (Some p) pb = Ok (m !! idx, pb') /\ represents pb' (<[idx := p]> m).
Proof.
  intros Hr Hi Hfits. destruct (make_room_spec pb m idx Hr Hi Hfits) as (pb1 & E1 & R1).
  destruct (room_storage pb1 m idx R1 Hi) as (pb2 & E2 & R2 & Hs). unfold insert. rewrite E1. cbn [mbind result_bind]. rewrite E2. cbn [mbind result_bind].
  clear E1 E2 R1 pb1 Hr Hfits. pose proof R2 as [_ Hh Hsize Hl Hidx Hin Hkeys Hf Hb].
  pose proof (capacity_bounds _ (sh_capacity _ Hs)) as [Hcb _]. specialize (Hidx ltac:(lia)).
  rewrite slot_held by apply Hs. cbn [mbind result_bind].
  assert (held_at pb2 idx = m !! idx) as Hheld by (rewrite <- Hh by done; unfold contents; by rewrite (proj2 (Z.ltb_lt _ _) Hidx)).
  rewrite Hheld. set (pb3 := set_storage _ _ pb2).
  assert ((if m_size pb3 =? 0 then set_first idx pb3 else pb3) = pb3) as ->.
  { unfold pb3. cbn [set_storage m_size]. rewrite Hsize, size_zero. destruct (bool_decide_reflect (m = ∅)) as [->|]; [|done].
    rewrite lookup_empty in Hf. destruct Hf as [[? ?]|<-]; [done|by destruct pb2]. }
  eexists. split; [done|].
  assert (holds pb3 (<[idx := p]> m)) as Hh3 by (by apply holds_set_slot).
  assert (forall k, is_Some (<[idx := p]> m !! k) -> 0 <= k < 65536 /\ ahead (m_first pb2) k < ahead (m_first pb2) (m_last pb2) <= 2 ^ 15) as Hkeys3.
  { intros k Hk. destruct (decide (k = idx)) as [->|Hne]; [done|]. rewrite lookup_insert_ne in Hk by done. destruct (Hkeys k Hk). split; [done|lia]. }
  assert (forall k, is_Some (m !! k) \/ k = idx -> is_Some (<[idx := p]> m !! k)) as Hin3.
  { intros k Hk. destruct (decide (k = idx)) as [->|]; [rewrite lookup_insert_eq; by exists p|]. rewrite lookup_insert_ne by done. by destruct Hk. }
  assert (is_Some (<[idx := p]> m !! ((m_last pb2 - 1) mod 65536))) as Hlast3.
  { apply Hin3. destruct Hb as [?|E]; [by left|right]. rewrite E. seq_lia. }
  assert (shape pb3) as Hs3 by (by apply shape_set).
  destruct (m !! idx) as [old|] eqn:Eo; split; try done; try (by left); try (intros _; split; [by apply Hin3|done]).
  - cbn. by rewrite map_size_insert, Eo.
  - left. by destruct Hs3.
  - cbn. rewrite map_size_insert, Eo. lia.
Qed.

(** The buffer is a map from sequence numbers to packets: a look-up and a removal give what was
    put in under the number, an insertion what it replaces, and growing, moving the ends and
    wrapping around change nothing else. *)
Theorem packet_buffer_is_map pb m idx : represents pb m -> 0 <= idx < 65536 ->
  (reaches pb idx -> packet_at idx pb = Ok (m !! idx) /\
    exists pb', remove idx pb = Ok (m !! idx, pb') /\ represents pb' (delete idx m)) /\
  (fits pb m idx -> forall p, exists pb', insert idx (Some p) pb = Ok (m !! idx, pb') /\ represents pb' (<[idx := p]> m)).
Proof.
  intros Hr Hi. split; [|intros ? p; by apply insert_spec]. intros ?. split; [by apply packet_at_spec|].
  destruct (remove_spec pb m idx) as (pb' & ? & ? & _); [done..|]. by exists pb'.
Qed.

(** ** Runs of operations *)

Inductive buffer_op := Insert (idx : Z) (p : packet) | Remove (idx : Z) | At (idx : Z).

Definition op_index (o : buffer_op) : Z := match o with Insert idx _ | Remove idx | At idx => idx end.

Fixpoint run_buffer (ops : list buffer_op) (pb : packet_buffer packet) : result (list (option packet) * packet_buffer packet) :=
  match ops with
  | [] => Ok ([], pb)
  | o :: ops =>
      '(r, pb) ← match o with
                  | Insert idx p => insert idx (Some p) pb
                  | Remove idx => remove idx pb
                  | At idx => r ← packet_at idx pb; Ok (r, pb)
                  end;
      '(rs, pb) ← run_buffer ops pb;
      Ok (r :: rs, pb)
  end.

(** The same run on a map. *)
Fixpoint run_map (ops : list buffer_op) m : list (option packet) :=
  match ops with
  | [] => []
  | o :: ops => (m !! op_index o) :: run_map ops match o with Insert idx p => <[idx := p]> m | Remove idx => delete idx m | At _ => m end
  end.

(** Numbers below half of the range never wrap around. *)
Definition low pb m : Prop := m_first pb < 2 ^ 15 /\ forall idx, is_Some (m !! idx) -> 0 <= idx < 2 ^ 15.

Lemma low_fits pb m idx : represents pb m -> low pb m -> 0 <= idx < 2 ^ 15 -> reaches pb idx /\ fits pb m idx.
Proof.
  intros Hr [Hfl Hlow] Hi. pose proof Hr as [Hs Hh Hsize Hl Hkeys Hends]. assert (0 <= m_first pb) as Hf.
  { destruct Hs as [Hs|[-> _]]; [apply Hs|done]. }
  split.
  - unfold reaches. destruct (Z.le_gt_cases (m_first pb) idx); [by left|]. right; right. seq_lia.
  - destruct (decide (m = ∅)) as [->|Hne]; [by left|right]. destruct (Hends Hne) as [Hk1 Hk2]. destruct (Hkeys _ Hk1). apply Hlow in Hk2.
    destruct (Z.le_gt_cases (m_first pb) idx); [right|left]; (split; [seq_lia|]); [by left|seq_lia].
Qed.

Lemma low_first pb m : represents pb m -> (forall idx, is_Some (m !! idx) -> 0 <= idx < 2 ^ 15) -> (m = ∅ -> m_first pb < 2 ^ 15) -> low pb m.
Proof. intros Hr Hl He. split; [|done]. destruct (decide (m = ∅)); [by apply He|]. destruct (rp_ends _ _ Hr) as [Hk _]; [done|]. by apply Hl. Qed.

(** In a stream that has not used up half of the sequence numbers any insertions, removals and
    look-ups, in whatever order, answer as a map does. *)
Theorem packet_buffer_runs ops : Forall (fun o => 0 <= op_index o < 2 ^ 15) ops ->
  exists pb, run_buffer ops packet_buffer_create = Ok (run_map ops ∅, pb).
Proof.
  intros Hops. assert (forall pb m, represents pb m -> low pb m -> exists pb', run_buffer ops pb = Ok (run_map ops m, pb')) as Hrun.
  2: { apply Hrun; [apply represents_create|]. split; [done|]. intros idx. rewrite lookup_empty. by intros []. }
  induction Hops as [|o ops Ho _ IH]; intros pb m Hr Hlow; [by exists pb|].
  destruct (low_fits pb m (op_index o) Hr Hlow Ho) as [Hreach Hfits]. pose proof Hlow as [Hfl Hkl].
  destruct o as [idx p|idx|idx]; cbn [op_index run_buffer run_map] in *.
  - destruct (insert_spec pb m idx p Hr ltac:(lia) Hfits) as (pb' & -> & Hr'). cbn [mbind result_bind].
    destruct (IH pb' _ Hr') as (pb2 & ->); [|by exists pb2]. apply low_first; [done| |by intros ?%insert_non_empty].
    intros k Hk. destruct (decide (k = idx)) as [->|Hne]; [done|]. rewrite lookup_insert_ne in Hk by done. by apply Hkl.
  - destruct (remove_spec pb m idx Hr ltac:(lia) Hreach) as (pb' & -> & Hr' & He). cbn [mbind result_bind].
    destruct (IH pb' _ Hr') as (pb2 & ->); [|by exists pb2]. apply low_first; [done| |intros E; by rewrite He].
    intros k [_ Hk]%delete_some. by apply Hkl.
  - rewrite (packet_at_spec pb m idx Hr ltac:(lia) Hreach). cbn [mbind result_bind]. destruct (IH pb m Hr Hlow) as (pb2 & ->). by exists pb2.
Qed.
End Contents.

(** ** Where the buffer is no map *)

(** The wrap-around of a number is only looked for when it lies above the end of the window,
    taken modulo 2^16: a number that has wrapped around while the window has not is put into the
    slot of another packet, which is lost. *)
Lemma wrapped_insert_displaces :
  (fun r => r.1) <$> run_buffer [Insert 65500 "a"%string; Insert 65509 "b"%string; Insert 5 "c"%string; At 65509] packet_buffer_create =
  Ok [None; None; Some "b"%string; Some "c"%string].
Proof. vm_compute. reflexivity. Qed.

(** Likewise a look-up gives, and a removal takes, a packet of another number. *)
Lemma wrapped_remove_takes_other :
  (fun r => r.1) <$> run_buffer [Insert 65500 "a"%string; Insert 65509 "b"%string; At 5; Remove 5; At 65509] packet_buffer_create =
  Ok [None; None; Some "b"%string; Some "b"%string; None].
Proof. vm_compute. reflexivity. Qed.

(** ** Samples *)

(** The buffer grows, and its numbers wrap around, without losing a packet. *)
Example sample_wraps :
  (fun r => (r.1, m_capacity r.2, m_first r.2, m_last r.2)) <$>
    run_buffer [Insert 65530 "a"%string; Insert 3 "b"%string; Insert 20 "c"%string; Remove 65530; At 3; At 20] packet_buffer_create =
  Ok ([None; None; None; Some "a"%string; Some "b"%string; Some "c"%string], 32, 3, 21).
Proof. vm_compute. reflexivity. Qed.

Lemma packet_buffer_is_map_witness : exists pb, insert 65535 (Some "a"%string) packet_buffer_create = Ok (None, pb) /\ represents pb {[65535 := "a"%string]}.
Proof.
  destruct (packet_buffer_is_map (packet := string) packet_buffer_create ∅ 65535 represents_create ltac:(lia)) as [_ Hi].
  destruct (Hi ltac:(by left) "a"%string) as (pb & E & Hr). exists pb. split; [exact E|exact Hr].
Defined.

Lemma packet_buffer_runs_witness : exists pb,
  run_buffer [Insert 7 "a"%string; Insert 3 "b"%string; Remove 7; At 3; At 7] packet_buffer_create = Ok ([None; None; Some "a"%string; Some "b"%string; None], pb).
Proof. apply (packet_buffer_runs [Insert 7 "a"%string; Insert 3 "b"%string; Remove 7; At 3; At 7]). repeat constructor; simpl; lia. Defined.
