(* ===== verification/Bitfield.v ===== *)
(** * Bitfields

    [bitfield] ([extern/libtorrent/include/libtorrent/bitfield.hpp],
    [extern/libtorrent/src/bitfield.cpp]) keeps bits in 32-bit words, the first bit of a word in
    the highest place of its network byte order, so that the words in memory are the bytes of the
    BitTorrent message.  A buffer is the size in bits followed by the words; a bitfield of no
    bits has none.  The scans for the first and the last bit are those of
    [extern/libtorrent/src/ffs.cpp]. *)

From S2P Require Import Prelude Sha1.

(** ** Words in network order *)

(** The four bytes of a word in reverse. *)
Definition swap_bytes (x : Z) : Z :=
  Z.lor (Z.lor (Z.shiftl (Z.land x 255) 24) (Z.shiftl (Z.land (Z.shiftr x 8) 255) 16))
    (Z.lor (Z.shiftl (Z.land (Z.shiftr x 16) 255) 8) (Z.land (Z.shiftr x 24) 255)).

(** [htonl], [ntohl] *)
Definition host_to_network `{Endian} (x : Z) : Z := if big_endian then x else swap_bytes x.
Definition network_to_host `{Endian} (x : Z) : Z := host_to_network x.

Definition not32 (x : Z) : Z := Z.lxor x 0xffffffff.

(** [0xffffffff << n] of [unsigned] numbers; shifting by the whole width is undefined. *)
Definition ones_above (n : Z) : result Z := if 32 <=? n then Fault BadPrecondition else Ok (u32 (Z.shiftl 0xffffffff n)).

(** ** Scanning words *)

(** [extern/libtorrent/src/ffs.cpp:53-57] log2p1 *)
Definition MultiplyDeBruijnBitPosition : list Z :=
  [0; 9; 1; 10; 13; 21; 2; 29; 11; 14; 16; 18; 22; 25; 3; 30; 8; 12; 20; 28; 15; 17; 24; 7; 19; 27; 23; 6; 26; 5; 4; 31].

(** [extern/libtorrent/src/ffs.cpp:50-66] log2p1 *)
Definition log2p1 (v : Z) : Z :=
  let v := Z.lor v (Z.shiftr v 1) in
  let v := Z.lor v (Z.shiftr v 2) in
  let v := Z.lor v (Z.shiftr v 4) in
  let v := Z.lor v (Z.shiftr v 8) in
  let v := Z.lor v (Z.shiftr v 16) in
  nth (Z.to_nat (Z.shiftr (u32 (v * 0x07C4ACDD)) 27)) MultiplyDeBruijnBitPosition 0.

(** [extern/libtorrent/src/ffs.cpp:68-83] count_leading_zeros_sw *)
Fixpoint count_leading_zeros_sw `{Endian} (buf : list Z) : Z :=
  match buf with
  | [] => 0
  | w :: buf' => if w =? 0 then 32 + count_leading_zeros_sw buf' else 31 - log2p1 (network_to_host w)
  end.

(** [__builtin_clz]: the zeros above the highest bit of a number that is not 0. *)
Definition builtin_clz (v : Z) : Z := 31 - Z.log2 v.

(** [extern/libtorrent/src/ffs.cpp:85-112] count_leading_zeros_hw *)
Fixpoint count_leading_zeros_hw `{Endian} (buf : list Z) : Z :=
  match buf with
  | [] => 0
  | w :: buf' => if w =? 0 then 32 + count_leading_zeros_hw buf' else builtin_clz (network_to_host w)
  end.

(** [extern/libtorrent/src/ffs.cpp:137-141] count_trailing_ones_sw
    The place of the lowest bit of a word, the last [n] places being left. *)
Fixpoint lowest_bit (n : nat) (k v : Z) : option Z :=
  match n with
  | O => None
  | S n' => if Z.land v 1 =? 0 then lowest_bit n' (k + 1) (Z.shiftr v 1) else Some k
  end.

(** [extern/libtorrent/src/ffs.cpp:124-146] count_trailing_ones_sw
    The words from the last one on. *)
Fixpoint count_trailing_ones_rev `{Endian} (rev_buf : list Z) : Z :=
  match rev_buf with
  | [] => 0
  | w :: rest =>
      if w =? 0xffffffff then 32 + count_trailing_ones_rev rest
      else match lowest_bit 32 0 (not32 (network_to_host w)) with
           | Some k => k
           | None => 32 + count_trailing_ones_rev rest
           end
  end.

Definition count_trailing_ones `{Endian} (buf : list Z) : Z := count_trailing_ones_rev (reverse buf).

(** ** The class *)

Section Class.
Context `{Endian}.

(** [extern/libtorrent/include/libtorrent/bitfield.hpp:272-275] bitfield
    A null pointer is the empty list. *)
Record bitfield := mk_bitfield { m_buf : list Z }.

Definition bf_create : bitfield := mk_bitfield [].

(** [extern/libtorrent/include/libtorrent/bitfield.hpp:121-126] bitfield::size *)
Definition bf_size (bf : bitfield) : Z := match m_buf bf with [] => 0 | bits :: _ => i32 bits end.

(** [extern/libtorrent/include/libtorrent/bitfield.hpp:130-133] bitfield::num_words *)
Definition num_words (bf : bitfield) : Z := Z.quot (bf_size bf + 31) 32.

(** [extern/libtorrent/include/libtorrent/bitfield.hpp:264-265] bitfield::buf *)
Definition words (bf : bitfield) : list Z := tail (m_buf bf).

Definition set_words (ws : list Z) (bf : bitfield) : bitfield :=
  mk_bitfield (match m_buf bf with [] => [] | bits :: _ => bits :: ws end).

(** [buf()[i]] *)
Definition word_at (i : Z) (bf : bitfield) : result Z :=
  if i <? 0 then Fault BadPrecondition else match words bf !! Z.to_nat i with Some w => Ok w | None => Fault BadPrecondition end.

Definition edit_word (i : Z) (f : Z -> Z) (bf : bitfield) : result bitfield :=
  w ← word_at i bf;
  Ok (set_words (<[Z.to_nat i := f w]> (words bf)) bf).

(** [extern/libtorrent/include/libtorrent/bitfield.hpp:82-87] bitfield::get_bit *)
Definition get_bit (index : Z) (bf : bitfield) : result bool :=
  w ← word_at (Z.quot index 32) bf;
  Ok (negb (Z.land w (host_to_network (Z.shiftr 0x80000000 (Z.land index 31))) =? 0)).

(** [extern/libtorrent/include/libtorrent/bitfield.hpp:90-95] bitfield::clear_bit *)
Definition clear_bit (index : Z) (bf : bitfield) : result bitfield :=
  edit_word (Z.quot index 32) (fun w => Z.land w (host_to_network (not32 (Z.shiftr 0x80000000 (Z.land index 31))))) bf.

(** [extern/libtorrent/include/libtorrent/bitfield.hpp:96-101] bitfield::set_bit *)
Definition set_bit (index : Z) (bf : bitfield) : result bitfield :=
  edit_word (Z.quot index 32) (fun w => Z.lor w (host_to_network (Z.shiftr 0x80000000 (Z.land index 31)))) bf.

(** [extern/libtorrent/include/libtorrent/bitfield.hpp:266-270] bitfield::clear_trailing_bits *)
Definition clear_trailing_bits (bf : bitfield) : result bitfield :=
  if Z.land (bf_size bf) 31 =? 0 then Ok bf
  else
    mask ← ones_above (32 - Z.land (bf_size bf) 31);
    edit_word (num_words bf - 1) (fun w => Z.land w (host_to_network mask)) bf.

(** [extern/libtorrent/src/bitfield.cpp:159-194] bitfield::resize *)
Definition bf_resize (bits : Z) (bf : bitfield) : result bitfield :=
  if bits =? bf_size bf then Ok bf
  else if bits <? 0 then Fault BadPrecondition
  else if bits =? 0 then Ok (mk_bitfield [])
  else if 2 ^ 31 <=? bits + 31 then Fault SignedOverflow
  else
    let new_size_words := Z.quot (bits + 31) 32 in
    let cur_size_words := num_words bf in
    clear_trailing_bits (mk_bitfield (bits ::
      if negb (cur_size_words =? new_size_words) then
        take (Z.to_nat (Z.min new_size_words cur_size_words)) (words bf) ++ replicate (Z.to_nat (new_size_words - cur_size_words)) 0
      else words bf)).

(** [std::memset] of the words from number [first] on, up to number [last]. *)
Definition fill_words (first last w : Z) (bf : bitfield) : bitfield :=
  set_words (take (Z.to_nat first) (words bf) ++ replicate (Z.to_nat (last - first)) w ++ drop (Z.to_nat last) (words bf)) bf.

(** [extern/libtorrent/src/bitfield.cpp:132-157] bitfield::resize *)
Definition bf_resize_val (bits : Z) (val : bool) (bf : bitfield) : result bitfield :=
  if bits =? bf_size bf then Ok bf
  else
    let s := bf_size bf in
    let b := Z.land (bf_size bf) 31 in
    bf ← bf_resize bits bf;
    if bf_size bf <=? s then Ok bf
    else
      let old_size_words := Z.quot (s + 31) 32 in
      let new_size_words := num_words bf in
      if val then
        bf ← (if negb (old_size_words =? 0) && negb (b =? 0) then
                edit_word (old_size_words - 1) (fun w => Z.lor w (host_to_network (Z.shiftr 0xffffffff b))) bf
              else Ok bf);
        clear_trailing_bits (if old_size_words <? new_size_words then fill_words old_size_words new_size_words 0xffffffff bf else bf)
      else Ok (if old_size_words <? new_size_words then fill_words old_size_words new_size_words 0 bf else bf).

(** The bytes of the words in memory. *)
Definition words_bytes (ws : list Z) : bytes := concat (map (fun w => be 4 (network_to_host w)) ws).

Fixpoint bytes_words (n : nat) (l : bytes) : list Z :=
  match n with
  | O => []
  | S n' => host_to_network (unbe (take 4 l)) :: bytes_words n' (drop 4 l)
  end.

(** [extern/libtorrent/include/libtorrent/bitfield.hpp:69-77] bitfield::assign
    [b] points to the bytes of a buffer. *)
Definition bf_assign `{PastEnd} (b : bytes) (bits : Z) (bf : bitfield) : result bitfield :=
  bf ← bf_resize bits bf;
  if 0 <? bits then
    let n := Z.to_nat (Z.quot (bits + 7) 8) in
    let memory := words_bytes (words bf) in
    clear_trailing_bits (set_words (bytes_words (length (words bf)) (span b 0 n ++ drop n memory)) bf)
  else Ok bf.

(** [extern/libtorrent/include/libtorrent/bitfield.hpp:247-252] bitfield::set_all *)
Definition set_all (bf : bitfield) : result bitfield :=
  if bf_size bf =? 0 then Ok bf else clear_trailing_bits (fill_words 0 (num_words bf) 0xffffffff bf).

(** [extern/libtorrent/include/libtorrent/bitfield.hpp:253-257] bitfield::clear_all *)
Definition clear_all (bf : bitfield) : bitfield :=
  if bf_size bf =? 0 then bf else fill_words 0 (num_words bf) 0 bf.

(** [extern/libtorrent/include/libtorrent/bitfield.hpp:107-118] bitfield::none_set *)
Definition none_set (bf : bitfield) : bool :=
  if bf_size bf =? 0 then true else forallb (fun w => w =? 0) (take (Z.to_nat (num_words bf)) (words bf)).

(** [extern/libtorrent/src/bitfield.cpp:43-59] bitfield::all_set *)
Definition all_set (bf : bitfield) : result bool :=
  if bf_size bf =? 0 then Ok false
  else
    let whole := Z.quot (bf_size bf) 32 in
    if negb (forallb (fun w => w =? 0xffffffff) (take (Z.to_nat whole) (words bf))) then Ok false
    else
      let rest := Z.land (bf_size bf) 31 in
      if 0 <? rest then
        mask ← ones_above (32 - rest);
        let mask := host_to_network mask in
        w ← word_at whole bf;
        Ok (Z.land w mask =? mask)
      else Ok true.

(** [extern/libtorrent/src/bitfield.cpp:112-122] bitfield::count
    The bits of a word, where no instruction counts them. *)
Definition count_word (v : Z) : Z :=
  let c := u32 (v - Z.land (Z.shiftr v 1) 0x55555555) in
  let c := u32 (Z.land (Z.shiftr c 2) 0x33333333 + Z.land c 0x33333333) in
  let c := Z.land (u32 (Z.shiftr c 4 + c)) 0x0F0F0F0F in
  let c := Z.land (u32 (Z.shiftr c 8 + c)) 0x00FF00FF in
  Z.land (u32 (Z.shiftr c 16 + c)) 0x0000FFFF.

(** [extern/libtorrent/src/bitfield.cpp:61-130] bitfield::count *)
Definition bf_count (bf : bitfield) : Z := foldl (fun ret v => ret + count_word v) 0 (take (Z.to_nat (num_words bf)) (words bf)).

(** [extern/libtorrent/src/bitfield.cpp:196-202] bitfield::find_first_set *)
Definition find_first_set (bf : bitfield) : Z :=
  let num := num_words bf in
  if num =? 0 then -1
  else
    let count := count_leading_zeros_hw (take (Z.to_nat num) (words bf)) in
    if negb (count =? num * 32) then count else -1.

(** [extern/libtorrent/src/bitfield.cpp:204-215] bitfield::find_last_clear *)
Definition find_last_clear (bf : bitfield) : result Z :=
  let num := num_words bf in
  if num =? 0 then Ok (-1)
  else
    let size := bf_size bf in
    mask ← ones_above (32 - Z.land size 31);
    w ← word_at (num - 1) bf;
    let last := Z.lxor w (host_to_network mask) in
    let ext := count_trailing_ones [not32 last] - (31 - Z.rem size 32) in
    Ok (if negb (last =? 0) then (num - 1) * 32 + ext
        else size - (count_trailing_ones (take (Z.to_nat (num - 1)) (words bf)) + ext)).
End Class.

(** ** Words *)

Definition word_ok (w : Z) : Prop := 0 <= w < 2 ^ 32.

(** Where a bit of a word goes when the bytes are reversed. *)
Definition swapped_place (i : Z) : Z := 24 - 8 * (i / 8) + i mod 8.

Lemma byte_bit x k i : 0 <= k -> 0 <= i -> Z.testbit (Z.land (Z.shiftr x k) 255) i = (i <? 8) && Z.testbit x (i + k).
Proof.
  intros Hk Hi. rewrite Z.land_spec, Z.shiftr_spec by done. change 255 with (Z.ones 8). rewrite andb_comm. f_equal.
  destruct (Z.ltb_spec i 8); [apply Z.ones_spec_low; lia|apply Z.ones_spec_high; lia].
Qed.

Lemma swap_bit x i : 0 <= i -> Z.testbit (swap_bytes x) i = (i <? 32) && Z.testbit x (swapped_place i).
Proof.
  intros Hi. unfold swap_bytes. replace (Z.land x 255) with (Z.land (Z.shiftr x 0) 255) by (by rewrite Z.shiftr_0_r).
  rewrite !Z.lor_spec, !Z.shiftl_spec by done.
  assert (forall k d, 0 <= k -> k + d = 24 -> Z.testbit (Z.land (Z.shiftr x k) 255) (i - d) =
    (d <=? i) && (i <? d + 8) && Z.testbit x (i - d + k)) as Hb.
  { intros k d Hk Hd. destruct (Z.leb_spec d i); [|by rewrite Z.testbit_neg_r by lia]. rewrite byte_bit by lia.
    cbn [andb]. f_equal. apply eq_iff_eq_true. rewrite !Z.ltb_lt. lia. }
  rewrite (Hb 0 24), (Hb 8 16), (Hb 16 8) by lia. replace (Z.testbit (Z.land (Z.shiftr x 24) 255) i) with (Z.testbit (Z.land (Z.shiftr x 24) 255) (i - 0)) by (by rewrite Z.sub_0_r).
  rewrite (Hb 24 0) by lia. clear Hb. unfold swapped_place.
  assert (i = 8 * (i / 8) + i mod 8) as Hdm by (apply Z.div_mod; lia). pose proof (Z.mod_pos_bound i 8 ltac:(lia)).
  set (q := i / 8) in *. set (r := i mod 8) in *. clearbody q r. subst i.
  assert (forall d, (d <=? 8 * q + r) && (8 * q + r <? d + 8) = bool_decide (d <= 8 * q + r < d + 8)) as Hin.
  { intros d. apply eq_iff_eq_true. rewrite andb_true_iff, Z.leb_le, Z.ltb_lt, bool_decide_eq_true. done. }
  rewrite !Hin. destruct (Z.ltb_spec (8 * q + r) 32); cbn [andb].
  2: { rewrite !bool_decide_false by lia. done. }
  assert (q = 0 \/ q = 1 \/ q = 2 \/ q = 3) as Hq by lia.
  destruct Hq as [->|[->|[->| ->]]]; repeat case_bool_decide; try lia; cbn [andb orb]; rewrite ?orb_false_r; f_equal; lia.
Qed.

Lemma word_ok_bits w : 0 <= w -> word_ok w <-> forall i, 32 <= i -> Z.testbit w i = false.
Proof.
  intros Hw. split.
  - intros [_ Hlt] i Hi. destruct (decide (w = 0)) as [->|]; [apply Z.testbit_0_l|]. apply Z.bits_above_log2; [done|].
    assert (Z.log2 w < 32) by (apply Z.log2_lt_pow2; lia). lia.
  - intros Hb. split; [done|]. destruct (decide (w = 0)) as [->|]; [done|]. apply Z.log2_lt_pow2; [lia|].
    destruct (Z.lt_ge_cases (Z.log2 w) 32) as [?|Hge]; [done|]. pose proof (Z.bit_log2 w ltac:(lia)) as Ht. by rewrite Hb in Ht.
Qed.

Lemma swap_bytes_nonneg x : 0 <= swap_bytes x.
Proof.
  unfold swap_bytes. assert (forall k n, 0 <= Z.shiftl (Z.land (Z.shiftr x k) 255) n) as H
    by (intros; apply Z.shiftl_nonneg, Z.land_nonneg; by right).
  replace (Z.land x 255) with (Z.land (Z.shiftr x 0) 255) by (by rewrite Z.shiftr_0_r).
  rewrite !Z.lor_nonneg. repeat split; try apply H. apply Z.land_nonneg. by right.
Qed.

Section Words.
Context `{Endian}.

Definition place (i : Z) : Z := if big_endian then i else swapped_place i.

Lemma place_range i : 0 <= i < 32 -> 0 <= place i < 32.
Proof. intros Hi. unfold place, swapped_place. destruct big_endian; [done|]. Z.div_mod_to_equations; lia. Qed.

Lemma place_place i : 0 <= i < 32 -> place (place i) = i.
Proof. intros Hi. unfold place, swapped_place. destruct big_endian; [done|]. Z.div_mod_to_equations; lia. Qed.

Lemma host_bit w i : word_ok w -> 0 <= i < 32 -> Z.testbit (host_to_network w) i = Z.testbit w (place i).
Proof.
  intros Hw Hi. unfold host_to_network, place. destruct big_endian; [done|]. rewrite swap_bit by lia. by rewrite (proj2 (Z.ltb_lt _ _)) by lia.
Qed.

Lemma host_ok w : word_ok w -> word_ok (host_to_network w).
Proof.
  intros Hw. unfold host_to_network. destruct big_endian; [done|]. apply word_ok_bits; [apply swap_bytes_nonneg|].
  intros i Hi. rewrite swap_bit by lia. by rewrite (proj2 (Z.ltb_ge _ _)) by lia.
Qed.

Lemma words_ext v w : word_ok v -> word_ok w -> (forall i, 0 <= i < 32 -> Z.testbit v i = Z.testbit w i) -> v = w.
Proof.
  intros Hv Hw Hb. apply Z.bits_inj'. intros i Hi. destruct (Z.lt_ge_cases i 32); [by apply Hb|].
  apply (word_ok_bits v) with (i := i) in Hv as ->; [|by destruct Hv|done]. apply (word_ok_bits w) with (i := i) in Hw as ->; [done|by destruct Hw|done].
Qed.

Lemma host_host w : word_ok w -> host_to_network (host_to_network w) = w.
Proof.
  intros Hw. apply words_ext; [by do 2 apply host_ok|done|]. intros i Hi. rewrite (host_bit (host_to_network w)) by (done || by apply host_ok).
  rewrite host_bit, place_place by (done || by apply place_range). done.
Qed.

Lemma land_ok v w : word_ok v -> word_ok w -> word_ok (Z.land v w).
Proof.
  intros Hv Hw. apply word_ok_bits; [apply Z.land_nonneg; left; apply Hv|]. intros i Hi. rewrite Z.land_spec.
  apply word_ok_bits with (i := i) in Hv as ->; [done|apply Hv|done].
Qed.

Lemma lor_ok v w : word_ok v -> word_ok w -> word_ok (Z.lor v w).
Proof.
  intros Hv Hw. apply word_ok_bits; [apply Z.lor_nonneg; split; [apply Hv|apply Hw]|]. intros i Hi. rewrite Z.lor_spec.
  apply word_ok_bits with (i := i) in Hv as ->; [|apply Hv|done]. apply word_ok_bits with (i := i) in Hw as ->; [done|apply Hw|done].
Qed.

(** The bit of a word under a position of the bitfield: the first one is the highest. *)
Definition bit_in (w i : Z) : bool := Z.testbit (network_to_host w) (31 - i mod 32).

Lemma bit_in_land w m i : word_ok w -> word_ok m -> bit_in (Z.land w (host_to_network m)) i = bit_in w i && Z.testbit m (31 - i mod 32).
Proof.
  intros Hw Hm. unfold bit_in, network_to_host. pose proof (Z.mod_pos_bound i 32 ltac:(lia)). pose proof (host_ok m Hm).
  pose proof (land_ok w (host_to_network m) Hw). rewrite !host_bit, Z.land_spec by (auto || lia).
  rewrite host_bit by (done || (apply place_range; lia)). by rewrite place_place by lia.
Qed.

Lemma bit_in_lor w m i : word_ok w -> word_ok m -> bit_in (Z.lor w (host_to_network m)) i = bit_in w i || Z.testbit m (31 - i mod 32).
Proof.
  intros Hw Hm. unfold bit_in, network_to_host. pose proof (Z.mod_pos_bound i 32 ltac:(lia)). pose proof (host_ok m Hm).
  pose proof (lor_ok w (host_to_network m) Hw). rewrite !host_bit, Z.lor_spec by (auto || lia).
  rewrite host_bit by (done || (apply place_range; lia)). by rewrite place_place by lia.
Qed.

Lemma all_ones i : 0 <= i -> Z.testbit 0xffffffff i = (i <? 32).
Proof.
  intros Hi. change 0xffffffff with (Z.ones 32). destruct (Z.ltb_spec i 32); [apply Z.ones_spec_low; lia|apply Z.ones_spec_high; lia].
Qed.

Lemma bit_in_ones i : bit_in 0xffffffff i = true.
Proof.
  unfold bit_in, network_to_host. pose proof (Z.mod_pos_bound i 32 ltac:(lia)). rewrite host_bit by (done || lia).
  pose proof (place_range (31 - i mod 32) ltac:(lia)). rewrite all_ones by lia. apply Z.ltb_lt. lia.
Qed.

Lemma bit_in_zero i : bit_in 0 i = false.
Proof.
  unfold bit_in, network_to_host. pose proof (Z.mod_pos_bound i 32 ltac:(lia)). rewrite host_bit by (done || lia). apply Z.testbit_0_l.
Qed.

(** A word is determined by its bits. *)
Lemma bit_in_ext v w : word_ok v -> word_ok w -> (forall i, 0 <= i < 32 -> bit_in v i = bit_in w i) -> v = w.
Proof.
  intros Hv Hw Hb. rewrite <- (host_host v), <- (host_host w) by done. f_equal. apply words_ext; [by apply host_ok..|].
  intros i Hi. specialize (Hb (31 - i) ltac:(lia)). unfold bit_in, network_to_host in Hb. rewrite Z.mod_small in Hb by lia.
  by replace (31 - (31 - i)) with i in Hb by lia.
Qed.
End Words.

(** ** A bitfield as a list of bits *)

Section Bits.
Context `{Endian}.

(** The bit of a buffer at an index; there is none behind the words. *)
Definition wbit (ws : list Z) (i : Z) : bool :=
  match ws !! Z.to_nat (i / 32) with Some w => bit_in w i | None => false end.

Definition bits_of (bf : bitfield) : list bool := map (fun i => wbit (words bf) (Z.of_nat i)) (seq 0 (Z.to_nat (bf_size bf))).

Definition max_bits : Z := 2 ^ 31 - 32.

(** The buffer of [n] bits: as many words as they need, and no bit set behind the last one. *)
Record buffer_ok (n : Z) (ws : list Z) : Prop := {
  bo_size : 0 < n <= max_bits;
  bo_length : Z.of_nat (length ws) = (n + 31) / 32;
  bo_words : Forall word_ok ws
}.

Definition trimmed (n : Z) (ws : list Z) : Prop := forall i, n <= i -> wbit ws i = false.

Definition bf_ok (bf : bitfield) : Prop :=
  m_buf bf = [] \/ exists n ws, m_buf bf = n :: ws /\ buffer_ok n ws /\ trimmed n ws.

Lemma bits_lookup bf i : bits_of bf !! i = if bool_decide (Z.of_nat i < bf_size bf) then Some (wbit (words bf) (Z.of_nat i)) else None.
Proof.
  unfold bits_of. rewrite list_lookup_fmap. case_bool_decide; [rewrite lookup_seq_lt by lia; done|]. by rewrite lookup_seq_ge by lia.
Qed.

Lemma length_bits bf : length (bits_of bf) = Z.to_nat (bf_size bf).
Proof. unfold bits_of. by rewrite length_map, length_seq. Qed.

Lemma size_cons n ws : 0 < n <= max_bits -> bf_size (mk_bitfield (n :: ws)) = n.
Proof. intros Hn. unfold bf_size, max_bits in *. cbn. rewrite i32_small; lia. Qed.

Lemma quot_32 n : 0 <= n -> Z.quot n 32 = n / 32.
Proof. intros. apply Z.quot_div_nonneg; lia. Qed.

Lemma words_cons n ws : 0 < n <= max_bits -> num_words (mk_bitfield (n :: ws)) = (n + 31) / 32.
Proof. intros Hn. unfold num_words. rewrite size_cons, quot_32 by (done || lia). done. Qed.

Lemma land_31 i : Z.land i 31 = i mod 32.
Proof. change 31 with (Z.ones 5). by rewrite Z.land_ones. Qed.

Lemma wbit_insert ws q w i : (q < length ws)%nat -> 0 <= i ->
  wbit (<[q := w]> ws) i = if bool_decide (i / 32 = Z.of_nat q) then bit_in w i else wbit ws i.
Proof.
  intros Hq Hi. unfold wbit. pose proof (Z.div_pos i 32 Hi ltac:(lia)). case_bool_decide as E.
  - rewrite E, Nat2Z.id. by rewrite list_lookup_insert_eq.
  - by rewrite list_lookup_insert_ne by lia.
Qed.

Lemma wbit_app ws1 ws2 i : 0 <= i ->
  wbit (ws1 ++ ws2) i = if i <? 32 * Z.of_nat (length ws1) then wbit ws1 i else wbit ws2 (i - 32 * Z.of_nat (length ws1)).
Proof.
  intros Hi. unfold wbit. destruct (Z.ltb_spec i (32 * Z.of_nat (length ws1))) as [Hlt|Hge].
  - rewrite lookup_app_l; [done|]. assert (i / 32 < Z.of_nat (length ws1)) by (apply Z.div_lt_upper_bound; lia). lia.
  - assert (Z.of_nat (length ws1) <= i / 32) by (apply Z.div_le_lower_bound; lia). rewrite lookup_app_r by lia.
    assert ((i - 32 * Z.of_nat (length ws1)) / 32 = i / 32 - Z.of_nat (length ws1)) as ->.
    { replace (i - 32 * Z.of_nat (length ws1)) with (i + - Z.of_nat (length ws1) * 32) by lia. rewrite Z.div_add by lia. lia. }
    rewrite Z2Nat.inj_sub, Nat2Z.id by lia. destruct (_ !! _) as [w|]; [|done]. unfold bit_in. do 2 f_equal.
    replace (i - 32 * Z.of_nat (length ws1)) with (i + - Z.of_nat (length ws1) * 32) by lia. by rewrite Z.mod_add by lia.
Qed.

Lemma wbit_above ws i : 32 * Z.of_nat (length ws) <= i -> wbit ws i = false.
Proof.
  intros Hi. unfold wbit. rewrite lookup_ge_None_2; [done|]. assert (Z.of_nat (length ws) <= i / 32) by (apply Z.div_le_lower_bound; lia). lia.
Qed.

Lemma wbit_take n ws i : 0 <= i -> wbit (take n ws) i = (i <? 32 * Z.of_nat n) && wbit ws i.
Proof.
  intros Hi. unfold wbit. pose proof (Z.div_pos i 32 Hi ltac:(lia)). destruct (Z.ltb_spec i (32 * Z.of_nat n)) as [Hlt|Hge].
  - assert (i / 32 < Z.of_nat n) by (apply Z.div_lt_upper_bound; lia). by rewrite lookup_take_lt by lia.
  - assert (Z.of_nat n <= i / 32) by (apply Z.div_le_lower_bound; lia). by rewrite lookup_take_ge by lia.
Qed.

Lemma wbit_replicate n w i : 0 <= i -> wbit (replicate n w) i = (i <? 32 * Z.of_nat n) && bit_in w i.
Proof.
  intros Hi. unfold wbit. pose proof (Z.div_pos i 32 Hi ltac:(lia)). destruct (Z.ltb_spec i (32 * Z.of_nat n)) as [Hlt|Hge].
  - assert (i / 32 < Z.of_nat n) by (apply Z.div_lt_upper_bound; lia). by rewrite lookup_replicate_2 by lia.
  - assert (Z.of_nat n <= i / 32) by (apply Z.div_le_lower_bound; lia).
    rewrite lookup_ge_None_2; [done|]. rewrite length_replicate. lia.
Qed.

(** *** Single words *)

Lemma edit_word_spec n ws q f : 0 <= q < Z.of_nat (length ws) ->
  exists w, ws !! Z.to_nat q = Some w /\
    edit_word q f (mk_bitfield (n :: ws)) = Ok (mk_bitfield (n :: <[Z.to_nat q := f w]> ws)).
Proof.
  intros Hq. destruct (lookup_lt_is_Some_2 ws (Z.to_nat q)) as [w Hw]; [lia|]. exists w. split; [done|].
  unfold edit_word, word_at. rewrite (proj2 (Z.ltb_ge _ _)) by lia. unfold words. cbn [m_buf tail]. by rewrite Hw.
Qed.

Lemma forall_insert (P : Z -> Prop) ws q w : Forall P ws -> P w -> Forall P (<[q := w]> ws).
Proof. intros Hws Hw. by apply Forall_insert. Qed.

Lemma index_word n ws i : buffer_ok n ws -> 0 <= i < n -> 0 <= i / 32 < Z.of_nat (length ws).
Proof.
  intros [Hn Hl _] Hi. rewrite Hl. split; [apply Z.div_pos; lia|]. apply Z.div_lt_upper_bound; [lia|].
  pose proof (Z.div_mod (n + 31) 32 ltac:(lia)). pose proof (Z.mod_pos_bound (n + 31) 32 ltac:(lia)). lia.
Qed.

(** [0x80000000 >> k] *)
Lemma high_bit k : 0 <= k < 32 -> Z.shiftr 0x80000000 k = 2 ^ (31 - k).
Proof. intros Hk. rewrite Z.shiftr_div_pow2 by lia. change 0x80000000 with (2 ^ 31). rewrite <- Z.pow_sub_r by lia. done. Qed.

Lemma pow2_word k : 0 <= k < 32 -> word_ok (2 ^ k).
Proof. intros Hk. split; [apply Z.pow_nonneg; lia|apply Z.pow_lt_mono_r; lia]. Qed.

Lemma pow2_bit k j : 0 <= k -> Z.testbit (2 ^ k) j = (j =? k).
Proof. intros Hk. rewrite Z.eqb_sym. by apply Z.pow2_bits_eqb. Qed.

Lemma get_bit_spec n ws i : buffer_ok n ws -> 0 <= i < n -> get_bit i (mk_bitfield (n :: ws)) = Ok (wbit ws i).
Proof.
  intros Hok Hi. pose proof (index_word n ws i Hok Hi) as Hq. destruct (lookup_lt_is_Some_2 ws (Z.to_nat (i / 32))) as [w Hw]; [lia|].
  unfold get_bit, word_at. rewrite quot_32, (proj2 (Z.ltb_ge _ _)) by lia. unfold words. cbn [m_buf tail]. unfold wbit. rewrite Hw. cbn [mbind result_bind].
  f_equal. rewrite land_31. pose proof (Z.mod_pos_bound i 32 ltac:(lia)) as Hr. rewrite high_bit by done.
  assert (word_ok w) as Hwok by (destruct Hok as [_ _ Hall]; rewrite Forall_forall in Hall; apply Hall; by eapply list_elem_of_lookup_2).
  set (m := 2 ^ (31 - i mod 32)). assert (word_ok m) as Hm by (apply pow2_word; lia).
  destruct (Z.eqb_spec (Z.land w (host_to_network m)) 0) as [E|E]; cbn [negb].
  - pose proof (bit_in_land w m i Hwok Hm) as Hb. rewrite E, bit_in_zero in Hb. unfold m in Hb. rewrite pow2_bit, Z.eqb_refl, andb_true_r in Hb by lia. done.
  - destruct (bit_in w i) eqn:Eb; [done|]. exfalso. apply E. apply bit_in_ext; [apply land_ok; [done|by apply host_ok]|done|].
    intros j Hj. rewrite bit_in_land, bit_in_zero by done. unfold m. rewrite pow2_bit by lia. destruct (Z.eqb_spec (31 - j mod 32) (31 - i mod 32)) as [E2|]; [|by rewrite andb_false_r].
    rewrite andb_true_r. unfold bit_in in *. by rewrite E2.
Qed.

(** What editing one bit makes of the buffer. *)
Lemma set_bit_spec n ws i (v : bool) : buffer_ok n ws -> trimmed n ws -> 0 <= i < n ->
  exists ws', (if v then set_bit i (mk_bitfield (n :: ws)) else clear_bit i (mk_bitfield (n :: ws))) = Ok (mk_bitfield (n :: ws')) /\
    buffer_ok n ws' /\ trimmed n ws' /\ forall j, 0 <= j -> wbit ws' j = if bool_decide (j = i) then v else wbit ws j.
Proof.
  intros Hok Htr Hi. pose proof (index_word n ws i Hok Hi) as Hq. pose proof (Z.mod_pos_bound i 32 ltac:(lia)) as Hr.
  set (m := 2 ^ (31 - i mod 32)). assert (word_ok m) as Hm by (apply pow2_word; lia).
  set (f := fun w => if v then Z.lor w (host_to_network m) else Z.land w (host_to_network (not32 m))).
  destruct (edit_word_spec n ws (i / 32) f Hq) as (w & Hw & E).
  assert (word_ok w) as Hwok by (destruct Hok as [_ _ Hall]; rewrite Forall_forall in Hall; apply Hall; by eapply list_elem_of_lookup_2).
  assert (word_ok (not32 m)) as Hnm.
  { apply word_ok_bits; [apply Z.lxor_nonneg; split; intros; [done|apply Hm]|]. intros j Hj. unfold not32. rewrite Z.lxor_spec, all_ones by lia.
    rewrite (proj2 (Z.ltb_ge _ _)) by lia. by apply word_ok_bits with (i := j) in Hm as ->; [|apply Hm|]. }
  assert (forall j, 0 <= j -> bit_in (f w) j = if bool_decide (j mod 32 = i mod 32) then v else bit_in w j) as Hf.
  { intros j Hj. pose proof (Z.mod_pos_bound j 32 ltac:(lia)) as Hjr. unfold f.
    destruct v; [rewrite bit_in_lor by done|rewrite bit_in_land by done; unfold not32; rewrite Z.lxor_spec, all_ones, (proj2 (Z.ltb_lt _ _)) by lia];
    unfold m; rewrite pow2_bit by lia; case_bool_decide as E2.
    - by rewrite E2, Z.eqb_refl, orb_true_r.
    - by rewrite (proj2 (Z.eqb_neq _ _)), orb_false_r by lia.
    - by rewrite E2, Z.eqb_refl, andb_false_r.
    - by rewrite (proj2 (Z.eqb_neq _ _)), andb_true_r by lia. }
  assert (forall j, 0 <= j -> wbit (<[Z.to_nat (i / 32) := f w]> ws) j = if bool_decide (j = i) then v else wbit ws j) as Hbits.
  { intros j Hj. rewrite wbit_insert by lia. rewrite Z2Nat.id by lia. case_bool_decide as E1.
    - rewrite Hf by done. pose proof (Z.div_mod i 32 ltac:(lia)). pose proof (Z.div_mod j 32 ltac:(lia)). repeat case_bool_decide; try done; try lia; try congruence.
      unfold wbit. by rewrite E1, Hw.
    - case_bool_decide; [by subst|done]. }
  exists (<[Z.to_nat (i / 32) := f w]> ws). split_and!.
  - unfold set_bit, clear_bit. rewrite quot_32, land_31, high_bit by lia. unfold f in E. by destruct v.
  - destruct Hok as [Hn Hl Hall]. split; [done|by rewrite length_insert|]. apply forall_insert; [done|]. unfold f. destruct v; [apply lor_ok|apply land_ok]; try done; by apply host_ok.
  - intros j Hj. rewrite Hbits by lia. rewrite bool_decide_false by lia. by apply Htr.
  - done.
Qed.

(** *** Trailing bits *)

Lemma ones_above_spec k : 0 < k < 32 -> exists m, ones_above k = Ok m /\ word_ok m /\ forall j, 0 <= j < 32 -> Z.testbit m j = (k <=? j).
Proof.
  intros Hk. unfold ones_above. rewrite (proj2 (Z.leb_gt _ _)) by lia. eexists. split; [done|].
  split; [apply Z.mod_pos_bound; lia|]. intros j Hj. unfold u32. rewrite <- Z.land_ones, Z.land_spec, Z.shiftl_spec by lia.
  rewrite Z.ones_spec_low, andb_true_r by lia. destruct (Z.leb_spec k j).
  - rewrite all_ones by lia. apply Z.ltb_lt. lia.
  - apply Z.testbit_neg_r. lia.
Qed.

Lemma clear_trailing_spec n ws : buffer_ok n ws ->
  exists ws', clear_trailing_bits (mk_bitfield (n :: ws)) = Ok (mk_bitfield (n :: ws')) /\ buffer_ok n ws' /\ trimmed n ws' /\
    forall i, 0 <= i < n -> wbit ws' i = wbit ws i.
Proof.
  intros Hok. pose proof Hok as [Hn Hl Hall]. unfold clear_trailing_bits. rewrite size_cons, land_31, words_cons by done.
  pose proof (Z.div_mod (n + 31) 32 ltac:(lia)) as Hd1. pose proof (Z.mod_pos_bound (n + 31) 32 ltac:(lia)).
  pose proof (Z.div_mod n 32 ltac:(lia)) as Hd2. pose proof (Z.mod_pos_bound n 32 ltac:(lia)).
  destruct (Z.eqb_spec (n mod 32) 0) as [E|E].
  - exists ws. split_and!; try done. intros i Hi. apply wbit_above. lia.
  - destruct (ones_above_spec (32 - n mod 32) ltac:(lia)) as (m & -> & Hm & Hbits). cbn [mbind result_bind].
    set (f := fun w => Z.land w (host_to_network m)). set (q := (n + 31) / 32 - 1).
    assert (0 <= q < Z.of_nat (length ws)) as Hq by lia.
    destruct (edit_word_spec n ws q f Hq) as (w & Hw & ->). exists (<[Z.to_nat q := f w]> ws).
    assert (word_ok w) as Hwok by (rewrite Forall_forall in Hall; apply Hall; by eapply list_elem_of_lookup_2).
    assert (forall i, 0 <= i -> wbit (<[Z.to_nat q := f w]> ws) i = wbit ws i && ((i <? n) || negb (i / 32 =? q))) as Hb.
    { intros i Hi. rewrite wbit_insert by lia. rewrite Z2Nat.id by lia. pose proof (Z.mod_pos_bound i 32 ltac:(lia)). pose proof (Z.div_mod i 32 ltac:(lia)).
      case_bool_decide as E1.
      - unfold f. rewrite bit_in_land, Hbits by (done || lia). unfold wbit. rewrite E1, Hw, Z.eqb_refl. cbn [negb]. rewrite orb_false_r. f_equal.
        apply eq_iff_eq_true. rewrite Z.leb_le, Z.ltb_lt. lia.
      - rewrite (proj2 (Z.eqb_neq _ _)) by done. cbn [negb]. by rewrite orb_true_r, andb_true_r. }
    split_and!; [done| | |].
    + split; [done|by rewrite length_insert|]. apply forall_insert; [done|]. apply land_ok; [done|by apply host_ok].
    + intros i Hi. rewrite Hb by lia. rewrite (proj2 (Z.ltb_ge _ _)) by lia. destruct (Z.eqb_spec (i / 32) q); [by rewrite andb_false_r|].
      cbn. rewrite andb_true_r. apply wbit_above. assert (q < i / 32); [|pose proof (Z.div_mod i 32 ltac:(lia)); pose proof (Z.mod_pos_bound i 32 ltac:(lia)); lia].
      assert (n / 32 <= i / 32) by (apply Z.div_le_mono; lia). lia.
    + intros i Hi. rewrite Hb by lia. by rewrite (proj2 (Z.ltb_lt _ _)), orb_true_l, andb_true_r by lia.
Qed.

Lemma trimmed_ok n ws : buffer_ok n ws -> trimmed n ws -> bf_ok (mk_bitfield (n :: ws)).
Proof. intros. right. by exists n, ws. Qed.

(** *** Resizing *)

(** The size and the bits of a well-formed bitfield, whether it has a buffer or none. *)
Lemma bf_cases bf : bf_ok bf ->
  (bf = mk_bitfield [] /\ bf_size bf = 0 /\ num_words bf = 0 /\ words bf = []) \/
  exists n ws, bf = mk_bitfield (n :: ws) /\ buffer_ok n ws /\ trimmed n ws /\ bf_size bf = n /\ num_words bf = (n + 31) / 32 /\ words bf = ws.
Proof.
  destruct bf as [b]. intros [E|(n & ws & E & Hok & Htr)]; cbn in E; subst b; [by left|right].
  exists n, ws. rewrite size_cons, words_cons by apply Hok. done.
Qed.

Lemma size_bounds bf : bf_ok bf -> 0 <= bf_size bf <= max_bits /\ num_words bf = (bf_size bf + 31) / 32 /\
  Z.of_nat (length (words bf)) = num_words bf /\ Forall word_ok (words bf) /\ trimmed (bf_size bf) (words bf).
Proof.
  intros [(-> & -> & -> & ->)|(n & ws & -> & Hok & Htr & -> & -> & ->)]%bf_cases.
  - split_and!; try done.
  - destruct Hok as [Hn Hl Hall]. split_and!; try done; lia.
Qed.

Lemma resize_spec bf n : bf_ok bf -> 0 <= n <= max_bits ->
  exists bf', bf_resize n bf = Ok bf' /\ bf_ok bf' /\ bf_size bf' = n /\ forall i, 0 <= i < n -> wbit (words bf') i = wbit (words bf) i.
Proof.
  intros Hok Hn. destruct (size_bounds bf Hok) as (Hs & Hnw & Hlen & Hall & Htr). unfold bf_resize.
  destruct (Z.eqb_spec n (bf_size bf)) as [->|Hne]; [by exists bf|]. rewrite (proj2 (Z.ltb_ge _ _)) by lia.
  destruct (Z.eqb_spec n 0) as [->|Hn0]; [exists (mk_bitfield []); split_and!; try done; [by left|lia]|].
  unfold max_bits in *. rewrite (proj2 (Z.leb_gt _ _)) by lia. rewrite quot_32 by lia.
  set (new := (n + 31) / 32). pose proof (Z.div_mod (n + 31) 32 ltac:(lia)) as Hd. pose proof (Z.mod_pos_bound (n + 31) 32 ltac:(lia)). fold new in Hd.
  match goal with |- context [mk_bitfield (n :: ?x)] => set (ws := x) end.
  assert (buffer_ok n ws /\ forall i, 0 <= i < n -> wbit ws i = wbit (words bf) i) as [Hws Hbits].
  { unfold ws. destruct (Z.eqb_spec (num_words bf) new) as [E|E]; cbn [negb].
    - split; [|done]. split; [unfold max_bits; lia|lia|done].
    - split; [split; [unfold max_bits; lia| |]|].
      + rewrite length_app, length_take, length_replicate. lia.
      + apply Forall_app; split; [by apply Forall_take|]. by apply Forall_replicate.
      + intros i Hi. rewrite wbit_app, length_take by lia.
        destruct (Z.ltb_spec i (32 * Z.of_nat (Nat.min (Z.to_nat (Z.min new (num_words bf))) (length (words bf))))) as [Hin|Hout].
        * rewrite wbit_take by lia. by rewrite (proj2 (Z.ltb_lt _ _)) by lia.
        * rewrite wbit_replicate, bit_in_zero, andb_false_r by lia. symmetry. apply wbit_above. lia. }
  destruct (clear_trailing_spec n ws Hws) as (ws' & -> & Hok' & Htr' & Hb'). exists (mk_bitfield (n :: ws')). split; [done|].
  split; [by apply trimmed_ok|]. rewrite size_cons by apply Hok'. split; [done|]. intros i Hi. unfold words at 1. cbn [m_buf tail]. by rewrite Hb', Hbits.
Qed.

Lemma fill_words_spec n ws a w : buffer_ok n ws -> 0 <= a <= Z.of_nat (length ws) -> word_ok w ->
  exists ws', fill_words a (Z.of_nat (length ws)) w (mk_bitfield (n :: ws)) = mk_bitfield (n :: ws') /\ buffer_ok n ws' /\
    forall i, 0 <= i < 32 * Z.of_nat (length ws) -> wbit ws' i = if i <? 32 * a then wbit ws i else bit_in w i.
Proof.
  intros [Hn Hl Hall] Ha Hw. unfold fill_words, set_words, words. cbn [m_buf tail]. eexists. split; [done|].
  rewrite drop_ge, app_nil_r by lia. split.
  - split; [done| |].
    + rewrite length_app, length_take, length_replicate. lia.
    + apply Forall_app; split; [by apply Forall_take|by apply Forall_replicate].
  - intros i Hi. rewrite wbit_app, length_take, Nat.min_l by lia. rewrite Z2Nat.id by lia. destruct (Z.ltb_spec i (32 * a)).
    + rewrite wbit_take by lia. by rewrite (proj2 (Z.ltb_lt _ _)) by lia.
    + rewrite wbit_replicate by lia. rewrite (proj2 (Z.ltb_lt _ _)) by lia. cbn [andb]. unfold bit_in. do 2 f_equal.
      replace (i - 32 * a) with (i + - a * 32) by lia. by rewrite Z.mod_add by lia.
Qed.

(** The mask [0xffffffff >> b] *)
Lemma ones_below b j : 0 <= b < 32 -> 0 <= j < 32 -> Z.testbit (Z.shiftr 0xffffffff b) j = (j <? 32 - b).
Proof. intros Hb Hj. rewrite Z.shiftr_spec, all_ones by lia. apply eq_iff_eq_true. rewrite !Z.ltb_lt. lia. Qed.

Lemma resize_val_spec bf n v : bf_ok bf -> 0 <= n <= max_bits ->
  exists bf', bf_resize_val n v bf = Ok bf' /\ bf_ok bf' /\ bf_size bf' = n /\
    forall i, 0 <= i < n -> wbit (words bf') i = if i <? bf_size bf then wbit (words bf) i else v.
Proof.
  intros Hok Hn. destruct (size_bounds bf Hok) as (Hs & Hnw & Hlen & Hall & Htr). unfold bf_resize_val.
  destruct (Z.eqb_spec n (bf_size bf)) as [->|Hne].
  { exists bf. split_and!; try done. intros i Hi. by rewrite (proj2 (Z.ltb_lt _ _)) by lia. }
  destruct (resize_spec bf n Hok Hn) as (bf1 & -> & Hok1 & Hs1 & Hb1). cbn [mbind result_bind]. rewrite Hs1.
  destruct (Z.leb_spec n (bf_size bf)) as [Hle|Hgt].
  { exists bf1. split_and!; try done. intros i Hi. rewrite Hb1 by done. by rewrite (proj2 (Z.ltb_lt _ _)) by lia. }
  destruct (bf_cases bf1 Hok1) as [(-> & E & _)|(n' & ws & -> & Hbo & Htr1 & E & Hnw1 & Hw1)]; [lia|].
  rewrite E in Hs1. subst n'. rewrite Hw1 in Hb1. rewrite Hnw1. set (s := bf_size bf) in *. rewrite quot_32, land_31 by lia.
  pose proof Hbo as [Hbn Hbl Hball]. pose proof (Z.div_mod (n + 31) 32 ltac:(lia)) as Hd. pose proof (Z.mod_pos_bound (n + 31) 32 ltac:(lia)).
  pose proof (Z.div_mod (s + 31) 32 ltac:(lia)) as Hd2. pose proof (Z.mod_pos_bound (s + 31) 32 ltac:(lia)).
  pose proof (Z.div_mod s 32 ltac:(lia)) as Hd3. pose proof (Z.mod_pos_bound s 32 ltac:(lia)).
  set (old := (s + 31) / 32) in *. set (new := (n + 31) / 32) in *. assert (old <= new) by (unfold old, new; apply Z.div_le_mono; lia).
  assert (forall i, s <= i < n -> wbit ws i = false) as Hnone by (intros i Hi; rewrite Hb1 by lia; apply Htr; lia).
  destruct v.
  - assert (exists ws1, (if negb (old =? 0) && negb (s mod 32 =? 0) then
        edit_word (old - 1) (fun w => Z.lor w (host_to_network (Z.shiftr 0xffffffff (s mod 32)))) (mk_bitfield (n :: ws)) else Ok (mk_bitfield (n :: ws))) =
        Ok (mk_bitfield (n :: ws1)) /\ buffer_ok n ws1 /\ forall i, 0 <= i < 32 * old -> wbit ws1 i = if i <? s then wbit ws i else true) as (ws1 & -> & Hbo1 & Hw).
    { destruct (Z.eqb_spec (s mod 32) 0) as [E0|E0]; cbn [negb].
      - rewrite andb_false_r. exists ws. split_and!; try done. intros i Hi. by rewrite (proj2 (Z.ltb_lt _ _)) by lia.
      - rewrite (proj2 (Z.eqb_neq old 0)) by lia. cbn [negb andb].
        set (f := fun w => Z.lor w (host_to_network (Z.shiftr 0xffffffff (s mod 32)))).
        destruct (edit_word_spec n ws (old - 1) f ltac:(lia)) as (w & Hww & ->).
        assert (word_ok w) as Hwok by (rewrite Forall_forall in Hball; apply Hball; by eapply list_elem_of_lookup_2).
        assert (word_ok (Z.shiftr 0xffffffff (s mod 32))) as Hmask.
        { apply word_ok_bits; [apply Z.shiftr_nonneg; lia|]. intros i Hi. rewrite Z.shiftr_spec, all_ones by lia. apply Z.ltb_ge. lia. }
        eexists. split; [done|]. split.
        + split; [done|by rewrite length_insert|]. apply forall_insert; [done|]. apply lor_ok; [done|by apply host_ok].
        + intros i Hi. pose proof (Z.div_mod i 32 ltac:(lia)). pose proof (Z.mod_pos_bound i 32 ltac:(lia)).
          rewrite wbit_insert by lia. rewrite Z2Nat.id by lia. case_bool_decide as E1.
          * unfold f. rewrite bit_in_lor, ones_below by (done || lia). unfold wbit. rewrite E1, Hww. destruct (Z.ltb_spec i s).
            -- by rewrite (proj2 (Z.ltb_ge _ _)), orb_false_r by lia.
            -- by rewrite (proj2 (Z.ltb_lt (31 - i mod 32) _)), orb_true_r by lia.
          * rewrite (proj2 (Z.ltb_lt i s)) by lia. done. }
    cbn [mbind result_bind].
    assert (exists ws2, (if old <? new then fill_words old new 0xffffffff (mk_bitfield (n :: ws1)) else mk_bitfield (n :: ws1)) = mk_bitfield (n :: ws2) /\
      buffer_ok n ws2 /\ forall i, 0 <= i < n -> wbit ws2 i = if i <? s then wbit ws i else true) as (ws2 & -> & Hbo2 & Hw2).
    { pose proof Hbo1 as [_ Hl1 _]. fold new in Hl1. destruct (Z.ltb_spec old new).
      - destruct (fill_words_spec n ws1 old 0xffffffff Hbo1 ltac:(lia) ltac:(done)) as (ws2 & E2 & Hbo2 & Hw2). rewrite Hl1 in *. exists ws2.
        split_and!; try done. intros i Hi. rewrite Hw2, bit_in_ones by lia. destruct (Z.ltb_spec i (32 * old)); [apply Hw; lia|].
        by rewrite (proj2 (Z.ltb_ge _ _)) by lia.
      - exists ws1. split_and!; try done. intros i Hi. apply Hw. lia. }
    destruct (clear_trailing_spec n ws2 Hbo2) as (ws3 & -> & Hbo3 & Htr3 & Hw3). exists (mk_bitfield (n :: ws3)). split; [done|].
    split; [by apply trimmed_ok|]. rewrite size_cons by done. split; [done|]. intros i Hi. unfold words at 1. cbn [m_buf tail]. rewrite Hw3, Hw2 by done.
    destruct (Z.ltb_spec i s); [apply Hb1; lia|done].
  - assert (exists ws2, (if old <? new then fill_words old new 0 (mk_bitfield (n :: ws)) else mk_bitfield (n :: ws)) = mk_bitfield (n :: ws2) /\
      buffer_ok n ws2 /\ trimmed n ws2 /\ forall i, 0 <= i < n -> wbit ws2 i = wbit ws i) as (ws2 & -> & Hbo2 & Htr2 & Hw2).
    { fold new in Hbl. destruct (Z.ltb_spec old new); [|by exists ws].
      destruct (fill_words_spec n ws old 0 Hbo ltac:(lia) ltac:(done)) as (ws2 & E2 & Hbo2 & Hw2). rewrite Hbl in *. exists ws2. split_and!; try done.
      - intros i Hi. destruct (Z.lt_ge_cases i (32 * new)); [|apply wbit_above; destruct Hbo2 as [_ -> _]; fold new; lia].
        rewrite Hw2, bit_in_zero by lia. destruct (Z.ltb_spec i (32 * old)); [by apply Htr1|done].
      - intros i Hi. rewrite Hw2, bit_in_zero by lia. destruct (Z.ltb_spec i (32 * old)); [done|]. symmetry. apply Hnone. lia. }
    exists (mk_bitfield (n :: ws2)). split; [done|]. split; [by apply trimmed_ok|]. rewrite size_cons by done. split; [done|].
    intros i Hi. unfold words at 1. cbn [m_buf tail]. rewrite Hw2 by done. destruct (Z.ltb_spec i s); [apply Hb1; lia|apply Hnone; lia].
Qed.
End Bits.

(** ** Counting the bits of a word

    The fields of a word, [w] bits each, the lowest first. *)
Definition pack (w : Z) (l : list Z) : Z := foldr (fun x acc => x + 2 ^ w * acc) 0 l.

Definition fields_ok (b : Z) (l : list Z) : Prop := Forall (fun x => 0 <= x <= b) l.

Definition sum (l : list Z) : Z := foldr Z.add 0 l.

(** The fields two by two: the lower ones, the higher ones, and what they add up to. *)
Fixpoint evens (l : list Z) : list Z := match l with x :: _ :: l' => x :: evens l' | _ => [] end.
Fixpoint odds (l : list Z) : list Z := match l with _ :: y :: l' => y :: odds l' | _ => [] end.
Fixpoint sums (l : list Z) : list Z := match l with x :: y :: l' => x + y :: sums l' | _ => [] end.
Fixpoint paired (l : list Z) : Prop := match l with [] => True | [_] => False | _ :: _ :: l' => paired l' end.

(** The mask that keeps every other field. *)
Definition field_mask (w : Z) (l : list Z) : Z := pack (2 * w) (map (fun _ => 2 ^ w - 1) (evens l)).

Lemma pairs_ind (P : list Z -> Prop) : P [] -> (forall x y l, P l -> P (x :: y :: l)) -> forall l, paired l -> P l.
Proof. intros H0 H2. fix IH 1. intros [|x [|y l]] Hl; [done|done|]. apply H2, IH, Hl. Qed.

Lemma land_low k a b c d : 0 <= k -> 0 <= a < 2 ^ k -> 0 <= c < 2 ^ k -> 0 <= b -> 0 <= d ->
  Z.land (a + 2 ^ k * b) (c + 2 ^ k * d) = Z.land a c + 2 ^ k * Z.land b d.
Proof.
  intros Hk Ha Hc Hb Hd. pose proof (Z.pow_pos_nonneg 2 k ltac:(lia) Hk).
  assert (forall x y, 0 <= x < 2 ^ k -> (x + 2 ^ k * y) mod 2 ^ k = x) as Hm by (intros x y Hx; rewrite (Z.mul_comm (2 ^ k)), Z.mod_add by lia; by apply Z.mod_small).
  assert (forall x y, 0 <= x < 2 ^ k -> (x + 2 ^ k * y) / 2 ^ k = y) as Hq by (intros x y Hx; rewrite (Z.mul_comm (2 ^ k)), Z.div_add by lia; rewrite Z.div_small by done; lia).
  rewrite (Z.div_mod (Z.land (a + 2 ^ k * b) (c + 2 ^ k * d)) (2 ^ k)) by lia.
  rewrite <- Z.shiftr_div_pow2, Z.shiftr_land, !Z.shiftr_div_pow2, !Hq by done.
  rewrite <- Z.land_ones, <- (Z.land_diag (Z.ones k)) by done.
  replace (Z.land (Z.land (a + 2 ^ k * b) (c + 2 ^ k * d)) (Z.land (Z.ones k) (Z.ones k)))
    with (Z.land (Z.land (a + 2 ^ k * b) (Z.ones k)) (Z.land (c + 2 ^ k * d) (Z.ones k)))
    by (rewrite !Z.land_assoc; f_equal; rewrite <- !Z.land_assoc; f_equal; apply Z.land_comm).
  rewrite !Z.land_ones, !Hm by done. lia.
Qed.

Lemma pack_nonneg w l : 0 <= w -> Forall (fun x => 0 <= x) l -> 0 <= pack w l.
Proof.
  intros Hw. pose proof (Z.pow_pos_nonneg 2 w ltac:(lia) Hw). induction 1 as [|x l Hx _ IH]; cbn [pack foldr]; [lia|]. fold (pack w l). nia.
Qed.

Lemma pack_range w b l : 0 <= w -> b < 2 ^ w -> fields_ok b l -> 0 <= pack w l < 2 ^ (w * Z.of_nat (length l)).
Proof.
  intros Hw Hb. pose proof (Z.pow_pos_nonneg 2 w ltac:(lia) Hw). induction 1 as [|x l Hx _ IH]; cbn [pack foldr length]; [rewrite Z.mul_0_r; lia|].
  fold (pack w l). rewrite Nat2Z.inj_succ, Z.mul_succ_r, Z.pow_add_r by lia. nia.
Qed.

Lemma pack_cons w x l : pack w (x :: l) = x + 2 ^ w * pack w l.
Proof. done. Qed.

Lemma pow_double w : 0 <= w -> 2 ^ (2 * w) = 2 ^ w * 2 ^ w.
Proof. intros Hw. rewrite <- Z.pow_add_r by lia. f_equal. lia. Qed.

Lemma land_field w x : 0 <= w -> 0 <= x < 2 ^ w -> Z.land x (2 ^ w - 1) = x.
Proof. intros Hw Hx. replace (2 ^ w - 1) with (Z.ones w) by (rewrite Z.ones_equiv; lia). rewrite Z.land_ones by lia. by apply Z.mod_small. Qed.

Lemma field_mask_nonneg w l : 0 <= w -> 0 <= field_mask w l.
Proof.
  intros Hw. pose proof (Z.pow_pos_nonneg 2 w ltac:(lia) Hw). apply pack_nonneg; [lia|]. apply Forall_map, Forall_forall. intros x _. lia.
Qed.

(** Masking keeps the lower field of each pair, and after a shift the higher one. *)
Lemma mask_fields w b l : 0 < w -> b < 2 ^ w -> paired l -> fields_ok b l ->
  Z.land (pack w l) (field_mask w l) = pack (2 * w) (evens l) /\
  Z.land (Z.shiftr (pack w l) w) (field_mask w l) = pack (2 * w) (odds l).
Proof.
  intros Hw Hb Hpair. pose proof (Z.pow_pos_nonneg 2 w ltac:(lia) ltac:(lia)) as Hp. pose proof (pow_double w ltac:(lia)) as Hp2.
  revert l Hpair. refine (pairs_ind _ _ _); [unfold field_mask; cbn; by rewrite Z.shiftr_0_l|]. intros x y l IH Hl.
  apply Forall_cons in Hl as [Hx Hl]. apply Forall_cons in Hl as [Hy Hl]. destruct (IH Hl) as [IH1 IH2].
  pose proof (pack_range w b l ltac:(lia) Hb Hl) as [Hr _]. pose proof (field_mask_nonneg w l ltac:(lia)) as Hm0.
  change (field_mask w (x :: y :: l)) with ((2 ^ w - 1) + 2 ^ (2 * w) * field_mask w l). cbn [evens odds]. rewrite !pack_cons. split.
  - replace (x + 2 ^ w * (y + 2 ^ w * pack w l)) with ((x + 2 ^ w * y) + 2 ^ (2 * w) * pack w l) by (rewrite Hp2; lia).
    rewrite land_low by (lia || nia). rewrite IH1. f_equal.
    replace (2 ^ w - 1) with ((2 ^ w - 1) + 2 ^ w * 0) at 1 by lia. rewrite land_low, Z.land_0_r, land_field by lia. lia.
  - rewrite Z.shiftr_div_pow2 by lia. replace (x + 2 ^ w * (y + 2 ^ w * pack w l)) with (x + (y + 2 ^ w * pack w l) * 2 ^ w) by lia.
    rewrite Z.div_add, Z.div_small, Z.add_0_l by lia. rewrite Z.shiftr_div_pow2 in IH2 by lia.
    pose proof (Z.div_mod (pack w l) (2 ^ w) ltac:(lia)) as Hd. pose proof (Z.mod_pos_bound (pack w l) (2 ^ w) Hp) as Hmod.
    set (q := pack w l / 2 ^ w) in *. set (r := pack w l mod 2 ^ w) in *. assert (0 <= q) by (apply Z.div_pos; lia).
    rewrite Hd. replace (y + 2 ^ w * (2 ^ w * q + r)) with ((y + 2 ^ w * r) + 2 ^ (2 * w) * q) by (rewrite Hp2; lia).
    rewrite land_low by (lia || nia). rewrite IH2. f_equal.
    replace (2 ^ w - 1) with ((2 ^ w - 1) + 2 ^ w * 0) at 1 by lia. rewrite land_low, Z.land_0_r, land_field by lia. lia.
Qed.

Lemma pack_sums w l : paired l -> pack w (sums l) = pack w (evens l) + pack w (odds l).
Proof. revert l. refine (pairs_ind _ _ _); [done|]. intros x y l IH. cbn [sums evens odds]. rewrite !pack_cons, IH. lia. Qed.

Lemma pack_pairs w l : 0 <= w -> paired l -> pack w l = pack (2 * w) (evens l) + 2 ^ w * pack (2 * w) (odds l).
Proof.
  intros Hw. revert l. refine (pairs_ind _ _ _); [cbn; lia|]. intros x y l IH. cbn [evens odds]. rewrite !pack_cons, IH, pow_double by done. lia.
Qed.

Lemma sums_ok b l : paired l -> fields_ok b l -> fields_ok (2 * b) (sums l) /\ sum (sums l) = sum l.
Proof.
  intros Hl. revert l Hl. refine (pairs_ind _ _ _); [intros _; split; [constructor|done]|]. intros x y l IH [Hx [Hy Hl]%Forall_cons]%Forall_cons. destruct (IH Hl) as [IH1 IH2].
  cbn [sums sum foldr]. fold (sum (sums l)) (sum l). split; [|lia]. apply Forall_cons. split; [lia|done].
Qed.

(** A field added to the one above it, where the field holds the sum. *)
Lemma add_fields w b l : 0 < w -> 2 * b < 2 ^ w -> paired l -> fields_ok b l ->
  Z.land (Z.shiftr (pack w l) w + pack w l) (field_mask w l) = pack (2 * w) (sums l) /\
  0 <= Z.shiftr (pack w l) w + pack w l < 2 ^ (w * Z.of_nat (length l)).
Proof.
  intros Hw Hb Hpair. pose proof (Z.pow_pos_nonneg 2 w ltac:(lia) ltac:(lia)) as Hp.
  set (above := fun l => tail l ++ [0] : list Z).
  assert (forall l, fields_ok b l -> Z.shiftr (pack w l) w = pack w (tail l)) as Hsh.
  { intros [|x m]; [intros _; apply Z.shiftr_0_l|]. intros [Hx _]%Forall_cons. rewrite pack_cons, Z.shiftr_div_pow2 by lia. cbn [tail].
    rewrite (Z.mul_comm (2 ^ w)), Z.div_add, Z.div_small by lia. lia. }
  assert (forall l, paired l -> fields_ok b l -> exists m, pack w (tail l) + pack w l = pack w m /\ paired m /\ fields_ok (2 * b) m /\
    evens m = sums l /\ field_mask w m = field_mask w l /\ length m = length l) as Hadd.
  { clear l Hpair. refine (pairs_ind _ _ _); [intros _; exists []; split_and!; done || by constructor|]. intros x y l IH [Hx [Hy Hl]%Forall_cons]%Forall_cons.
    destruct (IH Hl) as (m & Hm & Hpm & Hfm & Hem & Hkm & Hlm). cbn [tail].
    exists ((x + y) :: (match l with [] => y | z :: _ => y + z end) :: m). split_and!; [| |..|cbn; by rewrite Hlm].
    - rewrite !pack_cons. destruct l as [|z l]; [destruct m; [cbn; lia|done]|]. cbn [tail] in Hm. rewrite <- Hm, !pack_cons. lia.
    - done.
    - apply Forall_cons; split; [lia|]. apply Forall_cons; split; [|done]. destruct l as [|z l]; [lia|]. apply Forall_cons in Hl as [Hz _]. lia.
    - cbn [evens sums]. by rewrite Hem.
    - unfold field_mask in *. cbn [evens map]. by rewrite !pack_cons, Hkm. }
  intros Hl. destruct (Hadd l Hpair Hl) as (m & Hm & Hpm & Hfm & Hem & Hkm & Hlm). rewrite Hsh, Hm, <- Hkm, <- Hem, <- Hlm by done.
  split; [by apply (mask_fields w (2 * b))|by apply (pack_range w (2 * b)); [lia|..]].
Qed.

(** The bits of a number, the lowest first. *)
Fixpoint low_bits (n : nat) (v : Z) : list Z := match n with O => [] | S n' => Z.b2z (Z.odd v) :: low_bits n' (Z.div2 v) end.

Lemma low_bits_pack n v : pack 1 (low_bits n v) = v mod 2 ^ Z.of_nat n.
Proof.
  revert v. induction n as [|n IH]; intros v; cbn [low_bits]; [by rewrite Z.mod_1_r|].
  rewrite pack_cons, IH, Z.div2_div, Nat2Z.inj_succ, Z.pow_succ_r by lia. rewrite Z.rem_mul_r by lia.
  change (2 ^ 1) with 2. f_equal. by rewrite Zmod_odd; destruct (Z.odd v).
Qed.

Lemma low_bits_map n v : low_bits n v = map (fun i => Z.b2z (Z.testbit v (Z.of_nat i))) (seq 0 n).
Proof.
  revert v. induction n as [|n IH]; intros v; [done|]. cbn [low_bits]. rewrite IH. cbn [seq map]. f_equal.
  rewrite <- seq_shift, map_map. apply map_ext. intros i. rewrite Z.div2_spec, Z.shiftr_spec by lia. do 2 f_equal. lia.
Qed.

Lemma low_bits_ok n v : fields_ok 1 (low_bits n v).
Proof. revert v. induction n as [|n IH]; intros v; [constructor|]. apply Forall_cons. split; [destruct (Z.odd v); cbn; lia|apply IH]. Qed.

Lemma paired_length l k : (length l = 2 * k)%nat -> paired l.
Proof. revert l. induction k as [|k IH]; intros [|x [|y l]] Hl; cbn in *; try done; try lia. apply IH. lia. Qed.

Lemma length_sums l k : (length l = 2 * k)%nat -> length (sums l) = k.
Proof. revert l. induction k as [|k IH]; intros [|x [|y l]] Hl; cbn in *; try done; try lia. f_equal. apply IH. lia. Qed.

Lemma mask_length w l k : (length l = 2 * k)%nat -> field_mask w l = pack (2 * w) (replicate k (2 ^ w - 1)).
Proof. revert l. unfold field_mask. induction k as [|k IH]; intros [|x [|y l]] Hl; cbn in *; try done; try lia. f_equal. f_equal. apply IH. lia. Qed.

Lemma u32_fields w b l : 0 < w -> b < 2 ^ w -> w * Z.of_nat (length l) = 32 -> fields_ok b l -> u32 (pack w l) = pack w l.
Proof. intros Hw Hb Hl Hf. pose proof (pack_range w b l ltac:(lia) Hb Hf) as Hr. rewrite Hl in Hr. by apply Z.mod_small. Qed.

(** One step of the sum: the fields are added in pairs. *)
Lemma count_step w b k l : 0 < w -> 2 * b < 2 ^ w -> w * (2 * Z.of_nat k) = 32 -> length l = (2 * k)%nat -> fields_ok b l ->
  Z.land (u32 (Z.shiftr (pack w l) w + pack w l)) (pack (2 * w) (replicate k (2 ^ w - 1))) = pack (2 * w) (sums l) /\
  length (sums l) = k /\ fields_ok (2 * b) (sums l) /\ sum (sums l) = sum l.
Proof.
  intros Hw Hb Hk Hl Hf. pose proof (paired_length l k Hl) as Hp. destruct (sums_ok b l Hp Hf) as [Hf' Hs].
  destruct (add_fields w b l Hw Hb Hp Hf) as [E Hr]. rewrite (mask_length w l k Hl) in E.
  split_and!; [|by apply length_sums|done|done]. replace (w * Z.of_nat (length l)) with 32 in Hr by lia. unfold u32. by rewrite Z.mod_small.
Qed.

(** The bits of a word are counted exactly: [count_word] adds the fields of one bit, then of two,
    of four, of eight and of sixteen. *)
Lemma count_word_sum v : word_ok v -> count_word v = sum (low_bits 32 v).
Proof.
  intros Hv. unfold count_word. set (l1 := low_bits 32 v). assert (v = pack 1 l1) as Ev by (unfold l1; rewrite low_bits_pack; symmetry; by apply Z.mod_small).
  assert (length l1 = 2 * 16)%nat as Hl1 by done. assert (fields_ok 1 l1) as Hf1 by apply low_bits_ok. clearbody l1. rewrite Ev. clear v Hv Ev.
  pose proof (paired_length l1 16 Hl1) as Hp1. destruct (sums_ok 1 l1 Hp1 Hf1) as [Hf2 <-]. pose proof (length_sums l1 16 Hl1) as Hl2.
  destruct (mask_fields 1 1 l1 ltac:(lia) ltac:(lia) Hp1 Hf1) as [_ E1]. rewrite (mask_length 1 l1 16 Hl1) in E1. change (pack _ (replicate _ _)) with 0x55555555 in E1.
  rewrite E1. replace (pack 1 l1 - pack (2 * 1) (odds l1)) with (pack 2 (sums l1)) by (rewrite (pack_pairs 1 l1), pack_sums by (done || lia); change (2 * 1) with 2; lia).
  rewrite (u32_fields 2 2) by (done || (rewrite Hl2; done)). clear E1. set (l2 := sums l1) in *. clearbody l2. clear l1 Hl1 Hf1 Hp1.
  pose proof (paired_length l2 8 Hl2) as Hp2. destruct (sums_ok 2 l2 Hp2 Hf2) as [Hf3 <-]. pose proof (length_sums l2 8 Hl2) as Hl3.
  destruct (mask_fields 2 2 l2 ltac:(lia) ltac:(lia) Hp2 Hf2) as [E1 E2]. rewrite (mask_length 2 l2 8 Hl2) in E1, E2. change (pack _ (replicate _ _)) with 0x33333333 in E1, E2.
  rewrite E1, E2, (Z.add_comm (pack _ (odds l2))), <- pack_sums by done. change (2 * 2) with 4. rewrite (u32_fields 4 4) by (done || (rewrite Hl3; done)).
  clear E1 E2. set (l3 := sums l2) in *. clearbody l3. clear l2 Hl2 Hf2 Hp2.
  destruct (count_step 4 4 4 l3 ltac:(lia) ltac:(lia) ltac:(lia) Hl3 Hf3) as (E3 & Hl4 & Hf4 & <-). change (pack _ (replicate _ _)) with 0x0F0F0F0F in E3. rewrite E3. clear E3.
  destruct (count_step 8 8 2 (sums l3) ltac:(lia) ltac:(lia) ltac:(lia) Hl4 Hf4) as (E4 & Hl5 & Hf5 & <-). change (pack _ (replicate _ _)) with 0x00FF00FF in E4. 
  change (2 * 4) with 8. rewrite E4. clear E4.
  destruct (count_step 16 16 1 (sums (sums l3)) ltac:(lia) ltac:(lia) ltac:(lia) Hl5 Hf5) as (E5 & Hl6 & _ & <-). change (pack _ (replicate _ _)) with 0x0000FFFF in E5.
  change (2 * 8) with 16. rewrite E5. destruct (sums (sums (sums l3))) as [|x [|y l]]; [done| |done]. cbn. lia.
Qed.

(** ** The highest bit of a word *)

(** The bits of a number and those up to [n - 1] places below them. *)
Definition smeared (n v x : Z) : Prop := 0 <= x /\ forall i, 0 <= i -> Z.testbit x i = true <-> exists j, i <= j < i + n /\ Z.testbit v j = true.

Lemma smear_step n v x : 0 < n -> smeared n v x -> smeared (2 * n) v (Z.lor x (Z.shiftr x n)).
Proof.
  intros Hn [Hx Hb]. split; [apply Z.lor_nonneg; split; [done|by apply Z.shiftr_nonneg]|]. intros i Hi.
  rewrite Z.lor_spec, Z.shiftr_spec, orb_true_iff, !Hb by lia. split.
  - intros [(j & Hj & Hv)|(j & Hj & Hv)]; exists j; (split; [lia|done]).
  - intros (j & Hj & Hv). destruct (Z.lt_ge_cases j (i + n)); [left|right]; exists j; (split; [lia|done]).
Qed.

Lemma smeared_ones v x : 0 < v < 2 ^ 32 -> smeared 32 v x -> x = Z.ones (Z.log2 v + 1).
Proof.
  intros Hv [Hx Hb]. assert (Z.log2 v < 32) by (apply Z.log2_lt_pow2; lia). pose proof (Z.log2_nonneg v). apply Z.bits_inj'. intros i Hi.
  destruct (Z.lt_ge_cases i (Z.log2 v + 1)).
  - rewrite Z.ones_spec_low by lia. apply Hb; [done|]. exists (Z.log2 v). split; [lia|]. apply Z.bit_log2. lia.
  - rewrite Z.ones_spec_high by lia. apply not_true_iff_false. rewrite Hb by done. intros (j & Hj & Ht). rewrite Z.bits_above_log2 in Ht by lia. done.
Qed.

(** The table is indexed by the product, whose highest five bits tell the 32 masks apart. *)
Lemma de_bruijn k : 0 <= k < 32 ->
  nth (Z.to_nat (Z.shiftr (u32 (Z.ones (k + 1) * 0x07C4ACDD)) 27)) MultiplyDeBruijnBitPosition 0 = k.
Proof.
  intros Hk. assert (forallb (fun k => nth (Z.to_nat (Z.shiftr (u32 (Z.ones (k + 1) * 0x07C4ACDD)) 27)) MultiplyDeBruijnBitPosition 0 =? k) (seqZ 0 32) = true) as Hall by by vm_compute.
  rewrite forallb_forall in Hall. specialize (Hall k). rewrite Z.eqb_eq in Hall. apply Hall. rewrite <- list_elem_of_In, elem_of_seqZ. lia.
Qed.

Lemma log2p1_log2 v : 0 < v < 2 ^ 32 -> log2p1 v = Z.log2 v.
Proof.
  intros Hv. unfold log2p1. assert (smeared 1 v v) as H1.
  { split; [lia|]. intros i Hi. split; [intros Ht; exists i; (split; [lia|done])|intros (j & Hj & Ht); by replace i with j by lia]. }
  apply (smear_step 1) in H1; [|done]. apply (smear_step 2) in H1; [|done]. apply (smear_step 4) in H1; [|done].
  apply (smear_step 8) in H1; [|done]. apply (smear_step 16) in H1; [|done]. rewrite (smeared_ones v _ Hv H1). apply de_bruijn.
  pose proof (Z.log2_nonneg v). assert (Z.log2 v < 32) by (apply Z.log2_lt_pow2; lia). lia.
Qed.

Section Scan.
Context `{Endian}.

Lemma host_nonzero w : word_ok w -> w <> 0 -> 0 < network_to_host w < 2 ^ 32.
Proof.
  intros Hw Hn. pose proof (host_ok w Hw) as [H0 H1]. unfold network_to_host. split; [|done].
  destruct (decide (host_to_network w = 0)) as [E|]; [|lia]. exfalso. apply Hn. rewrite <- (host_host w Hw), E. unfold host_to_network. by destruct big_endian.
Qed.

(** The table and the instruction count the same zeros. *)
Lemma clz_sw_hw ws : Forall word_ok ws -> count_leading_zeros_sw ws = count_leading_zeros_hw ws.
Proof.
  induction 1 as [|w ws Hw _ IH]; [done|]. cbn [count_leading_zeros_sw count_leading_zeros_hw]. destruct (Z.eqb_spec w 0); [by rewrite IH|]. unfold builtin_clz.
  by rewrite log2p1_log2 by by apply host_nonzero.
Qed.

Lemma wbit_cons w ws i : 0 <= i -> wbit (w :: ws) i = if i <? 32 then bit_in w i else wbit ws (i - 32).
Proof.
  intros Hi. change (w :: ws) with ([w] ++ ws). rewrite wbit_app by done. cbn [length]. change (32 * Z.of_nat 1) with 32.
  destruct (Z.ltb_spec i 32); [|done]. unfold wbit. by rewrite Z.div_small by lia.
Qed.

(** The zeros in front: no bit is set before them, and the next one is, or there is none. *)
Lemma clz_spec ws : Forall word_ok ws -> 0 <= count_leading_zeros_hw ws <= 32 * Z.of_nat (length ws) /\
  (forall i, 0 <= i < count_leading_zeros_hw ws -> wbit ws i = false) /\
  (count_leading_zeros_hw ws < 32 * Z.of_nat (length ws) -> wbit ws (count_leading_zeros_hw ws) = true).
Proof.
  induction 1 as [|w ws Hw Hws (IH1 & IH2 & IH3)]; [cbn; split_and!; intros; lia|]. cbn [count_leading_zeros_hw]. cbn [length].
  destruct (Z.eqb_spec w 0) as [->|Hn].
  - split; [lia|]. split.
    + intros i Hi. rewrite wbit_cons by lia. destruct (Z.ltb_spec i 32); [apply bit_in_zero|apply IH2; lia].
    + intros Hlt. rewrite wbit_cons by lia. rewrite (proj2 (Z.ltb_ge _ _)) by lia. replace (32 + _ - 32) with (count_leading_zeros_hw ws) by lia. apply IH3. lia.
  - pose proof (host_nonzero w Hw Hn) as Hh. unfold builtin_clz. set (l := Z.log2 (network_to_host w)).
    assert (0 <= l < 32) as Hl by (unfold l; pose proof (Z.log2_nonneg (network_to_host w)); assert (Z.log2 (network_to_host w) < 32) by (apply Z.log2_lt_pow2; lia); lia).
    split; [lia|]. split.
    + intros i Hi. rewrite wbit_cons by lia. rewrite (proj2 (Z.ltb_lt _ _)) by lia. unfold bit_in. rewrite Z.mod_small by lia. apply Z.bits_above_log2; fold l; lia.
    + intros _. rewrite wbit_cons by lia. rewrite (proj2 (Z.ltb_lt _ _)) by lia. unfold bit_in. rewrite Z.mod_small by lia.
      replace (31 - (31 - l)) with l by lia. apply Z.bit_log2. lia.
Qed.

(** *** Counting *)

Definition ones (l : list bool) : Z := sum (map Z.b2z l).

Lemma sum_app l1 l2 : sum (l1 ++ l2) = sum l1 + sum l2.
Proof. induction l1 as [|x l1 IH]; [done|]. cbn [app sum foldr]. fold (sum (l1 ++ l2)) (sum l1). lia. Qed.

(** The order of the bytes permutes the bits. *)
Lemma sum_places (f : Z -> Z) : sum (map (fun i => f (place (31 - Z.of_nat i))) (seq 0 32)) = sum (map (fun i => f (Z.of_nat i)) (seq 0 32)).
Proof.
  unfold place, swapped_place. destruct big_endian; cbn [map seq sum foldr];
  repeat match goal with |- context [f ?e] => lazymatch e with Z.pos _ => fail | Z0 => fail | _ => let v := eval vm_compute in e in change (f e) with (f v) end end;
  lia.
Qed.

Lemma count_word_bits w : word_ok w -> count_word w = ones (map (fun i => bit_in w (Z.of_nat i)) (seq 0 32)).
Proof.
  intros Hw. rewrite count_word_sum, low_bits_map by done. unfold ones. rewrite map_map, <- (sum_places (fun i => Z.b2z (Z.testbit w i))). f_equal.
  apply map_ext_in. intros i Hi%in_seq. unfold bit_in. rewrite Z.mod_small by lia. unfold network_to_host. by rewrite host_bit by (done || lia).
Qed.

Lemma ones_app l1 l2 : ones (l1 ++ l2) = ones l1 + ones l2.
Proof. unfold ones. by rewrite map_app, sum_app. Qed.

Lemma ones_none l : Forall (fun b => b = false) l -> ones l = 0.
Proof. induction 1 as [|b l -> _ IH]; [done|]. unfold ones in *. cbn [map sum foldr Z.b2z]. fold (sum (map Z.b2z l)). lia. Qed.

(** The bits under a range of indices. *)
Definition bits_from (ws : list Z) (a n : nat) : list bool := map (fun i => wbit ws (Z.of_nat i)) (seq a n).

Lemma bits_from_cons w ws n : bits_from (w :: ws) 0 (32 + n) = map (fun i => bit_in w (Z.of_nat i)) (seq 0 32) ++ bits_from ws 0 n.
Proof.
  unfold bits_from. rewrite seq_app, map_app. apply f_equal2.
  - apply map_ext_in. intros i Hi%in_seq. rewrite wbit_cons by lia. by rewrite (proj2 (Z.ltb_lt _ _)) by lia.
  - change (0 + 32)%nat with (32 + 0)%nat. rewrite <- (fmap_add_seq 32 0 n). change (Nat.add 32 <$> seq 0 n) with (map (Nat.add 32) (seq 0 n)). rewrite map_map. apply map_ext. intros i.
    rewrite wbit_cons by lia. rewrite (proj2 (Z.ltb_ge _ _)) by lia. f_equal. lia.
Qed.

Lemma count_words ws a : Forall word_ok ws -> foldl (fun ret v => ret + count_word v) a ws = a + ones (bits_from ws 0 (32 * length ws)).
Proof.
  intros Hws. revert a. induction Hws as [|w ws Hw Hws IH]; intros a; [cbn; lia|]. cbn [foldl length]. rewrite IH, count_word_bits by done.
  replace (32 * S (length ws))%nat with (32 + 32 * length ws)%nat by lia. rewrite bits_from_cons, ones_app. lia.
Qed.

Lemma bits_bound bf : bf_ok bf -> (Z.to_nat (bf_size bf) <= 32 * length (words bf))%nat.
Proof.
  intros Hok. destruct (size_bounds bf Hok) as (Hs & Hn & Hl & _). pose proof (Z.div_mod (bf_size bf + 31) 32 ltac:(lia)).
  pose proof (Z.mod_pos_bound (bf_size bf + 31) 32 ltac:(lia)). lia.
Qed.

Lemma all_words bf : bf_ok bf -> take (Z.to_nat (num_words bf)) (words bf) = words bf.
Proof. intros Hok. destruct (size_bounds bf Hok) as (_ & _ & Hl & _). apply take_ge. lia. Qed.

Lemma count_spec bf : bf_ok bf -> bf_count bf = ones (bits_of bf).
Proof.
  intros Hok. destruct (size_bounds bf Hok) as (Hs & Hn & Hl & Hall & Htr). unfold bf_count. rewrite all_words by done.
  rewrite count_words by done. pose proof (bits_bound bf Hok) as Hb. unfold bits_from.
  replace (32 * length (words bf))%nat with (Z.to_nat (bf_size bf) + (32 * length (words bf) - Z.to_nat (bf_size bf)))%nat by lia.
  rewrite seq_app, map_app, ones_app. rewrite (ones_none (map _ (seq (0 + _) _))); [unfold bits_of; lia|].
  apply Forall_map, Forall_forall. intros i Hi%elem_of_seq. apply Htr. lia.
Qed.

(** A word without bits is zero. *)
Lemma none_set_spec bf : bf_ok bf -> none_set bf = negb (existsb id (bits_of bf)).
Proof.
  intros Hok. destruct (size_bounds bf Hok) as (Hs & Hn & Hl & Hall & Htr). unfold none_set.
  destruct (Z.eqb_spec (bf_size bf) 0) as [E|E]; [unfold bits_of; by rewrite E|]. rewrite all_words by done.
  apply eq_iff_eq_true. rewrite negb_true_iff, forallb_forall. split.
  - intros Hz. apply not_true_iff_false. intros (b & Hb & Ht)%existsb_exists. apply list_elem_of_In, list_elem_of_lookup in Hb as [i Hi].
    rewrite bits_lookup in Hi. case_bool_decide; [|done]. injection Hi as <-. unfold id, wbit in Ht. destruct (words bf !! _) as [w|] eqn:Ew; [|done].
    apply list_elem_of_lookup_2, list_elem_of_In, Hz, Z.eqb_eq in Ew as ->. by rewrite bit_in_zero in Ht.
  - intros Hne w Hw. apply list_elem_of_In in Hw. rewrite Forall_forall in Hall. pose proof (Hall w Hw) as Hwok. apply list_elem_of_lookup in Hw as [q Hq]. apply Z.eqb_eq.
    apply bit_in_ext; [done|done|]. intros i Hi. rewrite bit_in_zero. set (k := (32 * q + Z.to_nat i)%nat).
    assert (wbit (words bf) (Z.of_nat k) = bit_in w i) as <-.
    { unfold wbit, k. replace (Z.of_nat _) with (i + Z.of_nat q * 32) by lia. rewrite Z.div_add, Z.div_small by lia. replace (Z.to_nat (0 + Z.of_nat q)) with q by lia.
      rewrite Hq. unfold bit_in. by rewrite Z.mod_add by lia. }
    destruct (Z.lt_ge_cases (Z.of_nat k) (bf_size bf)) as [Hk|Hk]; [|by apply Htr].
    destruct (wbit _ _) eqn:Eb; [|done]. rewrite <- Hne. symmetry. apply existsb_exists. exists true. split; [|done].
    apply list_elem_of_In, list_elem_of_lookup. exists k. rewrite bits_lookup, bool_decide_true by done. by rewrite Eb.
Qed.

Lemma bits_ext bf (l : list bool) : length l = Z.to_nat (bf_size bf) ->
  (forall i, (i < length l)%nat -> l !! i = Some (wbit (words bf) (Z.of_nat i))) -> bits_of bf = l.
Proof.
  intros Hl Hb. apply list_eq. intros i. rewrite bits_lookup. case_bool_decide; [by rewrite Hb by lia|]. symmetry. apply lookup_ge_None_2. lia.
Qed.

(** *** All bits at once *)

Lemma set_all_spec bf : bf_ok bf -> exists bf', set_all bf = Ok bf' /\ bf_ok bf' /\ bits_of bf' = replicate (length (bits_of bf)) true.
Proof.
  intros Hok. unfold set_all. rewrite length_bits. destruct (bf_cases bf Hok) as [(-> & E & _)|(n & ws & -> & Hbo & Htr & E & Hnw & Hw)]; rewrite E.
  { exists (mk_bitfield []). split_and!; [done|by left|done]. }
  rewrite (proj2 (Z.eqb_neq n 0)) by (destruct Hbo; lia). rewrite Hnw. rewrite <- (bo_length _ _ Hbo).
  destruct (fill_words_spec n ws 0 0xffffffff Hbo ltac:(lia) ltac:(done)) as (ws1 & -> & Hbo1 & Hw1).
  destruct (clear_trailing_spec n ws1 Hbo1) as (ws2 & -> & Hbo2 & Htr2 & Hw2). exists (mk_bitfield (n :: ws2)). split; [done|]. split; [by apply trimmed_ok|].
  apply bits_ext; rewrite length_replicate; [by rewrite size_cons by apply Hbo|]. intros i Hi. rewrite lookup_replicate_2 by done. f_equal.
  unfold words. cbn [m_buf tail]. pose proof (index_word n ws (Z.of_nat i) Hbo ltac:(lia)). pose proof (Z.div_mod (Z.of_nat i) 32 ltac:(lia)).
  pose proof (Z.mod_pos_bound (Z.of_nat i) 32 ltac:(lia)). rewrite Hw2, Hw1, bit_in_ones by lia. by destruct (_ <? _) eqn:E3; [apply Z.ltb_lt in E3; lia|].
Qed.

Lemma clear_all_spec bf : bf_ok bf -> bf_ok (clear_all bf) /\ bits_of (clear_all bf) = replicate (length (bits_of bf)) false.
Proof.
  intros Hok. unfold clear_all. rewrite length_bits. destruct (bf_cases bf Hok) as [(-> & E & _)|(n & ws & -> & Hbo & Htr & E & Hnw & Hw)]; rewrite E.
  { split; [by left|done]. }
  rewrite (proj2 (Z.eqb_neq n 0)) by (destruct Hbo; lia). rewrite Hnw. rewrite <- (bo_length _ _ Hbo).
  destruct (fill_words_spec n ws 0 0 Hbo ltac:(lia) ltac:(done)) as (ws1 & -> & Hbo1 & Hw1).
  assert (forall i, 0 <= i -> wbit ws1 i = false) as Hz.
  { intros i Hi. destruct (Z.lt_ge_cases i (32 * Z.of_nat (length ws))) as [Hlt|]; [|apply wbit_above; destruct Hbo1 as [_ -> _]; destruct Hbo as [_ <- _]; lia].
    rewrite Hw1, bit_in_zero by lia. by destruct (_ <? _) eqn:E3; [apply Z.ltb_lt in E3; lia|]. }
  split; [apply trimmed_ok; [done|]; intros i Hi; apply Hz; destruct Hbo; lia|].
  apply bits_ext; rewrite length_replicate; [by rewrite size_cons by apply Hbo|]. intros i Hi. rewrite lookup_replicate_2 by done. f_equal. symmetry. apply Hz. lia.
Qed.

Lemma bits_all bf : 0 <= bf_size bf -> forallb id (bits_of bf) = true <-> forall i, 0 <= i < bf_size bf -> wbit (words bf) i = true.
Proof.
  intros Hs. rewrite forallb_forall. split.
  - intros Hall i Hi. apply (Hall (wbit (words bf) i)). apply list_elem_of_In, list_elem_of_lookup. exists (Z.to_nat i). rewrite bits_lookup, bool_decide_true by lia. by rewrite Z2Nat.id by lia.
  - intros Hall b Hb. apply list_elem_of_In, list_elem_of_lookup in Hb as [i Hi]. rewrite bits_lookup in Hi. case_bool_decide; [|done]. injection Hi as <-. unfold id. apply Hall. lia.
Qed.

(** The words before number [k] are full where all their bits are set. *)
Lemma full_words ws k : Forall word_ok ws -> (k <= length ws)%nat ->
  forallb (fun w => w =? 0xffffffff) (take k ws) = true <-> forall i, 0 <= i < 32 * Z.of_nat k -> wbit ws i = true.
Proof.
  intros Hws Hk. rewrite forallb_forall. split.
  - intros Hall i Hi. assert (0 <= i / 32 < Z.of_nat k) as Hq by (split; [apply Z.div_pos; lia|apply Z.div_lt_upper_bound; lia]).
    destruct (lookup_lt_is_Some_2 ws (Z.to_nat (i / 32))) as [w Hw]; [lia|]. unfold wbit. rewrite Hw.
    assert (w = 0xffffffff) as ->; [|apply bit_in_ones]. apply Z.eqb_eq, Hall, list_elem_of_In, list_elem_of_lookup. exists (Z.to_nat (i / 32)). by rewrite lookup_take_lt by lia.
  - intros Hall w Hw. apply list_elem_of_In, list_elem_of_lookup in Hw as [q Hq]. apply lookup_take_Some in Hq as [Hq Hlt]. apply Z.eqb_eq.
    assert (word_ok w) as Hwok by (rewrite Forall_forall in Hws; apply Hws; by eapply list_elem_of_lookup_2).
    apply bit_in_ext; [done|done|]. intros i Hi. rewrite bit_in_ones. rewrite <- (Hall (i + Z.of_nat q * 32)) by lia.
    unfold wbit. rewrite Z.div_add, Z.div_small by lia. replace (Z.to_nat (0 + Z.of_nat q)) with q by lia. rewrite Hq. unfold bit_in. by rewrite Z.mod_add by lia.
Qed.

Lemma all_set_spec bf : bf_ok bf -> all_set bf = Ok (negb (bf_size bf =? 0) && forallb id (bits_of bf)).
Proof.
  intros Hok. destruct (size_bounds bf Hok) as (Hs & Hn & Hl & Hall & Htr). unfold all_set. destruct (Z.eqb_spec (bf_size bf) 0) as [E|E]; [done|]. cbn [negb andb].
  set (s := bf_size bf) in *. pose proof (Z.div_mod s 32 ltac:(lia)) as Hd. pose proof (Z.mod_pos_bound s 32 ltac:(lia)) as Hm.
  pose proof (Z.div_mod (s + 31) 32 ltac:(lia)) as Hd2. pose proof (Z.mod_pos_bound (s + 31) 32 ltac:(lia)) as Hm2. rewrite quot_32, land_31 by lia.
  pose proof (full_words (words bf) (Z.to_nat (s / 32)) Hall ltac:(lia)) as Hfull. rewrite Z2Nat.id in Hfull by lia. pose proof (bits_all bf ltac:(unfold s in *; lia)) as Hbits. fold s in Hbits.
  destruct (forallb _ (take _ _)); cbn [negb].
  - assert (forall i, 0 <= i < 32 * (s / 32) -> wbit (words bf) i = true) as Hw by by apply Hfull. clear Hfull.
    destruct (Z.ltb_spec 0 (s mod 32)) as [Hr|Hr]; [|f_equal; symmetry; apply Hbits; intros i Hi; apply Hw; lia].
    destruct (ones_above_spec (32 - s mod 32) ltac:(lia)) as (m & -> & Hmok & Hmb). cbn [mbind result_bind].
    unfold word_at. rewrite (proj2 (Z.ltb_ge _ _)) by lia. destruct (lookup_lt_is_Some_2 (words bf) (Z.to_nat (s / 32))) as [w Hww]; [lia|]. rewrite Hww. cbn [mbind result_bind]. f_equal.
    assert (word_ok w) as Hwok by (rewrite Forall_forall in Hall; apply Hall; by eapply list_elem_of_lookup_2).
    assert (forall i, s / 32 * 32 <= i < s / 32 * 32 + 32 -> wbit (words bf) i = bit_in w (i mod 32) /\ i mod 32 = i - s / 32 * 32) as Hlast.
    { intros i Hi. unfold wbit. assert (i / 32 = s / 32) as -> by (symmetry; apply (Z.div_unique_pos _ _ _ (i - s / 32 * 32)); lia). rewrite Hww. unfold bit_in.
      rewrite Z.mod_mod by lia. split; [done|]. symmetry. apply (Z.mod_unique_pos _ _ (s / 32)); lia. }
    apply eq_iff_eq_true. rewrite Hbits, Z.eqb_eq. split.
    + intros Em i Hi. destruct (Z.lt_ge_cases i (32 * (s / 32))); [apply Hw; lia|]. destruct (Hlast i ltac:(lia)) as [-> Hi32].
      pose proof (bit_in_land w m (i mod 32) Hwok Hmok) as Hb. rewrite Em in Hb. unfold bit_in at 1 in Hb. unfold network_to_host in Hb. rewrite host_host in Hb by done.
      rewrite Hmb in Hb by (pose proof (Z.mod_pos_bound (i mod 32) 32 ltac:(lia)); lia). rewrite Z.mod_mod in Hb by lia. rewrite (proj2 (Z.leb_le _ _)), andb_true_r in Hb by lia. done.
    + intros Hset. apply bit_in_ext; [by apply land_ok; [|apply host_ok]|by apply host_ok|]. intros i Hi. rewrite bit_in_land by done.
      unfold bit_in at 2. unfold network_to_host. rewrite host_host, Hmb by (done || (pose proof (Z.mod_pos_bound i 32 ltac:(lia)); lia)).
      destruct (Z.leb_spec (32 - s mod 32) (31 - i mod 32)) as [Hle|]; [|by rewrite andb_false_r]. rewrite andb_true_r. rewrite (Z.mod_small i) in Hle by lia.
      destruct (Hlast (s / 32 * 32 + i) ltac:(lia)) as [Hb Hi2]. rewrite Hset, Hi2 in Hb by lia. by replace (s / 32 * 32 + i - s / 32 * 32) with i in Hb by lia.
  - f_equal. symmetry. apply not_true_iff_false. rewrite Hbits. intros Hset. assert (false = true); [|done]. apply Hfull. intros i Hi. apply Hset. lia.
Qed.

(** The index of the first bit set, or none. *)
Lemma find_first_set_spec bf : bf_ok bf ->
  (find_first_set bf = -1 /\ existsb id (bits_of bf) = false) \/
  exists k, find_first_set bf = Z.of_nat k /\ bits_of bf !! k = Some true /\ forall j, (j < k)%nat -> bits_of bf !! j = Some false.
Proof.
  intros Hok. destruct (size_bounds bf Hok) as (Hs & Hn & Hl & Hall & Htr). unfold find_first_set. rewrite all_words by done.
  destruct (clz_spec (words bf) Hall) as (Hc & Hbefore & Hat). set (c := count_leading_zeros_hw (words bf)) in *.
  assert (forall i, i < c -> 0 <= i -> wbit (words bf) i = false) as Hbelow by (intros; apply Hbefore; lia).
  assert (c = 32 * Z.of_nat (length (words bf)) -> existsb id (bits_of bf) = false) as Hnone.
  { intros E. apply not_true_iff_false. intros (b & Hb & Ht)%existsb_exists. apply list_elem_of_In, list_elem_of_lookup in Hb as [i Hi].
    rewrite bits_lookup in Hi. case_bool_decide; [|done]. pose proof (bits_bound bf Hok). rewrite Hbelow in Hi by lia. by injection Hi as <-. }
  destruct (Z.eqb_spec (num_words bf) 0) as [E|E]; [left; split; [done|]; apply Hnone; lia|].
  destruct (Z.eqb_spec c (num_words bf * 32)) as [Ec|Ec]; cbn [negb]; [left; split; [done|]; apply Hnone; lia|right].
  assert (wbit (words bf) c = true) as Hb by (apply Hat; lia). assert (c < bf_size bf) as Hlt.
  { destruct (Z.lt_ge_cases c (bf_size bf)) as [|Hge]; [done|]. by rewrite Htr in Hb. }
  exists (Z.to_nat c). split_and!; [lia| |].
  - rewrite bits_lookup, bool_decide_true, Z2Nat.id by lia. by rewrite Hb.
  - intros j Hj. rewrite bits_lookup, bool_decide_true, Hbelow by lia. done.
Qed.

(** *** The bits of a message *)

(** The bits of bytes, the highest of each byte first. *)
Definition byte_bits (b : Z) : list bool := map (fun i => Z.testbit b (7 - Z.of_nat i)) (seq 0 8).
Definition message_bits (l : bytes) : list bool := concat (map byte_bits l).

Definition mbit (l : bytes) (i : Z) : bool := match l !! Z.to_nat (i / 8) with Some b => Z.testbit b (7 - i mod 8) | None => false end.

Lemma mbit_cons b l i : 0 <= i -> mbit (b :: l) i = if i <? 8 then Z.testbit b (7 - i) else mbit l (i - 8).
Proof.
  intros Hi. unfold mbit. destruct (Z.ltb_spec i 8); [by rewrite Z.div_small, Z.mod_small by lia|].
  assert (i / 8 = (i - 8) / 8 + 1 /\ i mod 8 = (i - 8) mod 8) as [-> ->] by (Z.div_mod_to_equations; lia). assert (0 <= (i - 8) / 8) by (apply Z.div_pos; lia).
  by replace (Z.to_nat ((i - 8) / 8 + 1)) with (S (Z.to_nat ((i - 8) / 8))) by lia.
Qed.

Lemma message_lookup l i : (i < 8 * length l)%nat -> message_bits l !! i = Some (mbit l (Z.of_nat i)).
Proof.
  revert i. induction l as [|b l IH]; intros i Hi; cbn [length] in Hi; [lia|]. unfold message_bits. cbn [map concat]. fold (message_bits l). rewrite mbit_cons by lia.
  destruct (Z.ltb_spec (Z.of_nat i) 8).
  - rewrite lookup_app_l by (unfold byte_bits; rewrite length_map, length_seq; lia). unfold byte_bits. rewrite list_lookup_fmap, lookup_seq_lt by lia. done.
  - rewrite lookup_app_r by (unfold byte_bits; rewrite length_map, length_seq; lia). unfold byte_bits at 1. rewrite length_map, length_seq, IH by lia. do 2 f_equal. lia.
Qed.

Lemma byte_high b i : 0 <= b < 256 -> 8 <= i -> Z.testbit b i = false.
Proof. intros Hb Hi. replace b with (b mod 2 ^ 8) by (by apply Z.mod_small). by apply Z.mod_pow2_bits_high. Qed.

Lemma lor_byte v b : 0 <= b < 256 -> v * 256 + b = Z.lor (Z.shiftl v 8) b.
Proof.
  intros Hb. rewrite <- Z.lor_comm. assert (Z.land (Z.shiftl v 8) b = 0) as Hno.
  { apply Z.bits_inj'. intros i Hi. rewrite Z.land_spec, Z.shiftl_spec, Z.testbit_0_l by lia.
    destruct (Z.lt_ge_cases i 8); [by rewrite Z.testbit_neg_r by lia|]. by rewrite (byte_high b), andb_false_r by lia. }
  rewrite Z.lor_comm, <- Z.lxor_lor, <- Z.add_nocarry_lxor by done. rewrite Z.shiftl_mul_pow2 by lia. done.
Qed.

(** A bit of a big-endian number. *)
Lemma unbe_bit l i : bytes_ok l -> 0 <= i < 8 * Z.of_nat (length l) -> Z.testbit (unbe l) (8 * Z.of_nat (length l) - 1 - i) = mbit l i.
Proof.
  revert i. induction l as [|b l IH] using rev_ind; intros i Hl Hi; [cbn in Hi; lia|]. apply Forall_app in Hl as [Hl Hb]. apply Forall_cons in Hb as [Hb _]. unfold byte_ok in Hb.
  rewrite length_app, Nat.add_1_r, Nat2Z.inj_succ in *. rewrite unbe_app. unfold mbit. pose proof (Z.div_mod i 8 ltac:(lia)) as Hd. pose proof (Z.mod_pos_bound i 8 ltac:(lia)) as Hm.
  assert (unbe l * 256 + b = Z.lor (Z.shiftl (unbe l) 8) b) as -> by (by rewrite lor_byte).
  rewrite Z.lor_spec, Z.shiftl_spec by lia. destruct (Z.lt_ge_cases (i / 8) (Z.of_nat (length l))) as [Hin|Hout].
  - rewrite lookup_app_l by lia. replace (8 * Z.succ (Z.of_nat (length l)) - 1 - i - 8) with (8 * Z.of_nat (length l) - 1 - i) by lia. rewrite IH by (done || lia).
    rewrite (byte_high b), orb_false_r by lia. done.
  - rewrite lookup_app_r by lia. replace (Z.to_nat (i / 8) - length l)%nat with 0%nat by lia. cbn. rewrite Z.testbit_neg_r by lia. cbn. f_equal. lia.
Qed.

Lemma mbit_take n l i : 0 <= i < 8 * Z.of_nat n -> mbit (take n l) i = mbit l i.
Proof. intros Hi. unfold mbit. assert (i / 8 < Z.of_nat n) by (apply Z.div_lt_upper_bound; lia). assert (0 <= i / 8) by (apply Z.div_pos; lia). by rewrite lookup_take_lt by lia. Qed.

Lemma mbit_drop n l i : 0 <= i -> mbit (drop n l) i = mbit l (i + 8 * Z.of_nat n).
Proof.
  intros Hi. unfold mbit. rewrite lookup_drop. replace (i + 8 * Z.of_nat n) with (i + Z.of_nat n * 8) by lia. rewrite Z.div_add, Z.mod_add by lia.
  assert (0 <= i / 8) by (apply Z.div_pos; lia). by replace (Z.to_nat (i / 8 + Z.of_nat n)) with (n + Z.to_nat (i / 8))%nat by lia.
Qed.

Lemma unbe_word l : bytes_ok l -> length l = 4%nat -> word_ok (unbe l).
Proof. intros Hl Hlen. pose proof (unbe_bound l Hl) as Hb. by rewrite Hlen in Hb. Qed.

(** Words loaded from bytes hold their bits in order, whatever the order of the host. *)
Lemma bytes_words_spec k l : bytes_ok l -> length l = (4 * k)%nat ->
  length (bytes_words k l) = k /\ Forall word_ok (bytes_words k l) /\ forall i, 0 <= i < 32 * Z.of_nat k -> wbit (bytes_words k l) i = mbit l i.
Proof.
  revert l. induction k as [|k IH]; intros l Hl Hlen; [split_and!; [done|constructor|intros; lia]|]. cbn [bytes_words].
  destruct (IH (drop 4 l)) as (IH1 & IH2 & IH3); [by apply Forall_drop|rewrite length_drop; lia|].
  assert (length (take 4 l) = 4%nat) as Hl4 by (rewrite length_take; lia). assert (bytes_ok (take 4 l)) as Hok4 by by apply Forall_take.
  pose proof (unbe_word _ Hok4 Hl4) as Hw. split_and!; [cbn; by rewrite IH1|apply Forall_cons; split; [by apply host_ok|done]|].
  intros i Hi. rewrite wbit_cons by lia. destruct (Z.ltb_spec i 32).
  - unfold bit_in. rewrite Z.mod_small by lia. unfold network_to_host. rewrite host_host by done. pose proof (unbe_bit (take 4 l) i Hok4) as Hb. rewrite Hl4 in Hb.
    change (8 * Z.of_nat 4) with 32 in Hb. rewrite <- mbit_take with (n := 4%nat) by lia. rewrite <- Hb by lia. f_equal.
  - rewrite IH3, mbit_drop by lia. f_equal. lia.
Qed.

Lemma words_bytes_spec ws : length (words_bytes ws) = (4 * length ws)%nat /\ bytes_ok (words_bytes ws).
Proof.
  induction ws as [|w ws [IH1 IH2]]; [by split; [|constructor]|]. unfold words_bytes. cbn [map concat]. fold (words_bytes ws). split.
  - rewrite length_app, length_be, IH1. cbn [length]. lia.
  - apply Forall_app; split; [apply be_bytes_ok|done].
Qed.

Lemma assign_spec `{PastEnd} b bits bf : bf_ok bf -> bytes_ok b -> 0 <= bits <= max_bits -> bits <= 8 * Z.of_nat (length b) ->
  exists bf', bf_assign b bits bf = Ok bf' /\ bf_ok bf' /\ bits_of bf' = take (Z.to_nat bits) (message_bits b).
Proof.
  intros Hok Hb Hbits Hlen. unfold bf_assign. destruct (resize_spec bf bits Hok Hbits) as (bf1 & -> & Hok1 & Hs1 & _). cbn [mbind result_bind].
  destruct (Z.ltb_spec 0 bits) as [Hpos|]; [|exists bf1; split_and!; [done..|]; unfold bits_of; rewrite Hs1; by replace (Z.to_nat bits) with 0%nat by lia].
  destruct (bf_cases bf1 Hok1) as [(-> & E & _)|(n & ws & -> & Hbo & _ & E & _ & Hw)]; [lia|]. rewrite E in Hs1. subst n. rewrite Hw.
  destruct (words_bytes_spec ws) as [Hml Hmok]. pose proof (bo_length _ _ Hbo) as Hwl.
  pose proof (Z.div_mod (bits + 31) 32 ltac:(lia)). pose proof (Z.mod_pos_bound (bits + 31) 32 ltac:(lia)).
  pose proof (Z.div_mod (bits + 7) 8 ltac:(lia)). pose proof (Z.mod_pos_bound (bits + 7) 8 ltac:(lia)).
  rewrite Z.quot_div_nonneg by lia. set (n := Z.to_nat ((bits + 7) / 8)).
  assert (bits <= 8 * Z.of_nat n /\ (n <= length b)%nat /\ (n <= 4 * length ws)%nat) as (Hn1 & Hn2 & Hn3) by (unfold n; lia).
  rewrite span_in_range by lia. rewrite drop_0. set (l := take n b ++ drop n (words_bytes ws)).
  destruct (bytes_words_spec (length ws) l) as (Hl1 & Hl2 & Hl3).
  { apply Forall_app; split; [by apply Forall_take|by apply Forall_drop]. }
  { unfold l. rewrite length_app, length_take, length_drop. lia. }
  change (set_words _ _) with (mk_bitfield (bits :: bytes_words (length ws) l)).
  destruct (clear_trailing_spec bits (bytes_words (length ws) l)) as (ws2 & -> & Hbo2 & Htr2 & Hw2); [split; [apply Hbo|by rewrite Hl1|done]|].
  exists (mk_bitfield (bits :: ws2)). split; [done|]. split; [by apply trimmed_ok|]. assert (length (message_bits b) = 8 * length b)%nat as Hmb.
  { clear. induction b as [|x b IH]; [done|]. unfold message_bits in *. cbn [map concat length]. rewrite length_app, IH. unfold byte_bits. rewrite length_map, length_seq. lia. }
  apply bits_ext; rewrite length_take, Hmb; [rewrite size_cons by apply Hbo; lia|]. intros i Hi. rewrite lookup_take_lt, message_lookup by lia. f_equal.
  unfold words. cbn [m_buf tail]. rewrite Hw2, Hl3 by lia. unfold l, mbit. assert (Z.of_nat i / 8 < Z.of_nat n) by (apply Z.div_lt_upper_bound; lia).
  assert (0 <= Z.of_nat i / 8) by (apply Z.div_pos; lia). by rewrite lookup_app_l, lookup_take_lt by (rewrite ?length_take; lia).
Qed.
End Scan.

(** ** The bitfield is a list of bits *)



(** The bitfield of the bits given. *)
Definition bits_field `{Endian} `{PastEnd} (l : list bool) : result bitfield :=
  foldl (fun r (p : nat * bool) => bf ← r; if p.2 then set_bit (Z.of_nat p.1) bf else clear_bit (Z.of_nat p.1) bf)
    (bf_resize (Z.of_nat (length l)) bf_create) (zip (seq 0 (length l)) l).

(** [find_last_clear] is meant to give the index of the last bit that is clear.  Of 1110 it gives
    1, which is set, and of 0111 an index the bitfield does not have; where the size is a multiple
    of 32 it shifts a word by its whole width. *)
Lemma find_last_clear_wrong :
  let H : Endian := false in
  let H' : PastEnd := fun _ _ => 0 in
  (bf ← bits_field [true; true; true; false]; find_last_clear bf) = Ok 1 /\
  (bf ← bits_field [false; true; true; true]; find_last_clear bf) = Ok 4 /\
  (bf ← bits_field (replicate 31 true ++ [false]); find_last_clear bf) = Fault BadPrecondition.
Proof. vm_compute. done. Qed.
