(* ===== verification/Files.v ===== *)
(** * Files on disk

    [src/file_handler.cpp], [include/file_handler.hpp] and the directory tree of
    [src/piece_handler.cpp].  The disk maps a path to the contents of the file; a
    [file_handler] is its path and whether its [std::ofstream] is in a good state. *)

From S2P Require Import Prelude ByteBuffer Storage.

(** Whether the system lets the client open a path for writing. *)
Class FileSystem := fs_can_open : bytes -> bool.

Notation disk := (gmap bytes bytes).

(** ** Writing into a file *)

(** Store [d] at [off]; a gap before it is filled with zeros. *)
Definition write_at (c : bytes) (off : nat) (d : bytes) : bytes :=
  match d with
  | [] => c
  | _ => take off c ++ replicate (off - length c) 0 ++ d ++ drop (off + length d) c
  end.

Lemma write_at_inside c off d : (off + length d <= length c)%nat ->
  write_at c off d = take off c ++ d ++ drop (off + length d) c.
Proof.
  intros H. unfold write_at. destruct d as [|x d].
  - simpl. by rewrite Nat.add_0_r, take_drop.
  - by replace (off - length c)%nat with 0%nat by lia.
Qed.

Lemma length_write_at c off d : (off + length d <= length c)%nat ->
  length (write_at c off d) = length c.
Proof. intros H. rewrite write_at_inside by done. rewrite !length_app, length_take, length_drop. lia. Qed.

Lemma write_at_nil off d : d <> [] -> write_at [] off d = replicate off 0 ++ d.
Proof.
  unfold write_at. destruct d; [done|]. intros _.
  by rewrite take_nil, drop_nil, app_nil_r, Nat.sub_0_r.
Qed.

(** ** [file_handler] *)

(** [include/file_handler.hpp:24-28] file_handler *)
Record file_handler := mk_file_handler { fh_path : bytes; fh_good : bool }.

(** [src/file_handler.cpp:33] [file_.seekp(offset)]: a negative position sets [failbit],
    and a stream that has failed stays failed. *)
Definition stream_seekp (good : bool) (pos : Z) : bool := good && (0 <=? pos).

Definition stream_write (good : bool) (path : bytes) (pos : Z) (d : bytes) (dk : disk) : disk :=
  if good then <[path := write_at (default [] (dk !! path)) (Z.to_nat pos) d]> dk else dk.

Section FileHandler.
Context {BB : ByteBuffer} {FS : FileSystem}.

(** [src/file_handler.cpp:11-18] file_handler::file_handler
    Opening truncates the file; writing the last byte gives it its size. *)
Definition file_handler_create (f : file_entry) (dk : disk) : file_handler * disk :=
  let path := fe_path f in
  let good := fs_can_open path in
  let dk := if good then <[path := []]> dk else dk in
  let good := stream_seekp good (fe_size f - 1) in
  let dk := stream_write good path (fe_size f - 1) [0] dk in
  (mk_file_handler path good, dk).

(** [src/file_handler.cpp:20-29] file_handler::write
    The overload that takes a block's key.  The offset is computed in 32 bits, the
    length in 64 bits without sign. *)
Definition file_handler_write_key (ti : torrent_info) (index begin : Z) (data : buf)
    (h : file_handler) (dk : disk) : result (file_handler * disk) :=
  let piece_len := ti_piece_length ti in
  let file_len := ti_total_size ti in
  let offset := u32 (piece_len * index + begin) in
  let divisor := u64 (file_len - offset) in
  if divisor =? 0 then Fault DivisionByZero
  else
    let write_len := bb_available data mod divisor in
    let good := stream_seekp (fh_good h) offset in
    Ok (mk_file_handler (fh_path h) good,
        stream_write good (fh_path h) offset (take (Z.to_nat write_len) (bb_readable data)) dk).

(** [src/file_handler.cpp:31-36] file_handler::write *)
Definition file_handler_write (data : buf) (offset size : Z) (h : file_handler) (dk : disk) :
    file_handler * buf * disk :=
  let good := stream_seekp (fh_good h) offset in
  let '(d, data) := bb_read data size in
  (mk_file_handler (fh_path h) good, data, stream_write good (fh_path h) offset d dk).

(** A new file has its size and is all zeros. *)
Lemma file_handler_create_ok f dk : fs_can_open (fe_path f) = true -> 0 < fe_size f ->
  file_handler_create f dk =
  (mk_file_handler (fe_path f) true, <[fe_path f := replicate (Z.to_nat (fe_size f)) 0]> dk).
Proof.
  intros Ho Hs. unfold file_handler_create. rewrite Ho. unfold stream_seekp, stream_write.
  rewrite (proj2 (Z.leb_le 0 _)) by lia. cbn [andb]. f_equal.
  rewrite lookup_insert_eq, insert_insert_eq. f_equal. cbn [default].
  rewrite write_at_nil by done.
  change [0] with (replicate 1 0). rewrite <- replicate_add. f_equal. lia.
Qed.
End FileHandler.

(** ** The directory tree *)

(** [path.find("/")] *)
Fixpoint find_slash (path : bytes) : option nat :=
  match path with
  | [] => None
  | c :: path' => if c =? 47 then Some 0%nat else S <$> find_slash path'
  end.

(** [src/piece_handler.cpp:212-230] build_dirs
    The state is the set of directories made so far, the text of [current_dir] and
    the rest of [path]; the result adds the [mkdir] calls in order.  Every turn
    shortens [path]. *)
Fixpoint build_dirs_loop (fuel : nat) (dirs : gset bytes) (current_dir path : bytes) :
    result (gset bytes * list bytes) :=
  match find_slash path with
  | None => Ok (dirs, [])
  | Some it =>
      match fuel with
      | O => Fault OutOfFuel
      | S fuel' =>
          let current_dir := current_dir ++ take it path in
          let fresh := bool_decide (current_dir ∉ dirs) in
          let dirs := if fresh then {[current_dir]} ∪ dirs else dirs in
          r ← build_dirs_loop fuel' dirs (current_dir ++ [47]) (drop (it + 1) path);
          Ok (r.1, (if fresh then [current_dir] else []) ++ r.2)
      end
  end.

(** [src/piece_handler.cpp:212-230] build_dirs *)
Definition build_dirs (dirs : gset bytes) (path : bytes) : result (gset bytes * list bytes) :=
  build_dirs_loop (length path) dirs [] path.

(** [src/piece_handler.cpp:232-240] build_dir_tree
    The [mkdir] calls for all files. *)
Fixpoint build_dir_tree_loop (dirs : gset bytes) (files : list file_entry) : result (list bytes) :=
  match files with
  | [] => Ok []
  | f :: files' =>
      r ← build_dirs dirs (fe_path f);
      calls ← build_dir_tree_loop r.1 files';
      Ok (r.2 ++ calls)
  end.

(** [src/piece_handler.cpp:232-240] build_dir_tree *)
Definition build_dir_tree (ti : torrent_info) : result (list bytes) :=
  build_dir_tree_loop ∅ (ti_files ti).

(** The directories a path lies in, outermost first. *)
Fixpoint parents (current path : bytes) : list bytes :=
  match path with
  | [] => []
  | c :: path' => if c =? 47 then current :: parents (current ++ [c]) path'
                  else parents (current ++ [c]) path'
  end.

Lemma find_slash_parents path : forall current,
  match find_slash path with
  | None => parents current path = []
  | Some it => (it < length path)%nat /\ path !! it = Some 47 /\
      parents current path =
        (current ++ take it path) :: parents ((current ++ take it path) ++ [47]) (drop (it + 1) path)
  end.
Proof.
  induction path as [|c path IH]; intros current; simpl; [done|].
  destruct (Z.eqb_spec c 47) as [->|Hc].
  - rewrite app_nil_r. split_and!; [lia|done|done].
  - specialize (IH (current ++ [c])). destruct (find_slash path) as [it|]; simpl; [|done].
    destruct IH as (Hlt & Hl & ->). split_and!; [lia|done|].
    by rewrite <- !app_assoc.
Qed.

(** The parents that are new, each once. *)
Fixpoint fresh_dirs (dirs : gset bytes) (l : list bytes) : gset bytes * list bytes :=
  match l with
  | [] => (dirs, [])
  | d :: l' =>
      if bool_decide (d ∉ dirs)
      then let r := fresh_dirs ({[d]} ∪ dirs) l' in (r.1, d :: r.2)
      else fresh_dirs dirs l'
  end.

Lemma build_dirs_loop_spec fuel : forall dirs current path,
  (length path <= fuel)%nat ->
  build_dirs_loop fuel dirs current path = Ok (fresh_dirs dirs (parents current path)).
Proof.
  induction fuel as [|fuel IH]; intros dirs current path Hlen.
  - by destruct path; [|simpl in Hlen; lia].
  - pose proof (find_slash_parents path current) as Hp. cbn [build_dirs_loop].
    destruct (find_slash path) as [it|]; [|by rewrite Hp].
    destruct Hp as (Hlt & _ & ->).
    rewrite IH by (rewrite length_drop; lia). cbn [mbind result_bind fresh_dirs].
    case_bool_decide; simpl; [done|]. by destruct (fresh_dirs _ _).
Qed.

Lemma fresh_dirs_spec l : forall dirs,
  let r := fresh_dirs dirs l in
  r.1 = list_to_set l ∪ dirs /\ NoDup r.2 /\
  (forall d, d ∈ r.2 <-> d ∈ l /\ d ∉ dirs).
Proof.
  induction l as [|d l IH]; intros dirs; simpl.
  - split; [set_solver|]. split; [constructor|set_solver].
  - case_bool_decide as Hd; simpl.
    + destruct (IH ({[d]} ∪ dirs)) as (-> & Hnd & Hin). split; [set_solver|]. split.
      * constructor; [|done]. rewrite Hin. set_solver.
      * intros e. rewrite elem_of_cons, Hin. destruct (decide (e = d)) as [->|]; set_solver.
    + destruct (IH dirs) as (-> & Hnd & Hin). split; [set_solver|]. split; [done|].
      intros e. rewrite Hin. set_solver.
Qed.

(** Every directory is made after the directories it lies in. *)
Fixpoint parents_first (made : gset bytes) (calls : list bytes) : Prop :=
  match calls with
  | [] => True
  | d :: calls' => list_to_set (parents [] d) ⊆ made /\ parents_first ({[d]} ∪ made) calls'
  end.

Lemma parents_app current p q :
  parents current (p ++ q) = parents current p ++ parents (current ++ p) q.
Proof.
  revert current; induction p as [|c p IH]; intros current; simpl; [by rewrite app_nil_r|].
  destruct (c =? 47); rewrite IH, <- app_assoc; done.
Qed.

Lemma parents_parents path l1 d l2 :
  parents [] path = l1 ++ d :: l2 -> parents [] d = l1.
Proof.
  revert l1 l2. induction path as [|c path IH] using rev_ind; intros l1 l2 Hp.
  { by destruct l1. }
  rewrite parents_app in Hp. simpl in Hp.
  destruct (c =? 47); [|rewrite app_nil_r in Hp; by eapply IH].
  destruct l2 as [|e l2] using rev_ind.
  - apply app_inj_tail in Hp as [<- <-]. done.
  - rewrite app_comm_cons, app_assoc in Hp. apply app_inj_tail in Hp as [Hp _].
    by eapply IH.
Qed.

Lemma fresh_dirs_parents_first l : forall l1 dirs made path,
  parents [] path = l1 ++ l -> list_to_set l1 ⊆ made -> dirs ⊆ made ->
  parents_first made (fresh_dirs dirs l).2.
Proof.
  induction l as [|d l IH]; intros l1 dirs made path Hp Hl1 Hdirs; simpl; [done|].
  pose proof (parents_parents path l1 d l Hp) as Hd.
  assert (parents [] path = (l1 ++ [d]) ++ l) as Hp' by (by rewrite <- app_assoc).
  case_bool_decide as Hin; simpl.
  - rewrite Hd. split; [done|]. apply (IH (l1 ++ [d]) _ _ path Hp'); set_solver.
  - apply (IH (l1 ++ [d]) _ _ path Hp'); [set_solver|done].
Qed.

Lemma parents_first_app made l1 l2 :
  parents_first made (l1 ++ l2) <->
  parents_first made l1 /\ parents_first (list_to_set l1 ∪ made) l2.
Proof.
  revert made; induction l1 as [|d l1 IH]; intros made; simpl.
  - rewrite (left_id_L ∅ (∪)). tauto.
  - rewrite IH. replace (list_to_set l1 ∪ ({[d]} ∪ made)) with ({[d]} ∪ list_to_set l1 ∪ made) by set_solver.
    tauto.
Qed.

Lemma build_dir_tree_loop_spec files : forall dirs,
  exists calls, build_dir_tree_loop dirs files = Ok calls /\ NoDup calls /\
    (forall d, d ∈ calls <-> (d ∉ dirs) /\ exists f, f ∈ files /\ d ∈ parents [] (fe_path f)) /\
    parents_first dirs calls.
Proof.
  induction files as [|f files IH]; intros dirs; simpl.
  { exists []. split_and!; [done|constructor|set_solver|done]. }
  unfold build_dirs. rewrite build_dirs_loop_spec by done. simpl.
  set (l := parents [] (fe_path f)).
  destruct (fresh_dirs_spec l dirs) as (Hset & Hnd & Hin).
  pose proof (fresh_dirs_parents_first l [] dirs dirs (fe_path f) eq_refl ltac:(set_solver) ltac:(done)) as Hpf.
  destruct (fresh_dirs dirs l) as [dirs' made]. simpl in *. subst dirs'.
  destruct (IH (list_to_set l ∪ dirs)) as (calls & -> & Hnd' & Hin' & Hpf'). simpl.
  exists (made ++ calls). split_and!; [done| | |].
  - apply NoDup_app. set_solver.
  - intros d. rewrite elem_of_app, Hin, Hin'. setoid_rewrite elem_of_cons.
    destruct (decide (d ∈ l)); set_solver.
  - apply parents_first_app. split; [done|].
    replace (list_to_set made ∪ dirs) with (list_to_set l ∪ dirs : gset bytes); [done|].
    apply set_eq. intros d. rewrite !elem_of_union, !elem_of_list_to_set, Hin.
    destruct (decide (d ∈ dirs)); tauto.
Qed.

(** C30: The directory tree is complete: [mkdir] is called once for every directory some
    file lies in, and for a directory after all the directories around it. *)
Theorem build_dir_tree_complete ti :
  exists calls, build_dir_tree ti = Ok calls /\ NoDup calls /\
    (forall d, d ∈ calls <-> exists f, f ∈ ti_files ti /\ d ∈ parents [] (fe_path f)) /\
    parents_first ∅ calls.
Proof.
  destruct (build_dir_tree_loop_spec (ti_files ti) ∅) as (calls & H & Hnd & Hin & Hpf).
  exists calls. split_and!; [done|done|set_solver|done].
Qed.
