(* ===== verification/PieceHandler.v ===== *)
(** * The piece handler

    [src/piece_handler.cpp], [include/piece_handler.hpp] and [include/pieces.hpp]:
    which blocks to ask each peer for, the blocks received so far, and the check and
    the writing of a complete piece.  The hash maps of the class are finite maps; a
    use of [operator[]] inserts the default value, as in the code.  The disk the
    file handlers write to is kept with the handler. *)

From S2P Require Import Prelude ByteBuffer Messages Storage Files.

(** The order in which a [std::unordered_set] is walked: some order of its elements. *)
Class SetOrder := iter_order : gset Z -> list Z.

Class SetOrderLaw (SO : SetOrder) : Prop :=
  iter_order_elements s : iter_order s ≡ₚ elements s.

(** [include/pieces.hpp:13-22] piece_received_key
    The two [uint32_t] fields, index and begin; the operator compares both. *)
Notation piece_received_key := (Z * Z)%type.

(** [include/piece_handler.hpp:34] piece_handler::BLOCK_LEN *)
Definition BLOCK_LEN : Z := Z.shiftl 1 14.

Section PieceHandler.
Context {BB : ByteBuffer} {FS : FileSystem} {SHA : Sha1} {SO : SetOrder}.
Variable ti : torrent_info.

(** [include/pieces.hpp:24-28] received_block *)
Record received_block := mk_received_block { received_ : bool; block_ : buf }.

(** [include/pieces.hpp:26-27] received_block *)
Definition received_block_init : received_block := mk_received_block false bb_new.

(** [include/piece_handler.hpp:44-52] piece_handler *)
Record piece_handler := mk_piece_handler {
  have_map_ : gmap bytes (gset Z);
  request_map_ : gmap bytes (list request);
  received_pieces_ : gmap piece_received_key received_block;
  file_handlers_ : gmap bytes file_handler;
  written_pieces_ : Z;
  disk_ : disk;
}.

(** ** The maps, with their default values *)

Definition have_set (ph : piece_handler) (peer : bytes) : gset Z :=
  default ∅ (have_map_ ph !! peer).
Definition queue (ph : piece_handler) (peer : bytes) : list request :=
  default [] (request_map_ ph !! peer).
Definition block_at (ph : piece_handler) (k : piece_received_key) : received_block :=
  default received_block_init (received_pieces_ ph !! k).
Definition received_at (ph : piece_handler) (k : piece_received_key) : bool :=
  received_ (block_at ph k).

Definition set_have_set (peer : bytes) (s : gset Z) (ph : piece_handler) : piece_handler :=
  mk_piece_handler (<[peer := s]> (have_map_ ph)) (request_map_ ph) (received_pieces_ ph)
    (file_handlers_ ph) (written_pieces_ ph) (disk_ ph).
Definition set_queue (peer : bytes) (q : list request) (ph : piece_handler) : piece_handler :=
  mk_piece_handler (have_map_ ph) (<[peer := q]> (request_map_ ph)) (received_pieces_ ph)
    (file_handlers_ ph) (written_pieces_ ph) (disk_ ph).
Definition set_block (k : piece_received_key) (b : received_block) (ph : piece_handler) : piece_handler :=
  mk_piece_handler (have_map_ ph) (request_map_ ph) (<[k := b]> (received_pieces_ ph))
    (file_handlers_ ph) (written_pieces_ ph) (disk_ ph).
Definition set_files (fh : gmap bytes file_handler) (dk : disk) (ph : piece_handler) : piece_handler :=
  mk_piece_handler (have_map_ ph) (request_map_ ph) (received_pieces_ ph) fh (written_pieces_ ph) dk.
Definition set_written (n : Z) (ph : piece_handler) : piece_handler :=
  mk_piece_handler (have_map_ ph) (request_map_ ph) (received_pieces_ ph) (file_handlers_ ph) n (disk_ ph).

(** [operator[]] of the three maps: the entry is there afterwards. *)
Definition touch_have (peer : bytes) (ph : piece_handler) : piece_handler :=
  set_have_set peer (have_set ph peer) ph.
Definition touch_queue (peer : bytes) (ph : piece_handler) : piece_handler :=
  set_queue peer (queue ph peer) ph.
Definition touch_block (k : piece_received_key) (ph : piece_handler) : piece_handler :=
  set_block k (block_at ph k) ph.

(** ** Requests *)

(** [src/piece_handler.cpp:129-130] piece_handler::add_to_queue
    [std::ceil] of the quotient by a power of two: the division is exact. *)
Definition blocks_per_piece (piece_size : Z) : Z := - ((- piece_size) / BLOCK_LEN).

(** The block numbers the loops run through. *)
Definition block_inds (bpp : Z) : list Z := seqZ 0 bpp.

(** [src/piece_handler.cpp:135] piece_handler::add_to_queue *)
Definition block_key (index block_ind : Z) : piece_received_key :=
  (index, u32 (block_ind * BLOCK_LEN)).

(** [src/piece_handler.cpp:138-139] piece_handler::add_to_queue *)
Definition block_len (piece_size block_ind : Z) : Z :=
  if (block_ind <? blocks_per_piece piece_size - 1) || (Z.rem piece_size BLOCK_LEN =? 0)
  then BLOCK_LEN else Z.rem piece_size BLOCK_LEN.

(** [src/piece_handler.cpp:141] piece_handler::add_to_queue *)
Definition block_request (index piece_size block_ind : Z) : request :=
  mk_request index (u32 (block_ind * BLOCK_LEN)) (u32 (block_len piece_size block_ind)).

(** [src/piece_handler.cpp:133-143] piece_handler::add_to_queue *)
Definition add_block (peer : bytes) (index piece_size : Z) (ph : piece_handler) (block_ind : Z) : piece_handler :=
  let key := block_key index block_ind in
  let ph := touch_block key ph in
  if received_at ph key then ph
  else set_queue peer (queue ph peer ++ [block_request index piece_size block_ind]) ph.

(** [src/piece_handler.cpp:127-144] piece_handler::add_to_queue *)
Definition add_to_queue (peer : bytes) (index : Z) (ph : piece_handler) : piece_handler :=
  let piece_size := piece_size ti (i32 index) in
  let ph := touch_queue peer ph in
  foldl (add_block peer index piece_size) ph (block_inds (blocks_per_piece piece_size)).

(** [src/piece_handler.cpp:146-155] piece_handler::rebuild_queue *)
Definition rebuild_queue (peer : bytes) (ph : piece_handler) : bool * piece_handler :=
  let ph := touch_have peer ph in
  let ph := foldl (fun ph have_index => add_to_queue peer have_index ph) ph (iter_order (have_set ph peer)) in
  (negb (bool_decide (queue ph peer = [])), ph).

(** [src/piece_handler.cpp:45-53] piece_handler::have *)
Definition have (peer : bytes) (index : Z) (ph : piece_handler) : piece_handler :=
  let ph := touch_have peer ph in
  if bool_decide (index ∈ have_set ph peer) then ph
  else
    let ph := set_have_set peer ({[index]} ∪ have_set ph peer) ph in
    add_to_queue peer index ph.

(** [src/piece_handler.cpp:60-67] piece_handler::have
    The bits of one byte, from the most significant. *)
Definition have_byte (peer : bytes) (index_offset byte : Z) (ph : piece_handler) : piece_handler :=
  foldl (fun ph i => if Z.testbit byte i then have peer (u32 (index_offset * 8 + (8 - i - 1))) ph else ph)
    ph [7; 6; 5; 4; 3; 2; 1; 0].

(** [src/piece_handler.cpp:55-70] piece_handler::have *)
Fixpoint have_bitfield_loop (fuel : nat) (peer : bytes) (index_offset : Z) (bitfield : buf)
    (ph : piece_handler) : result piece_handler :=
  if 0 <? bb_available bitfield then
    match fuel with
    | O => Fault OutOfFuel
    | S fuel' =>
        let '(byte, bitfield) := bb_read_8 bitfield in
        have_bitfield_loop fuel' peer (index_offset + 1) bitfield (have_byte peer index_offset byte ph)
    end
  else Ok ph.

(** [src/piece_handler.cpp:55-70] piece_handler::have *)
Definition have_bitfield (peer : bytes) (bitfield : buf) (ph : piece_handler) : result piece_handler :=
  have_bitfield_loop (length (bb_readable bitfield)) peer 0 bitfield ph.

(** [src/piece_handler.cpp:114-122] piece_handler::get_piece_request
    The loop pops until it has popped a request for a block that is not yet received,
    or the queue is empty.  [r] is the front and [q] the rest of the queue; the result
    is the last [unreceived_piece_requested], the last request and the queue left. *)
Fixpoint pop_requests (r : request) (q : list request) (ph : piece_handler) :
    bool * request * list request * piece_handler :=
  let key := (index_ r, begin_ r) in
  let ph := touch_block key ph in
  if received_at ph key then
    match q with
    | [] => (true, r, [], ph)
    | r' :: q' => pop_requests r' q' ph
    end
  else (false, r, q, ph).

(** [src/piece_handler.cpp:105-125] piece_handler::get_piece_request *)
Definition get_piece_request (peer : bytes) (ph : piece_handler) : (bool * request) * piece_handler :=
  let ph := touch_queue peer ph in
  let '(some, ph) :=
    if bool_decide (queue ph peer = []) then rebuild_queue peer ph else (true, ph) in
  if negb some then ((false, default_request), ph)
  else
    match queue ph peer with
    | [] => ((false, default_request), ph)
    | r :: q =>
        let '(unreceived_piece_requested, piece_req, q, ph) := pop_requests r q ph in
        ((negb unreceived_piece_requested, piece_req), set_queue peer q ph)
    end.

(** ** Blocks *)

(** [src/piece_handler.cpp:157-160] piece_handler::is_done *)
Definition is_done (ph : piece_handler) : bool := ti_num_pieces ti <=? written_pieces_ ph.

(** [src/piece_handler.cpp:168-178] piece_handler::write_if_valid
    The bytes of the blocks, or nothing when one of them is missing. *)
Fixpoint collect_blocks (index : Z) (inds : list Z) (hashed : bytes) (ph : piece_handler) :
    option bytes * piece_handler :=
  match inds with
  | [] => (Some hashed, ph)
  | block_ind :: inds' =>
      let key := block_key index block_ind in
      let ph := touch_block key ph in
      if received_at ph key
      then collect_blocks index inds' (hashed ++ bb_readable (block_ (block_at ph key))) ph
      else (None, ph)
  end.

(** [src/piece_handler.cpp:190-204] piece_handler::write_if_valid
    Writing a slice consumes the bytes from the block; a file without a handler is
    reported and skipped. *)
Definition write_slice (key : piece_received_key) (ph : piece_handler) (s : file_slice) : result piece_handler :=
  match ti_files ti !! fs_file_index s with
  | None => Fault OutOfRange
  | Some f =>
      match file_handlers_ ph !! fe_name f with
      | None => Ok ph
      | Some h =>
          let b := block_at ph key in
          let '(h, data, dk) := file_handler_write (block_ b) (fs_offset s) (fs_size s) h (disk_ ph) in
          let ph := set_block key (mk_received_block (received_ b) data) ph in
          Ok (set_files (<[fe_name f := h]> (file_handlers_ ph)) dk ph)
      end
  end.

Fixpoint write_slices (key : piece_received_key) (slices : list file_slice) (ph : piece_handler) :
    result piece_handler :=
  match slices with
  | [] => Ok ph
  | s :: slices' => ph ← write_slice key ph s; write_slices key slices' ph
  end.

(** [src/piece_handler.cpp:183-205] piece_handler::write_if_valid *)
Fixpoint write_blocks (index : Z) (inds : list Z) (ph : piece_handler) : result piece_handler :=
  match inds with
  | [] => Ok ph
  | block_ind :: inds' =>
      let key := block_key index block_ind in
      let ph := touch_block key ph in
      slices ← map_block ti (i32 key.1) key.2 BLOCK_LEN;
      ph ← write_slices key slices ph;
      write_blocks index inds' ph
  end.

(** [src/piece_handler.cpp:162-210] piece_handler::write_if_valid *)
Definition write_if_valid (index : Z) (ph : piece_handler) : result (bool * piece_handler) :=
  let piece_size := piece_size ti (i32 index) in
  let inds := block_inds (blocks_per_piece piece_size) in
  match collect_blocks index inds [] ph with
  | (None, ph) => Ok (false, ph)
  | (Some hashed, ph) =>
      if bool_decide (sha1 hashed = ti_hash_for_piece ti (i32 index)) then
        ph ← write_blocks index inds ph;
        Ok (true, set_written (written_pieces_ ph + 1) ph)
      else Ok (false, ph)
  end.

(** [src/piece_handler.cpp:72-90] piece_handler::received
    The result says whether [session_.stop()] was called. *)
Definition received (piece : buf) (ph : piece_handler) : result (piece_handler * bool) :=
  let '(index, piece) := bb_read_32 piece in
  let '(begin, piece) := bb_read_32 piece in
  let key := (index, begin) in
  let ph := touch_block key ph in
  if received_at ph key then Ok (ph, false)
  else
    let ph := set_block key (mk_received_block true (bb_write (block_ (block_at ph key)) (bb_readable piece))) ph in
    r ← write_if_valid index ph;
    Ok (r.2, r.1 && is_done r.2).

(** [src/piece_handler.cpp:92-102] piece_handler::print_left
    The keys printed, in the order of the map. *)
Definition print_left (ph : piece_handler) : list piece_received_key :=
  map fst (filter (fun kb => received_ kb.2 = false) (map_to_list (received_pieces_ ph))).

(** [src/piece_handler.cpp:37-42] piece_handler::piece_handler
    A file whose name is already taken is still created, but its handler is dropped. *)
Definition emplace_handler (acc : gmap bytes file_handler * disk) (f : file_entry) :
    gmap bytes file_handler * disk :=
  let '(h, dk) := file_handler_create f acc.2 in
  (match acc.1 !! fe_name f with Some _ => acc.1 | None => <[fe_name f := h]> acc.1 end, dk).

(** [src/piece_handler.cpp:23-43] piece_handler::piece_handler *)
Definition piece_handler_create (dk : disk) : result (list bytes * piece_handler) :=
  mkdirs ← build_dir_tree ti;
  let '(fh, dk) := foldl emplace_handler (∅, dk) (ti_files ti) in
  Ok (mkdirs, mk_piece_handler ∅ ∅ ∅ fh 0 dk).
End PieceHandler.
