(* ===== verification/Agent.v ===== *)
(** * The torrent agent

    [src/torrent_agent.cpp] and [include/torrent_agent.hpp]: one agent per peer.  The
    state every callback can reach is the record [world]: all agents, the reactor,
    the timer and the piece handler they share, the session's flags and the operating
    system.  An agent is a number, its fields are in [agents_].  The instances at the
    end of the definitions plug the agents into the state machine, the reactor and the
    timer. *)

From S2P Require Import Prelude ByteBuffer Messages MsgFactory Float32 SessionSm Sockets Net.
From S2P Require Import Timer NetReactor Storage Files PieceHandler.

Section World.
Context {BB : ByteBuffer} {Os : OS}.

(** [include/torrent_agent.hpp:58-73] torrent_agent
    [events_] is the field of the base class [inet_reactor_client]; [sm_] is the state
    of the machine. *)
Record agent := mk_agent {
  peer_info_ : peer_info;
  socket_ : Z;
  sm_ : sm_state;
  io_buffer_ : buf;
  msg_buffer_ : bytes;
  send_queue_ : list buf;
  connected_ : bool;
  choked_ : bool;
  connection_attempts_ : Z;
  events_ : Z;
}.

Definition set_peer_info (v : peer_info) (x : agent) : agent :=
  mk_agent v (socket_ x) (sm_ x) (io_buffer_ x) (msg_buffer_ x) (send_queue_ x) (connected_ x) (choked_ x) (connection_attempts_ x) (events_ x).
Definition set_socket (v : Z) (x : agent) : agent :=
  mk_agent (peer_info_ x) v (sm_ x) (io_buffer_ x) (msg_buffer_ x) (send_queue_ x) (connected_ x) (choked_ x) (connection_attempts_ x) (events_ x).
Definition set_sm (v : sm_state) (x : agent) : agent :=
  mk_agent (peer_info_ x) (socket_ x) v (io_buffer_ x) (msg_buffer_ x) (send_queue_ x) (connected_ x) (choked_ x) (connection_attempts_ x) (events_ x).
Definition set_io_buffer (v : buf) (x : agent) : agent :=
  mk_agent (peer_info_ x) (socket_ x) (sm_ x) v (msg_buffer_ x) (send_queue_ x) (connected_ x) (choked_ x) (connection_attempts_ x) (events_ x).
Definition set_msg_buffer (v : bytes) (x : agent) : agent :=
  mk_agent (peer_info_ x) (socket_ x) (sm_ x) (io_buffer_ x) v (send_queue_ x) (connected_ x) (choked_ x) (connection_attempts_ x) (events_ x).
Definition set_send_queue (v : list buf) (x : agent) : agent :=
  mk_agent (peer_info_ x) (socket_ x) (sm_ x) (io_buffer_ x) (msg_buffer_ x) v (connected_ x) (choked_ x) (connection_attempts_ x) (events_ x).
Definition set_connected (v : bool) (x : agent) : agent :=
  mk_agent (peer_info_ x) (socket_ x) (sm_ x) (io_buffer_ x) (msg_buffer_ x) (send_queue_ x) v (choked_ x) (connection_attempts_ x) (events_ x).
Definition set_choked (v : bool) (x : agent) : agent :=
  mk_agent (peer_info_ x) (socket_ x) (sm_ x) (io_buffer_ x) (msg_buffer_ x) (send_queue_ x) (connected_ x) v (connection_attempts_ x) (events_ x).
Definition set_connection_attempts (v : Z) (x : agent) : agent :=
  mk_agent (peer_info_ x) (socket_ x) (sm_ x) (io_buffer_ x) (msg_buffer_ x) (send_queue_ x) (connected_ x) (choked_ x) v (events_ x).
Definition set_events (v : Z) (x : agent) : agent :=
  mk_agent (peer_info_ x) (socket_ x) (sm_ x) (io_buffer_ x) (msg_buffer_ x) (send_queue_ x) (connected_ x) (choked_ x) (connection_attempts_ x) v.

(** What an agent that was never created would hold; no callback is made for one. *)
Definition no_agent : agent :=
  mk_agent (mk_peer_info [] (mk_sockaddr 0 0)) (-1) IDLE bb_new [] [] false true 0 0.

(** [include/session.hpp:38-51] session
    With the operating system. *)
Record world := mk_world {
  agents_ : gmap nat agent;
  reactor_ : net_reactor;
  timer_ : timer;
  piece_handler_ : piece_handler;
  running_ : bool;
  notified_ : bool;
  os_ : os;
}.

Definition set_agents (v : gmap nat agent) (x : world) : world :=
  mk_world v (reactor_ x) (timer_ x) (piece_handler_ x) (running_ x) (notified_ x) (os_ x).
Definition set_reactor (v : net_reactor) (x : world) : world :=
  mk_world (agents_ x) v (timer_ x) (piece_handler_ x) (running_ x) (notified_ x) (os_ x).
Definition set_timer (v : timer) (x : world) : world :=
  mk_world (agents_ x) (reactor_ x) v (piece_handler_ x) (running_ x) (notified_ x) (os_ x).
Definition set_piece_handler (v : piece_handler) (x : world) : world :=
  mk_world (agents_ x) (reactor_ x) (timer_ x) v (running_ x) (notified_ x) (os_ x).
Definition set_running (v : bool) (x : world) : world :=
  mk_world (agents_ x) (reactor_ x) (timer_ x) (piece_handler_ x) v (notified_ x) (os_ x).
Definition set_notified (v : bool) (x : world) : world :=
  mk_world (agents_ x) (reactor_ x) (timer_ x) (piece_handler_ x) (running_ x) v (os_ x).
Definition set_os (v : os) (x : world) : world :=
  mk_world (agents_ x) (reactor_ x) (timer_ x) (piece_handler_ x) (running_ x) (notified_ x) v.

Definition agent_of (c : nat) (w : world) : agent := default no_agent (agents_ w !! c).

Definition upd (c : nat) (f : agent -> agent) (w : world) : world :=
  set_agents (<[c := f (agent_of c w)]> (agents_ w)) w.

#[export] Instance world_reactor : ReactorWorld world := {|
  rw_reactor := reactor_;
  rw_set_reactor := set_reactor;
  rw_os := os_;
  rw_set_os := set_os;
  rw_fd c w := socket_ (agent_of c w);
  rw_get_events c w := events_ (agent_of c w);
  rw_set_events c e w := upd c (set_events e) w;
|}.

#[export] Instance world_timer : TimerWorld world := {| tw_get := timer_; tw_set := set_timer |}.

Lemma agent_of_upd c d f w : agent_of d (upd c f w) = if decide (c = d) then f (agent_of c w) else agent_of d w.
Proof. unfold agent_of at 1, upd. simpl. rewrite lookup_insert. by case_decide. Qed.

#[export] Instance world_reactor_laws : ReactorWorldLaws world world_reactor.
Proof.
  split; simpl; try done; intros c d e w; rewrite agent_of_upd; case_decide; subst; done.
Qed.
End World.

Section Agent.
Context {BB : ByteBuffer} {PE : PastEnd} {Os : OS} {FS : FileSystem} {SHA : Sha1} {SO : SetOrder}.
Variable ti : torrent_info.
(** [session_.peer_id()] *)
Variable local_peer_id : bytes.
Implicit Types w : world.

(** [include/inet_reactor_client.hpp:20] and [src/net_reactor.cpp:54-97]: the result of
    [reg] and [unreg] is ignored. *)
Definition reg (c : nat) (events : Z) (w : world) : world := (net_reactor_reg c events w).2.
Definition unreg (c : nat) (events : Z) (w : world) : world := (net_reactor_unreg c events w).2.

Definition push_msg (c : nat) (m : buf) (w : world) : world :=
  upd c (fun a => set_send_queue (send_queue_ a ++ [m]) a) w.

(** [src/torrent_agent.cpp:325-332] get_msg_len
    [buffer[0] + 49], or the big-endian length prefix and its own four bytes, which
    the source adds in 32 bits. *)
Definition get_msg_len (buffer : bytes) (handshake_received : bool) : Z :=
  if negb handshake_received then byte_at buffer 0 + 49
  else u32 (unbe (span buffer 0 4) + 4).

(** [src/torrent_agent.cpp:349-356] chop *)
Definition chop (buffer : bytes) (slice_len : Z) : buf * bytes :=
  (bb_write bb_new (span buffer 0 (Z.to_nat slice_len)), drop (Z.to_nat slice_len) buffer).

(** [src/torrent_agent.cpp:334-347] set_peer_id_and_validate_handshake *)
Definition set_peer_id_and_validate_handshake (msg : buf) (info : peer_info) : bool * peer_info :=
  let proto_str_len := u8 (bb_peek_8 msg 0) in
  let proto_str := span (bb_readable msg) 1 (Z.to_nat proto_str_len) in
  let peer_id := span (bb_readable msg) 48 20 in
  let info := if bool_decide (peer_id_ info <> []) then mk_peer_info peer_id (endpoint_ info) else info in
  ((bb_available msg =? proto_str_len + 49) && bool_decide (proto_str = V1), info).

(** [src/torrent_agent.cpp:299] MAX_BURST *)
Definition MAX_BURST : nat := 15.

(** [src/torrent_agent.cpp:301-314] torrent_agent::request_pieces
    [n] is what is left of the burst, [send_count] the requests made. *)
Fixpoint request_loop (n : nat) (c : nat) (send_count : nat) (w : world) : nat * world :=
  match n with
  | O => (send_count, w)
  | S n' =>
      let '((ok, r), ph) := get_piece_request ti (peer_id_ (peer_info_ (agent_of c w))) (piece_handler_ w) in
      let w := set_piece_handler ph w in
      if negb ok then (send_count, w)
      else request_loop n' c (S send_count) (push_msg c (msg_factory_new_request r) w)
  end.

(** [src/torrent_agent.cpp:295-321] torrent_agent::request_pieces *)
Definition request_pieces (c : nat) (w : world) : world :=
  if negb (choked_ (agent_of c w)) then
    let '(send_count, w) := request_loop MAX_BURST c 0 w in
    if (0 <? send_count)%nat then reg c EPOLLOUT w else w
  else w.

(** [src/torrent_agent.cpp:137-147] torrent_agent::handshake *)
Definition agent_handshake (c : nat) (w : world) : world :=
  reg c EPOLLOUT (push_msg c (msg_factory_new_handshake local_peer_id (to_hex (ti_info_hash ti))) w).

(** [src/torrent_agent.cpp:149-154] torrent_agent::interested *)
Definition agent_interested (c : nat) (w : world) : world :=
  reg c EPOLLOUT (push_msg c msg_factory_new_interested w).

(** [src/torrent_agent.cpp:156-159] torrent_agent::choked *)
Definition agent_choked (c : nat) (w : world) : world := upd c (set_choked true) w.

(** [src/torrent_agent.cpp:161-165] torrent_agent::unchoked *)
Definition agent_unchoked (c : nat) (w : world) : world := request_pieces c (upd c (set_choked false) w).

(** [src/torrent_agent.cpp:176-177] TIME_TO_RECONNECT_MS
    The delay doubles with every attempt after the first. *)
Definition reconnect_ms (attempts : Z) : f32 := f32_of_Z (5000 * 2 ^ Z.max 0 (attempts - 1)).

(** [src/torrent_agent.cpp:167-178] torrent_agent::disconnected *)
Definition agent_disconnected (c : nat) (w : world) : world :=
  let w := unreg c 0 w in
  let '(fd, s) := tcp_socket_close (socket_ (agent_of c w)) (os_ w) in
  let w := set_os s (upd c (fun a => set_connected false (set_socket fd a)) w) in
  set_timer (timer_reg c (reconnect_ms (connection_attempts_ (agent_of c w))) (timer_ w)) w.

(** The client of the state machine before [connect] is known: [connect] calls the
    machine with CONNECTED only, which does not call [connect]. *)
Definition inner_client (c : nat) : ism_client world := {|
  sm_get w := sm_ (agent_of c w);
  sm_set st w := upd c (set_sm st) w;
  ism_connect w := Ok w;
  ism_handshake w := Ok (agent_handshake c w);
  ism_interested w := Ok (agent_interested c w);
  ism_choked w := Ok (agent_choked c w);
  ism_unchoked w := Ok (agent_unchoked c w);
  ism_disconnected w := Ok (agent_disconnected c w);
|}.

(** [src/torrent_agent.cpp:123-135] torrent_agent::connect *)
Definition agent_connect (c : nat) (w : world) : result world :=
  let a := agent_of c w in
  let '(ok, s) := tcp_socket_connect (socket_ a) (endpoint_ (peer_info_ a)) (os_ w) in
  let w := set_os s (upd c (fun a => set_connection_attempts (connection_attempts_ a + 1) (set_connected ok a)) w) in
  if ok then session_sm_on_event (inner_client c) EV_CONNECTED w
  else Ok (reg c EPOLLOUT w).

(** [include/torrent_agent.hpp:40-46] torrent_agent *)
#[export] Instance agent_client (c : nat) : ism_client world := {|
  sm_get w := sm_ (agent_of c w);
  sm_set st w := upd c (set_sm st) w;
  ism_connect := agent_connect c;
  ism_handshake w := Ok (agent_handshake c w);
  ism_interested w := Ok (agent_interested c w);
  ism_choked w := Ok (agent_choked c w);
  ism_unchoked w := Ok (agent_unchoked c w);
  ism_disconnected w := Ok (agent_disconnected c w);
|}.

Definition on_event (c : nat) (ev : session_event) (w : world) : result world :=
  session_sm_on_event (agent_client c) ev w.

(** [src/torrent_agent.cpp:118-121] torrent_agent::start *)
Definition agent_start (c : nat) (w : world) : result world := on_event c EV_START w.

(** [src/session.cpp:70-74] session::stop *)
Definition session_stop (w : world) : world := set_notified true (set_running false w).

(** [src/torrent_agent.cpp:279-282] torrent_agent::handle_msg
    A PIECE message: the piece handler stops the session when the download is complete. *)
Definition handle_piece (c : nat) (payload : buf) (w : world) : result world :=
  '(ph, stop) ← received ti payload (piece_handler_ w);
  let w := set_piece_handler ph w in
  Ok (request_pieces c (if stop : bool then session_stop w else w)).

(** [src/torrent_agent.cpp:249-293] torrent_agent::handle_msg *)
Definition handle_msg (c : nat) (msg : message) (w : world) : result world :=
  match id_ msg with
  | CHOKE => on_event c EV_CHOKE w
  | UNCHOKE => on_event c EV_UNCHOKE w
  | BITFIELD =>
      ph ← have_bitfield ti (peer_id_ (peer_info_ (agent_of c w))) (payload_ msg) (piece_handler_ w);
      Ok (set_piece_handler ph w)
  | PIECE => handle_piece c (payload_ msg) w
  | KEEP_ALIVE | INTERESTED | NOT_INTERESTED | HAVE | REQUEST | CANCEL | PORT | Other _ => Ok w
  end.

(** [src/torrent_agent.cpp:213-225] torrent_agent::on_read
    One message, already cut off the front of the buffer. *)
Definition on_message (c : nat) (slice : buf) (w : world) : result world :=
  if negb (handshake_received (sm_ (agent_of c w))) then
    let '(valid, info) := set_peer_id_and_validate_handshake slice (peer_info_ (agent_of c w)) in
    let w := upd c (set_peer_info info) w in
    if valid then on_event c EV_HANDSHAKE w else Ok w
  else handle_msg c (make_message slice) w.

(** [src/torrent_agent.cpp:209-228] torrent_agent::on_read *)
Fixpoint on_read_loop (fuel : nat) (c : nat) (w : world) : result world :=
  let buffer := msg_buffer_ (agent_of c w) in
  let msg_len := get_msg_len buffer (handshake_received (sm_ (agent_of c w))) in
  if (4 <=? Z.of_nat (length buffer)) && (msg_len <=? Z.of_nat (length buffer)) then
    match fuel with
    | O => Fault OutOfFuel
    | S fuel' =>
        let '(slice, rest) := chop buffer msg_len in
        w ← on_message c slice (upd c (set_msg_buffer rest) w);
        on_read_loop fuel' c w
    end
  else Ok w.

(** [src/torrent_agent.cpp:204-229] torrent_agent::on_read
    Every message that is not empty shortens the buffer. *)
Definition on_read (c : nat) (data : bytes) (w : world) : result world :=
  let w := upd c (fun a => set_msg_buffer (msg_buffer_ a ++ data) a) w in
  on_read_loop (length (msg_buffer_ (agent_of c w))) c w.

(** [src/torrent_agent.cpp:55-77] torrent_agent::read *)
Definition agent_read (c : nat) (w : world) : result world :=
  let a := agent_of c w in
  let '(res, io, s) := tcp_socket_read (socket_ a) (bb_reset (io_buffer_ a)) (os_ w) in
  let w := set_os s (upd c (set_io_buffer io) w) in
  w ← (if res =? 0 then on_event c EV_DISCONNECTED w else Ok w);
  let io := io_buffer_ (agent_of c w) in
  if 0 <? bb_available io then on_read c (bb_readable io) w else Ok w.

(** [src/torrent_agent.cpp:231-247] torrent_agent::send
    Every successful write takes at least one byte. *)
Fixpoint send_loop (fuel : nat) (fd : Z) (buffer : buf) (s : os) : result (bool * buf * os) :=
  if 0 <? bb_available buffer then
    match fuel with
    | O => Fault OutOfFuel
    | S fuel' =>
        let '(res, buffer, s) := tcp_socket_write fd buffer s in
        if res <? 0 then Ok (false, buffer, s) else send_loop fuel' fd buffer s
    end
  else Ok (true, buffer, s).

(** [src/torrent_agent.cpp:231-247] torrent_agent::send *)
Definition send (fd : Z) (buffer : buf) (s : os) : result (bool * buf * os) :=
  send_loop (length (bb_readable buffer)) fd buffer s.

(** [src/torrent_agent.cpp:102-113] torrent_agent::write
    [queue] is the send queue.  The message is popped whether or not it was sent. *)
Fixpoint write_queue (c : nat) (queue : list buf) (w : world) : result world :=
  match queue with
  | [] => Ok (unreg c EPOLLOUT w)
  | msg :: queue' =>
      '(success, _, s) ← send (socket_ (agent_of c w)) msg (os_ w);
      let w := set_os s (upd c (set_send_queue queue') w) in
      if success : bool then write_queue c queue' w else Ok w
  end.

(** [src/torrent_agent.cpp:79-116] torrent_agent::write *)
Definition agent_write (c : nat) (w : world) : result world :=
  let a := agent_of c w in
  if negb (connected_ a) then
    let '(error, s) := tcp_socket_getsockopt (socket_ a) (os_ w) in
    let w := set_os s w in
    match error with
    | None => Ok w
    | Some error =>
        let w := upd c (set_connected (error =? 0)) w in
        if error =? 0 then on_event c EV_CONNECTED (unreg c EPOLLOUT w)
        else Ok (agent_disconnected c w)
    end
  else write_queue c (send_queue_ a) w.

(** [src/torrent_agent.cpp:180-194] torrent_agent::on_timeout *)
Definition agent_on_timeout (c : nat) (w : world) : result world :=
  let w := set_timer (timer_unreg c (timer_ w)) w in
  let w := upd c (set_send_queue []) w in
  '(fd, s) ← tcp_socket_reset (socket_ (agent_of c w)) (os_ w);
  let w := set_os s (upd c (set_socket fd) w) in
  let w := set_os (tcp_socket_set_blocking fd false (os_ w)).2 w in
  agent_start c (reg c EPOLLIN w).

(** [src/torrent_agent.cpp:196-202] torrent_agent::execute *)
Definition agent_execute (c : nat) (w : world) : world :=
  if connected_ (agent_of c w) && negb (choked_ (agent_of c w)) then request_pieces c w else w.

(** [src/torrent_agent.cpp:27-48] torrent_agent::torrent_agent *)
Definition torrent_agent_create (c : nat) (info : peer_info) (w : world) : result world :=
  '(fd, s) ← tcp_socket_create (os_ w);
  let a := mk_agent info fd IDLE (bb_sized (Z.shiftl 1 15)) [] [] false true 0 0 in
  let w := set_os s (upd c (fun _ => a) w) in
  let w := set_os (tcp_socket_set_blocking fd false (os_ w)).2 w in
  agent_start c (reg c EPOLLIN w).

(** [src/torrent_agent.cpp:50-53] torrent_agent::~torrent_agent *)
Definition torrent_agent_destroy (c : nat) (w : world) : world := unreg c 0 w.

(** [include/torrent_agent.hpp:36-37] torrent_agent *)
#[export] Instance agent_reactor_client : inet_reactor_client world := {|
  irc_read := agent_read;
  irc_write := agent_write;
|}.
End Agent.
