(* ===== verification/Samples.v ===== *)
(** * A small torrent

    Concrete instances of the interfaces, a torrent of five bytes in two files and an
    agent with one connection, on which the properties are evaluated. *)

From S2P Require Import Prelude ByteBuffer Messages SessionSm Sockets Net Timer NetReactor.
From S2P Require Import Storage Files PieceHandler Agent.

Module Sample.
Import ListBuffer.

#[export] Instance every_path : FileSystem := fun _ => true.

(** A stand-in for the hash function; the properties hold for every function. *)
#[export] Instance identity_hash : Sha1 := fun l => l.

#[export] Instance element_order : SetOrder := elements.

#[export] Instance element_order_law : SetOrderLaw element_order.
Proof. by intros s. Qed.

Definition the_data : bytes := [104; 101; 108; 108; 111].

Definition file_a : file_entry := mk_file_entry (bytes_of_string "t/a") (bytes_of_string "a") 0 2.
Definition file_b : file_entry := mk_file_entry (bytes_of_string "t/b") (bytes_of_string "b") 2 3.

Definition torrent : torrent_info :=
  mk_torrent_info BLOCK_LEN 1 5 [file_a; file_b] (fun _ => the_data) [] [].

Lemma torrent_is_ok : torrent_ok torrent.
Proof. split; simpl; try lia; [done|]. by vm_compute. Qed.

Lemma files_open f : f ∈ ti_files torrent -> fs_can_open (fe_path f) = true.
Proof. done. Qed.

Lemma index_ok : piece_index_ok torrent 0.
Proof. unfold piece_index_ok. simpl. lia. Qed.

(** The handler of the torrent on an empty disk. *)
Definition created : list bytes * piece_handler :=
  ok_or ([], mk_piece_handler ∅ ∅ ∅ ∅ 0 ∅)
    (piece_handler_create (BB := ListBuffer.list_buffer) torrent ∅).

Lemma created_ok : piece_handler_create torrent ∅ = Ok (created.1, created.2).
Proof. rewrite <- surjective_pairing. apply is_ok_or. by vm_compute. Qed.

(** A PIECE payload: index, begin and the bytes. *)
Definition delivery (d : bytes) : ListBuffer.t := ListBuffer.mk (be 4 0 ++ be 4 0 ++ d) 0.

(** The handler after it has received a block. *)
Definition after (d : bytes) : piece_handler * bool :=
  ok_or (created.2, false) (received torrent (delivery d) created.2).

Lemma genuine_received : received torrent (delivery the_data) created.2 = Ok ((after the_data).1, true).
Proof. apply is_ok_pair; by vm_compute. Qed.

(** A block of the right length with wrong bytes. *)
Definition wrong_data : bytes := [106; 101; 108; 108; 121].

Lemma wrong_received : received torrent (delivery wrong_data) created.2 = Ok ((after wrong_data).1, false).
Proof. apply is_ok_pair; by vm_compute. Qed.

(** ** A system *)

(** An operating system whose state is the list of everything written; [read] and
    [so_error] always give the same answer and a write takes at most [accepts] bytes,
    or fails if that is negative. *)
Definition scripted_os (read : option bytes) (error : option Z) (accepts : Z) : OS := {|
  os := list bytes;
  sys_socket s := (3, s);
  sys_close _ s := s;
  sys_set_nonblock _ _ s := (true, s);
  sys_bind _ _ s := (0, s);
  sys_connect _ _ s := (-1, s);
  sys_so_error _ s := (error, s);
  sys_read _ n s := (match read with Some l => Some (take (Z.to_nat n) l) | None => None end, s);
  sys_write _ l s :=
    if accepts <? 0 then (-1, s)
    else (Z.min accepts (Z.of_nat (length l)), s ++ [take (Z.to_nat accepts) l]);
  sys_epoll_add _ _ s := (0, s);
  sys_epoll_mod _ _ s := (0, s);
  sys_epoll_del _ s := s;
  sys_epoll_wait _ _ s := (Some [], s);
  sys_now s := (0, s);
|}.

Lemma scripted_os_laws l error accepts : bytes_ok l -> accepts <> 0 ->
  OSLaws (scripted_os (Some l) error accepts).
Proof.
  intros Hl Ha. split; cbn.
  - intros _ n _ l' Hn [= <-]. rewrite length_take. split; [lia|by apply Forall_take].
  - intros _ l' s. destruct (Z.ltb_spec accepts 0); simpl; lia.
  - intros _ l' s Hne. destruct (Z.ltb_spec accepts 0); simpl; [lia|]. destruct l'; simpl in *; [done|lia].
Qed.

Section Agents.
Context {Os : OS}.

(** A peer that has announced the one piece of the torrent. *)
Definition peer : bytes := bytes_of_string "peer".

Definition announced_pieces : piece_handler := have torrent peer 0 created.2.

(** Agent 0 on descriptor 3, registered with the reactor. *)
Definition the_agent (state : sm_state) (connected choked : bool) (queue : list t) (buffer : bytes) : agent :=
  mk_agent (mk_peer_info peer (mk_sockaddr 1 6881)) 3 state (mk [] 64) buffer queue connected choked 1 1.

Definition the_world (a : agent) (s : os) : world :=
  mk_world {[0%nat := a]} (mk_net_reactor 9 100 {[3 := 0%nat]}) timer_init announced_pieces true false s.
End Agents.
End Sample.
