(* ===== verification/PieceRequests.v ===== *)
(** * Which blocks the piece handler asks for

    The request side of [piece_handler]: [have], [rebuild_queue] and
    [get_piece_request].  States that differ only in default entries of the hash
    maps are equivalent ([≡]); every operation is described up to that equivalence
    by what it does to the queue of one peer. *)

From S2P Require Import Prelude ByteBuffer Messages Storage Files PieceHandler Agent Samples.

Section Equivalence.
Context {BB : ByteBuffer}.
Implicit Types ph : piece_handler.

(** The same contents, whichever default entries are in the maps. *)
#[export] Instance ph_equiv : Equiv piece_handler := fun a b =>
  (forall p, have_set a p = have_set b p) /\ (forall p, queue a p = queue b p) /\
  (forall k, block_at a k = block_at b k) /\ file_handlers_ a = file_handlers_ b /\
  written_pieces_ a = written_pieces_ b /\ disk_ a = disk_ b.

#[export] Instance ph_equivalence : Equivalence (≡@{piece_handler}).
Proof.
  split.
  - intros a. by split_and!.
  - intros a b (H1 & H2 & H3 & H4 & H5 & H6). by split_and!.
  - intros a b c (H1 & H2 & H3 & H4 & H5 & H6) (G1 & G2 & G3 & G4 & G5 & G6).
    split_and!; try congruence; intros; by rewrite ?H1, ?H2, ?H3.
Qed.

#[export] Instance have_set_proper : Proper ((≡) ==> (=) ==> (=)) have_set.
Proof. intros a b (H & _) p _ <-. apply H. Qed.
#[export] Instance queue_proper : Proper ((≡) ==> (=) ==> (=)) queue.
Proof. intros a b (_ & H & _) p _ <-. apply H. Qed.
#[export] Instance block_at_proper : Proper ((≡) ==> (=) ==> (=)) block_at.
Proof. intros a b (_ & _ & H & _) k _ <-. apply H. Qed.
#[export] Instance received_at_proper : Proper ((≡) ==> (=) ==> (=)) received_at.
Proof. intros a b H k _ <-. unfold received_at. by rewrite H. Qed.
#[export] Instance written_proper : Proper ((≡) ==> (=)) written_pieces_.
Proof. intros a b H. apply H. Qed.
#[export] Instance file_handlers_proper : Proper ((≡) ==> (=)) file_handlers_.
Proof. intros a b H. apply H. Qed.
#[export] Instance disk_proper : Proper ((≡) ==> (=)) disk_.
Proof. intros a b H. apply H. Qed.

Lemma have_set_set p p' s ph :
  have_set (set_have_set p s ph) p' = if decide (p = p') then s else have_set ph p'.
Proof. unfold have_set, set_have_set. simpl. rewrite lookup_insert. by case_decide. Qed.
Lemma queue_set p p' q ph : queue (set_queue p q ph) p' = if decide (p = p') then q else queue ph p'.
Proof. unfold queue, set_queue. simpl. rewrite lookup_insert. by case_decide. Qed.
Lemma block_at_set k k' b ph : block_at (set_block k b ph) k' = if decide (k = k') then b else block_at ph k'.
Proof. unfold block_at, set_block. simpl. rewrite lookup_insert. by case_decide. Qed.

#[export] Instance set_have_set_proper : Proper ((=) ==> (=) ==> (≡) ==> (≡)) set_have_set.
Proof.
  intros k _ <- v _ <- a b (H1 & H2 & H3 & H4 & H5 & H6). split_and!; try done.
  intros p'. rewrite !have_set_set. by rewrite H1.
Qed.
#[export] Instance set_queue_proper : Proper ((=) ==> (=) ==> (≡) ==> (≡)) set_queue.
Proof.
  intros k _ <- v _ <- a b (H1 & H2 & H3 & H4 & H5 & H6). split_and!; try done.
  intros p'. rewrite !queue_set. by rewrite H2.
Qed.
#[export] Instance set_block_proper : Proper ((=) ==> (=) ==> (≡) ==> (≡)) set_block.
Proof.
  intros k _ <- v _ <- a b (H1 & H2 & H3 & H4 & H5 & H6). split_and!; try done.
  intros p'. rewrite !block_at_set. by rewrite H3.
Qed.

(** Setting what is already there, as [operator[]] does. *)
Lemma set_have_set_id p s ph : have_set ph p = s -> set_have_set p s ph ≡ ph.
Proof. intros <-. split_and!; try done. intros p'. rewrite have_set_set. by case_decide; subst. Qed.
Lemma set_queue_id p q ph : queue ph p = q -> set_queue p q ph ≡ ph.
Proof. intros <-. split_and!; try done. intros p'. rewrite queue_set. by case_decide; subst. Qed.
Lemma set_block_id k b ph : block_at ph k = b -> set_block k b ph ≡ ph.
Proof. intros <-. split_and!; try done. intros k'. rewrite block_at_set. by case_decide; subst. Qed.

Lemma touch_have_equiv p ph : touch_have p ph ≡ ph.
Proof. by apply set_have_set_id. Qed.
Lemma touch_queue_equiv p ph : touch_queue p ph ≡ ph.
Proof. by apply set_queue_id. Qed.
Lemma touch_block_equiv k ph : touch_block k ph ≡ ph.
Proof. by apply set_block_id. Qed.

Lemma have_set_touch p p' ph : have_set (touch_have p ph) p' = have_set ph p'.
Proof. by rewrite touch_have_equiv. Qed.
Lemma queue_touch p p' ph : queue (touch_queue p ph) p' = queue ph p'.
Proof. by rewrite touch_queue_equiv. Qed.
Lemma block_at_touch k k' ph : block_at (touch_block k ph) k' = block_at ph k'.
Proof. by rewrite touch_block_equiv. Qed.
Lemma received_at_touch k k' ph : received_at (touch_block k ph) k' = received_at ph k'.
Proof. by rewrite touch_block_equiv. Qed.

Lemma set_queue_twice p q q' ph : set_queue p q (set_queue p q' ph) ≡ set_queue p q ph.
Proof. split_and!; try done. intros p'. rewrite !queue_set. by case_decide. Qed.

Lemma queue_set_same p q ph : queue (set_queue p q ph) p = q.
Proof. rewrite queue_set. by rewrite decide_True. Qed.

Lemma received_at_set_queue p q ph k : received_at (set_queue p q ph) k = received_at ph k.
Proof. done. Qed.
End Equivalence.

Create Rewrite HintDb views.
#[export] Hint Rewrite @have_set_set @queue_set @block_at_set @queue_set_same : views.

(** ** The blocks of a piece *)

(** The arithmetic of [blocks_per_piece]: the number of blocks covers the piece and
    one block less does not. *)
Lemma blocks_per_piece_bounds ps : 0 < ps ->
  0 < blocks_per_piece ps /\
  (blocks_per_piece ps - 1) * BLOCK_LEN < ps <= blocks_per_piece ps * BLOCK_LEN.
Proof.
  intros H. unfold blocks_per_piece.
  assert (BLOCK_LEN = 16384) as -> by done.
  pose proof (Z.div_mod (- ps) 16384 ltac:(lia)). pose proof (Z.mod_pos_bound (- ps) 16384 ltac:(lia)). lia.
Qed.

(** Block [k] of a piece of [ps] bytes starts at [k * 2^14] and runs to the next block
    or to the end of the piece. *)
Lemma block_request_fields index ps k :
  0 < ps < 2 ^ 31 -> 0 <= k < blocks_per_piece ps ->
  let r := block_request index ps k in
  index_ r = index /\ begin_ r = k * BLOCK_LEN /\
  length_ r = Z.min BLOCK_LEN (ps - k * BLOCK_LEN) /\ 0 < length_ r /\ begin_ r + length_ r <= ps.
Proof.
  intros Hps Hk r. subst r. pose proof (blocks_per_piece_bounds ps ltac:(lia)) as [Hb0 Hb].
  unfold block_request, block_len. simpl.
  assert (BLOCK_LEN = 16384) as HB by done. rewrite HB in *.
  rewrite (u32_small (k * 16384)) by lia.
  rewrite Z.rem_mod_nonneg by lia.
  pose proof (Z.div_mod ps 16384 ltac:(lia)). pose proof (Z.mod_pos_bound ps 16384 ltac:(lia)).
  destruct (Z.ltb_spec k (blocks_per_piece ps - 1)); simpl.
  - rewrite u32_small by lia. lia.
  - assert (k = blocks_per_piece ps - 1) as -> by lia.
    destruct (Z.eqb_spec (ps mod 16384) 0) as [E|E].
    + rewrite u32_small by lia. lia.
    + rewrite u32_small by lia. lia.
Qed.

Lemma elem_of_block_inds k ps : k ∈ block_inds (blocks_per_piece ps) <-> 0 <= k < blocks_per_piece ps.
Proof. unfold block_inds. rewrite elem_of_seqZ. lia. Qed.

(** ** What the operations do to a queue *)
Section Requests.
Context {BB : ByteBuffer} {SO : SetOrder}.
Variable ti : torrent_info.
Implicit Types ph : piece_handler.

(** The size the handler uses for a piece index of 32 bits. *)
Definition size_of (index : Z) : Z := piece_size ti (i32 index).

(** The requests for the blocks of a piece that have not been received. *)
Definition missing ph (index : Z) : list request :=
  map (block_request index (size_of index))
    (filter (fun k => received_at ph (block_key index k) = false)
       (block_inds (blocks_per_piece (size_of index)))).

#[export] Instance missing_proper : Proper ((≡) ==> (=) ==> (=)) missing.
Proof.
  intros a b H i _ <-. unfold missing. f_equal. apply list_filter_iff. intros k. by rewrite H.
Qed.

Lemma add_block_equiv peer index ps ph k :
  add_block peer index ps ph k ≡
  if received_at ph (block_key index k) then ph
  else set_queue peer (queue ph peer ++ [block_request index ps k]) ph.
Proof.
  unfold add_block. rewrite received_at_touch.
  destruct (received_at ph (block_key index k)); [apply touch_block_equiv|].
  by rewrite !touch_block_equiv.
Qed.

Lemma add_blocks_equiv peer index ps inds : forall ph,
  foldl (add_block peer index ps) ph inds ≡
  set_queue peer (queue ph peer ++
    map (block_request index ps) (filter (fun k => received_at ph (block_key index k) = false) inds)) ph.
Proof.
  induction inds as [|k inds IH]; intros ph; simpl.
  { symmetry. apply set_queue_id. by rewrite app_nil_r. }
  rewrite IH. rewrite filter_cons.
  assert (filter (fun k' => received_at (add_block peer index ps ph k) (block_key index k') = false) inds =
          filter (fun k' => received_at ph (block_key index k') = false) inds) as ->.
  { apply list_filter_iff. intros k'. rewrite add_block_equiv.
    by destruct (received_at ph (block_key index k)). }
  rewrite (add_block_equiv peer index ps ph k).
  destruct (received_at ph (block_key index k)) eqn:E.
  - by rewrite decide_False.
  - rewrite decide_True, queue_set_same, set_queue_twice, <- app_assoc by done. done.
Qed.

(** [add_to_queue] appends the missing blocks of the piece, in order. *)
Lemma add_to_queue_equiv peer index ph :
  add_to_queue ti peer index ph ≡ set_queue peer (queue ph peer ++ missing ph index) ph.
Proof.
  unfold add_to_queue. rewrite add_blocks_equiv.
  fold (size_of index). fold (missing (touch_queue peer ph) index).
  by rewrite !touch_queue_equiv.
Qed.

(** [have] records the piece and appends its missing blocks, the first time. *)
Lemma have_equiv peer index ph :
  have ti peer index ph ≡
  if decide (index ∈ have_set ph peer) then ph
  else set_queue peer (queue ph peer ++ missing ph index)
         (set_have_set peer ({[index]} ∪ have_set ph peer) ph).
Proof.
  unfold have. rewrite have_set_touch. case_decide.
  - rewrite bool_decide_true by done. apply touch_have_equiv.
  - rewrite bool_decide_false by done. rewrite add_to_queue_equiv.
    by rewrite !touch_have_equiv.
Qed.

Definition missing_in ph (l : list Z) : list request := concat (map (missing ph) l).

#[export] Instance missing_in_proper : Proper ((≡) ==> (=) ==> (=)) missing_in.
Proof. intros a b H l _ <-. unfold missing_in. f_equal. apply map_ext. intros i. by rewrite H. Qed.

(** The missing blocks of all pieces the peer has. *)
Definition all_missing ph (peer : bytes) : list request :=
  missing_in ph (iter_order (have_set ph peer)).

#[export] Instance all_missing_proper : Proper ((≡) ==> (=) ==> (=)) all_missing.
Proof. intros a b H p _ <-. unfold all_missing. by rewrite H. Qed.

Lemma rebuild_loop_equiv peer l : forall ph,
  foldl (fun ph i => add_to_queue ti peer i ph) ph l ≡
  set_queue peer (queue ph peer ++ missing_in ph l) ph.
Proof.
  induction l as [|i l IH]; intros ph; simpl.
  { symmetry. apply set_queue_id. unfold missing_in. by rewrite app_nil_r. }
  rewrite IH, (add_to_queue_equiv peer i ph), queue_set_same, set_queue_twice, <- app_assoc.
  done.
Qed.

(** [rebuild_queue] appends the missing blocks of every piece the peer has. *)
Lemma rebuild_queue_equiv peer ph :
  (rebuild_queue ti peer ph).2 ≡ set_queue peer (queue ph peer ++ all_missing ph peer) ph /\
  (rebuild_queue ti peer ph).1 = negb (bool_decide (queue ph peer ++ all_missing ph peer = [])).
Proof.
  unfold rebuild_queue. set (ph2 := foldl _ _ _).
  assert (ph2 ≡ set_queue peer (queue ph peer ++ all_missing ph peer) ph) as H.
  { unfold ph2. rewrite rebuild_loop_equiv, have_set_touch, touch_have_equiv. done. }
  cbn [fst snd]. split; [done|].
  by rewrite (queue_proper _ _ H _ _ eq_refl), queue_set_same.
Qed.

(** The queue without the requests at its front whose block has arrived. *)
Fixpoint drop_received ph (q : list request) : list request :=
  match q with
  | [] => []
  | r :: q' => if received_at ph (index_ r, begin_ r) then drop_received ph q' else q
  end.

Lemma drop_received_ext a b q : (forall k, received_at a k = received_at b k) ->
  drop_received a q = drop_received b q.
Proof. intros H. induction q as [|r q IH]; simpl; [done|]. by rewrite H, IH. Qed.

#[export] Instance drop_received_proper : Proper ((≡) ==> (=) ==> (=)) drop_received.
Proof. intros a b H q _ <-. apply drop_received_ext. intros k. by rewrite H. Qed.

Lemma drop_received_suffix ph q : exists l, q = l ++ drop_received ph q /\
  Forall (fun r => received_at ph (index_ r, begin_ r) = true) l.
Proof.
  induction q as [|r q (l & Hq & Hl)]; simpl; [by exists []|].
  destruct (received_at ph (index_ r, begin_ r)) eqn:E.
  - exists (r :: l). split; [by rewrite Hq at 1|]. by constructor.
  - by exists [].
Qed.

Lemma pop_requests_spec q : forall r ph,
  let '(b, r', q', ph') := pop_requests r q ph in
  ph' ≡ ph /\
  match drop_received ph (r :: q) with
  | [] => b = true /\ q' = []
  | r0 :: q0 => b = false /\ r' = r0 /\ q' = q0
  end.
Proof.
  induction q as [|r1 q IH]; intros r ph; cbn [pop_requests];
    pose proof (touch_block_equiv (index_ r, begin_ r) ph) as Ht;
    rewrite received_at_touch; cbn [drop_received].
  - by destruct (received_at ph (index_ r, begin_ r)).
  - destruct (received_at ph (index_ r, begin_ r)); [|done].
    specialize (IH r1 (touch_block (index_ r, begin_ r) ph)).
    destruct (pop_requests r1 q (touch_block (index_ r, begin_ r) ph)) as [[[b r'] q'] ph'].
    destruct IH as [-> IH]. split; [done|].
    by rewrite (drop_received_proper _ _ Ht _ _ eq_refl) in IH.
Qed.

(** The queue [get_piece_request] takes a request from: the peer's queue or, when it
    is empty, the missing blocks of all its pieces. *)
Definition pending ph (peer : bytes) : list request :=
  match queue ph peer with [] => all_missing ph peer | q => q end.

(** [get_piece_request] returns the first pending request whose block has not
    arrived and leaves those after it in the queue; if there is none it fails and
    leaves the queue empty. *)
Lemma get_piece_request_spec peer ph :
  let '((ok, r), ph') := get_piece_request ti peer ph in
  match drop_received ph (pending ph peer) with
  | [] => ok = false /\ ph' ≡ set_queue peer [] ph
  | r0 :: q0 => ok = true /\ r = r0 /\ ph' ≡ set_queue peer q0 ph
  end.
Proof.
  unfold get_piece_request.
  pose proof (touch_queue_equiv peer ph) as Ht. set (ph1 := touch_queue peer ph) in *.
  rewrite (queue_proper _ _ Ht _ _ eq_refl).
  assert (exists some ph2,
    (if bool_decide (queue ph peer = []) then rebuild_queue ti peer ph1 else (true, ph1)) = (some, ph2) /\
    ph2 ≡ set_queue peer (pending ph peer) ph /\ some = negb (bool_decide (pending ph peer = [])))
    as (some & ph2 & -> & H2 & ->).
  { unfold pending. destruct (queue ph peer) as [|r q] eqn:Eq; simpl.
    - destruct (rebuild_queue_equiv peer ph1) as [Hr1 Hr2].
      rewrite (surjective_pairing (rebuild_queue ti peer ph1)). do 2 eexists. split; [done|].
      assert (queue ph1 peer ++ all_missing ph1 peer = all_missing ph peer) as Hm.
      { by rewrite Ht, Eq. }
      rewrite Hm in Hr1, Hr2. split; [|done]. by rewrite Hr1, (set_queue_proper _ _ eq_refl _ _ eq_refl _ _ Ht).
    - do 2 eexists. split; [done|]. split; [|done]. rewrite Ht. symmetry. by apply set_queue_id. }
  destruct (pending ph peer) as [|r q] eqn:Ep; simpl bool_decide; cbn [negb].
  - simpl. split; [done|]. done.
  - rewrite (queue_proper _ _ H2 _ _ eq_refl), queue_set_same.
    pose proof (pop_requests_spec q r ph2) as Hp.
    destruct (pop_requests r q ph2) as [[[b r'] q'] ph3]. destruct Hp as [H3 Hp].
    assert (drop_received ph2 (r :: q) = drop_received ph (r :: q)) as Hd
      by (apply drop_received_ext; intros k; by rewrite (received_at_proper _ _ H2 _ _ eq_refl)).
    rewrite Hd in Hp.
    assert (forall q0, set_queue peer q0 ph3 ≡ set_queue peer q0 ph) as Hs.
    { intros q0. by rewrite H3, H2, set_queue_twice. }
    destruct (drop_received ph (r :: q)); destruct_and!; subst; simpl; by rewrite ?Hs.
Qed.
End Requests.

(** ** Reachable states *)
Section Reachable.
Context {BB : ByteBuffer} {FS : FileSystem} {SHA : Sha1} {SO : SetOrder}.
Variable ti : torrent_info.
Implicit Types ph : piece_handler.

(** [received] and what it calls leave the pieces and queues of the peers alone. *)
Definition same_peers ph ph' : Prop :=
  have_map_ ph' = have_map_ ph /\ request_map_ ph' = request_map_ ph.

Lemma same_peers_refl ph : same_peers ph ph.
Proof. done. Qed.

Lemma same_peers_trans a b c : same_peers a b -> same_peers b c -> same_peers a c.
Proof. unfold same_peers. intuition congruence. Qed.

Lemma collect_blocks_same_peers index inds : forall acc ph,
  same_peers ph (collect_blocks index inds acc ph).2.
Proof.
  induction inds as [|k inds IH]; intros acc ph; simpl; [done|].
  destruct (received_at _ _); [|done].
  eapply same_peers_trans; [|apply IH]. done.
Qed.

Lemma write_slice_same_peers key s ph ph' : write_slice ti key ph s = Ok ph' -> same_peers ph ph'.
Proof.
  unfold write_slice. destruct (ti_files ti !! _); [|done].
  destruct (file_handlers_ ph !! _); [|by intros [= <-]].
  destruct (file_handler_write _ _ _ _ _) as [[h d] dk]. by intros [= <-].
Qed.

Lemma write_slices_same_peers key slices : forall ph ph',
  write_slices ti key slices ph = Ok ph' -> same_peers ph ph'.
Proof.
  induction slices as [|s slices IH]; intros ph ph'; simpl; [by intros [= <-]|].
  intros (ph1 & H1 & H2)%result_bind_ok.
  eapply same_peers_trans; [by eapply write_slice_same_peers|by apply IH].
Qed.

Lemma write_blocks_same_peers index inds : forall ph ph',
  write_blocks ti index inds ph = Ok ph' -> same_peers ph ph'.
Proof.
  induction inds as [|k inds IH]; intros ph ph'; cbn [write_blocks]; [by intros [= <-]|].
  intros (sl & _ & (ph1 & H1 & H2)%result_bind_ok)%result_bind_ok.
  apply write_slices_same_peers in H1. apply IH in H2.
  eapply same_peers_trans; [|exact H2]. by eapply same_peers_trans; [|exact H1].
Qed.

Lemma write_if_valid_same_peers index ph b ph' :
  write_if_valid ti index ph = Ok (b, ph') -> same_peers ph ph'.
Proof.
  unfold write_if_valid.
  pose proof (collect_blocks_same_peers index
    (block_inds (blocks_per_piece (piece_size ti (i32 index)))) [] ph) as Hc.
  destruct (collect_blocks _ _ _ _) as [[hashed|] ph1]; simpl in Hc; [|by intros [= <- <-]].
  case_bool_decide; [|by intros [= <- <-]].
  intros (ph2 & H2 & [= <- <-])%result_bind_ok. apply write_blocks_same_peers in H2.
  eapply same_peers_trans; [exact Hc|]. by eapply same_peers_trans; [exact H2|].
Qed.

Lemma received_same_peers piece ph ph' stop :
  received ti piece ph = Ok (ph', stop) -> same_peers ph ph'.
Proof.
  unfold received. destruct (bb_read_32 piece) as [i p1], (bb_read_32 p1) as [b p2].
  destruct (received_at _ _); [by intros [= <- <-]|].
  intros ([ok ph1] & H1 & [= <- <-])%result_bind_ok. apply write_if_valid_same_peers in H1.
  by eapply same_peers_trans; [|exact H1].
Qed.

(** The calls the rest of the program makes. *)
Inductive ph_step : piece_handler -> piece_handler -> Prop :=
  | step_have peer index ph : ph_step ph (have ti peer index ph)
  | step_bitfield peer bitfield ph ph' :
      have_bitfield ti peer bitfield ph = Ok ph' -> ph_step ph ph'
  | step_request peer ph r ph' : get_piece_request ti peer ph = (r, ph') -> ph_step ph ph'
  | step_received piece ph ph' stop : received ti piece ph = Ok (ph', stop) -> ph_step ph ph'.

Inductive ph_reachable : piece_handler -> Prop :=
  | reach_init dk mkdirs ph : piece_handler_create ti dk = Ok (mkdirs, ph) -> ph_reachable ph
  | reach_step ph ph' : ph_reachable ph -> ph_step ph ph' -> ph_reachable ph'.

(** The request is for a block of a piece the peer has announced. *)
Definition requestable ph (peer : bytes) (r : request) : Prop :=
  exists i k, i ∈ have_set ph peer /\ 0 <= k < blocks_per_piece (size_of ti i) /\
    r = block_request i (size_of ti i) k.

Definition queues_ok ph : Prop := forall peer r, r ∈ queue ph peer -> requestable ph peer r.

Lemma queues_ok_equiv ph ph' : ph ≡ ph' -> queues_ok ph -> queues_ok ph'.
Proof.
  intros H Hq peer r Hr. rewrite <- (queue_proper _ _ H _ _ eq_refl) in Hr.
  destruct (Hq _ _ Hr) as (i & k & Hi & Hk). exists i, k.
  by rewrite <- (have_set_proper _ _ H _ _ eq_refl).
Qed.

Lemma queues_ok_same_peers ph ph' : same_peers ph ph' -> queues_ok ph -> queues_ok ph'.
Proof. unfold queues_ok, requestable, queue, have_set. by intros [-> ->]. Qed.

Lemma missing_requestable ph i r : r ∈ missing ti ph i ->
  exists k, 0 <= k < blocks_per_piece (size_of ti i) /\
    r = block_request i (size_of ti i) k /\ received_at ph (block_key i k) = false.
Proof.
  unfold missing. intros (k & -> & Hk)%list_elem_of_fmap.
  apply list_elem_of_filter in Hk as [Hrec Hk]. exists k.
  by rewrite <- elem_of_block_inds.
Qed.

Lemma queues_ok_have ph peer index : queues_ok ph -> queues_ok (have ti peer index ph).
Proof.
  intros Hq. eapply queues_ok_equiv; [symmetry; apply have_equiv|].
  case_decide as Hi; [done|]. intros p r Hr. unfold requestable.
  assert (forall q, have_set (set_queue peer q (set_have_set peer ({[index]} ∪ have_set ph peer) ph)) p =
    if decide (peer = p) then {[index]} ∪ have_set ph peer else have_set ph p) as Hh
    by (intros q; apply have_set_set).
  rewrite queue_set in Hr. setoid_rewrite Hh.
  destruct (decide (peer = p)) as [->|].
  - apply elem_of_app in Hr as [Hr|Hr].
    + destruct (Hq _ _ Hr) as (i & k & Hin & Hk). exists i, k. split; [set_solver|done].
    + destruct (missing_requestable _ _ _ Hr) as (k & Hk & -> & _).
      exists index, k. split; [set_solver|done].
  - exact (Hq p r Hr).
Qed.

Lemma have_byte_fold peer off byte ph :
  have_byte ti peer off byte ph =
  foldl (fun ph i => have ti peer i ph) ph
    (map (fun i => u32 (off * 8 + (8 - i - 1)))
       (filter (fun i => Z.testbit byte i = true) [7; 6; 5; 4; 3; 2; 1; 0])).
Proof.
  unfold have_byte. generalize [7; 6; 5; 4; 3; 2; 1; 0]. intros l. revert ph.
  induction l as [|i l IH]; intros ph; simpl; [done|].
  rewrite filter_cons. by destruct (Z.testbit byte i); simpl.
Qed.

Lemma queues_ok_foldl peer l : forall ph, queues_ok ph ->
  queues_ok (foldl (fun ph i => have ti peer i ph) ph l).
Proof. induction l as [|i l IH]; intros ph H; simpl; [done|]. by apply IH, queues_ok_have. Qed.

Lemma queues_ok_bitfield fuel peer : forall off bf ph ph',
  have_bitfield_loop ti fuel peer off bf ph = Ok ph' -> queues_ok ph -> queues_ok ph'.
Proof.
  induction fuel as [|fuel IH]; intros off bf ph ph'; cbn [have_bitfield_loop];
    destruct (0 <? bb_available bf); try done; try (by intros [= <-]).
  destruct (bb_read_8 bf) as [byte bf']. intros H Hq. apply IH in H; [done|].
  rewrite have_byte_fold. by apply queues_ok_foldl.
Qed.

Lemma elem_of_missing_in ph l r : r ∈ missing_in ti ph l <-> exists i, i ∈ l /\ r ∈ missing ti ph i.
Proof.
  unfold missing_in. rewrite list_elem_of_In, in_concat. split.
  - intros (x & (i & <- & Hi)%in_map_iff & Hr). exists i.
    split; by apply list_elem_of_In.
  - intros (i & Hi & Hr). exists (missing ti ph i).
    split; [|by apply list_elem_of_In]. apply in_map_iff. exists i.
    split; [done|by apply list_elem_of_In].
Qed.

Context {SOL : SetOrderLaw SO}.

Lemma elem_of_iter_order s i : i ∈ iter_order s <-> i ∈ s.
Proof. by rewrite (iter_order_elements s), elem_of_elements. Qed.

Lemma pending_requestable ph peer r : queues_ok ph ->
  r ∈ pending ti ph peer -> requestable ph peer r.
Proof.
  intros Hq. unfold pending. destruct (queue ph peer) as [|r0 q] eqn:E.
  - unfold all_missing. intros (i & Hi%elem_of_iter_order & Hr)%elem_of_missing_in.
    destruct (missing_requestable _ _ _ Hr) as (k & Hk & -> & _). by exists i, k.
  - rewrite <- E. apply Hq.
Qed.

Lemma drop_received_head ph q r q' : drop_received ph q = r :: q' ->
  received_at ph (index_ r, begin_ r) = false /\ forall x, x ∈ r :: q' -> x ∈ q.
Proof.
  induction q as [|x q IH]; simpl; [done|].
  destruct (received_at ph (index_ x, begin_ x)) eqn:E.
  - intros H. destruct (IH H) as [H1 H2]. split; [done|]. intros y Hy. right. by apply H2.
  - by intros [= <- <-].
Qed.

Lemma queues_ok_set_queue ph peer q : queues_ok ph ->
  (forall r, r ∈ q -> requestable ph peer r) -> queues_ok (set_queue peer q ph).
Proof.
  intros Hq Hr p r. rewrite queue_set. case_decide as Hp; [subst p; apply Hr|apply Hq].
Qed.

Lemma queues_ok_request ph peer r ph' :
  get_piece_request ti peer ph = (r, ph') -> queues_ok ph -> queues_ok ph'.
Proof.
  intros H Hq. pose proof (get_piece_request_spec ti peer ph) as Hs.
  rewrite H in Hs. destruct r as [ok r].
  destruct (drop_received ph (pending ti ph peer)) as [|r0 q0] eqn:E.
  - destruct Hs as [_ He]. eapply queues_ok_equiv; [symmetry; exact He|].
    apply queues_ok_set_queue; [done|]. intros x Hx. by inversion Hx.
  - destruct Hs as (_ & _ & He). eapply queues_ok_equiv; [symmetry; exact He|].
    apply queues_ok_set_queue; [done|]. intros x Hx. apply pending_requestable; [done|].
    apply (drop_received_head _ _ _ _ E). by right.
Qed.

Lemma create_queues dk mkdirs ph : piece_handler_create ti dk = Ok (mkdirs, ph) ->
  have_map_ ph = ∅ /\ request_map_ ph = ∅ /\ received_pieces_ ph = ∅ /\ written_pieces_ ph = 0.
Proof.
  unfold piece_handler_create. intros (calls & _ & H)%result_bind_ok.
  destruct (foldl _ _ _) as [fh dk']. by injection H as <- <-.
Qed.

(** Every queued request, in every reachable state, is for a block of a piece its peer announced. *)
Lemma reachable_queues_ok ph : ph_reachable ph -> queues_ok ph.
Proof.
  induction 1 as [dk mkdirs ph H|ph ph' _ IH Hstep].
  - apply create_queues in H as (_ & Hq & _). intros p r. unfold queue. rewrite Hq, lookup_empty.
    intros Hr. by inversion Hr.
  - destruct Hstep as [peer index ph|peer bf ph ph' H|peer ph r ph' H|piece ph ph' stop H].
    + by apply queues_ok_have.
    + by eapply queues_ok_bitfield.
    + by eapply queues_ok_request.
    + eapply queues_ok_same_peers; [|exact IH]. by eapply received_same_peers.
Qed.

(** A request that is handed out is for a block that exists, of a piece this peer
    announced, and that has not been received. *)
Lemma request_sound_lemma ph peer r ph' :
  ph_reachable ph -> get_piece_request ti peer ph = ((true, r), ph') ->
  requestable ph peer r /\ received_at ph (index_ r, begin_ r) = false.
Proof.
  intros Hr%reachable_queues_ok H. pose proof (get_piece_request_spec ti peer ph) as Hs.
  rewrite H in Hs. destruct (drop_received ph (pending ti ph peer)) as [|r0 q0] eqn:E; [by destruct Hs|].
  destruct Hs as (_ & -> & _). destruct (drop_received_head _ _ _ _ E) as [Hrec Hin].
  split; [|done]. apply pending_requestable; [done|]. apply Hin. by left.
Qed.

Lemma all_missing_nil ph peer : all_missing ti ph peer = [] <->
  forall i k, i ∈ have_set ph peer -> 0 <= k < blocks_per_piece (size_of ti i) ->
    received_at ph (block_key i k) = true.
Proof.
  split.
  - intros H i k Hi Hk. destruct (received_at ph (block_key i k)) eqn:E; [done|].
    assert (block_request i (size_of ti i) k ∈ all_missing ti ph peer) as Hin.
    { apply elem_of_missing_in. exists i. split; [by apply elem_of_iter_order|].
      apply list_elem_of_fmap. exists k. split; [done|].
      apply list_elem_of_filter. by rewrite elem_of_block_inds. }
    rewrite H in Hin. by inversion Hin.
  - intros H. destruct (all_missing ti ph peer) as [|r l] eqn:E; [done|].
    assert (r ∈ all_missing ti ph peer) as Hin by (rewrite E; by left).
    apply elem_of_missing_in in Hin as (i & Hi%elem_of_iter_order & Hr).
    destruct (missing_requestable _ _ _ Hr) as (k & Hk & _ & Hf).
    rewrite H in Hf by done. done.
Qed.

Lemma drop_received_missing ph l : drop_received ph (missing_in ti ph l) = [] -> missing_in ti ph l = [].
Proof.
  intros H. destruct (missing_in ti ph l) as [|r q] eqn:E; [done|].
  assert (r ∈ missing_in ti ph l) as Hin by (rewrite E; by left).
  apply elem_of_missing_in in Hin as (i & _ & Hr).
  destruct (missing_requestable _ _ _ Hr) as (k & Hk & -> & Hf).
  simpl in H. unfold block_key in Hf. by rewrite Hf in H.
Qed.

(** C25: A request that is handed out asks this peer for a piece that it announced and a block
    that has not arrived; and if the torrent has the piece, which nothing checks (a peer may
    announce any number), the block begins at a multiple of 2^14 and runs to the next block or
    to the end of the piece. *)
Theorem request_sound ph peer r ph' :
  torrent_ok ti -> ph_reachable ph -> get_piece_request ti peer ph = ((true, r), ph') ->
  index_ r ∈ have_set ph peer /\ received_at ph (index_ r, begin_ r) = false /\
  (piece_index_ok ti (index_ r) -> begin_ r mod BLOCK_LEN = 0 /\ 0 < length_ r /\
   length_ r = Z.min BLOCK_LEN (piece_size ti (index_ r) - begin_ r)).
Proof.
  intros Hti Hr H. destruct (request_sound_lemma ph peer r ph' Hr H) as [(i & k & Hin & Hk & ->) Hrec].
  change (index_ (block_request i (size_of ti i) k)) with i in *. split; [done|]. split; [done|]. intros Hi.
  assert (size_of ti i = piece_size ti i) as Hs.
  { unfold size_of. pose proof (tok_num_range ti Hti). unfold piece_index_ok in Hi. by rewrite i32_small by lia. }
  rewrite Hs in *. destruct (piece_size_bounds ti i Hti Hi) as [Hps _].
  pose proof (tok_piece_length ti Hti).
  destruct (block_request_fields i (piece_size ti i) k ltac:(lia) Hk) as (_ & Hb & Hl & Hpos & _).
  rewrite Hb in *. split; [by apply Z.mod_mul|]. by split.
Qed.

(** C26: With an empty queue, a request is refused exactly when every block of every piece
    the peer announced has been received. *)
Theorem request_complete ph peer :
  queue ph peer = [] ->
  (get_piece_request ti peer ph).1.1 = false <->
  forall i k, i ∈ have_set ph peer -> 0 <= k < blocks_per_piece (size_of ti i) ->
    received_at ph (block_key i k) = true.
Proof.
  intros Hq. rewrite <- all_missing_nil.
  pose proof (get_piece_request_spec ti peer ph) as Hs.
  destruct (get_piece_request ti peer ph) as [[ok r] ph']. simpl.
  unfold pending in Hs. rewrite Hq in Hs. unfold all_missing in *.
  destruct (drop_received ph (missing_in ti ph (iter_order (have_set ph peer)))) as [|r0 q0] eqn:E.
  - destruct Hs as [-> _]. split; [|done]. intros _. by apply drop_received_missing.
  - destruct Hs as (-> & _). split; [done|]. intros Hm. by rewrite Hm in E.
Qed.
End Reachable.

(** ** Bitfields *)

(** The pieces a bitfield announces: piece [i] is bit [7 - i mod 8] of byte [i / 8]. *)
Definition announced (l : bytes) (i : Z) : Prop :=
  0 <= i /\ exists b, l !! Z.to_nat (i / 8) = Some b /\ Z.testbit b (7 - i mod 8) = true.

Section Bitfield.
Context {BB : ByteBuffer} {BL : ByteBufferLaws BB} {SO : SetOrder}.
Variable ti : torrent_info.
Implicit Types ph : piece_handler.

Lemma have_have_set peer index ph p :
  have_set (have ti peer index ph) p =
  if decide (peer = p) then {[index]} ∪ have_set ph p else have_set ph p.
Proof.
  rewrite have_equiv. case_decide as Hi.
  - case_decide; [subst p|done]. set_solver.
  - change (have_set (set_have_set peer ({[index]} ∪ have_set ph peer) ph) p =
      (if decide (peer = p) then {[index]} ∪ have_set ph p else have_set ph p)).
    rewrite have_set_set. by case_decide; subst.
Qed.

Lemma have_fold_have_set peer l : forall ph p,
  have_set (foldl (fun ph i => have ti peer i ph) ph l) p =
  if decide (peer = p) then list_to_set l ∪ have_set ph p else have_set ph p.
Proof.
  induction l as [|i l IH]; intros ph p; simpl.
  - case_decide; set_solver.
  - rewrite IH, have_have_set. case_decide; [|done]. set_solver.
Qed.

(** The piece numbers of one byte. *)
Definition byte_pieces (off byte : Z) : list Z :=
  map (fun i => u32 (off * 8 + (8 - i - 1)))
    (filter (fun i => Z.testbit byte i = true) [7; 6; 5; 4; 3; 2; 1; 0]).

Lemma elem_of_byte_pieces off byte i : 0 <= off -> off * 8 + 8 <= 2 ^ 32 ->
  i ∈ byte_pieces off byte <-> i / 8 = off /\ Z.testbit byte (7 - i mod 8) = true.
Proof.
  intros H0 Hoff. unfold byte_pieces.
  pose proof (Z.div_mod i 8 ltac:(lia)) as Hd. pose proof (Z.mod_pos_bound i 8 ltac:(lia)) as Hm.
  rewrite (list_elem_of_fmap (fun i => u32 (off * 8 + (8 - i - 1)))). split.
  - intros (j & -> & [Hj Hin]%list_elem_of_filter).
    assert (0 <= j <= 7) as Hj7 by (rewrite !elem_of_cons in Hin; set_solver by lia).
    rewrite u32_small by lia. replace (off * 8 + (8 - j - 1)) with ((7 - j) + off * 8) by lia.
    rewrite Z.div_add, Z.mod_add, Z.div_small, Z.mod_small by lia.
    split; [lia|]. by replace (7 - (7 - j)) with j by lia.
  - intros [<- Hb]. exists (7 - i mod 8). split; [rewrite u32_small; lia|].
    apply list_elem_of_filter. split; [done|].
    assert (i mod 8 = 0 \/ i mod 8 = 1 \/ i mod 8 = 2 \/ i mod 8 = 3 \/ i mod 8 = 4 \/ i mod 8 = 5 \/
            i mod 8 = 6 \/ i mod 8 = 7) as Hc by lia.
    rewrite !elem_of_cons. lia.
Qed.

Lemma have_bitfield_loop_spec peer l : forall fuel off bf ph,
  bb_readable bf = l -> (length l <= fuel)%nat -> 0 <= off ->
  (off + Z.of_nat (length l)) * 8 <= 2 ^ 32 -> bytes_ok l ->
  exists ph', have_bitfield_loop ti fuel peer off bf ph = Ok ph' /\
    (forall p, p <> peer -> have_set ph' p = have_set ph p) /\
    (forall i, i ∈ have_set ph' peer <->
       i ∈ have_set ph peer \/
       (off <= i / 8 /\ exists b, l !! Z.to_nat (i / 8 - off) = Some b /\ Z.testbit b (7 - i mod 8) = true)).
Proof.
  induction l as [|b l IH]; intros fuel off bf ph Hbf Hfuel Hoff Hmax Hok.
  - exists ph. split; [|split; [done|]].
    + destruct fuel; simpl; unfold bb_available; by rewrite Hbf.
    + intros i. split; [by left|]. intros [?|(_ & b & Hb & _)]; done.
  - destruct fuel as [|fuel]; [simpl in Hfuel; lia|]. simpl in Hfuel.
    apply Forall_cons in Hok as [Hb Hok]. cbn [length] in Hmax.
    destruct (read_8_value bf [b] l Hbf eq_refl) as [Hv Hr].
    cbn [have_bitfield_loop]. unfold bb_available. rewrite Hbf.
    rewrite (proj2 (Z.ltb_lt _ _)) by (simpl length; lia).
    destruct (bb_read_8 bf) as [byte bf']. simpl in Hv, Hr.
    replace (unbe [b]) with b in Hv by done. subst byte.
    destruct (IH fuel (off + 1) bf' (have_byte ti peer off b ph)) as (ph' & -> & Ho & Hi);
      [done|lia|lia|lia|done|].
    exists ph'. split; [done|]. rewrite have_byte_fold in Ho, Hi. split.
    + intros p Hp. rewrite Ho, have_fold_have_set by done. by rewrite decide_False.
    + intros i. rewrite Hi, have_fold_have_set, decide_True by done.
      fold (byte_pieces off b). rewrite elem_of_union, elem_of_list_to_set, elem_of_byte_pieces by lia.
      destruct (decide (i / 8 = off)) as [E|E].
      * rewrite E, Z.sub_diag. simpl. split.
        -- intros [[[_ H]|H]|[H _]]; [right|by left|lia]. split; [lia|]. by exists b.
        -- intros [H|(_ & b' & [= <-] & H)]; left; [by right|by left].
      * assert (off + 1 <= i / 8 -> (b :: l) !! Z.to_nat (i / 8 - off) = l !! Z.to_nat (i / 8 - (off + 1))) as Hl.
        { intros. replace (Z.to_nat (i / 8 - off)) with (S (Z.to_nat (i / 8 - (off + 1)))) by lia. done. }
        split.
        -- intros [[[? _]|H]|(H & b' & Hb' & ?)]; [done|by left|right]. split; [lia|].
           exists b'. by rewrite Hl.
        -- intros [H|(H & b' & Hb' & ?)]; [by left; right|right]. split; [lia|].
           exists b'. rewrite <- Hl by lia. done.
Qed.

(** A bitfield adds to the peer's pieces exactly those it announces, and changes no
    other peer's. *)
Theorem have_bitfield_spec peer bitfield ph :
  bytes_ok (bb_readable bitfield) -> bb_available bitfield * 8 <= 2 ^ 32 ->
  exists ph', have_bitfield ti peer bitfield ph = Ok ph' /\
    (forall p, p <> peer -> have_set ph' p = have_set ph p) /\
    (forall i, i ∈ have_set ph' peer <-> i ∈ have_set ph peer \/ announced (bb_readable bitfield) i).
Proof.
  intros Hok Hmax.
  destruct (have_bitfield_loop_spec peer (bb_readable bitfield) (length (bb_readable bitfield)) 0 bitfield ph)
    as (ph' & H & Ho & Hi); [done|done|done|exact Hmax|done|].
  exists ph'. split; [done|]. split; [done|]. intros i. rewrite Hi, Z.sub_0_r. unfold announced.
  pose proof (Z.div_mod i 8 ltac:(lia)). pose proof (Z.mod_pos_bound i 8 ltac:(lia)).
  assert (0 <= i / 8 <-> 0 <= i) as -> by lia. done.
Qed.
End Bitfield.

(** ** On the sample torrent *)
Section RequestWitnesses.
Import ListBuffer Sample.

(** The state after the peer's announcement, and the request it leads to. *)
Definition asked : (bool * request) * piece_handler := get_piece_request torrent peer announced_pieces.

Lemma asked_ok : get_piece_request torrent peer announced_pieces = ((true, mk_request 0 0 5), asked.2).
Proof. apply injective_projections; [by vm_compute|done]. Qed.

Lemma announced_reachable : ph_reachable torrent announced_pieces.
Proof. eapply reach_step; [eapply reach_init, created_ok|apply step_have]. Qed.

Lemma request_sound_witness :
  0 ∈ have_set announced_pieces peer /\ received_at announced_pieces (0, 0) = false /\
  (piece_index_ok torrent 0 -> 0 mod BLOCK_LEN = 0 /\ 0 < 5 /\ 5 = Z.min BLOCK_LEN (piece_size torrent 0 - 0)).
Proof.
  apply (request_sound torrent announced_pieces peer (mk_request 0 0 5) asked.2).
  - exact torrent_is_ok.
  - exact announced_reachable.
  - exact asked_ok.
Defined.

(** The torrent has one piece; a peer that announces the eighth is asked for it. *)
Lemma missing_piece_requested :
  (get_piece_request torrent peer (have torrent peer 7 created.2)).1 = (true, mk_request 7 0 16384).
Proof. by vm_compute. Qed.

Lemma request_complete_witness :
  (get_piece_request torrent [] announced_pieces).1.1 = false <->
  forall i k, i ∈ have_set announced_pieces [] -> 0 <= k < blocks_per_piece (size_of torrent i) ->
    received_at announced_pieces (block_key i k) = true.
Proof. apply (request_complete torrent announced_pieces []). by vm_compute. Defined.

(** Pieces 0 and 9. *)
Definition two_bits : t := mk [128; 64] 0.

Lemma have_bitfield_spec_witness :
  exists ph', have_bitfield (BB := list_buffer) torrent peer two_bits created.2 = Ok ph' /\
    (forall p, p <> peer -> have_set ph' p = have_set created.2 p) /\
    (forall i, i ∈ have_set ph' peer <-> i ∈ have_set created.2 peer \/ announced [128; 64] i).
Proof.
  apply (have_bitfield_spec (BB := list_buffer) torrent peer two_bits created.2).
  - repeat constructor; unfold byte_ok; simpl; lia.
  - unfold bb_available. simpl. lia.
Defined.
End RequestWitnesses.
