(* ===== verification/PieceWrites.v ===== *)
(** * What the piece handler writes

    The receiving side of [piece_handler]: [received], [write_if_valid] and the
    placement of a piece on disk.  The files of the torrent, one after the other, are
    its [content]; a valid piece is spliced into the content at its place, whatever
    file boundaries it crosses. *)

From S2P Require Import Prelude ByteBuffer Messages Storage Files PieceHandler Agent Samples.
From S2P Require Import PieceRequests.

(** ** Splicing *)

(** [c] with the bytes from [off] on replaced by [d]. *)
Definition splice (c : bytes) (off : nat) (d : bytes) : bytes :=
  take off c ++ d ++ drop (off + length d) c.

Lemma length_splice c off d : (off + length d <= length c)%nat -> length (splice c off d) = length c.
Proof. intros H. unfold splice. rewrite !length_app, length_take, length_drop. lia. Qed.

Lemma splice_app_l a c off d : splice (a ++ c) (length a + off) d = a ++ splice c off d.
Proof.
  unfold splice. rewrite take_app_add, <- app_assoc, <- Nat.add_assoc.
  by rewrite drop_app_add.
Qed.

Lemma splice_app_r c b off d : (off + length d <= length c)%nat ->
  splice (c ++ b) off d = splice c off d ++ b.
Proof.
  intros H. unfold splice. rewrite take_app_le, drop_app_le by lia. by rewrite <- !app_assoc.
Qed.

Lemma splice_nil c off : splice c off [] = c.
Proof. unfold splice. simpl. by rewrite Nat.add_0_r, take_drop. Qed.

Lemma splice_splice c off d1 d2 : (off + length d1 + length d2 <= length c)%nat ->
  splice (splice c off d1) (off + length d1) d2 = splice c off (d1 ++ d2).
Proof.
  intros H. assert (splice c off d1 = (take off c ++ d1) ++ drop (off + length d1) c) as ->
    by (unfold splice; by rewrite app_assoc).
  replace (off + length d1)%nat with (length (take off c ++ d1) + 0)%nat at 2
    by (rewrite length_app, length_take; lia).
  rewrite splice_app_l. unfold splice. rewrite drop_drop, length_app. simpl.
  by rewrite <- !app_assoc, Nat.add_assoc.
Qed.

Lemma drop_splice_inside c off d : (off + length d <= length c)%nat ->
  take (length d) (drop off (splice c off d)) = d.
Proof.
  intros H. unfold splice. rewrite drop_app_length' by (rewrite length_take; lia).
  by rewrite take_app_length.
Qed.

(** A range that ends before the splice or begins after it is left alone. *)
Lemma take_drop_splice_outside c off d a n : (off + length d <= length c)%nat ->
  (a + n <= off \/ off + length d <= a)%nat ->
  take n (drop a (splice c off d)) = take n (drop a c).
Proof.
  intros H Ho. apply list_eq. intros i. destruct (decide (i < n)%nat) as [Hi|Hi].
  - rewrite !lookup_take_lt, !lookup_drop by done. unfold splice. destruct Ho as [Ho|Ho].
    + rewrite lookup_app_l by (rewrite length_take; lia). rewrite lookup_take_lt by lia. done.
    + rewrite lookup_app_r by (rewrite length_take; lia).
      rewrite lookup_app_r by (rewrite length_take; lia).
      rewrite lookup_drop, length_take. f_equal. lia.
  - rewrite !lookup_take_ge by lia. done.
Qed.

Lemma splice_write_at c off d : (off + length d <= length c)%nat -> write_at c off d = splice c off d.
Proof. apply write_at_inside. Qed.

(** ** The content of the files *)

Definition file_content (dk : disk) (f : file_entry) : bytes := default [] (dk !! fe_path f).

Definition content (files : list file_entry) (dk : disk) : bytes := concat (map (file_content dk) files).

(** Every file that has bytes has an open handler on its path, and on disk the size
    the torrent gives it. *)
Definition files_ready (files : list file_entry) (fh : gmap bytes file_handler) (dk : disk) : Prop :=
  Forall (fun f => length (file_content dk f) = Z.to_nat (fe_size f) /\
    (0 < fe_size f -> fh !! fe_name f = Some (mk_file_handler (fe_path f) true))) files.

(** No two files share a path or a name. *)
Definition distinct_files (files : list file_entry) : Prop :=
  NoDup (map fe_path files) /\ NoDup (map fe_name files).

Lemma content_cons f files dk : content (f :: files) dk = file_content dk f ++ content files dk.
Proof. done. Qed.

Lemma content_length files o total fh dk :
  files_ok o files total -> files_ready files fh dk -> Z.of_nat (length (content files dk)) = total - o.
Proof.
  revert o; induction files as [|f files IH]; intros o; simpl; [lia|].
  intros (_ & Hs & Hok) [[Hl _] Hr]%Forall_cons. rewrite content_cons.
  rewrite length_app, Nat2Z.inj_add, Hl. rewrite (IH _ Hok Hr). lia.
Qed.

Lemma content_app files1 files2 dk : content (files1 ++ files2) dk = content files1 dk ++ content files2 dk.
Proof. unfold content. by rewrite map_app, concat_app. Qed.

Lemma content_other files dk p c : p ∉ map fe_path files -> content files (<[p := c]> dk) = content files dk.
Proof.
  intros Hp. unfold content. f_equal. apply map_ext_in. intros f Hf. unfold file_content.
  rewrite lookup_insert_ne; [done|]. intros ->. apply Hp. apply list_elem_of_fmap.
  exists f. split; [done|]. by apply list_elem_of_In.
Qed.

(** A write into one file is a splice of the content. *)
Lemma content_write l1 f l2 total fh dk off d :
  files_ok 0 (l1 ++ f :: l2) total -> files_ready (l1 ++ f :: l2) fh dk ->
  NoDup (map fe_path (l1 ++ f :: l2)) ->
  0 <= off -> off + Z.of_nat (length d) <= fe_size f ->
  content (l1 ++ f :: l2) (<[fe_path f := write_at (file_content dk f) (Z.to_nat off) d]> dk) =
  splice (content (l1 ++ f :: l2) dk) (Z.to_nat (fe_offset f + off)) d.
Proof.
  intros Hok Hr Hnd Ho Hle.
  apply files_ok_app in Hok as (m & Hok1 & Hf & Hsz & Hok2).
  apply Forall_app in Hr as [Hr1 [[Hlen _] Hr2]%Forall_cons].
  pose proof (content_length _ _ _ _ _ Hok1 Hr1) as Hl1.
  rewrite map_app in Hnd. simpl in Hnd. apply NoDup_app in Hnd as (_ & Hnd1 & [Hnd2 _]%NoDup_cons).
  rewrite !content_app, !content_cons.
  rewrite !content_other by (done || (intros H; apply (Hnd1 _ H); by left)).
  unfold file_content at 1. rewrite lookup_insert_eq. simpl.
  assert (Z.to_nat off + length d <= length (file_content dk f))%nat as Hin by lia.
  rewrite splice_write_at by done.
  replace (Z.to_nat (fe_offset f + off)) with (length (content l1 dk) + Z.to_nat off)%nat by lia.
  by rewrite splice_app_l, splice_app_r.
Qed.

(** ** Writing blocks *)

Section Writes.
Context {BB : ByteBuffer} {BL : ByteBufferLaws BB} {FS : FileSystem} {SHA : Sha1} {SO : SetOrder}.
Variable ti : torrent_info.
Hypothesis torrent_is_ok : torrent_ok ti.
Hypothesis files_distinct : distinct_files (ti_files ti).
Implicit Types ph : piece_handler.

(** The unread bytes of a block. *)
Definition data ph (k : piece_received_key) : bytes := bb_readable (block_ (block_at ph k)).

Definition disk_content ph : bytes := content (ti_files ti) (disk_ ph).

Definition ready ph : Prop := files_ready (ti_files ti) (file_handlers_ ph) (disk_ ph).

(** Between the two states only blocks of [keys], and of them only the bytes, and the
    disk have changed. *)
Record only_writes (keys : piece_received_key -> Prop) ph ph' : Prop := {
  ow_have : forall p, have_set ph' p = have_set ph p;
  ow_queue : forall p, queue ph' p = queue ph p;
  ow_written : written_pieces_ ph' = written_pieces_ ph;
  ow_received : forall k, received_at ph' k = received_at ph k;
  ow_block : forall k, ~ keys k -> block_at ph' k = block_at ph k;
}.

Lemma only_writes_refl keys ph : only_writes keys ph ph.
Proof. done. Qed.

Lemma only_writes_trans (keys : piece_received_key -> Prop) a b c :
  only_writes keys a b -> only_writes keys b c -> only_writes keys a c.
Proof.
  intros [H1 H2 H3 H4 H5] [G1 G2 G3 G4 G5].
  split; intros; first [by rewrite G1, H1|by rewrite G2, H2|by rewrite G3, H3|by rewrite G4, H4|by rewrite G5, H5].
Qed.

Lemma only_writes_weaken (keys keys' : piece_received_key -> Prop) a b :
  (forall k, keys k -> keys' k) -> only_writes keys a b -> only_writes keys' a b.
Proof. intros H []. split; auto. Qed.

Lemma content_length_ready ph : ready ph -> Z.of_nat (length (disk_content ph)) = ti_total_size ti.
Proof. intros H. unfold disk_content. rewrite (content_length _ 0 _ _ _ (tok_files ti torrent_is_ok) H). lia. Qed.

Lemma files_ready_write fh dk f c :
  f ∈ ti_files ti -> length c = length (file_content dk f) ->
  files_ready (ti_files ti) fh dk -> files_ready (ti_files ti) fh (<[fe_path f := c]> dk).
Proof.
  intros Hf Hc H. apply Forall_forall. intros g Hg.
  pose proof (proj1 (Forall_forall _ _) H g Hg) as [Hl Hh]. split; [|done].
  unfold file_content. destruct (decide (fe_path f = fe_path g)) as [E|E].
  - rewrite E, lookup_insert_eq. simpl. rewrite Hc. unfold file_content. by rewrite E.
  - by rewrite lookup_insert_ne.
Qed.

(** Writing one slice of a block moves its bytes to the slice's place. *)
Lemma write_slice_spec key a s ph :
  ready ph -> tiles (ti_files ti) a [s] (a + fs_size s) ->
  fs_size s <= Z.of_nat (length (data ph key)) ->
  exists ph', write_slice ti key ph s = Ok ph' /\ ready ph' /\
    disk_content ph' = splice (disk_content ph) (Z.to_nat a) (take (Z.to_nat (fs_size s)) (data ph key)) /\
    data ph' key = drop (Z.to_nat (fs_size s)) (data ph key) /\
    only_writes (eq key) ph ph'.
Proof.
  intros Hr [(f & Hf & Ho & Hs & Hle & Ha) _] Hlen.
  assert (f ∈ ti_files ti) as Hin by (by eapply list_elem_of_lookup_2).
  destruct (proj1 (Forall_forall _ _) Hr f Hin) as [Hfl Hfh]. specialize (Hfh ltac:(lia)).
  unfold write_slice, file_handler_write. rewrite Hf, Hfh. cbn [fh_good fh_path].
  unfold stream_seekp. rewrite (proj2 (Z.leb_le 0 _)) by done. cbn [andb].
  destruct (read_value (block_ (block_at ph key)) (fs_size s)) as [Hd Hrest]; [unfold bb_available; fold (data ph key); lia|].
  destruct (bb_read _ _) as [d rest]. simpl in Hd, Hrest. subst d. fold (data ph key) in Hrest |- *.
  unfold stream_write. eexists. split; [done|].
  rewrite insert_id by done. fold (file_content (disk_ ph) f).
  assert (length (take (Z.to_nat (fs_size s)) (data ph key)) = Z.to_nat (fs_size s)) as Hl
    by (rewrite length_take; lia).
  split_and!.
  - apply files_ready_write; [done| |done]. apply length_write_at. lia.
  - unfold disk_content. simpl.
    destruct (list_elem_of_split _ _ Hin) as (l1 & l2 & E).
    pose proof (tok_files ti torrent_is_ok) as Hok. destruct files_distinct as [Hnd _].
    unfold ready in Hr. rewrite E in Hok, Hr, Hnd |- *.
    rewrite (content_write l1 f l2 _ _ _ (fs_offset s) _ Hok Hr Hnd) by lia. by rewrite Ha.
  - unfold data, block_at. cbn. by rewrite lookup_insert_eq.
  - split; try done; intros k; unfold received_at, block_at; cbn; rewrite lookup_insert.
    + by case_decide; subst.
    + intros Hk. by rewrite decide_False.
Qed.

Lemma tiles_le files a slices b : tiles files a slices b -> a <= b.
Proof.
  revert a; induction slices as [|s slices IH]; intros a; simpl; [lia|].
  intros [(f & _ & _ & Hpos & _) Hrest]. apply IH in Hrest. lia.
Qed.

(** Writing all slices of a block writes the block. *)
Lemma write_slices_spec key slices : forall a b ph,
  ready ph -> tiles (ti_files ti) a slices b -> 0 <= a -> b <= ti_total_size ti ->
  Z.of_nat (length (data ph key)) = b - a ->
  exists ph', write_slices ti key slices ph = Ok ph' /\ ready ph' /\
    disk_content ph' = splice (disk_content ph) (Z.to_nat a) (data ph key) /\
    data ph' key = [] /\ only_writes (eq key) ph ph'.
Proof.
  induction slices as [|s slices IH]; intros a b ph Hr Ht Ha Hb Hlen; cbn [write_slices tiles] in *.
  - subst b. exists ph. assert (data ph key = []) as E by (apply length_zero_iff_nil; lia).
    rewrite E, splice_nil. split_and!; try done.
  - destruct Ht as [Hs Ht]. pose proof (tiles_le _ _ _ _ Ht) as Hle.
    destruct (write_slice_spec key a s ph Hr (conj Hs eq_refl) ltac:(lia)) as (ph1 & -> & Hr1 & Hc1 & Hd1 & Hf1).
    destruct Hs as (f & _ & _ & Hpos & _). cbn [mbind result_bind].
    destruct (IH (a + fs_size s) b ph1 Hr1 Ht ltac:(lia) Hb) as (ph2 & -> & Hr2 & Hc2 & Hd2 & Hf2).
    { rewrite Hd1, length_drop. lia. }
    exists ph2. split_and!; [done|done| |done|by eapply only_writes_trans].
    pose proof (content_length_ready ph Hr) as Hcl.
    set (n := Z.to_nat (fs_size s)) in *. rewrite Hc2, Hc1, Hd1.
    assert (length (take n (data ph key)) = n) as Hln by (rewrite length_take; lia).
    replace (Z.to_nat (a + fs_size s)) with (Z.to_nat a + length (take n (data ph key)))%nat by lia.
    rewrite splice_splice by (rewrite length_take, length_drop; lia). by rewrite take_drop.
Qed.

Lemma only_writes_equiv keys ph ph' : ph ≡ ph' -> only_writes keys ph ph'.
Proof.
  intros H. split; intros; symmetry.
  - by apply have_set_proper.
  - by apply queue_proper.
  - by apply written_proper.
  - by apply received_at_proper.
  - by apply block_at_proper.
Qed.

Hypothesis pieces_in_blocks : ti_piece_length ti mod BLOCK_LEN = 0.

(** The number of bytes of block [k] of a piece. *)
Definition block_size (index k : Z) : Z := Z.min BLOCK_LEN (piece_size ti index - k * BLOCK_LEN).

Definition num_blocks (index : Z) : Z := blocks_per_piece (piece_size ti index).

Lemma size_of_ok index : piece_index_ok ti index -> size_of ti index = piece_size ti index.
Proof.
  intros H. unfold size_of. pose proof (tok_num_range ti torrent_is_ok). unfold piece_index_ok in H.
  by rewrite i32_small by lia.
Qed.

(** A block begins inside its piece, below [2^31]. *)
Lemma block_bounds index k : piece_index_ok ti index -> 0 <= k < num_blocks index ->
  0 <= k * BLOCK_LEN < piece_size ti index /\ 0 < piece_size ti index < 2 ^ 31 /\
  0 < block_size index k <= BLOCK_LEN.
Proof.
  intros Hi Hk. destruct (piece_size_bounds ti index torrent_is_ok Hi) as [Hps _].
  pose proof (tok_piece_length ti torrent_is_ok).
  pose proof (blocks_per_piece_bounds (piece_size ti index) ltac:(lia)) as [_ Hb].
  unfold num_blocks, block_size in *. assert (BLOCK_LEN = 16384) as HB by done. rewrite HB in *. lia.
Qed.

Lemma block_key_begin index k : piece_index_ok ti index -> 0 <= k < num_blocks index ->
  block_key index k = (index, k * BLOCK_LEN).
Proof.
  intros Hi Hk. destruct (block_bounds _ _ Hi Hk) as (? & ? & _).
  unfold block_key. by rewrite u32_small by lia.
Qed.

(** The offsets of files have 48 bits. *)
Hypothesis offsets_fit : ti_total_size ti < 2 ^ 48.

(** The slices of a block tile its place in the content. *)
Lemma block_slices index k : piece_index_ok ti index -> 0 <= k < num_blocks index ->
  let a := index * ti_piece_length ti + k * BLOCK_LEN in
  0 <= a /\ a + block_size index k <= ti_total_size ti /\
  exists slices, map_block ti (i32 (block_key index k).1) (block_key index k).2 BLOCK_LEN = Ok slices /\
    tiles (ti_files ti) a slices (a + block_size index k).
Proof.
  intros Hi Hk a. rewrite block_key_begin by done. cbn [fst snd].
  destruct (block_bounds _ _ Hi Hk) as (Hkb & Hps & Hbs).
  destruct (piece_size_bounds ti index torrent_is_ok Hi) as [Hle Hend].
  pose proof (tok_piece_length ti torrent_is_ok). pose proof (tok_num_range ti torrent_is_ok).
  unfold piece_index_ok in Hi. rewrite i32_small by lia.
  assert (0 <= a) as Ha by (subst a; nia).
  assert (Z.min (a + BLOCK_LEN) (ti_total_size ti) = a + block_size index k /\
  a + block_size index k <= ti_total_size ti) as [Hmin Hmax].
  { subst a. unfold block_size in *. apply Z.mod_divide in pieces_in_blocks as [q Hq]; [|done].
    assert (BLOCK_LEN = 16384) as HB by done. rewrite HB in *.
    destruct (decide (ti_total_size ti < (index + 1) * ti_piece_length ti)); [lia|].
    assert (piece_size ti index = q * 16384) by lia. assert (k + 1 <= q) by lia. lia. }
  split; [done|]. split; [done|].
  destruct (map_block_slices ti index (k * BLOCK_LEN) BLOCK_LEN torrent_is_ok offsets_fit) as (slices & Hs & Ht);
    [fold a; lia|done|].
  exists slices. split; [done|]. fold a in Ht. by rewrite <- Hmin.
Qed.

(** The bytes of some blocks of a piece, one after the other. *)
Definition blocks_data ph (index : Z) (inds : list Z) : bytes :=
  concat (map (fun k => data ph (block_key index k)) inds).

Lemma blocks_data_cons ph index k inds :
  blocks_data ph index (k :: inds) = data ph (block_key index k) ++ blocks_data ph index inds.
Proof. done. Qed.

Definition full_block ph (index k : Z) : Prop :=
  Z.of_nat (length (data ph (block_key index k))) = block_size index k.

Lemma blocks_data_length ph index m : forall k, piece_index_ok ti index -> 0 <= k ->
  k + Z.of_nat m = num_blocks index ->
  (forall j, k <= j < num_blocks index -> full_block ph index j) ->
  (0 < m)%nat ->
  Z.of_nat (length (blocks_data ph index (seqZ k (Z.of_nat m)))) = piece_size ti index - k * BLOCK_LEN.
Proof.
  induction m as [|m IH]; intros k Hi Hk Hm Hfull Hpos; [lia|].
  rewrite seqZ_cons, blocks_data_cons by lia.
  pose proof (Hfull k ltac:(lia)) as Hk0. unfold full_block in Hk0.
  rewrite length_app, Nat2Z.inj_add, Hk0.
  replace (Z.pred (Z.of_nat (S m))) with (Z.of_nat m) by lia.
  destruct (block_bounds index k Hi ltac:(lia)) as (Hkb & Hps & Hbs).
  pose proof (blocks_per_piece_bounds (piece_size ti index) ltac:(lia)) as [_ Hb].
  fold (num_blocks index) in Hb. unfold block_size.
  assert (BLOCK_LEN = 16384) as HB by done. rewrite HB in *.
  destruct m as [|m].
  - simpl. lia.
  - rewrite IH; [lia|done|lia|lia| |lia]. intros j Hj. apply Hfull. lia.
Qed.

(** The keys of the blocks of a piece. *)
Definition piece_key (index : Z) (key : piece_received_key) : Prop :=
  exists k, 0 <= k < num_blocks index /\ key = block_key index k.

Lemma blocks_data_ext ph ph' index inds :
  (forall k, k ∈ inds -> data ph' (block_key index k) = data ph (block_key index k)) ->
  blocks_data ph' index inds = blocks_data ph index inds.
Proof.
  intros H. unfold blocks_data. f_equal. apply map_ext_in. intros k Hk. apply H.
  by apply list_elem_of_In.
Qed.

Lemma data_equiv ph ph' k : ph ≡ ph' -> data ph k = data ph' k.
Proof. intros H. unfold data. by rewrite (block_at_proper _ _ H _ _ eq_refl). Qed.

Lemma ready_equiv ph ph' : ph ≡ ph' -> ready ph -> ready ph'.
Proof. unfold ready. intros H. by rewrite (file_handlers_proper _ _ H), (disk_proper _ _ H). Qed.

Lemma disk_content_equiv ph ph' : ph ≡ ph' -> disk_content ph = disk_content ph'.
Proof. unfold disk_content. intros H. by rewrite (disk_proper _ _ H). Qed.

(** One turn of the loop: a full block goes to its place. *)
Lemma write_block_spec index k ph : piece_index_ok ti index -> 0 <= k < num_blocks index ->
  ready ph -> full_block ph index k ->
  exists slices ph', map_block ti (i32 (block_key index k).1) (block_key index k).2 BLOCK_LEN = Ok slices /\
    write_slices ti (block_key index k) slices (touch_block (block_key index k) ph) = Ok ph' /\ ready ph' /\
    disk_content ph' = splice (disk_content ph) (Z.to_nat (index * ti_piece_length ti + k * BLOCK_LEN))
      (data ph (block_key index k)) /\
    only_writes (eq (block_key index k)) ph ph'.
Proof.
  intros Hi Hk Hr Hf. destruct (block_slices index k Hi Hk) as (Ha & Hb & slices & Hs & Ht).
  pose proof (touch_block_equiv (block_key index k) ph) as Htouch.
  destruct (write_slices_spec (block_key index k) slices _ _ (touch_block (block_key index k) ph)
    (ready_equiv _ _ (symmetry Htouch) Hr) Ht Ha Hb) as (ph' & Hw & Hr' & Hc & _ & Hfr).
  { rewrite (data_equiv _ _ _ Htouch), Hf. lia. }
  rewrite (data_equiv _ _ _ Htouch), (disk_content_equiv _ _ Htouch) in Hc.
  exists slices, ph'. split_and!; try done.
  eapply only_writes_trans; [by apply only_writes_equiv|done].
Qed.

(** The block and the blocks behind it are one stretch of the content. *)
Lemma splice_next_block index k m ph : piece_index_ok ti index -> 0 <= k ->
  k + Z.of_nat (S m) = num_blocks index -> ready ph ->
  (forall j, k <= j < num_blocks index -> full_block ph index j) ->
  let rest := blocks_data ph index (seqZ (Z.succ k) (Z.of_nat m)) in
  splice (splice (disk_content ph) (Z.to_nat (index * ti_piece_length ti + k * BLOCK_LEN))
    (data ph (block_key index k))) (Z.to_nat (index * ti_piece_length ti + Z.succ k * BLOCK_LEN)) rest =
  splice (disk_content ph) (Z.to_nat (index * ti_piece_length ti + k * BLOCK_LEN))
    (data ph (block_key index k) ++ rest).
Proof.
  intros Hi Hk Hm Hr Hfull rest. pose proof (content_length_ready ph Hr) as Hcl.
  destruct (block_slices index k Hi ltac:(lia)) as (Ha & Hb & _).
  destruct (block_bounds index k Hi ltac:(lia)) as (_ & Hps & Hbs).
  destruct (piece_size_bounds ti index torrent_is_ok Hi) as [_ Hend].
  pose proof (Hfull k ltac:(lia)) as Hl. unfold full_block, block_size in *.
  pose proof (blocks_per_piece_bounds (piece_size ti index) ltac:(lia)) as [_ Hnb].
  fold (num_blocks index) in Hnb.
  destruct m as [|m]; [by unfold rest; rewrite splice_nil, app_nil_r|].
  assert (Z.of_nat (length rest) = piece_size ti index - Z.succ k * BLOCK_LEN) as Hlr.
  { apply blocks_data_length; [done|lia|lia| |lia]. intros j Hj. apply Hfull. lia. }
  assert (BLOCK_LEN = 16384) as HB by done. rewrite HB in *.
  replace (Z.to_nat (index * ti_piece_length ti + Z.succ k * 16384))
    with (Z.to_nat (index * ti_piece_length ti + k * 16384) + length (data ph (block_key index k)))%nat by lia.
  apply splice_splice. lia.
Qed.

Lemma write_blocks_spec index m : forall k ph, piece_index_ok ti index -> 0 <= k ->
  k + Z.of_nat m = num_blocks index -> ready ph ->
  (forall j, k <= j < num_blocks index -> full_block ph index j) ->
  exists ph', write_blocks ti index (seqZ k (Z.of_nat m)) ph = Ok ph' /\ ready ph' /\
    disk_content ph' = splice (disk_content ph) (Z.to_nat (index * ti_piece_length ti + k * BLOCK_LEN))
      (blocks_data ph index (seqZ k (Z.of_nat m))) /\
    only_writes (piece_key index) ph ph'.
Proof.
  induction m as [|m IH]; intros k ph Hi Hk Hm Hr Hfull.
  - exists ph. split_and!; [done|done| |done]. by rewrite splice_nil.
  - rewrite seqZ_cons, blocks_data_cons by lia. cbn [write_blocks].
    replace (Z.pred (Z.of_nat (S m))) with (Z.of_nat m) by lia.
    destruct (write_block_spec index k ph Hi ltac:(lia) Hr) as (slices & ph1 & -> & Hw & Hr1 & Hc1 & Hf1);
      [apply Hfull; lia|].
    cbn [mbind result_bind]. rewrite Hw. cbn [mbind result_bind].
    assert (forall j, Z.succ k <= j < num_blocks index ->
      data ph1 (block_key index j) = data ph (block_key index j)) as Hsame.
    { intros j Hj. unfold data. f_equal. f_equal. apply (ow_block _ _ _ Hf1).
      rewrite !block_key_begin by (done || lia). intros E%(f_equal snd). cbn [snd] in E.
      change BLOCK_LEN with 16384 in E. lia. }
    destruct (IH (Z.succ k) ph1 Hi ltac:(lia) ltac:(lia) Hr1) as (ph2 & -> & Hr2 & Hc2 & Hf2).
    { intros j Hj. unfold full_block. rewrite Hsame by done. apply Hfull. lia. }
    exists ph2. split_and!; [done|done| |].
    + rewrite (blocks_data_ext ph ph1) in Hc2 by (intros j Hj; apply elem_of_seqZ in Hj; apply Hsame; lia).
      rewrite Hc2, Hc1. by apply splice_next_block.
    + eapply only_writes_trans; [|done]. eapply only_writes_weaken; [|done].
      intros ? <-. exists k. split; [lia|done].
Qed.

(** ** A complete piece *)

(** All blocks of the piece have arrived. *)
Definition piece_arrived ph (index : Z) : Prop :=
  forall k, 0 <= k < num_blocks index -> received_at ph (block_key index k) = true.

Definition piece_data ph (index : Z) : bytes := blocks_data ph index (block_inds (num_blocks index)).

Lemma blocks_data_equiv ph ph' index inds : ph ≡ ph' -> blocks_data ph index inds = blocks_data ph' index inds.
Proof. intros H. apply blocks_data_ext. intros k _. by apply data_equiv. Qed.

Lemma arrived_equiv index inds ph ph' : ph ≡ ph' ->
  Forall (fun k => received_at ph (block_key index k) = true) inds <->
  Forall (fun k => received_at ph' (block_key index k) = true) inds.
Proof.
  intros H. rewrite !Forall_forall.
  split; intros Ha k Hk; rewrite <- (Ha k Hk); [symmetry|]; by apply received_at_proper.
Qed.

Lemma collect_blocks_spec index inds : forall acc ph,
  let '(r, ph') := collect_blocks index inds acc ph in
  ph' ≡ ph /\
  match r with
  | Some hashed => hashed = acc ++ blocks_data ph index inds /\
      Forall (fun k => received_at ph (block_key index k) = true) inds
  | None => ~ Forall (fun k => received_at ph (block_key index k) = true) inds
  end.
Proof.
  induction inds as [|k inds IH]; intros acc ph; cbn [collect_blocks].
  - split; [done|]. by rewrite app_nil_r.
  - pose proof (touch_block_equiv (block_key index k) ph) as Ht.
    rewrite received_at_touch, block_at_touch.
    destruct (received_at ph (block_key index k)) eqn:E.
    + specialize (IH (acc ++ data ph (block_key index k)) (touch_block (block_key index k) ph)).
      unfold data in IH at 1. destruct (collect_blocks _ _ _ _) as [r ph'].
      destruct IH as [-> IH]. split; [done|].
      pose proof (arrived_equiv index inds _ _ Ht) as Hiff.
      rewrite (blocks_data_equiv _ _ _ _ Ht) in IH.
      destruct r; rewrite Forall_cons, <- Hiff; [|by intros [_ ?]].
      destruct IH as [-> Hf]. by rewrite blocks_data_cons, app_assoc.
    + split; [done|]. rewrite Forall_cons. rewrite E. by intros [? _].
Qed.

Lemma piece_arrived_inds ph index :
  Forall (fun k => received_at ph (block_key index k) = true) (block_inds (num_blocks index)) <->
  piece_arrived ph index.
Proof.
  rewrite Forall_forall. unfold piece_arrived, num_blocks.
  split; intros H k Hk; apply H; by apply elem_of_block_inds.
Qed.

(** Until its blocks are complete and their hash is right, a piece changes nothing. *)
Lemma write_if_valid_not index ph : piece_index_ok ti index ->
  ~ (piece_arrived ph index /\ sha1 (piece_data ph index) = ti_hash_for_piece ti index) ->
  exists ph', write_if_valid ti index ph = Ok (false, ph') /\ ph' ≡ ph.
Proof.
  intros Hi Hnot. unfold write_if_valid. fold (size_of ti index). rewrite size_of_ok by done.
  fold (num_blocks index).
  pose proof (collect_blocks_spec index (block_inds (num_blocks index)) [] ph) as Hc.
  destruct (collect_blocks _ _ _ _) as [[hashed|] ph1]; destruct Hc as [He Hc]; [|by exists ph1].
  destruct Hc as [-> Hall%piece_arrived_inds]. rewrite bool_decide_false; [by exists ph1|].
  intros Hh. apply Hnot. split; [done|]. simpl in Hh. fold (piece_data ph index) in Hh. rewrite Hh. f_equal.
  unfold piece_index_ok in Hi. pose proof (tok_num_range ti torrent_is_ok). apply i32_small. lia.
Qed.

(** A complete piece with the right hash goes to its place on disk. *)
Lemma write_if_valid_ok index ph : piece_index_ok ti index -> ready ph ->
  (forall k, 0 <= k < num_blocks index -> full_block ph index k) ->
  piece_arrived ph index -> sha1 (piece_data ph index) = ti_hash_for_piece ti index ->
  exists ph1 ph', write_if_valid ti index ph = Ok (true, ph') /\
    only_writes (piece_key index) ph ph1 /\ ph' = set_written (written_pieces_ ph + 1) ph1 /\
    ready ph' /\
    disk_content ph' =
      splice (disk_content ph) (Z.to_nat (index * ti_piece_length ti)) (piece_data ph index).
Proof.
  intros Hi Hr Hfull Harr Hh. unfold write_if_valid.
  pose proof (size_of_ok index Hi) as Hs. unfold size_of in Hs.
  assert (i32 index = index) as Hi32.
  { unfold piece_index_ok in Hi. pose proof (tok_num_range ti torrent_is_ok). apply i32_small. lia. }
  rewrite Hi32. fold (num_blocks index).
  pose proof (collect_blocks_spec index (block_inds (num_blocks index)) [] ph) as Hc.
  destruct (collect_blocks _ _ _ _) as [[hashed|] ph1]; destruct Hc as [He Hc];
    [|exfalso; by apply Hc, piece_arrived_inds].
  destruct Hc as [-> _]. simpl ([] ++ _). fold (piece_data ph index).
  rewrite bool_decide_true by done.
  assert (0 <= num_blocks index) as Hn.
  { destruct (piece_size_bounds ti index torrent_is_ok Hi) as [Hps _].
    destruct (blocks_per_piece_bounds (piece_size ti index)) as [Hb _]; [lia|]. unfold num_blocks. lia. }
  destruct (write_blocks_spec index (Z.to_nat (num_blocks index)) 0 ph1) as (ph2 & Hw & Hr2 & Hc2 & Hf2);
    [done|lia|lia|by eapply ready_equiv| |].
  { intros j Hj. unfold full_block. rewrite (data_equiv _ _ _ He). by apply Hfull. }
  rewrite Z2Nat.id in Hw, Hc2 by done. unfold block_inds. rewrite Hw. cbn [mbind result_bind].
  exists ph2. eexists. split; [done|]. split_and!.
  - eapply only_writes_trans; [|done]. by apply only_writes_equiv.
  - rewrite (ow_written _ _ _ Hf2), (written_proper _ _ He). done.
  - done.
  - change (disk_content ph2 = splice (disk_content ph) (Z.to_nat (index * ti_piece_length ti)) (piece_data ph index)).
    rewrite Hc2, (disk_content_equiv _ _ He), (blocks_data_equiv _ _ _ _ He).
    by rewrite Z.mul_0_l, Z.add_0_r.
Qed.

(** The block that [received] stores before it looks at the piece. *)
Definition store_block (key : piece_received_key) (d : bytes) ph : piece_handler :=
  set_block key (mk_received_block true (bb_write (block_ (block_at ph key)) d)) ph.

Lemma received_unfold piece index begin d ph :
  bb_readable piece = be 4 index ++ be 4 begin ++ d -> 0 <= index < 2 ^ 32 -> 0 <= begin < 2 ^ 32 ->
  let key := (index, begin) in
  received ti piece ph =
  if received_at ph key then Ok (touch_block key ph, false)
  else r ← write_if_valid ti index (store_block key d (touch_block key ph));
       Ok (r.2, r.1 && is_done ti r.2).
Proof.
  intros Hb Hi Hbg key. unfold received.
  destruct (read_32_be piece index _ Hb Hi) as [E1 Hb1].
  destruct (bb_read_32 piece) as [i p1]. simpl in E1, Hb1. subst i.
  destruct (read_32_be p1 begin _ Hb1 Hbg) as [E2 Hb2].
  destruct (bb_read_32 p1) as [b p2]. simpl in E2, Hb2. subst b.
  rewrite received_at_touch, Hb2. done.
Qed.

Lemma store_block_at key key' d ph :
  block_at (store_block key d ph) key' =
  if decide (key = key') then mk_received_block true (bb_write (block_ (block_at ph key)) d)
  else block_at ph key'.
Proof. apply block_at_set. Qed.

Lemma store_block_received key key' d ph :
  received_at (store_block key d ph) key' = if decide (key = key') then true else received_at ph key'.
Proof. unfold received_at. rewrite store_block_at. by case_decide. Qed.

Lemma store_block_data key key' d ph : data ph key = [] ->
  data (store_block key d ph) key' = if decide (key = key') then d else data ph key'.
Proof.
  intros H. unfold data. rewrite store_block_at. case_decide; [|done]. simpl.
  rewrite write_readable. fold (data ph key). by rewrite H.
Qed.

Lemma block_key_inj i j k l : piece_index_ok ti i -> piece_index_ok ti j ->
  0 <= k < num_blocks i -> 0 <= l < num_blocks j -> block_key i k = block_key j l -> i = j /\ k = l.
Proof.
  intros Hi Hj Hk Hl. rewrite !block_key_begin by done. intros E.
  pose proof (f_equal fst E) as E1. pose proof (f_equal snd E) as E2. cbn [fst snd] in E1, E2.
  change BLOCK_LEN with 16384 in E2. lia.
Qed.

(** ** The whole download

    [P index k d] says that [d] is acceptable as the bytes of block [k] of the piece;
    the properties below instantiate it with blocks of the right length, and with the
    blocks of a given torrent content. *)
Section Download.
Variable P : Z -> Z -> bytes -> Prop.
Hypothesis P_length : forall index k d, P index k d -> Z.of_nat (length d) = block_size index k.

Definition piece_slice (c : bytes) (index : Z) : bytes :=
  take (Z.to_nat (piece_size ti index)) (drop (Z.to_nat (index * ti_piece_length ti)) c).

Definition from_blocks (index : Z) (d : bytes) : Prop :=
  exists ds, d = concat ds /\ Forall2 (P index) (block_inds (num_blocks index)) ds.

(** The pieces in [S] are on disk, complete and checked; every other block that has
    arrived is kept as it came. *)
Record download_inv (S : gset Z) ph : Prop := {
  di_ready : ready ph;
  di_empty : forall key, received_at ph key = false -> data ph key = [];
  di_block : forall i k, piece_index_ok ti i -> i ∉ S -> 0 <= k < num_blocks i ->
    received_at ph (block_key i k) = true -> P i k (data ph (block_key i k));
  di_done : forall i, i ∈ S -> piece_index_ok ti i /\ piece_arrived ph i /\
    from_blocks i (piece_slice (disk_content ph) i) /\
    sha1 (piece_slice (disk_content ph) i) = ti_hash_for_piece ti i;
  di_wrong : forall i, piece_index_ok ti i -> i ∉ S -> piece_arrived ph i ->
    sha1 (piece_data ph i) <> ti_hash_for_piece ti i;
  di_written : written_pieces_ ph = Z.of_nat (size S);
}.

Lemma piece_arrived_ext ph ph' index : (forall key, received_at ph' key = received_at ph key) ->
  piece_arrived ph' index <-> piece_arrived ph index.
Proof. intros H. unfold piece_arrived. by setoid_rewrite H. Qed.

(** The invariant looks only at the blocks and at the disk. *)
Lemma download_inv_ext S ph ph' :
  (forall key, block_at ph' key = block_at ph key) -> file_handlers_ ph' = file_handlers_ ph ->
  written_pieces_ ph' = written_pieces_ ph -> disk_ ph' = disk_ ph ->
  download_inv S ph -> download_inv S ph'.
Proof.
  intros Hb Hfh Hw Hd [H1 H2 H3 H4 H5 H6].
  assert (forall key, received_at ph' key = received_at ph key) as Hr
    by (intros key; unfold received_at; by rewrite Hb).
  assert (forall key, data ph' key = data ph key) as Hdata by (intros key; unfold data; by rewrite Hb).
  assert (disk_content ph' = disk_content ph) as Hc by (unfold disk_content; by rewrite Hd).
  split.
  - unfold ready. by rewrite Hfh, Hd.
  - intros key. rewrite Hr, Hdata. apply H2.
  - intros i k. rewrite Hr, Hdata. by apply H3.
  - intros i Hi. rewrite (piece_arrived_ext ph), Hc by done. by apply H4.
  - intros i Hi Hn. rewrite (piece_arrived_ext ph) by done. intros Ha.
    unfold piece_data. rewrite (blocks_data_ext ph) by (intros; apply Hdata). by apply H5.
  - by rewrite Hw.
Qed.

Lemma download_inv_equiv S ph ph' : ph ≡ ph' -> download_inv S ph -> download_inv S ph'.
Proof.
  intros (_ & _ & H1 & H2 & H3 & H4). by apply download_inv_ext.
Qed.

Lemma num_blocks_pos index : piece_index_ok ti index -> 0 < num_blocks index.
Proof.
  intros Hi. destruct (piece_size_bounds ti index torrent_is_ok Hi) as [Hps _].
  apply (blocks_per_piece_bounds (piece_size ti index)). lia.
Qed.

Lemma piece_data_length ph index : piece_index_ok ti index ->
  (forall k, 0 <= k < num_blocks index -> full_block ph index k) ->
  Z.of_nat (length (piece_data ph index)) = piece_size ti index.
Proof.
  intros Hi Hfull. pose proof (num_blocks_pos index Hi) as Hpos.
  pose proof (blocks_data_length ph index (Z.to_nat (num_blocks index)) 0 Hi ltac:(lia)) as H.
  rewrite Z2Nat.id in H by lia. specialize (H ltac:(lia) Hfull ltac:(lia)). unfold piece_data, block_inds.
  rewrite H. lia.
Qed.

(** Pieces do not overlap in the content. *)
Lemma piece_slice_splice c i j d : piece_index_ok ti i -> piece_index_ok ti j ->
  Z.of_nat (length c) = ti_total_size ti -> Z.of_nat (length d) = piece_size ti i ->
  piece_slice (splice c (Z.to_nat (i * ti_piece_length ti)) d) j =
    if decide (i = j) then d else piece_slice c j.
Proof.
  intros Hi Hj Hc Hd. unfold piece_slice.
  destruct (piece_size_bounds ti i torrent_is_ok Hi) as [Hpi Hei].
  destruct (piece_size_bounds ti j torrent_is_ok Hj) as [Hpj Hej].
  pose proof (tok_piece_length ti torrent_is_ok) as Hpl. unfold piece_index_ok in *.
  assert (0 <= i * ti_piece_length ti /\ 0 <= j * ti_piece_length ti) by nia.
  case_decide as E.
  - subst j. rewrite <- Hd, Nat2Z.id. apply drop_splice_inside. lia.
  - apply take_drop_splice_outside; [lia|].
    destruct (decide (i < j)).
    + assert ((i + 1) * ti_piece_length ti <= j * ti_piece_length ti) by nia. lia.
    + assert ((j + 1) * ti_piece_length ti <= i * ti_piece_length ti) by nia. lia.
Qed.

(** What an incomplete or unchecked piece must satisfy before [write_if_valid]. *)
Record stored_inv (S : gset Z) (index : Z) ph : Prop := {
  si_ready : ready ph;
  si_empty : forall key, received_at ph key = false -> data ph key = [];
  si_block : forall i k, piece_index_ok ti i -> i ∉ S -> 0 <= k < num_blocks i ->
    received_at ph (block_key i k) = true -> P i k (data ph (block_key i k));
  si_done : forall i, i ∈ S -> piece_index_ok ti i /\ piece_arrived ph i /\
    from_blocks i (piece_slice (disk_content ph) i) /\
    sha1 (piece_slice (disk_content ph) i) = ti_hash_for_piece ti i;
  si_wrong : forall i, piece_index_ok ti i -> i ∉ S -> i <> index -> piece_arrived ph i ->
    sha1 (piece_data ph i) <> ti_hash_for_piece ti i;
  si_written : written_pieces_ ph = Z.of_nat (size S);
}.

Lemma store_block_inv S index k d ph : download_inv S ph -> piece_index_ok ti index ->
  0 <= k < num_blocks index -> P index k d -> received_at ph (block_key index k) = false ->
  (index ∉ S) /\ stored_inv S index (store_block (block_key index k) d ph).
Proof.
  intros [H1 H2 H3 H4 H5 H6] Hi Hk Hd Hr. pose proof (H2 _ Hr) as Hempty.
  assert (index ∉ S) as Hn.
  { intros Hin. destruct (H4 _ Hin) as (_ & Ha & _). by rewrite Ha in Hr. }
  split; [done|]. split; try done.
  - intros key. rewrite store_block_received, store_block_data by done. case_decide; [done|apply H2].
  - intros i l Hoi HiS Hl. rewrite store_block_received, store_block_data by done.
    case_decide as E; [|by apply H3].
    by destruct (block_key_inj _ _ _ _ Hi Hoi Hk Hl E) as [<- <-].
  - intros i Hin. destruct (H4 _ Hin) as (Hoi & Ha & Hs). split; [done|]. split; [|done].
    intros l Hl. rewrite store_block_received. case_decide; [done|by apply Ha].
  - intros i Hoi HiS Hne Ha.
    assert (forall l, 0 <= l < num_blocks i -> block_key index k <> block_key i l) as Hkey.
    { intros l Hl E. by destruct (block_key_inj _ _ _ _ Hi Hoi Hk Hl E) as [<- _]. }
    unfold piece_data. rewrite (blocks_data_ext ph).
    + apply H5; [done|done|]. intros l Hl. specialize (Ha l Hl). rewrite store_block_received in Ha.
      by rewrite decide_False in Ha by (by apply Hkey).
    + intros l Hl%elem_of_block_inds. rewrite store_block_data by done.
      by rewrite decide_False by (by apply Hkey).
Qed.

Lemma from_blocks_data ph index : (forall k, 0 <= k < num_blocks index -> P index k (data ph (block_key index k))) ->
  from_blocks index (piece_data ph index).
Proof.
  intros H. exists (map (fun k => data ph (block_key index k)) (block_inds (num_blocks index))).
  split; [done|]. apply Forall2_fmap_r, Forall_Forall2_diag, Forall_forall.
  intros k Hk%elem_of_block_inds. by apply H.
Qed.

(** Writing the piece that has just become complete and valid. *)
Lemma write_valid_inv S index ph : stored_inv S index ph -> index ∉ S -> piece_index_ok ti index ->
  piece_arrived ph index -> sha1 (piece_data ph index) = ti_hash_for_piece ti index ->
  exists ph', write_if_valid ti index ph = Ok (true, ph') /\ download_inv ({[index]} ∪ S) ph'.
Proof.
  intros [H1 H2 H3 H4 H5 H6] Hn Hi Ha Hsha.
  assert (forall k, 0 <= k < num_blocks index -> P index k (data ph (block_key index k))) as HP
    by (intros k Hk; by apply H3, Ha).
  assert (forall k, 0 <= k < num_blocks index -> full_block ph index k) as Hfull
    by (intros k Hk; by apply P_length, HP).
  destruct (write_if_valid_ok index ph Hi H1 Hfull Ha Hsha) as (ph1 & ph' & Hw & Hf & Hph' & Hr & Hc).
  exists ph'. split; [done|].
  assert (forall key, received_at ph' key = received_at ph key) as Hrec
    by (subst ph'; exact (ow_received _ _ _ Hf)).
  assert (forall key, ~ piece_key index key -> data ph' key = data ph key) as Hdata
    by (subst ph'; intros key Hkey; unfold data; f_equal; f_equal; exact (ow_block _ _ _ Hf key Hkey)).
  assert (forall i k, piece_index_ok ti i -> i <> index -> 0 <= k < num_blocks i ->
    data ph' (block_key i k) = data ph (block_key i k)) as Hother.
  { intros i k Hoi Hne Hk. apply Hdata. intros (l & Hl & E).
    by destruct (block_key_inj _ _ _ _ Hoi Hi Hk Hl E) as [-> _]. }
  pose proof (content_length_ready ph H1) as Hcl.
  pose proof (piece_data_length ph index Hi Hfull) as Hpl.
  assert (forall j, piece_index_ok ti j -> piece_slice (disk_content ph') j =
    if decide (index = j) then piece_data ph index else piece_slice (disk_content ph) j) as Hslice.
  { intros j Hj. rewrite Hc. by apply piece_slice_splice. }
  split.
  - done.
  - intros key Hkey. rewrite Hrec in Hkey. rewrite Hdata; [by apply H2|].
    intros (l & Hl & ->). by rewrite Ha in Hkey.
  - intros i k Hoi HiS Hk Hrk. rewrite Hrec in Hrk.
    rewrite Hother by set_solver. apply H3; [done|set_solver|done|done].
  - intros i HiS. rewrite (piece_arrived_ext ph) by done.
    destruct (decide (index = i)) as [<-|Hne].
    + rewrite Hslice, decide_True by done. split_and!; try done. by apply from_blocks_data.
    + destruct (H4 i ltac:(set_solver)) as (Hoi & Hai & Hfb & Hs).
      rewrite Hslice, decide_False by done. done.
  - intros i Hoi HiS. rewrite (piece_arrived_ext ph) by done. intros Hai.
    unfold piece_data. rewrite (blocks_data_ext ph).
    + apply H5; [done|set_solver|set_solver|done].
    + intros k Hk%elem_of_block_inds. apply Hother; [done|set_solver|done].
  - subst ph'. simpl. rewrite H6. rewrite size_union, size_singleton by set_solver. lia.
Qed.

(** A delivery of a good block keeps the invariant; the session is stopped when it
    makes the last piece valid. *)
Lemma download_inv_received S ph piece index k d :
  download_inv S ph -> piece_index_ok ti index -> 0 <= k < num_blocks index -> P index k d ->
  bb_readable piece = be 4 index ++ be 4 (k * BLOCK_LEN) ++ d ->
  exists ph' stop S', received ti piece ph = Ok (ph', stop) /\ download_inv S' ph' /\
    (received_at ph (block_key index k) = false ->
     stop = bool_decide (index ∈ S' /\ ti_num_pieces ti <= Z.of_nat (size S'))) /\
    (stop = true -> ti_num_pieces ti <= Z.of_nat (size S')).
Proof.
  intros Hinv Hi Hk Hd Hb. destruct (block_bounds index k Hi Hk) as (Hkb & Hps & _).
  pose proof (tok_num_range ti torrent_is_ok). assert (0 <= index < 2 ^ 31) as Hir by (unfold piece_index_ok in Hi; lia).
  rewrite (received_unfold _ _ _ _ ph Hb) by lia. cbv zeta.
  rewrite <- (block_key_begin index k) by done.
  destruct (received_at ph (block_key index k)) eqn:Er.
  { exists (touch_block (block_key index k) ph), false, S. split_and!; try done.
    eapply download_inv_equiv; [symmetry; apply touch_block_equiv|done]. }
  apply (download_inv_equiv S _ (touch_block (block_key index k) ph)) in Hinv;
    [|symmetry; apply touch_block_equiv].
  rewrite <- (received_at_touch (block_key index k)) in Er.
  destruct (store_block_inv S index k d _ Hinv Hi Hk Hd Er) as [Hn Hst].
  set (ph1 := store_block _ _ _) in *.
  destruct (decide (Forall (fun k => received_at ph1 (block_key index k) = true) (block_inds (num_blocks index)) /\
    sha1 (piece_data ph1 index) = ti_hash_for_piece ti index)) as [[Ha%piece_arrived_inds Hs]|Hno].
  - destruct (write_valid_inv S index ph1 Hst Hn Hi Ha Hs) as (ph' & -> & Hinv').
    cbn [mbind result_bind fst snd]. exists ph', (is_done ti ph'), ({[index]} ∪ S).
    unfold is_done. rewrite (di_written _ _ Hinv').
    split_and!; [done|done| |by intros ?%Z.leb_le].
    intros _. destruct (Z.leb_spec (ti_num_pieces ti) (Z.of_nat (size ({[index]} ∪ S)))).
    + symmetry. apply bool_decide_true. split; [set_solver|done].
    + symmetry. apply bool_decide_false. intros [_ ?]. lia.
  - destruct (write_if_valid_not index ph1 Hi) as (ph' & -> & He).
    { intros [Ha Hs]. apply Hno. by rewrite piece_arrived_inds. }
    cbn [mbind result_bind fst snd andb]. exists ph', false, S.
    split_and!; [done| | |done].
    + eapply download_inv_equiv; [symmetry; exact He|]. destruct Hst as [G1 G2 G3 G4 G5 G6].
      split; try done. intros i Hoi HiS Ha. destruct (decide (i = index)) as [->|]; [|by apply G5].
      intros Hs. apply Hno. by rewrite piece_arrived_inds.
    + intros _. symmetry. apply bool_decide_false. by intros [? _].
Qed.

(** ** From creation to the end *)

(** Everything but the peers' pieces and queues is the same. *)
Definition same_disk ph ph' : Prop :=
  (forall key, block_at ph' key = block_at ph key) /\ file_handlers_ ph' = file_handlers_ ph /\
  written_pieces_ ph' = written_pieces_ ph /\ disk_ ph' = disk_ ph.

Lemma same_disk_trans a b c : same_disk a b -> same_disk b c -> same_disk a c.
Proof. intros (A1 & A2 & A3 & A4) (B1 & B2 & B3 & B4). split_and!; congruence. Qed.

Lemma same_disk_equiv ph ph' : ph ≡ ph' -> same_disk ph' ph.
Proof. by intros (_ & _ & H1 & H2 & H3 & H4). Qed.

Lemma have_same_disk peer index ph : same_disk ph (have ti peer index ph).
Proof.
  eapply same_disk_trans; [|apply same_disk_equiv, (have_equiv ti peer index ph)]. by case_decide.
Qed.

Lemma have_fold_same_disk peer l : forall ph, same_disk ph (foldl (fun ph i => have ti peer i ph) ph l).
Proof.
  induction l as [|i l IH]; intros ph; [done|]. eapply same_disk_trans; [apply have_same_disk|apply IH].
Qed.

Lemma bitfield_same_disk fuel peer : forall off bf ph ph',
  have_bitfield_loop ti fuel peer off bf ph = Ok ph' -> same_disk ph ph'.
Proof.
  induction fuel as [|fuel IH]; intros off bf ph ph'; cbn [have_bitfield_loop];
    destruct (0 <? bb_available bf); try done; try (by intros [= <-]).
  destruct (bb_read_8 bf) as [byte bf']. intros H%IH. eapply same_disk_trans; [|done].
  rewrite have_byte_fold. apply have_fold_same_disk.
Qed.

Lemma request_same_disk peer ph r ph' : get_piece_request ti peer ph = (r, ph') -> same_disk ph ph'.
Proof.
  intros H. pose proof (get_piece_request_spec ti peer ph) as Hs. rewrite H in Hs. destruct r as [ok r].
  destruct (drop_received _ _) as [|r0 q0]; [destruct Hs as [_ He]|destruct Hs as (_ & _ & He)];
    by apply same_disk_equiv in He.
Qed.

(** The calls of the program, in which every block that is delivered satisfies [P]. *)
Inductive download_step : piece_handler -> piece_handler -> Prop :=
  | dl_have peer index ph : download_step ph (have ti peer index ph)
  | dl_bitfield peer bitfield ph ph' :
      have_bitfield ti peer bitfield ph = Ok ph' -> download_step ph ph'
  | dl_request peer ph r ph' : get_piece_request ti peer ph = (r, ph') -> download_step ph ph'
  | dl_received piece index k d ph ph' stop :
      piece_index_ok ti index -> 0 <= k < num_blocks index -> P index k d ->
      bb_readable piece = be 4 index ++ be 4 (k * BLOCK_LEN) ++ d ->
      received ti piece ph = Ok (ph', stop) -> download_step ph ph'.

Inductive download_reachable : piece_handler -> Prop :=
  | dl_init dk mkdirs ph : piece_handler_create ti dk = Ok (mkdirs, ph) -> download_reachable ph
  | dl_next ph ph' : download_reachable ph -> download_step ph ph' -> download_reachable ph'.

(** The client may open every file of the torrent. *)
Hypothesis files_open : forall f, f ∈ ti_files ti -> fs_can_open (fe_path f) = true.

(** Creating a file makes it, whatever was on disk. *)
Lemma file_handler_create_content f dk : fs_can_open (fe_path f) = true -> 0 <= fe_size f ->
  let r := file_handler_create f dk in
  length (file_content r.2 f) = Z.to_nat (fe_size f) /\
  (0 < fe_size f -> r.1 = mk_file_handler (fe_path f) true) /\
  (forall p, p <> fe_path f -> r.2 !! p = dk !! p).
Proof.
  intros Ho Hs r. destruct (decide (0 < fe_size f)) as [Hpos|Hz].
  - subst r. rewrite file_handler_create_ok by done. simpl. unfold file_content.
    rewrite lookup_insert_eq. simpl. rewrite length_replicate. split_and!; try done.
    intros p Hp. by rewrite lookup_insert_ne.
  - assert (fe_size f = 0) as E by lia. subst r. unfold file_handler_create. rewrite Ho, E. simpl.
    unfold file_content. rewrite lookup_insert_eq. split_and!; [done|lia|].
    intros p Hp. by rewrite lookup_insert_ne.
Qed.

Lemma emplace_ready files : forall o total fh dk,
  files_ok o files total -> (forall f, f ∈ files -> fs_can_open (fe_path f) = true) ->
  NoDup (map fe_path files) -> NoDup (map fe_name files) ->
  (forall f, f ∈ files -> fh !! fe_name f = None) ->
  let r := foldl emplace_handler (fh, dk) files in
  files_ready files r.1 r.2 /\
  (forall n, n ∉ map fe_name files -> r.1 !! n = fh !! n) /\
  (forall p, p ∉ map fe_path files -> r.2 !! p = dk !! p).
Proof.
  induction files as [|f files IH]; intros o total fh dk Hok Hop Hp Hn Hfh; [by split_and!; [constructor| |]|].
  destruct Hok as (_ & Hsz & Hok).
  change (map fe_path (f :: files)) with (fe_path f :: map fe_path files) in *.
  change (map fe_name (f :: files)) with (fe_name f :: map fe_name files) in *.
  apply NoDup_cons in Hp as [Hpf Hp]. apply NoDup_cons in Hn as [Hnf Hn].
  destruct (file_handler_create_content f dk (Hop f ltac:(left)) Hsz) as (Hc1 & Hc2 & Hc3).
  cbn [foldl].
  assert (emplace_handler (fh, dk) f = (<[fe_name f := (file_handler_create f dk).1]> fh, (file_handler_create f dk).2)) as ->.
  { unfold emplace_handler. cbn [fst snd]. rewrite (Hfh f) by left. by destruct (file_handler_create f dk). }
  destruct (file_handler_create f dk) as [h dk1]. cbn [fst snd] in *.
  destruct (IH _ _ (<[fe_name f := h]> fh) dk1 Hok) as (Hr & Hn' & Hp'); [set_solver|done|done| |].
  { intros g Hg. rewrite lookup_insert_ne; [apply Hfh; by right|]. intros E. apply Hnf. rewrite E.
    apply list_elem_of_fmap. by exists g. }
  split_and!.
  - constructor; [|done]. unfold file_content in *. rewrite Hp', Hn' by done. split; [done|].
    intros Hpos. by rewrite lookup_insert_eq, Hc2.
  - intros n Hnn. rewrite Hn' by set_solver. rewrite lookup_insert_ne; [done|]. set_solver.
  - intros p Hpp. rewrite Hp' by set_solver. apply Hc3. set_solver.
Qed.

Lemma download_inv_create dk mkdirs ph :
  piece_handler_create ti dk = Ok (mkdirs, ph) -> download_inv ∅ ph.
Proof.
  unfold piece_handler_create. intros (calls & _ & H)%result_bind_ok.
  destruct files_distinct as [Hp Hn].
  destruct (emplace_ready (ti_files ti) 0 _ ∅ dk (tok_files ti torrent_is_ok) files_open Hp Hn) as (Hr & _);
    [by intros; rewrite lookup_empty|].
  destruct (foldl _ _ _) as [fh dk']. injection H as <- <-. split.
  - done.
  - intros key _. unfold data, block_at. simpl. rewrite lookup_empty. apply new_readable.
  - intros i k _ _ _. unfold received_at, block_at. simpl. by rewrite lookup_empty.
  - set_solver.
  - intros i Hi _ Ha. specialize (Ha 0). unfold received_at, block_at in Ha. simpl in Ha.
    rewrite lookup_empty in Ha. pose proof (num_blocks_pos i Hi). discriminate Ha. lia.
  - by rewrite size_empty.
Qed.

Lemma download_reachable_inv ph : download_reachable ph -> exists S, download_inv S ph.
Proof.
  induction 1 as [dk mkdirs ph H|ph ph' _ [S IH] Hstep].
  - exists ∅. by eapply download_inv_create.
  - assert (same_disk ph ph' -> exists S, download_inv S ph') as Hsame.
    { intros (H1 & H2 & H3 & H4). exists S. by eapply download_inv_ext. }
    destruct Hstep as [peer index ph|peer bf ph ph' H|peer ph r ph' H|piece index k d ph ph' stop Hi Hk Hd Hb H].
    + apply Hsame, have_same_disk.
    + by eapply Hsame, bitfield_same_disk.
    + by eapply Hsame, request_same_disk.
    + destruct (download_inv_received S ph piece index k d IH Hi Hk Hd Hb) as (ph2 & stop2 & S' & H2 & Hinv & _).
      rewrite H in H2. injection H2 as -> ->. by exists S'.
Qed.
End Download.
End Writes.

(** ** Blocks that come twice *)

(** A block that has arrived already is ignored: nothing is stored, written or counted
    again, whatever the bytes are. *)
Theorem received_twice {BB : ByteBuffer} {BL : ByteBufferLaws BB} {FS : FileSystem} {SHA : Sha1}
    ti piece index begin d ph :
  bb_readable piece = be 4 index ++ be 4 begin ++ d -> 0 <= index < 2 ^ 32 -> 0 <= begin < 2 ^ 32 ->
  received_at ph (index, begin) = true ->
  exists ph', received ti piece ph = Ok (ph', false) /\ ph' ≡ ph.
Proof.
  intros Hb Hi Hbg Hr. rewrite (received_unfold _ _ _ _ _ _ Hb Hi Hbg), Hr.
  eexists. split; [done|]. apply touch_block_equiv.
Qed.

Section WriteWitnesses.
Import ListBuffer Sample.

Lemma received_twice_witness :
  exists ph', received (BB := list_buffer) torrent (delivery [1; 2]) (after the_data).1 = Ok (ph', false) /\ ph' ≡ (after the_data).1.
Proof.
  apply (received_twice (BB := list_buffer) torrent (delivery [1; 2]) 0 0 [1; 2] (after the_data).1); [done|lia|lia|].
  by vm_compute.
Defined.
End WriteWitnesses.
