(* ===== verification/Download.v ===== *)
(** * The download as a whole

    The end-to-end properties of the piece handler, from its creation to the call that
    stops the session: what is on disk when the client stops, when it stops, and what a
    corrupt piece does. *)

From S2P Require Import Prelude ByteBuffer Messages Storage Files PieceHandler Samples.
From S2P Require Import PieceRequests PieceWrites.

(** A block of the right length, whatever its bytes. *)
Definition sized (ti : torrent_info) (index k : Z) (d : bytes) : Prop :=
  Z.of_nat (length d) = block_size ti index k.

(** The block of the torrent content [D]. *)
Definition genuine (ti : torrent_info) (D : bytes) (index k : Z) (d : bytes) : Prop :=
  Z.of_nat (length d) = block_size ti index k /\
  d = take (Z.to_nat (block_size ti index k)) (drop (Z.to_nat (index * ti_piece_length ti + k * BLOCK_LEN)) D).

Section Download.
Context {BB : ByteBuffer} {BL : ByteBufferLaws BB} {FS : FileSystem} {SHA : Sha1} {SO : SetOrder}.
Variable ti : torrent_info.
Hypothesis torrent_is_ok : torrent_ok ti.
Hypothesis files_distinct : distinct_files (ti_files ti).
Hypothesis pieces_in_blocks : ti_piece_length ti mod BLOCK_LEN = 0.
Hypothesis offsets_fit : ti_total_size ti < 2 ^ 48.
Hypothesis files_open : forall f, f ∈ ti_files ti -> fs_can_open (fe_path f) = true.
Implicit Types ph : piece_handler.

(** A set of piece indices as large as the number of pieces has them all. *)
Lemma all_pieces (S : gset Z) : (forall i, i ∈ S -> piece_index_ok ti i) ->
  ti_num_pieces ti <= Z.of_nat (size S) <-> (forall i, piece_index_ok ti i -> i ∈ S).
Proof.
  intros Hok. set (A := list_to_set (seqZ 0 (ti_num_pieces ti)) : gset Z).
  assert (forall i, i ∈ A <-> piece_index_ok ti i) as HA.
  { intros i. unfold A, piece_index_ok. rewrite elem_of_list_to_set, elem_of_seqZ. lia. }
  assert (0 <= ti_num_pieces ti) as Hn.
  { destruct torrent_is_ok as [? ? E _ _]. rewrite E. apply Z.div_pos; lia. }
  assert (size A = Z.to_nat (ti_num_pieces ti)) as Hs.
  { unfold A. rewrite size_list_to_set by apply NoDup_seqZ. by rewrite length_seqZ. }
  assert (S ⊆ A) as Hsub by (intros i Hi; by apply HA, Hok). split.
  - intros Hle i Hi%HA. assert (S ≡ A) as HSA by (apply set_subseteq_size_equiv; [done|lia]). set_solver.
  - intros Hall. assert (A ⊆ S) as HAS by (intros i Hi%HA; by apply Hall).
    pose proof (subseteq_size _ _ HAS). lia.
Qed.

Section Any.
Variable P : Z -> Z -> bytes -> Prop.
Hypothesis P_length : forall index k d, P index k d -> Z.of_nat (length d) = block_size ti index k.

Lemma download_received ph piece index k d :
  download_reachable ti P ph -> piece_index_ok ti index -> 0 <= k < num_blocks ti index -> P index k d ->
  bb_readable piece = be 4 index ++ be 4 (k * BLOCK_LEN) ++ d ->
  exists ph' stop S', received ti piece ph = Ok (ph', stop) /\ download_inv ti P S' ph' /\
    (received_at ph (block_key index k) = false ->
     stop = bool_decide (index ∈ S' /\ ti_num_pieces ti <= Z.of_nat (size S'))) /\
    (stop = true -> ti_num_pieces ti <= Z.of_nat (size S')).
Proof.
  intros Hr Hi Hk Hd Hb.
  destruct (download_reachable_inv ti torrent_is_ok files_distinct pieces_in_blocks offsets_fit P P_length files_open ph Hr)
    as [S Hinv].
  by apply (download_inv_received ti torrent_is_ok files_distinct pieces_in_blocks offsets_fit P P_length S ph piece index k d).
Qed.

Lemma all_done S ph : download_inv ti P S ph -> ti_num_pieces ti <= Z.of_nat (size S) ->
  forall i, piece_index_ok ti i -> i ∈ S.
Proof. intros Hinv. apply all_pieces. intros i Hi. by destruct (di_done _ _ _ _ Hinv i Hi). Qed.
End Any.

(** ** Genuine blocks *)
Section Genuine.
Variable D : bytes.
Hypothesis D_length : Z.of_nat (length D) = ti_total_size ti.

Lemma take_app_drop (l : bytes) a n m : take n (drop a l) ++ take m (drop (a + n) l) = take (n + m) (drop a l).
Proof. rewrite <- drop_drop. generalize (drop a l). clear. intros l. by rewrite take_take_drop. Qed.

Lemma genuine_concat index m : forall k ds, piece_index_ok ti index -> 0 <= k ->
  k + Z.of_nat m = num_blocks ti index ->
  Forall2 (genuine ti D index) (seqZ k (Z.of_nat m)) ds ->
  concat ds = take (Z.to_nat (piece_size ti index - k * BLOCK_LEN))
    (drop (Z.to_nat (index * ti_piece_length ti + k * BLOCK_LEN)) D).
Proof.
  induction m as [|m IH]; intros k ds Hi Hk Hm Hds.
  - simpl in Hds. inversion Hds. subst. simpl.
    pose proof (piece_size_bounds ti index torrent_is_ok Hi) as [Hps _].
    destruct (blocks_per_piece_bounds (piece_size ti index) ltac:(lia)) as [_ Hb].
    unfold num_blocks in Hm. replace (Z.to_nat _) with 0%nat; [done|].
    assert (BLOCK_LEN = 16384) as HB by done. rewrite HB in *. lia.
  - rewrite seqZ_cons in Hds by lia. apply Forall2_cons_inv_l in Hds as (d & ds' & Hd & Hds & ->).
    replace (Z.pred (Z.of_nat (S m))) with (Z.of_nat m) in Hds by lia.
    cbn [concat]. rewrite (IH (Z.succ k) ds' Hi ltac:(lia) ltac:(lia) Hds). rewrite (proj2 Hd).
    destruct (block_bounds ti torrent_is_ok pieces_in_blocks index k Hi ltac:(lia)) as (Hkb & Hps & Hbs).
    pose proof (piece_size_bounds ti index torrent_is_ok Hi) as [_ Hend].
    assert (0 <= index * ti_piece_length ti) as Hpos.
    { pose proof (tok_piece_length ti torrent_is_ok). unfold piece_index_ok in Hi. nia. }
    destruct (blocks_per_piece_bounds (piece_size ti index) ltac:(lia)) as [_ Hb].
    fold (num_blocks ti index) in Hb. unfold block_size in *.
    destruct m as [|m].
    + replace (Z.to_nat (piece_size ti index - Z.succ k * BLOCK_LEN)) with 0%nat
        by (change BLOCK_LEN with 16384 in *; lia).
      rewrite take_0, app_nil_r. f_equal. change BLOCK_LEN with 16384 in *. lia.
    + replace (Z.to_nat (index * ti_piece_length ti + Z.succ k * BLOCK_LEN)) with
        (Z.to_nat (index * ti_piece_length ti + k * BLOCK_LEN) +
         Z.to_nat (Z.min BLOCK_LEN (piece_size ti index - k * BLOCK_LEN)))%nat
        by (change BLOCK_LEN with 16384 in *; lia).
      rewrite take_app_drop. f_equal. change BLOCK_LEN with 16384 in *. lia.
Qed.

(** The pieces are all of the content. *)
Lemma content_by_pieces c : Z.of_nat (length c) = ti_total_size ti ->
  (forall i, piece_index_ok ti i -> piece_slice ti c i = piece_slice ti D i) -> c = D.
Proof.
  intros Hc Heq. apply list_eq. intros j.
  destruct (decide (j < length c)%nat) as [Hj|Hj]; [|rewrite !(proj2 (lookup_ge_None _ _)) by lia; done].
  destruct torrent_is_ok as [Hpl Ht Hn Hr _].
  set (pl := ti_piece_length ti) in *. set (i := Z.of_nat j / pl).
  pose proof (Z.div_mod (Z.of_nat j) pl ltac:(lia)) as Hdm. fold i in Hdm.
  pose proof (Z.mod_pos_bound (Z.of_nat j) pl ltac:(lia)) as Hmb.
  assert (piece_index_ok ti i) as Hi.
  { unfold piece_index_ok. rewrite Hn. fold pl.
    pose proof (Z.div_mod (ti_total_size ti + pl - 1) pl ltac:(lia)) as Hdn.
    pose proof (Z.mod_pos_bound (ti_total_size ti + pl - 1) pl ltac:(lia)) as Hmn. split; [nia|nia]. }
  destruct (piece_size_bounds ti i torrent_is_ok Hi) as [_ Hend]. fold pl in Hend.
  assert (forall l : bytes, l !! j = piece_slice ti l i !! Z.to_nat (Z.of_nat j mod pl)) as Hl.
  { intros l. unfold piece_slice. fold pl.
    rewrite lookup_take_lt by nia. rewrite lookup_drop. f_equal. unfold piece_index_ok in Hi. nia. }
  by rewrite (Hl c), (Hl D), Heq.
Qed.

Lemma genuine_piece i d : piece_index_ok ti i -> from_blocks ti (genuine ti D) i d -> d = piece_slice ti D i.
Proof.
  intros Hi (ds & -> & Hds). pose proof (num_blocks_pos ti torrent_is_ok i Hi) as Hpos.
  unfold block_inds in Hds. rewrite <- (Z2Nat.id (num_blocks ti i)) in Hds by lia.
  rewrite (genuine_concat i (Z.to_nat (num_blocks ti i)) 0 ds Hi ltac:(lia) ltac:(lia) Hds).
  unfold piece_slice. by rewrite !Z.mul_0_l, Z.sub_0_r, Z.add_0_r.
Qed.
End Genuine.

(** ** A piece whose data is wrong *)
Section Frames.
Variable index : Z.

(** What happened between the two states left the blocks of [index] alone. *)
Definition untouched ph ph' : Prop :=
  (forall key, received_at ph key = true -> received_at ph' key = true) /\
  (forall key, key.1 = index -> received_at ph key = true -> block_at ph' key = block_at ph key).

Lemma untouched_refl ph : untouched ph ph.
Proof. done. Qed.

Lemma untouched_trans a b c : untouched a b -> untouched b c -> untouched a c.
Proof. intros [A1 A2] [B1 B2]. split; [auto|]. intros key Hk Hr. rewrite B2, A2; auto. Qed.

Lemma untouched_same_blocks ph ph' : (forall key, block_at ph' key = block_at ph key) -> untouched ph ph'.
Proof. intros H. split; [|done]. intros key. unfold received_at. by rewrite H. Qed.

Lemma write_slice_untouched key s ph ph' : key.1 <> index -> write_slice ti key ph s = Ok ph' -> untouched ph ph'.
Proof.
  intros Hk. unfold write_slice. destruct (ti_files ti !! _); [|done].
  destruct (file_handlers_ ph !! _); [|by intros [= <-]].
  destruct (file_handler_write _ _ _ _ _) as [[h d] dk]. intros [= <-].
  set (ph2 := set_files _ _ _).
  assert (forall key', block_at ph2 key' = if decide (key = key')
    then mk_received_block (received_ (block_at ph key)) d else block_at ph key') as H2
    by (intros key'; apply block_at_set).
  split; intros key'; unfold received_at; rewrite H2; case_decide as E; subst; done.
Qed.

Lemma write_slices_untouched key slices : forall ph ph', key.1 <> index ->
  write_slices ti key slices ph = Ok ph' -> untouched ph ph'.
Proof.
  induction slices as [|s slices IH]; intros ph ph' Hk; simpl; [by intros [= <-]|].
  intros (ph1 & H1 & H2)%result_bind_ok.
  eapply untouched_trans; [by eapply write_slice_untouched|by apply IH].
Qed.

Lemma write_blocks_untouched i inds : forall ph ph', i <> index ->
  write_blocks ti i inds ph = Ok ph' -> untouched ph ph'.
Proof.
  induction inds as [|k inds IH]; intros ph ph' Hi; cbn [write_blocks]; [by intros [= <-]|].
  intros (sl & _ & (ph1 & H1 & H2)%result_bind_ok)%result_bind_ok.
  apply write_slices_untouched in H1; [|done]. apply IH in H2; [|done].
  eapply untouched_trans; [|exact H2]. eapply untouched_trans; [|exact H1].
  apply untouched_same_blocks. intros key. apply block_at_touch.
Qed.

Lemma untouched_equiv ph ph' : ph' ≡ ph -> untouched ph ph'.
Proof. intros H. apply untouched_same_blocks. intros key. by apply block_at_proper. Qed.

Lemma write_if_valid_untouched i ph b ph' : i <> index ->
  write_if_valid ti i ph = Ok (b, ph') -> untouched ph ph'.
Proof.
  intros Hi. unfold write_if_valid.
  pose proof (collect_blocks_spec i (block_inds (blocks_per_piece (piece_size ti (i32 i)))) [] ph) as Hc.
  destruct (collect_blocks _ _ _ _) as [[hashed|] ph1]; destruct Hc as [He%untouched_equiv _];
    [|by intros [= <- <-]].
  case_bool_decide; [|by intros [= <- <-]].
  intros (ph2 & H2 & [= <- <-])%result_bind_ok. apply write_blocks_untouched in H2; [|done].
  eapply untouched_trans; [exact He|]. eapply untouched_trans; [exact H2|done].
Qed.

(** The piece is complete and its data does not have the right hash. *)
Definition corrupt ph : Prop :=
  piece_arrived ti ph index /\ sha1 (piece_data ti ph index) <> ti_hash_for_piece ti index.

Lemma corrupt_untouched ph ph' : untouched ph ph' -> corrupt ph -> corrupt ph'.
Proof.
  intros [H1 H2] [Ha Hs]. split; [intros k Hk; by apply H1, Ha|].
  unfold piece_data. rewrite (blocks_data_ext ph); [done|].
  intros k Hk%elem_of_block_inds. unfold data. by rewrite H2 by (done || by apply Ha).
Qed.

Hypothesis index_ok : piece_index_ok ti index.

Lemma received_corrupt piece ph ph' stop : corrupt ph -> received ti piece ph = Ok (ph', stop) -> corrupt ph'.
Proof.
  intros Hc. unfold received. destruct (bb_read_32 piece) as [i p1], (bb_read_32 p1) as [b p2].
  rewrite received_at_touch.
  pose proof (untouched_equiv _ _ (touch_block_equiv (i, b) ph)) as Ht.
  destruct (received_at ph (i, b)) eqn:Er; [intros [= <- <-]; by eapply corrupt_untouched|].
  intros ([ok ph1] & H1 & [= <- <-])%result_bind_ok. simpl.
  fold (store_block (i, b) (bb_readable p2) (touch_block (i, b) ph)) in H1.
  assert (untouched ph (store_block (i, b) (bb_readable p2) (touch_block (i, b) ph))) as Hs.
  { split; intros key; rewrite ?store_block_received, ?store_block_at, ?received_at_touch, ?block_at_touch;
      case_decide; subst; congruence. }
  apply (corrupt_untouched _ _ Hs) in Hc. destruct (decide (i = index)) as [->|Hne].
  - destruct (write_if_valid_not ti torrent_is_ok index (store_block (index, b) (bb_readable p2) (touch_block (index, b) ph)))
      as (ph2 & H2 & He); [done| |].
    { intros [_ Hok]. by apply Hc. }
    rewrite H1 in H2. injection H2 as -> ->. by eapply corrupt_untouched, Hc; apply untouched_equiv.
  - by eapply corrupt_untouched; [eapply write_if_valid_untouched|].
Qed.

Lemma corrupt_step ph ph' : ph_step ti ph ph' -> corrupt ph -> corrupt ph'.
Proof.
  assert (forall a b, same_disk a b -> corrupt a -> corrupt b) as Hsame.
  { intros a b (H & _). by apply corrupt_untouched, untouched_same_blocks. }
  intros Hstep Hc. destruct Hstep as [peer i ph|peer bf ph ph' H|peer ph r ph' H|piece ph ph' stop H].
  - by eapply Hsame, Hc; apply have_same_disk.
  - by eapply Hsame, Hc; eapply bitfield_same_disk.
  - by eapply Hsame, Hc; eapply request_same_disk.
  - by eapply received_corrupt.
Qed.
End Frames.

(** With genuine blocks, once all pieces are written the disk holds the content. *)
Lemma genuine_content D S ph : Z.of_nat (length D) = ti_total_size ti -> download_inv ti (genuine ti D) S ph ->
  ti_num_pieces ti <= Z.of_nat (size S) -> disk_content ti ph = D.
Proof.
  intros HD Hinv Hn. apply (content_by_pieces D HD).
  { apply content_length_ready; [done|]. apply Hinv. }
  intros i Hoi. apply (genuine_piece D); [done|].
  apply (di_done _ _ _ _ Hinv). by apply (all_done _ _ _ Hinv).
Qed.

(** With genuine blocks the last arrival stops the client, on the whole content. *)
Lemma genuine_stops D ph piece index k d :
  Z.of_nat (length D) = ti_total_size ti ->
  (forall i, piece_index_ok ti i -> sha1 (piece_slice ti D i) = ti_hash_for_piece ti i) ->
  download_reachable ti (genuine ti D) ph ->
  piece_index_ok ti index -> 0 <= k < num_blocks ti index -> genuine ti D index k d ->
  bb_readable piece = be 4 index ++ be 4 (k * BLOCK_LEN) ++ d ->
  received_at ph (block_key index k) = false ->
  exists ph' stop, received ti piece ph = Ok (ph', stop) /\
    (stop = true <-> forall i, piece_index_ok ti i -> piece_arrived ti ph' i) /\
    (stop = true -> disk_content ti ph' = D) /\ ready ti ph'.
Proof.
  intros HD Hh Hr Hi Hk Hd Hb Hnew.
  destruct (download_received (genuine ti D) (fun _ _ _ H => proj1 H) ph piece index k d Hr Hi Hk Hd Hb)
    as (ph' & stop & S & Hrec & Hinv & Hstop & Hsize).
  exists ph', stop. split; [done|].
  assert (forall i, piece_index_ok ti i -> piece_arrived ti ph' i -> i ∈ S) as Harr.
  { intros i Hoi Ha. destruct (decide (i ∈ S)) as [|Hn]; [done|exfalso].
    apply (di_wrong _ _ _ _ Hinv i Hoi Hn Ha). rewrite <- Hh by done. f_equal.
    apply (genuine_piece D); [done|]. apply from_blocks_data. intros l Hl.
    apply (di_block _ _ _ _ Hinv); [done|done|done|by apply Ha]. }
  split; [split|split; [|by apply Hinv]].
  - intros Ht i Hoi. apply (di_done _ _ _ _ Hinv), (all_done _ _ _ Hinv); [by apply Hsize|done].
  - intros Ha. rewrite Hstop by done. apply bool_decide_true. split; [by apply Harr, Ha|].
    apply all_pieces; [intros i HiS; by apply (di_done _ _ _ _ Hinv)|]. intros i Hoi. by apply Harr, Ha.
  - intros Ht. eapply genuine_content; [done|exact Hinv|by apply Hsize].
Qed.

(** ** Properties

    They are about torrents the client can download: well formed, with file names that differ
    even without their directories (the client keeps the handlers of its files by name), with a
    piece length that is a multiple of the 16384 bytes of a block, of fewer than 2^48 bytes, and
    with files that can be opened. *)

(** C1: For a torrent with distinct file names, a piece length that is a multiple of 16384 and
    fewer than 2^48 bytes, whose files can be opened: when the delivery of a block stops the
    client, its disk holds the torrent.  Whatever blocks of existing pieces, of the right length,
    have been delivered before, in whatever order, every piece of the files on disk has the hash
    the torrent gives it. *)
Theorem stop_sound ph piece index k d ph' :
  download_reachable ti (sized ti) ph ->
  piece_index_ok ti index -> 0 <= k < num_blocks ti index -> sized ti index k d ->
  bb_readable piece = be 4 index ++ be 4 (k * BLOCK_LEN) ++ d ->
  received ti piece ph = Ok (ph', true) ->
  forall i, piece_index_ok ti i -> sha1 (piece_slice ti (disk_content ti ph') i) = ti_hash_for_piece ti i.
Proof.
  intros Hr Hi Hk Hd Hb Hrec j Hj.
  destruct (download_received (sized ti) (fun _ _ _ H => H) ph piece index k d Hr Hi Hk Hd Hb)
    as (ph2 & stop & S & H2 & Hinv & _ & Hstop).
  rewrite Hrec in H2. injection H2 as <- <-.
  apply (di_done _ _ _ _ Hinv). by apply (all_done _ _ _ Hinv); [apply Hstop|].
Qed.

(** For such a torrent, with blocks of its content [D] only, the client stops with the
    arrival of the last block, neither earlier nor later, and its disk then holds exactly [D]. *)
Theorem genuine_download D ph piece index k d :
  Z.of_nat (length D) = ti_total_size ti ->
  (forall i, piece_index_ok ti i -> sha1 (piece_slice ti D i) = ti_hash_for_piece ti i) ->
  download_reachable ti (genuine ti D) ph ->
  piece_index_ok ti index -> 0 <= k < num_blocks ti index -> genuine ti D index k d ->
  bb_readable piece = be 4 index ++ be 4 (k * BLOCK_LEN) ++ d ->
  received_at ph (block_key index k) = false ->
  exists ph' stop, received ti piece ph = Ok (ph', stop) /\
    (stop = true <-> forall i, piece_index_ok ti i -> piece_arrived ti ph' i) /\
    (stop = true -> disk_content ti ph' = D).
Proof.
  intros HD Hh Hr Hi Hk Hd Hb Hnew.
  destruct (genuine_stops D ph piece index k d HD Hh Hr Hi Hk Hd Hb Hnew) as (ph' & stop & H1 & H2 & H3 & _).
  by exists ph', stop.
Qed.


(** C37: A piece whose blocks are all there but whose hash is wrong stays that way: its
    blocks count as received for ever, so whatever the peers do, none of them is asked
    for again. *)
Theorem corrupt_piece_stuck {SOL : SetOrderLaw SO} index ph ph' :
  piece_index_ok ti index -> ph_reachable ti ph -> corrupt index ph ->
  rtc (ph_step ti) ph ph' ->
  corrupt index ph' /\
  forall peer r ph'', get_piece_request ti peer ph' = ((true, r), ph'') -> index_ r <> index.
Proof.
  intros Hi Hr Hc Hsteps.
  assert (ph_reachable ti ph' /\ corrupt index ph') as [Hr' Hc'].
  { induction Hsteps as [|a b c Hab _ IH]; [done|].
    apply IH; [by eapply reach_step|by eapply corrupt_step]. }
  split; [done|]. intros peer r ph'' Hreq E.
  destruct (request_sound_lemma ti ph' peer r ph'' Hr' Hreq) as [(i & k & _ & Hk & ->) Hnot].
  simpl in E. subst i. rewrite size_of_ok in * by done.
  destruct Hc' as [Ha _]. specialize (Ha k Hk). unfold block_key in Ha. simpl in Hnot. congruence.
Qed.
End Download.

(** ** On the sample torrent *)
Section Witnesses.
Import ListBuffer Sample.

Lemma torrent_distinct : distinct_files (ti_files torrent).
Proof. split; apply (bool_decide_unpack _); by vm_compute. Qed.

Lemma torrent_blocks : ti_piece_length torrent mod BLOCK_LEN = 0.
Proof. by vm_compute. Qed.

Lemma one_block : 0 <= 0 < num_blocks torrent 0.
Proof. by vm_compute. Qed.

Lemma torrent_one_piece i : piece_index_ok torrent i -> i = 0.
Proof. unfold piece_index_ok. simpl. lia. Qed.

Lemma stop_sound_witness :
  received torrent (delivery the_data) created.2 = Ok ((after the_data).1, true) /\
  sha1 (piece_slice torrent (disk_content torrent (after the_data).1) 0) = the_data.
Proof.
  split; [exact genuine_received|].
  apply (stop_sound torrent torrent_is_ok torrent_distinct torrent_blocks eq_refl files_open
    created.2 (delivery the_data) 0 0 the_data (after the_data).1).
  - eapply dl_init, created_ok.
  - exact index_ok.
  - exact one_block.
  - by vm_compute.
  - done.
  - exact genuine_received.
  - exact index_ok.
Defined.

Lemma genuine_download_witness :
  exists ph' stop, received torrent (delivery the_data) created.2 = Ok (ph', stop) /\
    (stop = true <-> forall i, piece_index_ok torrent i -> piece_arrived torrent ph' i) /\
    (stop = true -> disk_content torrent ph' = the_data).
Proof.
  apply (genuine_download torrent torrent_is_ok torrent_distinct torrent_blocks eq_refl files_open
    the_data created.2 (delivery the_data) 0 0 the_data).
  - done.
  - intros i ->%torrent_one_piece. by vm_compute.
  - eapply dl_init, created_ok.
  - exact index_ok.
  - exact one_block.
  - split; by vm_compute.
  - done.
  - by vm_compute.
Defined.


Lemma wrong_is_corrupt : corrupt torrent 0 (after wrong_data).1.
Proof.
  split; [|by vm_compute]. intros k Hk. assert (k = 0) as -> by (change (num_blocks torrent 0) with 1 in Hk; lia). by vm_compute.
Qed.

Lemma corrupt_piece_stuck_witness :
  corrupt torrent 0 (after wrong_data).1 /\
  forall peer r ph'', get_piece_request torrent peer (after wrong_data).1 = ((true, r), ph'') -> index_ r <> 0.
Proof.
  apply (corrupt_piece_stuck torrent torrent_is_ok 0 (after wrong_data).1 (after wrong_data).1).
  - exact index_ok.
  - eapply reach_step; [eapply reach_init, created_ok|].
    eapply step_received, wrong_received.
  - exact wrong_is_corrupt.
  - apply rtc_refl.
Defined.
End Witnesses.
