(* ===== verification/EndToEnd.v ===== *)
(** * From the torrent file to the files on disk

    The parts composed: a torrent made for some content is encoded, read back by
    [torrent_info], and downloaded by the piece handler, whose hash function is the one
    the hasher computes.  At the end the files of the torrent hold the content. *)

From S2P Require Import Prelude ByteBuffer Messages Storage Sha1 Sha1Spec Bdecode Paths FileStorage Entry TorrentNames TorrentInfo.
From S2P Require Import TorrentRead TorrentMake Files PieceHandler Samples PieceRequests PieceWrites Download TorrentLayout.

(** The piece handler checks pieces with the digest of the standard, which is what the
    hasher computes (Sha1Spec.v). *)
#[local] Instance standard_digest : Sha1 := fips_sha1.

(** [l] cut into parts of the given sizes. *)
Fixpoint cut (sizes : list Z) (l : bytes) : list bytes :=
  match sizes with
  | [] => []
  | n :: sizes' => take (Z.to_nat n) l :: cut sizes' (drop (Z.to_nat n) l)
  end.

(** The hashes of the pieces of [D]. *)
Definition made_hashes (mt : made_torrent) (D : bytes) : list bytes :=
  map (fun i => fips_sha1 (take (Z.to_nat (mt_piece_length mt)) (drop (Z.to_nat (i * mt_piece_length mt)) D)))
    (seqZ 0 (made_pieces mt)).

(** The torrent was made for the content [D]. *)
Definition made_for (mt : made_torrent) (D : bytes) : Prop :=
  Z.of_nat (length D) = made_total mt /\ mt_pieces mt = concat (made_hashes mt D).

(** The files with the paths below the torrent's name and their parts of [D]. *)
Definition made_files (mt : made_torrent) (D : bytes) : list (bytes * bytes) :=
  zip (map (fun f => join_path (mt_name mt :: made_path f)) (mt_files mt)) (cut (map mf_size (mt_files mt)) D).

Lemma cut_length sizes : forall l, length (cut sizes l) = length sizes.
Proof. induction sizes as [|n sizes IH]; intros l; simpl; [done|]. by rewrite IH. Qed.

Lemma made_files_paths mt D : (made_files mt D).*1 = map (fun f => join_path (mt_name mt :: made_path f)) (mt_files mt).
Proof. unfold made_files. rewrite fst_zip; [done|]. by rewrite cut_length, !length_map. Qed.

Definition files_on_disk (ti : torrent_info) (dk : disk) : list (bytes * bytes) :=
  map (fun f => (fe_path f, file_content dk f)) (ti_files ti).

(** ** Hashes *)

(** The [i]-th of the parts of length 20. *)
Lemma concat_20 (l : list bytes) : forall i h, Forall (fun h => length h = 20%nat) l -> l !! i = Some h ->
  take 20 (drop (i * 20) (concat l)) = h.
Proof.
  induction l as [|a l IH]; intros i h Hl Hi; [done|]. apply Forall_cons in Hl as [Ha Hl].
  cbn [concat]. destruct i as [|i]; cbn [lookup list_lookup] in Hi.
  - injection Hi as ->. rewrite Nat.mul_0_l, drop_0. by apply take_app_length'.
  - replace (S i * 20)%nat with (length a + i * 20)%nat by lia. rewrite drop_app_add. by apply IH.
Qed.

(** ** Files *)

Lemma cut_content files : forall o total fh dk, files_ok o files total -> files_ready files fh dk ->
  cut (map fe_size files) (content files dk) = map (file_content dk) files.
Proof.
  induction files as [|f files IH]; intros o total fh dk Hok Hr; [done|].
  destruct Hok as (_ & Hs & Hok). apply Forall_cons in Hr as [[Hl _] Hr].
  cbn [map cut]. rewrite content_cons, take_app_length', drop_app_length' by done. f_equal. by eapply IH.
Qed.

Lemma files_on_disk_content ti fh dk : torrent_ok ti -> files_ready (ti_files ti) fh dk ->
  files_on_disk ti dk = zip (map fe_path (ti_files ti)) (cut (map fe_size (ti_files ti)) (content (ti_files ti) dk)).
Proof.
  intros Hok Hr. rewrite (cut_content _ 0 _ fh dk (tok_files _ Hok) Hr).
  unfold files_on_disk. clear. induction (ti_files ti) as [|f l IH]; [done|]. simpl. by rewrite IH.
Qed.

(** What follows the last separator of a path is determined by the path. *)
Lemma last_part (x y a b : bytes) : 47 ∉ a -> 47 ∉ b -> x ++ 47 :: a = y ++ 47 :: b -> a = b.
Proof.
  intros Ha Hb [(l & E1 & E2)|(l & E1 & E2)]%app_eq_inv.
  - destruct l as [|c l]; [by injection E2 as <-|]. injection E2 as <- ->. exfalso. apply Hb. set_solver.
  - destruct l as [|c l]; [by injection E2 as <-|]. injection E2 as <- ->. exfalso. apply Ha. set_solver.
Qed.

Lemma made_path_leaf mt f : join_path (mt_name mt :: made_path f) =
  (mt_name mt ++ concat (map (fun x => 47 :: x) (mf_dirs f))) ++ 47 :: mf_leaf f.
Proof. rewrite join_cons. unfold made_path. rewrite map_app, concat_app. simpl. by rewrite app_nil_r, app_assoc. Qed.

Lemma made_paths_differ mt l : Forall made_file_ok l -> NoDup (map mf_leaf l) ->
  NoDup (map (fun f => join_path (mt_name mt :: made_path f)) l).
Proof.
  assert (forall f, made_file_ok f -> 47 ∉ mf_leaf f) as Hsep.
  { intros f (_ & [(_ & Hc & _) _] & _) H. rewrite Forall_forall in Hc. by destruct (Hc 47 H) as (_ & ? & _). }
  induction l as [|f l IH]; intros Hl Hd; [by constructor|]. apply Forall_cons in Hl as [Hf Hl]. cbn [map] in *.
  apply NoDup_cons in Hd as [Hn Hd]. constructor; [|by apply IH]. intros (g & E & Hg)%list_elem_of_fmap. apply Hn.
  rewrite !made_path_leaf in E. apply last_part in E; [|by apply Hsep|apply Hsep; by rewrite Forall_forall in Hl; apply Hl].
  rewrite E. by apply list_elem_of_fmap_2.
Qed.

Section EndToEnd.
Context {EN : Endian} {CRC : Crc32c} {PE : PastEnd} {SH : Shuffle} {SL : ShuffleLaws SH}.
Context {BB : ByteBuffer} {BL : ByteBufferLaws BB} {FS : FileSystem} {SO : SetOrder}.

(** What the loaded torrent is, seen from the piece handler. *)
Record loads_as (mt : made_torrent) (ti : torrent_info) : Prop := {
  la_piece_length : ti_piece_length ti = mt_piece_length mt;
  la_total : ti_total_size ti = made_total mt;
  la_pieces : ti_num_pieces ti = made_pieces mt;
  la_files : map (fun f => (fe_path f, fe_name f, fe_size f)) (ti_files ti) =
    map (fun f => (join_path (mt_name mt :: made_path f), mf_leaf f, mf_size f)) (mt_files mt);
  la_layout : files_ok 0 (ti_files ti) (made_total mt);
  la_hash : forall i, 0 <= i < made_pieces mt -> ti_hash_for_piece ti i = take 20 (drop (Z.to_nat (i * 20)) (mt_pieces mt));
}.

Section Loaded.
Variables (mt : made_torrent) (ti : torrent_info).
Hypothesis mt_ok : made_ok mt.
Hypothesis loaded : loads_as mt ti.

Lemma loaded_ok : torrent_ok ti.
Proof.
  destruct mt_ok as [_ _ Hpl _ [Ht Hmax] [Hn _]]. destruct loaded as [Epl Et Ep _ Hl _].
  split; rewrite ?Epl, ?Et, ?Ep; try done; try lia. unfold default_piece_limit in Hn. lia.
Qed.

Lemma loaded_fits : ti_total_size ti < 2 ^ 48.
Proof. rewrite (la_total _ _ loaded). by destruct mt_ok as [_ _ _ _ [[_ Ht] _] _]. Qed.

Lemma loaded_paths : map fe_path (ti_files ti) = map (fun f => join_path (mt_name mt :: made_path f)) (mt_files mt).
Proof. pose proof (f_equal (map (fun x => x.1.1)) (la_files _ _ loaded)) as H. by rewrite !map_map in H. Qed.

Lemma loaded_names : map fe_name (ti_files ti) = map mf_leaf (mt_files mt).
Proof. pose proof (f_equal (map (fun x => x.1.2)) (la_files _ _ loaded)) as H. by rewrite !map_map in H. Qed.

Lemma loaded_sizes : map fe_size (ti_files ti) = map mf_size (mt_files mt).
Proof. pose proof (f_equal (map (fun x => x.2)) (la_files _ _ loaded)) as H. by rewrite !map_map in H. Qed.

Lemma piece_slice_made D i : Z.of_nat (length D) = made_total mt -> piece_index_ok ti i ->
  piece_slice ti D i = take (Z.to_nat (mt_piece_length mt)) (drop (Z.to_nat (i * mt_piece_length mt)) D).
Proof.
  intros HD Hi. destruct (piece_size_bounds ti i loaded_ok Hi) as [Hb He].
  destruct loaded as [Epl Et _ _ _ _]. destruct mt_ok as [_ _ Hpl _ _ _]. rewrite ?Epl, ?Et in *. unfold piece_slice. rewrite Epl.
  unfold piece_index_ok in Hi.
  destruct (decide ((i + 1) * mt_piece_length mt <= made_total mt)) as [Hle|Hgt]; [f_equal; lia|].
  rewrite !take_ge; [done| |]; rewrite length_drop; nia.
Qed.

(** The hashes in the torrent are those of the pieces of the content. *)
Lemma loaded_hashes D i : made_for mt D -> piece_index_ok ti i -> sha1 (piece_slice ti D i) = ti_hash_for_piece ti i.
Proof.
  intros [HD Hp] Hi. rewrite (piece_slice_made D i HD Hi). unfold piece_index_ok in Hi. rewrite (la_pieces _ _ loaded) in Hi.
  rewrite (la_hash _ _ loaded), Hp by done.
  replace (Z.to_nat (i * 20)) with (Z.to_nat i * 20)%nat by lia. symmetry. apply concat_20.
  - unfold made_hashes. apply Forall_map, Forall_true. intros x. apply fips_sha1_length.
  - unfold made_hashes. rewrite list_lookup_fmap, lookup_seqZ_lt by lia. simpl. by rewrite Z.add_0_l, Z2Nat.id by lia.
Qed.

Lemma loaded_distinct : NoDup (map mf_leaf (mt_files mt)) -> distinct_files (ti_files ti).
Proof. intros H. split; [rewrite loaded_paths; apply made_paths_differ; [by apply mt_ok|done]|by rewrite loaded_names]. Qed.

Lemma loaded_on_disk D fh dk : files_ready (ti_files ti) fh dk -> content (ti_files ti) dk = D ->
  files_on_disk ti dk = made_files mt D.
Proof. intros Hr <-. by rewrite (files_on_disk_content ti fh dk loaded_ok Hr), loaded_paths, loaded_sizes. Qed.
End Loaded.

(** The encoded torrent loads as what it was made from. *)
Lemma made_loads_as garbage mt : length garbage = 64%nat -> made_ok mt -> names_differ mt ->
  exists text, bencode (torrent_made mt) = Ok (text, Z.of_nat (length text)) /\
  (Z.of_nat (length text) <= 2000000 -> bytes_ok text ->
   exists o, torrent_info_create garbage text = Ok (o, None) /\ loads_as mt (info_of o)).
Proof.
  intros Hg Hok Hd. destruct (made_loads garbage mt [] Hg Hok Hd) as (text & Ht & Hload).
  exists text. split; [done|]. intros Hlen Hb. rewrite app_nil_r in Hload.
  destruct (Hload Hlen) as (o & Ho & H1 & H2 & H3 & H4 & H5 & H6 & _); [unfold max_offset; lia|done|].
  exists o. split; [exact Ho|]. by constructor.
Qed.

(** C3: From the torrent file to the files on disk.  A torrent is made for the content [D], with
    plain names (ASCII, no separators, not "." or "..", shorter than 240 bytes), paths that do
    not collide when it is read and last elements that differ even without their directories, an
    announce URL without spaces around it, a piece length that is a multiple of 16384, fewer than 2^48 bytes, and a
    text of at most 2000000 bytes.  Then the file loads, and if its files can be opened, whoever
    downloads the torrent from blocks of [D] finishes exactly when all pieces have arrived, with
    every file of the torrent on disk holding its part of [D]. *)
Theorem made_torrent_downloads garbage mt D : length garbage = 64%nat ->
  made_ok mt -> names_differ mt -> made_for mt D -> mt_piece_length mt mod BLOCK_LEN = 0 ->
  NoDup (map mf_leaf (mt_files mt)) ->
  exists text, bencode (torrent_made mt) = Ok (text, Z.of_nat (length text)) /\
  (Z.of_nat (length text) <= 2000000 -> bytes_ok text ->
   exists o, torrent_info_create garbage text = Ok (o, None) /\ let ti := info_of o in
     (forall f, f ∈ ti_files ti -> fs_can_open (fe_path f) = true) ->
     forall ph piece index k d, download_reachable ti (genuine ti D) ph ->
       piece_index_ok ti index -> 0 <= k < num_blocks ti index -> genuine ti D index k d ->
       bb_readable piece = be 4 index ++ be 4 (k * BLOCK_LEN) ++ d -> received_at ph (block_key index k) = false ->
       exists ph' stop, received ti piece ph = Ok (ph', stop) /\
         (stop = true <-> forall i, piece_index_ok ti i -> piece_arrived ti ph' i) /\
         (stop = true -> files_on_disk ti (disk_ ph') = made_files mt D)).
Proof.
  intros Hg Hok Hd HD Hbl Hleaves. destruct (made_loads_as garbage mt Hg Hok Hd) as (text & Ht & Hload).
  exists text. split; [done|]. intros Hlen Hb. destruct (Hload Hlen Hb) as (o & Ho & Hl).
  exists o. split; [done|]. cbv zeta. set (ti := info_of o) in *. intros Hopen ph piece index k d Hr Hi Hk Hgd Hp Hnew.
  rewrite <- (la_piece_length _ _ Hl) in Hbl.
  destruct (genuine_stops ti (loaded_ok mt ti Hok Hl) (loaded_distinct mt ti Hok Hl Hleaves) Hbl (loaded_fits mt ti Hok Hl) Hopen D ph piece index k d)
    as (ph' & stop & Hrec & Hstop & Hdisk & Hready);
    [rewrite (la_total _ _ Hl); by apply HD|intros i Hpi; by apply (loaded_hashes mt)|done..|].
  exists ph', stop. split; [done|]. split; [done|]. intros Hs. by apply (loaded_on_disk mt ti Hok Hl D (file_handlers_ ph')), Hdisk.
Qed.
End EndToEnd.

(** ** A sample: five bytes in two files, one piece *)
Section Sample.
Import ListBuffer.
#[local] Existing Instance sample_past_end.

#[local] Instance every_path : FileSystem := Sample.every_path.
#[local] Instance element_order : SetOrder := Sample.element_order.

Definition hello : bytes := key "hello".

Definition hello_made : made_torrent :=
  mk_made_torrent (key "udp://t:1/") (key "t") BLOCK_LEN
    [mk_made_file [] (key "a") 2; mk_made_file [key "d"] (key "b.txt") 3] (fips_sha1 hello).

Lemma hello_made_ok : made_ok hello_made.
Proof.
  split; [split_and!; by vm_compute|by apply plain_name_intro|done| |split_and!; by vm_compute|].
  - split; [done|]. apply Forall_cons. split; [|apply Forall_singleton]; (split; [|split; [by apply plain_name_intro|simpl; lia]]).
    + apply Forall_nil_2.
    + apply Forall_singleton. by apply plain_name_intro.
  - split; [by vm_compute|]. change (mt_pieces hello_made) with (fips_sha1 hello). by rewrite fips_sha1_length.
Qed.

Lemma hello_made_for : made_for hello_made hello.
Proof.
  split; [done|]. unfold made_hashes. change (made_pieces hello_made) with 1. change (seqZ 0 1) with [0].
  cbn [map concat]. rewrite app_nil_r. done.
Qed.

Definition hello_text : bytes := (ok_or ([], 0) (bencode (torrent_made hello_made))).1.

Definition hello_object : torrent_object := sample_object hello_text.

Definition hello_created : list bytes * piece_handler :=
  ok_or ([], mk_piece_handler ∅ ∅ ∅ ∅ 0 ∅) (piece_handler_create (info_of hello_object) ∅).

Lemma hello_created_ok : piece_handler_create (info_of hello_object) ∅ = Ok (hello_created.1, hello_created.2).
Proof. rewrite <- surjective_pairing. apply is_ok_or. by vm_compute. Qed.

Lemma hello_pieces : ti_num_pieces (info_of hello_object) = 1.
Proof. by vm_compute. Qed.

Lemma hello_blocks : num_blocks (info_of hello_object) 0 = 1.
Proof. by vm_compute. Qed.

Lemma hello_block : block_size (info_of hello_object) 0 0 = 5.
Proof. by vm_compute. Qed.

Lemma made_torrent_downloads_witness : exists ph' stop,
  received (info_of hello_object) (Sample.delivery hello) hello_created.2 = Ok (ph', stop) /\
  (stop = true -> files_on_disk (info_of hello_object) (disk_ ph') = [(key "t/a", key "he"); (key "t/d/b.txt", key "llo")]).
Proof.
  destruct (made_torrent_downloads (EN := false) (CRC := sample_crc) (SH := sample_shuffle)
    (replicate 64 0) hello_made hello) as (text & Ht & Hload);
    [done|exact hello_made_ok|by vm_compute|exact hello_made_for|by vm_compute|decide_by_computation|].
  assert (text = hello_text) as -> by (unfold hello_text; by rewrite Ht).
  destruct Hload as (o & Ho & Hdl); [by vm_compute|decide_by_computation|].
  assert (o = hello_object) as -> by (unfold hello_object, sample_object, sample_create; by rewrite Ho).
  destruct (Hdl (fun _ _ => eq_refl) hello_created.2 (Sample.delivery hello) 0 0 hello) as (ph' & stop & Hrec & _ & Hd).
  - eapply dl_init, hello_created_ok.
  - unfold piece_index_ok. rewrite hello_pieces. lia.
  - rewrite hello_blocks. lia.
  - split; rewrite hello_block; [done|]. by vm_compute.
  - done.
  - by vm_compute.
  - exists ph', stop. split; [exact Hrec|]. intros Hs. rewrite (Hd Hs). by vm_compute.
Defined.
End Sample.
