(* ===== verification/Framing.v ===== *)
(** * From the byte stream to messages

    [torrent_agent::on_read] cuts the bytes that arrive into messages and handles them
    one after the other.  The operations that a message can trigger neither look at
    nor change the bytes that have not been cut off yet ([blind]), so the way the
    stream is divided into reads does not matter. *)

From S2P Require Import Prelude ByteBuffer Messages MsgFactory Float32 SessionSm Sockets Net.
From S2P Require Import Timer NetReactor Storage Files PieceHandler PieceRequests PieceWrites.
From S2P Require Import Download Agent Samples.

Create Rewrite HintDb blind.

Section Blind.
Context {BB : ByteBuffer} {PE : PastEnd} {Os : OS} {FS : FileSystem} {SHA : Sha1} {SO : SetOrder}.
Variable ti : torrent_info.
Variable local_peer_id : bytes.
Variable c : nat.
Implicit Types w : world.

Definition buffer_of w : bytes := msg_buffer_ (agent_of c w).
Definition received_handshake w : bool := handshake_received (sm_ (agent_of c w)).

(** Change the buffer of agent [c], and nothing else. *)
Definition edit_buffer (h : bytes -> bytes) w : world :=
  upd c (fun a => set_msg_buffer (h (msg_buffer_ a)) a) w.

Lemma agent_of_edit h w : agent_of c (edit_buffer h w) =
  set_msg_buffer (h (buffer_of w)) (agent_of c w).
Proof. unfold edit_buffer. rewrite agent_of_upd. by rewrite decide_True. Qed.

Lemma upd_upd f g w : upd c f (upd c g w) = upd c (fun a => f (g a)) w.
Proof.
  unfold upd at 1 3, set_agents. rewrite agent_of_upd, decide_True by done. simpl.
  by rewrite insert_insert_eq.
Qed.

(** An update of the agent that has nothing to do with the buffer. *)
Lemma upd_edit f h w : (forall b a, f (set_msg_buffer b a) = set_msg_buffer b (f a)) ->
  (forall a, msg_buffer_ (f a) = msg_buffer_ a) ->
  upd c f (edit_buffer h w) = edit_buffer h (upd c f w).
Proof.
  intros H1 H2. unfold edit_buffer. rewrite !upd_upd. unfold upd. f_equal. f_equal.
  by rewrite H1, H2.
Qed.

Definition blind (f : world -> world) : Prop := forall h w, f (edit_buffer h w) = edit_buffer h (f w).

Definition blind_result (f : world -> result world) : Prop :=
  forall h w, f (edit_buffer h w) = edit_buffer h <$> f w.

(** The parts of the world under an edit. *)
Lemma edit_reactor h w : rw_reactor (edit_buffer h w) = rw_reactor w.
Proof. done. Qed.
Lemma edit_os h w : rw_os (edit_buffer h w) = rw_os w.
Proof. done. Qed.
Lemma edit_fd h w : rw_fd c (edit_buffer h w) = rw_fd c w.
Proof. unfold rw_fd. cbn [world_reactor]. by rewrite agent_of_edit. Qed.
Lemma edit_get_events h w : rw_get_events c (edit_buffer h w) = rw_get_events c w.
Proof. unfold rw_get_events. cbn [world_reactor]. by rewrite agent_of_edit. Qed.
Lemma edit_set_reactor r h w : rw_set_reactor r (edit_buffer h w) = edit_buffer h (rw_set_reactor r w).
Proof. done. Qed.
Lemma edit_set_os s h w : rw_set_os s (edit_buffer h w) = edit_buffer h (rw_set_os s w).
Proof. done. Qed.
Lemma edit_set_events e h w : rw_set_events c e (edit_buffer h w) = edit_buffer h (rw_set_events c e w).
Proof. by apply upd_edit. Qed.
Lemma edit_pieces h w : piece_handler_ (edit_buffer h w) = piece_handler_ w.
Proof. done. Qed.
Lemma edit_set_pieces ph h w : set_piece_handler ph (edit_buffer h w) = edit_buffer h (set_piece_handler ph w).
Proof. done. Qed.
Lemma edit_stop h w : session_stop (edit_buffer h w) = edit_buffer h (session_stop w).
Proof. done. Qed.
Lemma edit_peer h w : peer_info_ (agent_of c (edit_buffer h w)) = peer_info_ (agent_of c w).
Proof. by rewrite agent_of_edit. Qed.
Lemma edit_choked h w : choked_ (agent_of c (edit_buffer h w)) = choked_ (agent_of c w).
Proof. by rewrite agent_of_edit. Qed.
Lemma edit_received_handshake h w : received_handshake (edit_buffer h w) = received_handshake w.
Proof. unfold received_handshake. by rewrite agent_of_edit. Qed.

Hint Rewrite edit_reactor edit_os edit_fd edit_get_events edit_set_reactor edit_set_os edit_set_events
  edit_pieces edit_set_pieces edit_stop edit_peer edit_choked edit_received_handshake : blind.

Lemma reg_blind ev : blind (reg c ev).
Proof.
  intros h w. unfold reg, net_reactor_reg, ctl_add, ctl_mod, set_clients. autorewrite with blind.
  destruct (clients_ (rw_reactor w) !! rw_fd c w); autorewrite with blind;
    destruct (_ : Z * os) as [res s]; [done|]. destruct (negb (negb (res =? -1))); [done|].
  by autorewrite with blind.
Qed.

Lemma push_msg_blind m : blind (push_msg c m).
Proof. intros h w. by apply upd_edit. Qed.
Hint Rewrite push_msg_blind reg_blind : blind.

Lemma request_loop_blind n : forall count h w,
  request_loop ti n c count (edit_buffer h w) =
  ((request_loop ti n c count w).1, edit_buffer h (request_loop ti n c count w).2).
Proof.
  induction n as [|n IH]; intros count h w; cbn [request_loop]; [done|].
  autorewrite with blind. destruct (get_piece_request _ _ _) as [[ok r] ph]. cbn [negb].
  destruct ok; cbn [negb]; [|done]. autorewrite with blind. apply IH.
Qed.

Lemma request_pieces_blind : blind (request_pieces ti c).
Proof.
  intros h w. unfold request_pieces. autorewrite with blind.
  destruct (choked_ (agent_of c w)); cbn [negb]; [done|]. rewrite request_loop_blind.
  destruct (request_loop ti MAX_BURST c 0 w) as [n w1]. cbn [fst snd].
  destruct (0 <? n)%nat; [|done]. apply reg_blind.
Qed.
Hint Rewrite request_pieces_blind : blind.

(** The events a message can lead to. *)
Lemma on_event_blind ev : ev = EV_CHOKE \/ ev = EV_UNCHOKE \/ ev = EV_HANDSHAKE ->
  blind_result (on_event ti local_peer_id c ev).
Proof.
  intros Hev h w. unfold on_event, session_sm_on_event. cbn [sm_set agent_client].
  rewrite upd_edit by done. destruct_or! Hev; subst ev; cbn [ism_choked ism_unchoked ism_interested agent_client target].
  - unfold agent_choked. by rewrite upd_edit.
  - unfold agent_unchoked. rewrite upd_edit by done. by rewrite request_pieces_blind.
  - unfold agent_interested. by rewrite push_msg_blind, reg_blind.
Qed.

Lemma handle_msg_blind m : blind_result (handle_msg ti local_peer_id c m).
Proof.
  intros h w. unfold handle_msg. destruct (id_ m); try done.
  - apply on_event_blind. by left.
  - apply on_event_blind. by right; left.
  - autorewrite with blind. destruct (have_bitfield _ _ _ _) as [ph|]; [|done]. simpl. done.
  - unfold handle_piece. autorewrite with blind. destruct (received _ _ _) as [[ph stop]|]; [|done].
    cbn [mbind result_bind fmap result_fmap]. rewrite edit_set_pieces.
    destruct stop; autorewrite with blind; done.
Qed.

Lemma on_message_blind slice : blind_result (on_message ti local_peer_id c slice).
Proof.
  intros h w. unfold on_message. fold (received_handshake (edit_buffer h w)). fold (received_handshake w).
  rewrite edit_received_handshake. destruct (received_handshake w); cbn [negb]; [apply handle_msg_blind|].
  rewrite edit_peer. destruct (set_peer_id_and_validate_handshake _ _) as [valid info].
  rewrite upd_edit by done. destruct valid; [|done]. apply on_event_blind. by right; right.
Qed.

(** ** What a message leaves alone *)

Lemma buffer_of_edit h w : buffer_of (edit_buffer h w) = h (buffer_of w).
Proof. unfold buffer_of. by rewrite agent_of_edit. Qed.

(** The buffer is the same after a message as before it. *)
Lemma on_message_buffer slice b w w' :
  on_message ti local_peer_id c slice (edit_buffer (fun _ => b) w) = Ok w' -> buffer_of w' = b.
Proof.
  rewrite on_message_blind. destruct (on_message _ _ _ _ w) as [w1|]; [|done].
  intros [= <-]. apply buffer_of_edit.
Qed.

Lemma sm_upd f w : (forall a, sm_ (f a) = sm_ a) -> sm_ (agent_of c (upd c f w)) = sm_ (agent_of c w).
Proof. intros H. rewrite agent_of_upd, decide_True by done. apply H. Qed.

(** Registering changes no field of the agent but its event mask. *)
Lemma reg_agent ev w : exists e, agent_of c (reg c ev w) = set_events e (agent_of c w).
Proof.
  unfold reg, net_reactor_reg, ctl_add, ctl_mod, set_clients.
  assert (forall a, a = set_events (events_ a) a) as Hid by (by intros []).
  destruct (clients_ (rw_reactor w) !! rw_fd c w); destruct (_ : Z * os) as [res s].
  - exists (Z.lor (events_ (agent_of c w)) ev).
    change (agent_of c (upd c (set_events (Z.lor (events_ (agent_of c w)) ev)) w) =
      set_events (Z.lor (events_ (agent_of c w)) ev) (agent_of c w)).
    by rewrite agent_of_upd, decide_True.
  - destruct (negb (negb (res =? -1))); [eexists; apply Hid|]. exists ev.
    change (agent_of c (upd c (set_events ev) (set_os s w)) = set_events ev (agent_of c w)).
    by rewrite agent_of_upd, decide_True.
Qed.

Lemma unreg_agent ev w : exists e, agent_of c (unreg c ev w) = set_events e (agent_of c w).
Proof.
  unfold unreg, net_reactor_unreg, ctl_mod, set_clients.
  assert (forall a, a = set_events (events_ a) a) as Hid by (by intros []).
  destruct (ev =? 0); [eexists; apply Hid|].
  destruct (clients_ (rw_reactor w) !! rw_fd c w); [|eexists; apply Hid].
  destruct (_ : Z * os) as [res s]. exists (Z.ldiff (events_ (agent_of c w)) ev).
  change (agent_of c (upd c (set_events (Z.ldiff (events_ (agent_of c w)) ev)) w) =
    set_events (Z.ldiff (events_ (agent_of c w)) ev) (agent_of c w)).
  by rewrite agent_of_upd, decide_True.
Qed.

Lemma sm_reg ev w : sm_ (agent_of c (reg c ev w)) = sm_ (agent_of c w).
Proof. by destruct (reg_agent ev w) as [e ->]. Qed.

Lemma sm_request_loop n : forall count w,
  sm_ (agent_of c (request_loop ti n c count w).2) = sm_ (agent_of c w).
Proof.
  induction n as [|n IH]; intros count w; cbn [request_loop]; [done|].
  destruct (get_piece_request _ _ _) as [[ok r] ph]. destruct ok; cbn [negb]; [|done].
  rewrite IH. by apply (sm_upd _ (set_piece_handler ph w)).
Qed.

Lemma sm_request_pieces w : sm_ (agent_of c (request_pieces ti c w)) = sm_ (agent_of c w).
Proof.
  unfold request_pieces. destruct (negb _); [|done].
  pose proof (sm_request_loop MAX_BURST 0 w) as H. destruct (request_loop _ _ _ _ _) as [n w1].
  destruct (0 <? n)%nat; [|done]. by rewrite sm_reg.
Qed.

(** Once a handshake has been received, no message takes that back. *)
Lemma on_message_handshake slice w w' : received_handshake w = true ->
  on_message ti local_peer_id c slice w = Ok w' -> received_handshake w' = true.
Proof.
  intros Hh. unfold on_message. fold (received_handshake w). rewrite Hh. cbn [negb].
  generalize (make_message slice). intros m. unfold handle_msg, received_handshake in *.
  destruct (id_ m); try by intros [= <-].
  - unfold on_event, session_sm_on_event. cbn. intros [= <-]. unfold agent_choked.
    rewrite sm_upd by done. rewrite agent_of_upd, decide_True by done. done.
  - unfold on_event, session_sm_on_event. cbn. intros [= <-]. unfold agent_unchoked.
    rewrite sm_request_pieces, sm_upd by done. rewrite agent_of_upd, decide_True by done. done.
  - intros (ph & _ & [= <-])%result_bind_ok. done.
  - unfold handle_piece. intros ([ph stop] & _ & [= <-])%result_bind_ok.
    rewrite sm_request_pieces. by destruct stop.
Qed.

(** ** One turn of the loop *)

Definition next_len w : Z := get_msg_len (buffer_of w) (received_handshake w).

Definition has_message w : bool :=
  (4 <=? Z.of_nat (length (buffer_of w))) && (next_len w <=? Z.of_nat (length (buffer_of w))).

Definition cut w : world := edit_buffer (fun _ => drop (Z.to_nat (next_len w)) (buffer_of w)) w.

Definition next_slice w : buf := bb_write bb_new (span (buffer_of w) 0 (Z.to_nat (next_len w))).

Definition turn w : result world := on_message ti local_peer_id c (next_slice w) (cut w).

Definition loop (fuel : nat) w : result world := on_read_loop ti local_peer_id fuel c w.

Lemma loop_turn fuel w : loop fuel w =
  if has_message w then
    match fuel with O => Fault OutOfFuel | S fuel' => turn w ≫= loop fuel' end
  else Ok w.
Proof. by destruct fuel. Qed.

Lemma has_message_length w : has_message w = true ->
  (4 <= length (buffer_of w))%nat /\ next_len w <= Z.of_nat (length (buffer_of w)).
Proof. unfold has_message. intros [H1 H2]%andb_prop. apply Z.leb_le in H1, H2. lia. Qed.

Lemma turn_buffer w w' : turn w = Ok w' -> buffer_of w' = drop (Z.to_nat (next_len w)) (buffer_of w).
Proof. apply on_message_buffer. Qed.

Lemma turn_handshake w w' : received_handshake w = true -> turn w = Ok w' -> received_handshake w' = true.
Proof. intros H. apply on_message_handshake. unfold cut. by rewrite edit_received_handshake. Qed.

(** ** More bytes *)

Definition append (d : bytes) w : world := edit_buffer (fun b => b ++ d) w.

Lemma span_app_l (l m : bytes) off n : (off + n <= length l)%nat -> span (l ++ m) off n = span l off n.
Proof.
  intros H. rewrite !span_in_range by (rewrite ?length_app; lia).
  rewrite drop_app_le by lia. rewrite take_app_le; [done|]. rewrite length_drop. lia.
Qed.

Lemma byte_at_app_l (l m : bytes) i : (i < length l)%nat -> byte_at (l ++ m) i = byte_at l i.
Proof. intros H. unfold byte_at. rewrite lookup_app_l by done. destruct (lookup_lt_is_Some_2 l i H) as [x ->]. done. Qed.

Lemma next_len_append d w : (4 <= length (buffer_of w))%nat -> next_len (append d w) = next_len w.
Proof.
  intros H. unfold next_len, append. rewrite edit_received_handshake, buffer_of_edit. unfold get_msg_len.
  rewrite byte_at_app_l, span_app_l by lia. done.
Qed.

Lemma has_message_append d w : has_message w = true -> has_message (append d w) = true.
Proof.
  intros H. destruct (has_message_length w H) as [H4 Hn]. unfold has_message.
  rewrite next_len_append by done. unfold append. rewrite buffer_of_edit, length_app.
  apply andb_true_intro. split; apply Z.leb_le; lia.
Qed.

Lemma next_len_nonneg w : has_message w = true -> bytes_ok (buffer_of w) -> 0 <= next_len w.
Proof.
  intros H Hok. destruct (has_message_length w H) as [H4 _]. unfold next_len, get_msg_len.
  destruct (negb _); [|apply u32_range].
  unfold byte_at. destruct (lookup_lt_is_Some_2 (buffer_of w) 0 ltac:(lia)) as [x Hx]. rewrite Hx.
  pose proof (proj1 (Forall_lookup _ _) Hok 0%nat x Hx) as Hb. unfold byte_ok in Hb. lia.
Qed.

Lemma turn_append d w : has_message w = true -> turn (append d w) = append d <$> turn w.
Proof.
  intros H. destruct (has_message_length w H) as [H4 Hn]. unfold turn.
  assert (next_slice (append d w) = next_slice w) as ->.
  { unfold next_slice. rewrite next_len_append by done. unfold append. rewrite buffer_of_edit.
    rewrite span_app_l; [done|]. lia. }
  assert (cut (append d w) = append d (cut w)) as ->.
  { unfold cut. rewrite next_len_append by done. unfold append. rewrite buffer_of_edit.
    unfold edit_buffer. rewrite !upd_upd. unfold upd. f_equal. f_equal.
    destruct (agent_of c w). unfold set_msg_buffer. cbn. by rewrite drop_app_le by lia. }
  apply on_message_blind.
Qed.

(** ** A length prefix that wraps *)

(** The next message has no bytes: the prefix is so large that adding its own four
    bytes wraps around to zero. *)
Definition stuck w : Prop := has_message w = true /\ next_len w = 0.

Lemma stuck_handshake w : stuck w -> bytes_ok (buffer_of w) -> received_handshake w = true.
Proof.
  intros [H Hn] Hok. destruct (received_handshake w) eqn:E; [done|]. exfalso.
  destruct (has_message_length w H) as [H4 _]. revert Hn. unfold next_len, get_msg_len. rewrite E. cbn [negb].
  unfold byte_at. destruct (lookup_lt_is_Some_2 (buffer_of w) 0 ltac:(lia)) as [x Hx]. rewrite Hx.
  pose proof (proj1 (Forall_lookup _ _) Hok 0%nat x Hx) as Hb. unfold byte_ok in Hb. lia.
Qed.

Lemma stuck_turn w w' : stuck w -> bytes_ok (buffer_of w) -> turn w = Ok w' ->
  stuck w' /\ buffer_of w' = buffer_of w.
Proof.
  intros Hs Hok Ht. pose proof (stuck_handshake w Hs Hok) as Hh. destruct Hs as [H Hn].
  pose proof (turn_buffer w w' Ht) as Hb. rewrite Hn, drop_0 in Hb.
  pose proof (turn_handshake w w' Hh Ht) as Hh'. split; [|done].
  unfold stuck, has_message, next_len in *. rewrite Hh in H, Hn. by rewrite Hb, Hh'.
Qed.

Lemma stuck_loop fuel : forall w w', stuck w -> bytes_ok (buffer_of w) -> loop fuel w <> Ok w'.
Proof.
  induction fuel as [|fuel IH]; intros w w' Hs Hok; rewrite loop_turn, (proj1 Hs); [done|].
  destruct (turn w) as [w1|] eqn:Ht; [|done]. simpl.
  destruct (stuck_turn w w1 Hs Hok Ht) as [Hs1 Hb]. apply IH; [done|by rewrite Hb].
Qed.

(** ** Stretches of the loop *)

Lemma loop_more fuel : forall w w' fuel', loop fuel w = Ok w' -> (fuel <= fuel')%nat -> loop fuel' w = Ok w'.
Proof.
  induction fuel as [|fuel IH]; intros w w' fuel' H Hle; rewrite loop_turn in *.
  - by destruct (has_message w).
  - destruct (has_message w); [|done]. destruct fuel' as [|fuel']; [lia|].
    destruct (turn w) as [w1|]; [|done]. simpl in *. apply (IH w1); [done|lia].
Qed.

(** A turn that is not stuck shortens the buffer. *)
Lemma turn_progress w w' : has_message w = true -> bytes_ok (buffer_of w) -> next_len w <> 0 ->
  turn w = Ok w' -> (length (buffer_of w') < length (buffer_of w))%nat /\ bytes_ok (buffer_of w').
Proof.
  intros H Hok Hn Ht. rewrite (turn_buffer w w' Ht). split; [|by apply Forall_drop].
  pose proof (next_len_nonneg w H Hok). destruct (has_message_length w H). rewrite length_drop. lia.
Qed.

(** What the loop did on the bytes it had, it does when more bytes follow. *)
Lemma loop_append fuel : forall w w1, bytes_ok (buffer_of w) -> loop fuel w = Ok w1 ->
  bytes_ok (buffer_of w1) /\
  exists used, (used + length (buffer_of w1) <= length (buffer_of w))%nat /\
    forall k d, loop (used + k) (append d w) = loop k (append d w1).
Proof.
  induction fuel as [|fuel IH]; intros w w1 Hok H; rewrite loop_turn in H;
    destruct (has_message w) eqn:Hm; try done;
    try (injection H as <-; split; [done|]; exists 0%nat; split; [lia|done]).
  destruct (turn w) as [w2|] eqn:Ht; [|done]. simpl in H.
  assert (next_len w <> 0) as Hn.
  { intros Hn. destruct (stuck_turn w w2 (conj Hm Hn) Hok Ht) as [Hs Hb].
    apply (stuck_loop fuel w2 w1); [done|by rewrite Hb|done]. }
  destruct (turn_progress w w2 Hm Hok Hn Ht) as [Hlt Hok2].
  destruct (IH w2 w1 Hok2 H) as (Hok1 & used & Hused & Hloop). split; [done|].
  exists (S used). split; [lia|]. intros k d. cbn [Nat.add].
  rewrite loop_turn, has_message_append, turn_append, Ht by done. cbn [fmap result_fmap mbind result_bind].
  apply Hloop.
Qed.

Lemma buffer_of_append d w : buffer_of (append d w) = buffer_of w ++ d.
Proof. apply buffer_of_edit. Qed.

Lemma on_read_loop_append d w : on_read ti local_peer_id c d w = loop (length (buffer_of w ++ d)) (append d w).
Proof. rewrite <- buffer_of_append. done. Qed.

Lemma append_append d1 d2 w : append d2 (append d1 w) = append (d1 ++ d2) w.
Proof.
  unfold append, edit_buffer. rewrite upd_upd. unfold upd. f_equal. f_equal.
  destruct (agent_of c w). unfold set_msg_buffer. cbn. by rewrite app_assoc.
Qed.

Lemma on_read_two d1 d2 w w1 w2 : bytes_ok (buffer_of w) -> bytes_ok d1 ->
  on_read ti local_peer_id c d1 w = Ok w1 -> on_read ti local_peer_id c d2 w1 = Ok w2 ->
  bytes_ok (buffer_of w1) /\ on_read ti local_peer_id c (d1 ++ d2) w = Ok w2.
Proof.
  intros Hok Hok1 H1 H2. rewrite on_read_loop_append in *.
  assert (bytes_ok (buffer_of (append d1 w))) as Hok'
    by (rewrite buffer_of_append; by apply Forall_app).
  destruct (loop_append _ _ _ Hok' H1) as (Hb & used & Hused & Hloop).
  split; [done|]. rewrite buffer_of_append in Hused. rewrite length_app in *.
  rewrite <- append_append.
  replace (length (buffer_of w) + length (d1 ++ d2))%nat with
    (used + (length (buffer_of w) + length d1 - used + length d2))%nat by (rewrite length_app; lia).
  rewrite Hloop. eapply loop_more; [exact H2|]. rewrite ?length_app. lia.
Qed.

(** ** Termination *)
Section Termination.
Context {BL : ByteBufferLaws BB}.

Lemma bitfield_fuel fuel peer : forall off bf ph, (length (bb_readable bf) <= fuel)%nat ->
  have_bitfield_loop ti fuel peer off bf ph <> Fault OutOfFuel.
Proof.
  induction fuel as [|fuel IH]; intros off bf ph Hl; cbn [have_bitfield_loop]; unfold bb_available;
    destruct (bb_readable bf) as [|b l] eqn:E; try done; [simpl in Hl; lia|].
  destruct (read_8_value bf [b] l E eq_refl) as [_ Hr]. cbn [length] in *.
  destruct (0 <? Z.of_nat (S (length l))); [|done].
  destruct (bb_read_8 bf) as [v bf']. simpl in Hr. apply IH. rewrite Hr. lia.
Qed.

Lemma map_block_loop_fuel files : forall i fo size, map_block_loop files i fo size <> Fault OutOfFuel.
Proof.
  induction files as [|f files IH]; intros i fo size; simpl; destruct (0 <? size); try done.
  destruct (fo <? fe_size f); [|apply IH].
  match goal with |- context [map_block_loop files ?j ?x ?y] =>
    specialize (IH j x y); destruct (map_block_loop files j x y) as [l|e] end; [done|]. simpl. congruence.
Qed.

Lemma map_block_fuel piece offset size : map_block ti piece offset size <> Fault OutOfFuel.
Proof.
  unfold map_block. destruct (ti_files ti) as [|f l]; [done|]. destruct (upper_bound _ _) as [|i]; [done|]. destruct (_ !! i); [|done]. apply map_block_loop_fuel.
Qed.

Lemma write_slices_fuel key slices : forall ph, write_slices ti key slices ph <> Fault OutOfFuel.
Proof.
  induction slices as [|s slices IH]; intros ph; simpl; [done|]. unfold write_slice at 1.
  destruct (ti_files ti !! _); [|done]. destruct (file_handlers_ ph !! _); [|apply IH].
  destruct (file_handler_write _ _ _ _ _) as [[h d] dk]. apply IH.
Qed.

Lemma write_blocks_fuel index inds : forall ph, write_blocks ti index inds ph <> Fault OutOfFuel.
Proof.
  induction inds as [|k inds IH]; intros ph; cbn [write_blocks]; [done|].
  pose proof (map_block_fuel (i32 (block_key index k).1) (block_key index k).2 BLOCK_LEN) as Hm.
  destruct (map_block _ _ _ _) as [sl|e]; simpl; [|congruence].
  pose proof (write_slices_fuel (block_key index k) sl (touch_block (block_key index k) ph)) as Hs.
  destruct (write_slices _ _ _ _) as [ph1|e]; simpl; [apply IH|congruence].
Qed.

Lemma received_fuel piece ph : received ti piece ph <> Fault OutOfFuel.
Proof.
  unfold received. destruct (bb_read_32 piece) as [i p1], (bb_read_32 p1) as [b p2].
  destruct (received_at _ _); [done|]. unfold write_if_valid.
  destruct (collect_blocks _ _ _ _) as [[hashed|] ph1]; [|done]. case_bool_decide; [|done].
  match goal with |- context [write_blocks ti i ?l ph1] =>
    pose proof (write_blocks_fuel i l ph1) as Hw; destruct (write_blocks ti i l ph1) as [ph2|e] end;
    [done|]. simpl. congruence.
Qed.

Lemma turn_fuel w : turn w <> Fault OutOfFuel.
Proof.
  unfold turn, on_message. destruct (negb _).
  - destruct (set_peer_id_and_validate_handshake _ _) as [valid info]. by destruct valid.
  - generalize (make_message (next_slice w)). intros m. unfold handle_msg. destruct (id_ m); try done.
    + pose proof (bitfield_fuel _ (peer_id_ (peer_info_ (agent_of c (cut w)))) 0 (payload_ m) (piece_handler_ (cut w)) (le_n _)) as Hb.
      unfold have_bitfield. destruct (have_bitfield_loop _ _ _ _ _ _); [done|]. simpl. congruence.
    + unfold handle_piece. pose proof (received_fuel (payload_ m) (piece_handler_ (cut w))) as Hr.
      destruct (received _ _ _) as [[ph stop]|e]; [done|]. simpl. congruence.
Qed.

(** The turns of the loop. *)
Definition turns w w' : Prop := has_message w = true /\ turn w = Ok w'.

Lemma loop_out_of_fuel fuel : forall w, bytes_ok (buffer_of w) -> (length (buffer_of w) <= fuel)%nat ->
  loop fuel w = Fault OutOfFuel -> exists w', rtc turns w w' /\ stuck w'.
Proof.
  induction fuel as [|fuel IH]; intros w Hok Hl; rewrite loop_turn;
    destruct (has_message w) eqn:Hm; try done.
  - destruct (has_message_length w Hm). lia.
  - intros H. destruct (decide (next_len w = 0)) as [Hn|Hn]; [exists w; split; [apply rtc_refl|done]|].
    pose proof (turn_fuel w) as Hf. destruct (turn w) as [w1|e] eqn:Ht; simpl in H; [|congruence].
    destruct (turn_progress w w1 Hm Hok Hn Ht) as [Hlt Hok1].
    destruct (IH w1 Hok1 ltac:(lia) H) as (w' & Hrtc & Hs). exists w'. split; [|done].
    eapply rtc_l; [|done]. done.
Qed.
End Termination.

(** Several reads in a row. *)
Fixpoint read_all (ds : list bytes) w : result world :=
  match ds with
  | [] => Ok w
  | d :: ds' => w ← on_read ti local_peer_id c d w; read_all ds' w
  end.

(** C7: How the stream is cut into reads does not matter: if the agent handles some bytes
    in several reads, it handles them in the same way when they come in one. *)
Theorem on_read_chunks d ds w w' :
  bytes_ok (buffer_of w) -> Forall bytes_ok (d :: ds) ->
  read_all (d :: ds) w = Ok w' -> on_read ti local_peer_id c (concat (d :: ds)) w = Ok w'.
Proof.
  revert d w. induction ds as [|d2 ds IH]; intros d w Hok Hds; cbn [read_all concat].
  - rewrite app_nil_r. by destruct (on_read _ _ _ _ _).
  - apply Forall_cons in Hds as [Hd Hds]. intros (w1 & H1 & H2)%result_bind_ok.
    assert (bytes_ok (buffer_of w1)) as Hok1.
    { rewrite on_read_loop_append in H1. eapply loop_append; [|exact H1].
      rewrite buffer_of_append. by apply Forall_app. }
    apply (on_read_two d (concat (d2 :: ds)) w w1 w'); [done|done|done|]. by apply IH.
Qed.

(** A length prefix of 2^32 - 4 wraps to an empty message: once it is at the front of
    the buffer, the loop handles empty messages and never returns. *)
Theorem wrapped_length_hangs rest w : received_handshake w = true -> bytes_ok rest ->
  buffer_of w = be 4 (2 ^ 32 - 4) ++ rest ->
  forall fuel w', on_read_loop ti local_peer_id fuel c w <> Ok w'.
Proof.
  intros Hh Hr Hb fuel w'. apply stuck_loop.
  - assert (next_len w = 0) as Hn.
    { unfold next_len. rewrite Hh, Hb. unfold get_msg_len. cbn [negb].
      rewrite span_app_l, (span_all (be 4 (2 ^ 32 - 4)) 4) by (rewrite ?length_be; done).
      by rewrite unbe_be_small by lia. }
    split; [|done]. unfold has_message. rewrite Hn, Hb, length_app, length_be.
    apply andb_true_intro. split; apply Z.leb_le; lia.
  - rewrite Hb. apply Forall_app. split; [apply be_bytes_ok|done].
Qed.

(** ** Whole messages *)

Definition frame (m : bytes) : bytes := be 4 (Z.of_nat (length m)) ++ m.

Definition frame_ok (m : bytes) : Prop := Z.of_nat (length m) < 2 ^ 32 - 4.

(** No complete message, after the handshake. *)
Definition incomplete (rest : bytes) : Prop :=
  (length rest < 4)%nat \/ Z.of_nat (length rest) < get_msg_len rest true.

(** Handle messages one by one. *)
Fixpoint handle_all (ms : list bytes) w : result world :=
  match ms with
  | [] => Ok w
  | m :: ms' =>
      w ← handle_msg ti local_peer_id c (make_message (bb_write bb_new (frame m))) w;
      handle_all ms' w
  end.

(** The agent exists and its buffer is empty. *)
Definition cleared w : Prop := exists w0, w = edit_buffer (fun _ => []) w0.

Lemma cleared_intro w : is_Some (agents_ w !! c) -> buffer_of w = [] -> cleared w.
Proof.
  intros [a Ha] Hb. exists w. unfold edit_buffer, upd, set_agents. unfold buffer_of, agent_of in *.
  rewrite Ha in *. simpl in *. rewrite insert_id; [by destruct w|]. rewrite Ha. f_equal.
  destruct a. cbn in *. by subst.
Qed.

Lemma cleared_buffer w : cleared w -> buffer_of w = [].
Proof. intros [w0 ->]. apply buffer_of_edit. Qed.

Lemma cleared_append w : cleared w -> append [] w = w.
Proof.
  intros [w0 ->]. unfold append, edit_buffer. rewrite upd_upd. unfold upd. f_equal.
Qed.

Lemma cleared_message slice w w' : cleared w -> on_message ti local_peer_id c slice w = Ok w' -> cleared w'.
Proof.
  intros [w0 ->]. rewrite on_message_blind. destruct (on_message _ _ _ _ w0) as [w1|]; [|done].
  intros [= <-]. by exists w1.
Qed.

(** A message at the front of the buffer is cut off and handled. *)
Lemma turn_front m o w : cleared w -> (4 <= length m)%nat ->
  get_msg_len m (received_handshake w) = Z.of_nat (length m) ->
  has_message (append (m ++ o) w) = true /\
  turn (append (m ++ o) w) = append o <$> on_message ti local_peer_id c (bb_write bb_new m) w.
Proof.
  intros Hc H4 Hlen. pose proof (cleared_buffer w Hc) as Hb.
  assert (buffer_of (append (m ++ o) w) = m ++ o) as Hbuf by (by rewrite buffer_of_append, Hb).
  assert (next_len (append (m ++ o) w) = Z.of_nat (length m)) as Hn.
  { unfold next_len. rewrite Hbuf. unfold append. rewrite edit_received_handshake, <- Hlen.
    unfold get_msg_len. rewrite byte_at_app_l, span_app_l by lia. done. }
  split.
  - unfold has_message. rewrite Hn, Hbuf, length_app. apply andb_true_intro. split; apply Z.leb_le; lia.
  - unfold turn. assert (next_slice (append (m ++ o) w) = bb_write bb_new m) as ->.
    { unfold next_slice. rewrite Hn, Hbuf, Nat2Z.id. f_equal.
      rewrite span_in_range by (rewrite length_app; lia). by rewrite drop_0, take_app_length. }
    assert (cut (append (m ++ o) w) = append o w) as ->.
    { unfold cut. rewrite Hn, Hbuf, Nat2Z.id, drop_app_length. destruct Hc as [w0 ->].
      unfold append, edit_buffer. rewrite !upd_upd. unfold upd. f_equal. }
    apply on_message_blind.
Qed.

Lemma frame_len m : frame_ok m -> (4 <= length (frame m))%nat /\
  get_msg_len (frame m) true = Z.of_nat (length (frame m)).
Proof.
  unfold frame_ok, frame. intros H. rewrite length_app, length_be. split; [lia|].
  unfold get_msg_len. cbn [negb]. rewrite span_app_l by (by rewrite length_be).
  rewrite (span_all (be 4 (Z.of_nat (length m))) 4) by (by rewrite length_be). rewrite unbe_be_small by lia.
  rewrite u32_small by lia. lia.
Qed.

Lemma no_message rest w : cleared w -> received_handshake w = true -> incomplete rest ->
  has_message (append rest w) = false.
Proof.
  intros Hc Hh Hi. unfold has_message. rewrite buffer_of_append, (cleared_buffer w Hc). cbn [app].
  unfold next_len. rewrite buffer_of_append, (cleared_buffer w Hc). unfold append.
  rewrite edit_received_handshake, Hh. cbn [app].
  apply andb_false_iff. destruct Hi; [left|right]; apply Z.leb_gt; lia.
Qed.

Lemma loop_frames rest ms : forall fuel w w', incomplete rest -> Forall frame_ok ms -> cleared w ->
  received_handshake w = true -> (length ms <= fuel)%nat -> handle_all ms w = Ok w' ->
  loop fuel (append (concat (map frame ms) ++ rest) w) = Ok (append rest w').
Proof.
  induction ms as [|m ms IH]; intros fuel w w' Hi Hms Hc Hh Hf H; rewrite loop_turn; simpl in H.
  - injection H as <-. cbn [map concat app]. by rewrite no_message.
  - apply Forall_cons in Hms as [Hm Hms]. destruct (frame_len m Hm) as [H4 Hlen].
    cbn [map concat]. rewrite <- app_assoc. rewrite <- Hh in Hlen.
    destruct (turn_front (frame m) (concat (map frame ms) ++ rest) w Hc H4 Hlen) as [-> ->].
    destruct fuel as [|fuel]; [simpl in Hf; lia|].
    apply result_bind_ok in H as (w1 & H1 & H2).
    assert (on_message ti local_peer_id c (bb_write bb_new (frame m)) w = Ok w1) as Hom
      by (unfold on_message; fold (received_handshake w); by rewrite Hh).
    rewrite Hom. cbn [fmap result_fmap mbind result_bind].
    apply IH; [done|done| | |simpl in Hf; lia|done].
    + by eapply cleared_message.
    + by eapply on_message_handshake.
Qed.

Lemma frames_length rest ms : Forall frame_ok ms -> (length ms <= length (concat (map frame ms) ++ rest))%nat.
Proof.
  induction 1 as [|m ms Hm _ IH]; simpl; [lia|].
  rewrite <- app_assoc, length_app. destruct (frame_len m Hm) as [H4 _]. lia.
Qed.

(** C6: After the handshake the stream is a sequence of frames, each a big-endian length
    and that many bytes: the agent handles each of them once, in order, and keeps the
    incomplete rest for the next read. *)
Theorem on_read_frames rest ms w w' :
  is_Some (agents_ w !! c) -> buffer_of w = [] -> received_handshake w = true ->
  Forall frame_ok ms -> incomplete rest ->
  handle_all ms w = Ok w' ->
  on_read ti local_peer_id c (concat (map frame ms) ++ rest) w = Ok (append rest w').
Proof.
  intros Ha Hb Hh Hms Hi H. rewrite on_read_loop_append.
  apply loop_frames; try done; [by apply cleared_intro|].
  rewrite Hb. by apply frames_length.
Qed.

(** C32: [on_read] returns, unless the bytes contain the length prefix that wraps to an
    empty message. *)
Theorem on_read_terminates {BL : ByteBufferLaws BB} d w : bytes_ok (buffer_of w) -> bytes_ok d ->
  (forall w', rtc turns (append d w) w' -> ~ stuck w') ->
  on_read ti local_peer_id c d w <> Fault OutOfFuel.
Proof.
  intros Hok Hd Hns H. rewrite on_read_loop_append, <- buffer_of_append in H.
  apply loop_out_of_fuel in H as (w' & Hrtc & Hs); [|rewrite buffer_of_append; by apply Forall_app|done].
  by apply (Hns w').
Qed.

(** ** The handshake *)

Definition handshake_bytes (peer_id info_hash : bytes) : bytes :=
  19 :: V1 ++ replicate 8 0 ++ info_hash ++ peer_id.

Lemma handshake_valid {BL : ByteBufferLaws BB} b info pid hash :
  length pid = 20%nat -> length hash = 20%nat -> bb_readable b = handshake_bytes pid hash ->
  set_peer_id_and_validate_handshake b info =
  (true, if bool_decide (peer_id_ info <> []) then mk_peer_info pid (endpoint_ info) else info).
Proof.
  intros Hp Hh Hb. unfold set_peer_id_and_validate_handshake.
  destruct (peek_8_value b 0 19 ltac:(lia)) as [Hu _]; [by rewrite Hb|unfold byte_ok; lia|].
  rewrite Hu. unfold bb_available. rewrite Hb.
  assert (length (handshake_bytes pid hash) = 68%nat) as Hl.
  { unfold handshake_bytes. cbn [length]. rewrite !length_app, length_replicate, Hp, Hh. done. }
  rewrite !span_in_range by (rewrite Hl; simpl; lia). rewrite Hl.
  assert (take (Z.to_nat 19) (drop 1 (handshake_bytes pid hash)) = V1) as -> by done.
  assert (take 20 (drop 48 (handshake_bytes pid hash)) = pid) as ->.
  { unfold handshake_bytes. rewrite app_comm_cons.
    change 48%nat with (length (19%Z :: V1) + 28)%nat. rewrite drop_app_add.
    change 28%nat with (length (replicate 8 0%Z) + 20)%nat. rewrite drop_app_add, <- Hh, drop_app_length.
    rewrite Hh, <- Hp. apply firstn_all. }
  by rewrite bool_decide_true.
Qed.

(** A peer's handshake brings the agent from any state before it to HANDSHAKE_RECEIVED
    and queues the answer [interested]; the info hash it carries plays no part, and
    the peer id is taken only by an agent that had one before. *)
Theorem handshake_completes {BL : ByteBufferLaws BB} pid hash w :
  length pid = 20%nat -> length hash = 20%nat -> bytes_ok (pid ++ hash) ->
  is_Some (agents_ w !! c) -> buffer_of w = [] -> received_handshake w = false ->
  exists w', on_read ti local_peer_id c (handshake_bytes pid hash) w = Ok w' /\
    buffer_of w' = [] /\ sm_ (agent_of c w') = HANDSHAKE_RECEIVED /\
    send_queue_ (agent_of c w') = send_queue_ (agent_of c w) ++ [msg_factory_new_interested] /\
    peer_id_ (peer_info_ (agent_of c w')) =
      (if bool_decide (peer_id_ (peer_info_ (agent_of c w)) = []) then [] else pid).
Proof.
  intros Hp Hh Hok Ha Hb Hn. pose proof (cleared_intro w Ha Hb) as Hc.
  set (m := handshake_bytes pid hash).
  assert (length m = 68%nat) as Hl.
  { unfold m, handshake_bytes. cbn [length]. rewrite !length_app, length_replicate, Hp, Hh. done. }
  destruct (turn_front m [] w Hc ltac:(lia)) as [Hm Ht]; [by rewrite Hn, Hl|].
  rewrite app_nil_r in Hm, Ht.
  assert (bb_readable (bb_write bb_new m) = m) as Hr by (rewrite write_readable, new_readable; done).
  pose proof (handshake_valid (bb_write bb_new m) (peer_info_ (agent_of c w)) pid hash Hp Hh Hr) as Hv.
  set (info := if bool_decide (peer_id_ (peer_info_ (agent_of c w)) <> []) then _ else _) in Hv.
  set (w1 := agent_interested c (upd c (set_sm HANDSHAKE_RECEIVED) (upd c (set_peer_info info) w))).
  assert (on_message ti local_peer_id c (bb_write bb_new m) w = Ok w1) as Hom.
  { unfold on_message. fold (received_handshake w). by rewrite Hn, Hv. }
  pose proof (cleared_message _ _ _ Hc Hom) as Hc1. rewrite Hom in Ht. cbn [fmap result_fmap] in Ht.
  rewrite (cleared_append w1 Hc1) in Ht. exists w1. split.
  { rewrite on_read_loop_append, Hb, loop_turn. cbn [app]. fold m. rewrite Hm, Hl, Ht. cbn [mbind result_bind].
    rewrite loop_turn. unfold has_message. by rewrite (cleared_buffer w1 Hc1). }
  split; [by apply cleared_buffer|].
  unfold w1, agent_interested, push_msg.
  destruct (reg_agent EPOLLOUT (upd c (fun a => set_send_queue (send_queue_ a ++ [msg_factory_new_interested]) a)
    (upd c (set_sm HANDSHAKE_RECEIVED) (upd c (set_peer_info info) w)))) as [e ->].
  rewrite !upd_upd, agent_of_upd, decide_True by done.
  split; [done|]. split; [done|]. cbn. unfold info.
  destruct (peer_id_ (peer_info_ (agent_of c w))) eqn:E; simpl; [by rewrite E|done].
Qed.
End Blind.

(** ** Witnesses *)
Section FramingWitnesses.
Import ListBuffer Sample.

#[local] Instance quiet_os : OS := scripted_os None (Some 0) 1.
#[local] Instance no_past_end : PastEnd := fun _ _ => 0.

Definition my_id : bytes := replicate 20 65.

(** After the handshake, choked, with these bytes in the buffer. *)
Definition listening (buffer : bytes) : world := the_world (the_agent HANDSHAKE_RECEIVED true true [] buffer) [].

(** An UNCHOKE message in two parts. *)
Definition unchoked_world : world :=
  ok_or (listening []) (read_all torrent my_id 0 [[0; 0]; [0; 1; 1]] (listening [])).

Lemma unchoked_world_ok : read_all torrent my_id 0 [[0; 0]; [0; 1; 1]] (listening []) = Ok unchoked_world.
Proof. apply is_ok_or. by vm_compute. Qed.

Lemma on_read_chunks_witness : on_read torrent my_id 0 [0; 0; 0; 1; 1] (listening []) = Ok unchoked_world.
Proof.
  apply (on_read_chunks torrent my_id 0 [0; 0] [[0; 1; 1]] (listening []) unchoked_world).
  - constructor.
  - decide_by_computation.
  - exact unchoked_world_ok.
Defined.

Lemma wrapped_length_hangs_witness :
  on_read_loop torrent my_id 1000 0 (listening [255; 255; 255; 252]) <> Ok (listening []).
Proof. apply (wrapped_length_hangs torrent my_id 0 [] (listening [255; 255; 255; 252])); [done|constructor|done]. Defined.

Definition handled_world : world := ok_or (listening []) (handle_all torrent my_id 0 [[1]] (listening [])).

Lemma handle_unchoke : handle_all torrent my_id 0 [[1]] (listening []) = Ok handled_world.
Proof. apply is_ok_or. by vm_compute. Qed.

Lemma on_read_frames_witness :
  on_read torrent my_id 0 [0; 0; 0; 1; 1; 0; 0] (listening []) = Ok (append 0 [0; 0] handled_world).
Proof.
  apply (on_read_frames torrent my_id 0 [0; 0] [[1]] (listening []) handled_world).
  - by eexists.
  - done.
  - done.
  - repeat constructor.
  - left. simpl. lia.
  - exact handle_unchoke.
Defined.

Lemma on_read_terminates_witness : on_read torrent my_id 0 [0; 0] (listening []) <> Fault OutOfFuel.
Proof.
  apply (on_read_terminates torrent my_id 0 [0; 0] (listening [])).
  - constructor.
  - decide_by_computation.
  - intros w' Hw [Hm _]. inversion Hw as [|? ? ? [Hm' _]]; subst; [by vm_compute in Hm|by vm_compute in Hm'].
Defined.

(** Connected, before the handshake. *)
Definition greeting : world := the_world (the_agent CONNECTED true true [] []) [].

Lemma handshake_completes_witness :
  exists w', on_read torrent my_id 0 (handshake_bytes (replicate 20 66) (replicate 20 7)) greeting = Ok w' /\
    buffer_of 0 w' = [] /\ sm_ (agent_of 0 w') = HANDSHAKE_RECEIVED /\
    send_queue_ (agent_of 0 w') = [msg_factory_new_interested] /\
    peer_id_ (peer_info_ (agent_of 0 w')) = replicate 20 66.
Proof.
  apply (handshake_completes torrent my_id 0 (replicate 20 66) (replicate 20 7) greeting).
  - done.
  - done.
  - apply Forall_app. split; apply Forall_replicate; unfold byte_ok; lia.
  - by eexists.
  - done.
  - done.
Defined.
End FramingWitnesses.
