(* ===== verification/AgentLife.v ===== *)
(** * The life of an agent

    What the agent's callbacks do to its connection: asking for pieces, sending,
    losing the connection and coming back. *)

From S2P Require Import Prelude ByteBuffer Messages MsgFactory Float32 SessionSm Sockets Net.
From S2P Require Import Timer NetReactor Storage Files PieceHandler PieceRequests PieceWrites.
From S2P Require Import Download Agent Samples Framing.

(** ** Sending *)
Section Sending.
Context {BB : ByteBuffer} {BL : ByteBufferLaws BB} {Os : OS} {OL : OSLaws Os}.

(** The system calls of one [send] and the bytes they took, in order. *)
Inductive writes (fd : Z) : os -> bytes -> os -> Prop :=
  | writes_none s : writes fd s [] s
  | writes_fail d s s1 : sys_write fd d s = (-1, s1) -> writes fd s [] s1
  | writes_some d s n s1 l s' : sys_write fd d s = (n, s1) -> 0 < n ->
      writes fd s1 l s' -> writes fd s (take (Z.to_nat n) d ++ l) s'.

Lemma send_loop_writes fuel fd : forall b s, (length (bb_readable b) <= fuel)%nat ->
  exists ok b' s' l, send_loop fuel fd b s = Ok (ok, b', s') /\ writes fd s l s' /\
    bb_readable b = l ++ bb_readable b' /\ (ok = true <-> bb_readable b' = []).
Proof.
  induction fuel as [|fuel IH]; intros b s Hl; cbn [send_loop]; unfold bb_available;
    destruct (decide (bb_readable b = [])) as [E|E].
  1, 3: rewrite E; simpl; exists true, b, s, []; split_and!; [done|constructor|done|done].
  - destruct (bb_readable b); simpl in *; [done|lia].
  - rewrite (proj2 (Z.ltb_lt _ _)) by (destruct (bb_readable b); [done|simpl; lia]).
    destruct (tcp_socket_write fd b s) as [[res b1] s1] eqn:Ew.
    pose proof (tcp_socket_write_readable fd b s res b1 s1 Ew) as (Hb1 & [Hr1 Hr2] & Hr0).
    specialize (Hr0 E). unfold bb_available in Hr2. unfold tcp_socket_write in Ew.
    destruct (sys_write fd (bb_readable b) s) as [r s2] eqn:Es. injection Ew as -> _ ->.
    destruct (Z.ltb_spec res 0) as [Hneg|Hpos].
    + exists false, b1, s1, []. assert (res = -1) as -> by lia.
      rewrite drop_0 in Hb1. split_and!; [done|by eapply writes_fail|by rewrite Hb1|by rewrite Hb1].
    + destruct (IH b1 s1) as (ok & b' & s' & l & -> & Hw & Hl' & Hok).
      { rewrite Hb1, length_drop. destruct (bb_readable b); [done|]. simpl in *. lia. }
      exists ok, b', s', (take (Z.to_nat res) (bb_readable b) ++ l).
      split_and!; [done| | |done].
      * by eapply writes_some; [exact Es|lia|].
      * rewrite <- app_assoc, <- Hl', Hb1. by rewrite take_drop.
Qed.

(** C31: [send] ends; what the system calls took is exactly a front part of the message, and
    all of it if and only if it reports success. *)
Theorem send_exact fd b s :
  exists ok b' s' l, send fd b s = Ok (ok, b', s') /\ writes fd s l s' /\
    bb_readable b = l ++ bb_readable b' /\ (ok = true <-> bb_readable b' = []).
Proof. by apply send_loop_writes. Qed.
End Sending.

Section Life.
Context {BB : ByteBuffer} {PE : PastEnd} {Os : OS} {FS : FileSystem} {SHA : Sha1} {SO : SetOrder}.
Variable ti : torrent_info.
Variable local_peer_id : bytes.
Variable c : nat.
Implicit Types w : world.

(** If the first system call for the message at the front of the queue fails, for
    instance because the socket's buffer is full, the message is taken off the queue
    all the same: none of its bytes is ever sent. *)
Theorem write_loses_message m q w : connected_ (agent_of c w) = true ->
  send_queue_ (agent_of c w) = m :: q -> bb_readable m <> [] ->
  (sys_write (socket_ (agent_of c w)) (bb_readable m) (os_ w)).1 = -1 ->
  exists w', agent_write ti local_peer_id c w = Ok w' /\ send_queue_ (agent_of c w') = q /\
    os_ w' = (sys_write (socket_ (agent_of c w)) (bb_readable m) (os_ w)).2.
Proof.
  intros Hcon Hq Hm Hs. unfold agent_write. rewrite Hcon, Hq. cbn [negb write_queue].
  assert (exists b', send (socket_ (agent_of c w)) m (os_ w) =
    Ok (false, b', (sys_write (socket_ (agent_of c w)) (bb_readable m) (os_ w)).2)) as [b' ->].
  { unfold send. destruct (bb_readable m) as [|x l] eqn:E; [done|]. cbn [length send_loop].
    unfold bb_available. rewrite E. cbn [length].
    rewrite (proj2 (Z.ltb_lt 0 _)) by lia. unfold tcp_socket_write. rewrite E.
    destruct (sys_write _ _ _) as [r s]. simpl in Hs. subst r. simpl. by eexists. }
  cbn [mbind result_bind]. eexists. split; [done|]. split; [|done].
  change (send_queue_ (agent_of c (upd c (set_send_queue q) w)) = q).
  by rewrite agent_of_upd, decide_True.
Qed.

(** ** Losing the connection *)

Lemma tcp_socket_close_fd fd s : exists s', tcp_socket_close fd s = (-1, s').
Proof.
  unfold tcp_socket_close, tcp_socket_valid. destruct (Z.eqb_spec fd (-1)) as [->|]; by eexists.
Qed.

(** The state after the connection is lost. *)
Lemma agent_disconnected_fields w : exists s,
  agent_disconnected c w =
  mk_world (<[c := set_connected false (set_socket (-1) (agent_of c w))]> (agents_ w))
    (mk_net_reactor (efd_ (reactor_ w)) (wait_ms_ (reactor_ w))
      (delete (socket_ (agent_of c w)) (clients_ (reactor_ w))))
    (timer_reg c (reconnect_ms (connection_attempts_ (agent_of c w))) (timer_ w))
    (piece_handler_ w) (running_ w) (notified_ w) s.
Proof.
  unfold agent_disconnected. set (w1 := unreg c 0 w).
  destruct (tcp_socket_close_fd (socket_ (agent_of c w1)) (os_ w1)) as [s ->]. exists s.
  unfold set_timer, set_os, upd, set_agents, agent_of. cbn. rewrite !lookup_insert_eq. done.
Qed.

(** A lost connection is dropped from the reactor and waits in the timer, for five
    seconds at first and twice as long after every further attempt. *)
Theorem disconnected_waits w : timer_ok (timer_ w) ->
  let w' := agent_disconnected c w in
  clients_ (reactor_ w') !! socket_ (agent_of c w) = None /\
  timer_clients (timer_ w') = timer_clients (timer_ w) ++ [c] /\
  timer_client (timer_ w') c =
    mk_itimer_client (f32_of_Z (5000 * 2 ^ Z.max 0 (connection_attempts_ (agent_of c w) - 1))) (f32_of_Z 0) /\
  connected_ (agent_of c w') = false /\ socket_ (agent_of c w') = -1.
Proof.
  intros Ht w'. destruct (agent_disconnected_fields w) as [s Hw]. subst w'. rewrite Hw.
  set (w' := mk_world _ _ _ _ _ _ _).
  assert (agent_of c w' = set_connected false (set_socket (-1) (agent_of c w))) as ->
    by (unfold agent_of at 1; cbn; by rewrite lookup_insert_eq).
  cbn. rewrite lookup_delete_eq. split; [done|]. split; [|split; [|done]].
  - by destruct (timer_reg_clients c (reconnect_ms (connection_attempts_ (agent_of c w))) (timer_ w)).
  - unfold timer_client. cbn. by rewrite lookup_insert_eq.
Qed.

(** ** Two events at once *)

Lemma read_eof w : bb_readable (bb_reset (io_buffer_ (agent_of c w))) = [] ->
  (sys_read (socket_ (agent_of c w)) (bb_write_available (bb_reset (io_buffer_ (agent_of c w)))) (os_ w)).1 = Some [] ->
  exists w1, agent_read ti local_peer_id c w = Ok (agent_disconnected c w1) /\
    socket_ (agent_of c w1) = socket_ (agent_of c w) /\ reactor_ w1 = reactor_ w.
Proof.
  intros Hio Hr. unfold agent_read, tcp_socket_read.
  destruct (sys_read _ _ _) as [res s]. simpl in Hr. subst res. change (Z.of_nat (length [])) with 0. change (0 <? 0) with false. change (0 =? 0) with true. cbv iota.
  set (w0 := set_os s (upd c (set_io_buffer (bb_reset (io_buffer_ (agent_of c w)))) w)).
  exists (upd c (set_sm DISCONNECTED) w0).
  assert (agent_of c (upd c (set_sm DISCONNECTED) w0) =
    set_sm DISCONNECTED (set_io_buffer (bb_reset (io_buffer_ (agent_of c w))) (agent_of c w))) as Ha.
  { rewrite agent_of_upd, decide_True by done. f_equal.
    change (agent_of c w0) with (agent_of c (upd c (set_io_buffer (bb_reset (io_buffer_ (agent_of c w)))) w)).
    by rewrite agent_of_upd, decide_True. }
  split; [|split; [by rewrite Ha|done]].
  unfold on_event, session_sm_on_event. cbn [ism_disconnected agent_client sm_set target mbind result_bind].
  assert (io_buffer_ (agent_of c (agent_disconnected c (upd c (set_sm DISCONNECTED) w0))) =
    bb_reset (io_buffer_ (agent_of c w))) as ->; [|unfold bb_available; by rewrite Hio].
  destruct (agent_disconnected_fields (upd c (set_sm DISCONNECTED) w0)) as [s' ->].
  unfold agent_of at 1. cbn. rewrite lookup_insert_eq. cbn. by rewrite Ha.
Qed.

(** When the peer closes the connection and the descriptor is reported readable and
    writable in the same event, [read] unregisters the agent and the reactor goes on
    to use the erased element. *)
Theorem eof_dangles {BL : ByteBufferLaws BB} fd ev w :
  clients_ (reactor_ w) !! fd = Some c -> socket_ (agent_of c w) = fd ->
  has_event ev EPOLLIN = true -> has_event ev EPOLLOUT = true ->
  (sys_read fd (bb_write_available (bb_reset (io_buffer_ (agent_of c w)))) (os_ w)).1 = Some [] ->
  dispatch (RC := agent_reactor_client ti local_peer_id) fd ev w = Fault DanglingIterator.
Proof.
  intros Hc <- Hin Hout Hr.
  destruct (read_eof w (reset_readable _) Hr) as (w1 & Hread & Hs & Hrw).
  apply (dispatch_dangling _ _ c _ (agent_disconnected c w1)); try done.
  destruct (agent_disconnected_fields w1) as [s ->]. cbn. rewrite Hs. apply lookup_delete_eq.
Qed.

(** A failed [connect] reports its error once.  The reactor calls [read] first, which
    consumes the error; [write] then finds none and takes the connection for
    established. *)
Theorem refused_is_connected {BL : ByteBufferLaws BB} fd ev w n s s' :
  clients_ (reactor_ w) !! fd = Some c -> socket_ (agent_of c w) = fd -> connected_ (agent_of c w) = false ->
  has_event ev EPOLLIN = true -> has_event ev EPOLLOUT = true ->
  n = bb_write_available (bb_reset (io_buffer_ (agent_of c w))) ->
  sys_read fd n (os_ w) = (None, s) -> sys_so_error fd s = (Some 0, s') ->
  exists w', dispatch (RC := agent_reactor_client ti local_peer_id) fd ev w = Ok w' /\
    connected_ (agent_of c w') = true /\ sm_ (agent_of c w') = CONNECTED /\
    send_queue_ (agent_of c w') = send_queue_ (agent_of c w) ++
      [msg_factory_new_handshake local_peer_id (to_hex (ti_info_hash ti))].
Proof.
  intros Hc <- Hcon Hin Hout -> Hr He. unfold dispatch, rw_reactor. cbn [world_reactor].
  rewrite Hc, Hin, Hout. cbn [irc_read irc_write agent_reactor_client].
  unfold agent_read, tcp_socket_read. rewrite Hr. cbn [Z.eqb mbind result_bind].
  set (w1 := set_os s (upd c (set_io_buffer (bb_reset (io_buffer_ (agent_of c w)))) w)).
  assert (agent_of c w1 = set_io_buffer (bb_reset (io_buffer_ (agent_of c w))) (agent_of c w)) as Ha.
  { change (agent_of c w1) with (agent_of c (upd c (set_io_buffer (bb_reset (io_buffer_ (agent_of c w)))) w)).
    by rewrite agent_of_upd, decide_True. }
  rewrite Ha. cbn [io_buffer_ set_io_buffer]. unfold bb_available. rewrite reset_readable.
  change (0 <? Z.of_nat (length [])) with false. cbn [mbind result_bind].
  change (clients_ (reactor_ w1)) with (clients_ (reactor_ w)). rewrite Hc.
  unfold agent_write, tcp_socket_getsockopt. rewrite Ha. cbn [connected_ socket_ set_io_buffer]. rewrite Hcon.
  cbn [negb]. change (os_ w1) with s. rewrite He. cbn [Z.eqb].
  set (w2 := unreg c EPOLLOUT (upd c (set_connected true) (set_os s' w1))).
  unfold on_event, session_sm_on_event. cbn [ism_handshake agent_client sm_set target].
  eexists. split; [done|]. unfold agent_handshake, push_msg.
  match goal with |- context [reg c EPOLLOUT ?x] => destruct (reg_agent c EPOLLOUT x) as [e ->] end.
  rewrite !upd_upd, agent_of_upd, decide_True by done. unfold w2.
  destruct (unreg_agent c EPOLLOUT (upd c (set_connected true) (set_os s' w1))) as [e' ->].
  rewrite agent_of_upd, decide_True by done. change (agent_of c (set_os s' w1)) with (agent_of c w1).
  by rewrite Ha.
Qed.

(** ** Coming back *)

Lemma reg_timer ev w : timer_ (reg c ev w) = timer_ w.
Proof.
  unfold reg, net_reactor_reg, ctl_add, ctl_mod, set_clients.
  destruct (clients_ (rw_reactor w) !! rw_fd c w); destruct (_ : Z * os) as [res s]; [done|].
  by destruct (negb (negb (res =? -1))).
Qed.

(** After the pause the agent leaves the timer and starts again on a new socket.  Its
    queue is emptied, but the unfinished message in its buffer and [choked_] are those
    of the lost connection. *)
Theorem timeout_restarts w w' : agent_on_timeout ti local_peer_id c w = Ok w' ->
  timer_clients (timer_ w') = filter (fun d => d <> c) (timer_clients (timer_ w)) /\
  msg_buffer_ (agent_of c w') = msg_buffer_ (agent_of c w) /\
  choked_ (agent_of c w') = choked_ (agent_of c w) /\
  connection_attempts_ (agent_of c w') = connection_attempts_ (agent_of c w) + 1 /\
  sm_ (agent_of c w') = (if connected_ (agent_of c w') then CONNECTED else STARTED).
Proof.
  unfold agent_on_timeout. set (w2 := upd c (set_send_queue []) (set_timer (timer_unreg c (timer_ w)) w)).
  assert (agent_of c w2 = set_send_queue [] (agent_of c w)) as H2
    by (unfold w2; by rewrite agent_of_upd, decide_True).
  assert (timer_clients (timer_ w2) = filter (fun d => d <> c) (timer_clients (timer_ w))) as Ht2
    by apply timer_unreg_clients.
  destruct (tcp_socket_reset _ _) as [[fd s]|]; [|done]. cbn [mbind result_bind].
  unfold agent_start, on_event, session_sm_on_event. cbn [ism_connect agent_client sm_set target].
  set (w3 := reg c EPOLLIN _).
  assert (exists e, agent_of c w3 = set_events e (set_socket fd (set_send_queue [] (agent_of c w)))) as [e H3].
  { unfold w3. match goal with |- context [reg c EPOLLIN ?x] => destruct (reg_agent c EPOLLIN x) as [e ->] end.
    exists e. f_equal. change (agent_of c (upd c (set_socket fd) w2) = set_socket fd (set_send_queue [] (agent_of c w))).
    by rewrite agent_of_upd, decide_True, H2. }
  assert (timer_ w3 = timer_ w2) as Ht3 by (unfold w3; by rewrite reg_timer).
  unfold agent_connect. destruct (tcp_socket_connect _ _ _) as [ok s'].
  rewrite upd_upd. set (w4 := set_os s' _).
  assert (agent_of c w4 = set_connection_attempts (connection_attempts_ (agent_of c w) + 1)
    (set_connected ok (set_sm STARTED (agent_of c w3)))) as H4.
  { change (agent_of c w4) with (agent_of c (upd c (fun a =>
      set_connection_attempts (connection_attempts_ (set_sm STARTED a) + 1) (set_connected ok (set_sm STARTED a))) w3)).
    rewrite agent_of_upd, decide_True by done. by rewrite H3. }
  destruct ok.
  - unfold session_sm_on_event. cbn [ism_handshake inner_client sm_set target]. intros [= <-].
    unfold agent_handshake, push_msg. rewrite upd_upd, reg_timer.
    match goal with |- context [reg c EPOLLOUT ?x] => destruct (reg_agent c EPOLLOUT x) as [e' ->] end.
    rewrite agent_of_upd, decide_True, H4, H3 by done. split_and!; try done.
    change (timer_clients (timer_ w3) = filter (fun d => d <> c) (timer_clients (timer_ w))).
    by rewrite Ht3.
  - intros [= <-]. rewrite reg_timer. destruct (reg_agent c EPOLLOUT w4) as [e' ->].
    rewrite H4, H3. split_and!; try done.
    change (timer_clients (timer_ w3) = filter (fun d => d <> c) (timer_clients (timer_ w))).
    by rewrite Ht3.
Qed.

(** ** Asking for pieces *)
Section Requests.
Context {SOL : SetOrderLaw SO}.

(** A request that may be sent to the peer. *)
Definition askable (ph : piece_handler) (peer : bytes) (r : request) : Prop :=
  requestable ti ph peer r /\ received_at ph (index_ r, begin_ r) = false.

Lemma get_piece_request_keeps peer ph r ph' : get_piece_request ti peer ph = (r, ph') ->
  queues_ok ti ph ->
  queues_ok ti ph' /\ (forall p, have_set ph' p = have_set ph p) /\
  (forall k, received_at ph' k = received_at ph k) /\ (r.1 = true -> askable ph peer r.2).
Proof.
  intros H Hq. split; [by eapply queues_ok_request|].
  pose proof (get_piece_request_spec ti peer ph) as Hs. rewrite H in Hs. destruct r as [ok r].
  assert (forall q, ph' ≡ set_queue peer q ph ->
    (forall p, have_set ph' p = have_set ph p) /\ (forall k, received_at ph' k = received_at ph k)) as Hkeep.
  { intros q He. split; intros x; [by rewrite (have_set_proper _ _ He _ _ eq_refl)|].
    by rewrite (received_at_proper _ _ He _ _ eq_refl). }
  destruct (drop_received ph (pending ti ph peer)) as [|r0 q0] eqn:E.
  - destruct Hs as [-> He]. by destruct (Hkeep _ He).
  - destruct Hs as (-> & -> & He). destruct (Hkeep _ He) as [H1 H2]. split; [done|]. split; [done|]. intros _.
    destruct (drop_received_head _ _ _ _ E) as [Hrec Hin]. split; [|done].
    refine (pending_requestable ti ph peer r0 Hq _). apply Hin. by left.
Qed.

Lemma request_loop_spec n : forall count w, queues_ok ti (piece_handler_ w) ->
  exists rs w', request_loop ti n c count w = ((count + length rs)%nat, w') /\ (length rs <= n)%nat /\
    send_queue_ (agent_of c w') = send_queue_ (agent_of c w) ++ map msg_factory_new_request rs /\
    peer_info_ (agent_of c w') = peer_info_ (agent_of c w) /\
    Forall (askable (piece_handler_ w) (peer_id_ (peer_info_ (agent_of c w)))) rs.
Proof.
  induction n as [|n IH]; intros count w Hq; cbn [request_loop].
  - exists [], w. rewrite app_nil_r, Nat.add_0_r. split_and!; try done.
  - destruct (get_piece_request _ _ _) as [[ok r] ph] eqn:E.
    destruct (get_piece_request_keeps _ _ _ _ E Hq) as (Hq' & Hh & Hr & Hask). destruct ok; cbn [negb].
    + set (w1 := push_msg c _ _).
      assert (agent_of c w1 = set_send_queue (send_queue_ (agent_of c w) ++ [msg_factory_new_request r]) (agent_of c w)) as Ha
        by (unfold w1, push_msg; by rewrite agent_of_upd, decide_True).
      destruct (IH (S count) w1 Hq') as (rs & w' & -> & Hlen & Hsq & Hp & Hf).
      rewrite Ha in Hsq, Hp, Hf. cbn in Hsq, Hp, Hf.
      exists (r :: rs), w'. split_and!; [f_equal; simpl; lia|simpl; lia| |done|].
      * rewrite Hsq, <- app_assoc. done.
      * constructor; [by apply Hask|]. eapply Forall_impl; [exact Hf|].
        intros r' [(i & k & Hi & Hk) Hn]. split; [|by rewrite <- Hr].
        exists i, k. split; [by rewrite <- Hh|done].
    + exists [], (set_piece_handler ph w). rewrite app_nil_r, Nat.add_0_r. split_and!; try done. simpl. lia.
Qed.

(** C33: One burst: an unchoked agent queues at most fifteen requests, each for a block that
    its peer has announced and that has not arrived; a choked one queues none. *)
Theorem request_burst w : ph_reachable ti (piece_handler_ w) ->
  exists rs, send_queue_ (agent_of c (request_pieces ti c w)) =
      send_queue_ (agent_of c w) ++ map msg_factory_new_request rs /\
    (length rs <= 15)%nat /\ (choked_ (agent_of c w) = true -> rs = []) /\
    Forall (askable (piece_handler_ w) (peer_id_ (peer_info_ (agent_of c w)))) rs.
Proof.
  intros Hr. pose proof (reachable_queues_ok ti _ Hr) as Hq. unfold request_pieces. destruct (choked_ (agent_of c w)); cbn [negb].
  { exists []. rewrite app_nil_r. split; [done|]. split; [simpl; lia|done]. }
  destruct (request_loop_spec MAX_BURST 0 w Hq) as (rs & w' & -> & Hlen & Hs & _ & Hf).
  exists rs. split; [|split; [done|by split]]. destruct (0 <? 0 + length rs)%nat; [|done].
  by destruct (reg_agent c EPOLLOUT w') as [e ->].
Qed.
End Requests.
End Life.

(** ** Witnesses *)
Section LifeWitnesses.
Import ListBuffer Sample.

#[local] Instance zero_past_end : PastEnd := fun _ _ => 0.

Definition my_name : bytes := replicate 20 65.
Definition hello : @buf list_buffer := mk [104; 105] 0.

(** Nothing written. *)
Definition silence : list bytes := [].

(** A socket that takes one byte at a time. *)
Definition slow_os : OS := scripted_os (Some []) (Some 0) 1.

Lemma slow_os_laws : OSLaws slow_os.
Proof. apply scripted_os_laws; [constructor|done]. Qed.

Lemma send_exact_witness :
  exists ok b' s' l, send (BB := list_buffer) (Os := slow_os) 3 hello silence = Ok (ok, b', s') /\
    writes (Os := slow_os) 3 silence l s' /\
    [104; 105] = l ++ bb_readable (ByteBuffer := list_buffer) b' /\
    (ok = true <-> bb_readable (ByteBuffer := list_buffer) b' = []).
Proof. apply (send_exact (BB := list_buffer) (Os := slow_os) (OL := slow_os_laws) 3 hello silence). Defined.

(** A socket whose buffer is full. *)
Definition full_os : OS := scripted_os (Some []) (Some 0) (-1).

Definition sending : world (Os := full_os) := the_world (Os := full_os) (the_agent UNCHOKED true false [hello] []) silence.

Lemma write_loses_message_witness :
  exists w', agent_write (Os := full_os) torrent my_name 0 sending = Ok w' /\
    send_queue_ (agent_of (Os := full_os) 0 w') = [] /\ os_ w' = silence.
Proof. apply (write_loses_message (Os := full_os) torrent my_name 0 hello [] sending); done. Defined.

Lemma disconnected_waits_witness :
  timer_clients (timer_ (agent_disconnected (Os := full_os) 0 sending)) = [0%nat].
Proof. apply (disconnected_waits (Os := full_os) 0 sending). unfold timer_ok. simpl. lia. Defined.

Lemma eof_dangles_witness :
  dispatch (O := full_os) (RW := world_reactor (Os := full_os)) (RC := agent_reactor_client (Os := full_os) torrent my_name) 3 5 sending = Fault DanglingIterator.
Proof. apply (eof_dangles (Os := full_os) torrent my_name 0 3 5 sending); done. Defined.

(** A refused connection: reading fails, and the error has been reported by then. *)
Definition refusing_os : OS := scripted_os None (Some 0) 1.

Definition connecting : world (Os := refusing_os) := the_world (Os := refusing_os) (the_agent STARTED false true [] []) silence.

Lemma refused_is_connected_witness :
  exists w', dispatch (O := refusing_os) (RW := world_reactor (Os := refusing_os)) (RC := agent_reactor_client (Os := refusing_os) torrent my_name) 3 5 connecting = Ok w' /\
    connected_ (agent_of (Os := refusing_os) 0 w') = true /\ sm_ (agent_of (Os := refusing_os) 0 w') = CONNECTED /\
    send_queue_ (agent_of (Os := refusing_os) 0 w') =
      [] ++ [msg_factory_new_handshake my_name (to_hex (ti_info_hash torrent))].
Proof.
  apply (refused_is_connected (Os := refusing_os) torrent my_name 0 3 5 connecting 64 [] []); done.
Defined.

(** A connection that was lost in the middle of a message. *)
Definition lost : world (Os := refusing_os) :=
  agent_disconnected (Os := refusing_os) 0 (the_world (Os := refusing_os) (the_agent UNCHOKED true false [] [0; 0; 0]) silence).

Definition restarted : world (Os := refusing_os) :=
  ok_or lost (agent_on_timeout torrent my_name 0 lost).

Lemma restarted_ok : agent_on_timeout torrent my_name 0 lost = Ok restarted.
Proof. apply is_ok_or. by vm_compute. Qed.

Lemma timeout_restarts_witness :
  timer_clients (timer_ restarted) = filter (fun d => d <> 0%nat) (timer_clients (timer_ lost)) /\
  msg_buffer_ (agent_of (Os := refusing_os) 0 restarted) = msg_buffer_ (agent_of (Os := refusing_os) 0 lost) /\
  choked_ (agent_of (Os := refusing_os) 0 restarted) = choked_ (agent_of (Os := refusing_os) 0 lost) /\
  connection_attempts_ (agent_of (Os := refusing_os) 0 restarted) =
    connection_attempts_ (agent_of (Os := refusing_os) 0 lost) + 1 /\
  sm_ (agent_of (Os := refusing_os) 0 restarted) =
    (if connected_ (agent_of (Os := refusing_os) 0 restarted) then CONNECTED else STARTED).
Proof. apply (timeout_restarts torrent my_name 0 lost restarted). exact restarted_ok. Defined.

Lemma request_burst_witness :
  exists rs, send_queue_ (agent_of (Os := full_os) 0 (request_pieces torrent 0 sending)) =
      [hello] ++ map msg_factory_new_request rs /\
    (length rs <= 15)%nat /\ (false = true -> rs = []) /\
    Forall (askable torrent announced_pieces peer) rs.
Proof. apply (request_burst (Os := full_os) torrent 0 sending). exact announced_reachable. Defined.
End LifeWitnesses.
