(* ===== verification/Session.v ===== *)
(** * The session

    [src/session.cpp] and [include/session.hpp]: the turn of the engine, which polls
    the reactor and runs the timer, the progress display and the local peer id.  The
    two threads of [start] are in Threads.v. *)

From S2P Require Import Prelude ByteBuffer Messages Float32 SessionSm Sockets Net Timer.
From S2P Require Import NetReactor Storage Files PieceHandler Agent.

(** ** The local peer id *)

(** [src/session.cpp:130-130] create_local_peer_id *)
Definition client_name : bytes := bytes_of_string "-tent0001-".

(** [src/session.cpp:131-133] create_local_peer_id *)
Definition alphanum : bytes :=
  bytes_of_string "0123456789ABCDEFGHIJKLMNOPQRSTUVWXYZabcdefghijklmnopqrstuvwxyz".

(** [src/session.cpp:128-147] create_local_peer_id
    [draws] are the numbers the distribution yields, one for each turn of the loop. *)
Definition create_local_peer_id (draws : nat -> Z) : bytes :=
  client_name ++ map (fun i => nth (Z.to_nat (draws i)) alphanum 0) (seq 0 10).

(** ** Progress *)

(** [src/session.cpp:76-79] session::completed *)
Definition completed (written num_pieces : Z) : f32 :=
  f32_div (f32_mul (f32_of_Z 100) (f32_of_Z written)) (f32_of_Z num_pieces).

(** [src/session.cpp:108-124] session::print_progress
    The new progress string and whether the line is printed. *)
Definition print_progress (percentage : f32) (progress_str : bytes) : bytes * bool :=
  let is_complete := f32_le (f32_of_Z 100) percentage in
  if is_complete || f32_lt (f32_of_Z (Z.of_nat (length progress_str))) percentage
  then (progress_str ++ [35], true) else (progress_str, false).

Section Session.
Context {BB : ByteBuffer} {PE : PastEnd} {Os : OS} {FS : FileSystem} {SHA : Sha1} {SO : SetOrder}.
Variable ti : torrent_info.
Variable local_peer_id : bytes.
Implicit Types w : world.

(** [src/session.cpp:81-106] session::engine
    One turn of the loop, under the mutex. *)
Definition engine_turn (w : world) : result world :=
  let '(now, s) := sys_now (os_ w) in
  let w := set_os s (set_timer (timer_tick now (timer_ w)) w) in
  '(poll_res, w) ← net_reactor_poll (RC := agent_reactor_client ti local_peer_id) w;
  let w := if (poll_res : Z) <? 0 then session_stop w else w in
  let '(now, s) := sys_now (os_ w) in
  w ← timer_tock (agent_on_timeout ti local_peer_id) now (set_os s w);
  Ok (set_notified true w).

(** [src/session.cpp:81-106] session::engine
    The state after at most [turns] turns of the loop. *)
Fixpoint engine (turns : nat) (w : world) : result world :=
  match turns with
  | O => Ok w
  | S turns' => if running_ w then w ← engine_turn w; engine turns' w else Ok w
  end.

(** [src/session.cpp:46-51] session::start
    An agent for every peer, in order. *)
Fixpoint create_agents (c : nat) (peers : list peer_info) (w : world) : result world :=
  match peers with
  | [] => Ok w
  | peer :: peers' => w ← torrent_agent_create ti local_peer_id c peer w; create_agents (S c) peers' w
  end.

(** [src/session.cpp:37-53] session::start
    Up to the creation of the engine's thread; [announced] are the peers of a
    successful announce. *)
Definition session_start (announced : option (list peer_info)) (w : world) : result world :=
  match announced with
  | None => Ok w
  | Some peers => w ← create_agents 0 peers w; Ok (set_running true w)
  end.

(** [src/session.cpp:18-31] session::session
    With the reactor it was given. *)
Definition session_create (reactor : net_reactor) (dk : disk) (s : os) : result world :=
  '(mkdirs, ph) ← piece_handler_create ti dk;
  Ok (mk_world ∅ reactor timer_init ph false false s).
End Session.

(** The id has the twenty bytes the handshake sends, the first ten of them the name of
    the client, the others letters and digits. *)
Lemma create_local_peer_id_length draws : length (create_local_peer_id draws) = 20%nat.
Proof. done. Qed.

(** *** The progress bar *)

(** The string grows by at most one character, and only if the line is printed. *)
Lemma print_progress_grows percentage str :
  let '(str', printed) := print_progress percentage str in
  str' = if printed : bool then str ++ [35] else str.
Proof. unfold print_progress. by destruct (_ || _). Qed.
