(* ===== verification/Threads.v ===== *)
(** * The two threads of a session

    [session::start] and [session::engine] of [src/session.cpp]: the engine's thread
    and the main thread share a mutex, a condition variable and the two flags.  The
    steps are the points between which a thread runs undisturbed by the other; the
    engine's turn is one step, because it holds the mutex and the main thread touches
    nothing without it. *)

From S2P Require Import Prelude.

(** Where the engine's thread is: at the loop condition, waiting for the mutex, in its
    turn, at [notified_ = true; notify_one()], or finished. *)
(** [src/session.cpp:81-106] session::engine *)
Inductive engine_pc := E_check | E_lock | E_turn | E_notify | E_done.

(** Where the main thread is: at the construction of the lock, at the loop condition
    and at the predicate of [wait] (both with the mutex), asleep, waiting for the mutex
    after it was woken, printing, at [join] (still with the mutex), or finished. *)
(** [src/session.cpp:53-68] session::start *)
Inductive main_pc := M_lock | M_check | M_wait | M_sleep | M_woken | M_print | M_join | M_done.

(** [include/session.hpp:47-50] session *)
Record threads := mk_threads {
  engine_at : engine_pc;
  main_at : main_pc;
  is_running : bool;
  is_notified : bool;
}.

(** Who holds the mutex. *)
Definition engine_holds (s : threads) : bool :=
  match engine_at s with E_turn | E_notify => true | _ => false end.
Definition main_holds (s : threads) : bool :=
  match main_at s with M_check | M_wait | M_print | M_join => true | _ => false end.

(** The effect of [notify_one] on the main thread. *)
Definition wake (m : main_pc) : main_pc := match m with M_sleep => M_woken | m => m end.

(** [src/session.cpp:53-106] session::start, session::engine
    The turn may clear [running_] and then sets [notified_]; nothing sets [running_].  These are
    the steps the program takes by itself: a thread asleep is woken by [notify_one] alone. *)
Inductive program_step : threads -> threads -> Prop :=
  | engine_checks m r n :
      program_step (mk_threads E_check m r n) (mk_threads (if r : bool then E_lock else E_done) m r n)
  | engine_locks m r n : main_holds (mk_threads E_lock m r n) = false ->
      program_step (mk_threads E_lock m r n) (mk_threads E_turn m r n)
  | engine_turns m r n : program_step (mk_threads E_turn m r n) (mk_threads E_notify m r n)
  | engine_stops m r n : program_step (mk_threads E_turn m r n) (mk_threads E_notify m false true)
  | engine_notifies m r n :
      program_step (mk_threads E_notify m r n) (mk_threads E_check (wake m) r true)
  | main_locks e r n : engine_holds (mk_threads e M_lock r n) = false ->
      program_step (mk_threads e M_lock r n) (mk_threads e M_check r n)
  | main_checks e r n :
      program_step (mk_threads e M_check r n) (mk_threads e (if r : bool then M_wait else M_join) r n)
  | main_waits e r n :
      program_step (mk_threads e M_wait r n) (mk_threads e (if n : bool then M_print else M_sleep) r n)
  | main_relocks e r n : engine_holds (mk_threads e M_woken r n) = false ->
      program_step (mk_threads e M_woken r n) (mk_threads e M_wait r n)
  | main_prints e r n : program_step (mk_threads e M_print r n) (mk_threads e M_check r false)
  | main_joins r n : program_step (mk_threads E_done M_join r n) (mk_threads E_done M_done r n).

(** [src/session.cpp:65-65] session::start
    [wait] may also return though nobody has notified, so that its predicate is asked again. *)
Inductive thread_step : threads -> threads -> Prop :=
  | program_steps s s' : program_step s s' -> thread_step s s'
  | spurious_wake e r n : thread_step (mk_threads e M_sleep r n) (mk_threads e M_woken r n).

(** [src/session.cpp:53-59] session::start *)
Definition threads_init : threads := mk_threads E_check M_lock true false.

Definition finished (s : threads) : Prop := engine_at s = E_done /\ main_at s = M_done.

#[global] Instance engine_pc_eq_dec : EqDecision engine_pc.
Proof. solve_decision. Defined.
#[global] Instance main_pc_eq_dec : EqDecision main_pc.
Proof. solve_decision. Defined.

Definition is_engine (p : engine_pc) (s : threads) : bool := bool_decide (engine_at s = p).
Definition is_main (p : main_pc) (s : threads) : bool := bool_decide (main_at s = p).

(** What holds in every reachable state: the mutex has one holder; the engine ends only
    when [running_] is cleared and then does not ask for the mutex again; the main
    thread sleeps only while a notification is still to come. *)
Definition threads_ok (s : threads) : bool :=
  negb (engine_holds s && main_holds s) &&
  (is_running s || negb (is_engine E_lock s || is_engine E_turn s)) &&
  (negb (is_engine E_done s) || negb (is_running s)) &&
  (negb (is_main M_sleep s) || is_running s || is_engine E_notify s) &&
  (negb (is_main M_woken s) || is_running s || is_notified s) &&
  (negb (is_main M_wait s) || is_running s || is_notified s) &&
  (negb (is_main M_join s) || negb (is_running s)) &&
  (negb (is_main M_done s) || is_engine E_done s) &&
  (negb (is_engine E_notify s) || is_running s || is_notified s).

Lemma threads_ok_init : threads_ok threads_init = true.
Proof. done. Qed.

Lemma threads_ok_step s s' : thread_step s s' -> threads_ok s = true -> threads_ok s' = true.
Proof.
  intros [s0 s1 Hs|e r n]; [destruct Hs as [m r n|m r n Hm|m r n|m r n|m r n|e r n He|e r n|e r n|e r n He|e r n|r n]|];
    try destruct m; try destruct e; destruct r; destruct n; try discriminate; vm_compute; done.
Qed.

Lemma threads_ok_reachable s : rtc thread_step threads_init s -> threads_ok s = true.
Proof.
  intros H. pose proof threads_ok_init as H0.
  induction H as [s0|s0 s1 s2 Hs _ IH]; [done|]. apply IH. by eapply threads_ok_step.
Qed.

(** An upper bound on the steps left once [running_] is cleared. *)
Definition engine_rank (e : engine_pc) : nat :=
  match e with E_lock | E_turn => 3 | E_notify => 2 | E_check => 1 | E_done => 0 end.
Definition main_rank (m : main_pc) : nat :=
  match m with M_sleep => 6 | M_woken => 5 | M_wait => 4 | M_print | M_lock => 3 | M_check => 2 | M_join => 1 | M_done => 0 end.
Definition rank (s : threads) : nat := engine_rank (engine_at s) + main_rank (main_at s).

Lemma rank_decreases s s' : thread_step s s' -> threads_ok s = true -> is_running s = false ->
  (rank s' < rank s)%nat /\ is_running s' = false.
Proof.
  intros [s0 s1 Hs|e r n]; [destruct Hs as [m r n|m r n Hm|m r n|m r n|m r n|e r n He|e r n|e r n|e r n He|e r n|r n]|];
    intros Hok Hr; simpl in Hr; subst; try destruct m; try destruct e; try destruct n;
    try discriminate; unfold rank; simpl; split; done || lia.
Qed.

Lemma step_exists s : threads_ok s = true -> ~ finished s -> exists s', program_step s s'.
Proof.
  destruct s as [e m r n]. intros Hok Hf. destruct e.
  - eexists; constructor.
  - destruct (main_holds (mk_threads E_lock m r n)) eqn:Hm; [|eexists; by constructor].
    destruct m; try discriminate; try (eexists; by constructor). by destruct r.
  - eexists; constructor.
  - eexists; constructor.
  - destruct m; try (eexists; by constructor); [by destruct r, n|]. exfalso. by apply Hf.
Qed.

(** C27: The session never hangs: in every state it can reach, whether or not the main thread has
    been woken for no reason on the way, either both threads have finished or one of them can
    go on by itself, without being woken for no reason: no notification is lost. *)
Theorem no_deadlock s : rtc thread_step threads_init s -> finished s \/ exists s', program_step s s'.
Proof.
  intros Hok%threads_ok_reachable. destruct s as [e m r n].
  destruct (decide (e = E_done /\ m = M_done)) as [[-> ->]|Hf]; [by left|right].
  by apply step_exists.
Qed.

(** The engine's turn and everything the main thread does with the flags exclude each
    other. *)
Theorem mutual_exclusion s : rtc thread_step threads_init s -> engine_holds s = true -> main_holds s = false.
Proof.
  intros Hok%threads_ok_reachable He. destruct s as [e m r n].
  destruct e; try discriminate; destruct m; try done; destruct r, n; vm_compute in Hok; done.
Qed.

Lemma finishes_within k : forall s, threads_ok s = true -> is_running s = false -> (rank s <= k)%nat ->
  exists s', rtc program_step s s' /\ finished s'.
Proof.
  induction k as [|k IH]; intros s Hok Hr Hk;
    (destruct (decide (engine_at s = E_done /\ main_at s = M_done)) as [Hf|Hf]; [by exists s; split; [apply rtc_refl|]|]);
    destruct (step_exists s Hok Hf) as [s1 Hs]; destruct (rank_decreases s s1 (program_steps _ _ Hs) Hok Hr) as [Hlt Hr1]; [lia|].
  destruct (IH s1) as (s' & Hrtc & Hf'); [by eapply threads_ok_step, Hok; constructor|done|lia|].
  exists s'. split; [by eapply rtc_l|done].
Qed.

(** C28: Once [running_] is cleared the session ends: no run goes on for more than nine steps,
    whether or not the main thread is woken for no reason, and from every state it reaches the
    program's own steps lead on to the end of both threads. *)
Theorem shutdown_finishes s : rtc thread_step threads_init s -> is_running s = false ->
  (forall k s', nsteps thread_step k s s' -> (k <= 9)%nat /\ exists s2, rtc program_step s' s2 /\ finished s2).
Proof.
  intros Hok%threads_ok_reachable Hr.
  assert (forall k s s', nsteps thread_step k s s' -> threads_ok s = true -> is_running s = false ->
    (k <= rank s)%nat /\ threads_ok s' = true /\ is_running s' = false) as Hn.
  { induction 1 as [|k s0 s1 s2 Hs _ IH]; intros Hok0 Hr0; [split_and!; done || lia|].
    destruct (rank_decreases s0 s1 Hs Hok0 Hr0) as [Hlt Hr1].
    destruct (IH ltac:(by eapply threads_ok_step) Hr1) as (IH1 & IH2 & IH3). split_and!; done || lia. }
  intros k s' Hk. destruct (Hn k s s' Hk Hok Hr) as (Hle & Hok' & Hr'). split; [|by eapply finishes_within]. destruct s as [e m r n]. unfold rank in *.
  destruct e, m; simpl in *; try lia.
Qed.

(** ** Witnesses *)

(** The engine is in its turn. *)
Definition in_turn : threads := mk_threads E_turn M_lock true false.

Lemma in_turn_reachable : rtc thread_step threads_init in_turn.
Proof.
  eapply rtc_l; [apply program_steps, (engine_checks M_lock true false)|].
  eapply rtc_l; [by apply program_steps, engine_locks|]. apply rtc_refl.
Qed.

(** The engine has cleared [running_]. *)
Definition stopping : threads := mk_threads E_notify M_lock false true.

Lemma stopping_reachable : rtc thread_step threads_init stopping.
Proof. eapply rtc_r; [exact in_turn_reachable|apply program_steps, engine_stops]. Qed.

Lemma no_deadlock_witness : finished in_turn \/ exists s', program_step in_turn s'.
Proof. apply (no_deadlock in_turn). exact in_turn_reachable. Defined.

Lemma mutual_exclusion_witness : main_holds in_turn = false.
Proof. apply (mutual_exclusion in_turn); [exact in_turn_reachable|done]. Defined.

Lemma shutdown_finishes_witness : is_running stopping = false /\
  forall k s', nsteps thread_step k stopping s' -> (k <= 9)%nat /\ exists s2, rtc program_step s' s2 /\ finished s2.
Proof. split; [done|]. apply (shutdown_finishes stopping); [exact stopping_reachable|done]. Defined.
