(* ===== verification/SessionLife.v ===== *)
(** * The session while it runs

    Whatever the operating system and the peers do, a turn of the engine changes the
    piece handler by calls of its operations only, never starts the session again, and
    stops it only when the pieces are written or [epoll_wait] fails.  That carries the
    properties of the piece handler over to every state of the running client, and it
    is what the steps of Threads.v assume of a turn. *)

From S2P Require Import Prelude ByteBuffer Messages MsgFactory Float32 SessionSm Sockets Net Timer NetReactor Storage Files PieceHandler.
From S2P Require Import Agent Samples PieceRequests PieceWrites Download Session Threads.

(** ** Callbacks that respect a preorder *)
Section Callbacks.
Context {W : Type} (R : W -> W -> Prop) `{!PreOrder R}.

Lemma tock_loop_respects {TW : TimerWorld W} on_timeout ms n : (forall t w, R w (tw_set t w)) ->
  (forall c w w', on_timeout c w = Ok w' -> R w w') ->
  forall i w w', tock_loop on_timeout ms n i w = Ok w' -> R w w'.
Proof.
  intros Hset Hcall. induction n as [|n IH]; intros i w w'; cbn [tock_loop]; [by intros [= <-]|].
  destruct (cells_ _ !! i) as [c|]; [|done]. intros (w1 & H1 & H2%IH)%result_bind_ok. etrans; [|exact H2].
  etrans; [apply Hset|]. destruct (f32_le _ _); [|by injection H1 as <-].
  apply result_bind_ok in H1 as (w2 & H1%Hcall & [= <-]). etrans; [exact H1|apply Hset].
Qed.

Lemma dispatch_all_respects {O : OS} {RW : ReactorWorld W} {RC : inet_reactor_client W} :
  (forall c w w', irc_read c w = Ok w' -> R w w') -> (forall c w w', irc_write c w = Ok w' -> R w w') ->
  forall evs w w', dispatch_all evs w = Ok w' -> R w w'.
Proof.
  intros Hread Hwrite. induction evs as [|[fd ev] evs IH]; intros w w'; cbn [dispatch_all]; [by intros [= <-]|].
  intros (w1 & H1 & H2%IH)%result_bind_ok. etrans; [|exact H2]. revert H1. unfold dispatch.
  destruct (clients_ _ !! fd) as [it|]; [|by intros [= <-]]. intros (w2 & H3 & H4)%result_bind_ok.
  assert (R w w2) as Hr by (destruct (has_event ev EPOLLIN); [by eapply Hread|by injection H3 as <-]). etrans; [exact Hr|].
  destruct (has_event ev EPOLLOUT); [|by injection H4 as <-]. destruct (clients_ _ !! fd); [by eapply Hwrite|done].
Qed.
End Callbacks.

(** ** The count of written pieces *)
Section Written.
Context {BB : ByteBuffer} {FS : FileSystem} {SHA : Sha1} {SO : SetOrder}.
Variable ti : torrent_info.
Implicit Types ph : piece_handler.

Lemma write_slices_written key slices : forall ph ph', write_slices ti key slices ph = Ok ph' ->
  written_pieces_ ph' = written_pieces_ ph.
Proof.
  induction slices as [|s slices IH]; intros ph ph'; cbn [write_slices]; [by intros [= <-]|].
  intros (ph1 & H1 & H2%IH)%result_bind_ok. rewrite H2. revert H1. unfold write_slice.
  destruct (ti_files ti !! _); [|done]. destruct (file_handlers_ ph !! _); [|by intros [= <-]].
  destruct (file_handler_write _ _ _ _ _) as [[h d] dk]. by intros [= <-].
Qed.

Lemma write_blocks_written index inds : forall ph ph', write_blocks ti index inds ph = Ok ph' ->
  written_pieces_ ph' = written_pieces_ ph.
Proof.
  induction inds as [|k inds IH]; intros ph ph'; cbn [write_blocks]; [by intros [= <-]|].
  intros (sl & _ & (ph1 & H1 & H2%IH)%result_bind_ok)%result_bind_ok. apply write_slices_written in H1. by rewrite H2.
Qed.

Lemma write_if_valid_written index ph b ph' : write_if_valid ti index ph = Ok (b, ph') ->
  written_pieces_ ph <= written_pieces_ ph'.
Proof.
  unfold write_if_valid.
  pose proof (collect_blocks_spec index (block_inds (blocks_per_piece (piece_size ti (i32 index)))) [] ph) as Hc.
  destruct (collect_blocks _ _ _ _) as [[hashed|] ph1]; destruct Hc as [He _]; apply written_proper in He;
    [|intros [= <- <-]; lia].
  case_bool_decide; [|intros [= <- <-]; lia].
  intros (ph2 & H2%write_blocks_written & [= <- <-])%result_bind_ok. cbn [written_pieces_ set_written]. lia.
Qed.

Lemma received_written piece ph ph' stop : received ti piece ph = Ok (ph', stop) ->
  written_pieces_ ph <= written_pieces_ ph' /\ (stop = true -> ti_num_pieces ti <= written_pieces_ ph').
Proof.
  unfold received. destruct (bb_read_32 piece) as [i p1], (bb_read_32 p1) as [b p2].
  destruct (received_at _ _); [by intros [= <- <-]|].
  intros ([ok ph1] & H1%write_if_valid_written & [= <- <-])%result_bind_ok. split; [exact H1|].
  cbn [fst snd]. intros [_ H]%andb_true_iff. unfold is_done in H. lia.
Qed.

Lemma step_written ph ph' : ph_step ti ph ph' -> written_pieces_ ph <= written_pieces_ ph'.
Proof.
  intros [peer i p|peer bf p p' H|peer p r p' H|piece p p' stop H].
  - destruct (have_same_disk ti peer i p) as (_ & _ & E & _). lia.
  - destruct (bitfield_same_disk ti _ _ _ _ _ _ H) as (_ & _ & E & _). lia.
  - destruct (request_same_disk ti _ _ _ _ H) as (_ & _ & E & _). lia.
  - by apply received_written in H as [H _].
Qed.

Lemma steps_written ph ph' : rtc (ph_step ti) ph ph' -> written_pieces_ ph <= written_pieces_ ph'.
Proof. induction 1 as [|a b c H%step_written _ IH]; lia. Qed.
End Written.

(** ** What a call of the engine may do *)
Section Evolution.
Context {BB : ByteBuffer} {PE : PastEnd} {Os : OS} {FS : FileSystem} {SHA : Sha1} {SO : SetOrder}.
Variable ti : torrent_info.
Variable local_peer_id : bytes.
Implicit Types w : world.

(** From one state to a later one: operations of the piece handler only; a notification
    is not taken back; the session is stopped, with a notification, only if the pieces
    are written. *)
Record evolves w w' : Prop := {
  ev_ph : rtc (ph_step ti) (piece_handler_ w) (piece_handler_ w');
  ev_notified : notified_ w = true -> notified_ w' = true;
  ev_running : running_ w' = running_ w \/
    (running_ w' = false /\ notified_ w' = true /\ ti_num_pieces ti <= written_pieces_ (piece_handler_ w'));
}.

#[local] Instance evolves_preorder : PreOrder evolves.
Proof.
  split; [intros w; split; [done|done|by left]|]. intros a b c [A1 A2 A3] [B1 B2 B3].
  split; [by etrans|by auto|]. pose proof (steps_written ti _ _ B1).
  destruct B3 as [->|B3]; [|by right]. destruct A3 as [->|(E1 & E2 & E3)]; [by left|right; split_and!; [done|auto|lia]].
Qed.

(** The piece handler and the flags are the same. *)
Definition frame w w' : Prop :=
  piece_handler_ w' = piece_handler_ w /\ running_ w' = running_ w /\ notified_ w' = notified_ w.

Lemma frame_evolves w w' : frame w w' -> evolves w w'.
Proof. intros (E1 & E2 & E3). split; [by rewrite E1|by rewrite E3|by left]. Qed.

Lemma frame_reg c ev w : frame w (reg c ev w).
Proof.
  unfold reg, net_reactor_reg, ctl_add, ctl_mod. cbn. destruct (clients_ _ !! _).
  - destruct (sys_epoll_mod _ _ _). done.
  - destruct (sys_epoll_add _ _ _) as [res s]. by destruct (res =? -1).
Qed.

Lemma frame_unreg c ev w : frame w (unreg c ev w).
Proof.
  unfold unreg, net_reactor_unreg, ctl_mod. cbn. destruct (ev =? 0); [done|].
  destruct (clients_ _ !! _); [|done]. by destruct (sys_epoll_mod _ _ _).
Qed.

Lemma frame_disconnected c w : frame w (agent_disconnected c w).
Proof.
  unfold agent_disconnected. destruct (frame_unreg c 0 w) as (E1 & E2 & E3).
  destruct (tcp_socket_close _ _) as [fd s]. done.
Qed.

Lemma evolves_reg c ev w w' : evolves w w' -> evolves w (reg c ev w').
Proof. intros H. etrans; [exact H|apply frame_evolves, frame_reg]. Qed.

Lemma evolves_unreg c ev w w' : evolves w w' -> evolves w (unreg c ev w').
Proof. intros H. etrans; [exact H|apply frame_evolves, frame_unreg]. Qed.

Lemma evolves_disconnected c w w' : evolves w w' -> evolves w (agent_disconnected c w').
Proof. intros H. etrans; [exact H|apply frame_evolves, frame_disconnected]. Qed.

Lemma evolves_upd c f w w' : evolves w w' -> evolves w (upd c f w').
Proof. intros H. etrans; [exact H|by apply frame_evolves]. Qed.

Lemma evolves_os s w w' : evolves w w' -> evolves w (set_os s w').
Proof. intros H. etrans; [exact H|by apply frame_evolves]. Qed.

Lemma evolves_timer t w w' : evolves w w' -> evolves w (set_timer t w').
Proof. intros H. etrans; [exact H|by apply frame_evolves]. Qed.

Lemma evolves_step ph w w' : evolves w w' -> ph_step ti (piece_handler_ w') ph -> evolves w (set_piece_handler ph w').
Proof. intros H Hs. etrans; [exact H|]. split; [by apply rtc_once|done|by left]. Qed.

Lemma evolves_stop w w' : evolves w w' -> ti_num_pieces ti <= written_pieces_ (piece_handler_ w') -> evolves w (session_stop w').
Proof. intros H Hn. etrans; [exact H|]. split; [done|done|by right]. Qed.

Create HintDb evolve.
#[local] Hint Resolve evolves_reg evolves_unreg evolves_disconnected evolves_upd evolves_os evolves_timer : evolve.
#[local] Hint Extern 0 (evolves _ _) => reflexivity : evolve.

(** *** The agent's calls *)

Lemma request_loop_evolves c n : forall k w, evolves w (request_loop ti n c k w).2.
Proof.
  induction n as [|n IH]; intros k w; cbn [request_loop]; [done|].
  destruct (get_piece_request _ _ _) as [[ok r] ph] eqn:E.
  assert (evolves w (set_piece_handler ph w)) as H by (eapply evolves_step, step_request, E; done).
  destruct ok; cbn [negb]; [|exact H]. etrans; [|apply IH]. unfold push_msg. by apply evolves_upd.
Qed.

Lemma request_pieces_evolves c w : evolves w (request_pieces ti c w).
Proof.
  unfold request_pieces. destruct (negb _); [|done]. pose proof (request_loop_evolves c MAX_BURST 0 w) as H.
  destruct (request_loop _ _ _ _ _) as [n w']. destruct (0 <? n)%nat; auto with evolve.
Qed.

Lemma on_event_inner c ev w w' : ev <> EV_START ->
  session_sm_on_event (inner_client ti local_peer_id c) ev w = Ok w' -> evolves w w'.
Proof.
  intros Hne. destruct ev; cbn; [done|..]; intros [= <-];
    unfold agent_handshake, agent_interested, agent_choked, push_msg; auto 8 with evolve.
  unfold agent_unchoked. etrans; [|apply request_pieces_evolves]. auto with evolve.
Qed.

Lemma on_event_evolves c ev w w' : on_event ti local_peer_id c ev w = Ok w' -> evolves w w'.
Proof.
  destruct ev as [| | | | |]; try (intros H; match type of H with on_event _ _ _ ?e _ = _ => by apply (on_event_inner c e) end).
  unfold on_event, session_sm_on_event, ism_connect, agent_client, agent_connect. cbn [sm_set].
  destruct (tcp_socket_connect _ _ _) as [ok s]. destruct ok; [|intros [= <-]; auto 8 with evolve].
  intros H%on_event_inner; [|done]. etrans; [|exact H]. auto 8 with evolve.
Qed.

Lemma handle_msg_evolves c m w w' : handle_msg ti local_peer_id c m w = Ok w' -> evolves w w'.
Proof.
  unfold handle_msg, handle_piece. destruct (id_ m); try (by intros [= <-]); try apply on_event_evolves.
  - intros (ph & H & [= <-])%result_bind_ok. eapply evolves_step, step_bitfield, H. done.
  - intros ([ph stop] & H & [= <-])%result_bind_ok. etrans; [|apply request_pieces_evolves].
    assert (evolves w (set_piece_handler ph w)) as He by (eapply evolves_step, step_received, H; done).
    destruct stop; [|exact He]. apply evolves_stop; [exact He|]. apply received_written in H as [_ H]. by apply H.
Qed.

Lemma on_message_evolves c slice w w' : on_message ti local_peer_id c slice w = Ok w' -> evolves w w'.
Proof.
  unfold on_message. destruct (negb _); [|apply handle_msg_evolves].
  destruct (set_peer_id_and_validate_handshake _ _) as [valid info]. destruct valid; [|intros [= <-]; auto with evolve].
  intros H%on_event_evolves. etrans; [|exact H]. auto with evolve.
Qed.

Lemma on_read_loop_evolves c fuel : forall w w', on_read_loop ti local_peer_id fuel c w = Ok w' -> evolves w w'.
Proof.
  induction fuel as [|fuel IH]; intros w w'; cbn [on_read_loop]; destruct (_ && _); try done; try (by intros [= <-]).
  destruct (chop _ _) as [slice rest]. intros (w1 & H1%on_message_evolves & H2%IH)%result_bind_ok.
  etrans; [|exact H2]. etrans; [|exact H1]. auto with evolve.
Qed.

Lemma agent_read_evolves c w w' : agent_read ti local_peer_id c w = Ok w' -> evolves w w'.
Proof.
  unfold agent_read. destruct (tcp_socket_read _ _ _) as [[res io] s]. intros (w1 & H1 & H2)%result_bind_ok.
  assert (evolves w w1) as He.
  { destruct (res =? 0); [apply on_event_evolves in H1|injection H1 as <-; auto with evolve]. etrans; [|exact H1]. auto with evolve. }
  etrans; [exact He|]. destruct (0 <? _); [|by injection H2 as <-].
  apply on_read_loop_evolves in H2. etrans; [|exact H2]. auto with evolve.
Qed.

Lemma write_queue_evolves c queue : forall w w', write_queue c queue w = Ok w' -> evolves w w'.
Proof.
  induction queue as [|m queue IH]; intros w w'; cbn [write_queue]; [intros [= <-]; auto with evolve|].
  intros ([[success b] s] & _ & H)%result_bind_ok.
  assert (evolves w (set_os s (upd c (set_send_queue queue) w))) as He by auto with evolve.
  destruct success; [apply IH in H; by etrans|by injection H as <-].
Qed.

Lemma agent_write_evolves c w w' : agent_write ti local_peer_id c w = Ok w' -> evolves w w'.
Proof.
  unfold agent_write. destruct (negb _); [|apply write_queue_evolves].
  destruct (tcp_socket_getsockopt _ _) as [[e|] s]; [|intros [= <-]; auto with evolve].
  destruct (e =? 0); [|intros [= <-]; auto with evolve].
  intros H%on_event_evolves. etrans; [|exact H]. auto with evolve.
Qed.

Lemma agent_on_timeout_evolves c w w' : agent_on_timeout ti local_peer_id c w = Ok w' -> evolves w w'.
Proof.
  unfold agent_on_timeout, agent_start. intros ([fd s] & _ & H%on_event_evolves)%result_bind_ok.
  etrans; [|exact H]. auto 12 with evolve.
Qed.

Lemma agent_create_evolves c info w w' : torrent_agent_create ti local_peer_id c info w = Ok w' -> evolves w w'.
Proof.
  unfold torrent_agent_create, agent_start. intros ([fd s] & _ & H%on_event_evolves)%result_bind_ok.
  etrans; [|exact H]. auto 12 with evolve.
Qed.

Lemma create_agents_evolves peers : forall c w w', create_agents ti local_peer_id c peers w = Ok w' -> evolves w w'.
Proof.
  induction peers as [|p peers IH]; intros c w w'; cbn [create_agents]; [by intros [= <-]|].
  intros (w1 & H1%agent_create_evolves & H2%IH)%result_bind_ok. by etrans.
Qed.

(** *** The engine *)

Lemma dispatch_evolves evs w w' :
  dispatch_all (RC := agent_reactor_client ti local_peer_id) evs w = Ok w' -> evolves w w'.
Proof. apply (dispatch_all_respects evolves); [apply agent_read_evolves|apply agent_write_evolves]. Qed.

Lemma tock_evolves now w w' : timer_tock (agent_on_timeout ti local_peer_id) now w = Ok w' -> evolves w w'.
Proof.
  unfold timer_tock. apply (tock_loop_respects evolves); [|apply agent_on_timeout_evolves].
  intros t x. by apply frame_evolves.
Qed.

(** The states in which a turn may leave the session: with a notification, and stopped
    for one of two reasons if it was not before. *)
Record turned w w' : Prop := {
  tu_ph : rtc (ph_step ti) (piece_handler_ w) (piece_handler_ w');
  tu_notified : notified_ w' = true;
  tu_running : running_ w' = running_ w \/
    (running_ w' = false /\ (ti_num_pieces ti <= written_pieces_ (piece_handler_ w') \/ exists n ms s, (sys_epoll_wait n ms s).1 = None));
}.

Lemma engine_turn_turned w w' : engine_turn ti local_peer_id w = Ok w' -> turned w w'.
Proof.
  unfold engine_turn. destruct (sys_now (os_ w)) as [now s]. set (w1 := set_os s _).
  assert (evolves w w1) as H1 by (unfold w1; auto with evolve).
  unfold net_reactor_poll. intros ([res w2] & Hp & H)%result_bind_ok.
  destruct (sys_epoll_wait _ _ _) as [evs s2] eqn:E. cbn [fst snd] in H.
  assert (evolves w1 w2 /\ (res < 0 -> evs = None)) as [H2 Hres].
  { destruct evs as [evs|]; [|injection Hp as <- <-; split; [|done]; by apply frame_evolves].
    apply result_bind_ok in Hp as (w3 & H3%dispatch_evolves & [= <- <-]). split; [|lia]. etrans; [|exact H3]. by apply frame_evolves. }
  destruct (sys_now _) as [now2 s3]. apply result_bind_ok in H as (w4 & H4%tock_evolves & [= <-]).
  assert (forall x, evolves w x -> evolves (set_os s3 x) w4 -> turned w (set_notified true w4)) as Hgo.
  { intros x Hx [B1 _ B3]. destruct Hx as [A1 _ A3]. pose proof (steps_written ti _ _ B1) as Hle. cbn in B1, B3, Hle. split; cbn; [by etrans|done|].
    destruct B3 as [->|(E1 & _ & E3)]; [|right; by auto]. destruct A3 as [->|(E1 & _ & E3)]; [by left|right; split; [done|left; lia]]. }
  assert (evolves w w2) as H12 by (by etrans). destruct (Z.ltb_spec res 0) as [Hneg|_]; [|by apply (Hgo w2)].
  destruct H4 as [B1 _ B3]. destruct H12 as [A1 _ _]. split; cbn in *; [by etrans|done|]. right.
  split; [by destruct B3 as [->|(-> & _)]|]. right. exists MAX_EVENTS, (wait_ms_ (reactor_ w)), s.
  rewrite E. by apply Hres.
Qed.

Lemma engine_steps n : forall w w', engine ti local_peer_id n w = Ok w' -> rtc (ph_step ti) (piece_handler_ w) (piece_handler_ w') /\
  ((forall m ms s, (sys_epoll_wait m ms s).1 <> None) ->
   running_ w' = running_ w \/ (running_ w' = false /\ ti_num_pieces ti <= written_pieces_ (piece_handler_ w'))).
Proof.
  induction n as [|n IH]; intros w w'; cbn [engine]; [intros [= <-]; split; [done|by left]|].
  destruct (running_ w) eqn:Er; [|intros [= <-]; split; [done|by left]].
  intros (w1 & [T1 _ T3]%engine_turn_turned & [H1 H2]%IH)%result_bind_ok. split; [by etrans|]. intros Hp.
  pose proof (steps_written ti _ _ H1) as Hle. rewrite <- Er.
  destruct (H2 Hp) as [->|H]; [|by right].
  destruct T3 as [->|(E1 & [E2|(m & ms & s & E2)])]; [by left|right; split; [done|lia]|by apply Hp in E2].
Qed.
End Evolution.

(** ** Properties *)
Section Client.
Context {BB : ByteBuffer} {BL : ByteBufferLaws BB} {PE : PastEnd} {Os : OS} {FS : FileSystem} {SHA : Sha1} {SO : SetOrder}.
Variable ti : torrent_info.
Variable local_peer_id : bytes.

Lemma download_steps P ph ph' : download_reachable ti P ph -> rtc (download_step ti P) ph ph' -> download_reachable ti P ph'.
Proof. intros Hr. induction 1 as [|a b c H _ IH]; [done|]. apply IH. by eapply dl_next. Qed.

Lemma reachable_steps ph ph' : ph_reachable ti ph -> rtc (ph_step ti) ph ph' -> ph_reachable ti ph'.
Proof. intros Hr. induction 1 as [|a b c H _ IH]; [done|]. apply IH. by eapply reach_step. Qed.

Lemma session_create_handler reactor dk s w0 : session_create ti reactor dk s = Ok w0 ->
  exists mkdirs, piece_handler_create ti dk = Ok (mkdirs, piece_handler_ w0).
Proof. intros ([mk ph] & H & [= <-])%result_bind_ok. by exists mk. Qed.

Lemma client_runs dk mkdirs peers turns w0 w1 w2 :
  piece_handler_create ti dk = Ok (mkdirs, piece_handler_ w0) -> session_start ti local_peer_id (Some peers) w0 = Ok w1 ->
  engine ti local_peer_id turns w1 = Ok w2 ->
  ph_reachable ti (piece_handler_ w2) /\ rtc (ph_step ti) (piece_handler_ w0) (piece_handler_ w2) /\
  ((forall m ms s, (sys_epoll_wait m ms s).1 <> None) -> running_ w2 = false ->
   ti_num_pieces ti <= written_pieces_ (piece_handler_ w2)).
Proof.
  intros Hc (w & [H1 _ _]%create_agents_evolves & [= <-])%result_bind_ok [H2 Hr]%engine_steps.
  cbn in H1, H2, Hr. assert (rtc (ph_step ti) (piece_handler_ w0) (piece_handler_ w2)) as H by (by etrans).
  split; [|split; [done|]].
  - eapply reachable_steps; [by eapply reach_init|done].
  - intros Hp Hw2. destruct (Hr Hp) as [E|[_ E]]; [congruence|done].
Qed.

(** The invariant of a download in which the deliveries satisfy [P], at its end. *)
Lemma client_stopped P dk mkdirs peers turns w0 w1 w2 :
  torrent_ok ti -> distinct_files (ti_files ti) -> ti_piece_length ti mod BLOCK_LEN = 0 -> ti_total_size ti < 2 ^ 48 ->
  (forall f, f ∈ ti_files ti -> fs_can_open (fe_path f) = true) ->
  (forall index k d, P index k d -> Z.of_nat (length d) = block_size ti index k) ->
  (forall m ms s, (sys_epoll_wait m ms s).1 <> None) ->
  piece_handler_create ti dk = Ok (mkdirs, piece_handler_ w0) -> session_start ti local_peer_id (Some peers) w0 = Ok w1 ->
  engine ti local_peer_id turns w1 = Ok w2 -> running_ w2 = false ->
  rtc (download_step ti P) (piece_handler_ w0) (piece_handler_ w2) ->
  exists S, download_inv ti P S (piece_handler_ w2) /\ ti_num_pieces ti <= Z.of_nat (size S).
Proof.
  intros Hok Hd Hb Hfit Hf HP Hp Hc Hs He Hr Hsteps. destruct (client_runs _ _ _ _ _ _ _ Hc Hs He) as (_ & _ & Hn).
  assert (download_reachable ti P (piece_handler_ w2)) as Hreach
    by (eapply (download_steps _ (piece_handler_ w0)); [by eapply dl_init|done]).
  destruct (download_reachable_inv ti Hok Hd Hb Hfit P HP Hf _ Hreach) as [S Hinv].
  exists S. split; [done|]. rewrite <- (di_written _ _ _ _ Hinv). by apply Hn.
Qed.

(** C16: From the construction of the session to the last turn of the engine its piece handler
    only ever makes the steps of its operations, so it stays in a reachable state, whatever
    the operating system and the peers do; and the session is stopped only when the count of
    the pieces written has reached the number of pieces of the torrent, unless [epoll_wait]
    fails.  (The count alone: which pieces were written is the matter of [client_stops_sound].) *)
Theorem client_invariant reactor dk s peers turns w0 w1 w2 :
  session_create ti reactor dk s = Ok w0 -> session_start ti local_peer_id (Some peers) w0 = Ok w1 ->
  engine ti local_peer_id turns w1 = Ok w2 ->
  ph_reachable ti (piece_handler_ w2) /\ rtc (ph_step ti) (piece_handler_ w0) (piece_handler_ w2) /\
  ((forall m ms s, (sys_epoll_wait m ms s).1 <> None) -> running_ w2 = false ->
   ti_num_pieces ti <= written_pieces_ (piece_handler_ w2)).
Proof. intros [mk Hc]%session_create_handler. by eapply client_runs. Qed.

(** C4: What a client that has stopped leaves on disk, for a torrent with distinct file names, a
    piece length that is a multiple of 16384 and fewer than 2^48 bytes, whose files can be
    opened: if [epoll_wait] does not fail, and every block that reached the piece handler was a
    block of an existing piece with the right length, then every piece of the files has the hash
    the torrent gives it. *)
Theorem client_stops_sound reactor dk s peers turns w0 w1 w2 :
  torrent_ok ti -> distinct_files (ti_files ti) -> ti_piece_length ti mod BLOCK_LEN = 0 -> ti_total_size ti < 2 ^ 48 ->
  (forall f, f ∈ ti_files ti -> fs_can_open (fe_path f) = true) ->
  (forall m ms s, (sys_epoll_wait m ms s).1 <> None) ->
  session_create ti reactor dk s = Ok w0 -> session_start ti local_peer_id (Some peers) w0 = Ok w1 ->
  engine ti local_peer_id turns w1 = Ok w2 -> running_ w2 = false ->
  rtc (download_step ti (sized ti)) (piece_handler_ w0) (piece_handler_ w2) ->
  forall i, piece_index_ok ti i -> sha1 (piece_slice ti (disk_content ti (piece_handler_ w2)) i) = ti_hash_for_piece ti i.
Proof.
  intros Hok Hd Hb Hfit Hf Hp [mk Hc]%session_create_handler Hs He Hr Hsteps i Hi.
  destruct (client_stopped (sized ti) dk mk peers turns w0 w1 w2) as (S & Hinv & Hn); try done.
  apply (di_done _ _ _ _ Hinv), (all_done ti Hok Hd Hb Hfit Hf (sized ti) S _ Hinv); done.
Qed.

(** C17: A turn of the engine is the step of the threads that Threads.v takes it for, followed
    by the notification: it may clear [running_], never set it, and leaves [notified_] set. *)
Theorem engine_turn_refines m n w w' : engine_turn ti local_peer_id w = Ok w' ->
  exists t, program_step (mk_threads E_turn m (running_ w) n) t /\ engine_at t = E_notify /\
    program_step t (mk_threads E_check (wake m) (running_ w') (notified_ w')).
Proof.
  intros [_ Hn Hr]%engine_turn_turned. rewrite Hn.
  destruct Hr as [->|[-> _]]; eexists; (split; [constructor|split; [done|constructor]]).
Qed.
End Client.

(** ** A peer that sends the whole torrent at once *)
Section Witnesses.
Import ListBuffer Sample.

#[local] Instance nothing_past_end : PastEnd := fun _ _ => 0.

(** The system [o] with these events ready at any time. *)
Definition with_events (evs : list (Z * Z)) (o : OS) : OS := {|
  os := @os o; sys_socket := @sys_socket o; sys_close := @sys_close o; sys_set_nonblock := @sys_set_nonblock o;
  sys_bind := @sys_bind o; sys_connect := @sys_connect o; sys_so_error := @sys_so_error o; sys_read := @sys_read o;
  sys_write := @sys_write o; sys_epoll_add := @sys_epoll_add o; sys_epoll_mod := @sys_epoll_mod o;
  sys_epoll_del := @sys_epoll_del o; sys_epoll_wait _ _ s := (Some evs, s); sys_now := @sys_now o;
|}.

(** A handshake and the one block of the torrent. *)
Definition whole_torrent : bytes :=
  bb_readable (msg_factory_new_handshake (replicate 20 66) (to_hex (ti_info_hash torrent))) ++
  be 4 14 ++ 7 :: bb_readable (delivery the_data).

#[local] Instance serving_os : OS := with_events [(3, EPOLLIN)] (scripted_os (Some whole_torrent) (Some 0) 1).

Definition local_id : bytes := replicate 20 65.

Definition nothing_sent : list bytes := [].

Definition first_world : world := mk_world ∅ (net_reactor_create 9 5000) timer_init created.2 false false nothing_sent.

Lemma first_created : session_create torrent (net_reactor_create 9 5000) ∅ nothing_sent = Ok first_world.
Proof. unfold session_create. by rewrite created_ok. Qed.

Definition the_peers : list peer_info := [mk_peer_info [] (mk_sockaddr 1 6881)].

Definition started_world : world :=
  ok_or first_world (session_start torrent local_id (Some the_peers) first_world).

Lemma started_ok : session_start torrent local_id (Some the_peers) first_world = Ok started_world.
Proof. apply is_ok_or. by vm_compute. Qed.

Definition stopped_world : world := ok_or started_world (engine torrent local_id 2 started_world).

Lemma stopped_ok : engine torrent local_id 2 started_world = Ok stopped_world.
Proof. apply is_ok_or. by vm_compute. Qed.

(** States of piece handlers over list buffers can be compared. *)
#[local] Instance buffer_eq_dec : EqDecision ListBuffer.t.
Proof. solve_decision. Defined.
#[local] Instance request_eq_dec : EqDecision request.
Proof. solve_decision. Defined.
#[local] Instance received_block_eq_dec : EqDecision received_block.
Proof. solve_decision. Defined.
#[local] Instance file_handler_eq_dec : EqDecision file_handler.
Proof. solve_decision. Defined.
#[local] Instance piece_handler_eq_dec : EqDecision piece_handler.
Proof. solve_decision. Defined.

Lemma stopped_pieces : piece_handler_ stopped_world = (after the_data).1.
Proof. apply (bool_decide_unpack _). by vm_compute. Qed.

Lemma client_invariant_witness : ph_reachable torrent (piece_handler_ stopped_world) /\
  rtc (ph_step torrent) created.2 (piece_handler_ stopped_world) /\ 1 <= written_pieces_ (piece_handler_ stopped_world).
Proof.
  destruct (client_invariant (Os := serving_os) torrent local_id (net_reactor_create 9 5000) ∅ nothing_sent the_peers 2
    first_world started_world stopped_world first_created started_ok stopped_ok) as (H1 & H2 & H3).
  split; [exact H1|]. split; [exact H2|]. apply H3; [done|by vm_compute].
Defined.

Lemma client_stops_sound_witness :
  sha1 (piece_slice torrent (disk_content torrent (piece_handler_ stopped_world)) 0) = the_data.
Proof.
  apply (client_stops_sound (Os := serving_os) torrent local_id (net_reactor_create 9 5000) ∅ nothing_sent the_peers 2 first_world started_world stopped_world
    torrent_is_ok torrent_distinct torrent_blocks eq_refl files_open).
  - done.
  - exact first_created.
  - exact started_ok.
  - exact stopped_ok.
  - by vm_compute.
  - rewrite stopped_pieces. apply rtc_once.
    apply (dl_received (BB := ListBuffer.list_buffer) torrent (sized torrent) (delivery the_data) 0 0 the_data _ _ true index_ok one_block); [by vm_compute|done|exact genuine_received].
  - exact index_ok.
Defined.

Definition turned_world : world := ok_or started_world (engine_turn torrent local_id started_world).

Lemma turned_ok : engine_turn torrent local_id started_world = Ok turned_world.
Proof. apply is_ok_or. by vm_compute. Qed.

Lemma engine_turn_refines_witness : exists t,
  program_step (mk_threads E_turn M_sleep true false) t /\ engine_at t = E_notify /\
  program_step t (mk_threads E_check M_woken false true).
Proof.
  apply (engine_turn_refines (Os := serving_os) torrent local_id M_sleep false started_world turned_world turned_ok).
Defined.
End Witnesses.
