(* ===== verification/Completion.v ===== *)
(** * An honest peer completes the download

    The liveness of the exchange between an agent and its peer: a peer that has all of the
    torrent and answers every request makes the client finish, with the content on disk.
    The agent asks in bursts and asks again for what is on its way, so the requests it has
    sent grow in number while they are answered; what decreases is the number of missing
    blocks and the place of the first missing block among the requests sent.

    The theorem needs that no request is lost: a request that is lost with its connection
    can leave the agent silent ([stale_queue_silent]). *)

From S2P Require Import Prelude ByteBuffer Messages MsgFactory SessionSm Sockets Net Timer NetReactor Storage Files.
From S2P Require Import PieceHandler PieceRequests PieceWrites Download Agent Samples SessionLife AgentLife Framing.

(** ** What is asked for *)
Section Asking.
Context {BB : ByteBuffer} {FS : FileSystem} {SHA : Sha1} {SO : SetOrder} {SOL : SetOrderLaw SO}.
Variable ti : torrent_info.
Variable peer : bytes.
Implicit Types ph : piece_handler.

(** The message is the request. *)
Definition is_request (r : request) (m : buf) : Prop := bb_readable m = bb_readable (msg_factory_new_request r).

Definition sent (sq : list buf) (r : request) : Prop := Exists (is_request r) sq.

Lemma sent_app sq sq' r : sent (sq ++ sq') r <-> sent sq r \/ sent sq' r.
Proof. apply Exists_app. Qed.

Lemma sent_new r : sent [msg_factory_new_request r] r.
Proof. by left. Qed.

(** Every missing block of the peer's pieces is in its queue or has been asked for. *)
Definition asks ph (sq : list buf) : Prop :=
  forall i r, i ∈ have_set ph peer -> r ∈ missing ti ph i -> r ∈ queue ph peer \/ sent sq r.

Lemma asks_equiv ph ph' sq : ph ≡ ph' -> asks ph sq -> asks ph' sq.
Proof. intros H Ha i r. rewrite <- H. apply Ha. Qed.

Lemma asks_have p index ph sq : asks ph sq -> asks (have ti p index ph) sq.
Proof.
  intros Ha. eapply asks_equiv; [symmetry; apply have_equiv|]. case_decide; [done|].
  intros i r. set (ph1 := set_have_set _ _ _).
  change (have_set (set_queue p (queue ph p ++ missing ti ph index) ph1) peer) with (have_set ph1 peer).
  change (missing ti (set_queue p (queue ph p ++ missing ti ph index) ph1) i) with (missing ti ph i).
  unfold ph1. rewrite have_set_set, queue_set. case_decide as Hp; [subst p|apply Ha].
  intros [->%elem_of_singleton|Hi]%elem_of_union Hr; [left; set_solver|].
  destruct (Ha i r Hi Hr); [left; set_solver|by right].
Qed.

Lemma asks_foldl p l sq : forall ph, asks ph sq -> asks (foldl (fun ph i => have ti p i ph) ph l) sq.
Proof. induction l as [|i l IH]; intros ph H; simpl; [done|]. by apply IH, asks_have. Qed.

Lemma asks_bitfield fuel p sq : forall off bf ph ph',
  have_bitfield_loop ti fuel p off bf ph = Ok ph' -> asks ph sq -> asks ph' sq.
Proof.
  induction fuel as [|fuel IH]; intros off bf ph ph'; cbn [have_bitfield_loop];
    destruct (0 <? bb_available bf); try done; try (by intros [= <-]).
  destruct (bb_read_8 bf) as [byte bf']. intros H Ha. apply IH in H; [done|].
  rewrite have_byte_fold. by apply asks_foldl.
Qed.

Lemma missing_not_received ph i r : r ∈ missing ti ph i -> received_at ph (index_ r, begin_ r) = false.
Proof. intros (k & _ & -> & H)%missing_requestable. exact H. Qed.

Lemma drop_received_keeps ph q r : received_at ph (index_ r, begin_ r) = false -> r ∈ q -> r ∈ drop_received ph q.
Proof.
  intros Hr Hq. destruct (drop_received_suffix ph q) as (l & E & Hl). rewrite E in Hq.
  apply elem_of_app in Hq as [Hq|]; [|done]. rewrite Forall_forall in Hl. rewrite (Hl r Hq) in Hr. done.
Qed.

Lemma asks_pending ph sq i r : asks ph sq -> i ∈ have_set ph peer -> r ∈ missing ti ph i ->
  r ∈ drop_received ph (pending ti ph peer) \/ sent sq r.
Proof.
  intros Ha Hi Hr. assert (r ∈ pending ti ph peer \/ sent sq r) as [H|H]; [|left|by right].
  - unfold pending. destruct (queue ph peer) as [|r0 q] eqn:E; [left|rewrite <- E; by eapply Ha].
    apply elem_of_missing_in. exists i. by rewrite elem_of_iter_order.
  - by eapply drop_received_keeps; [eapply missing_not_received|].
Qed.

(** A request that is handed out and sent keeps the invariant; one that is refused was not
    needed. *)
Lemma get_piece_request_asks ph sq ok r ph' :
  get_piece_request ti peer ph = ((ok, r), ph') -> asks ph sq ->
  (ok = true -> asks ph' (sq ++ [msg_factory_new_request r]) /\
     received_at ph (index_ r, begin_ r) = false /\ r ∈ pending ti ph peer) /\
  (ok = false -> asks ph' sq /\ forall i r, i ∈ have_set ph peer -> r ∈ missing ti ph i -> sent sq r).
Proof.
  intros H Ha. pose proof (get_piece_request_spec ti peer ph) as Hs. rewrite H in Hs.
  pose proof (fun i r => asks_pending ph sq i r Ha) as Hp.
  destruct (drop_received ph (pending ti ph peer)) as [|r0 q0] eqn:E.
  - destruct Hs as [-> He]. split; [done|]. intros _.
    assert (forall i r, i ∈ have_set ph peer -> r ∈ missing ti ph i -> sent sq r) as Hsent
      by (intros i x Hi Hx; destruct (Hp i x Hi Hx) as [Hn|]; [by apply not_elem_of_nil in Hn|done]).
    split; [|done]. eapply asks_equiv; [symmetry; exact He|]. intros i x Hi Hx. right. by eapply Hsent.
  - destruct Hs as (-> & -> & He). split; [intros _|done]. destruct (drop_received_head _ _ _ _ E) as [Hrec Hin].
    split; [|split; [done|apply Hin; by left]]. eapply asks_equiv; [symmetry; exact He|]. intros i x Hi Hx.
    rewrite queue_set_same. destruct (Hp i x Hi Hx) as [[->|]%elem_of_cons|]; rewrite sent_app; [|by left|by auto].
    right. right. apply sent_new.
Qed.

(** *** How many blocks are missing *)

Lemma missing_sublist a b i : (forall k, received_at a k = true -> received_at b k = true) ->
  missing ti b i `sublist_of` missing ti a i.
Proof.
  intros H. unfold missing. apply fmap_sublist. generalize (block_inds (blocks_per_piece (size_of ti i))).
  induction l as [|k l IH]; [done|]. rewrite !filter_cons. pose proof (H (block_key i k)) as Hk.
  case_decide as Hb; case_decide as Hd; [by constructor| |by constructor|done].
  apply not_false_is_true in Hd. by rewrite Hk in Hb.
Qed.

Lemma missing_mono a b i r : (forall k, received_at a k = true -> received_at b k = true) ->
  r ∈ missing ti b i -> r ∈ missing ti a i.
Proof. intros H Hr. eapply elem_of_sublist; [exact Hr|]. by apply missing_sublist. Qed.

Lemma missing_in_lt a b l i r : (forall k, received_at a k = true -> received_at b k = true) ->
  i ∈ l -> r ∈ missing ti a i -> received_at b (index_ r, begin_ r) = true ->
  (length (missing_in ti b l) < length (missing_in ti a l))%nat.
Proof.
  intros H Hi Hr Hb. unfold missing_in.
  assert (forall i, (length (missing ti b i) <= length (missing ti a i))%nat) as Hle
    by (intros j; by apply sublist_length, missing_sublist).
  assert (forall l, (length (concat (map (missing ti b) l)) <= length (concat (map (missing ti a) l)))%nat) as Hall.
  { clear -Hle. induction l as [|j l IH]; simpl; [done|]. rewrite !length_app. specialize (Hle j). lia. }
  induction l as [|j l IH]; [by apply not_elem_of_nil in Hi|]. cbn [map concat]. rewrite !length_app.
  apply elem_of_cons in Hi as [<-|Hi]; [|specialize (Hle j); specialize (IH Hi); lia].
  specialize (Hall l). assert (length (missing ti b i) <> length (missing ti a i)); [|specialize (Hle i); lia].
  intros E. pose proof (sublist_submseteq _ _ (missing_sublist a b i H)) as Hs.
  apply submseteq_length_Permutation in Hs; [|lia]. rewrite <- Hs in Hr. apply missing_not_received in Hr. congruence.
Qed.

Lemma all_missing_lt a b i r : (forall k, received_at a k = true -> received_at b k = true) ->
  have_set b peer = have_set a peer -> i ∈ have_set a peer -> r ∈ missing ti a i ->
  received_at b (index_ r, begin_ r) = true ->
  (length (all_missing ti b peer) < length (all_missing ti a peer))%nat.
Proof. intros H He Hi. unfold all_missing. rewrite He. apply missing_in_lt; [done|]. by rewrite elem_of_iter_order. Qed.
End Asking.

(** ** A burst of requests *)
Section Burst.
Context {BB : ByteBuffer} {BL : ByteBufferLaws BB} {PE : PastEnd} {Os : OS} {FS : FileSystem} {SHA : Sha1}.
Context {SO : SetOrder} {SOL : SetOrderLaw SO}.
Variable ti : torrent_info.
Variable c : nat.
Implicit Types w : world.

Definition peer_of w : bytes := peer_id_ (peer_info_ (agent_of c w)).
Definition sending w : list buf := send_queue_ (agent_of c w).

(** What a burst does: it appends requests the peer may be asked for, and leaves the flags,
    the peers' pieces and the blocks alone. *)
Record burst w w' : Prop := {
  bu_queue : exists rs, sending w' = sending w ++ map msg_factory_new_request rs /\
    Forall (requestable ti (piece_handler_ w) (peer_of w)) rs;
  bu_peer : peer_of w' = peer_of w;
  bu_choked : choked_ (agent_of c w') = choked_ (agent_of c w);
  bu_sm : sm_ (agent_of c w') = sm_ (agent_of c w);
  bu_running : running_ w' = running_ w;
  bu_ph : forall P, rtc (download_step ti P) (piece_handler_ w) (piece_handler_ w');
  bu_have : forall p, have_set (piece_handler_ w') p = have_set (piece_handler_ w) p;
  bu_received : forall k, received_at (piece_handler_ w') k = received_at (piece_handler_ w) k;
  bu_asks : asks ti (peer_of w) (piece_handler_ w) (sending w) -> asks ti (peer_of w) (piece_handler_ w') (sending w');
}.

#[local] Instance burst_preorder : PreOrder burst.
Proof.
  split.
  - intros w. split; try done. exists []. by rewrite app_nil_r.
  - intros a b d [(ra & A1 & A2) A3 A4 A5 A6 A7 A8 A9 A10] [(rb & B1 & B2) B3 B4 B5 B6 B7 B8 B9 B10]. split; try (intros; congruence).
    + exists (ra ++ rb). rewrite B1, A1, map_app, app_assoc. split; [done|]. apply Forall_app. split; [done|].
      rewrite A3 in B2. eapply Forall_impl; [exact B2|]. intros r (i & k & Hi & Hk). exists i, k. by rewrite <- A8.
    + intros P. etrans; [apply A7|apply B7].
    + rewrite A3 in B10. auto.
Qed.

Lemma burst_reg ev w : burst w (reg c ev w).
Proof.
  destruct (reg_agent c ev w) as [e Ha]. destruct (frame_reg c ev w) as (E1 & E2 & _).
  split; unfold peer_of, sending; rewrite ?Ha, ?E1; try done. exists []. by rewrite app_nil_r.
Qed.

Lemma burst_refused w r ph : get_piece_request ti (peer_of w) (piece_handler_ w) = ((false, r), ph) ->
  queues_ok ti (piece_handler_ w) -> burst w (set_piece_handler ph w).
Proof.
  intros H Hq. destruct (get_piece_request_keeps _ _ _ _ _ H Hq) as (_ & Hh & Hr & _).
  split; try done; cbn.
  - exists []. by rewrite app_nil_r.
  - intros P. apply rtc_once. by eapply dl_request.
  - intros Ha. by destruct (get_piece_request_asks ti _ _ _ _ _ _ H Ha) as [_ [G _]].
Qed.

Lemma burst_sent w r ph : get_piece_request ti (peer_of w) (piece_handler_ w) = ((true, r), ph) ->
  queues_ok ti (piece_handler_ w) -> burst w (push_msg c (msg_factory_new_request r) (set_piece_handler ph w)).
Proof.
  intros H Hq. destruct (get_piece_request_keeps _ _ _ _ _ H Hq) as (_ & Hh & Hr & Hask).
  split; unfold push_msg, peer_of, sending; rewrite ?agent_of_upd, ?decide_True by done; try done.
  - exists [r]. split; [done|]. apply Forall_singleton. by apply Hask.
  - intros P. apply rtc_once. by eapply dl_request.
  - intros Ha. by destruct (get_piece_request_asks ti _ _ _ _ _ _ H Ha) as [[G _] _].
Qed.

(** With a block missing, one is on its way after the burst. *)
Definition under_way w : Prop :=
  exists i r, i ∈ have_set (piece_handler_ w) (peer_of w) /\ r ∈ missing ti (piece_handler_ w) i /\ sent (sending w) r.

Lemma burst_missing w w' i : burst w w' -> missing ti (piece_handler_ w') i = missing ti (piece_handler_ w) i.
Proof.
  intros H. unfold missing. f_equal. apply list_filter_iff. intros k. by rewrite (bu_received _ _ H).
Qed.

Lemma burst_under_way w w' : burst w w' -> under_way w -> under_way w'.
Proof.
  intros H (i & r & Hi & Hr & Hs). exists i, r. rewrite (burst_missing _ _ _ H), (bu_peer _ _ H), (bu_have _ _ H).
  split; [done|]. split; [done|]. destruct (bu_queue _ _ H) as (rs & -> & _). apply sent_app. by left.
Qed.

Lemma burst_queues_ok w w' : burst w w' -> queues_ok ti (piece_handler_ w) -> queues_ok ti (piece_handler_ w').
Proof.
  intros H Hq. pose proof (bu_ph _ _ H (fun _ _ _ => False)) as Hs. clear H. revert Hq.
  induction Hs as [|a b d Hab _ IH]; intros Hq; [done|]. apply IH.
  destruct Hab as [p i ph|p bf ph ph' H|p ph r ph' H|? ? ? ? ? ? ? ? ? []].
  - by apply queues_ok_have.
  - by eapply queues_ok_bitfield.
  - by eapply queues_ok_request.
Qed.

Lemma request_loop_burst n : forall count w, queues_ok ti (piece_handler_ w) -> burst w (request_loop ti n c count w).2.
Proof.
  induction n as [|n IH]; intros count w Hq; cbn [request_loop]; [done|].
  destruct (get_piece_request _ _ _) as [[[|] r] ph] eqn:E; cbn [negb]; [|by eapply burst_refused].
  pose proof (burst_sent w r ph E Hq) as H. etrans; [exact H|]. apply IH. by eapply burst_queues_ok.
Qed.

Lemma request_loop_under_way n count w : queues_ok ti (piece_handler_ w) ->
  asks ti (peer_of w) (piece_handler_ w) (sending w) -> all_missing ti (piece_handler_ w) (peer_of w) <> [] ->
  under_way (request_loop ti (S n) c count w).2.
Proof.
  intros Hq Ha Hm. cbn [request_loop].
  destruct (get_piece_request _ _ _) as [[[|] r] ph] eqn:E; cbn [negb].
  - pose proof (burst_sent w r ph E Hq) as H. eapply burst_under_way.
    { apply request_loop_burst. by eapply burst_queues_ok. }
    destruct (get_piece_request_asks ti _ _ _ _ _ _ E Ha) as [G _]. destruct (G eq_refl) as (_ & Hr & Hp).
    destruct (pending_requestable ti _ _ _ Hq Hp) as (i & k & Hi & Hk & ->).
    exists i, (block_request i (size_of ti i) k). rewrite (burst_missing _ _ _ H), (bu_peer _ _ H), (bu_have _ _ H).
    split; [done|]. split.
    + apply list_elem_of_fmap. exists k. split; [done|]. apply list_elem_of_filter. by rewrite elem_of_block_inds.
    + unfold sending, push_msg. rewrite agent_of_upd, decide_True by done. apply sent_app. right. apply sent_new.
  - destruct (get_piece_request_asks ti _ _ _ _ _ _ E Ha) as [_ G]. destruct (G eq_refl) as (_ & Hs).
    eapply burst_under_way; [by eapply burst_refused|].
    destruct (all_missing ti (piece_handler_ w) (peer_of w)) as [|x l] eqn:Ex; [done|].
    assert (x ∈ all_missing ti (piece_handler_ w) (peer_of w)) as (i & Hi%elem_of_iter_order & Hx)%elem_of_missing_in
      by (rewrite Ex; by left).
    exists i, x. split; [done|]. split; [done|]. by eapply Hs.
Qed.

Lemma request_pieces_burst w : queues_ok ti (piece_handler_ w) -> burst w (request_pieces ti c w).
Proof.
  intros Hq. unfold request_pieces. destruct (choked_ _); cbn [negb]; [done|].
  pose proof (request_loop_burst MAX_BURST 0 w Hq) as H. destruct (request_loop _ _ _ _ _) as [n w1]. cbn [snd] in H.
  destruct (0 <? n)%nat; [|done]. etrans; [exact H|]. apply burst_reg.
Qed.

Lemma request_pieces_under_way w : queues_ok ti (piece_handler_ w) -> choked_ (agent_of c w) = false ->
  asks ti (peer_of w) (piece_handler_ w) (sending w) -> all_missing ti (piece_handler_ w) (peer_of w) <> [] ->
  under_way (request_pieces ti c w).
Proof.
  intros Hq Hc Ha Hm. unfold request_pieces. rewrite Hc. cbn [negb].
  pose proof (request_loop_under_way 14 0 w Hq Ha Hm) as H. change (S 14) with MAX_BURST in H.
  destruct (request_loop _ _ _ _ _) as [n w1]. cbn [snd] in H.
  destruct (0 <? n)%nat; [|done]. eapply burst_under_way; [apply burst_reg|done].
Qed.

(** A queue whose blocks have all arrived silences the agent for one burst, whatever else is
    missing: the queue is dropped but not built again.  With no answer on its way nothing
    calls [request_pieces] again ([execute] has no caller), so the agent waits for ever. *)
Theorem stale_queue_silent w : queue (piece_handler_ w) (peer_of w) <> [] ->
  (forall r, r ∈ queue (piece_handler_ w) (peer_of w) -> received_at (piece_handler_ w) (index_ r, begin_ r) = true) ->
  sending (request_pieces ti c w) = sending w.
Proof.
  intros Hq Hr. unfold request_pieces. destruct (choked_ _); cbn [negb]; [done|].
  pose proof (get_piece_request_spec ti (peer_of w) (piece_handler_ w)) as Hs.
  assert (pending ti (piece_handler_ w) (peer_of w) = queue (piece_handler_ w) (peer_of w)) as Hp
    by (unfold pending; by destruct (queue _ _)).
  rewrite Hp in Hs. destruct (drop_received_suffix (piece_handler_ w) (queue (piece_handler_ w) (peer_of w))) as (l & E & _).
  unfold MAX_BURST. cbn [request_loop]. fold (peer_of w). destruct (get_piece_request _ _ _) as [[ok r] ph].
  destruct (drop_received _ _) as [|r0 q0] eqn:Ed.
  - destruct Hs as [-> _]. done.
  - destruct (drop_received_head _ _ _ _ Ed) as [Hn Hin]. rewrite Hr in Hn; [done|]. apply Hin. by left.
Qed.
End Burst.

(** ** The peer *)
Section Peer.
Context {BB : ByteBuffer} {PE : PastEnd} {Os : OS} {FS : FileSystem} {SHA : Sha1} {SO : SetOrder}.
Variable ti : torrent_info.
Variable local_peer_id : bytes.
Variable c : nat.
(** The content of the torrent. *)
Variable D : bytes.

(** The answer to a message: to a request the piece with the bytes asked for, to anything
    else nothing. *)
Definition honest_reply (m : bytes) : option bytes :=
  if bool_decide (length m = 17%nat) && bool_decide (take 5 m = be 4 13 ++ [id_to_Z REQUEST]) then
    let index := unbe (take 4 (drop 5 m)) in
    let begin := unbe (take 4 (drop 9 m)) in
    let len := unbe (drop 13 m) in
    Some (id_to_Z PIECE :: be 4 index ++ be 4 begin ++
      take (Z.to_nat len) (drop (Z.to_nat (index * ti_piece_length ti + begin)) D))
  else None.

(** The message at the front of the agent's queue reaches the peer, and its answer, if it
    gives one, the agent.  The sockets between them are left out: AgentLife.v says which
    messages a socket takes whole, and Framing.v that it makes no difference in how many
    reads an answer arrives. *)
Definition exchange (w : world) : result world :=
  match send_queue_ (agent_of c w) with
  | [] => Ok w
  | m :: q =>
      let w := upd c (set_send_queue q) w in
      match honest_reply (bb_readable m) with
      | None => Ok w
      | Some a => on_read ti local_peer_id c (frame a) w
      end
  end.

(** So many exchanges, or fewer if the session is stopped. *)
Fixpoint exchanges (n : nat) (w : world) : result world :=
  match n with
  | O => Ok w
  | S n' => if running_ w then w ← exchange w; exchanges n' w else Ok w
  end.
End Peer.

Section Exchange.
Context {BB : ByteBuffer} {BL : ByteBufferLaws BB} {PE : PastEnd} {Os : OS} {FS : FileSystem} {SHA : Sha1}.
Context {SO : SetOrder} {SOL : SetOrderLaw SO}.
Variable ti : torrent_info.
Variable local_peer_id : bytes.
Variable c : nat.
Variable D : bytes.
Hypothesis torrent_is_ok : torrent_ok ti.
Hypothesis files_distinct : distinct_files (ti_files ti).
Hypothesis pieces_in_blocks : ti_piece_length ti mod BLOCK_LEN = 0.
Hypothesis offsets_fit : ti_total_size ti < 2 ^ 48.
Hypothesis files_open : forall f, f ∈ ti_files ti -> fs_can_open (fe_path f) = true.
Hypothesis D_length : Z.of_nat (length D) = ti_total_size ti.
Hypothesis D_hashes : forall i, piece_index_ok ti i -> sha1 (piece_slice ti D i) = ti_hash_for_piece ti i.
Implicit Types w : world.

Lemma is_request_bytes r m : is_request r m ->
  bb_readable m = be 4 13 ++ 6 :: be 4 (index_ r) ++ be 4 (begin_ r) ++ be 4 (length_ r).
Proof. intros ->. unfold msg_factory_new_request. by rewrite request_wire, new_readable. Qed.

Lemma honest_reply_request r m : request_ok r -> is_request r m ->
  honest_reply ti D (bb_readable m) = Some (7 :: be 4 (index_ r) ++ be 4 (begin_ r) ++
    take (Z.to_nat (length_ r)) (drop (Z.to_nat (index_ r * ti_piece_length ti + begin_ r)) D)).
Proof.
  intros (Hi & Hb & Hl) ->%is_request_bytes. unfold honest_reply.
  set (x := be 4 (index_ r)). set (y := be 4 (begin_ r)). set (z := be 4 (length_ r)).
  assert (length x = 4%nat /\ length y = 4%nat /\ length z = 4%nat) as (Hx & Hy & Hz) by (split_and!; apply length_be).
  set (m' := be 4 13 ++ 6 :: x ++ y ++ z).
  assert (m' = (be 4 13 ++ [6]) ++ x ++ y ++ z) as E by (unfold m'; by rewrite <- app_assoc).
  rewrite !bool_decide_true; [|by rewrite E; apply take_app_length'|unfold m'; rewrite length_app, length_be; cbn [length]; rewrite !length_app; lia].
  assert (drop 5 m' = x ++ y ++ z) as E5 by (rewrite E; by apply drop_app_length').
  assert (drop 9 m' = y ++ z) as E9
    by (change 9%nat with (5 + 4)%nat; rewrite <- drop_drop, E5; by apply drop_app_length').
  assert (drop 13 m' = z) as E13
    by (change 13%nat with (9 + 4)%nat; rewrite <- drop_drop, E9; by apply drop_app_length').
  rewrite E5, E9, E13, !take_app_length' by done. unfold x, y, z. by rewrite !unbe_be_small by lia.
Qed.

(** The request for a block of the torrent, and the bytes asked for. *)
Lemma block_request_ok i k : piece_index_ok ti i -> 0 <= k < num_blocks ti i ->
  let r := block_request i (size_of ti i) k in
  request_ok r /\ (index_ r, begin_ r) = block_key i k /\ begin_ r = k * BLOCK_LEN /\
  genuine ti D i k (take (Z.to_nat (length_ r)) (drop (Z.to_nat (index_ r * ti_piece_length ti + begin_ r)) D)).
Proof.
  intros Hi Hk r. pose proof (size_of_ok ti torrent_is_ok i Hi) as Hs. unfold r. rewrite Hs. clear r.
  destruct (block_bounds ti torrent_is_ok pieces_in_blocks i k Hi Hk) as (Hkb & Hps & Hbs).
  destruct (block_request_fields i (piece_size ti i) k ltac:(lia) Hk) as (Ei & Eb & El & Hl & _).
  pose proof (block_key_begin ti torrent_is_ok pieces_in_blocks i k Hi Hk) as Hkey.
  destruct (block_slices ti torrent_is_ok pieces_in_blocks offsets_fit i k Hi Hk) as (Ha & Hend & _).
  pose proof (tok_num_range ti torrent_is_ok). fold (block_size ti i k) in El. cbv zeta.
  rewrite Ei, Eb, El in *. split_and!; [|by rewrite Hkey|done|].
  - unfold request_ok. rewrite Ei, Eb, El. unfold piece_index_ok in Hi. change BLOCK_LEN with 16384 in *. lia.
  - split; [|done]. rewrite length_take, length_drop. lia.
Qed.

Lemma download_is_reachable P ph : download_reachable ti P ph -> ph_reachable ti ph.
Proof.
  induction 1 as [dk mk ph H|ph ph' _ IH Hs]; [by eapply reach_init|]. eapply reach_step; [exact IH|].
  destruct Hs; [by constructor|by eapply step_bitfield|by eapply step_request|by eapply step_received].
Qed.

Lemma received_marks piece i k d ph ph' stop : piece_index_ok ti i -> 0 <= k < num_blocks ti i ->
  bb_readable piece = be 4 i ++ be 4 (k * BLOCK_LEN) ++ d -> received ti piece ph = Ok (ph', stop) ->
  (forall key, received_at ph key = true -> received_at ph' key = true) /\ received_at ph' (block_key i k) = true /\
  (received_at ph (block_key i k) = true -> ph' ≡ ph /\ stop = false).
Proof.
  intros Hi Hk Hb. destruct (block_bounds ti torrent_is_ok pieces_in_blocks i k Hi Hk) as (Hkb & Hps & _).
  pose proof (tok_num_range ti torrent_is_ok) as Hn. assert (0 <= i < 2 ^ 31) as Hir by (unfold piece_index_ok in Hi; lia).
  rewrite (received_unfold ti _ _ _ _ ph Hb) by lia. rewrite <- (block_key_begin ti) by done. cbv zeta.
  pose proof (touch_block_equiv (block_key i k) ph) as Ht. destruct (received_at ph (block_key i k)) eqn:E.
  - intros [= <- <-]. split_and!; [|by rewrite Ht|done]. intros key. by rewrite Ht.
  - intros ([b ph1] & [Hm _]%(write_if_valid_untouched ti (i + 1)) & [= <- <-])%result_bind_ok; [|lia]. cbn [fst].
    split_and!; [| |done].
    + intros key Hr. apply Hm. rewrite store_block_received, received_at_touch. by case_decide.
    + apply Hm. by rewrite store_block_received, decide_True.
Qed.

(** The delivery of the answer to a request. *)
Lemma received_reply piece i k d ph : download_reachable ti (genuine ti D) ph ->
  piece_index_ok ti i -> 0 <= k < num_blocks ti i -> genuine ti D i k d ->
  bb_readable piece = be 4 i ++ be 4 (k * BLOCK_LEN) ++ d ->
  exists ph' stop, received ti piece ph = Ok (ph', stop) /\ download_reachable ti (genuine ti D) ph' /\
    same_peers ph ph' /\ received_at ph' (block_key i k) = true /\
    (forall key, received_at ph key = true -> received_at ph' key = true) /\
    (stop = true -> disk_content ti ph' = D) /\
    (if received_at ph (block_key i k) then ph' ≡ ph /\ stop = false
     else stop = false -> ~ forall i, piece_index_ok ti i -> piece_arrived ti ph' i).
Proof.
  intros Hr Hi Hk Hd Hb.
  assert (forall ph' stop, received ti piece ph = Ok (ph', stop) ->
    download_reachable ti (genuine ti D) ph' /\ same_peers ph ph') as Hrec.
  { intros ph' stop H. split; [|by eapply received_same_peers]. eapply dl_next; [exact Hr|]. by eapply dl_received. }
  destruct (received_at ph (block_key i k)) eqn:E.
  - destruct (download_received ti torrent_is_ok files_distinct pieces_in_blocks offsets_fit files_open (genuine ti D)
      (fun _ _ _ H => proj1 H) ph piece i k d Hr Hi Hk Hd Hb) as (ph' & stop & S & H & _).
    exists ph', stop. destruct (received_marks _ _ _ _ _ _ _ Hi Hk Hb H) as (H1 & H2 & H3).
    destruct (Hrec _ _ H) as [G1 G2]. destruct (H3 E) as [H4 ->]. by split_and!.
  - destruct (genuine_stops ti torrent_is_ok files_distinct pieces_in_blocks offsets_fit files_open D ph piece i k d D_length D_hashes Hr Hi Hk Hd Hb E)
      as (ph' & stop & H & Hstop & Hdisk & _).
    exists ph', stop. destruct (received_marks _ _ _ _ _ _ _ Hi Hk Hb H) as (H1 & H2 & _).
    destruct (Hrec _ _ H) as [G1 G2]. split_and!; try done. intros -> Ha. by apply Hstop in Ha.
Qed.
(** *** The state of the exchange *)

Record serving w : Prop := {
  sv_cleared : cleared c w;
  sv_handshake : received_handshake c w = true;
  sv_unchoked : choked_ (agent_of c w) = false;
  sv_running : running_ w = true;
  sv_reachable : download_reachable ti (genuine ti D) (piece_handler_ w);
  sv_have : forall i, i ∈ have_set (piece_handler_ w) (peer_of c w) <-> piece_index_ok ti i;
  sv_asks : asks ti (peer_of c w) (piece_handler_ w) (sending c w);
  sv_sent : Forall (fun m => honest_reply ti D (bb_readable m) = None \/
    exists r, requestable ti (piece_handler_ w) (peer_of c w) r /\ is_request r m) (sending c w);
}.

(** The [j]-th message that is sent asks for a block that is missing. *)
Definition waiting (j : nat) w : Prop :=
  exists i r m, i ∈ have_set (piece_handler_ w) (peer_of c w) /\ r ∈ missing ti (piece_handler_ w) i /\
    sending c w !! j = Some m /\ is_request r m.

Lemma under_way_waiting w : under_way ti c w -> exists j, waiting j w.
Proof.
  intros (i & r & Hi & Hr & (m & Hm & Hrm)%Exists_exists). apply list_elem_of_lookup in Hm as [j Hj].
  by exists j, i, r, m.
Qed.

(** The number of missing blocks. *)
Definition left_over w : nat := length (all_missing ti (piece_handler_ w) (peer_of c w)).

Lemma burst_left_over w w' : burst ti c w w' -> left_over w' = left_over w.
Proof.
  intros H. unfold left_over, all_missing, missing_in. rewrite (bu_peer _ _ _ _ H), (bu_have _ _ _ _ H). f_equal. f_equal.
  apply map_ext. intros i. by apply (burst_missing ti c).
Qed.

Lemma burst_waiting j w w' : burst ti c w w' -> waiting j w -> waiting j w'.
Proof.
  intros H (i & r & m & Hi & Hr & Hm & Hrm). exists i, r, m.
  rewrite (burst_missing _ _ _ _ _ H), (bu_peer _ _ _ _ H), (bu_have _ _ _ _ H). split_and!; try done.
  destruct (bu_queue _ _ _ _ H) as (rs & -> & _). by apply lookup_app_l_Some.
Qed.

Lemma requestable_block ph p r : (forall i, i ∈ have_set ph p <-> piece_index_ok ti i) -> requestable ti ph p r ->
  exists i k, piece_index_ok ti i /\ 0 <= k < num_blocks ti i /\ r = block_request i (size_of ti i) k.
Proof.
  intros Hh (i & k & Hi%Hh & Hk & ->). exists i, k. rewrite (size_of_ok ti torrent_is_ok i Hi) in *. done.
Qed.

Lemma requestable_same ph ph' p r : have_set ph' p = have_set ph p -> requestable ti ph p r -> requestable ti ph' p r.
Proof. intros E (i & k & Hi & Hk). exists i, k. by rewrite E. Qed.

Lemma all_arrived ph p : (forall i, i ∈ have_set ph p <-> piece_index_ok ti i) -> all_missing ti ph p = [] ->
  forall i, piece_index_ok ti i -> piece_arrived ti ph i.
Proof.
  intros Hh Hm i Hi k Hk. apply (proj1 (all_missing_nil ti ph p) Hm); [by apply Hh|].
  by rewrite (size_of_ok ti torrent_is_ok i Hi).
Qed.

(** After a burst the exchange goes on; the blocks may have changed before it. *)
Lemma serving_burst w w' : burst ti c w w' -> cleared c w' ->
  serving w -> serving w'.
Proof.
  intros H Hc [S1 S2 S3 S4 S5 S6 S7 S8]. pose proof (bu_queue _ _ _ _ H) as (rs & Hq & Hrs). split; [done|..].
  - unfold received_handshake in *. by rewrite (bu_sm _ _ _ _ H).
  - by rewrite (bu_choked _ _ _ _ H).
  - by rewrite (bu_running _ _ _ _ H).
  - eapply (download_steps ti); [exact S5|apply (bu_ph _ _ _ _ H)].
  - intros i. by rewrite (bu_peer _ _ _ _ H), (bu_have _ _ _ _ H).
  - rewrite (bu_peer _ _ _ _ H). by apply (bu_asks _ _ _ _ H).
  - rewrite (bu_peer _ _ _ _ H), Hq. apply Forall_app. split.
    + eapply Forall_impl; [exact S8|]. intros m [Hm|(r & Hr & Hm)]; [by left|right]. exists r. split; [|done].
      eapply requestable_same; [apply (bu_have _ _ _ _ H)|done].
    + apply Forall_map. eapply Forall_impl; [exact Hrs|]. intros r Hr. right. exists r. split; [|done].
      eapply requestable_same; [apply (bu_have _ _ _ _ H)|done].
Qed.

(** Messages read with an empty buffer. *)
Lemma on_read_messages ms w w' : Forall frame_ok ms -> cleared c w -> received_handshake c w = true ->
  handle_all ti local_peer_id c ms w = Ok w' ->
  on_read ti local_peer_id c (concat (map frame ms)) w = Ok w' /\ cleared c w' /\ received_handshake c w' = true.
Proof.
  intros Hms Hc Hh H. assert (cleared c w' /\ received_handshake c w' = true) as [Hc' Hh'].
  { clear Hms. revert w Hc Hh H. induction ms as [|m ms IH]; intros w Hc Hh; cbn [handle_all]; [by intros [= <-]|].
    intros (w1 & H1 & H2)%result_bind_ok.
    assert (on_message ti local_peer_id c (bb_write bb_new (frame m)) w = Ok w1) as Hom
      by (unfold on_message; fold (received_handshake c w); by rewrite Hh).
    apply IH in H2; [done|by eapply cleared_message|by eapply on_message_handshake]. }
  split; [|done]. rewrite on_read_loop_append, (cleared_buffer c w Hc). cbn [app].
  pose proof (loop_frames ti local_peer_id c [] ms (length (concat (map frame ms))) w w') as Hl.
  rewrite app_nil_r in Hl. rewrite Hl; [by rewrite cleared_append|left; simpl; lia|done..| |done].
  rewrite <- (app_nil_r (concat _)). by apply frames_length.
Qed.
(** *** One exchange *)

Lemma is_request_same r r' m : request_ok r -> request_ok r' -> is_request r m -> is_request r' m ->
  (index_ r', begin_ r') = (index_ r, begin_ r).
Proof.
  intros (Hi & Hb & _) (Hi' & Hb' & _) E%is_request_bytes E'%is_request_bytes. rewrite E in E'.
  apply app_inv_head, (f_equal tail) in E'. cbn [tail] in E'.
  apply app_inj_1 in E' as [E1 E']; [|by rewrite !length_be]. apply app_inj_1 in E' as [E2 _]; [|by rewrite !length_be].
  apply (f_equal unbe) in E1, E2. rewrite !unbe_be_small in E1, E2 by lia. by rewrite E1, E2.
Qed.

(** The world after the front message has been taken off and the pieces have changed. *)
Definition popped (q : list buf) ph w : world := set_piece_handler ph (upd c (set_send_queue q) w).

Lemma popped_agent q ph w : agent_of c (popped q ph w) = set_send_queue q (agent_of c w).
Proof. change (agent_of c (upd c (set_send_queue q) w) = set_send_queue q (agent_of c w)). by rewrite agent_of_upd, decide_True. Qed.

Lemma popped_cleared q ph w : cleared c w -> cleared c (popped q ph w).
Proof.
  intros [w0 ->]. unfold popped. exists (set_piece_handler ph (upd c (set_send_queue q) w0)).
  by rewrite upd_edit, edit_set_pieces.
Qed.

Lemma serving_pop m q ph w : serving w -> sending c w = m :: q ->
  download_reachable ti (genuine ti D) ph -> same_peers (piece_handler_ w) ph ->
  (forall key, received_at (piece_handler_ w) key = true -> received_at ph key = true) ->
  (forall r, is_request r m -> requestable ti (piece_handler_ w) (peer_of c w) r -> received_at ph (index_ r, begin_ r) = true) ->
  serving (popped q ph w).
Proof.
  intros [S1 S2 S3 S4 S5 S6 S7 S8] Hq Hr [Hh Hm] Hmono Hfront.
  assert (forall p, have_set ph p = have_set (piece_handler_ w) p) as Hhave by (intros p; unfold have_set; by rewrite Hh).
  assert (forall p, queue ph p = queue (piece_handler_ w) p) as Hqueue by (intros p; unfold queue; by rewrite Hm).
  split; unfold received_handshake, peer_of, sending in *; rewrite ?popped_agent; try done.
  - by apply popped_cleared.
  - intros i. cbn. by rewrite Hhave.
  - intros i r. cbn. rewrite Hhave, Hqueue. intros Hi Hmiss. pose proof (missing_mono ti _ _ _ _ Hmono Hmiss) as Hmiss'.
    destruct (S7 i r Hi Hmiss') as [?|Hs]; [by left|right]. rewrite Hq in Hs. apply Exists_cons in Hs as [Hs|]; [|done].
    apply missing_not_received in Hmiss. rewrite Hfront in Hmiss; [done|done|].
    destruct (missing_requestable _ _ _ _ Hmiss') as (k & Hk & -> & _). by exists i, k.
  - cbn. rewrite Hq in S8. apply Forall_cons in S8 as [_ S8]. eapply Forall_impl; [exact S8|].
    intros x [Hx|(r & Hx & ?)]; [by left|right]. exists r. split; [|done].
    eapply requestable_same; [apply Hhave|exact Hx].
Qed.

Lemma waiting_pop j m q ph w : serving w -> waiting j w -> sending c w = m :: q -> ph ≡ piece_handler_ w ->
  (forall r, is_request r m -> requestable ti (piece_handler_ w) (peer_of c w) r -> received_at ph (index_ r, begin_ r) = true) ->
  exists j0, j = S j0 /\ waiting j0 (popped q ph w).
Proof.
  intros Hs (i & r & x & Hi & Hr & Hx & Hrx) Hq He Hfront. rewrite Hq in Hx. destruct j as [|j].
  - injection Hx as ->. pose proof (missing_not_received ti _ _ _ Hr) as Hn. rewrite <- He, Hfront in Hn; [done|done|].
    destruct (missing_requestable _ _ _ _ Hr) as (k & Hk & -> & _). by exists i, k.
  - exists j. split; [done|]. exists i, r, x. unfold peer_of, sending in *. rewrite popped_agent. cbn. by rewrite He.
Qed.

(** The outcome of an exchange: the end, or a step towards it. *)
Definition progress (j : nat) w w' : Prop :=
  (running_ w' = false /\ disk_content ti (piece_handler_ w') = D) \/
  (serving w' /\ (((left_over w' < left_over w)%nat /\ exists j', waiting j' w') \/
                  (left_over w' = left_over w /\ exists j0, j = S j0 /\ waiting j0 w'))).

Lemma genuine_length i k d : piece_index_ok ti i -> 0 <= k < num_blocks ti i -> genuine ti D i k d ->
  Z.of_nat (length d) <= 16384.
Proof.
  intros Hi Hk [-> _]. destruct (block_bounds ti torrent_is_ok pieces_in_blocks i k Hi Hk) as (_ & _ & H).
  change BLOCK_LEN with 16384 in H. lia.
Qed.

(** What [handle_msg] does with the answer. *)
Lemma handle_reply index begin d w : Z.of_nat (length d) <= 16384 ->
  let a := 7 :: be 4 index ++ be 4 begin ++ d in
  frame_ok a /\ exists piece, bb_readable piece = be 4 index ++ be 4 begin ++ d /\
    handle_msg ti local_peer_id c (make_message (bb_write bb_new (frame a))) w = handle_piece ti c piece w.
Proof.
  intros Hd a. set (p := be 4 index ++ be 4 begin ++ d).
  assert (Z.of_nat (length p) <= 16392) as Hp by (unfold p; rewrite !length_app, !length_be; lia).
  split; [unfold frame_ok, a; cbn [length]; fold p; lia|].
  destruct (make_message_frame (bb_write bb_new (frame a)) 7 p []) as [Hid Hpay]; [lia|lia| |].
  - rewrite write_readable, new_readable, app_nil_r. cbn [app]. unfold frame, a. fold p. cbn [length].
    by replace (Z.of_nat (S (length p))) with (Z.of_nat (length p) + 1) by lia.
  - exists (payload_ (make_message (bb_write bb_new (frame a)))). split; [exact Hpay|]. unfold handle_msg. by rewrite Hid.
Qed.

(** The peer has no answer to the front message. *)
Lemma exchange_ignored j w m q : serving w -> waiting j w -> sending c w = m :: q ->
  honest_reply ti D (bb_readable m) = None ->
  exists w', exchange ti local_peer_id c D w = Ok w' /\ progress j w w'.
Proof.
  intros Hs Hw Hq Hm. exists (popped q (piece_handler_ w) w). split.
  { unfold exchange. fold (sending c w). by rewrite Hq, Hm. }
  assert (forall r, is_request r m -> requestable ti (piece_handler_ w) (peer_of c w) r ->
    received_at (piece_handler_ w) (index_ r, begin_ r) = true) as Hfront.
  { intros r Hr (i & k & Hi & Hk & ->)%(requestable_block _ _ _ (sv_have _ Hs)). exfalso.
    rewrite (honest_reply_request _ _ (proj1 (block_request_ok i k Hi Hk)) Hr) in Hm. done. }
  right. split; [by eapply serving_pop; [done..|apply Hs|done|done|]|]. right. split.
  - unfold left_over, peer_of. by rewrite popped_agent.
  - by eapply waiting_pop.
Qed.

(** Whatever request the message is taken for, it is for the block that has arrived. *)
Lemma answered_request w ph i k m r : serving w -> piece_index_ok ti i -> 0 <= k < num_blocks ti i ->
  is_request (block_request i (size_of ti i) k) m -> received_at ph (block_key i k) = true ->
  is_request r m -> requestable ti (piece_handler_ w) (peer_of c w) r -> received_at ph (index_ r, begin_ r) = true.
Proof.
  intros Hs Hi Hk Hm Hmark Hr (i' & k' & Hi' & Hk' & ->)%(requestable_block _ _ _ (sv_have _ Hs)).
  destruct (block_request_ok i k Hi Hk) as (Hok & Hkey & _).
  rewrite (is_request_same _ _ _ Hok (proj1 (block_request_ok i' k' Hi' Hk')) Hm Hr).
  exact (eq_trans (f_equal (received_at ph) Hkey) Hmark).
Qed.

(** The front message asks for a block, and the answer is handled. *)
Lemma exchange_answered w m q i k : serving w -> sending c w = m :: q ->
  piece_index_ok ti i -> 0 <= k < num_blocks ti i -> is_request (block_request i (size_of ti i) k) m ->
  exists ph stop w', exchange ti local_peer_id c D w = Ok w' /\ cleared c w' /\
    received_at ph (block_key i k) = true /\
    (stop = true -> disk_content ti ph = D) /\
    (if received_at (piece_handler_ w) (block_key i k) then ph ≡ piece_handler_ w /\ stop = false
     else stop = false -> ~ forall i, piece_index_ok ti i -> piece_arrived ti ph i) /\
    (forall key, received_at (piece_handler_ w) key = true -> received_at ph key = true) /\
    same_peers (piece_handler_ w) ph /\ serving (popped q ph w) /\
    w' = request_pieces ti c (if stop then session_stop (popped q ph w) else popped q ph w).
Proof.
  intros Hs Hq Hi Hk Hm. destruct (block_request_ok i k Hi Hk) as (Hok & Hkey & Hbegin & Hgen).
  pose proof (honest_reply_request _ _ Hok Hm) as Hreply. change (index_ (block_request i (size_of ti i) k)) with i in *.
  set (d := take _ _) in *. rewrite Hbegin in Hreply.
  destruct (handle_reply i (k * BLOCK_LEN) d (upd c (set_send_queue q) w)) as (Hframe & piece & Hpiece & Hmsg);
    [by eapply genuine_length|].
  destruct (received_reply piece i k d (piece_handler_ w) (sv_reachable _ Hs) Hi Hk Hgen Hpiece)
    as (ph & stop & Hrec & Hreach & Hpeers & Hmark & Hmono & Hdisk & Hcase).
  exists ph, stop. eexists. split; [|split; [|split_and!; [exact Hmark|exact Hdisk|exact Hcase|exact Hmono|exact Hpeers| |reflexivity]]].
  1, 2: destruct (on_read_messages [7 :: be 4 i ++ be 4 (k * BLOCK_LEN) ++ d] (upd c (set_send_queue q) w)
      (request_pieces ti c (if stop then session_stop (popped q ph w) else popped q ph w))) as (H1 & H2 & _).
  1, 6: by apply Forall_singleton.
  1, 5: by apply (popped_cleared q (piece_handler_ w)), Hs.
  1, 4: change (received_handshake c (popped q (piece_handler_ w) w) = true); unfold received_handshake;
    rewrite popped_agent; apply Hs.
  1, 3: cbn [handle_all]; rewrite Hmsg; unfold handle_piece; change (piece_handler_ (upd c (set_send_queue q) w)) with (piece_handler_ w);
    rewrite Hrec; done.
  - unfold exchange. fold (sending c w). rewrite Hq, Hreply. cbn [map concat] in H1. by rewrite app_nil_r in H1.
  - exact H2.
  - eapply serving_pop; try done. intros r Hr Hrq. by eapply answered_request.
Qed.

Lemma serving_queues_ok w : serving w -> queues_ok ti (piece_handler_ w).
Proof. intros Hs. apply (reachable_queues_ok ti), (download_is_reachable (genuine ti D)), Hs. Qed.

Lemma burst_disk w w' : burst ti c w w' -> disk_content ti (piece_handler_ w') = disk_content ti (piece_handler_ w).
Proof.
  intros H. pose proof (bu_ph _ _ _ _ H (fun _ _ _ => False)) as Hs. unfold disk_content. clear H.
  induction Hs as [|a b d Hab _ IH]; [done|]. rewrite IH. f_equal.
  destruct Hab as [p i ph|p bf ph ph' H|p ph r ph' H|? ? ? ? ? ? ? ? ? []];
    [destruct (have_same_disk ti p i ph) as (_ & _ & _ & E)|destruct (bitfield_same_disk ti _ _ _ _ _ _ H) as (_ & _ & _ & E)|
     destruct (request_same_disk ti _ _ _ _ H) as (_ & _ & _ & E)]; exact E.
Qed.

Lemma exchange_step j w : serving w -> waiting j w ->
  exists w', exchange ti local_peer_id c D w = Ok w' /\ progress j w w'.
Proof.
  intros Hs Hw. destruct (sending c w) as [|m q] eqn:Hq.
  { destruct Hw as (? & ? & ? & _ & _ & Hw & _). by rewrite Hq in Hw. }
  pose proof (sv_sent _ Hs) as Hsent. rewrite Hq in Hsent. apply Forall_cons in Hsent as [[Hm|(r & Hr & Hm)] _].
  { by eapply exchange_ignored. }
  destruct (requestable_block _ _ _ (sv_have _ Hs) Hr) as (i & k & Hi & Hk & ->).
  destruct (exchange_answered w m q i k Hs Hq Hi Hk Hm) as (ph & stop & w' & Hex & Hclear & Hmark & Hdisk & Hcase & Hmono & Hpeers & Hs1 & Hw').
  destruct (block_request_ok i k Hi Hk) as (Hok & Hkey & _).
  exists w'. split; [exact Hex|]. pose proof (serving_queues_ok _ Hs1) as Hqs. destruct stop.
  - left. pose proof (request_pieces_burst ti c (session_stop (popped q ph w)) Hqs) as Hb. rewrite <- Hw' in Hb.
    rewrite (bu_running _ _ _ _ Hb), (burst_disk _ _ Hb). split; [done|]. by apply Hdisk.
  - right. pose proof (request_pieces_burst ti c (popped q ph w) Hqs) as Hb. rewrite <- Hw' in Hb.
    split; [exact (serving_burst _ _ Hb Hclear Hs1)|]. rewrite (burst_left_over _ _ Hb).
    assert (peer_of c (popped q ph w) = peer_of c w) as Hp by (unfold peer_of; by rewrite popped_agent).
    assert (have_set ph (peer_of c w) = have_set (piece_handler_ w) (peer_of c w)) as Hh by (unfold have_set; by rewrite (proj1 Hpeers)).
    unfold left_over. rewrite Hp. change (piece_handler_ (popped q ph w)) with ph.
    destruct (received_at (piece_handler_ w) (block_key i k)) eqn:E.
    + right. destruct Hcase as [He _]. split; [by rewrite He|].
      destruct (waiting_pop j m q ph w Hs Hw Hq He) as (j0 & -> & Hj0); [|exists j0; split; [done|by eapply burst_waiting]].
      intros r Hr' Hrq. exact (answered_request w ph i k m r Hs Hi Hk Hm Hmark Hr' Hrq).
    + left. split.
      * apply (all_missing_lt ti (peer_of c w) (piece_handler_ w) ph i (block_request i (size_of ti i) k)); try done.
        -- by apply (sv_have _ Hs).
        -- apply list_elem_of_fmap. exists k. split; [done|]. apply list_elem_of_filter. split; [done|].
           rewrite elem_of_block_inds. by rewrite (size_of_ok ti torrent_is_ok i Hi).
      * apply under_way_waiting. rewrite Hw'. apply request_pieces_under_way; try done; [apply Hs1|apply Hs1|].
        intros Hm0. apply (Hcase eq_refl). eapply all_arrived; [apply (sv_have _ Hs1)|exact Hm0].
Qed.

Lemma exchanges_complete : forall n j w, left_over w = n -> serving w -> waiting j w ->
  exists turns w', exchanges ti local_peer_id c D turns w = Ok w' /\
    running_ w' = false /\ disk_content ti (piece_handler_ w') = D.
Proof.
  intros n. induction (lt_wf n) as [n _ IHn]. intros j. induction j as [j IHj] using (well_founded_induction lt_wf).
  intros w Hn Hs Hw. destruct (exchange_step j w Hs Hw) as (w1 & H1 & Hp).
  assert (forall turns w', exchanges ti local_peer_id c D turns w1 = Ok w' ->
    exchanges ti local_peer_id c D (S turns) w = Ok w') as Hnext
    by (intros turns w' H; cbn [exchanges]; by rewrite (sv_running _ Hs), H1).
  destruct Hp as [[Hr Hd]|[Hs1 [[Hlt [j' Hj']]|[Heq (j0 & -> & Hj0)]]]].
  - exists 1%nat, w1. split; [by apply Hnext|done].
  - destruct (IHn (left_over w1) ltac:(lia) j' w1 eq_refl Hs1 Hj') as (t & w' & H & Hend). exists (S t), w'. split; [by apply Hnext|done].
  - destruct (IHj j0 ltac:(lia) w1 ltac:(lia) Hs1 Hj0) as (t & w' & H & Hend). exists (S t), w'. split; [by apply Hnext|done].
Qed.

(** ** The whole conversation *)

Lemma asks_nothing ph p sq : have_set ph p = ∅ -> asks ti p ph sq.
Proof. intros E i r. rewrite E. set_solver. Qed.

(** The peer announces its pieces and lets the agent ask. *)
Lemma unchoked_serving bf w : is_Some (agents_ w !! c) -> buffer_of c w = [] -> received_handshake c w = true -> running_ w = true ->
  download_reachable ti (genuine ti D) (piece_handler_ w) -> have_set (piece_handler_ w) (peer_of c w) = ∅ ->
  ~ (forall i, piece_index_ok ti i -> piece_arrived ti (piece_handler_ w) i) ->
  Forall (fun m => honest_reply ti D (bb_readable m) = None) (sending c w) ->
  bytes_ok bf -> Z.of_nat (length bf) < 2 ^ 29 -> (forall i, announced bf i <-> piece_index_ok ti i) ->
  exists w1 j, on_read ti local_peer_id c (frame (5 :: bf) ++ frame [1]) w = Ok w1 /\ serving w1 /\ waiting j w1.
Proof.
  intros Ha Hb Hh Hr Hreach Hnone Hmissing Hsq Hbf Hlen Hann. pose proof (cleared_intro c w Ha Hb) as Hc.
  destruct (make_message_frame (bb_write bb_new (frame (5 :: bf))) 5 bf []) as [Hid Hpay]; [lia|lia| |].
  { rewrite write_readable, new_readable, app_nil_r. cbn [app]. unfold frame. cbn [length].
    by replace (Z.of_nat (S (length bf))) with (Z.of_nat (length bf) + 1) by lia. }
  destruct (make_message_frame (bb_write bb_new (frame [1])) 1 [] []) as [Hid1 _]; [lia|simpl; lia|by rewrite write_readable, new_readable|].
  set (pay := payload_ _) in Hpay.
  destruct (have_bitfield_spec ti (peer_of c w) pay (piece_handler_ w)) as (ph & Hph & _ & Hhave);
    [by rewrite Hpay|unfold bb_available; rewrite Hpay; lia|]. rewrite Hpay in Hhave.
  set (w3 := upd c (set_choked false) (upd c (set_sm UNCHOKED) (set_piece_handler ph w))).
  assert (agent_of c w3 = set_choked false (set_sm UNCHOKED (agent_of c w))) as Ha3.
  { unfold w3. rewrite upd_upd, agent_of_upd, decide_True by done. done. }
  assert (cleared c w3) as Hc3.
  { destruct Hc as [w0 E]. unfold w3. rewrite E, edit_set_pieces, !upd_edit by done. by eexists. }
  assert (handle_all ti local_peer_id c [5 :: bf; [1]] w = Ok (request_pieces ti c w3)) as Hall.
  { cbn [handle_all]. assert (handle_msg ti local_peer_id c (make_message (bb_write bb_new (frame (5 :: bf)))) w =
      Ok (set_piece_handler ph w)) as -> by (unfold handle_msg; rewrite Hid; fold pay; fold (peer_of c w); by rewrite Hph).
    cbn [mbind result_bind]. unfold handle_msg. by rewrite Hid1. }
  assert (serving w3) as Hs3.
  { split; unfold received_handshake, peer_of, sending in *; rewrite ?Ha3; try done.
    - eapply dl_next; [exact Hreach|]. by eapply dl_bitfield.
    - intros i. cbn. rewrite Hhave, Hnone, <- Hann. set_solver.
    - cbn. unfold have_bitfield in Hph. eapply asks_bitfield; [exact Hph|]. by apply asks_nothing.
    - eapply Forall_impl; [exact Hsq|]. intros m Hm. by left. }
  pose proof (serving_queues_ok _ Hs3) as Hq3.
  destruct (on_read_messages [5 :: bf; [1]] w (request_pieces ti c w3)) as (Hread & Hcl & _); try done.
  { repeat constructor. unfold frame_ok. cbn [length]. lia. }
  cbn [map concat] in Hread. rewrite app_nil_r in Hread.
  pose proof (serving_burst _ _ (request_pieces_burst ti c w3 Hq3) Hcl Hs3) as Hs1.
  destruct (under_way_waiting (request_pieces ti c w3)) as [j Hj]; [|by exists (request_pieces ti c w3), j].
  apply request_pieces_under_way; [done|apply Hs3|apply Hs3|]. intros Hm. apply Hmissing. intros i Hi k Hk.
  destruct (bitfield_same_disk ti _ _ _ _ _ _ Hph) as (Hsame & _). pose proof (all_arrived _ _ (sv_have _ Hs3) Hm i Hi k Hk) as Hrec.
  unfold received_at in *. by rewrite <- Hsame.
Qed.

End Exchange.

(** ** On the sample torrent *)
Section CompletionWitness.
Import ListBuffer Sample.

#[local] Instance calm_os : OS := scripted_os None (Some 0) 1.
#[local] Instance zeros_past_end : PastEnd := fun _ _ => 0.

(** The handshake is done, the answer [interested] is still queued. *)
Definition met : world :=
  mk_world {[0%nat := the_agent HANDSHAKE_RECEIVED true true [msg_factory_new_interested] []]}
    (mk_net_reactor 9 100 {[3 := 0%nat]}) timer_init created.2 true false [].

Lemma one_piece_announced i : announced [128] i <-> piece_index_ok torrent i.
Proof.
  unfold announced, piece_index_ok. change (ti_num_pieces torrent) with 1. split.
  - intros (Hi & b & Hb & Ht). assert (i / 8 = 0) as E.
    { apply lookup_lt_Some in Hb. simpl in Hb. pose proof (Z.div_pos i 8). lia. }
    rewrite E in Hb. injection Hb as <-. pose proof (Z.div_mod i 8 ltac:(lia)) as Hd. rewrite E in Hd.
    pose proof (Z.mod_pos_bound i 8 ltac:(lia)) as Hm. replace i with (i mod 8) by lia. revert Ht. clear Hd E Hi.
    assert (i mod 8 = 0 \/ i mod 8 = 1 \/ i mod 8 = 2 \/ i mod 8 = 3 \/ i mod 8 = 4 \/ i mod 8 = 5 \/ i mod 8 = 6 \/
            i mod 8 = 7) as Hc by lia.
    destruct_or! Hc; rewrite Hc; done || lia.
  - intros Hi. assert (i = 0) as -> by lia. split; [done|]. by exists 128.
Qed.


(** A torrent of one piece of two blocks, which two peers have. *)
Definition two_blocks : torrent_info :=
  mk_torrent_info 32768 1 32768 [mk_file_entry (bytes_of_string "t") (bytes_of_string "t") 0 32768] (fun _ => []) [] [].

Definition both_announced : piece_handler :=
  have two_blocks (bytes_of_string "other") 0 (have two_blocks peer 0 (mk_piece_handler ∅ ∅ ∅ ∅ 0 ∅)).

(** One peer has been asked for both blocks, seven times, and once more for the first; its
    connection is lost.  The other peer delivers the second block. *)
Definition burst_lost : world := request_pieces two_blocks 0 (set_piece_handler both_announced
  (the_world (the_agent UNCHOKED true false [] []) [])).

Definition second_block : t := mk (be 4 0 ++ be 4 16384 ++ [1]) 0.

Definition one_arrived : world :=
  set_piece_handler (ok_or (both_announced, true) (received two_blocks second_block (piece_handler_ burst_lost))).1
    (upd 0 (set_send_queue []) burst_lost).

(** The first block is missing, nothing is on its way, and the agent asks for nothing. *)
Lemma stale_queue_silent_witness :
  all_missing two_blocks (piece_handler_ one_arrived) peer = [mk_request 0 0 16384] /\
  sending 0 (request_pieces two_blocks 0 one_arrived) = [].
Proof.
  split; [by vm_compute|]. apply (stale_queue_silent two_blocks 0 one_arrived).
  - by vm_compute.
  - assert (queue (piece_handler_ one_arrived) (peer_of 0 one_arrived) = [mk_request 0 16384 16384]) as -> by (by vm_compute).
    intros r ->%list_elem_of_singleton. by vm_compute.
Defined.
End CompletionWitness.
