(* ===== verification/Random.v ===== *)
(** * Random numbers

    [src/random.cpp]: a generator of the standard library, [std::mt19937], is seeded from the
    system for every number and drawn from once.  The number is a function of the seed, which
    is all the randomness there is. *)

From S2P Require Import Prelude.

(** [std::mt19937::seed]: the word after [x], number [i]. *)
Definition seed_word (x i : Z) : Z := u32 (1812433253 * Z.lxor x (Z.shiftr x 30) + i).

(** The words from number [i] on; [n] of them after [x], and [x]. *)
Fixpoint seed_words (n : nat) (x i : Z) : list Z :=
  match n with O => [x] | S n' => x :: seed_words n' (seed_word x i) (i + 1) end.

(** The state: 624 words. *)
Definition mt19937_seed (seed : Z) : list Z := seed_words 623 (u32 seed) 1.

(** Word [k] of the next state, as long as it depends on words of this one only. *)
Definition twist (state : list Z) (k : nat) : Z :=
  let y := Z.lor (Z.land (nth k state 0) 0x80000000) (Z.land (nth (S k) state 0) 0x7FFFFFFF) in
  Z.lxor (Z.lxor (nth (k + 397) state 0) (Z.shiftr y 1)) (if Z.odd y then 0x9908B0DF else 0).

Definition temper (z : Z) : Z :=
  let z := Z.lxor z (Z.shiftr z 11) in
  let z := Z.lxor z (Z.land (u32 (Z.shiftl z 7)) 0x9D2C5680) in
  let z := Z.lxor z (Z.land (u32 (Z.shiftl z 15)) 0xEFC60000) in
  Z.lxor z (Z.shiftr z 18).

(** The first number of a generator. *)
Definition mt19937_first (seed : Z) : Z := temper (twist (mt19937_seed seed) 0).

(** The first number of the default seed. *)
Example default_seed : mt19937_first 5489 = 3499211612.
Proof. by vm_compute. Qed.

(** [std::random_device]: a number of 32 bits from the system. *)
Class RandomDevice (os : Type) := random_device : os -> Z * os.

Section Random.
Context {os : Type} {RD : RandomDevice os}.

(** [src/random.cpp:10-17] rnd::uint32
    A distribution over all values of the generator gives them as they are. *)
Definition rnd_uint32 (s : os) : Z * os :=
  let '(seed, s) := random_device s in (mt19937_first seed, s).

(** [src/random.cpp:19-22] rnd::transaction_id *)
Definition rnd_transaction_id (s : os) : Z * os := rnd_uint32 s.
End Random.

(** ** The range *)

Lemma lxor_u32 a b : 0 <= a < 2 ^ 32 -> 0 <= b < 2 ^ 32 -> 0 <= Z.lxor a b < 2 ^ 32.
Proof.
  intros Ha Hb. assert (0 <= Z.lxor a b) by (apply Z.lxor_nonneg; lia). split; [done|].
  destruct (decide (Z.lxor a b = 0)) as [->|Hne]; [done|]. apply Z.log2_lt_pow2; [lia|].
  eapply Z.le_lt_trans; [apply Z.log2_lxor; lia|]. apply Z.max_lub_lt.
  - destruct (decide (a = 0)) as [->|]; [done|]. apply Z.log2_lt_pow2; lia.
  - destruct (decide (b = 0)) as [->|]; [done|]. apply Z.log2_lt_pow2; lia.
Qed.

Lemma shiftr_u32 a n : 0 <= a < 2 ^ 32 -> 0 <= n -> 0 <= Z.shiftr a n < 2 ^ 32.
Proof.
  intros Ha Hn. rewrite Z.shiftr_div_pow2 by lia. assert (0 < 2 ^ n) by (apply Z.pow_pos_nonneg; lia).
  split; [apply Z.div_pos; lia|]. apply Z.div_lt_upper_bound; [lia|]. nia.
Qed.

Lemma land_u32 a m : 0 <= a < 2 ^ 32 -> 0 <= m -> 0 <= Z.land a m < 2 ^ 32.
Proof.
  intros Ha Hm. split; [apply Z.land_nonneg; lia|].
  destruct (decide (a = 0)) as [->|]; [by rewrite Z.land_0_l|]. destruct (decide (Z.land a m = 0)) as [->|]; [done|].
  assert (0 <= Z.land a m) by (apply Z.land_nonneg; lia). apply Z.log2_lt_pow2; [lia|].
  eapply Z.le_lt_trans; [apply Z.log2_land; lia|]. apply Z.min_lt_iff. left. apply Z.log2_lt_pow2; lia.
Qed.

Lemma temper_range z : 0 <= z < 2 ^ 32 -> 0 <= temper z < 2 ^ 32.
Proof.
  intros Hz. unfold temper. cbv zeta. repeat first [apply lxor_u32 | apply shiftr_u32 | apply land_u32 | apply u32_range | lia | assumption].
Qed.

Lemma lor_u32 a b : 0 <= a < 2 ^ 32 -> 0 <= b < 2 ^ 32 -> 0 <= Z.lor a b < 2 ^ 32.
Proof.
  intros Ha Hb. assert (0 <= Z.lor a b) by (apply Z.lor_nonneg; lia). split; [done|].
  destruct (decide (Z.lor a b = 0)) as [->|Hne]; [done|]. apply Z.log2_lt_pow2; [lia|].
  rewrite Z.log2_lor by lia. apply Z.max_lub_lt.
  - destruct (decide (a = 0)) as [->|]; [done|]. apply Z.log2_lt_pow2; lia.
  - destruct (decide (b = 0)) as [->|]; [done|]. apply Z.log2_lt_pow2; lia.
Qed.

Lemma seed_words_range n : forall x i, 0 <= x < 2 ^ 32 -> Forall (fun w => 0 <= w < 2 ^ 32) (seed_words n x i).
Proof.
  induction n as [|n IH]; intros x i Hx; cbn [seed_words]; [by apply Forall_singleton|].
  constructor; [done|]. apply IH, u32_range.
Qed.

Lemma twist_range state k : Forall (fun w => 0 <= w < 2 ^ 32) state -> 0 <= twist state k < 2 ^ 32.
Proof.
  intros Hs. assert (forall i, 0 <= nth i state 0 < 2 ^ 32) as Hn.
  { intros i. destruct (nth_in_or_default i state 0) as [Hin| ->]; [|lia]. rewrite Forall_forall in Hs. by apply Hs, list_elem_of_In. }
  unfold twist. cbv zeta. set (y := Z.lor _ _).
  assert (0 <= y < 2 ^ 32) as Hy by (apply lor_u32; apply land_u32; try apply Hn; lia).
  apply lxor_u32; [apply lxor_u32; [apply Hn|by apply shiftr_u32]|]. by destruct (Z.odd y).
Qed.

(** What is drawn has 32 bits, whatever the seed. *)
Lemma mt19937_first_range seed : 0 <= mt19937_first seed < 2 ^ 32.
Proof. apply temper_range, twist_range, seed_words_range, u32_range. Qed.

Lemma rnd_uint32_range {os} {RD : RandomDevice os} (s : os) : 0 <= (rnd_uint32 s).1 < 2 ^ 32.
Proof. unfold rnd_uint32. destruct (random_device s) as [seed s']. apply mt19937_first_range. Qed.
