(* ===== verification/UdpTracker.v ===== *)
(** * The UDP tracker client

    [src/udp_tracker_client.cpp], [src/udp_socket.cpp] and [src/random.cpp]: a UDP
    tracker is sent a connect request and, when it answers, an announce request; its
    answer lists peers.  The client has a reactor of its own, with itself as the only
    client. *)

From S2P Require Import Prelude Random ByteBuffer Messages MsgFactory Sockets Net NetReactor Storage.

(** The system calls for datagrams; [getaddrinfo] returns its error ([None]) or the
    addresses in order, [None] for those that are not IPv4; [sys_random_device] is a
    number of [std::random_device]. *)
Class UdpOS {Os : OS} := {
  sys_udp_socket : os -> Z * os;
  sys_sendto : Z -> bytes -> sockaddr -> os -> Z * os;
  sys_recvfrom : Z -> Z -> os -> option (bytes * sockaddr) * os;
  sys_random_device : os -> Z * os;
  sys_getaddrinfo : bytes -> os -> option (list (option sockaddr)) * os;
}.

#[export] Instance udp_random_device `{UdpOS} : RandomDevice os := sys_random_device.

(** ** Strings *)

(** [std::stoi] *)
Definition stoi (s : bytes) : result Z :=
  match signed_digits s with
  | ([], _) => Fault InvalidArgument
  | (_, n) => if (- 2 ^ 31 <=? n) && (n <? 2 ^ 31) then Ok n else Fault OutOfRange
  end.

(** [std::string::substr] with a position inside the string. *)
Definition substr (s : bytes) (pos count : nat) : bytes := take count (drop pos s).

Section UdpTracker.
Context {BB : ByteBuffer} {PE : PastEnd} {Os : OS} {Udp : UdpOS}.

(** [src/udp_socket.cpp:12-21] udp_socket::udp_socket *)
Definition udp_socket_create (s : os) : result (Z * os) :=
  let '(fd, s) := sys_udp_socket s in
  if fd =? -1 then Fault RuntimeError else Ok (fd, s).

(** [src/udp_socket.cpp:31-40] udp_socket::sendto *)
Definition udp_socket_sendto (fd : Z) (buffer : buf) (ep : sockaddr) (s : os) : Z * buf * os :=
  let '(res, s) := sys_sendto fd (bb_readable buffer) ep s in
  (res, if 0 <? res then bb_inc_read buffer res else buffer, s).

(** [src/udp_socket.cpp:42-52] udp_socket::recvfrom
    The sender's address is not used by the caller. *)
Definition udp_socket_recvfrom (fd : Z) (buffer : buf) (s : os) : Z * buf * os :=
  let '(res, s) := sys_recvfrom fd (bb_write_available buffer) s in
  match res with
  | None => (-1, buffer, s)
  | Some (l, _) =>
      let n := Z.of_nat (length l) in
      (n, if 0 <? n then bb_fill buffer l else buffer, s)
  end.

(** [src/udp_socket.cpp:54-58] udp_socket::close *)
Definition udp_socket_close (fd : Z) (s : os) : Z * os := (-1, sys_close fd s).

(** [src/udp_socket.cpp:23-29] udp_socket::~udp_socket *)
Definition udp_socket_destroy (fd : Z) (s : os) : os :=
  if negb (fd =? -1) then (udp_socket_close fd s).2 else s.

(** [include/udp_tracker_client.hpp:29-46] udp_tracker_client
    With the event mask of its base class and the operating system. *)
Record udp_tracker_client := mk_udp_tracker_client {
  ut_buffer_ : buf;
  current_tracker_ep_ : sockaddr;
  ut_reactor_ : net_reactor;
  received_peers_ : list peer_info;
  ut_socket_ : Z;
  current_transaction_id_ : Z;
  ut_events_ : Z;
  ut_os_ : os;
}.

(** The parameters of the constructor that never change. *)
Variable ti : torrent_info.
Variable local_peer_id : bytes.
Variable local_port : Z.
Implicit Types u : udp_tracker_client.

Definition ut_set_buffer (b : buf) u :=
  mk_udp_tracker_client b (current_tracker_ep_ u) (ut_reactor_ u) (received_peers_ u) (ut_socket_ u)
    (current_transaction_id_ u) (ut_events_ u) (ut_os_ u).
Definition ut_set_ep (ep : sockaddr) u :=
  mk_udp_tracker_client (ut_buffer_ u) ep (ut_reactor_ u) (received_peers_ u) (ut_socket_ u)
    (current_transaction_id_ u) (ut_events_ u) (ut_os_ u).
Definition ut_set_reactor (r : net_reactor) u :=
  mk_udp_tracker_client (ut_buffer_ u) (current_tracker_ep_ u) r (received_peers_ u) (ut_socket_ u)
    (current_transaction_id_ u) (ut_events_ u) (ut_os_ u).
Definition ut_set_peers (l : list peer_info) u :=
  mk_udp_tracker_client (ut_buffer_ u) (current_tracker_ep_ u) (ut_reactor_ u) l (ut_socket_ u)
    (current_transaction_id_ u) (ut_events_ u) (ut_os_ u).
Definition ut_set_transaction (t : Z) u :=
  mk_udp_tracker_client (ut_buffer_ u) (current_tracker_ep_ u) (ut_reactor_ u) (received_peers_ u) (ut_socket_ u)
    t (ut_events_ u) (ut_os_ u).
Definition ut_set_events (e : Z) u :=
  mk_udp_tracker_client (ut_buffer_ u) (current_tracker_ep_ u) (ut_reactor_ u) (received_peers_ u) (ut_socket_ u)
    (current_transaction_id_ u) e (ut_os_ u).
Definition ut_set_os (s : os) u :=
  mk_udp_tracker_client (ut_buffer_ u) (current_tracker_ep_ u) (ut_reactor_ u) (received_peers_ u) (ut_socket_ u)
    (current_transaction_id_ u) (ut_events_ u) s.

#[export] Instance udp_reactor_world : ReactorWorld udp_tracker_client := {|
  rw_reactor := ut_reactor_;
  rw_set_reactor := ut_set_reactor;
  rw_os := ut_os_;
  rw_set_os := ut_set_os;
  rw_fd _ u := ut_socket_ u;
  rw_get_events _ u := ut_events_ u;
  rw_set_events _ e u := ut_set_events e u;
|}.

#[export] Instance udp_reactor_world_laws : ReactorWorldLaws udp_tracker_client udp_reactor_world.
Proof. by split. Qed.

(** [src/udp_tracker_client.cpp:82-85] udp_tracker_client::read
    The peer has this address, compared as text, and port. *)
Definition same_endpoint (peer_ip : bytes) (peer_port : Z) (p : peer_info) : bool :=
  bool_decide (saddr_to_str (sin_addr (endpoint_ p)) = peer_ip) && (sin_port (endpoint_ p) =? peer_port).

(** [src/udp_tracker_client.cpp:82-90] udp_tracker_client::read *)
Definition add_peer (id peer_ip : bytes) (port : Z) (peers : list peer_info) : result (list peer_info) :=
  if existsb (same_endpoint peer_ip port) peers then Ok peers
  else p ← peer_info_create id peer_ip port; Ok (peers ++ [p]).

(** [src/udp_tracker_client.cpp:74-91] udp_tracker_client::read
    Every turn takes six bytes from the buffer. *)
Fixpoint peers_loop (fuel : nat) (b : buf) (peers : list peer_info) : result (buf * list peer_info) :=
  if 6 <=? bb_available b then
    match fuel with
    | O => Fault OutOfFuel
    | S fuel' =>
        let '(ipaddr, b) := bb_read_32 b in
        let '(port, b) := bb_read_16 b in
        peers ← add_peer [] (saddr_to_str ipaddr) port peers;
        peers_loop fuel' b peers
    end
  else Ok (b, peers).

(** [src/udp_tracker_client.cpp:53-66] udp_tracker_client::read
    The answer to the connect request. *)
Definition on_connect_response (b : buf) u : udp_tracker_client :=
  let '(connection_id, b) := bb_read_64 b in
  let '(key, s) := rnd_uint32 (ut_os_ u) in
  let '(transaction_id, s) := rnd_transaction_id s in
  let u := ut_set_transaction transaction_id (ut_set_os s u) in
  let b := msg_factory_announce (bb_reset b) connection_id transaction_id (to_hex (ti_info_hash ti))
             local_peer_id (ti_total_size ti) key local_port in
  let '(_, b, s) := udp_socket_sendto (ut_socket_ u) b (current_tracker_ep_ u) (ut_os_ u) in
  ut_set_os s (ut_set_buffer b u).

(** [src/udp_tracker_client.cpp:67-92] udp_tracker_client::read
    The answer to the announce request. *)
Definition on_announce_response (b : buf) u : result udp_tracker_client :=
  let b := (bb_read_32 b).2 in
  let b := (bb_read_32 b).2 in
  let b := (bb_read_32 b).2 in
  '(b, peers) ← peers_loop (length (bb_readable b)) b (received_peers_ u);
  Ok (ut_set_peers peers (ut_set_buffer b u)).

(** [src/udp_tracker_client.cpp:41-98] udp_tracker_client::read *)
Definition udp_tracker_client_read u : result udp_tracker_client :=
  let '(res, b, s) := udp_socket_recvfrom (ut_socket_ u) (bb_reset (ut_buffer_ u)) (ut_os_ u) in
  let u := ut_set_os s (ut_set_buffer b u) in
  if 0 <? res then
    let '(action, b) := bb_read_32 b in
    let '(transaction_id, b) := bb_read_32 b in
    let u := ut_set_buffer b u in
    if (transaction_id =? current_transaction_id_ u) && (action =? 0) then Ok (on_connect_response b u)
    else if (transaction_id =? current_transaction_id_ u) && (action =? 1) then on_announce_response b u
    else Ok u
  else Ok u.

(** [src/udp_tracker_client.cpp:100-102] udp_tracker_client::write *)
Definition udp_tracker_client_write u : result udp_tracker_client := Ok u.

#[export] Instance udp_reactor_client : inet_reactor_client udp_tracker_client := {|
  irc_read _ := udp_tracker_client_read;
  irc_write _ := udp_tracker_client_write;
|}.

(** [src/udp_tracker_client.cpp:153] udp_tracker_client::announce
    [while(reactor_.poll() > 0);] *)
Fixpoint poll_loop (fuel : nat) u : result udp_tracker_client :=
  match fuel with
  | O => Fault OutOfFuel
  | S fuel' =>
      '(n, u) ← net_reactor_poll u;
      if 0 <? (n : Z) then poll_loop fuel' u else Ok u
  end.

(** [src/udp_tracker_client.cpp:139-160] udp_tracker_client::announce
    The connect request to every IPv4 address. *)
Fixpoint connect_all (fuel : nat) (peer_port : bytes) (addrs : list (option sockaddr)) u : result udp_tracker_client :=
  match addrs with
  | [] => Ok u
  | None :: addrs' => connect_all fuel peer_port addrs' u
  | Some a :: addrs' =>
      port ← stoi peer_port;
      let u := ut_set_ep (mk_sockaddr (sin_addr a) (u16 port)) u in
      let '(tid, s) := rnd_transaction_id (ut_os_ u) in
      let u := ut_set_transaction tid (ut_set_os s u) in
      let b := msg_factory_connect (bb_reset (ut_buffer_ u)) tid in
      let '(res, b, s) := udp_socket_sendto (ut_socket_ u) b (current_tracker_ep_ u) (ut_os_ u) in
      let u := ut_set_os s (ut_set_buffer b u) in
      u ← (if 0 <? res then poll_loop fuel u else Ok u);
      connect_all fuel peer_port addrs' u
  end.

(** [src/udp_tracker_client.cpp:104-117] udp_tracker_client::announce
    The host name and the port in the URL of a tracker. *)
Definition parse_udp_url (url : bytes) : option (bytes * bytes) :=
  match find_str (bytes_of_string "udp://") url with
  | None => None
  | Some it =>
      let rest := drop (it + 6) url in
      match find_str [58] rest, find_str [47] rest with
      | Some peername_delim, Some port_delim =>
          let count := u64 (Z.of_nat port_delim - Z.of_nat peername_delim - 1) in
          Some (substr rest 0 peername_delim,
                substr rest (peername_delim + 1) (Z.to_nat (Z.min count (Z.of_nat (length rest)))))
      | _, _ => None
      end
  end.

(** [src/udp_tracker_client.cpp:104-166] udp_tracker_client::announce *)
Definition udp_tracker_client_announce (fuel : nat) (url : bytes) u : result (bool * udp_tracker_client) :=
  let has_peers u := negb (bool_decide (received_peers_ u = [])) in
  match parse_udp_url url with
  | None => Ok (has_peers u, u)
  | Some (peername, peer_port) =>
      let '(addrs, s) := sys_getaddrinfo peername (ut_os_ u) in
      let u := ut_set_os s u in
      match addrs with
      | None => Ok (false, u)
      | Some addrs => u ← connect_all fuel peer_port addrs u; Ok (has_peers u, u)
      end
  end.

(** [src/udp_tracker_client.cpp:16-34] udp_tracker_client::udp_tracker_client
    [efd] is the descriptor of its reactor. *)
Definition udp_tracker_client_create (efd : Z) (peers : list peer_info) (s : os) : result udp_tracker_client :=
  '(fd, s) ← udp_socket_create s;
  let u := mk_udp_tracker_client (bb_sized 2048) (mk_sockaddr 0 0) (net_reactor_create efd 200) peers fd 0 0 s in
  Ok (net_reactor_reg 0 EPOLLIN u).2.

(** [src/udp_tracker_client.cpp:36-39] udp_tracker_client::~udp_tracker_client *)
Definition udp_tracker_client_destroy u : os :=
  let u := (net_reactor_unreg 0 0 u).2 in udp_socket_destroy (ut_socket_ u) (ut_os_ u).
End UdpTracker.

(** ** The peers of an announce response *)

Definition endpoint_ok (e : sockaddr) : Prop := 0 <= sin_addr e < 2 ^ 32 /\ 0 <= sin_port e < 2 ^ 16.

(** Six bytes: the address and the port. *)
Definition peer_entry (e : sockaddr) : bytes := be 4 (sin_addr e) ++ be 2 (sin_port e).

(** The endpoints of [es] that are new, behind those that are known, each once and in
    the order of the response. *)
Definition add_new (known : list sockaddr) (e : sockaddr) : list sockaddr :=
  if bool_decide (e ∈ known) then known else known ++ [e].
Definition add_all (known es : list sockaddr) : list sockaddr := foldl add_new known es.

Lemma add_all_spec es : forall known, NoDup known ->
  NoDup (add_all known es) /\ (forall e, e ∈ add_all known es <-> e ∈ known \/ e ∈ es) /\
  known `prefix_of` add_all known es.
Proof.
  induction es as [|e es IH]; intros known Hnd; simpl; [split_and!; [done|set_solver|done]|].
  unfold add_all. simpl. fold (add_all (add_new known e) es). unfold add_new. case_bool_decide as He.
  - destruct (IH known Hnd) as (H1 & H2 & H3). split_and!; [done| |done].
    intros x. rewrite H2. set_solver.
  - destruct (IH (known ++ [e])) as (H1 & H2 & H3).
    { apply NoDup_app. split_and!; [done| |apply NoDup_singleton]. set_solver. }
    split_and!; [done|intros x; rewrite H2; set_solver|]. etrans; [by apply prefix_app_r|done].
Qed.

Lemma saddr_to_str_inj a b : 0 <= a < 2 ^ 32 -> 0 <= b < 2 ^ 32 -> saddr_to_str a = saddr_to_str b -> a = b.
Proof.
  intros Ha Hb E. pose proof (inet_pton_ntop a Ha) as H. unfold saddr_to_str in E.
  rewrite E, inet_pton_ntop in H by done. congruence.
Qed.

Section Peers.
Context {BB : ByteBuffer} {BL : ByteBufferLaws BB}.

Lemma known_endpoint e peers : endpoint_ok e -> Forall endpoint_ok (map endpoint_ peers) ->
  existsb (same_endpoint (saddr_to_str (sin_addr e)) (sin_port e)) peers = bool_decide (e ∈ map endpoint_ peers).
Proof.
  intros [Ha Hp]. induction peers as [|p peers IH]; intros Hok; simpl; [done|].
  apply Forall_cons in Hok as [[Hpa Hpp] Hok]. rewrite IH by done. unfold same_endpoint.
  apply eq_bool_prop_intro. rewrite orb_True, andb_True, !bool_decide_spec, Is_true_true, Z.eqb_eq, elem_of_cons.
  split.
  - intros [[E1 E2]|H]; [left|by right]. apply saddr_to_str_inj in E1; [|done|done].
    destruct e, (endpoint_ p). simpl in *. congruence.
  - intros [->|H]; [by left|by right].
Qed.

Lemma add_peer_new id e peers : endpoint_ok e -> Forall endpoint_ok (map endpoint_ peers) ->
  exists peers', add_peer id (saddr_to_str (sin_addr e)) (sin_port e) peers = Ok peers' /\
    map endpoint_ peers' = add_new (map endpoint_ peers) e /\
    (forall p, p ∈ peers' -> p ∈ peers \/ peer_id_ p = id).
Proof.
  intros He Hok. unfold add_peer, add_new. rewrite known_endpoint by done.
  case_bool_decide; [exists peers; split_and!; [done|done|intros; by left]|].
  unfold peer_info_create, endpoint_create. unfold saddr_to_str. destruct He as [Ha Hp].
  rewrite inet_pton_ntop by done. simpl. eexists. split; [done|]. rewrite map_app. simpl.
  split; [by destruct e|]. intros p [?|Hin%list_elem_of_singleton]%elem_of_app; [by left|right].
  by subst.
Qed.

Lemma peers_loop_spec es rest : forall fuel b peers,
  (length es <= fuel)%nat -> (length rest < 6)%nat ->
  bb_readable b = concat (map peer_entry es) ++ rest ->
  Forall endpoint_ok es -> Forall endpoint_ok (map endpoint_ peers) ->
  exists b' peers', peers_loop fuel b peers = Ok (b', peers') /\ bb_readable b' = rest /\
    map endpoint_ peers' = add_all (map endpoint_ peers) es /\
    (forall p, p ∈ peers' -> p ∈ peers \/ peer_id_ p = []).
Proof.
  induction es as [|e es IH]; intros fuel b peers Hf Hr Hb Hes Hok.
  - exists b, peers. simpl in Hb. split_and!; [|done|done|intros; by left].
    destruct fuel; simpl; unfold bb_available; rewrite Hb; (rewrite (proj2 (Z.leb_gt _ _)) by lia); done.
  - apply Forall_cons in Hes as [He Hes]. destruct fuel as [|fuel]; [simpl in Hf; lia|].
    cbn [map concat] in Hb. unfold peer_entry at 1 in Hb. rewrite <- !app_assoc in Hb.
    cbn [peers_loop]. unfold bb_available. rewrite Hb, !length_app, !length_be.
    rewrite (proj2 (Z.leb_le _ _)) by lia.
    destruct (read_32_be b _ _ Hb (proj1 He)) as [E1 Hb1]. destruct (bb_read_32 b) as [ip b1].
    simpl in E1, Hb1. subst ip.
    destruct (read_16_value b1 (be 2 (sin_port e)) _ Hb1 (length_be 2 _)) as [E2 Hb2]. destruct (bb_read_16 b1) as [port b2].
    cbn [fst snd] in E2, Hb2. rewrite unbe_be_small in E2 by (destruct He; lia). subst port.
    destruct (add_peer_new [] e peers He Hok) as (peers1 & -> & Hp1 & Hid1). cbn [mbind result_bind].
    assert (Forall endpoint_ok (map endpoint_ peers1)) as Hok1.
    { rewrite Hp1. unfold add_new. case_bool_decide; [done|]. apply Forall_app. split; [done|]. by constructor. }
    destruct (IH fuel b2 peers1 ltac:(simpl in Hf; lia) Hr Hb2 Hes Hok1) as (b' & peers' & -> & Hb' & Hp & Hid).
    exists b', peers'. split_and!; [done|done|by rewrite Hp, Hp1|].
    intros p Hin. destruct (Hid p Hin) as [?|?]; [by apply Hid1|by right].
Qed.
End Peers.

(** ** Datagrams *)
Section Datagrams.
Context {BB : ByteBuffer} {BL : ByteBufferLaws BB} {PE : PastEnd} {Os : OS} {Udp : UdpOS}.
Variable ti : torrent_info.
Variable local_peer_id : bytes.
Variable local_port : Z.
Implicit Types u : udp_tracker_client.

(** A datagram with these bytes is waiting, and it fits into the buffer. *)
Definition receives (d : bytes) (s : os) u : Prop :=
  (exists src, sys_recvfrom (ut_socket_ u) (bb_write_available (bb_reset (ut_buffer_ u))) (ut_os_ u) = (Some (d, src), s)) /\
  Z.of_nat (length d) <= bb_write_available (bb_reset (ut_buffer_ u)).

(** [read] takes the action and the transaction id off the datagram. *)
Lemma read_datagram action tid d s u : receives (be 4 action ++ be 4 tid ++ d) s u ->
  0 <= action < 2 ^ 32 -> 0 <= tid < 2 ^ 32 ->
  exists b, bb_readable b = d /\
    let u' := ut_set_buffer b (ut_set_os s u) in
    udp_tracker_client_read ti local_peer_id local_port u =
    if (tid =? current_transaction_id_ u) && (action =? 0)
    then Ok (on_connect_response ti local_peer_id local_port b u')
    else if (tid =? current_transaction_id_ u) && (action =? 1) then on_announce_response b u'
    else Ok u'.
Proof.
  intros [[src Hr] Hfit] Ha Ht. unfold udp_tracker_client_read, udp_socket_recvfrom. rewrite Hr.
  assert (0 < Z.of_nat (length (be 4 action ++ be 4 tid ++ d))) as Hpos by (rewrite length_app, length_be; lia).
  rewrite (proj2 (Z.ltb_lt 0 _)) by done.
  set (b0 := bb_fill _ _).
  assert (bb_readable b0 = be 4 action ++ be 4 tid ++ d) as Hb0
    by (unfold b0; rewrite fill_readable, reset_readable by done; done).
  destruct (read_32_be b0 _ _ Hb0 Ha) as [E1 Hb1]. destruct (bb_read_32 b0) as [x1 b1].
  cbn [fst snd] in E1, Hb1. subst x1.
  destruct (read_32_be b1 _ _ Hb1 Ht) as [E2 Hb2]. destruct (bb_read_32 b1) as [x2 b2].
  cbn [fst snd] in E2, Hb2. subst x2. exists b2. split; [done|]. done.
Qed.

Lemma skip_32 b h m : length h = 4%nat -> bb_readable b = h ++ m -> bb_readable (bb_read_32 b).2 = m.
Proof. intros Hh Hb. by apply (read_32_value b h m). Qed.

(** An answer to the current announce request adds the endpoints it lists that are not
    known yet, each once, in their order; up to five odd bytes at its end are ignored. *)
Theorem udp_announce_peers h1 h2 h3 es rest s u :
  length h1 = 4%nat -> length h2 = 4%nat -> length h3 = 4%nat -> (length rest < 6)%nat ->
  Forall endpoint_ok es -> Forall endpoint_ok (map endpoint_ (received_peers_ u)) ->
  0 <= current_transaction_id_ u < 2 ^ 32 ->
  receives (be 4 1 ++ be 4 (current_transaction_id_ u) ++ h1 ++ h2 ++ h3 ++ concat (map peer_entry es) ++ rest) s u ->
  exists u', udp_tracker_client_read ti local_peer_id local_port u = Ok u' /\
    map endpoint_ (received_peers_ u') = add_all (map endpoint_ (received_peers_ u)) es /\
    (forall p, p ∈ received_peers_ u' -> p ∈ received_peers_ u \/ peer_id_ p = []).
Proof.
  intros H1 H2 H3 Hrest Hes Hok Ht Hr.
  destruct (read_datagram 1 _ _ s u Hr ltac:(lia) Ht) as (b & Hb & ->).
  rewrite Z.eqb_refl. cbn [andb Z.eqb]. unfold on_announce_response.
  pose proof (skip_32 b h1 _ H1 Hb) as Hb1. pose proof (skip_32 _ h2 _ H2 Hb1) as Hb2.
  pose proof (skip_32 _ h3 _ H3 Hb2) as Hb3.
  set (b3 := (bb_read_32 (bb_read_32 (bb_read_32 b).2).2).2) in *.
  destruct (peers_loop_spec es rest (length (bb_readable b3)) b3 (received_peers_ u)) as (b' & peers' & Hl & _ & Hp & Hid);
    [|done|done|done|done|].
  { rewrite Hb3, length_app. clear. induction es as [|e es IH]; [simpl; lia|].
    cbn [map concat length]. unfold peer_entry at 1. rewrite !length_app, !length_be. lia. }
  cbn [received_peers_ ut_set_buffer ut_set_os]. rewrite Hl. cbn [mbind result_bind].
  eexists. split; [done|]. done.
Qed.

(** A datagram with another transaction id changes neither the peers nor the
    transaction. *)
Theorem udp_wrong_transaction action tid d s u :
  receives (be 4 action ++ be 4 tid ++ d) s u -> 0 <= action < 2 ^ 32 -> 0 <= tid < 2 ^ 32 ->
  tid <> current_transaction_id_ u ->
  exists u', udp_tracker_client_read ti local_peer_id local_port u = Ok u' /\
    received_peers_ u' = received_peers_ u /\ current_transaction_id_ u' = current_transaction_id_ u /\
    ut_os_ u' = s.
Proof.
  intros Hr Ha Ht Hne. destruct (read_datagram action tid d s u Hr Ha Ht) as (b & _ & ->).
  rewrite (proj2 (Z.eqb_neq _ _) Hne). by eexists.
Qed.

(** The announce request of the UDP tracker protocol: 98 bytes. *)
Definition announce_bytes (connection_id tid left key port : Z) (peer_id : bytes) : bytes :=
  be 8 connection_id ++ be 4 1 ++ be 4 tid ++ ti_info_hash ti ++ peer_id ++
  be 8 0 ++ be 8 left ++ be 8 0 ++ be 4 0 ++ be 4 0 ++ be 4 key ++ be 4 (2 ^ 32 - 1) ++ be 2 port.

(** The answer to a connect request is followed by an announce request to the tracker
    with its connection id, a fresh transaction id, which becomes the current one, and
    the fields where the protocol has them. *)
Theorem udp_connect_announces connection_id s key s1 tid s2 u :
  length local_peer_id = 20%nat -> length (ti_info_hash ti) = 20%nat -> bytes_ok (ti_info_hash ti) ->
  0 <= connection_id < 2 ^ 64 -> 0 <= current_transaction_id_ u < 2 ^ 32 ->
  receives (be 4 0 ++ be 4 (current_transaction_id_ u) ++ be 8 connection_id) s u ->
  rnd_uint32 s = (key, s1) -> rnd_transaction_id s1 = (tid, s2) ->
  exists u', udp_tracker_client_read ti local_peer_id local_port u = Ok u' /\
    current_transaction_id_ u' = tid /\ received_peers_ u' = received_peers_ u /\
    ut_os_ u' = (sys_sendto (ut_socket_ u)
      (announce_bytes connection_id tid (ti_total_size ti) key local_port local_peer_id)
      (current_tracker_ep_ u) s2).2.
Proof.
  intros Hp Hh Hhok Hc Ht Hr Hs1 Hs2.
  destruct (read_datagram 0 _ _ s u Hr ltac:(lia) Ht) as (b & Hb & ->).
  rewrite Z.eqb_refl. cbn [andb Z.eqb]. unfold on_connect_response.
  rewrite <- (app_nil_r (be 8 connection_id)) in Hb.
  destruct (read_64_value b _ _ Hb (length_be 8 _)) as [Ec _]. destruct (bb_read_64 b) as [cid b'].
  cbn [fst] in Ec. rewrite unbe_be_small in Ec by lia. subst cid.
  cbn [ut_os_ ut_set_buffer ut_set_os]. rewrite Hs1, Hs2.
  unfold udp_socket_sendto. cbn [ut_socket_ ut_set_transaction ut_set_os ut_set_buffer ut_os_ current_tracker_ep_].
  assert (hex_str_to_byte_buff (to_hex (ti_info_hash ti)) = ti_info_hash ti) as Hx
    by (by apply hex_str_to_byte_buff_to_hex).
  rewrite announce_wire by (rewrite ?Hx; done). rewrite reset_readable, Hx. cbn [app].
  fold (announce_bytes connection_id tid (ti_total_size ti) key local_port local_peer_id).
  destruct (sys_sendto _ _ _ _) as [res s3]. eexists. by split_and!.
Qed.
End Datagrams.

(** ** Witnesses *)
Section UdpWitnesses.
Import ListBuffer.

#[local] Instance zero_bytes : PastEnd := fun _ _ => 0.

(** A system on which one datagram is always waiting; its state is the list of the
    datagrams sent. *)
Definition datagram_os : OS := {|
  os := list bytes;
  sys_socket s := (3, s);
  sys_close _ s := s;
  sys_set_nonblock _ _ s := (true, s);
  sys_bind _ _ s := (0, s);
  sys_connect _ _ s := (0, s);
  sys_so_error _ s := (Some 0, s);
  sys_read _ _ s := (None, s);
  sys_write _ _ s := (-1, s);
  sys_epoll_add _ _ s := (0, s);
  sys_epoll_mod _ _ s := (0, s);
  sys_epoll_del _ s := s;
  sys_epoll_wait _ _ s := (Some [], s);
  sys_now s := (0, s);
|}.

#[local] Existing Instance datagram_os.

(** No datagram sent. *)
Definition quiet : list bytes := [].

Definition say (l : bytes) (s : list bytes) : @os datagram_os := s ++ [l].

Definition datagram_udp (d : bytes) : UdpOS (Os := datagram_os) := {|
  sys_udp_socket s := (4, s);
  sys_sendto _ l _ s := (Z.of_nat (length l), say l s);
  sys_recvfrom _ _ s := (Some (d, mk_sockaddr 0 0), s);
  sys_random_device s := (77, s);
  sys_getaddrinfo _ s := (None, s);
|}.

Definition tracked : torrent_info := mk_torrent_info 4 1 4 [] (fun _ => []) (replicate 20 7) [].

(** A client that knows one peer and waits for an answer to transaction 5. *)
Definition asking : udp_tracker_client (Os := datagram_os) :=
  mk_udp_tracker_client (mk [] 2048) (mk_sockaddr 1 80) (net_reactor_create 9 200)
    [mk_peer_info [] (mk_sockaddr 10 20)] 4 5 1 quiet.

Definition peers_datagram : bytes :=
  be 4 1 ++ be 4 5 ++ [0; 0; 7; 8] ++ [0; 0; 0; 1] ++ [0; 0; 0; 2] ++
  concat (map peer_entry [mk_sockaddr 10 20; mk_sockaddr 11 21; mk_sockaddr 11 21]) ++ [9].

Lemma udp_announce_peers_witness :
  exists u', udp_tracker_client_read (Udp := datagram_udp peers_datagram) tracked [] 6881 asking = Ok u' /\
    map endpoint_ (received_peers_ u') = [mk_sockaddr 10 20; mk_sockaddr 11 21] /\
    (forall p, p ∈ received_peers_ u' -> p ∈ received_peers_ asking \/ peer_id_ p = []).
Proof.
  apply (udp_announce_peers (Udp := datagram_udp peers_datagram) tracked [] 6881
    [0; 0; 7; 8] [0; 0; 0; 1] [0; 0; 0; 2] [mk_sockaddr 10 20; mk_sockaddr 11 21; mk_sockaddr 11 21] [9] quiet asking).
  - done.
  - done.
  - done.
  - simpl. lia.
  - by repeat constructor.
  - by repeat constructor.
  - simpl. lia.
  - split; [by eexists|]. by vm_compute.
Defined.

Lemma udp_wrong_transaction_witness :
  exists u', udp_tracker_client_read (Udp := datagram_udp (be 4 1 ++ be 4 6)) tracked [] 6881 asking = Ok u' /\
    received_peers_ u' = received_peers_ asking /\ current_transaction_id_ u' = 5 /\ ut_os_ u' = quiet.
Proof.
  apply (udp_wrong_transaction (Udp := datagram_udp (be 4 1 ++ be 4 6)) tracked [] 6881 1 6 [] quiet asking);
    [|lia|lia|done]. split; [by eexists|]. by vm_compute.
Defined.

Lemma udp_connect_announces_witness :
  exists u', udp_tracker_client_read (Udp := datagram_udp (be 4 0 ++ be 4 5 ++ be 8 99)) tracked (replicate 20 65) 6881 asking = Ok u' /\
    current_transaction_id_ u' = mt19937_first 77 /\ received_peers_ u' = received_peers_ asking /\
    ut_os_ u' = (quiet ++ [announce_bytes tracked 99 (mt19937_first 77) 4 (mt19937_first 77) 6881 (replicate 20 65)])%list.
Proof.
  apply (udp_connect_announces (Udp := datagram_udp (be 4 0 ++ be 4 5 ++ be 8 99)) tracked (replicate 20 65) 6881 99 quiet (mt19937_first 77) quiet (mt19937_first 77) quiet asking).
  - done.
  - done.
  - decide_by_computation.
  - lia.
  - simpl. lia.
  - split; [by eexists|]. by vm_compute.
  - done.
  - done.
Defined.
End UdpWitnesses.
