(* ===== verification/TrackerClient.v ===== *)
(** * The tracker client

    [src/tracker_client.cpp], [src/http_client.cpp], [src/http_messages.cpp]: asking
    every tracker of the torrent for peers, over UDP or HTTP, and reading the peers of
    an HTTP response with the decoder of Bdecode.v.  The transfer itself ([curl]) is a
    parameter. *)

From S2P Require Import Prelude ByteBuffer Messages MsgFactory Sockets Net NetReactor Storage.
From S2P Require Import Bdecode BdecodeSpec BdecodeNodes Entry EntrySpec UdpTracker.

(** The transfer of one URL: whether it succeeded, the status code, the header lines
    and the body. *)
Class Http {Os : OS} := {
  http_perform : bytes -> os -> (bool * Z * list bytes * bytes) * os;
}.

(** [include/http_messages.hpp:13-17] http::status_code *)
Definition status_OK : Z := 200.
Definition status_MOVED_PERMANENTLY : Z := 301.

(** [include/http_messages.hpp:33-45] http::response
    The map has one possible key, LOCATION. *)
Record response := mk_response { status : Z; location_ : option bytes; body_ : bytes }.

(** [src/http_messages.cpp:19-22] http::response::field
    [at] throws if the key is missing. *)
Definition response_field (r : response) : result bytes :=
  match location_ r with Some l => Ok l | None => Fault OutOfRange end.

(** [src/http_messages.cpp:24-38] http::response::header_cb
    The count of [substr] is computed without sign. *)
Definition header_cb (location : option bytes) (field : bytes) : option bytes :=
  let location_match := bytes_of_string "Location: " in
  match find_str location_match field with
  | None => location
  | Some start =>
      let start := (start + length location_match)%nat in
      let count := u64 (Z.of_nat (length field) - Z.of_nat start - 2) in
      Some (substr field start (Z.to_nat (Z.min count (Z.of_nat (length field)))))
  end.

(** [src/tracker_client.cpp:83-87] percent_encode
    [i] is the position of the iterator in [result]. *)
Fixpoint percent_loop (fuel : nat) (num : nat) (separator : Z) (result : bytes) (i : nat) : bytes :=
  match fuel with
  | O => result
  | S fuel' =>
      if (num + 1 <=? length result - i)%nat then
        let i := (i + num)%nat in
        percent_loop fuel' num separator (take i result ++ [separator] ++ drop i result) (i + 1)
      else result
  end.

(** [src/tracker_client.cpp:78-90] percent_encode
    With the default arguments; [length result] turns are more than enough. *)
Definition percent_encode (hash : bytes) : bytes :=
  let result := 37 :: to_hex hash in percent_loop (length result) 2 37 result 1.

Section TrackerClient.
Context {BB : ByteBuffer} {PE : PastEnd} {Os : OS} {Udp : UdpOS} {Ht : Http}.

(** [src/http_client.cpp:16-43] http::client::get
    An exception of the transfer leaves the body empty. *)
Definition http_client_get (url : bytes) (s : os) : response * os :=
  let '(ok, code, headers, body, s) := http_perform url s in
  (mk_response code (foldl header_cb None headers) (if ok : bool then body else []), s).

(** [src/tracker_client.cpp:114-121] parse_peers
    Find the peer, and add it if it is not there. *)
Definition http_add_peer (id peer_ip : bytes) (port : Z) (peers : list peer_info) : result (list peer_info) :=
  if existsb (same_endpoint peer_ip (u16 port)) peers then Ok peers
  else p ← peer_info_create id peer_ip (u16 port); Ok (peers ++ [p]).

(** [src/tracker_client.cpp:125-138] parse_peers
    The loop over the list; [i] is the counter.  The elements have to be dictionaries,
    which nothing checks. *)
Fixpoint parse_peer_list (fuel : nat) (i : Z) (peer_list : bdecode_node) (peers : list peer_info) : result (list peer_info) :=
  '(size, peer_list) ← list_size peer_list;
  if i <? size then
    '(peer_dict, peer_list) ← list_at i peer_list;
    id ← dict_find_string_value (bytes_of_string "peer id") [] peer_dict;
    peer_ip ← dict_find_string_value (bytes_of_string "ip") [] peer_dict;
    peer_port ← dict_find_int_value (bytes_of_string "port") 0 peer_dict;
    peers ← http_add_peer id peer_ip peer_port peers;
    match fuel with
    | O => Fault OutOfFuel
    | S fuel' => parse_peer_list fuel' (i + 1) peer_list peers
    end
  else Ok peers.

(** [src/tracker_client.cpp:143-154] parse_peers
    [n] turns are left; the offset is [offset].  The loads do not check that six bytes
    are there. *)
Fixpoint parse_peer_string (n : nat) (offset : nat) (peer_string : bytes) (peers : list peer_info) :
    result (list peer_info) :=
  match n with
  | O => Ok peers
  | S n' =>
      let peer_ip := saddr_to_str (unbe (span peer_string offset 4)) in
      let peer_port := unbe (span peer_string (offset + 4) 2) in
      peers ← http_add_peer [] peer_ip peer_port peers;
      parse_peer_string n' (offset + 6) peer_string peers
  end.

(** The number of turns of [for(offset = 0; offset < size; offset += 6)]. *)
Definition peer_string_turns (size : nat) : nat := ((size + 5) / 6)%nat.

(** [src/tracker_client.cpp:92-158] parse_peers
    A list has fewer items than there are tokens. *)
Definition parse_peers (peers : list peer_info) (tracker_rsp : bytes) : result (list peer_info) :=
  '(decoded, error, _) ← bdecode_default tracker_rsp;
  if negb (bool_decide (error = no_error)) then Ok peers
  else
    peer_list ← dict_find_list (bytes_of_string "peers") decoded;
    peer_string_node ← dict_find_string (bytes_of_string "peers") decoded;
    list_type ← node_type_of peer_list;
    string_type ← node_type_of peer_string_node;
    if negb (bool_decide (list_type = list_t)) && negb (bool_decide (string_type = string_t)) then Ok peers
    else if bool_decide (list_type = list_t) then
      parse_peer_list (length (m_root_tokens peer_list)) 0 peer_list peers
    else if bool_decide (string_type = string_t) then
      peer_string ← string_value peer_string_node;
      parse_peer_string (peer_string_turns (length peer_string)) 0 peer_string peers
    else Ok peers.

Variable ti : torrent_info.

(** [src/tracker_client.cpp:54-57] tracker_client::announce *)
Definition announce_url (tracker peer_id : bytes) (port : Z) : bytes :=
  tracker ++ bytes_of_string "?info_hash=" ++ percent_encode (ti_info_hash ti) ++
  bytes_of_string "&peer_id=" ++ peer_id ++ bytes_of_string "&port=" ++ decimal_Z port ++
  bytes_of_string "&downloaded=0&uploaded=0&left=" ++ decimal_Z (ti_total_size ti) ++
  bytes_of_string "&event=started".

(** [src/tracker_client.cpp:54-69] tracker_client::announce
    One HTTP tracker. *)
Definition announce_http (tracker peer_id : bytes) (port : Z) (u : udp_tracker_client) : result udp_tracker_client :=
  let '(resp, s) := http_client_get (announce_url tracker peer_id port) (ut_os_ u) in
  '(resp, s) ← (if status resp =? status_MOVED_PERMANENTLY
                then url ← response_field resp; Ok (http_client_get url s)
                else Ok (resp, s));
  let u := ut_set_os s u in
  if status (resp : response) =? status_OK then
    peers ← parse_peers (received_peers_ u) (body_ resp); Ok (ut_set_peers peers u)
  else Ok u.

(** [src/tracker_client.cpp:46-71] tracker_client::announce
    [fuel] bounds the polling of each UDP tracker. *)
Fixpoint announce_loop (fuel : nat) (trackers : list bytes) (peer_id : bytes) (port : Z)
    (u : udp_tracker_client) : result udp_tracker_client :=
  match trackers with
  | [] => Ok u
  | tracker :: trackers' =>
      u ← (match find_str (bytes_of_string "udp") tracker with
           | Some _ => snd <$> udp_tracker_client_announce ti peer_id port fuel tracker u
           | None => announce_http tracker peer_id port u
           end);
      announce_loop fuel trackers' peer_id port u
  end.

(** [src/tracker_client.cpp:32-74] tracker_client::announce
    [efd] is the descriptor of the UDP client's reactor. *)
Definition tracker_client_announce (fuel : nat) (efd port : Z) (peer_id : bytes) (received_peers : list peer_info)
    (s : os) : result (bool * list peer_info * os) :=
  match ti_trackers ti with
  | [] => Ok (false, received_peers, s)
  | trackers =>
      u ← udp_tracker_client_create efd [] s;
      u ← announce_loop fuel trackers peer_id port u;
      Ok (negb (bool_decide (received_peers_ u = [])), received_peers_ u, udp_tracker_client_destroy u)
  end.
End TrackerClient.

(** ** Percent encoding *)

Lemma to_hex_byte b l : to_hex (b :: l) = to_hex [b] ++ to_hex l.
Proof. done. Qed.

Lemma percent_loop_spec l : forall fuel p b, (length l <= fuel)%nat ->
  percent_loop fuel 2 37 (p ++ to_hex (b :: l)) (length p) =
  p ++ to_hex [b] ++ concat (map (fun b => 37 :: to_hex [b]) l).
Proof.
  induction l as [|c l IH]; intros fuel p b Hf.
  - destruct fuel; simpl; [done|]. rewrite length_app. simpl.
    replace (length p + 2 - length p)%nat with 2%nat by lia. done.
  - destruct fuel as [|fuel]; [simpl in Hf; lia|]. cbn [percent_loop].
    rewrite (proj2 (Nat.leb_le _ _)) by (rewrite length_app, length_to_hex; simpl; lia).
    replace (p ++ to_hex (b :: c :: l)) with ((p ++ to_hex [b]) ++ to_hex (c :: l)) by (by rewrite <- app_assoc).
    assert (length (p ++ to_hex [b]) = length p + 2)%nat as Hl by (rewrite length_app; done).
    rewrite <- Hl, take_app_length, drop_app_length.
    replace ((p ++ to_hex [b]) ++ [37] ++ to_hex (c :: l)) with
      (((p ++ to_hex [b]) ++ [37]) ++ to_hex (c :: l)) by (by rewrite <- app_assoc).
    replace (length (p ++ to_hex [b]) + 1)%nat with (length ((p ++ to_hex [b]) ++ [37]))
      by (rewrite (length_app (p ++ to_hex [b])); done).
    rewrite IH by (simpl in Hf; lia). cbn [map concat]. by rewrite <- !app_assoc.
Qed.

(** Every byte of the hash becomes a percent sign and its two hexadecimal digits. *)
Theorem percent_encode_spec b hash :
  percent_encode (b :: hash) = concat (map (fun b => 37 :: to_hex [b]) (b :: hash)).
Proof.
  unfold percent_encode. change (37 :: to_hex (b :: hash)) with ([37] ++ to_hex (b :: hash)) at 2.
  rewrite (percent_loop_spec hash _ [37] b); [done|]. cbn [length]. rewrite length_to_hex. simpl. lia.
Qed.

(** ** Redirections *)

Lemma find_str_here pat s : find_str pat (pat ++ s) = Some 0%nat.
Proof.
  assert (pat `prefix_of` pat ++ s) as H by (by exists s).
  by destruct (pat ++ s) as [|c r]; cbn [find_str]; rewrite bool_decide_true.
Qed.

(** The target of a redirection is the header's text without the line end. *)
Theorem header_cb_location old url : Z.of_nat (length url) < 2 ^ 63 ->
  header_cb old (bytes_of_string "Location: " ++ url ++ [13; 10]) = Some url.
Proof.
  intros Hl. unfold header_cb. rewrite find_str_here. f_equal. unfold substr.
  rewrite !length_app. change (length (bytes_of_string "Location: ")) with 10%nat.
  change (length [13; 10]) with 2%nat. rewrite u64_small by lia.
  replace (Z.to_nat _) with (length url) by lia.
  change (0 + 10)%nat with (length (bytes_of_string "Location: ")).
  rewrite drop_app_length. apply take_app_length.
Qed.

Section Announce.
Context {BB : ByteBuffer} {PE : PastEnd} {Os : OS} {Udp : UdpOS} {Ht : Http}.

(** A redirection without a Location header ends the announce with an exception. *)
Theorem redirect_without_location ti tracker peer_id port u headers body ok s :
  http_perform (announce_url ti tracker peer_id port) (ut_os_ u) =
    (ok, status_MOVED_PERMANENTLY, headers, body, s) ->
  Forall (fun h => find_str (bytes_of_string "Location: ") h = None) headers ->
  announce_http ti tracker peer_id port u = Fault OutOfRange.
Proof.
  intros Hp Hh. unfold announce_http, http_client_get. rewrite Hp. cbn [status].
  rewrite Z.eqb_refl. unfold response_field. cbn [location_].
  assert (foldl header_cb None headers = None) as ->; [|done].
  clear Hp. induction Hh as [|h headers Hn _ IH]; cbn [foldl]; [done|].
  assert (header_cb None h = None) as -> by (unfold header_cb; by rewrite Hn). done.
Qed.

(** ** Compact peer lists *)

Lemma span_entry e n l off : endpoint_ok e -> drop off l = peer_entry e ++ n ->
  unbe (span l off 4) = sin_addr e /\ unbe (span l (off + 4) 2) = sin_port e /\
  drop (off + 6) l = n /\ (off + 6 <= length l)%nat.
Proof.
  intros [Ha Hp] Hd.
  assert (length (drop off l) = 6 + length n)%nat as Hl
    by (rewrite Hd; unfold peer_entry; rewrite !length_app, !length_be; lia).
  rewrite length_drop in Hl. rewrite !span_in_range by lia.
  rewrite <- !drop_drop, Hd. unfold peer_entry. rewrite <- app_assoc.
  rewrite take_app_length' by (by rewrite length_be).
  rewrite (drop_app_length' (be 4 (sin_addr e))) by (by rewrite length_be).
  rewrite take_app_length' by (by rewrite length_be). rewrite !unbe_be_small by lia.
  split_and!; [done|done| |lia].
  rewrite app_assoc, drop_app_length'; [done|]. by rewrite length_app, !length_be.
Qed.

Lemma http_add_peer_new id e peers : endpoint_ok e -> Forall endpoint_ok (map endpoint_ peers) ->
  exists peers', http_add_peer id (saddr_to_str (sin_addr e)) (sin_port e) peers = Ok peers' /\
    map endpoint_ peers' = add_new (map endpoint_ peers) e.
Proof.
  intros He Hok. unfold http_add_peer. rewrite u16_small by (destruct He; lia).
  destruct (add_peer_new id e peers He Hok) as (peers' & H & Hm & _). by exists peers'.
Qed.

Lemma parse_peer_string_spec es : forall l off peers, Forall endpoint_ok es ->
  Forall endpoint_ok (map endpoint_ peers) -> drop off l = concat (map peer_entry es) ->
  exists peers', parse_peer_string (length es) off l peers = Ok peers' /\
    map endpoint_ peers' = add_all (map endpoint_ peers) es.
Proof.
  induction es as [|e es IH]; intros l off peers Hes Hok Hd; [by exists peers|].
  apply Forall_cons in Hes as [He Hes]. cbn [map concat] in Hd.
  destruct (span_entry e _ l off He Hd) as (H1 & H2 & H3 & _).
  cbn [length parse_peer_string]. rewrite H1, H2.
  destruct (http_add_peer_new [] e peers He Hok) as (peers1 & -> & Hp1). cbn [mbind result_bind].
  destruct (IH l (off + 6)%nat peers1 Hes) as (peers' & H & Hp); [|done|].
  { rewrite Hp1. unfold add_new. case_bool_decide; [done|]. apply Forall_app. split; [done|]. by constructor. }
  exists peers'. by rewrite Hp, Hp1.
Qed.

Lemma entries_length es : length (concat (map peer_entry es)) = (6 * length es)%nat.
Proof.
  induction es as [|e es IH]; [done|]. cbn [map concat length]. unfold peer_entry at 1.
  rewrite !length_app, !length_be, IH. lia.
Qed.

Lemma dict_find_string_value_denotes key n l : denotes n (BDict l) ->
  dict_find_string_value key [] n = Ok (match value_of key l with Some (BStr s) => s | _ => [] end).
Proof.
  intros Hn. unfold dict_find_string_value. destruct (dict_find_denotes n l key Hn) as (c & -> & Hc).
  cbn [mbind result_bind]. destruct (value_of key l) as [v|]; [|by subst c].
  rewrite (node_type_of_denotes c v Hc). cbn [mbind result_bind].
  destruct v as [z|s|l0|l0]; [by rewrite bool_decide_false| |by rewrite bool_decide_false..].
  rewrite bool_decide_true by done. apply (string_value_placed c (m_token_idx c)); [done|apply Hc].
Qed.

Lemma dict_find_int_value_denotes key n l : denotes n (BDict l) ->
  dict_find_int_value key 0 n = Ok (match value_of key l with Some (BInt z) => z | _ => 0 end).
Proof.
  intros Hn. unfold dict_find_int_value. destruct (dict_find_denotes n l key Hn) as (c & -> & Hc).
  cbn [mbind result_bind]. destruct (value_of key l) as [v|]; [|by subst c].
  rewrite (node_type_of_denotes c v Hc). cbn [mbind result_bind].
  destruct v as [z|s|l0|l0]; [|by rewrite bool_decide_false..].
  rewrite bool_decide_true by done. apply (int_value_placed c (m_token_idx c)); [done|apply Hc].
Qed.

(** ** What a response announces *)

(** The id, the address and the port a dictionary of the peer list gives. *)
Definition announced_peer (v : bvalue) : bytes * bytes * Z :=
  let l := match v with BDict l => l | _ => [] end in
  (match value_of (bytes_of_string "peer id") l with Some (BStr s) => s | _ => [] end,
   match value_of (bytes_of_string "ip") l with Some (BStr s) => s | _ => [] end,
   match value_of (bytes_of_string "port") l with Some (BInt z) => z | _ => 0 end).

(** The peers after those of the list. *)
Fixpoint add_announced (ps : list bvalue) (peers : list peer_info) : result (list peer_info) :=
  match ps with
  | [] => Ok peers
  | p :: ps' =>
      let '(id, ip, port) := announced_peer p in
      peers ← http_add_peer id ip port peers; add_announced ps' peers
  end.

(** The peers after a response whose value is a dictionary of these pairs. *)
Definition response_peers (l : list (bytes * bvalue)) (peers : list peer_info) : result (list peer_info) :=
  match value_of (bytes_of_string "peers") l with
  | Some (BList ps) => add_announced ps peers
  | Some (BStr s) => parse_peer_string (peer_string_turns (length s)) 0 s peers
  | _ => Ok peers
  end.

Definition is_dict (v : bvalue) : Prop := exists l, v = BDict l.

Lemma parse_peer_list_spec l : Forall is_dict l -> forall fuel i n peers, denotes n (BList l) ->
  (length l - i <= fuel)%nat -> (i <= length l)%nat ->
  parse_peer_list fuel (Z.of_nat i) n peers = add_announced (drop i l) peers.
Proof.
  intros Hd fuel. induction fuel as [|fuel IH]; intros i n peers Hn Hf Hi; cbn [parse_peer_list];
    destruct (list_size_denotes n l Hn) as (n1 & -> & Hn1); cbn [mbind result_bind].
  - rewrite (proj2 (Z.ltb_ge _ _)) by lia. by rewrite drop_ge by lia.
  - destruct (Z.ltb_spec (Z.of_nat i) (Z.of_nat (length l))) as [Hlt|Hge]; [|by rewrite drop_ge by lia].
    destruct (lookup_lt_is_Some_2 l i ltac:(lia)) as [x Hx].
    destruct (list_at_denotes n1 l i x Hn1 Hx) as (c & n2 & -> & Hc & Hn2). cbn [mbind result_bind].
    rewrite (drop_S _ _ _ Hx). cbn [add_announced]. unfold announced_peer.
    assert (is_dict x) as [l0 ->] by (eapply Forall_lookup_1; eauto).
    rewrite !(dict_find_string_value_denotes _ c l0 Hc), (dict_find_int_value_denotes _ c l0 Hc). cbn [mbind result_bind].
    destruct (http_add_peer _ _ _ peers) as [peers1|]; cbn [mbind result_bind]; [|done].
    replace (Z.of_nat i + 1) with (Z.of_nat (S i)) by lia. apply IH; [done|lia|lia].
Qed.

(** The bytes of a response that the decoder reads as the pairs [l]. *)
Record encodes (b : bytes) (l : list (bytes * bvalue)) : Prop := {
  enc_item : exists ts, item 0 b ts (BDict l) /\ Z.of_nat (length ts) <= 2000000;
  enc_depth : (depth (BDict l) < 100)%nat;
  enc_peers : forall ps, value_of (bytes_of_string "peers") l = Some (BList ps) -> Forall is_dict ps;
}.

Lemma parse_peers_encoded b r l peers : encodes b l -> Z.of_nat (length (b ++ r)) <= max_offset ->
  parse_peers peers (b ++ r) = response_peers l peers.
Proof.
  intros [(ts & Hi & Hts) Hdepth Hps] Hmax. unfold parse_peers, bdecode_default.
  rewrite (decode_item 100 2000000 b r ts (BDict l)) by done. cbn [mbind result_bind].
  rewrite bool_decide_true by done. cbn [negb].
  pose proof (root_denotes b r ts (BDict l) Hi Hmax) as Hn. set (n := root_node _ _ _) in *.
  destruct (dict_find_type_denotes n l list_t (bytes_of_string "peers") ltac:(done) Hn) as (c & Hf & Hc).
  destruct (dict_find_type_denotes n l string_t (bytes_of_string "peers") ltac:(done) Hn) as (c' & Hf' & Hc').
  unfold dict_find_list, dict_find_string. rewrite Hf, Hf'. cbn [mbind result_bind].
  unfold response_peers, typed_value_of in *. destruct (value_of _ l) as [v|]; cbn [mbind option_bind] in Hc, Hc'; [|by subst c c'].
  destruct v as [z|s|ps|l0]; cbn [value_type] in Hc, Hc'.
  - rewrite bool_decide_false in Hc, Hc' by done. by subst c c'.
  - rewrite bool_decide_false in Hc by done. rewrite bool_decide_true in Hc' by done. subst c.
    rewrite (node_type_of_denotes c' _ Hc'). cbn [mbind result_bind node_type_of node_none m_token_idx Z.eqb Pos.eqb].
    rewrite !bool_decide_false, !bool_decide_true by done. cbn [negb andb].
    destruct (string_value_placed c' _ s eq_refl (proj1 Hc')) as [-> _]. done.
  - rewrite bool_decide_true in Hc by done. rewrite bool_decide_false in Hc' by done. subst c'.
    rewrite (node_type_of_denotes c _ Hc). cbn [mbind result_bind node_type_of node_none m_token_idx Z.eqb Pos.eqb].
    rewrite !bool_decide_true by done. cbn [negb andb].
    destruct (placed_items_length _ _ _ (placed_list _ _ _ (proj1 Hc))) as [Hlow Hlen].
    apply (parse_peer_list_spec ps (Hps ps eq_refl) _ 0); [done|lia|lia].
  - rewrite bool_decide_false in Hc, Hc' by done. by subst c c'.
Qed.

(** *** The peers a response announces

    Each with its id and its address; a compact list has no ids, and in a dictionary the id
    may be left out. *)

Definition lists_peer (v : bvalue) (x : bytes * sockaddr) : Prop :=
  exists d, v = BDict d /\ value_of (bytes_of_string "ip") d = Some (BStr (saddr_to_str (sin_addr x.2))) /\
    value_of (bytes_of_string "port") d = Some (BInt (sin_port x.2)) /\
    x.1 = match value_of (bytes_of_string "peer id") d with Some (BStr s) => s | _ => [] end.

Definition announces (l : list (bytes * bvalue)) (xs : list (bytes * sockaddr)) : Prop :=
  match value_of (bytes_of_string "peers") l with
  | Some (BList ps) => Forall2 lists_peer ps xs
  | Some (BStr s) => s = concat (map (fun x => peer_entry x.2) xs) /\ Forall (fun x => x.1 = []) xs
  | _ => xs = []
  end.

(** The peers of an announce that are new are put behind those that are known. *)
Definition learn (peers : list peer_info) (x : bytes * sockaddr) : list peer_info :=
  if bool_decide (x.2 ∈ map endpoint_ peers) then peers else peers ++ [mk_peer_info x.1 x.2].

Definition address_ok (x : bytes * sockaddr) : Prop := endpoint_ok x.2.

Lemma learn_ok peers x : address_ok x -> Forall endpoint_ok (map endpoint_ peers) -> Forall endpoint_ok (map endpoint_ (learn peers x)).
Proof. intros Hx Hok. unfold learn. case_bool_decide; [done|]. rewrite map_app. apply Forall_app. split; [done|]. by apply Forall_singleton. Qed.

Lemma http_add_peer_learn x peers : address_ok x -> Forall endpoint_ok (map endpoint_ peers) ->
  http_add_peer x.1 (saddr_to_str (sin_addr x.2)) (sin_port x.2) peers = Ok (learn peers x).
Proof.
  intros Hx Hok. unfold http_add_peer, learn. rewrite u16_small by (destruct Hx; lia). rewrite known_endpoint by done.
  case_bool_decide; [done|]. unfold peer_info_create, endpoint_create, saddr_to_str. destruct Hx as [Ha Hp].
  rewrite inet_pton_ntop by done. simpl. by destruct x as [id []].
Qed.

Lemma add_announced_learn ps xs : Forall2 lists_peer ps xs -> Forall address_ok xs -> forall peers, Forall endpoint_ok (map endpoint_ peers) ->
  add_announced ps peers = Ok (foldl learn peers xs).
Proof.
  induction 1 as [|v x ps xs (d & -> & Hip & Hport & Hid) _ IH]; intros Hxs peers Hok; [done|]. apply Forall_cons in Hxs as [Hx Hxs].
  cbn [add_announced announced_peer foldl]. rewrite Hip, Hport, <- Hid, http_add_peer_learn by done. cbn [mbind result_bind]. apply IH; [done|by apply learn_ok].
Qed.

Lemma parse_peer_string_learn xs : Forall (fun x => x.1 = []) xs -> Forall address_ok xs -> forall l off peers,
  Forall endpoint_ok (map endpoint_ peers) -> drop off l = concat (map (fun x => peer_entry x.2) xs) ->
  parse_peer_string (length xs) off l peers = Ok (foldl learn peers xs).
Proof.
  induction 1 as [|x xs Hid _ IH]; intros Hxs l off peers Hok Hd; [done|]. apply Forall_cons in Hxs as [Hx Hxs]. cbn [map concat] in Hd.
  destruct (span_entry x.2 _ l off Hx Hd) as (H1 & H2 & H3 & _). cbn [length parse_peer_string foldl]. rewrite H1, H2, <- Hid, http_add_peer_learn by done.
  cbn [mbind result_bind]. apply IH; [done|by apply learn_ok|done].
Qed.

Lemma entry_turns (xs : list (bytes * sockaddr)) : peer_string_turns (length (concat (map (fun x => peer_entry x.2) xs))) = length xs.
Proof.
  assert (length (concat (map (fun x => peer_entry x.2) xs)) = (6 * length xs)%nat) as ->.
  { rewrite <- (length_map snd xs), <- entries_length. by rewrite map_map. }
  unfold peer_string_turns. replace (6 * length xs + 5)%nat with (5 + length xs * 6)%nat by lia. by rewrite Nat.div_add by lia.
Qed.

(** C24: A response whose value announces peers, as a list of dictionaries that each give an
    address in dotted notation and a port, or as a string of six bytes for each, the address and
    the port in network order, adds exactly those of them that are not known yet, each once, in
    order, behind the known ones, whose addresses have 32 bits and ports 16; one without peers
    changes nothing; and bytes after the value, within the decoder's limit, do not matter. *)
Theorem parse_peers_value b r l xs peers : encodes b l -> Z.of_nat (length (b ++ r)) <= max_offset ->
  announces l xs -> Forall address_ok xs -> Forall endpoint_ok (map endpoint_ peers) ->
  parse_peers peers (b ++ r) = Ok (foldl learn peers xs).
Proof.
  intros He Hmax Ha Hxs Hok. rewrite (parse_peers_encoded b r l peers He Hmax). unfold announces, response_peers in *.
  destruct (value_of _ l) as [[z|s|ps|d]|]; [by subst xs| | |by subst xs..].
  - destruct Ha as [-> Hids]. rewrite entry_turns. by apply parse_peer_string_learn.
  - by apply add_announced_learn.
Qed.

(** An HTTP response with a compact list of whole entries has the same effect as the
    same list in a UDP response: the new endpoints, each once, in order. *)
Theorem parse_peers_compact b r l es peers : encodes b l -> Z.of_nat (length (b ++ r)) <= max_offset ->
  value_of (bytes_of_string "peers") l = Some (BStr (concat (map peer_entry es))) ->
  Forall endpoint_ok es -> Forall endpoint_ok (map endpoint_ peers) ->
  exists peers', parse_peers peers (b ++ r) = Ok peers' /\
    map endpoint_ peers' = add_all (map endpoint_ peers) es.
Proof.
  intros He Hmax Ha Hes Hok. rewrite (parse_peers_encoded b r l peers He Hmax). unfold response_peers. rewrite Ha.
  assert (peer_string_turns (length (concat (map peer_entry es))) = length es) as ->.
  { unfold peer_string_turns. rewrite entries_length.
    replace (6 * length es + 5)%nat with (5 + length es * 6)%nat by lia. rewrite Nat.div_add by lia. done. }
  by apply parse_peer_string_spec.
Qed.

(** A response the decoder rejects leaves the peers alone. *)
Lemma parse_peers_rejected rsp peers : (exists n e pos, bdecode_default rsp = Ok (n, e, pos) /\ e <> no_error) ->
  parse_peers peers rsp = Ok peers.
Proof. intros (n & e & pos & H & He). unfold parse_peers. rewrite H. cbn [mbind result_bind]. by rewrite bool_decide_false. Qed.
End Announce.

(** A compact list whose length is not a multiple of six is read past its end: which
    peer the client adds depends on the memory behind the string. *)
Theorem compact_reads_past_end :
  exists PE1 PE2 : PastEnd,
    parse_peer_string (PE := PE1) (peer_string_turns 4) 0 [10; 0; 0; 1] [] <>
    parse_peer_string (PE := PE2) (peer_string_turns 4) 0 [10; 0; 0; 1] [].
Proof. exists (fun _ _ => 0), (fun _ _ => 1). by vm_compute. Qed.

(** ** Witnesses *)
Section TrackerWitnesses.
Import ListBuffer.

#[local] Instance zero_tail : PastEnd := fun _ _ => 0.

(** A server that redirects without saying where. *)
Definition lost_server : Http (Os := datagram_os) := {|
  http_perform _ s := ((true, 301, [[83; 58]], []), s);
|}.

Lemma header_cb_location_witness :
  header_cb None (bytes_of_string "Location: " ++ bytes_of_string "http://t/a" ++ [13; 10]) =
    Some (bytes_of_string "http://t/a").
Proof. apply (header_cb_location None (bytes_of_string "http://t/a")). by vm_compute. Defined.

Lemma redirect_without_location_witness :
  announce_http (Ht := lost_server) tracked [] [] 6881 asking = Fault OutOfRange.
Proof.
  apply (redirect_without_location (Ht := lost_server) tracked [] [] 6881 asking [[83; 58]] [] true []).
  - done.
  - by repeat constructor.
Defined.

(** What the encoder writes for a dictionary is a response of its pairs. *)
Lemma encodes_entry d b : plain (EDict d) = true -> bencode (EDict d) = Ok (b, Z.of_nat (length b)) ->
  Z.of_nat (length b) <= 2000000 -> (depth (value_of_entry (EDict d)) < 100)%nat ->
  (forall ps, value_of (bytes_of_string "peers") (map (fun kv => (kv.1, value_of_entry kv.2)) d) = Some (BList ps) ->
    Forall is_dict ps) ->
  encodes b (map (fun kv => (kv.1, value_of_entry kv.2)) d).
Proof.
  intros Hp Hb Hl Hd Hps. destruct (encode_plain (EDict d) Hp) as (b' & Hb' & Hi). unfold bencode in Hb.
  assert (b' = b) as -> by congruence. destruct (Hi ltac:(unfold max_offset; lia) 0) as [ts Hts].
  split; [|done|done]. exists ts. split; [done|]. pose proof (item_lengths _ _ _ _ Hts). lia.
Qed.

Definition compact_response : entry :=
  EDict [(bytes_of_string "peers", EStr (concat (map peer_entry [mk_sockaddr 10 20; mk_sockaddr 11 21])))].

Definition list_response : entry :=
  EDict [(bytes_of_string "interval", EInt 1800);
         (bytes_of_string "peers", EList [EDict [(bytes_of_string "ip", EStr (bytes_of_string "10.0.0.1")); (bytes_of_string "port", EInt 80)]])].

Definition text_of (e : entry) : bytes := (ok_or ([], 0) (bencode e)).1.

Lemma parse_peers_value_witness :
  parse_peers [] (text_of list_response ++ [10]) = Ok [mk_peer_info [] (mk_sockaddr 167772161 80)].
Proof.
  apply (parse_peers_value (text_of list_response) [10]
    [(bytes_of_string "interval", BInt 1800); (bytes_of_string "peers",
      BList [BDict [(bytes_of_string "ip", BStr (bytes_of_string "10.0.0.1")); (bytes_of_string "port", BInt 80)]])]
    [([], mk_sockaddr 167772161 80)] []).
  - apply (encodes_entry [(bytes_of_string "interval", EInt 1800); (bytes_of_string "peers", EList [EDict
      [(bytes_of_string "ip", EStr (bytes_of_string "10.0.0.1")); (bytes_of_string "port", EInt 80)]])]).
    + by vm_compute.
    + by vm_compute.
    + by vm_compute.
    + simpl. lia.
    + intros ps [= <-]. constructor; [by eexists|constructor].
  - by vm_compute.
  - apply Forall2_cons. split; [|constructor]. eexists. split; [done|]. by split_and!.
  - by repeat constructor.
  - constructor.
Defined.

Lemma parse_peers_compact_witness :
  exists peers', parse_peers [mk_peer_info [] (mk_sockaddr 11 21)] (text_of compact_response ++ []) = Ok peers' /\
    map endpoint_ peers' = [mk_sockaddr 11 21; mk_sockaddr 10 20].
Proof.
  apply (parse_peers_compact (text_of compact_response) []
    [(bytes_of_string "peers", BStr (concat (map peer_entry [mk_sockaddr 10 20; mk_sockaddr 11 21])))]
    [mk_sockaddr 10 20; mk_sockaddr 11 21]).
  - apply (encodes_entry [(bytes_of_string "peers", EStr (concat (map peer_entry [mk_sockaddr 10 20; mk_sockaddr 11 21])))]).
    + by vm_compute.
    + by vm_compute.
    + by vm_compute.
    + simpl. lia.
    + done.
  - by vm_compute.
  - done.
  - by repeat constructor.
  - by repeat constructor.
Defined.
End TrackerWitnesses.
