(* ===== verification/App.v ===== *)
(** * The program as it is started

    [app/main.cpp], [src/file_reader.cpp] and [src/signal_handler.cpp]: from the command
    line to the running session, and what a signal does.  [main] composes the reading of
    the torrent (TorrentInfo.v), the session (Session.v) and the announce to the trackers
    (TrackerClient.v); what runs after it is the engine of Session.v. *)

From S2P Require Import Prelude ByteBuffer Messages MsgFactory Sockets Net Timer NetReactor Storage Sha1 Sha1Spec.
From S2P Require Import Bdecode Paths FileStorage Entry TorrentFiles TorrentNames TorrentInfo TorrentRead TorrentMake TorrentLayout.
From S2P Require Import Files PieceHandler Agent Samples PieceRequests PieceWrites Download EndToEnd Session SessionLife.
From S2P Require Import UdpTracker TrackerClient.

(** ** Reading the file *)

(** The characters of the file an [std::ifstream] opens, or nothing if it cannot. *)
Class Ifstream := open_file : bytes -> option bytes.

(** [src/file_reader.cpp:9-13] file_reader::to_buffer
    Nothing checks whether the stream is open; one that is not has no characters. *)
Definition to_buffer {IF : Ifstream} (filename : bytes) : bytes := default [] (open_file filename).

(** ** Signals *)

Definition SIGINT : Z := 2.
Definition SIGILL : Z := 4.
Definition SIGABRT : Z := 6.
Definition SIGFPE : Z := 8.
Definition SIGSEGV : Z := 11.
Definition SIGPIPE : Z := 13.
Definition SIGTERM : Z := 15.

(** [src/signal_handler.cpp:9-9] sig_cb
    With the signals [handle] is registered for.  The callback runs on the state [W] of
    the session and prints an [Out]. *)
Record signal_state (W Out : Type) := mk_signal_state { handled : list Z; sig_cb : option (W -> Out) }.
Arguments mk_signal_state {W Out}.
Arguments handled {W Out}.
Arguments sig_cb {W Out}.

(** [src/signal_handler.cpp:11-20] signal_handler::init *)
Definition signal_handler_init {W Out} (st : signal_state W Out) : signal_state W Out :=
  mk_signal_state [SIGABRT; SIGFPE; SIGILL; SIGINT; SIGSEGV; SIGTERM; SIGPIPE] (sig_cb st).

(** [src/signal_handler.cpp:22-25] signal_handler::set_cb *)
Definition signal_handler_set_cb {W Out} (cb : W -> Out) (st : signal_state W Out) : signal_state W Out :=
  mk_signal_state (handled st) (Some cb).

(** What a handled signal does: the program goes on, or ends with a code. *)
Inductive after_signal := goes_on | exits_with (code : Z).

(** [src/signal_handler.cpp:27-58] signal_handler::handle
    What is printed, and what happens next. *)
Definition signal_handler_handle {W Out} (st : signal_state W Out) (signum : Z) (w : W) : result (Out * bytes * after_signal) :=
  match sig_cb st with
  | None => Fault BadFunctionCall
  | Some cb =>
      let received name := bytes_of_string (String.append "RECEIVED " name) in
      if signum =? SIGABRT then Ok (cb w, received "SIGABRT", exits_with signum)
      else if signum =? SIGFPE then Ok (cb w, received "SIGFPE", exits_with signum)
      else if signum =? SIGILL then Ok (cb w, received "SIGILL", exits_with signum)
      else if signum =? SIGINT then Ok (cb w, received "SIGINT", exits_with signum)
      else if signum =? SIGSEGV then Ok (cb w, received "SIGSEGV", exits_with signum)
      else if signum =? SIGTERM then Ok (cb w, received "SIGTERM", exits_with signum)
      else if signum =? SIGPIPE then Ok (cb w, received "SIGPIPE", goes_on)
      else Ok (cb w, [], exits_with signum)
  end.

(** ** The main function *)

Definition EXIT_SUCCESS : Z := 0.
Definition EXIT_FAILURE : Z := 1.

(** [include/session.hpp:36-36] session::PORT *)
Definition session_port : Z := 6881.

(** Where [main] is when it has either decided to return or started the engine's thread. *)
Inductive main_outcome {BB : ByteBuffer} {Os : OS} :=
  | main_returns (code : Z)
  | main_runs (ti : torrent_info) (local_peer_id : bytes) (w : world).

Section Main.
Context {EN : Endian} {CRC : Crc32c} {SH : Shuffle} {IF : Ifstream}.
Context {BB : ByteBuffer} {PE : PastEnd} {Os : OS} {Udp : UdpOS} {HT : Http} {FS : FileSystem} {SHA : Sha1} {SO : SetOrder}.

(** [app/main.cpp:41-44] main
    The session from its construction to the start of the engine's thread; without peers
    [start] returns at once and [main] reports success.  [draws] are the random numbers
    of the peer id, [efd] and [udp_efd] the epoll descriptors, [fuel] bounds the polling
    of a UDP tracker. *)
Definition main_session (fuel : nat) (efd udp_efd : Z) (draws : nat -> Z) (ti : torrent_info) (dk : disk) (s : os) : result main_outcome :=
  w ← session_create ti (net_reactor_create efd 5000) dk s;
  let local_peer_id := create_local_peer_id draws in
  '(announced, peers, s) ← tracker_client_announce ti fuel udp_efd session_port local_peer_id [] (os_ w);
  let w := set_os s w in
  if announced : bool then
    w ← session_start ti local_peer_id (Some peers) w;
    Ok (main_runs ti local_peer_id w)
  else Ok (main_returns EXIT_SUCCESS).

(** [app/main.cpp:15-50] main
    [garbage] is what the uninitialised buffer of the hasher holds.  A size that an [int]
    cannot hold would become a negative one. *)
Definition main (fuel : nat) (efd udp_efd : Z) (draws : nat -> Z) (garbage : bytes) (argv : list bytes) (dk : disk) (s : os) :
    result main_outcome :=
  match argv with
  | _ :: filename :: _ =>
      let file_buffer := to_buffer filename in
      if 2 ^ 31 <=? Z.of_nat (length file_buffer) then Fault BadPrecondition
      else
        '(torrent, error) ← torrent_info_create garbage file_buffer;
        match error with
        | Some _ => Ok (main_returns EXIT_FAILURE)
        | None => main_session fuel efd udp_efd draws (info_of torrent) dk s
        end
  | _ => Ok (main_returns EXIT_FAILURE)
  end.

(** ** What [main] guarantees *)

Lemma main_session_runs fuel efd udp_efd draws ti dk s ti' id w : main_session fuel efd udp_efd draws ti dk s = Ok (main_runs ti' id w) ->
  ti' = ti /\ id = create_local_peer_id draws /\ exists mkdirs ph w0 peers, piece_handler_create ti dk = Ok (mkdirs, ph) /\
    piece_handler_ w0 = ph /\ session_start ti id (Some peers) w0 = Ok w.
Proof.
  unfold main_session. intros (w0 & H0 & ([[ok peers] s'] & _ & H)%result_bind_ok)%result_bind_ok.
  apply result_bind_ok in H0 as ([mk ph] & H0 & [= <-]). destruct ok; [|done].
  apply result_bind_ok in H as (w1 & H1 & [= <- <- <-]). split_and!; [done|done|]. exists mk, ph. eexists. exists peers.
  split_and!; [done| |exact H1]; done.
Qed.
End Main.

(** *** The whole program on a torrent made for some content *)
Section Program.
Context {EN : Endian} {CRC : Crc32c} {SH : Shuffle} {SL : ShuffleLaws SH} {IF : Ifstream}.
Context {BB : ByteBuffer} {BL : ByteBufferLaws BB} {PE : PastEnd} {Os : OS} {Udp : UdpOS} {HT : Http} {FS : FileSystem} {SO : SetOrder}.
#[local] Existing Instance standard_digest.

(** C2: The program from the command line to the files.  The torrent file is made for the content
    [D] with the restrictions of [made_torrent_downloads] (plain names, paths that do not collide,
    distinct last elements, a piece length that is a multiple of 16384, fewer
    than 2^48 bytes, a text of at most 2000000 bytes), its files can be opened and [epoll_wait]
    does not fail.  Started on it, a client whose session has stopped, and whose piece handler
    has been given blocks of [D] only, in whatever order and however the messages were cut, has
    left on disk every file of the torrent with its part of [D]. *)
Theorem program_downloads fuel efd udp_efd draws garbage program filename args dk s mt D text ti id w turns w' mkdirs ph0 :
  length garbage = 64%nat -> made_ok mt -> names_differ mt -> made_for mt D -> mt_piece_length mt mod BLOCK_LEN = 0 ->
  NoDup (map mf_leaf (mt_files mt)) ->
  bencode (torrent_made mt) = Ok (text, Z.of_nat (length text)) -> Z.of_nat (length text) <= 2000000 -> bytes_ok text ->
  open_file filename = Some text ->
  (forall path, path ∈ (made_files mt D).*1 -> fs_can_open path = true) ->
  (forall m ms s, (sys_epoll_wait m ms s).1 <> None) ->
  main fuel efd udp_efd draws garbage (program :: filename :: args) dk s = Ok (main_runs ti id w) ->
  engine ti id turns w = Ok w' -> running_ w' = false ->
  piece_handler_create ti dk = Ok (mkdirs, ph0) -> rtc (download_step ti (genuine ti D)) ph0 (piece_handler_ w') ->
  files_on_disk ti (disk_ (piece_handler_ w')) = made_files mt D.
Proof.
  intros Hg Hok Hd HD Hbl Hleaves Ht Hlen Hb Hopen Hcan Hp Hmain He Hr Hc Hsteps.
  destruct (made_loads_as garbage mt Hg Hok Hd) as (text' & Ht' & Hload). rewrite Ht in Ht'. injection Ht' as <- _.
  destruct (Hload Hlen Hb) as (o & Ho & Hl). unfold main, to_buffer in Hmain. rewrite Hopen in Hmain. change (default [] (Some text)) with text in Hmain.
  rewrite (proj2 (Z.leb_gt (2 ^ 31) (Z.of_nat (length text)))) in Hmain by lia. rewrite Ho in Hmain. cbn [mbind result_bind] in Hmain.
  apply main_session_runs in Hmain as (-> & _ & mk & ph & w0 & peers & Hcreate & Hw0 & Hs).
  rewrite Hc in Hcreate. injection Hcreate as <- <-. rewrite <- Hw0 in Hsteps, Hc.
  pose proof (loaded_ok mt _ Hok Hl) as Htok. rewrite <- (la_piece_length _ _ Hl) in Hbl.
  pose proof (loaded_distinct mt _ Hok Hl Hleaves) as Hdf.
  assert (forall f, f ∈ ti_files (info_of o) -> fs_can_open (fe_path f) = true) as Hfo.
  { intros f Hf. apply Hcan. rewrite made_files_paths, <- (loaded_paths mt (info_of o) Hl). by apply list_elem_of_fmap_2. }
  destruct (client_stopped (info_of o) id (genuine (info_of o) D) dk mkdirs peers turns w0 w w') as (S & Hinv & Hn);
    try done; [by apply (loaded_fits mt)|by intros ??? [? _]|].
  apply (loaded_on_disk mt _ Hok Hl D (file_handlers_ (piece_handler_ w'))); [apply Hinv|].
  apply (genuine_content (info_of o) Htok Hdf Hbl (loaded_fits mt _ Hok Hl) Hfo D S); [|exact Hinv|exact Hn]. rewrite (la_total _ _ Hl). by apply HD.
Qed.
End Program.

(** ** Failing to start *)
Section Refusal.
Context {EN : Endian} {CRC : Crc32c} {SH : Shuffle} {IF : Ifstream}.
Context {BB : ByteBuffer} {PE : PastEnd} {Os : OS} {Udp : UdpOS} {HT : Http} {FS : FileSystem} {SHA : Sha1} {SO : SetOrder}.

(** The program fails exactly when no file is named, or the file is not a torrent; before
    it has announced itself, created a directory or a file. *)
Theorem main_refuses fuel efd udp_efd draws garbage argv dk s :
  main fuel efd udp_efd draws garbage argv dk s = Ok (main_returns EXIT_FAILURE) <->
  (length argv < 2)%nat \/ exists program filename args o e, argv = program :: filename :: args /\
    Z.of_nat (length (to_buffer filename)) < 2 ^ 31 /\ torrent_info_create garbage (to_buffer filename) = Ok (o, Some e).
Proof.
  destruct argv as [|program [|filename args]]; [simpl; split; [left; lia|done]..|]. unfold main. cbv zeta. split.
  - destruct (Z.leb_spec (2 ^ 31) (Z.of_nat (length (to_buffer filename)))) as [|Hlen]; [done|].
    intros ([o [e|]] & Ho & H)%result_bind_ok; [right; by exists program, filename, args, o, e|exfalso].
    revert H. unfold main_session. intros (w & _ & ([[ok peers] s'] & _ & H)%result_bind_ok)%result_bind_ok.
    destruct ok; [by apply result_bind_ok in H as (w' & _ & H)|done].
  - intros [H|(p & f & a & o & e & [= <- <- <-] & Hlen & Ho)]; [simpl in H; lia|].
    rewrite (proj2 (Z.leb_gt (2 ^ 31) (Z.of_nat (length (to_buffer filename))))), Ho by done. done.
Qed.

(** A file that cannot be opened is an empty one, which is no torrent. *)
Lemma missing_file_refused fuel efd udp_efd draws garbage program filename args dk s : open_file filename = None ->
  main fuel efd udp_efd draws garbage (program :: filename :: args) dk s = Ok (main_returns EXIT_FAILURE).
Proof. intros H. unfold main, to_buffer. rewrite H. done. Qed.
End Refusal.

(** *** Signals *)

(** Until the session exists there is no callback, and every handled signal ends in an
    exception out of the handler. *)
Lemma signal_before_session {W Out} signum (w : W) :
  signal_handler_handle (signal_handler_init (mk_signal_state [] (None : option (W -> Out)))) signum w = Fault BadFunctionCall.
Proof. done. Qed.

(** With a session, a handled signal prints what is missing; a broken pipe lets the
    program go on, every other ends it with the number of the signal. *)
Lemma signal_handled {W Out} (cb : W -> Out) st signum w :
  signum ∈ handled (signal_handler_set_cb cb (signal_handler_init st)) ->
  exists text, signal_handler_handle (signal_handler_set_cb cb (signal_handler_init st)) signum w =
    Ok (cb w, text, if signum =? SIGPIPE then goes_on else exits_with signum).
Proof. cbn. intros H. repeat (apply elem_of_cons in H as [->|H]; [by eexists|]). by apply elem_of_nil in H. Qed.

(** ** A run of the whole program *)
Section Run.
Import ListBuffer.

#[local] Existing Instance standard_digest.
#[local] Instance any_path : FileSystem := Sample.every_path.
#[local] Instance in_order : SetOrder := Sample.element_order.
#[local] Instance zeros : PastEnd := fun _ _ => 0.
#[local] Instance big_endian : Endian := false.
#[local] Existing Instance sample_crc.
#[local] Existing Instance sample_shuffle.
#[local] Existing Instance sample_shuffle_laws.

(** The sample torrent with an HTTP tracker. *)
Definition web_made : made_torrent :=
  mk_made_torrent (key "http://t/") (mt_name hello_made) (mt_piece_length hello_made) (mt_files hello_made) (mt_pieces hello_made).

Lemma web_made_ok : made_ok web_made.
Proof. destruct hello_made_ok as [_ H2 H3 H4 H5 H6]. split; [split_and!; by vm_compute|done..]. Qed.

Definition web_text : bytes := (ok_or ([], 0) (bencode (torrent_made web_made))).1.

#[local] Instance one_file_disk : Ifstream := fun path => if bool_decide (path = key "t.torrent") then Some web_text else None.

(** A system on which descriptor 3 always has the same bytes to read: a handshake and the
    block of the torrent. *)
#[local] Instance web_os : OS :=
  with_events [(3, EPOLLIN)] (Sample.scripted_os (Some (bb_readable (msg_factory_new_handshake (replicate 20 66) (replicate 40 48)) ++
    be 4 14 ++ 7 :: bb_readable (Sample.delivery hello))) (Some 0) 1).

#[local] Instance no_datagrams : UdpOS := {|
  sys_udp_socket s := (4, s);
  sys_sendto _ l _ s := (Z.of_nat (length l), s);
  sys_recvfrom _ _ s := (None, s);
  sys_random_device s := (77, s);
  sys_getaddrinfo _ s := (None, s);
|}.

(** A tracker that knows one peer. *)
#[local] Instance web_tracker : Http := {|
  http_perform _ s := ((true, 200, [], text_of compact_response), s);
|}.

Definition outcome_or (r : result main_outcome) : torrent_info * bytes * world :=
  match r with
  | Ok (main_runs ti id w) => (ti, id, w)
  | _ => (mk_torrent_info 0 0 0 [] (fun _ => []) [] [], [],
          mk_world ∅ (net_reactor_create 0 0) timer_init (mk_piece_handler ∅ ∅ ∅ ∅ 0 ∅) false false nothing_sent)
  end.

Definition runs (r : result main_outcome) : bool := match r with Ok (main_runs _ _ _) => true | _ => false end.

Lemma outcome_or_runs r : runs r = true -> r = Ok (main_runs (outcome_or r).1.1 (outcome_or r).1.2 (outcome_or r).2).
Proof. by destruct r as [[]|]. Qed.

#[local] Notation web_main := (main 0 9 10 (fun _ => 0) (replicate 64 0) [key "tent"; key "t.torrent"] ∅ nothing_sent).

Definition web_ti : torrent_info := (outcome_or web_main).1.1.
Definition web_id : bytes := (outcome_or web_main).1.2.
Definition web_start : world := (outcome_or web_main).2.
Definition web_end : world := ok_or web_start (engine web_ti web_id 2 web_start).
Definition web_created : list bytes * piece_handler :=
  ok_or ([], piece_handler_ web_start) (piece_handler_create web_ti ∅).

Lemma web_main_ok : web_main = Ok (main_runs web_ti web_id web_start).
Proof. apply outcome_or_runs. by vm_compute. Qed.

Lemma web_end_ok : engine web_ti web_id 2 web_start = Ok web_end.
Proof. apply is_ok_or. by vm_compute. Qed.

Lemma web_created_ok : piece_handler_create web_ti ∅ = Ok (web_created.1, web_created.2).
Proof. rewrite <- surjective_pairing. apply is_ok_or. by vm_compute. Qed.

Lemma web_sizes : bool_decide (ti_num_pieces web_ti = 1 /\ num_blocks web_ti 0 = 1 /\ block_size web_ti 0 0 = 5) = true.
Proof. by vm_compute. Qed.

#[local] Existing Instance piece_handler_eq_dec.

Definition web_after : piece_handler * bool :=
  ok_or (web_created.2, false) (received web_ti (Sample.delivery hello) web_created.2).

Lemma web_received : received web_ti (Sample.delivery hello) web_created.2 = Ok (web_after.1, true).
Proof. apply is_ok_pair; by vm_compute. Qed.

Lemma web_end_handler : piece_handler_ web_end = web_after.1.
Proof. apply (bool_decide_unpack _). by vm_compute. Qed.

Lemma web_text_ok : bencode (torrent_made web_made) = Ok (web_text, Z.of_nat (length web_text)).
Proof.
  destruct (made_loads_as (replicate 64 0) web_made) as (text & Ht & _); [done|exact web_made_ok|by vm_compute|].
  unfold web_text. by rewrite Ht.
Qed.

Lemma program_downloads_witness :
  files_on_disk web_ti (disk_ (piece_handler_ web_end)) = [(key "t/a", key "he"); (key "t/d/b.txt", key "llo")].
Proof.
  destruct (proj1 (bool_decide_eq_true _) web_sizes) as (Hn & Hb & Hs).
  change [(key "t/a", key "he"); (key "t/d/b.txt", key "llo")] with (made_files web_made hello).
  apply (program_downloads (Os := web_os) 0 9 10 (fun _ => 0) (replicate 64 0) (key "tent") (key "t.torrent") [] ∅ nothing_sent
    web_made hello web_text web_ti web_id web_start 2 web_end web_created.1 web_created.2).
  - done.
  - exact web_made_ok.
  - by vm_compute.
  - exact hello_made_for.
  - by vm_compute.
  - decide_by_computation.
  - exact web_text_ok.
  - by vm_compute.
  - decide_by_computation.
  - done.
  - done.
  - done.
  - exact web_main_ok.
  - exact web_end_ok.
  - by vm_compute.
  - exact web_created_ok.
  - rewrite web_end_handler. apply rtc_once.
    apply (dl_received (BB := ListBuffer.list_buffer) web_ti (genuine web_ti hello) (Sample.delivery hello) 0 0 hello _ _ true);
      [unfold piece_index_ok; rewrite Hn; lia|rewrite Hb; lia| |done|exact web_received].
    split; rewrite Hs; [done|]. by vm_compute.
Defined.
End Run.
